(* ===== verification/_CoqProject ===== *)
-Q . S2P
Prelude.v
Graphs.v
Processes.v
Values.v
AuditRecords.v
Errors.v
Floats.v
Data.v
Grammar.v
References.v
Evaluator.v
Models.v
AuditCapture.v
Analysis.v
AnalysisFacts.v
Runner.v
RunnerFacts.v
Samples.v
Termination.v
Dataflow.v
Iteration.v
Cuts.v
Resume.v
Regions.v
AuditTrail.v
Until.v
Metering.v
Failures.v
Canonical.v
Scope.v
ScopeFacts.v
Messages.v
Deduplication.v
DeduplicationFacts.v
Relay.v
RelayFacts.v
FloatBounds.v
Consumer.v
ConsumerFacts.v
Activation.v
ActivationFacts.v
ActivationPlanning.v
Routing.v
ScheduleSpecs.v
StartRequests.v
Schedules.v
RuntimeIndex.v
ActivationStore.v
ActivationController.v
ActivationControllerFacts.v
ScheduleReconciler.v
ScheduleFacts.v
Catalog.v
CatalogMigration.v
CatalogBackends.v
CatalogInterface.v
CatalogBackendFacts.v
CatalogFacts.v
Registries.v
RegistryFacts.v
ResourceLoader.v
ResourceLoaderFacts.v
Contracts.v
ContractFacts.v
Diagnostics.v
Validation.v
ValidationFacts.v
ScheduledStarts.v
TemporalCalls.v
Starter.v
ScheduledStartStore.v
ScheduledStartListing.v
ScheduledStartService.v
ScheduledStartDispatch.v
ScheduledStartWorld.v
ScheduledStartInvariant.v
ScheduledStartCleanup.v
ScheduledStartSpecs.v
ScheduledStartDispatchSpecs.v
ScheduledStartPools.v
