(* ===== verification/Prelude.v ===== *)
(** * A verification development for justflow

    justflow runs workflows that are declared as data: a flow of named steps, each of
    which calls a service or a child workflow, iterates over items, polls until a
    condition holds, waits for a signal or sleeps, and names its successors and the
    handler of its failures.  Messages from brokers answer its waits, and a control plane
    activates revisions of the configuration.  This library models the engine of
    src/justflow (the packages [config] and [engine]), the cross-checks of a
    configuration ([config]), the resources that it declares ([resources], [transports],
    [sdk]), the activation of configurations ([configuration], [runtime]), schedules
    ([runtime]), the catalog of definitions ([definitions]) and the starts of workflows
    ([runtime]) as executable definitions and proves what makes them correct.  Unless said otherwise a definition bears the
    name of the Python function, and file names are below src/src/justflow/.

    ** The program and its model

    Workflows.  A declaration is built and checked by [config/models.py] ([Models]), whose
    texts follow the grammar of [config/grammar.py] ([Grammar]).  [engine/analysis.py]
    ([Analysis]) checks its control flow and its references before it may run.
    [engine/runner.py] ([Runner]) runs it: it resolves inputs with
    [engine/references.py] ([References]), decides with the inline conditions of
    [engine/evaluator.py] ([Evaluator]), normalises what services answer with
    [engine/data.py] under the limits of [config/runtime_limits.py] and
    [engine/limits.py] ([Data]), classifies failures with [engine/errors.py]
    ([Errors]), keeps the records of [engine/audit.py] and the checkpoints of
    [engine/continuation.py] ([AuditRecords]), whose size is that of the canonical text
    of [engine/serialization.py] ([Values], [Data]), and archives a record captured by
    [engine/audit_capture.py] ([AuditCapture]).

    Configurations.  [config/validator.py] resolves the declared resources and services
    through the registries of [resources/registry.py] and [transports/registry.py]
    ([Registries]) and runs [config/_workflow_validation.py] on every workflow
    ([Validation]), which inspects the schemas of [engine/contracts.py] ([Contracts]); what
    the checks find is collected as diagnostics ([Diagnostics]).  The resources of a
    valid configuration are built, initialised and closed by [sdk/resource_loader.py]
    ([ResourceLoader]).

    Delivery.  Responses arrive from brokers as messages with the envelopes of
    [sdk/message_contract.py] ([Messages]), addressed within a runtime scope of
    [scope.py] ([Scope]).  The consumer loop of [engine/response_relay.py] and
    [engine/trigger_ingress.py] polls with the backoff of [engine/consumer_backoff.py]
    ([Consumer]); the relay ([Relay]) runs one task per message, claims it in the store
    of [engine/deduplication.py] ([Deduplication]), signals the workflow and settles the
    message.

    Activation.  [configuration/activation.py], [configuration/activation_store.py] and
    [configuration/lifecycle.py] define the records of activations, publications and
    discards and the operations that derive one from another ([Activation]); what an
    activation changes is planned from two bundles ([ActivationPlanning]); the prepared
    runtimes and their index are the first half of
    [runtime/configuration_activation.py] ([RuntimeIndex]) and its controller the second
    ([ActivationController]), over the store of [configuration/activation_sqlite.py]
    ([ActivationStore]).

    Schedules.  A schedule trigger ([config/schedules.py], [config/triggers.py]:
    [ScheduleSpecs]) compiles into the schedule that Temporal should hold
    ([runtime/schedules.py]: [Schedules]), for a target of [definitions/routing.py]
    ([Routing]); [runtime/schedule_reconciler.py] ([ScheduleReconciler]) observes what
    Temporal holds, plans the difference and applies it.

    Definitions.  [definitions/catalog.py] ([Catalog]) keeps immutable manifests and the
    alias that names the active one of each workflow, over a backend; the backends are
    [definitions/s3.py] and the one that confines a scope to its prefix
    ([CatalogBackends]); [definitions/migration.py] moves a catalog
    ([CatalogMigration]).

    Starts.  Every client starts workflows through [runtime/starter.py]: sources,
    triggers, registrations and the check of an input ([StartRequests]), the calls
    ([TemporalCalls]) and [WorkflowStarter] ([Starter]).  A one-off scheduled start is a
    record of [runtime/scheduled_starts.py] ([ScheduledStarts]) that Temporal holds as
    the argument of a schedule.  [runtime/scheduled_start_service.py] reads and writes it
    ([ScheduledStartStore]), lists ([ScheduledStartListing], with the cursors of
    [scope.py]) and serves the commands ([ScheduledStartService]).  Every version of a
    record is consumed by one arbiter, a workflow whose identity is made of the start and
    the version; the activities and workflows are those of
    [runtime/scheduled_start_dispatch.py] ([ScheduledStartDispatch]).
    [runtime/scheduled_start_cleanup.py] deletes what has ended
    ([ScheduledStartCleanup]).

    Files, in the order in which they build on each other:
    - [Prelude]: results of functions that may raise, traversals, Python dicts as
      association lists in insertion order, strings and decimal numerals; [Graphs]:
      walks, cycles and the lists that a depth-first search leaves;
    - [Values]: JSON values, Python objects that reach the normaliser, exact comparison
      of numbers, canonical JSON text; [AuditRecords]; [Errors]: exceptions as values
      with class, text and cause; [Floats]: the float operations in use; [Data];
      [Grammar]; [References]; [Evaluator]; [Models]; [AuditCapture]; [Analysis];
    - [AnalysisFacts]: the analysis against paths of the control-flow graph;
    - [Runner]: one record [RunState] for [_RunState], one definition per method of
      [FlowRunner], and the loop of [_execute] cut into turns ([run_turn], [run_flow]);
    - [RunnerFacts], [Samples]: frame conditions, the effect of a turn, and the scripted
      executor on which witnesses evaluate;
    - [Termination], [Dataflow], [Iteration], [Cuts], [Resume], [Regions], [AuditTrail],
      [Until], [Metering], [Failures], [Canonical]: the theorems, a file per subject;
    - [Scope], [ScopeFacts], [Messages]; [Deduplication], [DeduplicationFacts];
      [Relay], [RelayFacts]; [FloatBounds], [Consumer], [ConsumerFacts];
    - [Activation], [ActivationFacts]; [ActivationPlanning]; [Routing];
      [ScheduleSpecs], [StartRequests], [Schedules]; [RuntimeIndex]; [ActivationStore];
      [ActivationController], [ActivationControllerFacts];
    - [ScheduleReconciler], [ScheduleFacts];
    - [Processes]: programs as trees of calls, what holds of a program among others
      ([wp]) and pools of processes; [Catalog], [CatalogMigration], [CatalogBackends];
      [CatalogInterface]: the promises of a backend; [CatalogBackendFacts]: the backends
      keep them; [CatalogFacts];
    - [Registries], [RegistryFacts]; [ResourceLoader], [ResourceLoaderFacts];
      [Contracts], [ContractFacts]; [Diagnostics]; [Validation], [ValidationFacts];
    - [ScheduledStarts], [TemporalCalls], [Starter], [ScheduledStartStore],
      [ScheduledStartListing], [ScheduledStartService], [ScheduledStartDispatch],
      [ScheduledStartCleanup]: the code of starts;
    - [ScheduledStartWorld]: how Temporal answers and the rules of triples;
      [ScheduledStartInvariant]: what always holds of the starts of a scope;
      [ScheduledStartSpecs], [ScheduledStartDispatchSpecs]: a triple for every operation,
      activity and workflow; [ScheduledStartPools]: the theorems on any interleaving of
      them, and a server that computes, on which their witnesses run.

    ** How the code is represented

    A function that may raise returns a [result]; a method of the runner is a computation
    over a [machine] (the state of the run, the count of invocations and the outside
    world), which keeps its changes when it raises, as Python does.  What the engine is
    given is an argument: the type class [StepExecutor] holds the methods of the
    protocol of that name (services, child workflows, waits, sleeps, contracts, the
    archive, the clock, the history of the server), each a function of the world that
    may raise anything; [DateTime], [PyParser] and [FloatRepr] stand for [datetime],
    [ast.parse] and [float.__repr__], [Sha256] for [hashlib.sha256], [EnvelopeParser] and
    [RecordCodec] for what pydantic makes of a text.  The order in which the parallel
    calls of one chunk complete is chosen by the executor, so theorems hold for every
    order.

    The tasks of the relay are a list of states that [relay_step] advances one await at
    a time, in any order, with cancellations between; the methods of the store of
    deduplication hold its lock and are one step each.  The controller of activations is
    a computation over a world ([CM]) that the type class [ActivationEnvironment]
    describes: its stores, bindings and clock.  [ActivationStoreLaws] is the interface
    that the controller relies on; [sqlite_laws] shows that the SQLite store implements
    it.  Other controllers change the world between any two calls.  The reconciler of
    schedules runs over the client of Temporal ([TemporalClient]); [TimeZones] and
    [PayloadContracts] stand for the time zone database and for JSON schemas.  The
    catalog is a program over the calls of an S3 client ([Processes]); the service
    answers each call as [S3Laws] allows, and the theorem on it follows from
    [BackendLaws], which [scoped_laws] and [s3_backend_laws] discharge.  [CatalogCodec]
    stands for the texts of models; of a value that is given to an operation it is
    assumed that its text reads back ([genuine], [readable]).

    The starter and the scheduled starts are programs over [temporal_call]: the client of
    Temporal, the resolver of targets, the clocks and what observers record.  The updater
    that the service hands to an update is a function in the call, which the server
    applies to the schedule of that moment.  [temporal_step] says how a server may answer:
    a workflow identity is used once ([REJECT_DUPLICATE]), a call that changes something
    may take effect and still raise, an activity may run again after its completion was
    lost, and the run of a workflow continues or completes only if it is still the current
    one.  A worker of an arbiter is a program as well, so several workers on one arbiter
    are in the pool like everybody else.  Arguments of workflows and activities are typed
    values; that their JSON text reads back is pydantic's.

    A validator is the list of its findings in order; [collect] adds them to the bounded
    result, and an exception that escapes a check ends the validation.  The loader of
    resources is a program whose calls are the factories and methods of the resources;
    a theorem on it holds for all complete runs ([runs]), whatever the answers.
    [ContractLibrary] stands for the import of models, jsonschema, referencing and
    [urljoin], [EvaluatorLibrary] and [class_import] for the import of an application's
    evaluators and resource classes; providers carry their own code as functions.

    Integers of Python are unbounded ([Z]); floats are IEEE 754 binary64 values
    ([spec_float]).  Characters are code points below 256; character 133 stands for the
    ellipsis that the engine inserts when it shortens a text.  The names of steps and
    targets and the texts of conditions are non-empty by their field types, so a test
    for truth and one for [is not None] agree and are not told apart.  Identity models
    that a run carries unchanged are kept as their JSON dumps.  A Python set is a
    [gset]; where its order of iteration matters the order is that of [elements].  Times
    of the control plane are integers, in microseconds.

    ** Fuel

    Loops that end when a worklist is empty take fuel, and a theorem shows that the fuel
    used is enough: [reachable_fuel] (pending entries and edges), [find_cycle] (steps),
    [topological_order] (steps), [region_fuel] (successors, [region_walk]),
    [parse_placeholders] (characters), [run_pool] (tasks of the chunk, [run_pool_spec]),
    [iterate_parallel] (items).  The flow loop itself is bounded by nothing in the
    code: [run_flow] returns [None] where fuel runs out, and [run_terminates] shows that
    [run_fuel] turns always suffice.  The relay and the consumer loop run for as long as
    messages come; they are step relations and runs over the polls of a broker.

    The depth-first searches over resources and workflows have as much fuel as there are
    nodes ([visit_resource_spec], [visit_workflow_spec]).  The inspection of a schema
    takes [inspect_fuel] steps: references are followed once each, and between two of
    them the node gets smaller ([inspection_terminates]).  The recursion over the
    subresources that referencing reports is bounded by the size of the schema; beyond
    it, as in Python, it ends with [RecursionError].

    A listing of the catalog follows continuation tokens for as long as the service
    gives them; the model follows [pages] of them and is [Running] after that, and
    [catalog_always_loads] holds for every bound.  Likewise the attempts of an activity
    without a bound, the runs of a worker and the pages of a listing have a bound in the
    model ([tries], [runs], [pages]) that the theorems on pools leave open.

    ** What is shown

    - Analysis ([AnalysisFacts]): a workflow has no issue exactly when its flow is sound
      ([analyze_workflow_exact]); cycles found are cycles, and none is missed
      ([find_cycle_exact]).
    - Configurations: a valid result is one without errors among at most 1000 findings,
      and it guarantees what the theorems on runs assume - distinct names, a closed flow
      and an analysis without issues - as well as acyclic composition and a load order
      ([valid_configuration_checked]); the inspection of schemas ends
      ([inspection_terminates]).
    - Resources: the load order exists exactly when it can ([load_order_exact]); whatever
      fails, what was initialised is closed in reverse ([resources_closed_in_reverse]).
    - Runs of analysed workflows: they terminate ([run_terminates]); the roots that a
      step refers to are bound, up to the second failure ([references_bound]); the flow
      ends at a terminal step ([flow_ends_at_terminal]); every turn leaves one audit
      entry and one named decision ([turn_audited]); the regions that decide how long a
      handler is active are the reachable sets they stand for ([regions_exact]).
    - Loops: parallel iteration gives what sequential iteration gives, for every order
      of completion ([parallel_iteration_equivalent]); results keep the order of the
      items ([iteration_in_item_order]); an until loop returns the first satisfying
      answer ([until_first_satisfied]).
    - Continuation: a run cut into histories at its checkpoints ends as the uncut run
      ([histories_transparent]); the uncut run is the specification, and [Resume] builds
      the simulation bottom-up, from one checkpoint to whole runs.
    - Limits and failures: the executor gets no more calls than allowed
      ([calls_within_limit]); a failed run raises one bounded failure that names its
      primary cause ([run_reports_failure]).
    - Data: normalisation is a projection on bounded JSON ([normalize_projection]); path
      traversal is exact ([resolve_json_path_exact]); canonical text determines the
      value ([canonical_text_exact]); redaction is exact ([redact_at_exact]).
    - Conditions and texts: conditions return a boolean or raise their own error
      ([condition_outcomes]), mean what their references denote
      ([condition_reference_meaning]) and read only the roots reported
      ([condition_reads_only_roots]); interpolation succeeds exactly when its names are
      bound ([interpolation_total_iff_names_bound], [interpolate_string_spec]); the
      grammar accepts what it prints ([reference_path_language],
      [placeholders_partition]).
    - Scheduled starts, for clients, schedules, workers and other starts in any
      interleaving from an empty server: one command wins a version
      ([one_command_wins]); a start that a client was told is canceled is never
      dispatched ([canceled_start_not_dispatched]); what is stored only goes on by steps
      of the state machine ([stored_records_go_on]), each decided by the arbiter of the
      version it consumes ([stored_records_decided]).  They follow from [consistent], an
      invariant of the server, and from [pool_sound].  Cleanup takes exactly the records
      that ended by the cutoff ([deletable_exact]).
    - Delivery: the deduplication store refines a ledger of deliveries
      ([store_refines_ledger], [completion_remembered]); scoped identities are exact up
      to the digest ([scoped_identity_exact]); a message is signalled by one task at a
      time ([one_delivery_at_a_time]), every task settles ([deliveries_settle]) and
      messages go where their envelope says ([relayed_messages_exact]); the consumer
      loop keeps its delays in bounds ([consumer_loop_bounded]).
    - Activation: operations keep records valid ([records_stay_valid]), histories are
      paths of the state machine ([activation_history]) and a lease excludes others
      ([lease_excludes_others]); the store is a versioned register per record
      ([store_refines_registers]); the controller changes things outside in order and
      under its lease ([activation_effects_ordered]) and leaves a clear record
      ([resume_outcomes]).
    - Schedules: one pass of reconciliation establishes the desired schedules and leaves
      all others alone ([reconciliation_converges]); a calendar acts at the times its
      ranges stand for ([calendar_actions_exact]).
    - Definitions: the catalogs of all scopes always load, for every interleaving of
      their writers ([catalog_always_loads]).

    Theorems that hold only under a condition name it.  [unhandled_loops] in [Resume]
    stands for an observed defect, which [handler_takes_continuation] exhibits: the
    runner hands a continuation raised inside a loop to the failure handler of the loop.
    [fails_running] in [ActivationFacts] excludes the histories that run into the bound
    on transitions while an activation runs ([stranded_running]), and [resume_outcomes]
    leaves room for a controller that fails an activation after its lease has expired
    ([terminal_ignores_lease]).  The pools of scheduled starts have no cleanup in them: a
    start that is created again after its schedule was deleted has version 1 again and
    meets the arbiter of the deleted one.  They have the quota controller of the
    repository or none ([local_or_no_quota]).

    ** What is not modelled

    Pydantic's parsing of declarations (field types and constraints; those the engine
    relies on are [FlowStep_fields], those of the control plane the [_fields] of a
    record), the schema hooks, the pretty layouts of JSON and [loads_strict_json].  Of
    validation, Python's limit on recursion and checks of Python types.  Of messages, the
    trigger payloads and the reading of triggers from a broker; of the activation store,
    its schema and the pages of listings; of the controller, listings, metrics, the checks
    of a prepared worker deployment and the bindings that look a scope up; of scheduled
    starts, the installation of the schedule of the cleanup.  Metrics are calls without an
    effect.

    Left out as a whole: the binding to the Temporal SDK (engine/compiler.py, worker.py,
    activities.py), which is glue around the runner modelled here; the control API and the
    queries of operators, which are requests and answers of a web framework around the
    services modelled here, and the generated OpenAPI documents; payload protection, which
    is the cryptography of a library; files of configurations, publication, policies and
    the AWS stores, the construction of manifests, the catalog on a local directory, HTTP
    services, brokers and the clients behind transports and resources, which are input,
    output and calls of libraries; the command line, packaging and drawings. *)

From Stdlib Require Export Ascii ZArith Lia.
From Stdlib Require Import DecimalString DecimalZ DecimalFacts DecimalN DecimalPos DecimalNat.
From stdpp Require Export prelude strings list option.
Export list_basics.list list_relations.list list_monad.list list_misc.list.

(** ** Results: Python functions that may raise *)

Inductive result (E A : Type) : Type :=
| Ok (a : A)
| Raise (e : E).

Arguments Ok {E A} a.
Arguments Raise {E A} e.

#[export] Instance result_ret E : MRet (result E) := fun A a => Ok a.

#[export] Instance result_bind E : MBind (result E) :=
  fun A B f m => match m with Ok a => f a | Raise e => Raise e end.

#[export] Instance result_fmap E : FMap (result E) :=
  fun A B f m => match m with Ok a => Ok (f a) | Raise e => Raise e end.

Definition is_ok {E A} (r : result E A) : bool :=
  match r with Ok _ => true | Raise _ => false end.

(** [try m except e => h e] *)
Definition catch {E E' A} (m : result E A) (h : E -> result E' A) : result E' A :=
  match m with Ok a => Ok a | Raise e => h e end.

(** [if not cond: raise e] *)
Definition guard_or {E} (cond : bool) (e : E) : result E unit :=
  if cond then Ok tt else Raise e.

Definition from_option {E A} (o : option A) (e : E) : result E A :=
  match o with Some a => Ok a | None => Raise e end.

(** A list comprehension whose element expression may raise. *)
Definition traverse {E A B} (f : A -> result E B) : list A -> result E (list B) :=
  fix go l :=
    match l with
    | [] => Ok []
    | x :: l => y ← f x; ys ← go l; Ok (y :: ys)
    end.

(** A comprehension over an enumeration that starts at [i]. *)
Definition traverse_from {E A B} (f : nat -> A -> result E B) : nat -> list A -> result E (list B) :=
  fix go i l :=
    match l with
    | [] => Ok []
    | x :: l => y ← f i x; ys ← go (S i) l; Ok (y :: ys)
    end.

(** A dict comprehension [{k: f(k, v) for k, v in d.items()}]. *)
Definition traverse_dict {E K A B} (f : K -> A -> result E B)
  : list (K * A) -> result E (list (K * B)) :=
  fix go l :=
    match l with
    | [] => Ok []
    | (k, x) :: l => y ← f k x; ys ← go l; Ok ((k, y) :: ys)
    end.

(** ** Python dicts: association lists in insertion order *)

Section dict.
Context {K : Type} `{EqDecision K} {V : Type}.

Fixpoint dict_get (k : K) (d : list (K * V)) : option V :=
  match d with
  | [] => None
  | (k', v) :: d => if decide (k = k') then Some v else dict_get k d
  end.

Definition dict_mem (k : K) (d : list (K * V)) : bool := bool_decide (is_Some (dict_get k d)).

(** [d[k] = v]: in place when the key exists, appended otherwise. *)
Fixpoint dict_set (k : K) (v : V) (d : list (K * V)) : list (K * V) :=
  match d with
  | [] => [(k, v)]
  | (k', v') :: d => if decide (k = k') then (k', v) :: d else (k', v') :: dict_set k v d
  end.

Fixpoint dict_del (k : K) (d : list (K * V)) : list (K * V) :=
  match d with
  | [] => []
  | (k', v') :: d => if decide (k = k') then d else (k', v') :: dict_del k d
  end.

Definition dict_keys (d : list (K * V)) : list K := d.*1.

(** [d.update(e)], also [{**d, **e}]. *)
Definition dict_update (d e : list (K * V)) : list (K * V) :=
  fold_left (fun acc kv => dict_set kv.1 kv.2 acc) e d.

Definition dict_setdefault (k : K) (v : V) (d : list (K * V)) : list (K * V) :=
  if dict_mem k d then d else dict_set k v d.

Definition dict_of_pairs (l : list (K * V)) : list (K * V) := dict_update [] l.

Definition dict_wf (d : list (K * V)) : Prop := NoDup (dict_keys d).
End dict.

(** ** Strings *)

(** Decimal rendering of an integer, [str(n)]. *)
Definition Z_to_string (z : Z) : string := NilZero.string_of_int (Z.to_int z).

Definition nat_to_string (n : nat) : string := Z_to_string (Z.of_nat n).

Definition is_digit (c : Ascii.ascii) : bool :=
  let n := Ascii.N_of_ascii c in (48 <=? n)%N && (n <=? 57)%N.

Definition is_upper (c : Ascii.ascii) : bool :=
  let n := Ascii.N_of_ascii c in (65 <=? n)%N && (n <=? 90)%N.

Definition is_lower (c : Ascii.ascii) : bool :=
  let n := Ascii.N_of_ascii c in (97 <=? n)%N && (n <=? 122)%N.

Fixpoint string_forallb (p : Ascii.ascii -> bool) (s : string) : bool :=
  match s with
  | EmptyString => true
  | String c s => p c && string_forallb p s
  end.

(** [s.split(sep)] for a one-character separator. *)
Fixpoint string_split (sep : Ascii.ascii) (s : string) : list string :=
  match s with
  | EmptyString => [EmptyString]
  | String c s =>
      let parts := string_split sep s in
      if decide (c = sep) then EmptyString :: parts
      else match parts with
           | [] => [String c EmptyString]
           | p :: ps => String c p :: ps
           end
  end.

(** [sep.join(parts)] *)
Fixpoint string_join (sep : string) (parts : list string) : string :=
  match parts with
  | [] => EmptyString
  | [p] => p
  | p :: ps => p +:+ sep +:+ string_join sep ps
  end.

(** [int(s)] for a string of decimal digits. *)
Definition Z_of_digits (s : string) : Z :=
  match NilEmpty.uint_of_string s with
  | Some d => Z.of_uint d
  | None => 0
  end.

(** ** Lemmas on results *)

Section result_lemmas.
Context {E : Type}.

Lemma bind_Ok {A B} (m : result E A) (f : A -> result E B) b :
  m ≫= f = Ok b -> exists a, m = Ok a /\ f a = Ok b.
Proof. destruct m; [eauto | discriminate]. Qed.

Lemma bind_Raise {A B} (m : result E A) (f : A -> result E B) e :
  m ≫= f = Raise e -> m = Raise e \/ exists a, m = Ok a /\ f a = Raise e.
Proof. destruct m; [eauto | cbn; intros [= ->]; auto]. Qed.

Lemma bind_ext {A B} (m : result E A) (f g : A -> result E B) :
  (forall a, m = Ok a -> f a = g a) -> m ≫= f = m ≫= g.
Proof. destruct m; cbn; auto. Qed.

Lemma guard_or_Ok (b : bool) (e : E) : guard_or b e = Ok tt <-> b = true.
Proof. by destruct b. Qed.

Lemma from_option_Ok {A} (o : option A) (e : E) a : from_option o e = Ok a <-> o = Some a.
Proof. destruct o; cbn; naive_solver. Qed.

Lemma catch_Ok {E' A} (m : result E A) (h : E -> result E' A) a :
  catch m h = Ok a -> m = Ok a \/ exists e, m = Raise e /\ h e = Ok a.
Proof. destruct m; cbn; naive_solver. Qed.

Lemma traverse_Ok {A B} (f : A -> result E B) l ys :
  traverse f l = Ok ys <-> Forall2 (fun x y => f x = Ok y) l ys.
Proof.
  revert ys; induction l as [|x l IH]; intros ys; cbn.
  - split; [by intros [= <-] | by inversion 1].
  - split.
    + intros (y & Hy & (ys' & Hys & [= <-])%bind_Ok)%bind_Ok.
      constructor; [done | by apply IH].
    + inversion 1 as [|? y ? ys' Hy Hys]; subst.
      rewrite Hy; cbn. apply IH in Hys. by rewrite Hys.
Qed.

Lemma traverse_length {A B} (f : A -> result E B) l ys :
  traverse f l = Ok ys -> length ys = length l.
Proof. intros H%traverse_Ok. symmetry. by eapply Forall2_length. Qed.

Lemma traverse_ext {A B} (f g : A -> result E B) l :
  (forall x, x ∈ l -> f x = g x) -> traverse f l = traverse g l.
Proof.
  induction l as [|x l IH]; intros H; [done|]. cbn.
  rewrite (H x) by set_solver. apply bind_ext; intros y _.
  rewrite IH by set_solver. done.
Qed.

Lemma traverse_from_Ok {A B} (f : nat -> A -> result E B) i l ys :
  traverse_from f i l = Ok ys ->
  length ys = length l /\
  forall j y, ys !! j = Some y -> exists x, l !! j = Some x /\ f (i + j)%nat x = Ok y.
Proof.
  revert i ys; induction l as [|x l IH]; intros i ys; cbn.
  - intros [= <-]. split; [done|]. intros j y; by rewrite lookup_nil.
  - intros (y & Hy & (ys' & Hys & [= <-])%bind_Ok)%bind_Ok.
    destruct (IH _ _ Hys) as [Hlen Hel]. split; [cbn; lia|].
    intros [|j] z; cbn.
    + intros [= <-]. exists x. by rewrite Nat.add_0_r.
    + intros Hz. destruct (Hel _ _ Hz) as (x' & ? & ?). exists x'.
      by rewrite Nat.add_succ_r.
Qed.

Lemma traverse_dict_Ok {K A B} (f : K -> A -> result E B) (l : list (K * A)) ys :
  traverse_dict f l = Ok ys <-> Forall2 (fun x y => x.1 = y.1 /\ f x.1 x.2 = Ok y.2) l ys.
Proof.
  revert ys; induction l as [|[k x] l IH]; intros ys; cbn.
  - split; [by intros [= <-] | by inversion 1].
  - split.
    + intros (y & Hy & (ys' & Hys & [= <-])%bind_Ok)%bind_Ok.
      constructor; [done | by apply IH].
    + inversion 1 as [|? [k' y] ? ys' [Hk Hy] Hys]; cbn in *; subst.
      rewrite Hy; cbn. apply IH in Hys. by rewrite Hys.
Qed.

Lemma traverse_dict_keys {K A B} (f : K -> A -> result E B) (l : list (K * A)) ys :
  traverse_dict f l = Ok ys -> ys.*1 = l.*1.
Proof.
  intros H%traverse_dict_Ok. induction H as [|[k x] [k' y] l ys [Hk _] _ IH]; cbn in *; congruence.
Qed.
End result_lemmas.

(** Splits hypotheses that say a computation returned. *)
Ltac inv_ok :=
  repeat match goal with
  | H : _ ≫= _ = Ok _ |- _ =>
      let a := fresh "a" in let Ha := fresh "Ha" in
      apply bind_Ok in H as (a & Ha & H)
  | H : Ok _ = Ok _ |- _ => injection H as H; try subst
  | H : Raise _ = Ok _ |- _ => discriminate H
  | H : Ok _ = Raise _ |- _ => discriminate H
  | H : guard_or _ _ = Ok _ |- _ =>
      match type of H with guard_or ?b _ = Ok ?u =>
        destruct u; apply guard_or_Ok in H end
  | H : from_option _ _ = Ok _ |- _ => apply from_option_Ok in H
  end.

(** ** Lemmas on dicts *)

Section dict_lemmas.
Context {K : Type} `{EqDecision K} {V : Type}.
Implicit Types d e : list (K * V).

Lemma dict_get_set_eq k v d : dict_get k (dict_set k v d) = Some v.
Proof.
  induction d as [|[k' v'] d IH]; cbn; [by rewrite decide_True|].
  case_decide as Hk; cbn; [by rewrite decide_True | by rewrite decide_False].
Qed.

Lemma dict_get_set_ne k k' v d : k <> k' -> dict_get k (dict_set k' v d) = dict_get k d.
Proof.
  intros Hne. induction d as [|[k0 v0] d IH]; cbn; [by rewrite decide_False|].
  case_decide; cbn; repeat case_decide; congruence.
Qed.

Lemma dict_get_set k k' v d :
  dict_get k (dict_set k' v d) = if decide (k = k') then Some v else dict_get k d.
Proof.
  case_decide as H; [subst; apply dict_get_set_eq | by apply dict_get_set_ne].
Qed.

Lemma dict_get_elem k v d : dict_get k d = Some v -> (k, v) ∈ d.
Proof.
  induction d as [|[k' v'] d IH]; cbn; [done|].
  case_decide as Hk; [intros [= ->]; subst; left | intros H; right; auto].
Qed.

Lemma dict_get_None k d : dict_get k d = None <-> k ∉ dict_keys d.
Proof.
  unfold dict_keys. induction d as [|[k' v'] d IH]; cbn; [by set_solver|].
  case_decide as Hk; subst; rewrite ?not_elem_of_cons, ?IH; set_solver.
Qed.

Lemma dict_get_Some_keys k d : is_Some (dict_get k d) <-> k ∈ dict_keys d.
Proof.
  rewrite <- not_eq_None_Some, dict_get_None.
  destruct (decide (k ∈ dict_keys d)); tauto.
Qed.

Lemma dict_mem_true k d : dict_mem k d = true <-> is_Some (dict_get k d).
Proof. apply bool_decide_eq_true. Qed.

Lemma dict_mem_false k d : dict_mem k d = false <-> dict_get k d = None.
Proof. unfold dict_mem. rewrite bool_decide_eq_false, <- eq_None_not_Some. done. Qed.

Lemma elem_dict_get k v d : dict_wf d -> (k, v) ∈ d -> dict_get k d = Some v.
Proof.
  unfold dict_wf, dict_keys. induction d as [|[k' v'] d IH]; cbn; [by intros _ ?%not_elem_of_nil|].
  intros [Hnot Hnd]%list.NoDup_cons [Heq|Hin]%elem_of_cons.
  - injection Heq as -> ->. by rewrite decide_True.
  - rewrite decide_False; [auto|]. intros ->. apply Hnot.
    change k' with (k', v).1. by apply (list_elem_of_fmap_2 fst).
Qed.

Lemma dict_keys_set k v d :
  dict_keys (dict_set k v d) = if decide (k ∈ dict_keys d) then dict_keys d else dict_keys d ++ [k].
Proof.
  unfold dict_keys. induction d as [|[k' v'] d IH]; [done|].
  cbn [dict_set]. destruct (decide (k = k')) as [Hk|Hk]; rewrite !fmap_cons; cbn [fst].
  - subst. rewrite decide_True by set_solver. done.
  - rewrite IH. repeat case_decide; set_solver.
Qed.

Lemma dict_set_wf k v d : dict_wf d -> dict_wf (dict_set k v d).
Proof.
  unfold dict_wf. rewrite dict_keys_set. case_decide as H; [done|].
  intros Hnd. apply list.NoDup_app; repeat split; [done| |apply NoDup_singleton].
  intros x Hx ->%list_elem_of_singleton. done.
Qed.

Lemma dict_update_cons d k v e : dict_update d ((k, v) :: e) = dict_update (dict_set k v d) e.
Proof. done. Qed.

Lemma dict_update_app d e1 e2 : dict_update d (e1 ++ e2) = dict_update (dict_update d e1) e2.
Proof. apply fold_left_app. Qed.

Lemma dict_update_wf d e : dict_wf d -> dict_wf (dict_update d e).
Proof.
  revert d; induction e as [|[k v] e IH]; intros d H; [done|].
  rewrite dict_update_cons. apply IH. by apply dict_set_wf.
Qed.

Lemma dict_get_update_notin k d e : k ∉ dict_keys e -> dict_get k (dict_update d e) = dict_get k d.
Proof.
  unfold dict_keys. revert d; induction e as [|[k' v] e IH]; intros d; [done|].
  rewrite fmap_cons. intros [Hne Hin]%not_elem_of_cons. rewrite dict_update_cons, IH by done.
  by apply dict_get_set_ne.
Qed.

Lemma dict_get_update k d e :
  dict_wf e -> dict_get k (dict_update d e) =
    match dict_get k e with Some v => Some v | None => dict_get k d end.
Proof.
  unfold dict_wf, dict_keys.
  revert d; induction e as [|[k' v] e IH]; intros d; [done|].
  rewrite fmap_cons. intros [Hnot Hnd]%list.NoDup_cons.
  rewrite dict_update_cons. cbn [dict_get]. destruct (decide (k = k')) as [->|Hk].
  - rewrite (dict_get_update_notin k' _ e Hnot). apply dict_get_set_eq.
  - rewrite IH by done. destruct (dict_get k e); [done|]. by apply dict_get_set_ne.
Qed.

Lemma dict_keys_update d e k : k ∈ dict_keys (dict_update d e) <-> k ∈ dict_keys d \/ k ∈ dict_keys e.
Proof.
  revert d; induction e as [|[k' v] e IH]; intros d.
  - unfold dict_keys; cbn. set_solver.
  - rewrite dict_update_cons, IH, dict_keys_set.
    destruct (decide (k' ∈ dict_keys d)); unfold dict_keys in *; rewrite fmap_cons; set_solver.
Qed.

Lemma dict_mem_set k k' v d : dict_mem k (dict_set k' v d) = bool_decide (k = k') || dict_mem k d.
Proof.
  unfold dict_mem. rewrite dict_get_set. case_decide; repeat case_bool_decide; naive_solver.
Qed.

Lemma dict_set_length_le k v d : (length d <= length (dict_set k v d) <= S (length d))%nat.
Proof. induction d as [|[k' v'] d IH]; cbn; [lia|]. case_decide; cbn; lia. Qed.
Lemma dict_set_new k v d : k ∉ dict_keys d -> dict_set k v d = d ++ [(k, v)].
Proof.
  unfold dict_keys. induction d as [|[k' v'] d IH]; cbn; [done|].
  intros [Hne Hin]%not_elem_of_cons. rewrite decide_False by done. by rewrite IH.
Qed.

Lemma filter_all {A} (P : A -> Prop) `{!forall x, Decision (P x)} (l : list A) :
  Forall P l -> filter P l = l.
Proof.
  induction 1 as [|x l Hx _ IH]; [done|]. rewrite filter_cons_True by done. by rewrite IH.
Qed.

Lemma dict_del_filter k d : dict_wf d -> dict_del k d = filter (fun kv => kv.1 <> k) d.
Proof.
  unfold dict_wf, dict_keys. induction d as [|[k' v'] d IH]; [done|].
  rewrite fmap_cons, list.NoDup_cons. intros [Hnot Hnd]. cbn [dict_del fst] in *.
  destruct (decide (k = k')) as [->|Hk].
  - rewrite filter_cons_False by (cbn; tauto). symmetry. apply filter_all, Forall_forall.
    intros kv Hkv Heq. apply Hnot. rewrite <- Heq. by apply list_elem_of_fmap_2.
  - rewrite filter_cons_True by (cbn; congruence). by rewrite IH.
Qed.

Lemma keys_filter_sublist (P : K * V -> Prop) `{!forall x, Decision (P x)} d :
  dict_keys (filter P d) `sublist_of` dict_keys d.
Proof. unfold dict_keys. apply fmap_sublist, sublist_filter. Qed.

Lemma dict_filter_wf (P : K * V -> Prop) `{!forall x, Decision (P x)} d :
  dict_wf d -> dict_wf (filter P d).
Proof. intros Hd. exact (sublist_NoDup _ _ Hd (keys_filter_sublist P d)). Qed.

Lemma dict_del_wf k d : dict_wf d -> dict_wf (dict_del k d).
Proof. intros Hd. rewrite dict_del_filter by done. by apply dict_filter_wf. Qed.

Lemma dict_get_del_ne k k' d : k <> k' -> dict_get k (dict_del k' d) = dict_get k d.
Proof.
  intros Hne. induction d as [|[k0 v0] d IH]; cbn; [done|].
  case_decide; cbn; repeat case_decide; congruence.
Qed.

Lemma dict_get_del_eq k d : dict_wf d -> dict_get k (dict_del k d) = None.
Proof.
  intros Hd. rewrite dict_del_filter by done. apply dict_get_None. unfold dict_keys.
  intros ([k' v] & -> & [Hne _]%list_elem_of_filter)%list_elem_of_fmap. done.
Qed.

Lemma dict_del_all_filter ks d :
  dict_wf d -> fold_left (fun d k => dict_del k d) ks d = filter (fun kv => kv.1 ∉ ks) d.
Proof.
  revert d; induction ks as [|k ks IH]; intros d Hd; cbn [fold_left].
  - symmetry. apply filter_all, Forall_forall. intros ? _. apply not_elem_of_nil.
  - rewrite IH by by apply dict_del_wf. rewrite dict_del_filter, list_filter_filter by done.
    apply list_filter_iff. intros [k' v']; cbn. rewrite not_elem_of_cons. tauto.
Qed.
End dict_lemmas.

Create HintDb pydict.
#[export] Hint Resolve dict_set_wf dict_update_wf dict_filter_wf dict_del_wf : pydict.

Lemma dict_get_fmap {K V W} `{EqDecision K} (f : V -> W) k (d : list (K * V)) :
  dict_get k (prod_map id f <$> d) = f <$> dict_get k d.
Proof. induction d as [|[k' v] d IH]; cbn; [done|]. by case_decide. Qed.

(** ** Lemmas on strings *)

Lemma string_append_cons c (s t : string) : String c s +:+ t = String c (s +:+ t).
Proof. done. Qed.

Lemma string_append_nil_l (t : string) : EmptyString +:+ t = t.
Proof. done. Qed.

Lemma string_append_nil_r (s : string) : s +:+ EmptyString = s.
Proof. induction s as [|c s IH]; [done | by rewrite string_append_cons, IH]. Qed.

Lemma string_append_assoc (s t u : string) : (s +:+ t) +:+ u = s +:+ (t +:+ u).
Proof. induction s as [|c s IH]; [done | by rewrite !string_append_cons, IH]. Qed.

Lemma string_append_inj_l p s t : p +:+ s = p +:+ t -> s = t.
Proof. induction p as [|c p IH]; cbn; [done|]. intros [= ?]. auto. Qed.

Lemma string_length_append (s t : string) :
  String.length (s +:+ t) = (String.length s + String.length t)%nat.
Proof. induction s as [|c s IH]; [done | rewrite string_append_cons; cbn; by rewrite IH]. Qed.

Lemma string_forallb_append p s t :
  string_forallb p (s +:+ t) = string_forallb p s && string_forallb p t.
Proof.
  induction s as [|c s IH]; [done|]. rewrite string_append_cons; cbn.
  by rewrite IH, andb_assoc.
Qed.

Lemma string_forallb_impl (p q : Ascii.ascii -> bool) s :
  (forall c, p c = true -> q c = true) -> string_forallb p s = true -> string_forallb q s = true.
Proof.
  intros H. induction s as [|c s IH]; cbn; [done|]. intros [Hc Hs]%andb_prop.
  by rewrite H, IH.
Qed.

Lemma string_split_cons sep s : exists p ps, string_split sep s = p :: ps.
Proof.
  destruct s as [|c s]; cbn; [eauto|]. case_decide; [eauto|].
  destruct (string_split sep s); eauto.
Qed.

Lemma string_join_split sep s : string_join (String sep EmptyString) (string_split sep s) = s.
Proof.
  induction s as [|c s IH]; [done|]. cbn.
  destruct (string_split_cons sep s) as (p & ps & Hps). rewrite Hps in *.
  case_decide as Hc; [rewrite Hc; cbn in *; by rewrite <- IH|].
  destruct ps as [|p' ps]; rewrite <- IH; done.
Qed.

Lemma string_split_no_sep sep p :
  string_forallb (fun c => bool_decide (c <> sep)) p = true -> string_split sep p = [p].
Proof.
  induction p as [|c p IH]; cbn; [done|].
  intros [Hc%bool_decide_eq_true Hp]%andb_prop.
  rewrite decide_False by done. by rewrite IH.
Qed.

Lemma string_split_app sep p s :
  string_forallb (fun c => bool_decide (c <> sep)) p = true ->
  string_split sep (p +:+ String sep s) = p :: string_split sep s.
Proof.
  induction p as [|c p IH]; [intros _; rewrite string_append_nil_l; cbn; by rewrite decide_True|].
  rewrite string_append_cons. cbn.
  intros [Hc%bool_decide_eq_true Hp]%andb_prop.
  rewrite decide_False by done. by rewrite IH.
Qed.

Lemma string_split_join sep ps :
  ps <> [] -> Forall (fun p => string_forallb (fun c => bool_decide (c <> sep)) p = true) ps ->
  string_split sep (string_join (String sep EmptyString) ps) = ps.
Proof.
  intros Hne HF. induction HF as [|p ps Hp HF IH]; [done|].
  destruct ps as [|p' ps]; [by apply string_split_no_sep|].
  change (string_join (String sep EmptyString) (p :: p' :: ps))
    with (p +:+ String sep EmptyString +:+ string_join (String sep EmptyString) (p' :: ps)).
  rewrite string_append_cons, string_append_nil_l, string_split_app by done. f_equal. by apply IH.
Qed.

(** ** Decimal numerals *)

Lemma uint_string_digits d : string_forallb is_digit (NilEmpty.string_of_uint d) = true.
Proof. induction d; cbn; auto. Qed.

Lemma digits_uint_string s :
  string_forallb is_digit s = true -> exists d, NilEmpty.uint_of_string s = Some d.
Proof.
  induction s as [|c s IH]; cbn; [eauto|].
  intros [Hc Hs]%andb_prop. destruct (IH Hs) as [d ->].
  destruct c as [b0 b1 b2 b3 b4 b5 b6 b7].
  destruct b0, b1, b2, b3, b4, b5, b6, b7; cbn in Hc; try discriminate; cbn; eauto.
Qed.

Lemma Z_to_string_nonneg z :
  (0 <= z)%Z -> Z_to_string z = NilZero.string_of_uint (N.to_uint (Z.to_N z)).
Proof. destruct z; [done | done | lia]. Qed.

Lemma uint_nonnil p : Pos.to_uint p <> Decimal.Nil.
Proof. apply DecimalPos.Unsigned.to_uint_nonnil. Qed.

Lemma N_to_uint_nonnil n : N.to_uint n <> Decimal.Nil.
Proof. destruct n; cbn; [done | apply uint_nonnil]. Qed.

Lemma string_of_uint_NilZero d :
  d <> Decimal.Nil -> NilZero.string_of_uint d = NilEmpty.string_of_uint d.
Proof. by destruct d. Qed.

Lemma Z_to_string_uint z :
  (0 <= z)%Z -> Z_to_string z = NilEmpty.string_of_uint (N.to_uint (Z.to_N z)).
Proof.
  intros H. rewrite Z_to_string_nonneg by done.
  apply string_of_uint_NilZero, N_to_uint_nonnil.
Qed.

Lemma Z_of_digits_to_string z : (0 <= z)%Z -> Z_of_digits (Z_to_string z) = z.
Proof.
  intros H. unfold Z_of_digits. rewrite Z_to_string_uint, NilEmpty.usu by done.
  unfold Z.of_uint. rewrite <- (Z2N.id z) at 2 by done. f_equal.
  apply (DecimalN.Unsigned.of_to (Z.to_N z)).
Qed.

Lemma Z_of_digits_nonneg s : (0 <= Z_of_digits s)%Z.
Proof. unfold Z_of_digits. destruct (NilEmpty.uint_of_string s); [apply N2Z.is_nonneg | done]. Qed.

Lemma uint_of_string_length s d :
  NilEmpty.uint_of_string s = Some d -> String.length s = Decimal.nb_digits d.
Proof.
  intros H. rewrite <- (NilEmpty.sus _ _ H). clear. induction d; cbn; auto.
Qed.

(** A numeral without a superfluous leading zero is the rendering of its value. *)
Lemma Z_to_string_of_digits s :
  string_forallb is_digit s = true -> s <> EmptyString ->
  (s = "0" \/ forall s', s <> String "0"%char s') ->
  Z_to_string (Z_of_digits s) = s.
Proof.
  intros Hd Hne Hz. destruct (digits_uint_string s Hd) as [d Hs].
  unfold Z_of_digits. rewrite Hs. rewrite Z_to_string_uint by (apply N2Z.is_nonneg).
  unfold Z.of_uint. rewrite N2Z.id.
  change (Pos.of_uint d) with (N.of_uint d). rewrite DecimalN.Unsigned.to_of.
  apply NilEmpty.sus in Hs. subst s. f_equal.
  destruct d; try done.
  cbn in Hz. destruct Hz as [[=Hz]|Hz]; [|by edestruct Hz].
  destruct d; cbn in Hz; [done | discriminate..].
Qed.

Lemma Z_to_string_digits z : (0 <= z)%Z -> string_forallb is_digit (Z_to_string z) = true.
Proof. intros H. rewrite Z_to_string_uint by done. apply uint_string_digits. Qed.

Lemma Z_to_string_nonempty z : (0 <= z)%Z -> Z_to_string z <> EmptyString.
Proof.
  intros H. rewrite Z_to_string_uint by done. pose proof (N_to_uint_nonnil (Z.to_N z)).
  by destruct (N.to_uint (Z.to_N z)).
Qed.

Lemma Z_to_string_no_leading_zero z s :
  (0 <= z)%Z -> Z_to_string z = String "0"%char s -> s = EmptyString.
Proof.
  intros H Hs. pose proof (Z_of_digits_to_string z H) as Hv.
  rewrite Z_to_string_uint in Hs by done.
  pose proof (DecimalN.Unsigned.to_of (N.to_uint (Z.to_N z))) as Hn.
  change (N.of_uint (N.to_uint (Z.to_N z))) with (Pos.of_uint (N.to_uint (Z.to_N z))) in Hn.
  rewrite DecimalN.Unsigned.of_to in Hn.
  destruct (N.to_uint (Z.to_N z)) as [|d|d|d|d|d|d|d|d|d|d] eqn:Hu; cbn in Hs; try discriminate.
  injection Hs as <-. cbn in Hn.
  pose proof (DecimalFacts.nzhead_nonzero (Decimal.D0 d)) as Hz. cbn in Hz.
  unfold Decimal.unorm in Hn. cbn in Hn.
  destruct (Decimal.nzhead d) as [|d'|d'|d'|d'|d'|d'|d'|d'|d'|d'] eqn:Hd; try discriminate.
  - injection Hn as ->. done.
  - by destruct (Hz d').
Qed.
