(* ===== verification/Graphs.v ===== *)
(** Walks and cycles of a relation on names, and the lists that a depth-first search
    leaves: shared by the analysis of a flow, the composition of workflows and the
    dependencies of resources. *)

From S2P Require Export Prelude.

Lemma elem_rev {A} (x : A) l : x ∈ rev l <-> x ∈ l.
Proof. rewrite !list_elem_of_In. symmetry. apply in_rev. Qed.

(** [stack[stack.index(target):]] *)
Fixpoint drop_until (x : string) (l : list string) : list string :=
  match l with
  | [] => []
  | y :: l' => if decide (y = x) then l else drop_until x l'
  end.

Lemma drop_until_spec x l : x ∈ l -> exists l1 l2, l = l1 ++ x :: l2 /\ drop_until x l = x :: l2.
Proof.
  induction l as [|y l IH]; [by intros ?%not_elem_of_nil|]. cbn.
  destruct (decide (y = x)) as [->|Hy]; [by exists [], l|].
  intros [->|Hx]%elem_of_cons; [done|]. destruct (IH Hx) as (l1 & l2 & -> & ->).
  by exists (y :: l1), l2.
Qed.

Section relation.
Variable R : string -> string -> Prop.

(** No infinite walk starts at a node. *)
Definition acyclic : Prop := forall x, Acc (fun y x => R x y) x.

(** Consecutive entries are related. *)
Definition walk (l : list string) : Prop :=
  forall i x y, l !! i = Some x -> l !! S i = Some y -> R x y.

Definition is_cycle (l : list string) : Prop := exists x mid, l = x :: mid ++ [x] /\ walk l.

(** A list in which every node comes before the nodes that it is related to. *)
Inductive descending : list string -> Prop :=
| descending_nil : descending []
| descending_cons x l : x ∉ l -> (forall y, R x y -> y ∈ l) -> descending l -> descending (x :: l).

Lemma acyclic_no_loop x : acyclic -> ~ tc R x x.
Proof.
  intros Hacc. induction (Hacc x) as [x _ IH]. intros Hx.
  assert (exists y, R x y /\ rtc R y x) as (y & Hxy & Hyx).
  { inversion Hx as [? ? H|? y ? H Ht]; subst; [by exists x|]. exists y. split; [done|]. by apply tc_rtc. }
  apply (IH y Hxy). eapply tc_rtc_l; [done|]. by apply tc_once.
Qed.

Lemma walk_nil : walk [].
Proof. intros i x y [=]. Qed.

Lemma walk_singleton x : walk [x].
Proof. intros [|i] a b; by cbn. Qed.

Lemma walk_snoc l x y : walk (l ++ [x]) -> R x y -> walk (l ++ [x; y]).
Proof.
  intros Hw Hxy i a b. replace (l ++ [x; y]) with ((l ++ [x]) ++ [y]) by (by rewrite <- app_assoc).
  destruct (decide (S i < length (l ++ [x]))%nat) as [Hi|Hi].
  - rewrite (lookup_app_l _ _ i), (lookup_app_l _ _ (S i)) by lia. exact (Hw i a b).
  - destruct (decide (i = length l)) as [->|Hne].
    + rewrite lookup_app_l by (rewrite length_app; cbn; lia).
      rewrite (list_lookup_middle l [] x) by done.
      rewrite (list_lookup_middle (l ++ [x]) [] y) by (rewrite length_app; cbn; lia).
      by intros [= <-] [= <-].
    + rewrite length_app in Hi. cbn in Hi. intros _ Hb%lookup_lt_Some.
      rewrite !length_app in Hb. cbn in Hb. lia.
Qed.

Lemma walk_suffix l1 l2 : walk (l1 ++ l2) -> walk l2.
Proof.
  intros Hw i x y Hx Hy. apply (Hw (length l1 + i)%nat); rewrite lookup_app_r by lia.
  - by replace (length l1 + i - length l1)%nat with i by lia.
  - by replace (S (length l1 + i) - length l1)%nat with (S i) by lia.
Qed.

Lemma walk_loop x mid : walk (x :: mid ++ [x]) -> tc R x x.
Proof.
  assert (forall l y, walk (y :: l ++ [x]) -> tc R y x) as H; [|by apply H].
  induction l as [|z l IH]; intros y Hw; cbn in *.
  - apply tc_once. by apply (Hw 0%nat).
  - eapply tc_l; [by apply (Hw 0%nat)|]. apply IH. intros i a b. apply (Hw (S i)).
Qed.

Lemma is_cycle_loop l : is_cycle l -> ~ acyclic.
Proof. intros (x & mid & -> & Hw) Hacc. destruct (acyclic_no_loop x Hacc). by eapply walk_loop. Qed.

(** A node on the stack below its successor closes a cycle. *)
Lemma drop_until_cycle l name y :
  walk (l ++ [name]) -> R name y -> y ∈ l ++ [name] -> is_cycle (drop_until y (l ++ [name]) ++ [y]).
Proof.
  intros Hw Hy Hin. destruct (drop_until_spec y _ Hin) as (l1 & l2 & Heq & ->).
  exists y, l2. split; [done|]. apply (walk_suffix l1).
  rewrite app_assoc, <- Heq, <- app_assoc. by apply walk_snoc.
Qed.

Lemma descending_Acc l x : descending l -> x ∈ l -> Acc (fun y x => R x y) x.
Proof.
  intros Hl. revert x. induction Hl as [|x l _ Hsucc _ IH]; intros z Hz; [by apply not_elem_of_nil in Hz|].
  apply elem_of_cons in Hz as [->|Hz]; [|auto]. constructor. auto.
Qed.

(** Nodes outside the list have no successor: the list decides. *)
Lemma descending_acyclic l : descending l -> (forall x y, R x y -> x ∈ l) -> acyclic.
Proof.
  intros Hl Hout x. destruct (decide (x ∈ l)) as [Hx|Hx]; [by eapply descending_Acc|].
  constructor. intros y Hy. by destruct Hx; eapply Hout.
Qed.

Lemma descending_closed l x y : descending l -> x ∈ l -> R x y -> y ∈ l.
Proof.
  induction 1 as [|z l _ Hsucc _ IH]; [by intros ?%not_elem_of_nil|].
  intros [->|Hx]%elem_of_cons Hxy; right; [by apply Hsucc | auto].
Qed.

Lemma descending_NoDup l : descending l -> NoDup l.
Proof. induction 1; by constructor. Qed.

Lemma descending_before l before x after y :
  descending l -> l = before ++ x :: after -> y ∈ l -> R y x -> y ∈ before.
Proof.
  intros Hl. revert before. induction Hl as [|z l Hz Hsucc Hl IH]; intros before Heq Hy Hyx; [by destruct before|].
  destruct before as [|z' before]; injection Heq as <- ->.
  - destruct Hz. apply elem_of_cons in Hy as [->|Hy]; [by apply Hsucc|]. by eapply descending_closed.
  - apply elem_of_cons in Hy as [->|Hy]; [by left|]. right. by apply IH.
Qed.

Lemma descending_filter l (nodes : list string) :
  (forall x y, R x y -> y ∈ nodes) -> descending l -> descending (filter (fun x => x ∈ nodes) l).
Proof.
  intros Hn. induction 1 as [|x l Hx Hsucc Hl IH]; [constructor|]. rewrite filter_cons.
  case_decide; [|done]. constructor; [|intros y Hy|done].
  - rewrite list_elem_of_filter. tauto.
  - apply list_elem_of_filter. split; [by eapply Hn|by apply Hsucc].
Qed.

(** In a graph without cycles no set of nodes is closed under a choice of predecessors. *)
Lemma descending_no_backward l (U : string -> Prop) :
  descending l -> (forall u, U u -> u ∈ l) -> (forall u, U u -> exists p, U p /\ R p u) ->
  forall u, ~ U u.
Proof.
  intros Hl HU Hpred. induction Hl as [|x l Hx Hsucc Hl IH].
  - intros u Hu. by apply HU, not_elem_of_nil in Hu.
  - apply IH. intros u Hu. pose proof (HU u Hu) as [->|?]%elem_of_cons; [|done].
    destruct (Hpred x Hu) as (p & Hp & Hpx). destruct Hx.
    pose proof (HU p Hp) as [->|?]%elem_of_cons; [by apply Hsucc|]. by eapply descending_closed.
Qed.
End relation.
