(* ===== verification/Processes.v ===== *)
(** Programs that call a service between which other processes run: trees of calls, what
    holds of a program whatever the service answers and whatever the others do, and the
    steps of a pool of processes over one world. *)

From S2P Require Export Prelude.

(** The calls of a service and the type of the answer to each. *)
Class Calls := {
  call : Type;
  answer : call -> Type;
}.

Section programs.
Context `{Calls}.

(** A program: it has returned, it waits for the answer to a call, or it is still
    running when the steps that the model gives a loop are used up. *)
Inductive prog (A : Type) : Type :=
| Ret (a : A)
| Call (c : call) (k : answer c -> prog A)
| Running.

Arguments Ret {A} a.
Arguments Call {A} c k.
Arguments Running {A}.

#[export] Instance prog_ret : MRet prog := fun A a => Ret a.

#[export] Instance prog_bind : MBind prog :=
  fun A B f => fix bind p :=
    match p with
    | Ret a => f a
    | Call c k => Call c (fun a => bind (k a))
    | Running => Running
    end.

#[export] Instance prog_fmap : FMap prog := fun A B f p => a ← p; Ret (f a).

(** Programs that may raise. *)
Definition xprog (E A : Type) : Type := prog (result E A).

#[export] Instance xprog_ret E : MRet (xprog E) := fun A a => Ret (Ok a).

#[export] Instance xprog_bind E : MBind (xprog E) :=
  fun A B f p => prog_bind _ _ (fun r => match r with Ok a => f a | Raise e => Ret (Raise e) end) p.

Definition xraise {E A} (e : E) : xprog E A := Ret (Raise e).
Definition xlift {E A} (r : result E A) : xprog E A := Ret r.

(** [try p except e => h e] *)
Definition xcatch {E E' A} (p : xprog E A) (h : E -> xprog E' A) : xprog E' A :=
  prog_bind _ _ (fun r => match r with Ok a => Ret (Ok a) | Raise e => h e end) p.

(** [for x in l: f(x)], and the list of results *)
Fixpoint xmap {E A B} (f : A -> xprog E B) (l : list A) : xprog E (list B) :=
  match l with
  | [] => mret []
  | x :: l => y ← f x; ys ← xmap f l; mret (y :: ys)
  end.
End programs.

Arguments Ret {_ A} a.
Arguments Call {_ A} c k.
Arguments Running {_ A}.

(** How a world answers. *)
Class Server `{Calls} (W : Type) := {
  responds : forall c : call, W -> answer c -> W -> Prop;
}.

(** ** What holds of a program among others *)

Section wp.
Context `{Server W} (rely : W -> W -> Prop) `{!PreOrder rely}.

(** Whatever the others do between two calls as long as it is within [rely], every call
    of the program is within [rely] too, and [Q] holds of what it returns. *)
Fixpoint wp {A} (p : prog A) (Q : A -> W -> Prop) (w : W) : Prop :=
  match p with
  | Ret a => forall w', rely w w' -> Q a w'
  | Call c k => forall w1 a w2, rely w w1 -> responds c w1 a w2 -> rely w1 w2 /\ wp (k a) Q w2
  | Running => True
  end.

Lemma wp_rely {A} (p : prog A) Q w w' : rely w w' -> wp p Q w -> wp p Q w'.
Proof.
  intros Hr. destruct p as [a|c k|]; cbn; [|intros Hp|done].
  - intros HQ w'' ?. apply HQ. by transitivity w'.
  - intros w1 a w2 ?. apply Hp. by transitivity w'.
Qed.

Lemma wp_mono {A} (p : prog A) (Q Q' : A -> W -> Prop) w :
  (forall a w', rely w w' -> Q a w' -> Q' a w') -> wp p Q w -> wp p Q' w.
Proof.
  revert w. induction p as [a|c k IH|]; cbn; intros w HQ Hp; [auto| |done].
  intros w1 a w2 Hr Hc. destruct (Hp w1 a w2 Hr Hc) as [Hg Hk]. split; [done|].
  eapply IH; [|done]. intros a' w' ? ?. apply HQ; [|done]. transitivity w1; [done|]. by transitivity w2.
Qed.

Lemma wp_bind {A B} (p : prog A) (f : A -> prog B) Q w :
  wp p (fun a w' => wp (f a) Q w') w -> wp (p ≫= f) Q w.
Proof.
  revert w. induction p as [a|c k IH|]; cbn; intros w Hp; [by apply Hp| |done].
  intros w1 a w2 Hr Hc. destruct (Hp w1 a w2 Hr Hc). split; [done|]. by apply IH.
Qed.

Lemma wp_ret {A} (a : A) (Q : A -> W -> Prop) w : (forall w', rely w w' -> Q a w') -> wp (Ret a) Q w.
Proof. done. Qed.

Lemma wp_call (c : call) (Q : answer c -> W -> Prop) w :
  (forall w1 a w2, rely w w1 -> responds c w1 a w2 -> rely w1 w2 /\ forall w', rely w2 w' -> Q a w') ->
  wp (Call c Ret) Q w.
Proof. done. Qed.

(** Programs that may raise: the condition of each outcome. *)
Definition outcome {E A} (Q : A -> W -> Prop) (R : E -> W -> Prop) (r : result E A) (w : W) : Prop :=
  match r with Ok a => Q a w | Raise e => R e w end.

Lemma wp_xbind {E A B} (p : xprog E A) (f : A -> xprog E B) Q R w :
  (forall e w1 w2, rely w w1 -> rely w1 w2 -> R e w1 -> R e w2) ->
  wp p (outcome (fun a w' => rely w w' -> wp (f a) (outcome Q R) w') R) w -> wp (p ≫= f) (outcome Q R) w.
Proof.
  intros HR Hp. unfold mbind, xprog_bind. apply (wp_bind p). eapply wp_mono; [|exact Hp].
  intros [a|e] w' Hr; cbn; [by auto|]. eauto.
Qed.

(** [e] is one of the errors [P], whatever the world. *)
Definition only {E} (P : E -> Prop) (e : E) (w : W) : Prop := P e.

Lemma wp_xbind_only {E A B} (p : xprog E A) (f : A -> xprog E B) Q P w :
  wp p (outcome (fun a w' => rely w w' -> wp (f a) (outcome Q (only P)) w') (only P)) w ->
  wp (p ≫= f) (outcome Q (only P)) w.
Proof. by apply wp_xbind. Qed.

Lemma wp_xlift {E A} (r : result E A) Q R w :
  (forall w', rely w w' -> outcome Q R r w') -> wp (xlift r) (outcome Q R) w.
Proof. done. Qed.

Lemma wp_xret {E A} (a : A) (Q : A -> W -> Prop) (R : E -> W -> Prop) w :
  (forall w', rely w w' -> Q a w') -> wp (mret a : xprog E A) (outcome Q R) w.
Proof. done. Qed.

Lemma wp_xraise {E A} (e : E) (Q : A -> W -> Prop) R w :
  (forall w', rely w w' -> R e w') -> wp (xraise e : xprog E A) (outcome Q R) w.
Proof. done. Qed.

Lemma wp_xcatch {E E' A} (p : xprog E A) (h : E -> xprog E' A) Q R w :
  (forall a w1 w2, rely w w1 -> rely w1 w2 -> Q a w1 -> Q a w2) ->
  wp p (outcome Q (fun e w' => rely w w' -> wp (h e) (outcome Q R) w')) w -> wp (xcatch p h) (outcome Q R) w.
Proof.
  intros HQ Hp. unfold xcatch. apply (wp_bind p). eapply wp_mono; [|exact Hp].
  intros [a|e] w' Hr; cbn; [|by auto]. eauto.
Qed.

#[local] Arguments wp : simpl never.

Lemma wp_xmap {E A B} (f : A -> xprog E B) l (Q : A -> B -> W -> Prop) (P : E -> Prop) w :
  (forall a b w1 w2, rely w1 w2 -> Q a b w1 -> Q a b w2) ->
  (forall a w1, a ∈ l -> rely w w1 -> wp (f a) (outcome (Q a) (only P)) w1) ->
  wp (xmap f l) (outcome (fun bs w' => Forall2 (fun a b => Q a b w') l bs) (only P)) w.
Proof.
  intros HQ. revert w. induction l as [|a l IH]; intros w Hf; cbn [xmap].
  - apply wp_xret. intros; constructor.
  - apply wp_xbind_only. eapply wp_mono; [|apply Hf; [left|reflexivity]].
    intros [b|e] w1 Hw1; cbn; [|done]. intros Hb _. apply wp_xbind_only. eapply wp_mono; [|apply IH].
    + intros [bs|e] w2 Hw2; cbn; [|done]. intros Hbs _. apply wp_xret. intros w3 Hw3. constructor.
      * eapply HQ; [|exact Hb]. by transitivity w2.
      * eapply Forall2_impl; [exact Hbs|]. intros ? ? ?. by eapply HQ.
    + intros a' w2 Ha' Hw2. apply Hf; [by right|]. by transitivity w1.
Qed.

(** ** Pools of processes *)

(** One process of the pool makes its next call. *)
Inductive pool_step {A} : list (prog A) * W -> list (prog A) * W -> Prop :=
| pool_call ps i c k w a w' :
    ps !! i = Some (Call c k) -> responds c w a w' -> pool_step (ps, w) (<[i := k a]> ps, w').

Theorem pool_sound {A} (Q : nat -> A -> W -> Prop) ps w ps' w' :
  rtc pool_step (ps, w) (ps', w') ->
  (forall i p, ps !! i = Some p -> wp p (Q i) w) ->
  rely w w' /\ (forall i p, ps' !! i = Some p -> wp p (Q i) w').
Proof.
  intros Hsteps. remember (ps, w) as s eqn:Hs. remember (ps', w') as s' eqn:Hs'.
  revert ps w ps' w' Hs Hs'.
  induction Hsteps as [s|s s2 s' Hstep _ IH]; intros ps w ps' w' -> Hs' Hps.
  - simplify_eq. split; [reflexivity|done].
  - inversion Hstep as [? i c k ? a w2 Hi Hc]; subst. specialize (Hps i _ Hi) as Hwp.
    destruct (Hwp w a w2 ltac:(reflexivity) Hc) as [Hg Hk].
    destruct (IH _ _ _ _ eq_refl eq_refl) as [Hr Hfin].
    + intros j p Hj. destruct (decide (j = i)) as [->|].
      * rewrite list_lookup_insert_eq in Hj by (by eapply lookup_lt_Some). by simplify_eq.
      * rewrite list_lookup_insert_ne in Hj by done. eapply wp_rely; [exact Hg|eauto].
    + split; [|done]. by transitivity w2.
Qed.

End wp.

Arguments wp : simpl never.

(** ** Complete runs of a program that runs alone *)

Section runs.
Context `{Calls}.

(** The calls that are made with their answers, in order. *)
Definition log : Type := list {c : call & answer c}.

(** With the answers of [t] the program returns [r]. *)
Fixpoint runs {A} (p : prog A) (t : log) (r : A) : Prop :=
  match p with
  | Ret a => t = [] /\ r = a
  | Call c k => exists a t', t = existT c a :: t' /\ runs (k a) t' r
  | Running => False
  end.

(** After the calls [l], whatever the answers, [Q] holds of all the calls and the result. *)
Definition ensures {A} (p : prog A) (l : log) (Q : log -> A -> Prop) : Prop :=
  forall t r, runs p t r -> Q (l ++ t) r.

Lemma ensures_ret {A} (a : A) l (Q : log -> A -> Prop) : Q l a -> ensures (Ret a) l Q.
Proof. intros HQ t r [-> ->]. by rewrite app_nil_r. Qed.

Lemma ensures_call {A} c (k : answer c -> prog A) l Q :
  (forall a, ensures (k a) (l ++ [existT c a]) Q) -> ensures (Call c k) l Q.
Proof. intros Hk ? r (a & t & -> & Hr). specialize (Hk a t r Hr). by rewrite <- app_assoc in Hk. Qed.

Lemma ensures_mono {A} (p : prog A) l (Q Q' : log -> A -> Prop) :
  (forall t r, Q t r -> Q' t r) -> ensures p l Q -> ensures p l Q'.
Proof. intros HQ Hp t r Hr. by apply HQ, Hp. Qed.

Lemma ensures_bind {A B} (p : prog A) (f : A -> prog B) l Q :
  ensures p l (fun l' a => ensures (f a) l' Q) -> ensures (p ≫= f) l Q.
Proof.
  revert l. induction p as [a|c k IH|]; intros l Hp.
  - intros t r Hr. specialize (Hp [] a (conj eq_refl eq_refl)). rewrite app_nil_r in Hp. by apply Hp.
  - apply ensures_call. intros a. apply IH. intros t r Hr. specialize (Hp (existT c a :: t) r).
    rewrite <- app_assoc. apply Hp. by exists a, t.
  - by intros t r.
Qed.
End runs.

(** Apply a rule whose condition on [rely] the instances discharge. *)
Tactic Notation "wp_apply" uconstr(rule) := eapply rule; [apply _|..].
Tactic Notation "wp_bind" := wp_apply wp_xbind_only.
