(* ===== verification/Values.v ===== *)
(** Data values of the engine: JSON values ([engine/data.py], [JSONValue]), the
    Python objects that reach the normaliser, exact numeric comparison, and the
    canonical strict-JSON text ([engine/serialization.py]).  A character is a code
    point below 256; character 133 stands for U+2026, the ellipsis that the engine
    inserts when it shortens a text. *)

From Stdlib Require Export SpecFloat.
From S2P Require Export Prelude.

(** ** JSON values *)

Inductive json : Type :=
| JNull
| JBool (b : bool)
| JInt (z : Z)
| JFloat (f : spec_float)
| JStr (s : string)
| JList (l : list json)
| JDict (d : list (string * json)).

(** Python objects handed to [normalize_json_value]: [RModel] is a pydantic model
    with its [model_dump(mode="json")], [RDataclass] a dataclass instance with its
    fields, [ROther] an object of another type. *)
Inductive raw : Type :=
| RNone
| RBool (b : bool)
| RInt (z : Z)
| RFloat (f : spec_float)
| RStr (s : string)
| RList (l : list raw)
| RTuple (l : list raw)
| RDict (d : list (raw * raw))
| RModel (dump : raw)
| RDataclass (fields : list (string * raw))
| ROther (type_name : string).

Fixpoint json_raw (j : json) : raw :=
  match j with
  | JNull => RNone
  | JBool b => RBool b
  | JInt z => RInt z
  | JFloat f => RFloat f
  | JStr s => RStr s
  | JList l => RList (map json_raw l)
  | JDict d => RDict (map (fun kv => (RStr kv.1, json_raw kv.2)) d)
  end.

Definition raw_type_name (r : raw) : string :=
  match r with
  | RNone => "NoneType"
  | RBool _ => "bool"
  | RInt _ => "int"
  | RFloat _ => "float"
  | RStr _ => "str"
  | RList _ => "list"
  | RTuple _ => "tuple"
  | RDict _ => "dict"
  | RModel _ => "BaseModel"
  | RDataclass _ => "object"
  | ROther n => n
  end.

Definition json_type_name (j : json) : string := raw_type_name (json_raw j).

(** [math.isfinite] *)
Definition isfinite (f : spec_float) : bool :=
  match f with
  | S754_zero _ | S754_finite _ _ _ => true
  | S754_infinity _ | S754_nan => false
  end.

(** U+2026 *)
Definition ellipsis : Ascii.ascii := Ascii.ascii_of_N 133.

(** ** Exact comparison of Python numbers *)

Inductive num : Type :=
| NInt (z : Z)
| NFloat (f : spec_float).

Inductive extended : Type :=
| ENan
| EInf (negative : bool)
| EFin (mantissa exponent : Z).

Definition num_value (n : num) : extended :=
  match n with
  | NInt z => EFin z 0
  | NFloat (S754_zero _) => EFin 0 0
  | NFloat (S754_infinity s) => EInf s
  | NFloat S754_nan => ENan
  | NFloat (S754_finite s m e) => EFin (if s then Z.neg m else Z.pos m) e
  end.

(** [m1 * 2^e1] against [m2 * 2^e2] *)
Definition dyadic_compare (m1 e1 m2 e2 : Z) : comparison :=
  let e := Z.min e1 e2 in
  (Z.shiftl m1 (e1 - e) ?= Z.shiftl m2 (e2 - e))%Z.

Definition num_compare (a b : num) : option comparison :=
  match num_value a, num_value b with
  | ENan, _ | _, ENan => None
  | EInf s, EInf s' => Some (if Bool.eqb s s' then Eq else if s then Lt else Gt)
  | EInf s, EFin _ _ => Some (if s then Lt else Gt)
  | EFin _ _, EInf s => Some (if s then Gt else Lt)
  | EFin m1 e1, EFin m2 e2 => Some (dyadic_compare m1 e1 m2 e2)
  end.

(** ** Canonical JSON text *)

(** [float.__repr__] of the interpreter. *)
Class FloatRepr := { float_repr : spec_float -> string }.

Definition hex_digit (n : N) : Ascii.ascii :=
  if (n <? 10)%N then Ascii.ascii_of_N (48 + n) else Ascii.ascii_of_N (87 + n).

Definition backslash : Ascii.ascii := Ascii.ascii_of_N 92.
Definition dquote : Ascii.ascii := Ascii.ascii_of_N 34.

(** One character of a JSON string literal under [ensure_ascii=False]. *)
Definition json_escape_char (c : Ascii.ascii) : string :=
  let n := Ascii.N_of_ascii c in
  let esc l := String backslash (String l EmptyString) in
  if (n =? 34)%N then esc dquote
  else if (n =? 92)%N then esc backslash
  else if (n =? 10)%N then esc "n"%char
  else if (n =? 13)%N then esc "r"%char
  else if (n =? 9)%N then esc "t"%char
  else if (n =? 12)%N then esc "f"%char
  else if (n =? 8)%N then esc "b"%char
  else if (n <? 32)%N then
    esc "u"%char +:+ "00" +:+
      String (hex_digit (n / 16)) (String (hex_digit (n mod 16)) EmptyString)
  else String c EmptyString.

Fixpoint json_escape (s : string) : string :=
  match s with
  | EmptyString => EmptyString
  | String c s => json_escape_char c +:+ json_escape s
  end.

Definition json_quote (s : string) : string :=
  String dquote (json_escape s +:+ String dquote EmptyString).

(** [sorted(d.items())] of a dict with distinct string keys. *)
Fixpoint insert_key {A} (k : string) (v : A) (l : list (string * A)) : list (string * A) :=
  match l with
  | [] => [(k, v)]
  | (k', v') :: l' => if String.leb k k' then (k, v) :: l else (k', v') :: insert_key k v l'
  end.

Fixpoint sort_keys {A} (l : list (string * A)) : list (string * A) :=
  match l with
  | [] => []
  | (k, v) :: l => insert_key k v (sort_keys l)
  end.

Section canonical.
Context `{FloatRepr}.

(** [json.dumps(value, allow_nan=False, ensure_ascii=False, separators=(",", ":"),
    sort_keys=True)]: the layout [StrictJsonLayout.CANONICAL]. *)
Fixpoint dumps_strict_json (j : json) : string :=
  match j with
  | JNull => "null"
  | JBool b => if b then "true" else "false"
  | JInt z => Z_to_string z
  | JFloat f => float_repr f
  | JStr s => json_quote s
  | JList l => "[" +:+ string_join "," (map dumps_strict_json l) +:+ "]"
  | JDict d =>
      "{" +:+ string_join ","
        (map (fun kv => json_quote kv.1 +:+ ":" +:+ kv.2)
           (sort_keys (map (fun kv => (kv.1, dumps_strict_json kv.2)) d))) +:+ "}"
  end.
End canonical.

(** [len(s.encode("utf-8"))] *)
Fixpoint utf8_length (s : string) : Z :=
  match s with
  | EmptyString => 0
  | String c s =>
      (if (Ascii.N_of_ascii c <? 128)%N then 1
       else if (Ascii.N_of_ascii c =? 133)%N then 3 else 2) + utf8_length s
  end%Z.

(** ** [str] and [repr] of JSON values *)

Definition latin1_printable (n : N) : bool :=
  ((32 <=? n) && (n <=? 126) || (n =? 133) || (161 <=? n) && negb (n =? 173))%N.

Fixpoint string_existsb (p : Ascii.ascii -> bool) (s : string) : bool :=
  match s with
  | EmptyString => false
  | String c s => p c || string_existsb p s
  end.

Definition squote : Ascii.ascii := Ascii.ascii_of_N 39.

Definition repr_char (quote c : Ascii.ascii) : string :=
  let n := Ascii.N_of_ascii c in
  let esc l := String backslash (String l EmptyString) in
  if decide (c = quote) then esc c
  else if decide (c = backslash) then esc c
  else if (n =? 10)%N then esc "n"%char
  else if (n =? 13)%N then esc "r"%char
  else if (n =? 9)%N then esc "t"%char
  else if latin1_printable n then String c EmptyString
  else esc "x"%char +:+ String (hex_digit (n / 16)) (String (hex_digit (n mod 16)) EmptyString).

Fixpoint repr_body (quote : Ascii.ascii) (s : string) : string :=
  match s with
  | EmptyString => EmptyString
  | String c s => repr_char quote c +:+ repr_body quote s
  end.

(** [repr(s)] of a string. *)
Definition repr_string (s : string) : string :=
  let quote :=
    if string_existsb (fun c => bool_decide (c = squote)) s
       && negb (string_existsb (fun c => bool_decide (c = dquote)) s)
    then dquote else squote in
  String quote (repr_body quote s +:+ String quote EmptyString).

Section pystr.
Context `{FloatRepr}.

Fixpoint py_repr (j : json) : string :=
  match j with
  | JNull => "None"
  | JBool b => if b then "True" else "False"
  | JInt z => Z_to_string z
  | JFloat f => float_repr f
  | JStr s => repr_string s
  | JList l => "[" +:+ string_join ", " (map py_repr l) +:+ "]"
  | JDict d =>
      "{" +:+ string_join ", " (map (fun kv => repr_string kv.1 +:+ ": " +:+ py_repr kv.2) d) +:+ "}"
  end.

(** [str(value)] *)
Definition py_str (j : json) : string :=
  match j with
  | JStr s => s
  | _ => py_repr j
  end.
End pystr.

(** ** Lists of texts *)

(** [repr] of a list of texts *)
Definition repr_texts (l : list string) : string := "[" +:+ string_join ", " (map repr_string l) +:+ "]".

(** [sorted(set(l))] *)
Definition sorted_set (l : list string) : list string :=
  dict_keys (sort_keys (map (fun x => (x, tt)) (remove_dups l))).

(** [str.rpartition(".")]: the parts before and after the last dot. *)
Definition rpartition_dot (s : string) : option (string * string) :=
  match rev (string_split "."%char s) with
  | last :: (_ :: _) as before => Some (string_join "." (rev (tail before)), last)
  | _ => None
  end.

(** ** Bounds on JSON values *)

Fixpoint json_depth (j : json) : nat :=
  match j with
  | JList l => S (fold_right Nat.max 0 (map json_depth l))
  | JDict d => S (fold_right Nat.max 0 (map (fun kv => json_depth kv.2) d))
  | _ => 0
  end%nat.

(** What [normalize_json_value] guarantees: at most [d] nested collections, at most
    [n] items in each, finite numbers, and dicts with distinct keys. *)
Inductive json_bounded (n : Z) : nat -> json -> Prop :=
| bounded_null d : json_bounded n d JNull
| bounded_bool d b : json_bounded n d (JBool b)
| bounded_int d z : json_bounded n d (JInt z)
| bounded_float d f : isfinite f = true -> json_bounded n d (JFloat f)
| bounded_str d s : json_bounded n d (JStr s)
| bounded_nil d : (0 <= n)%Z -> json_bounded n d (JList [])
| bounded_list d l :
    (Z.of_nat (length l) <= n)%Z -> Forall (json_bounded n d) l -> json_bounded n (S d) (JList l)
| bounded_empty d : (0 <= n)%Z -> json_bounded n d (JDict [])
| bounded_dict d l :
    (Z.of_nat (length l) <= n)%Z -> dict_wf l -> Forall (fun kv => json_bounded n d kv.2) l ->
    json_bounded n (S d) (JDict l).

(** ** Induction and basic lemmas *)

Section json_induction.
Variable P : json -> Prop.
Hypothesis Hnull : P JNull.
Hypothesis Hbool : forall b, P (JBool b).
Hypothesis Hint : forall z, P (JInt z).
Hypothesis Hfloat : forall f, P (JFloat f).
Hypothesis Hstr : forall s, P (JStr s).
Hypothesis Hlist : forall l, Forall P l -> P (JList l).
Hypothesis Hdict : forall d : list (string * json), Forall (fun kv => P kv.2) d -> P (JDict d).

Fixpoint json_ind' (j : json) : P j :=
  match j with
  | JNull => Hnull
  | JBool b => Hbool b
  | JInt z => Hint z
  | JFloat f => Hfloat f
  | JStr s => Hstr s
  | JList l =>
      Hlist l ((fix go l : Forall P l :=
        match l with
        | [] => Forall_nil_2 P
        | x :: l => Forall_cons_2 P x l (json_ind' x) (go l)
        end) l)
  | JDict d =>
      Hdict d ((fix go (d : list (string * json)) : Forall (fun kv => P kv.2) d :=
        match d with
        | [] => Forall_nil_2 _
        | (k, x) :: d => Forall_cons_2 (fun kv => P kv.2) (k, x) d (json_ind' x) (go d)
        end) d)
  end.
End json_induction.

Section raw_induction.
Variable P : raw -> Prop.
Hypothesis Hnone : P RNone.
Hypothesis Hbool : forall b, P (RBool b).
Hypothesis Hint : forall z, P (RInt z).
Hypothesis Hfloat : forall f, P (RFloat f).
Hypothesis Hstr : forall s, P (RStr s).
Hypothesis Hlist : forall l, Forall P l -> P (RList l).
Hypothesis Htuple : forall l, Forall P l -> P (RTuple l).
Hypothesis Hdict : forall d : list (raw * raw), Forall (fun kv => P kv.2) d -> P (RDict d).
Hypothesis Hmodel : forall r, P r -> P (RModel r).
Hypothesis Hdataclass :
  forall d : list (string * raw), Forall (fun kv => P kv.2) d -> P (RDataclass d).
Hypothesis Hother : forall n, P (ROther n).

Fixpoint raw_ind' (r : raw) : P r :=
  let list_ind := fix go (l : list raw) : Forall P l :=
    match l with
    | [] => Forall_nil_2 P
    | x :: l => Forall_cons_2 P x l (raw_ind' x) (go l)
    end in
  match r with
  | RNone => Hnone
  | RBool b => Hbool b
  | RInt z => Hint z
  | RFloat f => Hfloat f
  | RStr s => Hstr s
  | RList l => Hlist l (list_ind l)
  | RTuple l => Htuple l (list_ind l)
  | RDict d =>
      Hdict d ((fix go (d : list (raw * raw)) : Forall (fun kv => P kv.2) d :=
        match d with
        | [] => Forall_nil_2 _
        | (k, x) :: d => Forall_cons_2 (fun kv => P kv.2) (k, x) d (raw_ind' x) (go d)
        end) d)
  | RModel r => Hmodel r (raw_ind' r)
  | RDataclass d =>
      Hdataclass d ((fix go (d : list (string * raw)) : Forall (fun kv => P kv.2) d :=
        match d with
        | [] => Forall_nil_2 _
        | (k, x) :: d => Forall_cons_2 (fun kv => P kv.2) (k, x) d (raw_ind' x) (go d)
        end) d)
  | ROther n => Hother n
  end.
End raw_induction.

(** ** Equality of JSON values *)

#[export] Instance spec_float_eq_dec : EqDecision spec_float.
Proof. solve_decision. Defined.

Fixpoint json_eqb (a b : json) : bool :=
  match a, b with
  | JNull, JNull => true
  | JBool x, JBool y => bool_decide (x = y)
  | JInt x, JInt y => bool_decide (x = y)
  | JFloat x, JFloat y => bool_decide (x = y)
  | JStr x, JStr y => bool_decide (x = y)
  | JList l, JList m =>
      (fix go l m := match l, m with
                     | [], [] => true
                     | x :: l, y :: m => json_eqb x y && go l m
                     | _, _ => false
                     end) l m
  | JDict l, JDict m =>
      (fix go l m := match l, m with
                     | [], [] => true
                     | (k, x) :: l, (k', y) :: m => bool_decide (k = k') && json_eqb x y && go l m
                     | _, _ => false
                     end) l m
  | _, _ => false
  end.

Lemma json_eqb_spec a b : json_eqb a b = true <-> a = b.
Proof.
  revert b. induction a as [| | | | |l IH|d IH] using json_ind'; intros [| | | | |m|m]; cbn;
    try (rewrite ?bool_decide_eq_true; naive_solver).
  - transitivity (l = m); [|naive_solver]. revert m.
    induction IH as [|x l Hx _ IH]; intros [|y m]; try naive_solver.
    rewrite andb_true_iff, Hx, IH. naive_solver.
  - transitivity (d = m); [|naive_solver]. revert m.
    induction IH as [|[k x] d Hx _ IH]; intros [|[k' y] m]; try naive_solver.
    rewrite !andb_true_iff, bool_decide_eq_true, Hx, IH. naive_solver.
Qed.

#[export] Instance json_eq_dec : EqDecision json.
Proof. refine (fun a b => cast_if (decide (json_eqb a b = true))); by rewrite <- json_eqb_spec. Defined.
