(* ===== verification/AuditRecords.v ===== *)
(** Records of a run: the audit models of [engine/audit.py] and the checkpoints of
    [engine/continuation.py], with their JSON dumps.  The identity models of
    [provenance.py] are carried through a run unchanged and are kept as their JSON
    dump. *)

From S2P Require Export Values.

(** ** [engine/audit.py] *)

Record TransitionRecord := {
  tr_step : string;
  tr_matched : string;
  tr_target : string;
}.

Record StepFailure := {
  sf_step : string;
  sf_code : string;
  sf_cause_code : string;
  sf_message : string;
}.

Inductive FailureCategory :=
| CATEGORY_INPUT | CATEGORY_DEFINITION | CATEGORY_CONTRACT
| CATEGORY_EXECUTION | CATEGORY_INFRASTRUCTURE | CATEGORY_INTERNAL.

Inductive FailurePhase :=
| PHASE_TRIGGER | PHASE_SIGNAL | PHASE_WORKFLOW_INPUT | PHASE_PARAMETERS | PHASE_STEP
| PHASE_HANDLER | PHASE_RESULT | PHASE_ARCHIVE | PHASE_INTERNAL.

#[export] Instance FailurePhase_eq_dec : EqDecision FailurePhase.
Proof. solve_decision. Defined.
#[export] Instance FailureCategory_eq_dec : EqDecision FailureCategory.
Proof. solve_decision. Defined.

Definition category_value (c : FailureCategory) : string :=
  match c with
  | CATEGORY_INPUT => "input"
  | CATEGORY_DEFINITION => "definition"
  | CATEGORY_CONTRACT => "contract"
  | CATEGORY_EXECUTION => "execution"
  | CATEGORY_INFRASTRUCTURE => "infrastructure"
  | CATEGORY_INTERNAL => "internal"
  end.

Definition phase_value (p : FailurePhase) : string :=
  match p with
  | PHASE_TRIGGER => "trigger"
  | PHASE_SIGNAL => "signal"
  | PHASE_WORKFLOW_INPUT => "workflow_input"
  | PHASE_PARAMETERS => "parameters"
  | PHASE_STEP => "step"
  | PHASE_HANDLER => "handler"
  | PHASE_RESULT => "result"
  | PHASE_ARCHIVE => "archive"
  | PHASE_INTERNAL => "internal"
  end.

Record FailureDetail := {
  fd_code : string;
  fd_cause_code : string;
  fd_category : FailureCategory;
  fd_phase : FailurePhase;
  fd_message : string;
  fd_retryable : bool;
  fd_step : option string;
}.

Record FailureMetadata := {
  fm_code : string;
  fm_cause_code : string;
  fm_category : FailureCategory;
  fm_phase : FailurePhase;
  fm_retryable : bool;
  fm_step : option string;
}.

Definition FailureMetadata_from_detail (d : FailureDetail) : FailureMetadata := {|
  fm_code := fd_code d;
  fm_cause_code := fd_cause_code d;
  fm_category := fd_category d;
  fm_phase := fd_phase d;
  fm_retryable := fd_retryable d;
  fm_step := fd_step d;
|}.

Record CorrelationIdentity := {
  co_workflow : string;
  co_request_id : option string;
  co_run_id : option string;
  co_definition_digest : option string;
  co_worker_deployment : option string;
  co_worker_build_id : option string;
  co_worker_artifact : option json;
  co_environment_snapshot_digest : option string;
  co_trigger_source : option string;
  co_trigger_name : option string;
  co_source_identity_digest : option string;
  co_correlation_identity_digest : option string;
  co_scope_digest : option string;
  co_execution_configuration : option json;
}.

Record FailureStepMetadata := {
  fs_name : string;
  fs_seq : Z;
  fs_status : string;
  fs_code : option string;
}.

Record FailureTransitionMetadata := {
  ft_step : string;
  ft_matched : string;
  ft_target : string;
}.

Record FailureRecord := {
  fr_audit_version : Z;
  fr_serialization_version : Z;
  fr_correlation : CorrelationIdentity;
  fr_error : FailureMetadata;
  fr_secondary : list FailureMetadata;
  fr_steps : list FailureStepMetadata;
  fr_transitions : list FailureTransitionMetadata;
  fr_started_at : string;
  fr_failed_at : string;
}.

(** One field of a dump: [None] is a field left out. *)
Definition dump_fields (l : list (string * option json)) : json :=
  JDict (omap (fun kv => pair kv.1 <$> kv.2) l).

Definition opt_str (o : option string) : option json := JStr <$> o.

Definition dump_transition (t : TransitionRecord) : json :=
  JDict [("step", JStr (tr_step t)); ("matched", JStr (tr_matched t)); ("target", JStr (tr_target t))].

Definition dump_step_failure (f : StepFailure) : json :=
  JDict [("step", JStr (sf_step f)); ("code", JStr (sf_code f));
         ("cause_code", JStr (sf_cause_code f)); ("message", JStr (sf_message f))].

Definition dump_metadata (m : FailureMetadata) : json :=
  dump_fields
    [("code", Some (JStr (fm_code m))); ("cause_code", Some (JStr (fm_cause_code m)));
     ("category", Some (JStr (category_value (fm_category m))));
     ("phase", Some (JStr (phase_value (fm_phase m))));
     ("retryable", Some (JBool (fm_retryable m))); ("step", opt_str (fm_step m))].

Definition dump_correlation (c : CorrelationIdentity) : json :=
  dump_fields
    [("workflow", Some (JStr (co_workflow c))); ("request_id", opt_str (co_request_id c));
     ("run_id", opt_str (co_run_id c)); ("definition_digest", opt_str (co_definition_digest c));
     ("worker_deployment", opt_str (co_worker_deployment c));
     ("worker_build_id", opt_str (co_worker_build_id c));
     ("worker_artifact", co_worker_artifact c);
     ("environment_snapshot_digest", opt_str (co_environment_snapshot_digest c));
     ("trigger_source", opt_str (co_trigger_source c)); ("trigger_name", opt_str (co_trigger_name c));
     ("source_identity_digest", opt_str (co_source_identity_digest c));
     ("correlation_identity_digest", opt_str (co_correlation_identity_digest c));
     ("scope_digest", opt_str (co_scope_digest c));
     ("execution_configuration", co_execution_configuration c)].

(** [FailureRecord.dump]: [model_dump(mode="json", exclude_none=True)] *)
Definition FailureRecord_dump (r : FailureRecord) : json :=
  JDict
    [("audit_version", JInt (fr_audit_version r));
     ("serialization_version", JInt (fr_serialization_version r));
     ("correlation", dump_correlation (fr_correlation r));
     ("status", JStr "failed");
     ("error", dump_metadata (fr_error r));
     ("secondary", JList (map dump_metadata (fr_secondary r)));
     ("steps", JList (map (fun s =>
        dump_fields [("name", Some (JStr (fs_name s))); ("seq", Some (JInt (fs_seq s)));
                     ("status", Some (JStr (fs_status s))); ("code", opt_str (fs_code s))])
        (fr_steps r)));
     ("transitions", JList (map (fun t =>
        JDict [("step", JStr (ft_step t)); ("matched", JStr (ft_matched t));
               ("target", JStr (ft_target t))]) (fr_transitions r)));
     ("started_at", JStr (fr_started_at r));
     ("failed_at", JStr (fr_failed_at r))].

(** [StepAuditEntry]: a field that is [None] was not set and is not dumped. *)
Record StepAuditEntry := {
  se_seq : Z;
  se_status : string;
  se_globals : option json;
  se_input : option json;
  se_output : option json;
  se_started_at : option json;
  se_duration_ms : option json;
  se_condition : option json;
  se_then : option json;
  se_signal : option json;
  se_sleep_sec : option json;
  se_attempts : option json;
  se_cache : option json;
  se_items_total : option json;
  se_items_failed : option json;
  se_code : option json;
  se_message : option json;
}.

(** [StepAuditEntry(seq=seq, status=status)] *)
Definition step_entry (seq : Z) (status : string) : StepAuditEntry := {|
  se_seq := seq; se_status := status; se_globals := None; se_input := None; se_output := None;
  se_started_at := None; se_duration_ms := None; se_condition := None; se_then := None;
  se_signal := None; se_sleep_sec := None; se_attempts := None; se_cache := None;
  se_items_total := None; se_items_failed := None; se_code := None; se_message := None;
|}.

(** [StepAuditEntry.dump]: [model_dump(exclude_unset=True)] *)
Definition StepAuditEntry_dump (e : StepAuditEntry) : json :=
  dump_fields
    [("seq", Some (JInt (se_seq e))); ("status", Some (JStr (se_status e)));
     ("globals", se_globals e); ("input", se_input e); ("output", se_output e);
     ("started_at", se_started_at e); ("duration_ms", se_duration_ms e);
     ("condition", se_condition e); ("then", se_then e); ("signal", se_signal e);
     ("sleep_sec", se_sleep_sec e); ("attempts", se_attempts e); ("cache", se_cache e);
     ("items_total", se_items_total e); ("items_failed", se_items_failed e);
     ("code", se_code e); ("message", se_message e)].

(** [IterationFailure(code, message).model_dump(by_alias=True)] *)
Definition IterationFailure_dump (code message : string) : json :=
  JDict [("_error", JBool true); ("code", JStr code); ("message", JStr message)].

(** ** [engine/continuation.py] *)

Definition CONTINUATION_VERSION : Z := 1.

Record FailureEpisode := {
  ep_primary : FailureDetail;
  ep_handler : string;
  ep_handler_steps : list string;
}.

Inductive iteration_key :=
| KeyIndex (i : Z)
| KeyName (s : string).

#[export] Instance iteration_key_eq_dec : EqDecision iteration_key.
Proof. solve_decision. Defined.

Inductive IterationResultCheckpoint :=
| IncludedIterationResult (key : iteration_key) (value : json)
| OmittedIterationResult (key : iteration_key).

Definition result_key (r : IterationResultCheckpoint) : iteration_key :=
  match r with IncludedIterationResult k _ | OmittedIterationResult k => k end.

Record IterationCheckpoint := {
  ic_step_name : string;
  ic_started_at_epoch : spec_float;
  ic_next_offset : nat;
  ic_results : list IterationResultCheckpoint;
  ic_failed : nat;
}.

(** [IterationCheckpoint.validate_progress] *)
Definition IterationCheckpoint_valid (c : IterationCheckpoint) : bool :=
  (length (ic_results c) =? ic_next_offset c)%nat && (ic_failed c <=? ic_next_offset c)%nat.

Record UntilCheckpoint := {
  uc_step_name : string;
  uc_started_at_epoch : spec_float;
  uc_attempts_completed : nat;
  uc_last_result : json;
}.

Inductive LoopCheckpoint :=
| IterationLoop (c : IterationCheckpoint)
| UntilLoop (c : UntilCheckpoint).

Definition loop_step_name (l : LoopCheckpoint) : string :=
  match l with IterationLoop c => ic_step_name c | UntilLoop c => uc_step_name c end.

Definition loop_started_at_epoch (l : LoopCheckpoint) : spec_float :=
  match l with IterationLoop c => ic_started_at_epoch c | UntilLoop c => uc_started_at_epoch c end.

Record RunnerCheckpoint := {
  ck_started_at : string;
  ck_params : list (string * json);
  ck_step_outputs : list (string * json);
  ck_step_timings : list (string * json);
  ck_transitions : list TransitionRecord;
  ck_failures : list StepFailure;
  ck_active_episode : option FailureEpisode;
  ck_next_step_name : string;
  ck_next_seq : Z;
  ck_invocations : Z;
  ck_loop : option LoopCheckpoint;
}.

Definition nullable (o : option json) : json := default JNull o.

Definition dump_detail (d : FailureDetail) : json :=
  JDict
    [("code", JStr (fd_code d)); ("cause_code", JStr (fd_cause_code d));
     ("category", JStr (category_value (fd_category d)));
     ("phase", JStr (phase_value (fd_phase d))); ("message", JStr (fd_message d));
     ("retryable", JBool (fd_retryable d)); ("step", nullable (opt_str (fd_step d)))].

Definition dump_key (k : iteration_key) : json :=
  match k with KeyIndex i => JInt i | KeyName s => JStr s end.

Definition dump_iteration_result (r : IterationResultCheckpoint) : json :=
  match r with
  | IncludedIterationResult k v =>
      JDict [("kind", JStr "included"); ("key", dump_key k); ("value", v)]
  | OmittedIterationResult k => JDict [("kind", JStr "omitted"); ("key", dump_key k)]
  end.

Definition dump_loop (l : LoopCheckpoint) : json :=
  match l with
  | IterationLoop c => JDict
      [("kind", JStr "for_each"); ("step_name", JStr (ic_step_name c));
       ("started_at_epoch", JFloat (ic_started_at_epoch c));
       ("next_offset", JInt (Z.of_nat (ic_next_offset c)));
       ("results", JList (map dump_iteration_result (ic_results c)));
       ("failed", JInt (Z.of_nat (ic_failed c)))]
  | UntilLoop c => JDict
      [("kind", JStr "until"); ("step_name", JStr (uc_step_name c));
       ("started_at_epoch", JFloat (uc_started_at_epoch c));
       ("attempts_completed", JInt (Z.of_nat (uc_attempts_completed c)));
       ("last_result", uc_last_result c)]
  end.

Definition dump_episode (e : FailureEpisode) : json :=
  JDict [("primary", dump_detail (ep_primary e)); ("handler", JStr (ep_handler e));
         ("handler_steps", JList (map JStr (ep_handler_steps e)))].

(** [RunnerCheckpoint.model_dump(mode="json")] *)
Definition RunnerCheckpoint_dump (c : RunnerCheckpoint) : json :=
  JDict
    [("version", JInt CONTINUATION_VERSION); ("started_at", JStr (ck_started_at c));
     ("params", JDict (ck_params c)); ("step_outputs", JDict (ck_step_outputs c));
     ("step_timings", JDict (ck_step_timings c));
     ("transitions", JList (map dump_transition (ck_transitions c)));
     ("failures", JList (map dump_step_failure (ck_failures c)));
     ("active_episode", nullable (dump_episode <$> ck_active_episode c));
     ("next_step_name", JStr (ck_next_step_name c)); ("next_seq", JInt (ck_next_seq c));
     ("invocations", JInt (ck_invocations c)); ("loop", nullable (dump_loop <$> ck_loop c))].

Record HistoryObservation := {
  ho_events : Z;
  ho_bytes : Z;
  ho_server_suggested : bool;
}.
