(* ===== verification/Errors.v ===== *)
(** Exceptions of the engine and the failure taxonomy of [engine/errors.py]. *)

From S2P Require Export AuditRecords.

(** ** Exceptions *)

(** [FlowErrorKind] *)
Inductive FlowErrorKind :=
| MISSING_PARAMS | RESOLUTION_ERROR | WAIT_TIMEOUT | LOOP_EXHAUSTED
| UNSAFE_LOOP_CACHE | INVARIANT_VIOLATION.

#[export] Instance FlowErrorKind_eq_dec : EqDecision FlowErrorKind.
Proof. solve_decision. Defined.

(** [LimitKind] *)
Inductive LimitKind :=
| PAYLOAD_BYTES | COLLECTION_ITEMS | FANOUT_ITEMS | PARALLELISM | LOOP_ATTEMPTS
| TOTAL_INVOCATIONS | QUEUED_MESSAGES | QUEUED_MESSAGE_BYTES.

#[export] Instance LimitKind_eq_dec : EqDecision LimitKind.
Proof. solve_decision. Defined.

(** The class of an exception, with the attributes the engine reads.  [ExternalError]
    is an exception raised by code the engine calls (Temporal, transports, actions),
    with its [type], [message] and [non_retryable] attributes where it has them. *)
Inductive exn_class :=
| DataNormalizationError (path : string)
| DataPathError (path : string)
| LimitExceededError (kind : LimitKind) (boundary : string) (actual limit : Z)
| PayloadSerializationError (boundary : string)
| StrictJsonError
| ReferenceSyntaxError
| PlaceholderSyntaxError
| ReferenceResolutionError
| ExpressionSyntaxError (expression : string)
| ConditionEvaluationError (condition : string)
| FlowDefinitionError (kind : FlowErrorKind)
| FlowExecutionError (classification : FailureDetail) (record : FailureRecord)
    (correlation : CorrelationIdentity) (secondary_failures : list FailureDetail)
| FlowContinuation (checkpoint : RunnerCheckpoint) (observation : HistoryObservation)
| HandlerFailure (primary handler : FailureDetail)
| AuditCaptureError
| AuditCaptureLimitError (actual limit : Z)
| KeyError
| ValueError
| TypeError
| ValidationError
| AsyncioCancelledError
| TemporalCancelledError
| ExternalError (name : string) (type_attr message_attr : option string) (non_retryable : option bool).

(** An exception: its class, [str(exc)] and its [__cause__]. *)
Inductive exn := Exn (cls : exn_class) (msg : string) (cause : option exn).

Abbreviation res := (result exn).

Definition exn_cls (e : exn) : exn_class := let (c, _, _) := e in c.
Definition exn_msg (e : exn) : string := let (_, m, _) := e in m.
Definition exn_cause (e : exn) : option exn := let (_, _, c) := e in c.

(** [raise cls(msg)] *)
Definition raise {A} (c : exn_class) (msg : string) : res A := Raise (Exn c msg None).

(** [raise cls(msg) from cause] *)
Definition raise_from {A} (c : exn_class) (msg : string) (cause : exn) : res A :=
  Raise (Exn c msg (Some cause)).

(** [type(exc).__name__] *)
Definition class_name (c : exn_class) : string :=
  match c with
  | DataNormalizationError _ => "DataNormalizationError"
  | DataPathError _ => "DataPathError"
  | LimitExceededError _ _ _ _ => "LimitExceededError"
  | PayloadSerializationError _ => "PayloadSerializationError"
  | StrictJsonError => "StrictJsonError"
  | ReferenceSyntaxError => "ReferenceSyntaxError"
  | PlaceholderSyntaxError => "PlaceholderSyntaxError"
  | ReferenceResolutionError => "ReferenceResolutionError"
  | ExpressionSyntaxError _ => "ExpressionSyntaxError"
  | ConditionEvaluationError _ => "ConditionEvaluationError"
  | FlowDefinitionError _ => "FlowDefinitionError"
  | FlowExecutionError _ _ _ _ => "FlowExecutionError"
  | FlowContinuation _ _ => "FlowContinuation"
  | HandlerFailure _ _ => "_HandlerFailure"
  | AuditCaptureError => "AuditCaptureError"
  | AuditCaptureLimitError _ _ => "AuditCaptureLimitError"
  | KeyError => "KeyError"
  | ValueError => "ValueError"
  | TypeError => "TypeError"
  | ValidationError => "ValidationError"
  | AsyncioCancelledError => "CancelledError"
  | TemporalCancelledError => "CancelledError"
  | ExternalError n _ _ _ => n
  end.

(** [isinstance(exc, Exception)]: [asyncio.CancelledError] derives from
    [BaseException] only. *)
Definition is_exception (e : exn) : bool :=
  match exn_cls e with AsyncioCancelledError => false | _ => true end.

Definition is_flow_definition_error (e : exn) : bool :=
  match exn_cls e with FlowDefinitionError _ => true | _ => false end.

Definition limit_kind_value (k : LimitKind) : string :=
  match k with
  | PAYLOAD_BYTES => "payload_bytes"
  | COLLECTION_ITEMS => "collection_items"
  | FANOUT_ITEMS => "fanout_items"
  | PARALLELISM => "parallelism"
  | LOOP_ATTEMPTS => "loop_attempts"
  | TOTAL_INVOCATIONS => "total_invocations"
  | QUEUED_MESSAGES => "queued_messages"
  | QUEUED_MESSAGE_BYTES => "queued_message_bytes"
  end.

(** ** Bounds *)

Definition MAX_CAUSE_DEPTH : nat := 10.
Definition MAX_FAILURE_CODE_LENGTH : nat := 128.
Definition MAX_CORRELATION_VALUE_LENGTH : nat := 128.
Definition MAX_FAILURE_MESSAGE_LENGTH : nat := 1024.
Definition MAX_FAILURE_STEPS : nat := 50.
Definition MAX_FAILURE_TRANSITIONS : nat := 50.
Definition MAX_SECONDARY_FAILURES : nat := 4.
Definition STRICT_JSON_VERSION : Z := 1.

(** ** Failure codes and classification *)

Inductive FailureCode :=
| INVALID_TRIGGER | INVALID_SIGNAL | INPUT_CONTRACT_FAILED | PARAMETERS_FAILED | STEP_FAILED
| HANDLER_FAILED | RESULT_FAILED | ARCHIVAL_FAILED | INTERNAL_ERROR | LIMIT_EXCEEDED.

Definition code_value (c : FailureCode) : string :=
  match c with
  | INVALID_TRIGGER => "INVALID_TRIGGER"
  | INVALID_SIGNAL => "INVALID_SIGNAL"
  | INPUT_CONTRACT_FAILED => "INPUT_CONTRACT_FAILED"
  | PARAMETERS_FAILED => "PARAMETERS_FAILED"
  | STEP_FAILED => "STEP_FAILED"
  | HANDLER_FAILED => "HANDLER_FAILED"
  | RESULT_FAILED => "RESULT_FAILED"
  | ARCHIVAL_FAILED => "ARCHIVAL_FAILED"
  | INTERNAL_ERROR => "INTERNAL_ERROR"
  | LIMIT_EXCEEDED => "LIMIT_EXCEEDED"
  end.

Definition kind_value (k : FlowErrorKind) : string :=
  match k with
  | MISSING_PARAMS => "MISSING_PARAMS"
  | RESOLUTION_ERROR => "RESOLUTION_ERROR"
  | WAIT_TIMEOUT => "WAIT_TIMEOUT"
  | LOOP_EXHAUSTED => "LOOP_EXHAUSTED"
  | UNSAFE_LOOP_CACHE => "UNSAFE_LOOP_CACHE"
  | INVARIANT_VIOLATION => "INVARIANT_VIOLATION"
  end.

(** [value[:n]] *)
Fixpoint string_take (n : nat) (s : string) : string :=
  match n, s with
  | S n, String c s => String c (string_take n s)
  | _, _ => EmptyString
  end.

Definition bounded (value : string) (limit : nat) : string :=
  if (String.length value <=? limit)%nat then value
  else string_take (limit - 1) value +:+ String ellipsis EmptyString.

Definition correlation_identity (c : CorrelationIdentity) : CorrelationIdentity :=
  let b s := bounded s MAX_CORRELATION_VALUE_LENGTH in {|
  co_workflow := b (co_workflow c);
  co_request_id := b <$> co_request_id c;
  co_run_id := b <$> co_run_id c;
  co_definition_digest := b <$> co_definition_digest c;
  co_worker_deployment := b <$> co_worker_deployment c;
  co_worker_build_id := b <$> co_worker_build_id c;
  co_worker_artifact := co_worker_artifact c;
  co_environment_snapshot_digest := co_environment_snapshot_digest c;
  co_trigger_source := b <$> co_trigger_source c;
  co_trigger_name := b <$> co_trigger_name c;
  co_source_identity_digest := co_source_identity_digest c;
  co_correlation_identity_digest := co_correlation_identity_digest c;
  co_scope_digest := co_scope_digest c;
  co_execution_configuration := co_execution_configuration c;
|}.

Fixpoint is_cancellation_go (depth : nat) (e : exn) : bool :=
  match depth with
  | O => false
  | S depth =>
      match exn_cls e with
      | AsyncioCancelledError | TemporalCancelledError => true
      | _ => match exn_cause e with Some c => is_cancellation_go depth c | None => false end
      end
  end.

Definition is_cancellation (e : exn) : bool := is_cancellation_go MAX_CAUSE_DEPTH e.

Definition nonempty (o : option string) : option string :=
  match o with Some EmptyString => None | _ => o end.

Fixpoint error_details_go (depth : nat) (e : exn) (best : string * string * option bool)
  : string * string * option bool :=
  match depth with
  | O => best
  | S depth =>
      let best :=
        match exn_cls e with
        | ExternalError _ ty m nr =>
            match nonempty ty, nonempty m with
            | Some ty, Some m => (ty, m, nr)
            | _, _ => best
            end
        | _ => best
        end in
      match exn_cause e with Some c => error_details_go depth c best | None => best end
  end.

Definition error_details (e : exn) : string * string * option bool :=
  error_details_go MAX_CAUSE_DEPTH e (class_name (exn_cls e), exn_msg e, None).

Definition phase_code (p : FailurePhase) : FailureCode :=
  match p with
  | PHASE_TRIGGER => INVALID_TRIGGER
  | PHASE_SIGNAL => INVALID_SIGNAL
  | PHASE_WORKFLOW_INPUT => INPUT_CONTRACT_FAILED
  | PHASE_PARAMETERS => PARAMETERS_FAILED
  | PHASE_STEP => STEP_FAILED
  | PHASE_HANDLER => HANDLER_FAILED
  | PHASE_RESULT => RESULT_FAILED
  | PHASE_ARCHIVE => ARCHIVAL_FAILED
  | PHASE_INTERNAL => INTERNAL_ERROR
  end.

Definition phase_category (p : FailurePhase) : FailureCategory :=
  match p with
  | PHASE_TRIGGER | PHASE_SIGNAL | PHASE_PARAMETERS => CATEGORY_INPUT
  | PHASE_WORKFLOW_INPUT | PHASE_RESULT => CATEGORY_CONTRACT
  | PHASE_STEP | PHASE_HANDLER => CATEGORY_EXECUTION
  | PHASE_ARCHIVE => CATEGORY_INFRASTRUCTURE
  | PHASE_INTERNAL => CATEGORY_INTERNAL
  end.

Definition classify_failure (e : exn) (phase : FailurePhase) (step : option string)
    (code : option FailureCode) : FailureDetail :=
  let '(cause_code, message, non_retryable) := error_details e in
  let '(stable_code, category, retryable) :=
    match exn_cls e with
    | LimitExceededError _ _ _ _ => (code_value LIMIT_EXCEEDED, phase_category phase, false)
    | FlowDefinitionError kind => (kind_value kind, CATEGORY_DEFINITION, false)
    | _ => (code_value (default (phase_code phase) code), phase_category phase,
            match non_retryable with Some nr => negb nr | None => false end)
    end in {|
  fd_code := bounded stable_code MAX_FAILURE_CODE_LENGTH;
  fd_cause_code := bounded cause_code MAX_FAILURE_CODE_LENGTH;
  fd_category := category;
  fd_phase := phase;
  fd_message := bounded message MAX_FAILURE_MESSAGE_LENGTH;
  fd_retryable := retryable;
  fd_step := step;
|}.

(** ** Bounded failure records *)

Definition json_field (k : string) (j : json) : option json :=
  match j with JDict d => dict_get k d | _ => None end.

Definition entry_seq (entry : json) : Z :=
  match json_field "seq" entry with Some (JInt z) => z | _ => 0 end.

(** [sorted(items, key=lambda item: item.seq)] *)
Fixpoint insert_by_seq (x : string * json) (l : list (string * json)) : list (string * json) :=
  match l with
  | [] => [x]
  | y :: l' => if (entry_seq x.2 <=? entry_seq y.2)%Z then x :: l else y :: insert_by_seq x l'
  end.

Definition sort_by_seq (l : list (string * json)) : list (string * json) :=
  fold_right insert_by_seq [] l.

(** [l[-n:]] for a positive [n] *)
Definition last_n {A} (n : nat) (l : list A) : list A := drop (length l - n) l.

Section records.
Context `{FloatRepr}.

Definition failure_steps (step_entries : list (string * json)) : list FailureStepMetadata :=
  map (fun item => {|
    fs_name := bounded item.1 MAX_FAILURE_CODE_LENGTH;
    fs_seq := entry_seq item.2;
    fs_status := bounded (match json_field "status" item.2 with
                          | Some s => py_str s | None => "unknown" end) MAX_FAILURE_CODE_LENGTH;
    fs_code := match json_field "code" item.2 with
               | Some JNull | None => None
               | Some c => Some (bounded (py_str c) MAX_FAILURE_CODE_LENGTH) end;
  |}) (last_n MAX_FAILURE_STEPS (sort_by_seq step_entries)).

Definition failure_transitions (ts : list TransitionRecord) : list FailureTransitionMetadata :=
  map (fun t => {|
    ft_step := bounded (tr_step t) MAX_FAILURE_CODE_LENGTH;
    ft_matched := bounded (tr_matched t) MAX_FAILURE_CODE_LENGTH;
    ft_target := bounded (tr_target t) MAX_FAILURE_CODE_LENGTH;
  |}) (last_n MAX_FAILURE_TRANSITIONS ts).

Definition record_size (r : FailureRecord) : Z :=
  utf8_length (dumps_strict_json (FailureRecord_dump r)).

Definition clear_record_details (r : FailureRecord) : FailureRecord := {|
  fr_audit_version := fr_audit_version r;
  fr_serialization_version := fr_serialization_version r;
  fr_correlation := fr_correlation r;
  fr_error := fr_error r;
  fr_secondary := fr_secondary r;
  fr_steps := [];
  fr_transitions := [];
  fr_started_at := fr_started_at r;
  fr_failed_at := fr_failed_at r;
|}.

Definition build_execution_error (e : exn) (correlation : CorrelationIdentity)
    (phase : FailurePhase) (audit_version : Z) (started_at failed_at : string)
    (step : option string) (step_entries : list (string * json))
    (transitions : list TransitionRecord) (primary : option FailureDetail)
    (secondary : list FailureDetail) (code : option FailureCode) (max_record_bytes : Z)
    (cause : option exn) : exn :=
  let classification := default (classify_failure e phase step code) primary in
  let secondary_failures := take MAX_SECONDARY_FAILURES secondary in
  let record := {|
    fr_audit_version := audit_version;
    fr_serialization_version := STRICT_JSON_VERSION;
    fr_correlation := correlation;
    fr_error := FailureMetadata_from_detail classification;
    fr_secondary := map FailureMetadata_from_detail secondary_failures;
    fr_steps := failure_steps step_entries;
    fr_transitions := failure_transitions transitions;
    fr_started_at := started_at;
    fr_failed_at := failed_at;
  |} in
  let record := if (max_record_bytes <? record_size record)%Z then clear_record_details record
                else record in
  Exn (FlowExecutionError classification record correlation secondary_failures)
    (fd_code classification +:+ ": " +:+ fd_message classification) cause.
End records.

(** ** Lemmas *)

Lemma string_take_length n s : (String.length (string_take n s) <= n)%nat.
Proof. revert s; induction n as [|n IH]; intros [|c s]; cbn; try lia. specialize (IH s). lia. Qed.

Lemma bounded_length s n : (0 < n)%nat -> (String.length (bounded s n) <= n)%nat.
Proof.
  intros Hn. unfold bounded. destruct (Nat.leb_spec (String.length s) n); [done|].
  rewrite string_length_append. pose proof (string_take_length (n - 1) s). cbn. lia.
Qed.

Lemma last_n_length {A} n (l : list A) : (length (last_n n l) <= n)%nat.
Proof. unfold last_n. rewrite length_drop. lia. Qed.

Lemma raise_from_not_ok {A} c m e (a : A) : raise_from c m e <> Ok a.
Proof. done. Qed.
