(* ===== verification/Floats.v ===== *)
(** Arithmetic of the interpreter: floats are IEEE 754 binary64 values, integers are
    unbounded, and [min] and [max] compare numbers exactly. *)

From S2P Require Export Errors.

(** ** Floating-point arithmetic of the interpreter: IEEE 754 binary64 *)

Definition float_add (a b : spec_float) : spec_float := SFadd 53 1024 a b.
Definition float_sub (a b : spec_float) : spec_float := SFsub 53 1024 a b.
Definition float_mul (a b : spec_float) : spec_float := SFmul 53 1024 a b.
Definition float_of_Z (z : Z) : spec_float := binary_normalize 53 1024 z 0 false.

Definition overflow_error {A} (msg : string) : res A :=
  raise (ExternalError "OverflowError" None None None) msg.

(** [float(z)] *)
Definition int_to_float (z : Z) : res spec_float :=
  let f := float_of_Z z in
  if isfinite f then Ok f else overflow_error "int too large to convert to float".

(** [int(f)] *)
Definition float_to_int (f : spec_float) : res Z :=
  match f with
  | S754_zero _ => Ok 0%Z
  | S754_nan => raise ValueError "cannot convert float NaN to integer"
  | S754_infinity _ => overflow_error "cannot convert float infinity to integer"
  | S754_finite s m e =>
      let magnitude := Z.shiftl (Z.pos m) e in
      Ok (if s then (- magnitude)%Z else magnitude)
  end.

(** [a <= b] and [a < b] on floats: false when one is a NaN. *)
Definition float_le (a b : spec_float) : bool := SFleb a b.
Definition float_lt (a b : spec_float) : bool := SFltb a b.

(** [math.isfinite] on a number: an integer is converted first. *)
Definition num_to_float (n : num) : res spec_float :=
  match n with NInt z => int_to_float z | NFloat f => Ok f end.

(** [min(a, b)] and [max(a, b)] of Python: the first unless the second is smaller
    (larger). *)
Definition py_min (a b : num) : num := match num_compare b a with Some Lt => b | _ => a end.
Definition py_max (a b : num) : num := match num_compare b a with Some Gt => b | _ => a end.
