(* ===== verification/Data.v ===== *)
(** Bounds ([engine/limits.py]), strict JSON ([engine/serialization.py]), value
    normalisation and path traversal ([engine/data.py]). *)

From S2P Require Export Errors.

(** ** [config/runtime_limits.py] and [engine/limits.py] *)

Record RuntimeLimits := {
  trigger_payload_bytes : Z;
  workflow_output_bytes : Z;
  activity_input_bytes : Z;
  activity_output_bytes : Z;
  failure_record_bytes : Z;
  audit_record_bytes : Z;
  cache_entry_bytes : Z;
  fanout_items : Z;
  fanout_chunk_items : Z;
  parallelism : Z;
  loop_attempts : Z;
  total_invocations : Z;
  queued_messages : Z;
  signal_payload_bytes : Z;
  queued_message_bytes : Z;
  collection_items : Z;
  workflow_state_bytes : Z;
  continuation_input_bytes : Z;
  history_events : Z;
  history_bytes : Z;
}.

Definition DEFAULT_COLLECTION_ITEMS : Z := 10000.

Definition DEFAULT_RUNTIME_LIMITS : RuntimeLimits := {|
  trigger_payload_bytes := 256 * 1024;
  workflow_output_bytes := 1024 * 1024;
  activity_input_bytes := 512 * 1024;
  activity_output_bytes := 512 * 1024;
  failure_record_bytes := 32 * 1024;
  audit_record_bytes := 1024 * 1024;
  cache_entry_bytes := 512 * 1024;
  fanout_items := 1000;
  fanout_chunk_items := 20;
  parallelism := 32;
  loop_attempts := 1000;
  total_invocations := 10000;
  queued_messages := 1000;
  signal_payload_bytes := 256 * 1024;
  queued_message_bytes := 256 * 1024;
  collection_items := DEFAULT_COLLECTION_ITEMS;
  workflow_state_bytes := 768 * 1024;
  continuation_input_bytes := 1536 * 1024;
  history_events := 10000;
  history_bytes := 10 * 1024 * 1024;
|}%Z.

(** [self.__dict__.items()] *)
Definition limits_list (l : RuntimeLimits) : list (string * Z) :=
  [("trigger_payload_bytes", trigger_payload_bytes l);
   ("workflow_output_bytes", workflow_output_bytes l);
   ("activity_input_bytes", activity_input_bytes l);
   ("activity_output_bytes", activity_output_bytes l);
   ("failure_record_bytes", failure_record_bytes l);
   ("audit_record_bytes", audit_record_bytes l);
   ("cache_entry_bytes", cache_entry_bytes l);
   ("fanout_items", fanout_items l);
   ("fanout_chunk_items", fanout_chunk_items l);
   ("parallelism", parallelism l);
   ("loop_attempts", loop_attempts l);
   ("total_invocations", total_invocations l);
   ("queued_messages", queued_messages l);
   ("signal_payload_bytes", signal_payload_bytes l);
   ("queued_message_bytes", queued_message_bytes l);
   ("collection_items", collection_items l);
   ("workflow_state_bytes", workflow_state_bytes l);
   ("continuation_input_bytes", continuation_input_bytes l);
   ("history_events", history_events l);
   ("history_bytes", history_bytes l)].

(** [RuntimeLimits.__post_init__] *)
Definition RuntimeLimits_post_init (l : RuntimeLimits) : res unit :=
  match list_find (fun nv => (nv.2 < 1)%Z) (limits_list l) with
  | Some (_, (name, _)) => raise ValueError ("Runtime limit '" +:+ name +:+ "' must be positive")
  | None =>
      if (fanout_items l <? fanout_chunk_items l)%Z
      then raise ValueError "fanout_chunk_items cannot exceed fanout_items"
      else Ok tt
  end.

Definition limit_exceeded (kind : LimitKind) (boundary : string) (actual limit : Z) : exn :=
  Exn (LimitExceededError kind boundary actual limit)
    ("Runtime limit exceeded at '" +:+ boundary +:+ "': " +:+ limit_kind_value kind +:+ " is "
     +:+ Z_to_string actual +:+ ", maximum is " +:+ Z_to_string limit) None.

Definition enforce_limit (actual limit : Z) (kind : LimitKind) (boundary : string) : res unit :=
  if (limit <? actual)%Z then Raise (limit_exceeded kind boundary actual limit) else Ok tt.

(** [engine/serialization.validate_json_value] on JSON data: only a non-finite
    number can be refused. *)
Fixpoint validate_json_value (path : string) (j : json) : res unit :=
  match j with
  | JFloat f =>
      if isfinite f then Ok tt
      else raise StrictJsonError (path +:+ ": non-finite numbers are not supported")
  | JList l =>
      _ ← traverse_from (fun index x =>
        validate_json_value (path +:+ "[" +:+ nat_to_string index +:+ "]") x) 0 l; Ok tt
  | JDict d =>
      _ ← traverse_dict (fun k x => validate_json_value (path +:+ "." +:+ k) x) d; Ok tt
  | _ => Ok tt
  end.

Section bytes.
Context `{FloatRepr}.

Definition strict_json_bytes (j : json) : res Z :=
  _ ← validate_json_value "$" j; Ok (utf8_length (dumps_strict_json j)).

Definition enforce_payload_bytes (value : json) (boundary : string) (limit : Z) : res unit :=
  actual ← catch (strict_json_bytes value) (fun e =>
    raise_from (PayloadSerializationError boundary)
      ("Payload at '" +:+ boundary +:+ "' is not strict JSON: " +:+ exn_msg e) e);
  enforce_limit actual limit PAYLOAD_BYTES boundary.

Definition enforce_utf8_bytes (value boundary : string) (limit : Z) : res unit :=
  enforce_limit (utf8_length value) limit PAYLOAD_BYTES boundary.
End bytes.

(** ** [engine/data.py] *)

Definition MAX_JSON_DEPTH : Z := 32.
Definition MAX_REFERENCE_COMPONENTS : nat := 33.
Definition MAX_PATH_TOKENS : nat := MAX_REFERENCE_COMPONENTS - 1.

(** [PathToken]; a subscript literal may also be a [bool], which Python counts as an
    [int] in [isinstance] but not in [type(token) is int]. *)
Inductive path_token :=
| TKey (s : string)
| TIndex (i : Z)
| TBool (b : bool).

#[export] Instance path_token_eq_dec : EqDecision path_token.
Proof. solve_decision. Defined.

Definition normalization_error {A} (path detail : string) : res A :=
  raise (DataNormalizationError path)
    ("Invalid JSON-compatible value at '" +:+ path +:+ "': " +:+ detail).

Definition path_error {A} (path detail : string) : res A :=
  raise (DataPathError path) ("Cannot resolve data path '" +:+ path +:+ "': " +:+ detail).

(** [for key, item in value.items(): normalized[key] = f(key, item)]; a key that is
    not a string raises. *)
Definition normalize_items (path : string) (f : string -> raw -> res json)
  : list (string * json) -> list (raw * raw) -> res (list (string * json)) :=
  fix go normalized l :=
    match l with
    | [] => Ok normalized
    | (RStr k, x) :: l => j ← f k x; go (dict_set k j normalized) l
    | _ :: _ => normalization_error path "mapping keys must be strings"
    end.

(** The same over the fields of a dataclass. *)
Definition normalize_fields (f : string -> raw -> res json)
  : list (string * json) -> list (string * raw) -> res (list (string * json)) :=
  fix go normalized l :=
    match l with
    | [] => Ok normalized
    | (k, x) :: l => j ← f k x; go (dict_set k j normalized) l
    end.

Fixpoint normalize_json_value (path : string) (max_depth max_collection_items depth : Z)
    (value : raw) : res json :=
  if (max_depth <? depth)%Z
  then normalization_error path ("depth exceeds " +:+ Z_to_string max_depth)
  else
  let check_items (n : nat) : res unit :=
    enforce_limit (Z.of_nat n) max_collection_items COLLECTION_ITEMS path in
  match value with
  | RNone => Ok JNull
  | RBool b => Ok (JBool b)
  | RInt z => Ok (JInt z)
  | RStr s => Ok (JStr s)
  | RFloat f =>
      if isfinite f then Ok (JFloat f)
      else normalization_error path "non-finite numbers are not supported"
  | RModel dump => normalize_json_value path max_depth max_collection_items depth dump
  | RDataclass fields =>
      _ ← check_items (length fields);
      JDict <$> normalize_fields (fun k x =>
        normalize_json_value (path +:+ "." +:+ k) max_depth max_collection_items (depth + 1) x)
        [] fields
  | RDict items =>
      _ ← check_items (length items);
      JDict <$> normalize_items path (fun k x =>
        normalize_json_value (path +:+ "." +:+ k) max_depth max_collection_items (depth + 1) x)
        [] items
  | RList items | RTuple items =>
      _ ← check_items (length items);
      JList <$> traverse_from (fun index x =>
        normalize_json_value (path +:+ "[" +:+ nat_to_string index +:+ "]") max_depth
          max_collection_items (depth + 1) x) 0 items
  | ROther n => normalization_error path ("unsupported type " +:+ n)
  end.

(** [normalize_json_value(value, path=path, max_collection_items=n)] *)
Definition normalize_value (path : string) (max_collection_items : Z) (value : raw) : res json :=
  normalize_json_value path MAX_JSON_DEPTH max_collection_items 0 value.

Definition normalize_json_object (path : string) (max_collection_items : Z) (value : raw)
  : res (list (string * json)) :=
  normalized ← normalize_value path max_collection_items value;
  match normalized with
  | JDict d => Ok d
  | _ => normalization_error path "expected an object"
  end.

Definition resolve_token (value : json) (token : path_token) (path : string)
  : res (json * string) :=
  match value with
  | JDict d =>
      match token with
      | TKey k =>
          let next_path := path +:+ "." +:+ k in
          match dict_get k d with
          | Some v => Ok (v, next_path)
          | None => path_error next_path "key is not present"
          end
      | _ => path_error path "object access requires a string key"
      end
  | JList l =>
      match token with
      | TIndex i =>
          let next_path := path +:+ "[" +:+ Z_to_string i +:+ "]" in
          if ((i <? 0) || (Z.of_nat (length l) <=? i))%Z
          then path_error next_path "index is out of range"
          else match l !! Z.to_nat i with
               | Some v => Ok (v, next_path)
               | None => path_error next_path "index is out of range"
               end
      | _ => path_error path "array access requires an integer index"
      end
  | _ => path_error path ("cannot traverse " +:+ json_type_name value)
  end.

Fixpoint resolve_tokens (current : json) (tokens : list path_token) (path : string) : res json :=
  match tokens with
  | [] => Ok current
  | t :: ts => '(current, path) ← resolve_token current t path; resolve_tokens current ts path
  end.

Definition resolve_json_path (value : raw) (tokens : list path_token) (root : string) : res json :=
  if (MAX_PATH_TOKENS <? length tokens)%nat
  then path_error root ("path contains more than " +:+ nat_to_string MAX_PATH_TOKENS +:+ " tokens")
  else
    current ← normalize_value root DEFAULT_COLLECTION_ITEMS value;
    resolve_tokens current tokens root.

(** The value at a path, as a partial function on JSON data. *)
Fixpoint json_at (j : json) (tokens : list path_token) : option json :=
  match tokens with
  | [] => Some j
  | t :: ts =>
      match j, t with
      | JDict d, TKey k => dict_get k d ≫= fun v => json_at v ts
      | JList l, TIndex i =>
          if (0 <=? i)%Z then l !! Z.to_nat i ≫= fun v => json_at v ts else None
      | _, _ => None
      end
  end.

(** ** Lemmas *)

Lemma enforce_limit_Ok actual limit kind boundary u :
  enforce_limit actual limit kind boundary = Ok u <-> (actual <= limit)%Z.
Proof.
  unfold enforce_limit. destruct u. destruct (Z.ltb_spec limit actual).
  - split; [done | lia].
  - split; [lia | done].
Qed.

Lemma fmap_Ok {A B} (f : A -> B) (m : res A) b : f <$> m = Ok b -> exists a, m = Ok a /\ b = f a.
Proof. destruct m; cbn; [|done]. intros [= <-]. eauto. Qed.

Definition fields_bounded (n : Z) (d : nat) (l : list (string * json)) : Prop :=
  dict_wf l /\ Forall (fun kv => json_bounded n d kv.2) l.

Lemma fields_bounded_set n d k j l :
  fields_bounded n d l -> json_bounded n d j -> fields_bounded n d (dict_set k j l).
Proof.
  intros [Hwf HF] Hj. split; [by apply dict_set_wf|]. clear Hwf.
  induction HF as [|[k' v'] l Hv HF IH]; cbn; [by repeat constructor|].
  case_decide; constructor; auto.
Qed.

Lemma normalize_items_bounded n d path f l acc r :
  fields_bounded n d acc -> Forall (fun kv => forall k j, f k kv.2 = Ok j -> json_bounded n d j) l ->
  normalize_items path f acc l = Ok r ->
  fields_bounded n d r /\ (length r <= length acc + length l)%nat.
Proof.
  revert acc; induction l as [|[k x] l IH]; intros acc Hacc HF; cbn.
  - intros [= <-]. split; [done | lia].
  - apply list.Forall_cons in HF as [Hx HF]. destruct k; try done. intros H. inv_ok.
    edestruct (IH (dict_set s a acc)) as [Hr Hlen]; eauto using fields_bounded_set.
    split; [done|]. pose proof (dict_set_length_le s a acc). lia.
Qed.

Lemma normalize_fields_items f l acc path :
  normalize_fields f acc l = normalize_items path f acc (map (fun kv => (RStr kv.1, kv.2)) l).
Proof.
  revert acc; induction l as [|[k x] l IH]; intros acc; cbn; [done|].
  apply bind_ext. intros j _. apply IH.
Qed.

Lemma json_bounded_dict n d l :
  (Z.of_nat (length l) <= n)%Z -> fields_bounded n d l -> json_bounded n (S d) (JDict l).
Proof. intros Hn [Hwf HF]. by constructor. Qed.

Lemma fields_bounded_nil n d : fields_bounded n d [].
Proof. split; constructor. Qed.

(** A loop over a collection at the deepest level can only succeed on an empty one. *)
Lemma normalize_too_deep path md n depth r j :
  normalize_json_value path md n depth r = Ok j -> (depth <= md)%Z.
Proof. destruct r; cbn; destruct (Z.ltb_spec md depth); intros; done || lia. Qed.

Lemma depth_succ md depth :
  (depth + 1 <= md)%Z -> Z.to_nat (md - depth) = S (Z.to_nat (md - (depth + 1))).
Proof. lia. Qed.

Lemma normalize_dict_bounded n md depth path f l r :
  (depth <= md)%Z -> (Z.of_nat (length l) <= n)%Z ->
  Forall (fun kv => forall k j, f k kv.2 = Ok j ->
    (depth + 1 <= md)%Z /\ json_bounded n (Z.to_nat (md - (depth + 1))) j) l ->
  normalize_items path f [] l = Ok r -> json_bounded n (Z.to_nat (md - depth)) (JDict r).
Proof.
  intros Hd Hn HF H. destruct (decide (depth + 1 <= md)%Z) as [Hd'|Hd'].
  - rewrite depth_succ by done.
    edestruct normalize_items_bounded as [Hr Hlen]; [apply fields_bounded_nil| |exact H|].
    { eapply Forall_impl; [exact HF|]. cbn. intros kv Hkv k j Hj. by destruct (Hkv k j Hj). }
    apply json_bounded_dict; [cbn in Hlen; lia | done].
  - destruct l as [|[k x] l]; cbn in H; [injection H as <-; constructor; cbn in Hn; lia|].
    apply list.Forall_cons in HF as [Hx _]. destruct k; try done. inv_ok.
    destruct (Hx _ _ Ha); lia.
Qed.

Lemma normalize_list_bounded n md depth (f : nat -> raw -> res json) l r :
  (depth <= md)%Z -> (Z.of_nat (length l) <= n)%Z ->
  Forall (fun x => forall i j, f i x = Ok j ->
    (depth + 1 <= md)%Z /\ json_bounded n (Z.to_nat (md - (depth + 1))) j) l ->
  traverse_from f 0 l = Ok r -> json_bounded n (Z.to_nat (md - depth)) (JList r).
Proof.
  intros Hd Hn HF H. destruct (traverse_from_Ok _ _ _ _ H) as [Hlen Hel].
  rewrite Forall_lookup in HF. destruct (decide (depth + 1 <= md)%Z) as [Hd'|Hd'].
  - rewrite depth_succ by done. constructor; [lia|].
    apply Forall_lookup. intros i y Hy. destruct (Hel _ _ Hy) as (x & Hx & Hf).
    by destruct (HF _ _ Hx _ _ Hf).
  - destruct r as [|y r]; [constructor; lia|].
    destruct (Hel 0%nat y eq_refl) as (x & Hx & Hf). destruct (HF _ _ Hx _ _ Hf). lia.
Qed.

Lemma normalize_bounded_aux n md r : forall path depth j,
  normalize_json_value path md n depth r = Ok j ->
  (depth <= md)%Z /\ json_bounded n (Z.to_nat (md - depth)) j.
Proof.
  induction r as [| | | | |l IH|l IH|d IH|r IH|d IH|] using raw_ind'; intros path depth j H;
    pose proof (normalize_too_deep _ _ _ _ _ _ H) as Hd; (split; [done|]); revert H; cbn;
    (destruct (Z.ltb_spec md depth); [done|]).
  - intros [= <-]; constructor.
  - intros [= <-]; constructor.
  - intros [= <-]; constructor.
  - destruct (isfinite f) eqn:Hf; [|done]. intros [= <-]. by constructor.
  - intros [= <-]; constructor.
  - intros (u & Hn%enforce_limit_Ok & (l' & Hl & ->)%fmap_Ok)%bind_Ok.
    eapply normalize_list_bounded; eauto. eapply Forall_impl; [exact IH|]. cbn; eauto.
  - intros (u & Hn%enforce_limit_Ok & (l' & Hl & ->)%fmap_Ok)%bind_Ok.
    eapply normalize_list_bounded; eauto. eapply Forall_impl; [exact IH|]. cbn; eauto.
  - intros (u & Hn%enforce_limit_Ok & (d' & Hd' & ->)%fmap_Ok)%bind_Ok.
    eapply normalize_dict_bounded; eauto. eapply Forall_impl; [exact IH|]. cbn; eauto.
  - intros H'. by destruct (IH _ _ _ H').
  - intros (u & Hn%enforce_limit_Ok & (d' & Hd' & ->)%fmap_Ok)%bind_Ok.
    rewrite normalize_fields_items with (path := path) in Hd'.
    eapply normalize_dict_bounded; [done| |  |exact Hd'].
    + rewrite length_map. exact Hn.
    + apply List.Forall_map. eapply Forall_impl; [exact IH|]. cbn; eauto.
  - done.
Qed.

(** A dict built key by key from distinct keys keeps the order of its items. *)
Lemma normalize_items_complete path f l acc :
  Forall (fun kv : string * json => f kv.1 (json_raw kv.2) = Ok kv.2) l ->
  dict_wf (acc ++ l) ->
  normalize_items path f acc (map (fun kv => (RStr kv.1, json_raw kv.2)) l) = Ok (acc ++ l).
Proof.
  revert acc; induction l as [|[k x] l IH]; intros acc HF Hwf; cbn; [by rewrite app_nil_r|].
  apply list.Forall_cons in HF as [Hx HF]. cbn in Hx. rewrite Hx. cbn.
  assert (dict_set k x acc = acc ++ [(k, x)]) as ->.
  { assert (k ∉ dict_keys acc) as Hk.
    { unfold dict_wf, dict_keys in Hwf. rewrite fmap_app in Hwf.
      apply list.NoDup_app in Hwf as (_ & Hdis & _). intros Hin. apply (Hdis _ Hin). left. }
    clear -Hk. induction acc as [|[k' v'] acc IH]; cbn; [done|].
    unfold dict_keys in Hk; cbn in Hk. apply not_elem_of_cons in Hk as [Hne Hk].
    rewrite decide_False by done. by rewrite IH. }
  fold (normalize_items path f). rewrite IH; [by rewrite <- app_assoc | done|].
  by rewrite <- app_assoc.
Qed.

Lemma traverse_from_map f i (l : list json) :
  Forall (fun x => forall i, f i (json_raw x) = Ok x) l ->
  traverse_from f i (map json_raw l) = (Ok l : res _).
Proof.
  intros HF. revert i; induction HF as [|x l Hx HF IH]; intros i; cbn; [done|].
  rewrite Hx; cbn. by rewrite IH.
Qed.

Lemma normalize_complete_aux n md j : forall path depth,
  (depth <= md)%Z -> json_bounded n (Z.to_nat (md - depth)) j ->
  normalize_json_value path md n depth (json_raw j) = Ok j.
Proof.
  induction j as [| | |f|s|l IH|d IH] using json_ind'; intros path depth Hd Hb; cbn;
    (destruct (Z.ltb_spec md depth); [lia|]); try done.
  - inversion Hb as [| | |? ? Hf| | | | |]; subst. by rewrite Hf.
  - rewrite length_map. inversion Hb as [| | | | |? H0|? ? Hn HF Heq| |]; subst; cbn.
    + rewrite (proj2 (enforce_limit_Ok _ _ _ _ tt)) by (cbn; lia). done.
    + rewrite (proj2 (enforce_limit_Ok _ _ _ _ tt)) by lia. cbn.
      rewrite traverse_from_map; [done|]. rewrite Forall_forall in *.
      intros x Hx i. apply IH; [done|lia|]. replace (Z.to_nat (md - (depth + 1))) with d by lia. auto.
  - rewrite length_map. inversion Hb as [| | | | | | |? H0|d' ? Hn Hwf HF Heq]; subst; cbn.
    + rewrite (proj2 (enforce_limit_Ok _ _ _ _ tt)) by (cbn; lia). done.
    + rewrite (proj2 (enforce_limit_Ok _ _ _ _ tt)) by lia. cbn.
      rewrite (normalize_items_complete _ _ d []); [done| |done].
      rewrite Forall_forall in *. intros x Hx. apply IH; [done|lia|].
      replace (Z.to_nat (md - (depth + 1))) with d' by lia. auto.
Qed.

(** Values that the default-limit normalisation returns unchanged. *)
Abbreviation json_normal := (json_bounded DEFAULT_COLLECTION_ITEMS (Z.to_nat MAX_JSON_DEPTH)).

Lemma normalize_value_normal path j :
  json_normal j -> normalize_value path DEFAULT_COLLECTION_ITEMS (json_raw j) = Ok j.
Proof. intros H. by apply normalize_complete_aux. Qed.

Lemma normalize_value_bounded path n r j :
  normalize_value path n r = Ok j -> json_bounded n (Z.to_nat MAX_JSON_DEPTH) j.
Proof. intros H. by apply normalize_bounded_aux in H as [_ H]. Qed.

Lemma resolve_tokens_at j ts path v :
  resolve_tokens j ts path = Ok v <-> json_at j ts = Some v.
Proof.
  revert j path; induction ts as [|t ts IH]; intros j path; cbn [resolve_tokens json_at].
  - split; congruence.
  - destruct j as [| | | | |l|d], t as [k|i|tb]; cbn -[json_type_name]; try done.
    + destruct (Z.leb_spec 0 i), (Z.ltb_spec i 0); try lia; cbn; [|done].
      destruct (Z.leb_spec (Z.of_nat (length l)) i); cbn.
      * rewrite lookup_ge_None_2 by lia. done.
      * destruct (l !! Z.to_nat i) as [x|]; cbn; [apply IH | done].
    + destruct (dict_get k d) as [x|]; cbn; [apply IH | done].
Qed.

Lemma resolve_tokens_error j ts path e :
  resolve_tokens j ts path = Raise e -> exists p, exn_cls e = DataPathError p.
Proof.
  revert j path; induction ts as [|t ts IH]; intros j path; cbn [resolve_tokens]; [done|].
  intros [He|([v p] & Ht & He)]%bind_Raise; [|by eapply IH].
  destruct j as [| | | | |l|d], t as [k|i|tb]; cbn -[json_type_name] in He;
    repeat case_match; try done; injection He as <-; cbn; eauto.
Qed.

(** ** Bounds are inherited *)

Lemma json_bounded_mono n d d' j : json_bounded n d j -> (d <= d')%nat -> json_bounded n d' j.
Proof.
  revert d d'; induction j as [| | |f|s|l IH|l IH] using json_ind'; intros d d' Hb Hd;
    inversion Hb; subst; try (by constructor).
  - destruct d' as [|d']; [lia|]. constructor; [done|]. rewrite Forall_forall in *.
    intros x Hx. eapply IH; eauto. lia.
  - destruct d' as [|d']; [lia|]. constructor; [done..|]. rewrite Forall_forall in *.
    intros x Hx. eapply IH; eauto. lia.
Qed.

Lemma json_bounded_lookup n d l i v :
  json_bounded n d (JList l) -> l !! i = Some v -> json_bounded n d v.
Proof.
  inversion 1; subst; [done|]. intros Hv. eapply json_bounded_mono; [|apply Nat.le_succ_diag_r].
  rewrite Forall_lookup in *. eauto.
Qed.

Lemma json_bounded_get n d l k v :
  json_bounded n d (JDict l) -> dict_get k l = Some v -> json_bounded n d v.
Proof.
  inversion 1 as [| | | | | | | |? ? ? ? HF]; subst; [done|]. intros Hv%dict_get_elem.
  eapply json_bounded_mono; [|apply Nat.le_succ_diag_r].
  rewrite Forall_forall in HF. by apply (HF (k, v)).
Qed.

Lemma json_bounded_at n d j ts v : json_bounded n d j -> json_at j ts = Some v -> json_bounded n d v.
Proof.
  revert j; induction ts as [|t ts IH]; intros j Hj; cbn; [by intros [= <-]|].
  destruct j as [| | | | |l|l], t as [k|i|tb]; try done.
  - destruct (Z.leb_spec 0 i); [|done]. intros (x & Hx & Hv)%bind_Some.
    eapply IH; [|exact Hv]. by eapply json_bounded_lookup.
  - intros (x & Hx & Hv)%bind_Some. eapply IH; [|exact Hv]. by eapply json_bounded_get.
Qed.

Lemma json_at_app j ts1 ts2 : json_at j (ts1 ++ ts2) = json_at j ts1 ≫= fun v => json_at v ts2.
Proof.
  revert j; induction ts1 as [|t ts IH]; intros j; [done|]. cbn.
  destruct j as [| | | | |l|l], t as [k|i|tb]; cbn; try done.
  - destruct (0 <=? i)%Z; [|done]. destruct (l !! Z.to_nat i); cbn; [apply IH | done].
  - destruct (dict_get k l); cbn; [apply IH | done].
Qed.

Lemma resolve_json_path_normal j ts root :
  json_normal j -> (length ts <= MAX_PATH_TOKENS)%nat ->
  resolve_json_path (json_raw j) ts root = resolve_tokens j ts root.
Proof.
  intros Hj Hts. unfold resolve_json_path. rewrite (proj2 (Nat.ltb_ge _ _)) by done.
  by rewrite normalize_value_normal.
Qed.

(** ** Properties *)

(** C19: Normalisation is a projection onto bounded JSON.  What it returns has at most
    32 levels of nesting, at most the given number of items in every collection,
    finite numbers and distinct keys; and normalising the returned value again, under
    any path, returns it unchanged. *)
Theorem normalize_projection (path : string) (n : Z) (value : raw) (j : json)
    (Hnorm : normalize_value path n value = Ok j) :
  json_bounded n (Z.to_nat MAX_JSON_DEPTH) j /\
  forall path', normalize_value path' n (json_raw j) = Ok j.
Proof.
  pose proof (normalize_value_bounded _ _ _ _ Hnorm) as Hb. split; [done|].
  intros path'. by apply normalize_complete_aux.
Qed.

Lemma normalize_projection_witness :
  json_bounded 10 (Z.to_nat MAX_JSON_DEPTH) (JDict [("a", JList [JInt 1; JBool true])]) /\
  forall path', normalize_value path' 10 (json_raw (JDict [("a", JList [JInt 1; JBool true])])) =
    Ok (JDict [("a", JList [JInt 1; JBool true])]).
Proof.
  apply (normalize_projection "$" 10 (RDataclass [("a", RTuple [RInt 1; RBool true])])).
  vm_compute. reflexivity.
Defined.

(** Path traversal is exact.  On a value within the default bounds, a path of at
    most 32 tokens resolves to the value it leads to, and raises [DataPathError] (never
    another error, never a wrong value) when a key is missing, an index is out of
    range or negative, or a scalar is traversed. *)
Theorem resolve_json_path_exact (j : json) (ts : list path_token) (root : string)
    (Hj : json_normal j) (Hts : (length ts <= MAX_PATH_TOKENS)%nat) :
  match json_at j ts with
  | Some v => resolve_json_path (json_raw j) ts root = Ok v
  | None => exists path e, resolve_json_path (json_raw j) ts root = Raise e /\
                           exn_cls e = DataPathError path
  end.
Proof.
  rewrite resolve_json_path_normal by done. destruct (json_at j ts) as [v|] eqn:Hv.
  - by apply resolve_tokens_at.
  - destruct (resolve_tokens j ts root) as [v|e] eqn:Hr.
    + apply resolve_tokens_at in Hr. congruence.
    + destruct (resolve_tokens_error _ _ _ _ Hr) as (p & Hp). eauto.
Qed.

Lemma resolve_json_path_exact_witness :
  resolve_json_path (json_raw (JDict [("a", JList [JInt 5])])) [TKey "a"; TIndex 0] "step" =
    Ok (JInt 5).
Proof.
  pose proof (resolve_json_path_exact (JDict [("a", JList [JInt 5])]) [TKey "a"; TIndex 0] "step") as H.
  apply H.
  - apply (normalize_value_bounded "$" _ (json_raw (JDict [("a", JList [JInt 5])]))).
    vm_compute. reflexivity.
  - vm_compute. lia.
Defined.
