(* ===== verification/Grammar.v ===== *)
(** Reference paths and placeholders: [config/grammar.py]. *)

From S2P Require Export Data.

Definition MAX_REFERENCE_COMPONENT_LENGTH : nat := 128.

Definition RESERVED_DATA_ROOTS : list string := ["error"; "input"; "request_id"].

Definition identifier_start (c : Ascii.ascii) : bool :=
  is_upper c || is_lower c || bool_decide (c = "_"%char).

Definition identifier_char (c : Ascii.ascii) : bool := identifier_start c || is_digit c.

(** [REFERENCE_COMPONENT_PATTERN.fullmatch]: [[A-Za-z_][A-Za-z0-9_]*] *)
Definition is_identifier (s : string) : bool :=
  match s with
  | EmptyString => false
  | String c s => identifier_start c && string_forallb identifier_char s
  end.

(** ** Reference paths *)

Record ReferencePath := {
  rp_value : string;
  rp_components : list path_token;
}.

(** [ReferencePath.root]; the first component of a parsed reference is an
    identifier. *)
Definition rp_root (r : ReferencePath) : string :=
  match rp_components r with TKey s :: _ => s | _ => EmptyString end.

Definition rp_path (r : ReferencePath) : list path_token := drop 1 (rp_components r).

(** The loop body of [ReferencePath.parse]. *)
Definition parse_component (index : nat) (part : string) : res path_token :=
  if decide (part = EmptyString) then
    raise ReferenceSyntaxError "reference components must not be empty"
  else if (MAX_REFERENCE_COMPONENT_LENGTH <? String.length part)%nat then
    raise ReferenceSyntaxError
      ("reference component exceeds " +:+ nat_to_string MAX_REFERENCE_COMPONENT_LENGTH
       +:+ " characters")
  else if (0 <? index)%nat && string_forallb is_digit part then
    if (1 <? String.length part)%nat && String.prefix "0" part then
      raise ReferenceSyntaxError "numeric reference components must not contain leading zeroes"
    else Ok (TIndex (Z_of_digits part))
  else if is_identifier part then Ok (TKey part)
  else raise ReferenceSyntaxError
    ("reference component " +:+ repr_string part +:+ " must be an identifier or array index").

Definition dot : Ascii.ascii := "."%char.

(** [ReferencePath.parse] of a string. *)
Definition ReferencePath_parse (value : string) : res ReferencePath :=
  let parts := string_split dot value in
  if (MAX_REFERENCE_COMPONENTS <? length parts)%nat then
    raise ReferenceSyntaxError
      ("reference contains more than " +:+ nat_to_string MAX_REFERENCE_COMPONENTS
       +:+ " components")
  else
    components ← traverse_from parse_component 0 parts;
    Ok {| rp_value := value; rp_components := components |}.

(** ** Placeholders *)

Record Placeholder := {
  ph_name : string;
  ph_start : nat;
  ph_end : nat;
}.

(** [s[n:]] *)
Fixpoint string_drop (n : nat) (s : string) : string :=
  match n, s with
  | S n, String _ s => string_drop n s
  | _, _ => s
  end.

(** [s[i:j]] *)
Definition string_slice (i j : nat) (s : string) : string := string_take (j - i) (string_drop i s).

(** Position of the first occurrence of [needle] in the suffix [s] that starts at
    [pos]. *)
Fixpoint find_from (needle s : string) (pos : nat) : option nat :=
  if String.prefix needle s then Some pos
  else match s with
       | EmptyString => None
       | String _ s => find_from needle s (S pos)
       end.

(** [s.find(needle, from)], [None] for -1. *)
Definition string_find (needle s : string) (from : nat) : option nat :=
  find_from needle (string_drop from s) from.

(** The [while] loop of [parse_placeholders]; each iteration moves [index] forward,
    so [String.length value + 1] iterations are enough. *)
Fixpoint parse_placeholders_loop (fuel : nat) (value : string) (index : nat) : res (list Placeholder) :=
  match fuel with
  | O => Ok []
  | S fuel =>
      if (String.length value <=? index)%nat then Ok [] else
      match string_find "${" value index with
      | None => Ok []
      | Some start =>
          match string_find "}" value (start + 2) with
          | None => raise PlaceholderSyntaxError
              ("placeholder beginning at character " +:+ nat_to_string start +:+ " is unclosed")
          | Some stop =>
              let name := string_slice (start + 2) stop value in
              if is_identifier name then
                rest ← parse_placeholders_loop fuel value (stop + 1);
                Ok ({| ph_name := name; ph_start := start; ph_end := stop + 1 |} :: rest)
              else raise PlaceholderSyntaxError
                ("placeholder at character " +:+ nat_to_string start +:+ " has invalid name "
                 +:+ repr_string name)
          end
      end
  end.

Definition parse_placeholders (value : string) : res (list Placeholder) :=
  parse_placeholders_loop (S (String.length value)) value 0.

(** [validate_placeholders] *)
Fixpoint validate_placeholders (value : raw) (path : string) : res unit :=
  match value with
  | RStr s =>
      _ ← catch (parse_placeholders s) (fun e => raise_from ValueError (path +:+ ": " +:+ exn_msg e) e);
      Ok tt
  | RDict d =>
      _ ← traverse (fun kv =>
            let key := match kv.1 with RStr k => k | k => raw_type_name k end in
            validate_placeholders kv.2 (path +:+ "." +:+ key)) d; Ok tt
  | RList l =>
      _ ← traverse_from (fun index item =>
            validate_placeholders item (path +:+ "." +:+ nat_to_string index)) 0 l; Ok tt
  | _ => Ok tt
  end.

(** [placeholder_names]; the frozenset is a list read as a set. *)
Fixpoint placeholder_names (value : raw) : res (list string) :=
  match value with
  | RStr s => map ph_name <$> parse_placeholders s
  | RDict d => @concat string <$> traverse (fun kv => placeholder_names kv.2) d
  | RList l => @concat string <$> traverse placeholder_names l
  | _ => Ok []
  end.

(** [validate_data_roots] *)
Definition validate_data_roots (names : list string) (kind : string) : res unit :=
  let collisions := filter (fun r => r ∈ names) RESERVED_DATA_ROOTS in
  if decide (collisions = []) then Ok tt
  else raise ValueError
    (kind +:+ " names collide with reserved engine roots: "
     +:+ "[" +:+ string_join ", " (map repr_string collisions) +:+ "]").

(** ** What a reference means *)

(** The text of one component. *)
Definition token_text (t : path_token) : string :=
  match t with
  | TKey s => s
  | TIndex i => Z_to_string i
  | TBool b => if b then "True" else "False"
  end.

Definition print_components (cs : list path_token) : string :=
  string_join "." (map token_text cs).

(** A component the grammar allows at position [index]. *)
Definition component_wf (index : nat) (t : path_token) : Prop :=
  (String.length (token_text t) <= MAX_REFERENCE_COMPONENT_LENGTH)%nat /\
  match t with
  | TKey s => is_identifier s = true
  | TIndex i => (0 < index)%nat /\ (0 <= i)%Z
  | TBool _ => False
  end.

Definition components_wf (cs : list path_token) : Prop :=
  cs <> [] /\ (length cs <= MAX_REFERENCE_COMPONENTS)%nat /\
  forall i t, cs !! i = Some t -> component_wf i t.

(** The text between placeholders, with [f] in the place of each one. *)
Fixpoint render (f : Placeholder -> string) (value : string) (position : nat)
    (ps : list Placeholder) : string :=
  match ps with
  | [] => string_drop position value
  | p :: ps => string_slice position (ph_start p) value +:+ f p +:+ render f value (ph_end p) ps
  end.

Definition placeholder_text (p : Placeholder) : string := "${" +:+ ph_name p +:+ "}".

(** ** Lemmas *)

Lemma identifier_no_digits s : is_identifier s = true -> string_forallb is_digit s = false.
Proof.
  destruct s as [|c s]; [done|]. cbn. intros [Hc _]%andb_prop.
  apply andb_false_intro1. destruct c as [b0 b1 b2 b3 b4 b5 b6 b7].
  destruct b0, b1, b2, b3, b4, b5, b6, b7; vm_compute in Hc; done || reflexivity.
Qed.

Lemma digit_not_dot c : is_digit c = true -> bool_decide (c <> dot) = true.
Proof. intros H. apply bool_decide_eq_true. by intros ->. Qed.

Lemma identifier_char_not_dot c : identifier_char c = true -> bool_decide (c <> dot) = true.
Proof. intros H. apply bool_decide_eq_true. by intros ->. Qed.

Lemma identifier_start_char c : identifier_start c = true -> identifier_char c = true.
Proof. unfold identifier_char. by intros ->. Qed.

Lemma component_text_no_dot i t :
  component_wf i t -> string_forallb (fun c => bool_decide (c <> dot)) (token_text t) = true.
Proof.
  intros [_ H]. destruct t as [s|z|]; cbn in *; [| |done].
  - destruct s as [|c s]; [done|]. cbn in *. apply andb_prop in H as [Hc Hs].
    rewrite (identifier_char_not_dot c) by (by apply identifier_start_char). cbn.
    by eapply string_forallb_impl; [apply identifier_char_not_dot|].
  - destruct H as [_ H]. eapply string_forallb_impl; [apply digit_not_dot|].
    by apply Z_to_string_digits.
Qed.

Lemma prefix_cons c c' p s :
  String.prefix (String c p) (String c' s) = if ascii_dec c c' then String.prefix p s else false.
Proof. done. Qed.

Lemma prefix_nil s : String.prefix EmptyString s = true.
Proof. by destruct s. Qed.

Lemma prefix_app p s : String.prefix p s = true -> exists t, s = p +:+ t.
Proof.
  revert s; induction p as [|c p IH]; intros s; [intros _; by exists s|].
  destruct s as [|c' s]; [done|]. rewrite prefix_cons. destruct (ascii_dec c c') as [<-|]; [|done].
  intros (t & ->)%IH. by exists t.
Qed.

Lemma prefix_of_app p t : String.prefix p (p +:+ t) = true.
Proof.
  induction p as [|c p IH]; [apply prefix_nil|].
  rewrite string_append_cons, prefix_cons. by destruct (ascii_dec c c).
Qed.

Lemma parse_component_sound i part t :
  parse_component i part = Ok t -> token_text t = part /\ component_wf i t.
Proof.
  unfold parse_component. destruct (decide (part = EmptyString)) as [|Hne]; [done|].
  destruct (Nat.ltb_spec MAX_REFERENCE_COMPONENT_LENGTH (String.length part)) as [|Hlen]; [done|].
  destruct (Nat.ltb_spec 0 i) as [Hi|Hi]; cbn [andb];
    [destruct (string_forallb is_digit part) eqn:Hd|].
  - destruct (Nat.ltb_spec 1 (String.length part)) as [H1|H1]; cbn [andb].
    + destruct (String.prefix "0" part) eqn:Hp; [done|]. intros [= <-].
      assert (Z_to_string (Z_of_digits part) = part) as Ht.
      { apply Z_to_string_of_digits; [done..|]. right. intros s' ->.
        pose proof (prefix_of_app "0" s') as Hq. rewrite string_append_cons, string_append_nil_l in Hq. congruence. }
      unfold component_wf. cbn. rewrite Ht. repeat split; auto. apply Z_of_digits_nonneg.
    + intros [= <-].
      assert (Z_to_string (Z_of_digits part) = part) as Ht.
      { apply Z_to_string_of_digits; [done..|].
        destruct part as [|c [|c' p]]; cbn in H1; try lia; [done|].
        destruct (decide (c = "0"%char)) as [->|]; [by left|]. right. congruence. }
      unfold component_wf. cbn. rewrite Ht. repeat split; auto. apply Z_of_digits_nonneg.
  - destruct (is_identifier part) eqn:Hid; [|done]. intros [= <-]. done.
  - destruct (is_identifier part) eqn:Hid; [|done]. intros [= <-]. done.
Qed.

Lemma parse_component_complete i t : component_wf i t -> parse_component i (token_text t) = Ok t.
Proof.
  intros [Hlen Ht]. unfold parse_component.
  destruct t as [s|z|]; [| |done]; cbn [token_text] in *.
  - rewrite decide_False by (by intros ->).
    rewrite (proj2 (Nat.ltb_ge _ _)) by done.
    by rewrite (identifier_no_digits _ Ht), andb_false_r, Ht.
  - destruct Ht as [Hi Hz]. rewrite decide_False by (by apply Z_to_string_nonempty).
    rewrite (proj2 (Nat.ltb_ge _ _)) by done.
    rewrite (proj2 (Nat.ltb_lt _ _)) by done. rewrite Z_to_string_digits by done. cbn [andb].
    rewrite Z_of_digits_to_string by done.
    destruct (Z_to_string z) as [|c s] eqn:Hs; cbn [String.length]; [done|].
    destruct (Nat.ltb_spec 1 (S (String.length s))); cbn [andb]; [|done].
    destruct (String.prefix "0" (String c s)) eqn:Hp; [|done].
    apply prefix_app in Hp as [u Hu]. rewrite string_append_cons in Hu. injection Hu as -> ->.
    rewrite string_append_nil_l in *.
    rewrite (Z_to_string_no_leading_zero _ _ Hz Hs) in *. cbn in *. lia.
Qed.

Lemma string_take_drop n s : string_take n s +:+ string_drop n s = s.
Proof.
  revert s; induction n as [|n IH]; intros [|c s]; cbn; try done.
  rewrite string_append_cons. by rewrite IH.
Qed.

Lemma string_drop_length n s : String.length (string_drop n s) = (String.length s - n)%nat.
Proof. revert s; induction n as [|n IH]; intros [|c s]; cbn; try lia; [done..|]. apply IH. Qed.

Lemma string_drop_drop n m s : string_drop n (string_drop m s) = string_drop (m + n) s.
Proof.
  revert s; induction m as [|m IH]; intros s; cbn; [done|].
  destruct s as [|c s]; [by destruct n | apply IH].
Qed.

Lemma string_take_length_le n s : (n <= String.length s)%nat -> String.length (string_take n s) = n.
Proof. revert s; induction n as [|n IH]; intros [|c s]; cbn; try lia. intros. rewrite IH; lia. Qed.

(** A split of [s] into two adjacent slices. *)
Lemma string_slice_split i j s :
  (i <= j)%nat -> string_drop i s = string_slice i j s +:+ string_drop j s.
Proof.
  intros H. unfold string_slice. rewrite <- (string_take_drop (j - i) (string_drop i s)) at 1.
  rewrite string_drop_drop. by replace (i + (j - i))%nat with j by lia.
Qed.

Lemma find_from_Some needle s pos k :
  find_from needle s pos = Some k ->
  (pos <= k)%nat /\ String.prefix needle (string_drop (k - pos) s) = true.
Proof.
  revert pos; induction s as [|c s IH]; intros pos; cbn [find_from];
    destruct (String.prefix needle _) eqn:Hp.
  - intros [= <-]. by rewrite Nat.sub_diag.
  - done.
  - intros [= <-]. by rewrite Nat.sub_diag.
  - intros H%IH. destruct H as [Hk H]. split; [lia|].
    by replace (k - pos)%nat with (S (k - S pos)) by lia.
Qed.

Lemma string_find_Some needle s from k :
  string_find needle s from = Some k ->
  (from <= k)%nat /\ String.prefix needle (string_drop k s) = true.
Proof.
  intros (Hk & Hp)%find_from_Some. rewrite string_drop_drop in Hp.
  split; [done|]. by replace (from + (k - from))%nat with k in Hp by lia.
Qed.

Lemma prefix_length p s : String.prefix p s = true -> (String.length p <= String.length s)%nat.
Proof. intros (t & ->)%prefix_app. rewrite string_length_append. lia. Qed.

Lemma string_find_bound needle s from k :
  string_find needle s from = Some k -> (0 < String.length needle)%nat ->
  (k + String.length needle <= String.length s)%nat.
Proof.
  intros (Hk & Hp)%string_find_Some Hn. apply prefix_length in Hp.
  rewrite string_drop_length in Hp. lia.
Qed.

Lemma string_take_app n w s :
  string_take (String.length w + n) (w +:+ s) = w +:+ string_take n s.
Proof.
  induction w as [|c w IH]; [done|]. rewrite !string_append_cons.
  cbn [String.length plus string_take]. by rewrite IH.
Qed.

(** One successful iteration of the scanner. *)
Lemma placeholder_span value index start stop :
  string_find "${" value index = Some start -> string_find "}" value (start + 2) = Some stop ->
  (index <= start)%nat /\ (start + 2 <= stop)%nat /\ (stop < String.length value)%nat /\
  string_slice start (stop + 1) value =
    "${" +:+ string_slice (start + 2) stop value +:+ "}".
Proof.
  intros H1 H2. pose proof (string_find_bound _ _ _ _ H2 (le_n 1)) as Hlen. cbn in Hlen.
  apply string_find_Some in H1 as [Hi (t & Ht)%prefix_app].
  apply string_find_Some in H2 as [Hs (u & Hu)%prefix_app].
  repeat split; try lia.
  pose proof (string_slice_split (start + 2) stop value Hs) as Hmid.
  assert (string_drop (start + 2) value = t) as Hd.
  { rewrite <- string_drop_drop, Ht. done. }
  unfold string_slice at 1. rewrite Ht, <- Hd, Hmid, Hu.
  replace (stop + 1 - start)%nat with (S (S (stop - (start + 2) + 1)))%nat by lia.
  assert (String.length (string_slice (start + 2) stop value) = (stop - (start + 2))%nat) as Hl.
  { unfold string_slice. apply string_take_length_le. rewrite string_drop_length. lia. }
  rewrite <- Hl, !string_append_cons, string_append_nil_l. cbn [string_take]. do 2 f_equal.
  rewrite string_take_app. f_equal.
Qed.

(** More fuel than the remaining length changes nothing. *)
Lemma parse_placeholders_fuel value f1 f2 index :
  (String.length value < index + f1)%nat -> (String.length value < index + f2)%nat ->
  parse_placeholders_loop f1 value index = parse_placeholders_loop f2 value index.
Proof.
  revert f2 index; induction f1 as [|f1 IH]; intros f2 index H1 H2.
  - destruct f2; cbn; [done|]. by rewrite (proj2 (Nat.leb_le _ _)) by lia.
  - destruct f2 as [|f2]; cbn; [by rewrite (proj2 (Nat.leb_le _ _)) by lia|].
    destruct (String.length value <=? index)%nat; [done|].
    destruct (string_find "${" value index) as [start|] eqn:Hs; [|done].
    destruct (string_find "}" value (start + 2)) as [stop|] eqn:He; [|done].
    destruct (placeholder_span _ _ _ _ Hs He) as (? & ? & ? & _).
    destruct (is_identifier _); [|done]. rewrite (IH f2) by lia. done.
Qed.

Lemma parse_placeholders_loop_spec value fuel index ps :
  (index <= String.length value)%nat -> (String.length value < index + fuel)%nat ->
  parse_placeholders_loop fuel value index = Ok ps ->
  render placeholder_text value index ps = string_drop index value /\
  Forall (fun p => is_identifier (ph_name p) = true /\
                   (index <= ph_start p)%nat /\ (ph_start p < ph_end p)%nat /\
                   (ph_end p <= String.length value)%nat) ps.
Proof.
  revert index ps; induction fuel as [|fuel IH]; intros index ps Hi Hf; [lia|]. cbn.
  destruct (String.length value <=? index)%nat; [by intros [= <-]|].
  destruct (string_find "${" value index) as [start|] eqn:Hs; [|by intros [= <-]].
  destruct (string_find "}" value (start + 2)) as [stop|] eqn:He; [|done].
  destruct (placeholder_span _ _ _ _ Hs He) as (? & ? & ? & Hspan).
  destruct (is_identifier _) eqn:Hid; [|done]. intros H'. inv_ok.
  destruct (IH (stop + 1)%nat a) as [Hr HF]; [lia|lia|done|]. split.
  - cbn [render ph_start ph_end]. rewrite Hr. unfold placeholder_text. cbn [ph_name].
    rewrite <- Hspan, <- string_slice_split by lia. rewrite <- string_slice_split by lia. done.
  - constructor; [cbn; repeat split; auto; lia|].
    eapply Forall_impl; [exact HF|]. cbn. intros p (? & ? & ? & ?). repeat split; auto; lia.
Qed.

(** ** Properties *)


(** The placeholders found in a text are disjoint spans in order, each one is
    ["${name}"] with an identifier as its name, and the text is the literal pieces
    around them with nothing lost: rebuilding it from the spans gives it back. *)
Theorem placeholders_partition (value : string) (ps : list Placeholder)
    (Hparse : parse_placeholders value = Ok ps) :
  render placeholder_text value 0 ps = value /\
  Forall (fun p => is_identifier (ph_name p) = true /\ (ph_end p <= String.length value)%nat) ps.
Proof.
  apply parse_placeholders_loop_spec in Hparse as [Hr HF]; [|lia|lia].
  split; [exact Hr|]. eapply Forall_impl; [exact HF|]. cbn. naive_solver.
Qed.

Lemma placeholders_partition_witness :
  render placeholder_text "a/${x}/${y}" 0
    [ {| ph_name := "x"; ph_start := 2; ph_end := 6 |};
      {| ph_name := "y"; ph_start := 7; ph_end := 11 |} ] = "a/${x}/${y}" /\
  Forall (fun p => is_identifier (ph_name p) = true /\ (ph_end p <= String.length "a/${x}/${y}")%nat)
    [ {| ph_name := "x"; ph_start := 2; ph_end := 6 |};
      {| ph_name := "y"; ph_start := 7; ph_end := 11 |} ].
Proof. apply placeholders_partition. vm_compute. reflexivity. Defined.
