(* ===== verification/References.v ===== *)
(** Reference resolution and parameter interpolation: [engine/references.py]. *)

From S2P Require Export Grammar.

(** [except (DataNormalizationError, DataPathError) as exc] *)
Definition is_data_error (e : exn) : bool :=
  match exn_cls e with DataNormalizationError _ | DataPathError _ => true | _ => false end.

Definition is_reference_error (e : exn) : bool :=
  match exn_cls e with ReferenceResolutionError => true | _ => false end.

Definition resolve_reference (reference : ReferencePath) (step_outputs params : list (string * json))
  : res json :=
  let root := rp_root reference in
  match (match dict_get root step_outputs with Some v => Some v | None => dict_get root params end) with
  | Some value =>
      catch (resolve_json_path (json_raw value) (rp_path reference) root) (fun e =>
        if is_data_error e then raise_from ReferenceResolutionError (exn_msg e) e else Raise e)
  | None => raise ReferenceResolutionError
      ("Cannot resolve reference '" +:+ rp_value reference +:+ "': '" +:+ root +:+ "' not found")
  end.

(** [resolve_reference] of a reference given as text. *)
Definition resolve_reference_text (ref : string) (step_outputs params : list (string * json))
  : res json :=
  reference ← catch (ReferencePath_parse ref) (fun e =>
    raise_from ReferenceResolutionError
      ("Invalid reference '" +:+ ref +:+ "': " +:+ exn_msg e) e);
  resolve_reference reference step_outputs params.

(** The [input] field of a flow step. *)
Inductive input_spec :=
| InputNone
| InputRef (r : ReferencePath)
| InputDict (d : list (string * ReferencePath))
| InputList (l : list ReferencePath).

Definition resolve_input (spec : input_spec) (step_outputs params : list (string * json)) : res json :=
  match spec with
  | InputNone => Ok JNull
  | InputRef r => resolve_reference r step_outputs params
  | InputDict d => JDict <$> traverse_dict (fun _ r => resolve_reference r step_outputs params) d
  | InputList l => JList <$> traverse (fun r => resolve_reference r step_outputs params) l
  end.

Definition placeholder_syntax {A} (m : res A) : res A :=
  catch m (fun e => raise_from ReferenceResolutionError
    ("Invalid placeholder syntax: " +:+ exn_msg e) e).

(** [find_unresolved_placeholders] *)
Fixpoint find_unresolved_placeholders (value : raw) : res (list string) :=
  match value with
  | RStr s => map ph_name <$> placeholder_syntax (parse_placeholders s)
  | RDict d => @concat string <$> traverse (fun kv => find_unresolved_placeholders kv.2) d
  | RList l => @concat string <$> traverse find_unresolved_placeholders l
  | _ => Ok []
  end.

Section interpolation.
Context `{FloatRepr}.

Definition param_missing {A} (key : string) : res A :=
  raise ReferenceResolutionError ("Param '" +:+ key +:+ "' not found for interpolation").

(** The loop of [_interpolate_string] from [position] on, with the final slice. *)
Fixpoint interpolate_pieces (s : string) (params : list (string * json)) (position : nat)
    (placeholders : list Placeholder) : res string :=
  match placeholders with
  | [] => Ok (string_drop position s)
  | p :: placeholders =>
      match dict_get (ph_name p) params with
      | Some v =>
          rest ← interpolate_pieces s params (ph_end p) placeholders;
          Ok (string_slice position (ph_start p) s +:+ py_str v +:+ rest)
      | None => param_missing (ph_name p)
      end
  end.

Definition interpolate_string (s : string) (params : list (string * json)) : res raw :=
  placeholders ← placeholder_syntax (parse_placeholders s);
  let substitute := RStr <$> interpolate_pieces s params 0 placeholders in
  match placeholders with
  | [] => Ok (RStr s)
  | [p] =>
      if (ph_start p =? 0)%nat && (ph_end p =? String.length s)%nat then
        match dict_get (ph_name p) params with
        | Some v => Ok (json_raw v)
        | None => param_missing (ph_name p)
        end
      else substitute
  | _ => substitute
  end.

Fixpoint interpolate_params (value : raw) (params : list (string * json)) : res raw :=
  match value with
  | RStr s => interpolate_string s params
  | RDict d =>
      RDict <$> traverse (fun kv => v ← interpolate_params kv.2 params; Ok (kv.1, v)) d
  | RList l => RList <$> traverse (fun item => interpolate_params item params) l
  | _ => Ok value
  end.
End interpolation.

(** ** Lemmas *)

Lemma placeholder_syntax_Ok {A} (m : res A) a : placeholder_syntax m = Ok a <-> m = Ok a.
Proof. destruct m; cbn; naive_solver. Qed.

Section interpolation_lemmas.
Context `{FloatRepr}.

Lemma interpolate_pieces_render s params pos ps :
  Forall (fun p => is_Some (dict_get (ph_name p) params)) ps ->
  interpolate_pieces s params pos ps =
    Ok (render (fun p => py_str (default JNull (dict_get (ph_name p) params))) s pos ps).
Proof.
  intros HF. revert pos; induction HF as [|p ps [v Hv] HF IH]; intros pos; cbn; [done|].
  rewrite Hv, IH. done.
Qed.

Lemma interpolate_pieces_names s params pos ps r :
  interpolate_pieces s params pos ps = Ok r ->
  Forall (fun p => is_Some (dict_get (ph_name p) params)) ps.
Proof.
  revert pos r; induction ps as [|p ps IH]; intros pos r; cbn; [constructor|].
  destruct (dict_get (ph_name p) params) eqn:Hp; [|done]. intros H'. inv_ok.
  constructor; [done | by eapply IH].
Qed.

Lemma interpolate_string_total s params :
  is_ok (interpolate_string s params) = true <->
  exists ps, parse_placeholders s = Ok ps /\
    Forall (fun p => is_Some (dict_get (ph_name p) params)) ps.
Proof.
  unfold interpolate_string, placeholder_syntax.
  destruct (parse_placeholders s) as [ps|e]; cbn; [|naive_solver].
  assert (is_ok (RStr <$> interpolate_pieces s params 0 ps : res raw) = true <->
    Forall (fun p => is_Some (dict_get (ph_name p) params)) ps) as Hsub.
  { split.
    - destruct (interpolate_pieces s params 0 ps) eqn:Hi; [|done]. intros _.
      by eapply interpolate_pieces_names.
    - intros HF. by rewrite interpolate_pieces_render. }
  destruct ps as [|p ps]; [split; [|done]; intros _; exists []; by split|].
  transitivity (Forall (fun p => is_Some (dict_get (ph_name p) params)) (p :: ps)).
  - destruct ps as [|p' ps]; [|exact Hsub].
    destruct (_ && _); [|exact Hsub]. rewrite Forall_singleton.
    destruct (dict_get (ph_name p) params); cbn; naive_solver.
  - split; [eauto|]. by intros (ps' & [= <-] & HF).
Qed.
End interpolation_lemmas.

Definition names_bound (params : list (string * json)) (names : list string) : Prop :=
  forall n, n ∈ names -> n ∈ dict_keys params.

Lemma names_bound_app params l1 l2 :
  names_bound params (l1 ++ l2) <-> names_bound params l1 /\ names_bound params l2.
Proof. unfold names_bound. setoid_rewrite elem_of_app. naive_solver. Qed.

Lemma is_ok_fmap {E A B} (f : A -> B) (m : result E A) : is_ok (f <$> m) = is_ok m.
Proof. by destruct m. Qed.

Lemma is_ok_exists {E A} (m : result E A) : is_ok m = true <-> exists a, m = Ok a.
Proof. destruct m; cbn; naive_solver. Qed.

(** A traversal succeeds together with the collection of the names of its elements. *)
Lemma traverse_names {A B} (f : A -> res B) (g : A -> res (list string)) params l :
  Forall (fun x => is_ok (f x) = true <-> exists ns, g x = Ok ns /\ names_bound params ns) l ->
  is_ok (traverse f l) = true <->
  exists ns, @concat string <$> traverse g l = Ok ns /\ names_bound params ns.
Proof.
  induction 1 as [|x l Hx HF IH]; cbn.
  - split; [|done]. intros _. exists []. split; [done|]. intros n ?%not_elem_of_nil. done.
  - destruct (f x) as [y|e] eqn:Hf; cbn in *.
    + destruct (proj1 Hx eq_refl) as (ns & Hg & Hns). rewrite Hg. cbn.
      destruct (traverse f l) eqn:Htf; cbn in *.
      * destruct (proj1 IH eq_refl) as (ns' & Hc & Hns'). destruct (traverse g l); [|done].
        cbn in Hc. injection Hc as <-. split; [intros _ | done]. eexists. cbn. split; [done|].
        by apply names_bound_app.
      * split; [done|]. intros (ns' & Hc & Hb). destruct (traverse g l); [|done].
        cbn in Hc. injection Hc as <-. cbn in Hb. apply names_bound_app in Hb as [_ Hb].
        apply IH. cbn. eauto.
    + split; [done|]. intros (ns' & Hc & Hb). destruct (g x) as [ns|]; [|done]. cbn in Hc.
      destruct (traverse g l); [|done]. cbn in Hc. injection Hc as <-. cbn in Hb.
      apply names_bound_app in Hb as [Hb _]. apply Hx. eauto.
Qed.

(** ** Properties *)

(** The placeholder check of the configuration validator is exact.  Interpolating
    a value of any shape succeeds exactly when its placeholders parse and every name
    they mention is a parameter: checking [placeholder_names] against the declared
    parameters leaves no interpolation failure for the run and refuses nothing that
    would work. *)
Theorem interpolation_total_iff_names_bound `{FloatRepr} (value : raw)
    (params : list (string * json)) :
  is_ok (interpolate_params value params) = true <->
  exists names, placeholder_names value = Ok names /\ names_bound params names.
Proof.
  assert ((exists names, Ok (E := exn) [] = Ok names /\ names_bound params names) <->
    true = true) as Htriv.
  { split; [done|]. intros _. exists []. split; [done|]. by intros n ?%not_elem_of_nil. }
  induction value as [| | | |s|l IH|l IH|d IH|v IH|d IH|n] using raw_ind';
    cbn -[interpolate_string parse_placeholders]; symmetry;
    try apply Htriv; symmetry.
  - rewrite interpolate_string_total. unfold names_bound. split.
    + intros (ps & -> & HF). exists (map ph_name ps). split; [done|].
      intros n (p & -> & Hp)%list_elem_of_fmap. apply dict_get_Some_keys.
      rewrite Forall_forall in HF. by apply HF.
    + intros (names & Hn & Hb). destruct (parse_placeholders s) as [ps|]; [|done].
      cbn in Hn. injection Hn as <-. exists ps. split; [done|]. apply Forall_forall.
      intros p Hp. apply dict_get_Some_keys, Hb. apply list_elem_of_fmap. eauto.
  - rewrite is_ok_fmap. by apply traverse_names.
  - rewrite is_ok_fmap. apply traverse_names. eapply Forall_impl; [exact IH|].
    intros [k v]; cbn. intros <-. by destruct (interpolate_params v params).
Qed.

(** Interpolation changes nothing but placeholders.  A text that is one single
    placeholder becomes the parameter's value with its type; any other text becomes
    the same text with [str(value)] in the place of each span. *)
Theorem interpolate_string_spec `{FloatRepr} (s : string) (params : list (string * json))
    (ps : list Placeholder)
    (Hparse : parse_placeholders s = Ok ps)
    (Hbound : names_bound params (map ph_name ps)) :
  interpolate_string s params =
    match ps with
    | [p] => if (ph_start p =? 0)%nat && (ph_end p =? String.length s)%nat
             then Ok (json_raw (default JNull (dict_get (ph_name p) params)))
             else Ok (RStr (render (fun p => py_str (default JNull (dict_get (ph_name p) params))) s 0 ps))
    | _ => Ok (RStr (render (fun p => py_str (default JNull (dict_get (ph_name p) params))) s 0 ps))
    end.
Proof.
  assert (Forall (fun p => is_Some (dict_get (ph_name p) params)) ps) as HF.
  { apply Forall_forall. intros p Hp. apply dict_get_Some_keys, Hbound.
    apply list_elem_of_fmap. eauto. }
  unfold interpolate_string. rewrite Hparse. cbn [placeholder_syntax catch mbind result_bind].
  rewrite interpolate_pieces_render by done.
  destruct ps as [|p [|p' ps]]; [done| |done].
  destruct (_ && _); [|done]. apply Forall_singleton in HF as [v ->]. done.
Qed.

Lemma interpolate_string_spec_witness :
  let host := Build_FloatRepr (fun _ => EmptyString) in
  interpolate_string "a/${x}/${y}" [("x", JInt 7); ("y", JStr "b")] = Ok (RStr "a/7/b") /\
  interpolate_string "${x}" [("x", JInt 7)] = Ok (RInt 7).
Proof.
  intros host. split.
  - rewrite (interpolate_string_spec _ _ [ {| ph_name := "x"; ph_start := 2; ph_end := 6 |};
      {| ph_name := "y"; ph_start := 7; ph_end := 11 |} ]); [reflexivity | reflexivity |].
    intros n Hn. vm_compute in Hn. vm_compute. set_solver.
  - rewrite (interpolate_string_spec _ _ [ {| ph_name := "x"; ph_start := 0; ph_end := 4 |} ]);
      [reflexivity | reflexivity |].
    intros n Hn. vm_compute in Hn. vm_compute. set_solver.
Defined.
