(* ===== verification/Evaluator.v ===== *)
(** Inline conditions: [engine/evaluator.py].  Python's own expression parser,
    [ast.parse(expression.strip(), mode="eval")], is the parameter [ast_parse]. *)

From S2P Require Export References.

(** ** Syntax trees *)

Inductive constant :=
| CNone
| CBool (b : bool)
| CInt (z : Z)
| CFloat (f : spec_float)
| CStr (s : string)
| CBytes (s : string)
| CComplex (imag : spec_float)
| CEllipsis.

Inductive boolop := And | Or.
Inductive unaryop := Not | UAdd | USub | Invert.
Inductive cmpop := OpEq | OpNotEq | OpLt | OpLtE | OpGt | OpGtE | OpIs | OpIsNot | OpIn | OpNotIn.

Inductive expr : Type :=
| EBoolOp (op : boolop) (values : list expr)
| EUnaryOp (op : unaryop) (operand : expr)
| ECompare (left : expr) (comparisons : list (cmpop * expr))
| ECall (func : expr) (args : list expr) (keywords : nat)
| EAttribute (value : expr) (attr : string)
| ESubscript (value slice : expr)
| EName (id : string)
| EConstant (c : constant)
| EList (elts : list expr)
| ETuple (elts : list expr)
| EOther (type_name : string) (children : list expr).

(** [ast.parse(expression.strip(), mode="eval").body], [Raise] with the message of a
    [SyntaxError]. *)
Class PyParser := { ast_parse : string -> result string expr }.

(** ** Python values *)

Inductive pyval : Type :=
| VNone
| VBool (b : bool)
| VInt (z : Z)
| VFloat (f : spec_float)
| VStr (s : string)
| VBytes (s : string)
| VComplex (imag : spec_float)
| VEllipsis
| VList (l : list pyval)
| VTuple (l : list pyval)
| VDict (d : list (string * pyval)).

Fixpoint json_pyval (j : json) : pyval :=
  match j with
  | JNull => VNone
  | JBool b => VBool b
  | JInt z => VInt z
  | JFloat f => VFloat f
  | JStr s => VStr s
  | JList l => VList (map json_pyval l)
  | JDict d => VDict (map (fun kv => (kv.1, json_pyval kv.2)) d)
  end.

Fixpoint pyval_raw (v : pyval) : raw :=
  match v with
  | VNone => RNone
  | VBool b => RBool b
  | VInt z => RInt z
  | VFloat f => RFloat f
  | VStr s => RStr s
  | VBytes _ => ROther "bytes"
  | VComplex _ => ROther "complex"
  | VEllipsis => ROther "ellipsis"
  | VList l => RList (map pyval_raw l)
  | VTuple l => RTuple (map pyval_raw l)
  | VDict d => RDict (map (fun kv => (RStr kv.1, pyval_raw kv.2)) d)
  end.

Definition constant_value (c : constant) : pyval :=
  match c with
  | CNone => VNone
  | CBool b => VBool b
  | CInt z => VInt z
  | CFloat f => VFloat f
  | CStr s => VStr s
  | CBytes s => VBytes s
  | CComplex f => VComplex f
  | CEllipsis => VEllipsis
  end.

Definition pyval_type_name (v : pyval) : string := raw_type_name (pyval_raw v).

Definition pyval_num (v : pyval) : option num :=
  match v with
  | VBool b => Some (NInt (if b then 1 else 0))
  | VInt z => Some (NInt z)
  | VFloat f => Some (NFloat f)
  | _ => None
  end.

Definition num_is_zero (n : num) : bool :=
  match num_compare n (NInt 0) with Some Eq => true | _ => false end.

(** [bool(v)] *)
Definition py_bool (v : pyval) : bool :=
  match v with
  | VNone => false
  | VBool b => b
  | VInt z => negb (z =? 0)%Z
  | VFloat f => negb (num_is_zero (NFloat f))
  | VStr s | VBytes s => negb (bool_decide (s = EmptyString))
  | VComplex f => negb (num_is_zero (NFloat f))
  | VEllipsis => true
  | VList l | VTuple l => match l with [] => false | _ => true end
  | VDict d => match d with [] => false | _ => true end
  end.

Definition num_eq (a b : num) : bool :=
  match num_compare a b with Some Eq => true | _ => false end.

(** [a == b] *)
Fixpoint py_eq (a b : pyval) : bool :=
  let seq_eq := fix go (l m : list pyval) : bool :=
    match l, m with
    | [], [] => true
    | x :: l, y :: m => py_eq x y && go l m
    | _, _ => false
    end in
  match pyval_num a, pyval_num b with
  | Some x, Some y => num_eq x y
  | _, _ =>
      match a, b with
      | VNone, VNone | VEllipsis, VEllipsis => true
      | VStr s, VStr t | VBytes s, VBytes t => bool_decide (s = t)
      | VComplex x, VComplex y => num_eq (NFloat x) (NFloat y)
      | VComplex x, y | y, VComplex x =>
          match pyval_num y with Some n => num_is_zero (NFloat x) && num_is_zero n | None => false end
      | VList l, VList m | VTuple l, VTuple m => seq_eq l m
      | VDict d, VDict e =>
          (length d =? length e)%nat &&
          (fix go (d : list (string * pyval)) : bool :=
             match d with
             | [] => true
             | (k, x) :: d =>
                 match dict_get k e with Some y => py_eq x y | None => false end && go d
             end) d
      | _, _ => false
      end
  end.

Inductive ordering := LT | LE | GT | GE.

Definition ordering_holds (o : ordering) (c : comparison) : bool :=
  match o, c with
  | LT, Lt | LE, Lt | LE, Eq | GT, Gt | GE, Gt | GE, Eq => true
  | _, _ => false
  end.

(** [a < b] and the like; [None] is a [TypeError]. *)
Fixpoint py_order (o : ordering) (a b : pyval) : option bool :=
  let seq_order := fix go (l m : list pyval) : option bool :=
    match l, m with
    | x :: l, y :: m => if py_eq x y then go l m else py_order o x y
    | [], [] => Some (ordering_holds o Eq)
    | [], _ :: _ => Some (ordering_holds o Lt)
    | _ :: _, [] => Some (ordering_holds o Gt)
    end in
  match pyval_num a, pyval_num b with
  | Some x, Some y => Some (match num_compare x y with Some c => ordering_holds o c | None => false end)
  | _, _ =>
      match a, b with
      | VStr s, VStr t | VBytes s, VBytes t => Some (ordering_holds o (String.compare s t))
      | VList l, VList m | VTuple l, VTuple m => seq_order l m
      | _, _ => None
      end
  end.

Fixpoint hashable (v : pyval) : bool :=
  match v with
  | VList _ | VDict _ => false
  | VTuple l => forallb hashable l
  | _ => true
  end.

(** [left in right]; [None] is a [TypeError]. *)
Definition py_in (left right : pyval) : option bool :=
  match right with
  | VStr s =>
      match left with
      | VStr t => Some (match string_find t s 0 with Some _ => true | None => false end)
      | _ => None
      end
  | VList l | VTuple l => Some (existsb (fun x => py_eq x left) l)
  | VDict d =>
      if hashable left
      then Some (match left with VStr k => dict_mem k d | _ => false end)
      else None
  | _ => None
  end.

(** [len(v)]; [None] is a [TypeError]. *)
Definition py_len (v : pyval) : option Z :=
  match v with
  | VStr s | VBytes s => Some (Z.of_nat (String.length s))
  | VList l | VTuple l => Some (Z.of_nat (length l))
  | VDict d => Some (Z.of_nat (length d))
  | _ => None
  end.

(** ** The whitelist *)

Definition WHITELISTED_FUNCTIONS : list string := ["len"; "exists"].

Definition NAME_LITERALS : list (string * pyval) :=
  [("true", VBool true); ("false", VBool false); ("null", VNone);
   ("True", VBool true); ("False", VBool false); ("None", VNone)].

Definition is_reference_node (e : expr) : bool :=
  match e with EName _ | EAttribute _ _ | ESubscript _ _ => true | _ => false end.

Definition syntax_error {A} (expression detail : string) : res A :=
  raise (ExpressionSyntaxError expression) ("Invalid condition: " +:+ detail).

Definition allowed_cmpop (op : cmpop) : bool :=
  match op with OpIs | OpIsNot => false | _ => true end.

Definition cmpop_name (op : cmpop) : string :=
  match op with
  | OpEq => "Eq" | OpNotEq => "NotEq" | OpLt => "Lt" | OpLtE => "LtE" | OpGt => "Gt"
  | OpGtE => "GtE" | OpIs => "Is" | OpIsNot => "IsNot" | OpIn => "In" | OpNotIn => "NotIn"
  end.

Definition constant_type_name (c : constant) : string := pyval_type_name (constant_value c).

Definition allowed_constant (c : constant) : bool :=
  match c with CBytes _ | CComplex _ | CEllipsis => false | _ => true end.

Definition is_constant (e : expr) : bool := match e with EConstant _ => true | _ => false end.

(** A subscript literal [isinstance(value, (str, int))]. *)
Definition subscript_token (slice : expr) : option path_token :=
  match slice with
  | EConstant (CStr s) => Some (TKey s)
  | EConstant (CInt i) => Some (TIndex i)
  | EConstant (CBool b) => Some (TBool b)
  | _ => None
  end.

Fixpoint check_node (node : expr) (expression : string) : res unit :=
  match node with
  | EBoolOp _ values => _ ← traverse (fun v => check_node v expression) values; Ok tt
  | EUnaryOp op operand =>
      match op with
      | Not => check_node operand expression
      | _ => syntax_error expression "only 'not' is allowed as a unary operator"
      end
  | ECompare lhs comparisons =>
      _ ← traverse (fun c : cmpop * expr =>
            if allowed_cmpop c.1 then Ok tt
            else syntax_error expression
              ("comparison operator '" +:+ cmpop_name c.1 +:+ "' is not allowed")) comparisons;
      _ ← check_node lhs expression;
      _ ← traverse (fun c => check_node c.2 expression) comparisons;
      Ok tt
  | ECall func args keywords =>
      match func with
      | EName id =>
          if bool_decide (id ∈ WHITELISTED_FUNCTIONS) then
            match args, keywords with
            | [arg], O =>
                if bool_decide (id = "exists") && negb (is_reference_node arg)
                then syntax_error expression "exists() takes a reference, not a literal"
                else check_node arg expression
            | _, _ => syntax_error expression (id +:+ "() takes exactly one positional argument")
            end
          else syntax_error expression "only ('len', 'exists') functions are allowed"
      | _ => syntax_error expression "only ('len', 'exists') functions are allowed"
      end
  | EAttribute value _ =>
      if is_reference_node value then check_node value expression
      else syntax_error expression "attribute access is only valid on references"
  | ESubscript value slice =>
      if is_reference_node value then
        match subscript_token slice with
        | Some _ => check_node value expression
        | None => syntax_error expression "subscripts must be string or int constants"
        end
      else syntax_error expression "subscripts are only valid on references"
  | EName _ => Ok tt
  | EConstant c =>
      if allowed_constant c then Ok tt
      else syntax_error expression
        ("literal of type " +:+ constant_type_name c +:+ " is not allowed")
  | EList elts | ETuple elts =>
      if forallb is_constant elts then Ok tt
      else syntax_error expression "collections may only contain literals"
  | EOther n _ => syntax_error expression ("unsupported syntax: " +:+ n)
  end.

Section parse.
Context `{PyParser}.

Definition parse_condition (expression : string) : res expr :=
  match ast_parse expression with
  | Raise msg => syntax_error expression msg
  | Ok body => _ ← check_node body expression; Ok body
  end.
End parse.

(** The identifiers of every [ast.Name] in [ast.walk(tree)]. *)
Fixpoint expr_names (e : expr) : list string :=
  match e with
  | EBoolOp _ values => concat (map expr_names values)
  | EUnaryOp _ operand => expr_names operand
  | ECompare lhs comparisons => expr_names lhs ++ concat (map (fun c => expr_names c.2) comparisons)
  | ECall func args _ => expr_names func ++ concat (map expr_names args)
  | EAttribute value _ => expr_names value
  | ESubscript value slice => expr_names value ++ expr_names slice
  | EName id => [id]
  | EConstant _ => []
  | EList elts | ETuple elts => concat (map expr_names elts)
  | EOther _ children => concat (map expr_names children)
  end.

Definition is_reference_root (id : string) : bool :=
  negb (dict_mem id NAME_LITERALS) && negb (bool_decide (id ∈ WHITELISTED_FUNCTIONS)).

Definition expr_roots (e : expr) : list string := List.filter is_reference_root (expr_names e).

Section roots.
Context `{PyParser}.

Definition condition_reference_roots (expression : string) : res (list string) :=
  tree ← parse_condition expression; Ok (expr_roots tree).
End roots.

(** ** Evaluation *)

Record EvalContext := {
  cx_condition : string;
  cx_data : json;
  cx_step_outputs : list (string * json);
  cx_params : list (string * json);
}.

Definition condition_error {A} (condition detail : string) : res A :=
  raise (ConditionEvaluationError condition) ("Cannot evaluate condition: " +:+ detail).

Definition is_condition_error (e : exn) : bool :=
  match exn_cls e with ConditionEvaluationError _ => true | _ => false end.

(** [repr(sorted(d.keys()))] *)
Definition sorted_keys_repr (d : list (string * json)) : string :=
  "[" +:+ string_join ", " (map (fun kv => repr_string kv.1) (sort_keys d)) +:+ "]".

Definition resolve_root (name : string) (ctx : EvalContext) : res json :=
  if decide (name = "input") then Ok (cx_data ctx)
  else match dict_get name (cx_step_outputs ctx) with
       | Some v => Ok v
       | None =>
           match dict_get name (cx_params ctx) with
           | Some v => Ok v
           | None => condition_error (cx_condition ctx)
               ("'" +:+ name +:+ "' is not 'input', a step output, or a workflow param (steps: "
                +:+ sorted_keys_repr (cx_step_outputs ctx) +:+ ", params: "
                +:+ sorted_keys_repr (cx_params ctx) +:+ ")")
           end
       end.

Definition get_path_value (obj : pyval) (token : path_token) (ctx : EvalContext) : res pyval :=
  json_pyval <$> catch (resolve_json_path (pyval_raw obj) [token] "condition value") (fun e =>
    if is_data_error e
    then raise_from (ConditionEvaluationError (cx_condition ctx))
           ("Cannot evaluate condition: " +:+ exn_msg e) e
    else Raise e).

(** One comparison of a chain; the text of Python's own [TypeError] is left out of the
    message. *)
Definition compare_values (op : cmpop) (left right : pyval) (ctx : EvalContext) : res bool :=
  let type_error := condition_error (cx_condition ctx)
    ("cannot compare " +:+ pyval_type_name left +:+ " with " +:+ pyval_type_name right) in
  let order o := match py_order o left right with Some b => Ok b | None => type_error end in
  match op with
  | OpIn => match py_in left right with Some b => Ok b | None => type_error end
  | OpNotIn => match py_in left right with Some b => Ok (negb b) | None => type_error end
  | OpEq => Ok (py_eq left right)
  | OpNotEq => Ok (negb (py_eq left right))
  | OpLt => order LT
  | OpLtE => order LE
  | OpGt => order GT
  | OpGtE => order GE
  | OpIs | OpIsNot => raise KeyError (cmpop_name op)
  end.

(** [all(...)] and [any(...)] over the operands of [and] and [or]: evaluation stops at
    the first operand that decides. *)
Definition bool_loop (stop_at : bool) (eval : expr -> res pyval) : list expr -> res pyval :=
  fix go values :=
    match values with
    | [] => Ok (VBool (negb stop_at))
    | v :: values =>
        x ← eval v;
        if Bool.eqb (py_bool x) stop_at then Ok (VBool stop_at) else go values
    end.

(** The loop of [_evaluate_compare]. *)
Definition compare_loop (ctx : EvalContext) (eval : expr -> res pyval)
  : pyval -> list (cmpop * expr) -> res pyval :=
  fix go left comparisons {struct comparisons} :=
    match comparisons with
    | [] => Ok (VBool true)
    | (op, comparator) :: comparisons =>
        right ← eval comparator;
        ok ← compare_values op left right ctx;
        if (ok : bool) then go right comparisons else Ok (VBool false)
    end.

Fixpoint evaluate (node : expr) (ctx : EvalContext) : res pyval :=
  match node with
  | EBoolOp And values => bool_loop false (fun v => evaluate v ctx) values
  | EBoolOp Or values => bool_loop true (fun v => evaluate v ctx) values
  | EUnaryOp _ operand => v ← evaluate operand ctx; Ok (VBool (negb (py_bool v)))
  | ECompare lhs comparisons =>
      l ← evaluate lhs ctx; compare_loop ctx (fun e => evaluate e ctx) l comparisons
  | ECall (EName id) args _ =>
      match args with
      | [] => raise ValueError "list index out of range"
      | arg :: _ =>
          if decide (id = "exists") then
            catch (_ ← evaluate arg ctx; Ok (VBool true)) (fun e =>
              if is_condition_error e then Ok (VBool false) else Raise e)
          else
            value ← evaluate arg ctx;
            match py_len value with
            | Some n => Ok (VInt n)
            | None => condition_error (cx_condition ctx) ("len() of " +:+ pyval_type_name value)
            end
      end
  | ECall _ _ _ => condition_error (cx_condition ctx) "invalid function call"
  | EName id =>
      match dict_get id NAME_LITERALS with
      | Some v => Ok v
      | None => json_pyval <$> resolve_root id ctx
      end
  | EAttribute value attr => v ← evaluate value ctx; get_path_value v (TKey attr) ctx
  | ESubscript value slice =>
      match subscript_token slice with
      | Some index => v ← evaluate value ctx; get_path_value v index ctx
      | None => condition_error (cx_condition ctx) "invalid subscript"
      end
  | EConstant c => Ok (constant_value c)
  | EList elts => VList <$> traverse (fun e => evaluate e ctx) elts
  | ETuple elts => VTuple <$> traverse (fun e => evaluate e ctx) elts
  | EOther n _ => condition_error (cx_condition ctx) ("unsupported node " +:+ n)
  end.

Definition is_expression_syntax_error (e : exn) : bool :=
  match exn_cls e with ExpressionSyntaxError _ => true | _ => false end.

Definition is_normalization_error (e : exn) : bool :=
  match exn_cls e with DataNormalizationError _ => true | _ => false end.

(** [except E as exc: raise ConditionEvaluationError(condition, str(exc)) from exc] *)
Definition wrap_condition {A} (condition : string) (caught : exn -> bool) (m : res A) : res A :=
  catch m (fun e =>
    if caught e then raise_from (ConditionEvaluationError condition)
                       ("Cannot evaluate condition: " +:+ exn_msg e) e
    else Raise e).

Section condition.
Context `{PyParser}.

Definition evaluate_condition (condition : string) (data : json)
    (step_outputs params : list (string * json)) : res bool :=
  tree ← wrap_condition condition is_expression_syntax_error (parse_condition condition);
  ctx ← wrap_condition condition is_normalization_error (
    normalized_data ← normalize_value "input" DEFAULT_COLLECTION_ITEMS (json_raw data);
    normalized_outputs ← normalize_json_object "steps" DEFAULT_COLLECTION_ITEMS
                           (json_raw (JDict step_outputs));
    normalized_params ← normalize_json_object "params" DEFAULT_COLLECTION_ITEMS
                          (json_raw (JDict params));
    Ok {| cx_condition := condition; cx_data := normalized_data;
          cx_step_outputs := normalized_outputs; cx_params := normalized_params |});
  py_bool <$> evaluate tree ctx.
End condition.

(** ** What an expression means *)

(** The JSON value of a literal word. *)
Definition literal_json (id : string) : option json :=
  match dict_get id NAME_LITERALS with
  | Some (VBool b) => Some (JBool b)
  | Some VNone => Some JNull
  | _ => None
  end.

Definition lookup_root (name : string) (ctx : EvalContext) : option json :=
  match dict_get name (cx_step_outputs ctx) with
  | Some v => Some v
  | None => dict_get name (cx_params ctx)
  end.

(** A name resolves to a literal word, then to [input], a step output, a parameter. *)
Definition name_json (id : string) (ctx : EvalContext) : option json :=
  match literal_json id with
  | Some j => Some j
  | None => if decide (id = "input") then Some (cx_data ctx) else lookup_root id ctx
  end.

(** A dotted or subscripted reference as a root and a path. *)
Fixpoint reference_parts (e : expr) : option (string * list path_token) :=
  match e with
  | EName id => Some (id, [])
  | EAttribute value attr => (fun p => (p.1, p.2 ++ [TKey attr])) <$> reference_parts value
  | ESubscript value slice =>
      t ← subscript_token slice; (fun p => (p.1, p.2 ++ [t])) <$> reference_parts value
  | _ => None
  end.

Definition reference_json (p : string * list path_token) (ctx : EvalContext) : option json :=
  name_json p.1 ctx ≫= fun j => json_at j p.2.

(** A context as [evaluate_condition] builds it. *)
Definition ctx_normal (ctx : EvalContext) : Prop :=
  json_normal (cx_data ctx) /\
  (forall k v, dict_get k (cx_step_outputs ctx) = Some v -> json_normal v) /\
  (forall k v, dict_get k (cx_params ctx) = Some v -> json_normal v).

(** Same value, or both a [ConditionEvaluationError]. *)
Definition same_outcome {A} (r1 r2 : res A) : Prop :=
  match r1, r2 with
  | Ok a, Ok b => a = b
  | Raise e1, Raise e2 => is_condition_error e1 = true /\ is_condition_error e2 = true
  | _, _ => False
  end.

(** ** Lemmas *)

Section expr_induction.
Variable P : expr -> Prop.
Hypothesis Hbool : forall op l, Forall P l -> P (EBoolOp op l).
Hypothesis Hunary : forall op e, P e -> P (EUnaryOp op e).
Hypothesis Hcompare :
  forall e (l : list (cmpop * expr)), P e -> Forall (fun c => P c.2) l -> P (ECompare e l).
Hypothesis Hcall : forall f l k, P f -> Forall P l -> P (ECall f l k).
Hypothesis Hattribute : forall e a, P e -> P (EAttribute e a).
Hypothesis Hsubscript : forall e s, P e -> P s -> P (ESubscript e s).
Hypothesis Hname : forall n, P (EName n).
Hypothesis Hconstant : forall c, P (EConstant c).
Hypothesis Hlist : forall l, Forall P l -> P (EList l).
Hypothesis Htuple : forall l, Forall P l -> P (ETuple l).
Hypothesis Hother : forall n l, Forall P l -> P (EOther n l).

Fixpoint expr_ind' (e : expr) : P e :=
  let list_ind := fix go (l : list expr) : Forall P l :=
    match l with
    | [] => Forall_nil_2 P
    | x :: l => Forall_cons_2 P x l (expr_ind' x) (go l)
    end in
  match e with
  | EBoolOp op l => Hbool op l (list_ind l)
  | EUnaryOp op e => Hunary op e (expr_ind' e)
  | ECompare e l =>
      Hcompare e l (expr_ind' e)
        ((fix go (l : list (cmpop * expr)) : Forall (fun c => P c.2) l :=
          match l with
          | [] => Forall_nil_2 _
          | (o, x) :: l => Forall_cons_2 (fun c => P c.2) (o, x) l (expr_ind' x) (go l)
          end) l)
  | ECall f l k => Hcall f l k (expr_ind' f) (list_ind l)
  | EAttribute e a => Hattribute e a (expr_ind' e)
  | ESubscript e s => Hsubscript e s (expr_ind' e) (expr_ind' s)
  | EName n => Hname n
  | EConstant c => Hconstant c
  | EList l => Hlist l (list_ind l)
  | ETuple l => Htuple l (list_ind l)
  | EOther n l => Hother n l (list_ind l)
  end.
End expr_induction.

Lemma pyval_raw_json j : pyval_raw (json_pyval j) = json_raw j.
Proof.
  induction j as [| | | | |l IH|d IH] using json_ind'; cbn; try done.
  - rewrite map_map. f_equal. induction IH; cbn; congruence.
  - rewrite map_map. f_equal. induction IH as [|[k v] d Hv _ IH]; cbn in *; congruence.
Qed.

Lemma literal_json_pyval id v :
  dict_get id NAME_LITERALS = Some v -> exists j, literal_json id = Some j /\ v = json_pyval j.
Proof.
  unfold literal_json. intros H. rewrite H. apply dict_get_elem in H.
  unfold NAME_LITERALS in H. repeat (apply elem_of_cons in H as [[= _ ->]|H]; [eauto|]).
  by apply not_elem_of_nil in H.
Qed.

Lemma literal_json_None id : dict_get id NAME_LITERALS = None -> literal_json id = None.
Proof. unfold literal_json. by intros ->. Qed.

Lemma literal_json_normal id j : literal_json id = Some j -> json_normal j.
Proof.
  unfold literal_json. destruct (dict_get id NAME_LITERALS) as [[]|]; intros [= <-]; constructor.
Qed.

Lemma condition_error_is {A} c d e : condition_error (A := A) c d = Raise e -> is_condition_error e = true.
Proof. by intros [= <-]. Qed.

Section normal_context.
Variable ctx : EvalContext.
Hypothesis Hctx : ctx_normal ctx.

Lemma name_json_normal id j : name_json id ctx = Some j -> json_normal j.
Proof.
  destruct Hctx as (Hd & Ho & Hp). unfold name_json, lookup_root.
  destruct (literal_json id) eqn:Hl; [intros [= <-]; by eapply literal_json_normal|].
  case_decide; [by intros [= <-]|].
  destruct (dict_get id (cx_step_outputs ctx)) eqn:Hout; [intros [= <-]; eauto | eauto].
Qed.

Lemma evaluate_name id :
  match name_json id ctx with
  | Some j => evaluate (EName id) ctx = Ok (json_pyval j)
  | None => exists e, evaluate (EName id) ctx = Raise e /\ is_condition_error e = true
  end.
Proof.
  unfold name_json. cbn [evaluate]. destruct (dict_get id NAME_LITERALS) as [v|] eqn:Hl.
  - apply literal_json_pyval in Hl as (j & -> & ->). done.
  - rewrite literal_json_None by done. unfold resolve_root, lookup_root.
    case_decide; [done|]. destruct (dict_get id (cx_step_outputs ctx)); [done|].
    destruct (dict_get id (cx_params ctx)); [done|]. cbn. eauto.
Qed.

Lemma get_path_value_json j t :
  json_normal j ->
  match json_at j [t] with
  | Some v => get_path_value (json_pyval j) t ctx = Ok (json_pyval v)
  | None => exists e, get_path_value (json_pyval j) t ctx = Raise e /\ is_condition_error e = true
  end.
Proof.
  intros Hj. unfold get_path_value. rewrite pyval_raw_json, resolve_json_path_normal by (done || (vm_compute; lia)).
  destruct (json_at j [t]) as [v|] eqn:Hv.
  - apply (resolve_tokens_at _ _ "condition value") in Hv. by rewrite Hv.
  - destruct (resolve_tokens j [t] "condition value") as [v|e] eqn:Hr.
    + apply resolve_tokens_at in Hr. congruence.
    + destruct (resolve_tokens_error _ _ _ _ Hr) as (p & Hp). cbn.
      unfold is_data_error. rewrite Hp. cbn. eauto.
Qed.

Lemma reference_json_snoc root ts t :
  reference_json (root, ts ++ [t]) ctx = reference_json (root, ts) ctx ≫= fun j => json_at j [t].
Proof.
  unfold reference_json. cbn [fst snd]. destruct (name_json root ctx); cbn; [|done].
  apply json_at_app.
Qed.

Lemma reference_json_normal p j : reference_json p ctx = Some j -> json_normal j.
Proof.
  unfold reference_json. intros (r & Hr & Hj)%bind_Some.
  eapply json_bounded_at; [|exact Hj]. by eapply name_json_normal.
Qed.

Lemma evaluate_path value p t :
  match reference_json p ctx with
  | Some j => evaluate value ctx = Ok (json_pyval j)
  | None => exists e, evaluate value ctx = Raise e /\ is_condition_error e = true
  end ->
  match reference_json (p.1, p.2 ++ [t]) ctx with
  | Some j => (v ← evaluate value ctx; get_path_value v t ctx) = Ok (json_pyval j)
  | None => exists e, (v ← evaluate value ctx; get_path_value v t ctx) = Raise e /\
                      is_condition_error e = true
  end.
Proof.
  rewrite reference_json_snoc, <- surjective_pairing.
  destruct (reference_json p ctx) as [j|] eqn:Hp; cbn [mbind option_bind].
  - intros ->. apply get_path_value_json. by eapply reference_json_normal.
  - intros (e & -> & He). exists e. done.
Qed.

(** A reference evaluates to the value at its path. *)
Lemma evaluate_reference e p :
  reference_parts e = Some p ->
  match reference_json p ctx with
  | Some j => evaluate e ctx = Ok (json_pyval j)
  | None => exists ex, evaluate e ctx = Raise ex /\ is_condition_error ex = true
  end.
Proof.
  revert p; induction e as [| | | |value a IH|value s IH _|id| | | |] using expr_ind'; intros p;
    cbn [reference_parts]; try done.
  - destruct (reference_parts value) as [q|] eqn:Hq; [|done]. cbn. intros [= <-].
    by apply evaluate_path, IH.
  - destruct (subscript_token s) as [t|] eqn:Ht; [|done]. cbn.
    destruct (reference_parts value) as [q|] eqn:Hq; [|done]. cbn. intros [= <-].
    rewrite Ht. by apply evaluate_path, IH.
  - intros [= <-]. unfold reference_json. cbn [fst snd].
    pose proof (evaluate_name id) as H. destruct (name_json id ctx); cbn; done.
Qed.
End normal_context.

(** Whitelisted reference nodes are references. *)
Lemma check_reference_parts e c :
  is_reference_node e = true -> check_node e c = Ok tt -> is_Some (reference_parts e).
Proof.
  induction e as [| | | |value a IH|value s IH _|id| | | |] using expr_ind'; try done; intros _.
  - cbn. destruct (is_reference_node value) eqn:Hr; [|done]. intros H.
    destruct (IH eq_refl H) as [p ->]. eauto.
  - cbn. destruct (is_reference_node value) eqn:Hr; [|done].
    destruct (subscript_token s) as [t|]; [|done]. intros H.
    destruct (IH eq_refl H) as [p ->]. eauto.
Qed.

(** Computations that return or raise a [ConditionEvaluationError]. *)
Definition safe {A} (r : res A) : Prop :=
  match r with Ok _ => True | Raise e => is_condition_error e = true end.

Lemma safe_bind {A B} (m : res A) (f : A -> res B) :
  safe m -> (forall a, m = Ok a -> safe (f a)) -> safe (m ≫= f).
Proof. destruct m; cbn; auto. Qed.

Lemma safe_fmap {A B} (f : A -> B) (m : res A) : safe m -> safe (f <$> m).
Proof. by destruct m. Qed.

Lemma safe_traverse {A B} (f : A -> res B) l : Forall (fun x => safe (f x)) l -> safe (traverse f l).
Proof.
  induction 1 as [|x l Hx _ IH]; cbn; [done|]. apply safe_bind; [done|]. intros y _.
  by apply safe_bind.
Qed.

Lemma safe_compare_values op l r ctx : allowed_cmpop op = true -> safe (compare_values op l r ctx).
Proof. intros H. unfold compare_values. destruct op; try done; cbn; by repeat case_match. Qed.

Lemma safe_bool_loop b eval l : Forall (fun e => safe (eval e)) l -> safe (bool_loop b eval l).
Proof.
  induction 1 as [|e l He _ IH]; cbn; [done|]. apply safe_bind; [done|]. intros v _.
  by case_match.
Qed.

Lemma safe_compare_loop ctx eval l : forall v,
  Forall (fun c => safe (eval c.2) /\ allowed_cmpop c.1 = true) l -> safe (compare_loop ctx eval v l).
Proof.
  induction l as [|[op e] l IH]; intros v HF; cbn; [done|].
  apply list.Forall_cons in HF as [[He Hop] HF].
  apply safe_bind; [done|]. intros r _. apply safe_bind; [by apply safe_compare_values|].
  intros [] _; [by apply IH | done].
Qed.

Lemma check_all {A} (f : A -> res unit) l :
  is_ok (traverse f l) = true <-> Forall (fun x => f x = Ok tt) l.
Proof.
  induction l as [|x l IH]; cbn; [done|]. rewrite list.Forall_cons, <- IH.
  destruct (f x) as [[]|]; cbn; [|naive_solver]. destruct (traverse f l); cbn; naive_solver.
Qed.

Lemma check_traverse {A} (f : A -> res unit) (l : list A) {B} (k : res B) u :
  (_ ← traverse f l; k) = Ok u -> Forall (fun x => f x = Ok tt) l /\ k = Ok u.
Proof.
  destruct (traverse f l) eqn:H; [|done]. cbn. intros Hk. split; [|done].
  apply check_all. by rewrite H.
Qed.

Lemma evaluate_constants ctx elts :
  forallb is_constant elts = true ->
  exists vs, traverse (fun e => evaluate e ctx) elts = Ok vs.
Proof.
  induction elts as [|e elts IH]; cbn; [eauto|]. intros [He Hes]%andb_prop.
  destruct e; try done. destruct (IH Hes) as [vs ->]. cbn. eauto.
Qed.

Lemma evaluate_safe ctx c e : ctx_normal ctx -> check_node e c = Ok tt -> safe (evaluate e ctx).
Proof.
  intros Hctx. induction e as [op l IH|op e IH|e l IHe IHl|f l k _ IH|e a IH|e s IH _|n|k|l _|l _|n l _]
    using expr_ind'; intros Hc.
  - apply check_traverse in Hc as [HF _].
    destruct op; apply safe_bool_loop; rewrite Forall_forall in *; auto.
  - cbn in *. destruct op; try done. apply safe_bind; auto.
    intros; done.
  - cbn in *. apply check_traverse in Hc as [Hops Hc].
    apply bind_Ok in Hc as ([] & Hlhs & Hc).
    apply check_traverse in Hc as [HF _]. apply safe_bind; [auto|]. intros v _.
    apply safe_compare_loop. rewrite Forall_forall in *. intros x Hx. split; [auto|].
    specialize (Hops x Hx). cbn in Hops. by destruct (allowed_cmpop x.1).
  - cbn in *. destruct f; try done. destruct (bool_decide _); [|done].
    destruct l as [|arg [|]]; try done. destruct k; [|done].
    apply Forall_cons_1 in IH as [IH _]. destruct (_ && _); [done|]. specialize (IH Hc).
    case_decide.
    + destruct (evaluate arg ctx); cbn in *; [done|]. by rewrite IH.
    + apply safe_bind; [done|]. intros v _. by destruct (py_len v).
  - destruct (check_reference_parts (EAttribute e a) c eq_refl Hc) as [p Hp].
    pose proof (evaluate_reference ctx Hctx _ _ Hp) as H.
    destruct (reference_json p ctx); [by rewrite H|]. by destruct H as (ex & -> & ?).
  - destruct (check_reference_parts (ESubscript e s) c eq_refl Hc) as [p Hp].
    pose proof (evaluate_reference ctx Hctx _ _ Hp) as H.
    destruct (reference_json p ctx); [by rewrite H|]. by destruct H as (ex & -> & ?).
  - pose proof (evaluate_name ctx n) as H.
    destruct (name_json n ctx); [by rewrite H|]. by destruct H as (ex & -> & ?).
  - done.
  - cbn in *. destruct (forallb is_constant l) eqn:Hl; [|done].
    by destruct (evaluate_constants ctx l Hl) as [vs ->].
  - cbn in *. destruct (forallb is_constant l) eqn:Hl; [|done].
    by destruct (evaluate_constants ctx l Hl) as [vs ->].
  - done.
Qed.

(** Same value, or two errors of which both or none are condition errors. *)
Definition agree_res {A} (r1 r2 : res A) : Prop :=
  match r1, r2 with
  | Ok a, Ok b => a = b
  | Raise e1, Raise e2 => is_condition_error e1 = is_condition_error e2
  | _, _ => False
  end.

Lemma agree_res_refl {A} (r : res A) : agree_res r r.
Proof. by destruct r. Qed.

Lemma agree_bind {A B} (m1 m2 : res A) (f1 f2 : A -> res B) :
  agree_res m1 m2 -> (forall a, m1 = Ok a -> agree_res (f1 a) (f2 a)) ->
  agree_res (m1 ≫= f1) (m2 ≫= f2).
Proof. destruct m1, m2; cbn; try done. intros <- H. by apply H. Qed.

Lemma agree_fmap {A B} (f : A -> B) (m1 m2 : res A) :
  agree_res m1 m2 -> agree_res (f <$> m1) (f <$> m2).
Proof. destruct m1, m2; cbn; try done. by intros <-. Qed.

Lemma agree_traverse {A B} (f g : A -> res B) l :
  Forall (fun x => agree_res (f x) (g x)) l -> agree_res (traverse f l) (traverse g l).
Proof.
  induction 1 as [|x l Hx _ IH]; cbn; [done|]. apply agree_bind; [done|]. intros y _.
  by apply agree_bind.
Qed.

Lemma agree_same {A} (r1 r2 : res A) : agree_res r1 r2 -> safe r1 -> same_outcome r1 r2.
Proof. destruct r1, r2; cbn; try done. intros H1 H2. split; [done | by rewrite <- H1]. Qed.

Section agreement.
Variables ctx1 ctx2 : EvalContext.
Hypothesis Hdata : cx_data ctx1 = cx_data ctx2.

Definition agree_on (names : list string) : Prop :=
  forall n, n ∈ names -> dict_get n NAME_LITERALS = None ->
    lookup_root n ctx1 = lookup_root n ctx2.

Lemma agree_on_app l1 l2 : agree_on (l1 ++ l2) <-> agree_on l1 /\ agree_on l2.
Proof. unfold agree_on. setoid_rewrite elem_of_app. naive_solver. Qed.

Lemma agree_on_map {A} (f : A -> list string) (l : list A) (P : A -> Prop) :
  Forall (fun x => agree_on (f x) -> P x) l -> agree_on (concat (map f l)) -> Forall P l.
Proof.
  induction 1 as [|x l Hx _ IH]; cbn; [constructor|].
  intros [Hf Hl]%agree_on_app. constructor; auto.
Qed.

Lemma agree_compare_values op l r : agree_res (compare_values op l r ctx1) (compare_values op l r ctx2).
Proof. unfold compare_values. destruct op; cbn; try done; by repeat case_match. Qed.

Lemma agree_get_path_value v t : agree_res (get_path_value v t ctx1) (get_path_value v t ctx2).
Proof.
  unfold get_path_value. destruct (resolve_json_path _ _ _) as [j|e]; cbn; [done|].
  by destruct (is_data_error e).
Qed.

Lemma agree_bool_loop b f1 f2 l :
  Forall (fun e => agree_res (f1 e) (f2 e)) l -> agree_res (bool_loop b f1 l) (bool_loop b f2 l).
Proof.
  induction 1 as [|e l He _ IH]; cbn; [done|]. apply agree_bind; [done|]. intros v _.
  by case_match.
Qed.

Lemma agree_compare_loop f1 f2 l : forall v,
  Forall (fun c => agree_res (f1 c.2) (f2 c.2)) l ->
  agree_res (compare_loop ctx1 f1 v l) (compare_loop ctx2 f2 v l).
Proof.
  induction l as [|[op e] l IH]; intros v HF; cbn; [done|].
  apply list.Forall_cons in HF as [He HF]. apply agree_bind; [done|]. intros r _.
  apply agree_bind; [apply agree_compare_values|]. intros [] _; [by apply IH | done].
Qed.

Lemma evaluate_agree e : agree_on (expr_names e) -> agree_res (evaluate e ctx1) (evaluate e ctx2).
Proof.
  induction e as [op l IH|op e IH|e l IHe IHl|f l k _ IH|e a IH|e s IH _|n|k|l IH|l IH|n l _]
    using expr_ind'; cbn [expr_names]; intros Hn.
  - destruct op; apply agree_bool_loop; by eapply agree_on_map.
  - cbn. apply agree_bind; [auto | done].
  - apply agree_on_app in Hn as [Hn1 Hn2]. cbn. apply agree_bind; [auto|]. intros v _.
    apply agree_compare_loop. exact (agree_on_map (fun c => expr_names c.2) _ _ IHl Hn2).
  - apply agree_on_app in Hn as [_ Hn]. destruct f; cbn [evaluate]; try done.
    destruct l as [|arg l]; [done|]. apply Forall_cons_1 in IH as [IH _].
    cbn in Hn. apply agree_on_app in Hn as [Hn _]. specialize (IH Hn). case_decide.
    + destruct (evaluate arg ctx1), (evaluate arg ctx2); cbn in *; try done. rewrite IH.
      destruct (is_condition_error e0) eqn:?; cbn; [done | congruence].
    + apply agree_bind; [done|]. intros v _. by destruct (py_len v).
  - cbn [evaluate]. apply agree_bind; [auto|]. intros v _. apply agree_get_path_value.
  - apply agree_on_app in Hn as [Hn _]. cbn [evaluate]. destruct (subscript_token s); [|done].
    apply agree_bind; [auto|]. intros v _. apply agree_get_path_value.
  - cbn [evaluate]. destruct (dict_get n NAME_LITERALS) eqn:Hl; [done|]. apply agree_fmap.
    unfold resolve_root. case_decide; [by rewrite Hdata|].
    specialize (Hn n (list_elem_of_here _ _) Hl). unfold lookup_root in Hn.
    destruct (dict_get n (cx_step_outputs ctx1)), (dict_get n (cx_step_outputs ctx2));
      repeat case_match; simplify_eq; done.
  - done.
  - cbn [evaluate]. apply agree_fmap, agree_traverse. by eapply agree_on_map.
  - cbn [evaluate]. apply agree_fmap, agree_traverse. by eapply agree_on_map.
  - done.
Qed.
End agreement.

Lemma normal_object path d :
  json_normal (JDict d) -> normalize_json_object path DEFAULT_COLLECTION_ITEMS (json_raw (JDict d)) = Ok d.
Proof. intros H. unfold normalize_json_object. by rewrite normalize_value_normal. Qed.

Lemma evaluate_condition_normal `{PyParser} c data outs params :
  json_normal data -> json_normal (JDict outs) -> json_normal (JDict params) ->
  evaluate_condition c data outs params =
    (tree ← wrap_condition c is_expression_syntax_error (parse_condition c);
     py_bool <$> evaluate tree {| cx_condition := c; cx_data := data;
                                  cx_step_outputs := outs; cx_params := params |}).
Proof.
  intros Hd Ho Hp. unfold evaluate_condition. apply bind_ext. intros tree _.
  by rewrite normalize_value_normal, !normal_object by done.
Qed.

Lemma parse_condition_checked `{PyParser} c tree :
  parse_condition c = Ok tree -> check_node tree c = Ok tt.
Proof.
  unfold parse_condition. destruct (ast_parse c) as [body|]; [|done].
  destruct (check_node body c) as [[]|] eqn:Hc; [|done]. by intros [= <-].
Qed.

Lemma check_node_error e c ex :
  check_node e c = Raise ex -> is_expression_syntax_error ex = true.
Proof.
  assert (forall A (f : A -> res unit) l ex, traverse f l = Raise ex ->
    exists x, x ∈ l /\ f x = Raise ex) as Htr.
  { intros A f l. induction l as [|x l IH]; intros ex'; cbn; [done|].
    intros [H|(a & _ & [H|(a' & _ & [=])]%bind_Raise)]%bind_Raise; [set_solver|].
    destruct (IH _ H) as (y & ? & ?). set_solver. }
  revert ex; induction e as [op l IH|op e IH|e l IHe IHl|f l k _ IH|e a IH|e s IH _|n|k|l _|l _|n l _]
    using expr_ind'; intros ex; cbn [check_node].
  - intros [(x & Hx & H)%Htr|(a & _ & [=])]%bind_Raise. rewrite Forall_forall in IH. eauto.
  - destruct op; [auto|by intros [= <-]..].
  - intros [(x & Hx & H)%Htr|(a & _ & [H|(a' & _ & [(x & Hx & H)%Htr|(a'' & _ & [=])]%bind_Raise)]%bind_Raise)]%bind_Raise.
    + destruct (allowed_cmpop x.1); [done|]. by injection H as <-.
    + auto.
    + rewrite Forall_forall in IHl. eauto.
  - repeat case_match; subst; try (by intros [= <-]). apply Forall_cons_1 in IH as [IH _]. auto.
  - case_match; [auto | by intros [= <-]].
  - repeat case_match; [auto | by intros [= <-]..].
  - done.
  - case_match; [done | by intros [= <-]].
  - case_match; [done | by intros [= <-]].
  - case_match; [done | by intros [= <-]].
  - by intros [= <-].
Qed.

Lemma parse_condition_error `{PyParser} c ex :
  parse_condition c = Raise ex -> is_expression_syntax_error ex = true.
Proof.
  unfold parse_condition. destruct (ast_parse c) as [body|]; [|by intros [= <-]].
  intros [H'|(a & _ & [=])]%bind_Raise. by eapply check_node_error.
Qed.

Lemma wrap_parse_safe `{PyParser} c :
  safe (wrap_condition c is_expression_syntax_error (parse_condition c)).
Proof.
  unfold wrap_condition. destruct (parse_condition c) as [|ex] eqn:Hp; [done|]. cbn.
  by rewrite (parse_condition_error _ _ Hp).
Qed.

Lemma ctx_normal_build c data outs params :
  json_normal data -> json_normal (JDict outs) -> json_normal (JDict params) ->
  ctx_normal {| cx_condition := c; cx_data := data; cx_step_outputs := outs; cx_params := params |}.
Proof. intros Hd Ho Hp. repeat split; cbn; [done|..]; intros k v; by eapply json_bounded_get. Qed.

Lemma evaluate_condition_safe `{PyParser} c data outs params :
  json_normal data -> json_normal (JDict outs) -> json_normal (JDict params) ->
  safe (evaluate_condition c data outs params).
Proof.
  intros Hd Ho Hp. rewrite evaluate_condition_normal by done.
  apply safe_bind; [apply wrap_parse_safe|].
  intros tree Ht. apply safe_fmap. apply (evaluate_safe _ c); [by apply ctx_normal_build|].
  apply parse_condition_checked. unfold wrap_condition in Ht.
  destruct (parse_condition c) as [|ex] eqn:Hpc; cbn in Ht; [done|].
  by rewrite (parse_condition_error _ _ Hpc) in Ht.
Qed.

(** ** Properties *)


(** A parser that knows a few expressions. *)
Definition sample_parser : PyParser := {|
  ast_parse := fun s =>
    if decide (s = "input.n < 3") then
      Ok (ECompare (EAttribute (EName "input") "n") [(OpLt, EConstant (CInt 3))])
    else if decide (s = "len.ok") then Ok (EAttribute (EName "len") "ok")
    else Raise "invalid syntax"
|}.


(** C14: A dotted or subscripted reference denotes the value at its path below its
    root, where a root is a literal word, else the step input, else a step output,
    else a parameter.  Evaluation returns exactly that value or raises
    [ConditionEvaluationError] when it is absent, and [exists(reference)] never raises
    and tells which. *)
Theorem condition_reference_meaning (ctx : EvalContext) (e : expr) (p : string * list path_token)
    (Hctx : ctx_normal ctx) (Hparts : reference_parts e = Some p) :
  evaluate (ECall (EName "exists") [e] 0) ctx = Ok (VBool (bool_decide (is_Some (reference_json p ctx)))) /\
  match reference_json p ctx with
  | Some j => evaluate e ctx = Ok (json_pyval j)
  | None => exists ex, evaluate e ctx = Raise ex /\ is_condition_error ex = true
  end.
Proof.
  pose proof (evaluate_reference ctx Hctx e p Hparts) as H. split; [|exact H].
  cbn [evaluate]. rewrite decide_True by done.
  destruct (reference_json p ctx); [by rewrite H|].
  destruct H as (ex & -> & Hex). cbn. by rewrite Hex.
Qed.

Lemma condition_reference_meaning_witness :
  let ctx := {| cx_condition := ""; cx_data := JNull;
                cx_step_outputs := [("fetch", JDict [("n", JInt 4)])]; cx_params := [] |} in
  evaluate (ECall (EName "exists") [EAttribute (EName "fetch") "n"] 0) ctx = Ok (VBool true) /\
  evaluate (EAttribute (EName "fetch") "n") ctx = Ok (VInt 4).
Proof.
  intros ctx.
  pose proof (condition_reference_meaning ctx (EAttribute (EName "fetch") "n") ("fetch", [TKey "n"])) as H.
  apply H; [|reflexivity].
  apply ctx_normal_build; [constructor| |apply bounded_empty; vm_compute; discriminate].
  apply (normalize_value_bounded "$" _ (json_raw (JDict [("fetch", JDict [("n", JInt 4)])]))).
  vm_compute. reflexivity.
Defined.

(** The roots reported for validation are all that a condition reads.  If two
    states give the same input data and the same value to every root that
    [condition_reference_roots] reports (and to the two function names, which it
    leaves out), the condition has the same outcome in both. *)
Theorem condition_reads_only_roots `{PyParser} (condition : string) (roots : list string) (data : json)
    (outs1 outs2 params1 params2 : list (string * json))
    (Hroots : condition_reference_roots condition = Ok roots)
    (Hdata : json_normal data)
    (Houts1 : json_normal (JDict outs1)) (Houts2 : json_normal (JDict outs2))
    (Hparams1 : json_normal (JDict params1)) (Hparams2 : json_normal (JDict params2))
    (Hagree : forall n, n ∈ roots \/ n ∈ WHITELISTED_FUNCTIONS ->
      match dict_get n outs1 with Some v => Some v | None => dict_get n params1 end =
      match dict_get n outs2 with Some v => Some v | None => dict_get n params2 end) :
  same_outcome (evaluate_condition condition data outs1 params1)
               (evaluate_condition condition data outs2 params2).
Proof.
  apply agree_same; [|by apply evaluate_condition_safe].
  rewrite !evaluate_condition_normal by done.
  unfold condition_reference_roots in Hroots. inv_ok. unfold wrap_condition.
  rewrite Ha. cbn. apply agree_fmap, evaluate_agree; [done|].
  intros n Hn Hl. apply Hagree. destruct (decide (n ∈ WHITELISTED_FUNCTIONS)) as [|Hw]; [by right|].
  left. apply list_elem_of_In, List.filter_In. split; [by apply list_elem_of_In|].
  unfold is_reference_root. rewrite (proj2 (dict_mem_false _ _) Hl), bool_decide_eq_false_2; done.
Qed.

Lemma condition_reads_only_roots_witness :
  let parser := sample_parser in
  same_outcome
    (evaluate_condition "input.n < 3" (JDict [("n", JInt 2)]) [("unrelated", JNull)] [])
    (evaluate_condition "input.n < 3" (JDict [("n", JInt 2)]) [] [("other", JBool true)]).
Proof.
  intros parser.
  assert (forall d, normalize_value "$" DEFAULT_COLLECTION_ITEMS (json_raw (JDict d)) = Ok (JDict d) ->
    json_normal (JDict d)) as Hnorm by (intros d; apply normalize_value_bounded).
  apply (condition_reads_only_roots "input.n < 3" ["input"]);
    [vm_compute; reflexivity | eapply Hnorm; vm_compute; reflexivity .. |].
  intros n Hn. unfold WHITELISTED_FUNCTIONS in Hn.
  rewrite !elem_of_cons in Hn. destruct Hn as [[->|Hn]|[->|[->|Hn]]]; [done| |done|done|];
    by apply not_elem_of_nil in Hn.
Defined.

(** The roots leave out the two function names even where the text uses one of them
    as data: the condition below reads the step output [len], and reports no root. *)
Example function_name_root_dropped :
  let parser := sample_parser in
  condition_reference_roots "len.ok" = Ok [] /\
  evaluate_condition "len.ok" JNull [("len", JDict [("ok", JBool true)])] [] = Ok true /\
  match evaluate_condition "len.ok" JNull [] [] with Ok _ => False | Raise e => is_condition_error e = true end.
Proof. vm_compute. auto. Qed.
