(* ===== verification/Models.v ===== *)
(** Workflow declarations: the models of [config/models.py] with the validators that
    pydantic runs after the fields are parsed.  Parsing and the field constraints
    (lengths, ranges, patterns) are pydantic's; a field constraint that the code
    relies on is a boolean of its own ([FlowStep_fields]). *)

From S2P Require Export References.

Inductive IterationFailStrategy := STOP | SKIP | COLLECT.

#[export] Instance IterationFailStrategy_eq_dec : EqDecision IterationFailStrategy.
Proof. solve_decision. Defined.

Inductive branch_condition :=
| WhenExpression (condition : string)
| WhenEvaluator (evaluator : string) (resources : list string).

Record OnResultBranch := {
  br_when : option branch_condition;
  br_default : option string;
  br_then : option string;
}.

Record WaitForConfig := {
  wf_signal : string;
  wf_timeout_sec : option Z;
  wf_timeout_until : option ReferencePath;
  wf_on_timeout : option string;
}.

Record CacheConfig := {
  cc_resource : string;
  cc_key : string;
  cc_ttl_sec : option Z;
}.

Inductive StepTarget :=
| ServiceOperationTarget (service action : string)
| ChildWorkflowTarget (workflow : string).

(** [params] holds values of any type that the configuration loader produces. *)
Record StepDefinition := {
  sd_target : StepTarget;
  sd_params : list (string * raw);
  sd_required_resources : list string;
  sd_cache : option CacheConfig;
  sd_input_schema : option json;
  sd_output_schema : option json;
}.

Record FlowStep := {
  st_name : string;
  st_op : option string;
  st_input : input_spec;
  st_output : option string;
  st_params : list (string * raw);
  st_then : option string;
  st_on_result : option (list OnResultBranch);
  st_condition : option string;
  st_for_each : option ReferencePath;
  st_as_var : option string;
  st_parallel : bool;
  st_max_concurrency : option Z;
  st_on_iteration_fail : option IterationFailStrategy;
  st_wait_for : option WaitForConfig;
  st_sleep_sec : option Z;
  st_until : option string;
  st_max_iterations : option Z;
  st_interval_sec : option Z;
  st_on_exhausted : option string;
  st_on_failure : option string;
  st_terminal : bool;
  st_reason : option string;
}.

Inductive AuditCaptureConfig :=
| MetadataOnlyAuditCapture
| RedactedAuditCapture (paths : list string) (max_payload_bytes : Z)
| ApprovedFullAuditCapture (max_payload_bytes : Z).

(** [capture.mode] *)
Definition capture_mode (c : AuditCaptureConfig) : string :=
  match c with
  | MetadataOnlyAuditCapture => "metadata-only"
  | RedactedAuditCapture _ _ => "redacted"
  | ApprovedFullAuditCapture _ => "approved-full"
  end.

Record OnCompleteConfig := {
  oc_resource : string;
  oc_path : string;
  oc_retention_policy : string;
  oc_capture : AuditCaptureConfig;
}.

Record WorkflowConfig := {
  wc_workflow : string;
  wc_description : string;
  wc_on_complete : option OnCompleteConfig;
  wc_on_error : option string;
  wc_params : list (string * string);
  wc_input_schema : option json;
  wc_output_schema : option json;
  wc_result : option ReferencePath;
  wc_steps : list (string * StepDefinition);
  wc_flow : list FlowStep;
}.

(** ** Truth values of optional fields *)

Definition isSome {A} (o : option A) : bool := match o with Some _ => true | None => false end.

(** [bool(step.on_result)]: a missing and an empty list are both false. *)
Definition branches (step : FlowStep) : list OnResultBranch := default [] (st_on_result step).

Definition has_branches (step : FlowStep) : bool :=
  match branches step with [] => false | _ => true end.

Definition input_present (i : input_spec) : bool :=
  match i with InputNone => false | _ => true end.

(** ** Validators *)

Definition invalid {A} (msg : string) : res A := raise ValueError msg.

(** [if cond: raise ValueError(msg)] *)
Definition reject (cond : bool) (msg : string) : res unit := if cond then invalid msg else Ok tt.

Definition quoted (s : string) : string := "'" +:+ s +:+ "'".

Definition validate_branch (b : OnResultBranch) : res unit :=
  _ ← reject (negb (isSome (br_default b)) && negb (isSome (br_when b)))
        "on_result branch must have either 'when' or 'default'";
  _ ← reject (isSome (br_default b) && isSome (br_when b))
        "on_result branch cannot have both 'when' and 'default'";
  reject (isSome (br_when b) && negb (isSome (br_then b)))
        "on_result branch with 'when' must have 'then'".

Definition validate_bounded (w : WaitForConfig) : res unit :=
  reject (negb (isSome (wf_timeout_sec w)) && negb (isSome (wf_timeout_until w)))
    "wait_for must be bounded: set timeout_sec and/or timeout_until".

Definition validate_target_options (d : StepDefinition) : res unit :=
  match sd_target d with
  | ChildWorkflowTarget _ =>
      _ ← reject (isSome (sd_cache d))
            "cache is not valid on sub-workflow steps (cache inside the child)";
      reject (isSome (sd_input_schema d) || isSome (sd_output_schema d))
            "schemas are not valid on sub-workflow steps (children own their contracts)"
  | ServiceOperationTarget _ _ => Ok tt
  end.

(** [normalized.pop(key, None)], where a null value counts as absent. *)
Definition pop_value (key : string) (d : list (string * json)) : option json :=
  match dict_get key d with Some JNull | None => None | Some v => Some v end.

Definition normalize_legacy_target (value : list (string * json)) : res (list (string * json)) :=
  if dict_mem "target" value then
    if dict_mem "service" value || dict_mem "action" value || dict_mem "workflow" value
    then invalid "Step definition cannot mix target with legacy target fields"
    else Ok value
  else
    let normalized := dict_del "action" (dict_del "service" (dict_del "workflow" value)) in
    match pop_value "workflow" value, pop_value "service" value, pop_value "action" value with
    | Some w, None, None =>
        Ok (dict_set "target" (JDict [("kind", JStr "workflow"); ("workflow", w)]) normalized)
    | Some _, _, _ => invalid "Step definition must be either service+action or workflow, not both"
    | None, Some s, Some a =>
        Ok (dict_set "target" (JDict [("kind", JStr "service"); ("service", s); ("action", a)])
              normalized)
    | None, _, _ => invalid "Step definition requires service and action (or workflow)"
    end.

(** The fields a terminal step may not set, [terminal_conflicts] and [parallel]. *)
Definition terminal_conflicts (s : FlowStep) : bool :=
  isSome (st_op s) || input_present (st_input s) || isSome (st_output s)
  || negb (bool_decide (st_params s = [] :> list (string * raw)))
  || isSome (st_then s) || isSome (st_on_result s) || isSome (st_condition s)
  || isSome (st_for_each s) || isSome (st_as_var s) || isSome (st_max_concurrency s)
  || isSome (st_on_iteration_fail s) || isSome (st_wait_for s) || isSome (st_sleep_sec s)
  || isSome (st_until s) || isSome (st_max_iterations s) || isSome (st_interval_sec s)
  || isSome (st_on_exhausted s) || isSome (st_on_failure s).

Definition count_true (l : list bool) : nat := length (List.filter id l).

Definition validate_flow_step (s : FlowStep) : res unit :=
  let step_named msg := "Step " +:+ quoted (st_name s) +:+ msg in
  if st_terminal s then
    reject (terminal_conflicts s || st_parallel s)
      ("Terminal step " +:+ quoted (st_name s)
       +:+ " should not have execution or transition fields")
  else
  let waits := isSome (st_wait_for s) || isSome (st_sleep_sec s) in
  _ ← reject (negb (count_true [isSome (st_op s); isSome (st_wait_for s); isSome (st_sleep_sec s)]
                    =? 1)%nat)
        ("Flow step " +:+ quoted (st_name s)
         +:+ " must have exactly one of 'op', 'wait_for', or 'sleep_sec'");
  _ ← reject (waits && (isSome (st_for_each s) || isSome (st_condition s)))
        (step_named ": wait_for/sleep_sec cannot be combined with for_each or condition");
  _ ← reject (isSome (st_on_failure s) && waits)
        (step_named ": on_failure is only valid on op steps (waits have on_timeout)");
  _ ← reject (isSome (st_sleep_sec s) && (has_branches s || isSome (st_output s)))
        (step_named ": sleep steps produce no output and cannot branch");
  _ ← (if isSome (st_until s) then
         _ ← reject (negb (isSome (st_op s))) (step_named ": 'until' is only valid on op steps");
         _ ← reject (isSome (st_for_each s))
               (step_named ": 'until' cannot be combined with for_each");
         reject (negb (isSome (st_max_iterations s)))
               (step_named ": 'until' requires max_iterations")
       else
         reject (isSome (st_max_iterations s) || isSome (st_interval_sec s)
                 || isSome (st_on_exhausted s))
           (step_named ": max_iterations/interval_sec/on_exhausted are only valid with 'until'"));
  _ ← reject (isSome (st_then s) && has_branches s && negb (isSome (st_condition s)))
        (step_named " cannot have both 'then' and 'on_result'");
  _ ← reject (isSome (st_condition s) && negb (isSome (st_then s)))
        (step_named " with condition requires an explicit 'then' target for the false path");
  _ ← reject (st_parallel s && negb (isSome (st_for_each s)))
        (step_named " has parallel=true but no for_each");
  _ ← reject (st_parallel s && negb (isSome (st_max_concurrency s)))
        (step_named " with parallel=true requires max_concurrency");
  _ ← reject (isSome (st_max_concurrency s) && negb (st_parallel s))
        (step_named " has max_concurrency but parallel is not true");
  reject (negb (isSome (st_then s)) && negb (has_branches s))
        ("Non-terminal step " +:+ quoted (st_name s)
         +:+ " requires a success successor through 'then' or 'on_result'").

(** ** Redaction paths *)

Definition AUDIT_REDACTABLE_ROOTS : list string := ["params"; "steps"; "result"; "error"; "failures"].
Definition AUDIT_STEP_PAYLOAD_FIELDS : list string := ["globals"; "input"; "output"; "message"].

Definition tilde : Ascii.ascii := "~"%char.
Definition slash : Ascii.ascii := "/"%char.

(** Every tilde begins a JSON Pointer escape. *)
Fixpoint valid_escapes (s : string) : bool :=
  match s with
  | EmptyString => true
  | String c s' =>
      if decide (c = tilde) then
        match s' with
        | String d s'' =>
            if decide (d = "0"%char) then valid_escapes s''
            else if decide (d = "1"%char) then valid_escapes s'' else false
        | EmptyString => false
        end
      else valid_escapes s'
  end.

(** [s.replace("~" + d, c)] *)
Fixpoint replace_escape (d c : Ascii.ascii) (s : string) : string :=
  match s with
  | String x s' =>
      match s' with
      | String y s'' =>
          if decide (x = tilde /\ y = d) then String c (replace_escape d c s'')
          else String x (replace_escape d c s')
      | EmptyString => s
      end
  | EmptyString => EmptyString
  end.

(** [token.replace("~1", "/").replace("~0", "~")] *)
Definition unescape_token (token : string) : string :=
  replace_escape "0"%char tilde (replace_escape "1"%char slash token).

Definition pointer_tokens (path : string) : list string :=
  map unescape_token (string_split slash (string_drop 1 path)).

Definition validate_redaction_path (path : string) : res unit :=
  _ ← reject (negb (String.prefix "/" path))
        "Redaction paths must be JSON Pointers beginning with '/'";
  _ ← reject (negb (valid_escapes path))
        "Redaction paths contain an invalid JSON Pointer escape";
  let tokens := pointer_tokens path in
  let root := default EmptyString (tokens !! 0%nat) in
  _ ← reject (negb (bool_decide (root ∈ AUDIT_REDACTABLE_ROOTS)))
        "Redaction paths must target an audit payload field";
  _ ← reject (bool_decide (root = "steps")
              && negb (existsb (fun f => bool_decide (tokens !! 2%nat = Some f)) AUDIT_STEP_PAYLOAD_FIELDS))
        "Step redaction paths must target globals, input, output, or message";
  _ ← reject (bool_decide (root = "error") && negb (bool_decide (tokens !! 1%nat = Some "message")))
        "Error redaction paths must target message";
  reject (bool_decide (root = "failures") && negb (bool_decide (tokens !! 2%nat = Some "message")))
        "Failure-list redaction paths must target item messages".

Definition validate_redaction_paths (paths : list string) : res unit :=
  _ ← traverse validate_redaction_path paths;
  reject (negb (bool_decide (NoDup paths))) "Redaction paths must be unique".

(** ** The whole workflow *)

Definition opt_raw {A} (f : A -> raw) (o : option A) : raw :=
  match o with Some a => f a | None => RNone end.

Definition raw_fields (l : list (string * raw)) : raw := RDict (map (fun kv => (RStr kv.1, kv.2)) l).

Definition raw_strings (l : list string) : raw := RList (map RStr l).

Definition reference_raw (r : ReferencePath) : raw := RStr (rp_value r).

Definition input_raw (i : input_spec) : raw :=
  match i with
  | InputNone => RNone
  | InputRef r => reference_raw r
  | InputDict d => raw_fields (map (fun kv => (kv.1, reference_raw kv.2)) d)
  | InputList l => RList (map reference_raw l)
  end.

Definition branch_raw (b : OnResultBranch) : raw := raw_fields
  [("when", opt_raw (fun c => match c with
      | WhenExpression s => RStr s
      | WhenEvaluator e rs => raw_fields [("evaluator", RStr e); ("resources", raw_strings rs)]
      end) (br_when b));
   ("default", opt_raw RStr (br_default b)); ("then", opt_raw RStr (br_then b))].

Definition wait_raw (w : WaitForConfig) : raw := raw_fields
  [("signal", RStr (wf_signal w)); ("timeout_sec", opt_raw RInt (wf_timeout_sec w));
   ("timeout_until", opt_raw reference_raw (wf_timeout_until w));
   ("on_timeout", opt_raw RStr (wf_on_timeout w))].

Definition strategy_value (s : IterationFailStrategy) : string :=
  match s with STOP => "stop" | SKIP => "skip" | COLLECT => "collect" end.

Definition flow_step_raw (s : FlowStep) : raw := raw_fields
  [("name", RStr (st_name s)); ("op", opt_raw RStr (st_op s)); ("input", input_raw (st_input s));
   ("output", opt_raw RStr (st_output s)); ("params", raw_fields (st_params s));
   ("then", opt_raw RStr (st_then s));
   ("on_result", opt_raw (fun l => RList (map branch_raw l)) (st_on_result s));
   ("condition", opt_raw RStr (st_condition s));
   ("for_each", opt_raw reference_raw (st_for_each s)); ("as_var", opt_raw RStr (st_as_var s));
   ("parallel", RBool (st_parallel s)); ("max_concurrency", opt_raw RInt (st_max_concurrency s));
   ("on_iteration_fail", opt_raw (fun x => RStr (strategy_value x)) (st_on_iteration_fail s));
   ("wait_for", opt_raw wait_raw (st_wait_for s)); ("sleep_sec", opt_raw RInt (st_sleep_sec s));
   ("until", opt_raw RStr (st_until s)); ("max_iterations", opt_raw RInt (st_max_iterations s));
   ("interval_sec", opt_raw RInt (st_interval_sec s));
   ("on_exhausted", opt_raw RStr (st_on_exhausted s));
   ("on_failure", opt_raw RStr (st_on_failure s)); ("terminal", RBool (st_terminal s));
   ("reason", opt_raw RStr (st_reason s))].

Definition target_raw (t : StepTarget) : raw :=
  match t with
  | ServiceOperationTarget s a =>
      raw_fields [("kind", RStr "service"); ("service", RStr s); ("action", RStr a)]
  | ChildWorkflowTarget w => raw_fields [("kind", RStr "workflow"); ("workflow", RStr w)]
  end.

Definition step_definition_raw (d : StepDefinition) : raw := raw_fields
  [("target", target_raw (sd_target d)); ("params", raw_fields (sd_params d));
   ("required_resources", raw_strings (sd_required_resources d));
   ("cache", opt_raw (fun c => raw_fields
      [("resource", RStr (cc_resource c)); ("key", RStr (cc_key c));
       ("ttl_sec", opt_raw RInt (cc_ttl_sec c))]) (sd_cache d));
   ("input_schema", opt_raw json_raw (sd_input_schema d));
   ("output_schema", opt_raw json_raw (sd_output_schema d))].

Definition capture_raw (c : AuditCaptureConfig) : raw := raw_fields
  (("mode", RStr (capture_mode c)) ::
   match c with
   | MetadataOnlyAuditCapture => []
   | RedactedAuditCapture paths n => [("paths", raw_strings paths); ("max_payload_bytes", RInt n)]
   | ApprovedFullAuditCapture n => [("max_payload_bytes", RInt n)]
   end).

(** [self.model_dump(mode="python")] of a workflow. *)
Definition WorkflowConfig_dump (w : WorkflowConfig) : raw := raw_fields
  [("workflow", RStr (wc_workflow w)); ("description", RStr (wc_description w));
   ("on_complete", opt_raw (fun c => raw_fields
      [("resource", RStr (oc_resource c)); ("path", RStr (oc_path c));
       ("retention_policy", RStr (oc_retention_policy c)); ("capture", capture_raw (oc_capture c))])
      (wc_on_complete w));
   ("on_error", opt_raw (fun t => raw_fields [("then", RStr t)]) (wc_on_error w));
   ("params", raw_fields (map (fun kv => (kv.1, RStr kv.2)) (wc_params w)));
   ("input_schema", opt_raw json_raw (wc_input_schema w));
   ("output_schema", opt_raw json_raw (wc_output_schema w));
   ("result", opt_raw reference_raw (wc_result w));
   ("steps", raw_fields (map (fun kv => (kv.1, step_definition_raw kv.2)) (wc_steps w)));
   ("flow", RList (map flow_step_raw (wc_flow w)))].

(** [[i for i, b in enumerate(l) if b.default is not None]] *)
Fixpoint default_positions (i : nat) (l : list OnResultBranch) : list nat :=
  match l with
  | [] => []
  | b :: l => if isSome (br_default b) then i :: default_positions (S i) l
              else default_positions (S i) l
  end.

Definition validate_step_branches (s : FlowStep) : res unit :=
  if has_branches s then
    let positions := default_positions 0 (branches s) in
    _ ← reject (bool_decide (positions = []))
          ("Step " +:+ quoted (st_name s) +:+ " on_result must end with a 'default' branch");
    reject (negb (bool_decide (positions = [length (branches s) - 1]%nat)))
          ("Step " +:+ quoted (st_name s) +:+ " on_result must have exactly one 'default' branch "
           +:+ "and it must be last (branches after it would never run)")
  else Ok tt.

Definition validate_workflow (w : WorkflowConfig) : res unit :=
  _ ← validate_placeholders (WorkflowConfig_dump w) "workflow";
  _ ← reject (isSome (wc_output_schema w) && negb (isSome (wc_result w)))
        "Workflow output_schema requires a configured result";
  _ ← traverse validate_step_branches (wc_flow w);
  Ok tt.

(** Everything pydantic checks by validators when it builds a workflow, and the field
    constraints the engine relies on. *)
Definition positive (o : option Z) : bool :=
  match o with Some z => (1 <=? z)%Z | None => true end.

Definition FlowStep_fields (s : FlowStep) : bool :=
  positive (st_max_concurrency s) && positive (st_sleep_sec s) && positive (st_max_iterations s)
  && positive (st_interval_sec s).

Definition flow_step_valid (s : FlowStep) : bool :=
  FlowStep_fields s
  && is_ok (traverse validate_branch (branches s))
  && match st_wait_for s with Some w => is_ok (validate_bounded w) | None => true end
  && is_ok (validate_flow_step s).

Definition workflow_valid (w : WorkflowConfig) : bool :=
  negb (bool_decide (length (wc_flow w) = 0%nat))
  && forallb flow_step_valid (wc_flow w)
  && forallb (fun kv => is_ok (validate_target_options kv.2)) (wc_steps w)
  && is_ok (validate_workflow w).

(** ** Declarations with every optional field left out *)

Definition blank_step (name : string) : FlowStep := {|
  st_name := name; st_op := None; st_input := InputNone; st_output := None; st_params := [];
  st_then := None; st_on_result := None; st_condition := None; st_for_each := None;
  st_as_var := None; st_parallel := false; st_max_concurrency := None; st_on_iteration_fail := None;
  st_wait_for := None; st_sleep_sec := None; st_until := None; st_max_iterations := None;
  st_interval_sec := None; st_on_exhausted := None; st_on_failure := None; st_terminal := false;
  st_reason := None |}.

Definition terminal_step (name : string) (reason : option string) : FlowStep := {|
  st_name := name; st_op := None; st_input := InputNone; st_output := None; st_params := [];
  st_then := None; st_on_result := None; st_condition := None; st_for_each := None;
  st_as_var := None; st_parallel := false; st_max_concurrency := None; st_on_iteration_fail := None;
  st_wait_for := None; st_sleep_sec := None; st_until := None; st_max_iterations := None;
  st_interval_sec := None; st_on_exhausted := None; st_on_failure := None; st_terminal := true;
  st_reason := reason |}.

Definition op_step (name op : string) (input : input_spec) (then_ : string) (on_failure : option string)
  : FlowStep := {|
  st_name := name; st_op := Some op; st_input := input; st_output := None; st_params := [];
  st_then := Some then_; st_on_result := None; st_condition := None; st_for_each := None;
  st_as_var := None; st_parallel := false; st_max_concurrency := None; st_on_iteration_fail := None;
  st_wait_for := None; st_sleep_sec := None; st_until := None; st_max_iterations := None;
  st_interval_sec := None; st_on_exhausted := None; st_on_failure := on_failure; st_terminal := false;
  st_reason := None |}.

Definition plain_operation (service action : string) : StepDefinition := {|
  sd_target := ServiceOperationTarget service action; sd_params := []; sd_required_resources := [];
  sd_cache := None; sd_input_schema := None; sd_output_schema := None |}.

Definition plain_workflow (name : string) (steps : list (string * StepDefinition)) (flow : list FlowStep)
  : WorkflowConfig := {|
  wc_workflow := name; wc_description := ""; wc_on_complete := None; wc_on_error := None;
  wc_params := []; wc_input_schema := None; wc_output_schema := None; wc_result := None;
  wc_steps := steps; wc_flow := flow |}.

(** A reference of one component. *)
Definition root_reference (root : string) : ReferencePath :=
  {| rp_value := root; rp_components := [TKey root] |}.
