(* ===== verification/AuditCapture.v ===== *)
(** Audit capture: the metadata-only projection, JSON Pointer redaction and the payload
    bound of [engine/audit_capture.py]. *)

From S2P Require Export Models.

Definition REDACTED_VALUE : json := JStr "[REDACTED]".

Definition PAYLOAD_FIELDS : list string := ["params"; "globals"; "input"; "output"; "result"; "message"].

Definition STEP_METADATA_FIELDS : list string :=
  ["seq"; "status"; "started_at"; "duration_ms"; "condition"; "then"; "signal"; "sleep_sec";
   "attempts"; "cache"; "items_total"; "items_failed"; "code"].

Definition FAILURE_METADATA_FIELDS : list string := ["step"; "code"; "cause_code"].

Definition CLASSIFICATION_FIELDS : list string := ["category"; "phase"; "retryable"].

(** The keys that the metadata-only capture treats on their own. *)
Definition CAPTURED_APART : list string :=
  ["params"; "steps"; "error"; "failures"; "result"; "secondary"].

(** [{key: value for key, value in d.items() if key in fields}] *)
Definition keep_fields {A} (fields : list string) (d : list (string * A)) : list (string * A) :=
  List.filter (fun kv => bool_decide (kv.1 ∈ fields)) d.

Definition drop_fields {A} (fields : list string) (d : list (string * A)) : list (string * A) :=
  List.filter (fun kv => negb (bool_decide (kv.1 ∈ fields))) d.

Definition metadata_steps (steps : option json) : option json :=
  match steps with
  | Some (JDict entries) => Some (JDict (omap (fun kv =>
      match kv.2 with
      | JDict entry => Some (kv.1, JDict (keep_fields STEP_METADATA_FIELDS entry))
      | _ => None
      end) entries))
  | Some (JList l) => Some (JList l)
  | _ => None
  end.

Definition metadata_error (error : option json) : option json :=
  match error with
  | Some (JDict d) => Some (JDict (keep_fields (FAILURE_METADATA_FIELDS ++ CLASSIFICATION_FIELDS) d))
  | _ => None
  end.

Definition metadata_failures (fields : list string) (failures : option json) : option json :=
  match failures with
  | Some (JList l) => Some (JList (omap (fun j =>
      match j with JDict d => Some (JDict (keep_fields fields d)) | _ => None end) l))
  | _ => None
  end.

(** [captured[key] = value], when there is a value. *)
Definition set_some (key : string) (value : option json) (d : list (string * json))
  : list (string * json) :=
  match value with Some v => dict_set key v d | None => d end.

(** [_metadata_only]; [_copy_json] is the identity on values. *)
Definition metadata_only (record : list (string * json)) : list (string * json) :=
  set_some "secondary"
    (metadata_failures (FAILURE_METADATA_FIELDS ++ CLASSIFICATION_FIELDS) (dict_get "secondary" record))
  (set_some "failures" (metadata_failures FAILURE_METADATA_FIELDS (dict_get "failures" record))
  (set_some "error" (metadata_error (dict_get "error" record))
  (set_some "steps" (metadata_steps (dict_get "steps" record))
    (drop_fields CAPTURED_APART record)))).

(** ** Payload bound *)

Fixpoint collect_payloads (value : json) : list json :=
  match value with
  | JDict d => concat (map (fun kv =>
      if decide (kv.1 ∈ PAYLOAD_FIELDS) then [kv.2] else collect_payloads kv.2) d)
  | JList l => concat (map collect_payloads l)
  | _ => []
  end.

Section limit.
Context `{FloatRepr}.

Definition enforce_payload_limit (record : list (string * json)) (limit : Z) : res unit :=
  actual ← strict_json_bytes (JList (collect_payloads (JDict record)));
  if (limit <? actual)%Z
  then raise (AuditCaptureLimitError actual limit)
    ("Captured audit payload is " +:+ Z_to_string actual +:+ " bytes; configured maximum is "
     +:+ Z_to_string limit)
  else Ok tt.
End limit.

(** ** Redaction *)

(** The white space that [int(text)] ignores around a number. *)
Definition int_space (c : Ascii.ascii) : bool :=
  let n := Ascii.N_of_ascii c in
  ((9 <=? n) && (n <=? 13) || (28 <=? n) && (n <=? 32) || (n =? 160))%N.

Fixpoint strip_left (s : string) : string :=
  match s with
  | String c s' => if int_space c then strip_left s' else s
  | EmptyString => EmptyString
  end.

Fixpoint string_rev (s acc : string) : string :=
  match s with
  | String c s => string_rev s (String c acc)
  | EmptyString => acc
  end.

Definition strip (s : string) : string :=
  string_rev (strip_left (string_rev (strip_left s) EmptyString)) EmptyString.

(** Digits with single underscores between them; [after_digit] tells whether the
    previous character was a digit. *)
Fixpoint int_digits (after_digit : bool) (acc : Z) (s : string) : option Z :=
  match s with
  | EmptyString => if after_digit then Some acc else None
  | String c s =>
      if is_digit c then int_digits true (10 * acc + Z.of_N (Ascii.N_of_ascii c - 48)) s
      else if decide (c = "_"%char) then
        if after_digit then int_digits false acc s else None
      else None
  end%Z.

(** [int(token)], [None] for a [ValueError]. *)
Definition py_int (token : string) : option Z :=
  match strip token with
  | String c s =>
      if decide (c = "-"%char) then Z.opp <$> int_digits false 0 s
      else if decide (c = "+"%char) then int_digits false 0 s
      else int_digits false 0 (String c s)
  | EmptyString => None
  end.

Definition star : string := "*".

(** [[f(item) if i == index else item for i, item in enumerate(l)]] *)
Definition map_at {A} (f : A -> A) (index : nat) (l : list A) : list A := alter f index l.

Fixpoint redact_at (value : json) (tokens : list string) : json :=
  match tokens with
  | [] => REDACTED_VALUE
  | token :: remaining =>
      match value with
      | JDict d =>
          if decide (token = star) then JDict (map (fun kv => (kv.1, redact_at kv.2 remaining)) d)
          else if dict_mem token d then
            JDict (map (fun kv =>
              (kv.1, if decide (kv.1 = token) then redact_at kv.2 remaining else kv.2)) d)
          else value
      | JList l =>
          if decide (token = star) then JList (map (fun x => redact_at x remaining) l)
          else match py_int token with
               | Some index =>
                   if (index <? 0)%Z || (Z.of_nat (length l) <=? index)%Z then value
                   else JList (map_at (fun x => redact_at x remaining) (Z.to_nat index) l)
               | None => value
               end
      | _ => value
      end
  end.

Definition redact_pointer (document : json) (pointer : string) : res json :=
  if String.prefix "/" pointer then Ok (redact_at document (pointer_tokens pointer))
  else raise AuditCaptureError "Redaction paths must be JSON Pointers beginning with '/'".

Section capture.
Context `{FloatRepr}.

Fixpoint redact_pointers (document : json) (pointers : list string) : res json :=
  match pointers with
  | [] => Ok document
  | p :: pointers => document ← redact_pointer document p; redact_pointers document pointers
  end.

(** The last two assignments of [capture_audit_record]. *)
Definition seal_capture (capture : AuditCaptureConfig) (captured : list (string * json))
  : list (string * json) :=
  dict_set "serialization_version" (JInt STRICT_JSON_VERSION)
    (dict_set "capture_mode" (JStr (capture_mode capture)) captured).

Definition capture_audit_record (record : list (string * json)) (capture : AuditCaptureConfig)
  : res (list (string * json)) :=
  captured ← match capture with
    | MetadataOnlyAuditCapture => Ok (metadata_only record)
    | RedactedAuditCapture paths max_payload_bytes =>
        document ← redact_pointers (JDict record) paths;
        match document with
        | JDict captured => _ ← enforce_payload_limit captured max_payload_bytes; Ok captured
        | _ => raise TypeError "captured record is not an object"
        end
    | ApprovedFullAuditCapture max_payload_bytes =>
        _ ← enforce_payload_limit record max_payload_bytes; Ok record
    end;
  Ok (seal_capture capture captured).
End capture.

(** ** What redaction does to a document *)

(** One token of a pointer selects one step of a path. *)
Definition selects (token : string) (t : path_token) : bool :=
  bool_decide (token = star) ||
  match t with
  | TKey k => bool_decide (token = k)
  | TIndex i => bool_decide (py_int token = Some i)
  | TBool _ => false
  end.

(** Where a path lies relative to a pointer: on it with tokens left to follow (none
    left at a redacted place), below a redacted place, or off the pointer. *)
Inductive position :=
| OnPointer (rest : list string)
| BelowPointer
| OffPointer.

Fixpoint follow (tokens : list string) (path : list path_token) : position :=
  match path, tokens with
  | [], _ => OnPointer tokens
  | _ :: _, [] => BelowPointer
  | t :: path, token :: tokens => if selects token t then follow tokens path else OffPointer
  end.

Lemma redact_at_scalar v tokens t path :
  match v with JList _ | JDict _ => False | _ => True end -> json_at (redact_at v tokens) (t :: path) = None.
Proof. destruct tokens, v; cbn; try done; by destruct t. Qed.

Lemma json_at_redact_dict d token tokens k :
  dict_get k (match redact_at (JDict d) (token :: tokens) with JDict d' => d' | _ => [] end) =
    (fun v => if selects token (TKey k) then redact_at v tokens else v) <$> dict_get k d.
Proof.
  cbn [redact_at]. unfold selects. destruct (decide (token = star)) as [->|Hs].
  - rewrite (bool_decide_eq_true_2 (star = star)) by done. cbn.
    induction d as [|[k' v] d IH]; cbn; [done|]. by case_decide.
  - rewrite (bool_decide_eq_false_2 (token = star)) by done. cbn.
    destruct (dict_mem token d) eqn:Hm.
    + clear Hm. induction d as [|[k' v] d IH]; cbn; [done|].
      destruct (decide (k = k')) as [<-|Hk]; [|done]. cbn.
      destruct (decide (k = token)) as [->|Hne]; [by rewrite bool_decide_eq_true_2|].
      by rewrite bool_decide_eq_false_2.
    + apply dict_mem_false in Hm. destruct (decide (token = k)) as [->|Hne]; [by rewrite Hm|].
      rewrite bool_decide_eq_false_2 by done. by destruct (dict_get k d).
Qed.

Lemma redact_at_dict_shape d token tokens :
  exists d', redact_at (JDict d) (token :: tokens) = JDict d'.
Proof. cbn. repeat case_match; eauto. Qed.

Lemma redact_at_list_shape l token tokens :
  exists l', redact_at (JList l) (token :: tokens) = JList l' /\ forall i, (0 <= i)%Z ->
    l' !! Z.to_nat i =
      (fun v => if selects token (TIndex i) then redact_at v tokens else v) <$> l !! Z.to_nat i.
Proof.
  cbn [redact_at]. unfold selects. destruct (decide (token = star)) as [->|Hs].
  { eexists. split; [done|]. intros i _. rewrite (bool_decide_eq_true_2 (star = star)) by done.
    apply list_lookup_fmap. }
  rewrite (bool_decide_eq_false_2 (token = star)) by done. cbn [orb].
  assert (forall i, (fun v => if bool_decide (py_int token = Some i) then redact_at v tokens else v) <$>
    l !! Z.to_nat i = if bool_decide (py_int token = Some i)
                      then (fun v => redact_at v tokens) <$> l !! Z.to_nat i else l !! Z.to_nat i) as Hif.
  { intros i. case_bool_decide; destruct (l !! Z.to_nat i); done. }
  destruct (py_int token) as [index|] eqn:Hi.
  - destruct (Z.ltb_spec index 0) as [Hneg|Hneg]; cbn [orb].
    { exists l. split; [done|]. intros i Hpos. rewrite Hif, bool_decide_eq_false_2; [done|intros [= ->]; lia]. }
    destruct (Z.leb_spec (Z.of_nat (length l)) index) as [Hlen|Hlen].
    { exists l. split; [done|]. intros i Hpos. rewrite Hif. case_bool_decide as He; [|done].
      injection He as <-. by rewrite lookup_ge_None_2 by lia. }
    eexists. split; [done|]. intros i Hpos. rewrite Hif. unfold map_at.
    case_bool_decide as He; [injection He as <-; apply list_lookup_alter_eq|].
    apply list_lookup_alter_ne. intros H. apply He. f_equal. lia.
  - exists l. split; [done|]. intros i _. by rewrite Hif, bool_decide_eq_false_2.
Qed.

(** ** Properties *)

(** C17: Redaction is exact.  Along any path that leads to a value of the document, the
    redacted document holds the redaction marker where the pointer ends (a star
    selects every member), nothing below such a place, and the original value wherever
    the path leaves the pointer; on the way it holds the value with the rest of the
    pointer redacted. *)
Theorem redact_at_exact (value v : json) (tokens : list string) (path : list path_token)
    (Hat : json_at value path = Some v) :
  json_at (redact_at value tokens) path =
    match follow tokens path with
    | OnPointer rest => Some (redact_at v rest)
    | BelowPointer => None
    | OffPointer => Some v
    end.
Proof.
  revert value tokens Hat; induction path as [|t path IH]; intros value tokens Hat.
  - destruct tokens; cbn in *; congruence.
  - destruct tokens as [|token tokens]; [by destruct value, t|]. cbn [follow].
    destruct value as [| | | | |l|d]; try (by destruct t).
    + destruct (redact_at_list_shape l token tokens) as (l' & -> & Hl').
      destruct t as [k|i|b]; cbn [json_at] in *; try done. destruct (Z.leb_spec 0 i); [|done].
      rewrite Hl' by done. apply bind_Some in Hat as (x & Hx & Hat). rewrite Hx. cbn.
      destruct (selects token (TIndex i)); [by apply IH|done].
    + pose proof (json_at_redact_dict d token tokens) as Hd.
      destruct (redact_at_dict_shape d token tokens) as (d' & Heq). rewrite Heq in *.
      destruct t as [k|i|b]; cbn [json_at] in *; try done.
      rewrite Hd. apply bind_Some in Hat as (x & Hx & Hat). rewrite Hx. cbn -[selects].
      destruct (selects token (TKey k)); [by apply IH|done].
Qed.

Lemma redact_at_exact_witness :
  json_at (redact_at (JDict [("steps", JDict [("a", JDict [("input", JInt 1); ("seq", JInt 0)])])])
             (pointer_tokens "/steps/*/input")) [TKey "steps"; TKey "a"; TKey "input"] = Some REDACTED_VALUE.
Proof.
  rewrite (redact_at_exact _ (JInt 1)); [|vm_compute; reflexivity].
  vm_compute. reflexivity.
Defined.
