(* ===== verification/Analysis.v ===== *)
(** Control-flow and dataflow analysis of a workflow: [engine/analysis.py].  A set of
    Python is a [gset]; where the code iterates over a set, the order is that of
    [elements]. *)

From stdpp Require Export gmap.
From S2P Require Export Graphs Models Evaluator.

Abbreviation names := (gset string).

Definition INPUT_ROOT : string := "input".
Definition ERROR_ROOT : string := "error".
Definition REQUEST_ID_ROOT : string := "request_id".

Inductive EdgeKind :=
| SUCCESS | CONDITION_SKIP | RESULT_BRANCH | RESULT_DEFAULT | WAIT_TIMEOUT_EDGE
| LOOP_EXHAUSTION | FAILURE.

#[export] Instance EdgeKind_eq_dec : EqDecision EdgeKind.
Proof. solve_decision. Defined.

Record FlowEdge := {
  ed_source : string;
  ed_target : string;
  ed_kind : EdgeKind;
  ed_produced : names;
}.

Record AnalysisIssue := {
  is_location : string;
  is_message : string;
}.

(** [{step.name: step for step in workflow.flow}] *)
Definition steps_dict (w : WorkflowConfig) : list (string * FlowStep) :=
  dict_of_pairs (map (fun s => (st_name s, s)) (wc_flow w)).

(** ** Edges *)

Definition produced_symbols (s : FlowStep) : names :=
  if isSome (st_sleep_sec s) then ∅
  else {[ st_name s ]} ∪ match st_output s with Some o => {[ o ]} | None => ∅ end.

(** [branch.then or branch.default] *)
Definition branch_target (b : OnResultBranch) : option string :=
  match br_then b with Some t => Some t | None => br_default b end.

(** The edge to a target that is a step of the flow. *)
Definition edge_to (steps : list (string * FlowStep)) (source : string) (kind : EdgeKind)
    (produced : names) (target : option string) : list FlowEdge :=
  match target with
  | Some t =>
      if dict_mem t steps
      then [{| ed_source := source; ed_target := t; ed_kind := kind; ed_produced := produced |}]
      else []
  | None => []
  end.

(** [step.on_failure], else the workflow's [on_error]. *)
Definition failure_handler (w : WorkflowConfig) (s : FlowStep) : option string :=
  match st_on_failure s with Some h => Some h | None => wc_on_error w end.

Definition step_edges (w : WorkflowConfig) (steps : list (string * FlowStep)) (s : FlowStep)
  : list FlowEdge :=
  if st_terminal s then [] else
  let produced := produced_symbols s in
  let to := edge_to steps (st_name s) in
  (if isSome (st_condition s) then to CONDITION_SKIP ∅ (st_then s) else [])
  ++ (if has_branches s then
        concat (map (fun b =>
          to (if isSome (br_default b) then RESULT_DEFAULT else RESULT_BRANCH) produced
             (branch_target b)) (branches s))
      else to SUCCESS produced (st_then s))
  ++ (match st_wait_for s with
      | Some wait => to WAIT_TIMEOUT_EDGE ∅ (wf_on_timeout wait)
      | None => []
      end)
  ++ (if isSome (st_until s) then to LOOP_EXHAUSTION ∅ (st_on_exhausted s) else [])
  ++ (if isSome (st_op s) then to FAILURE {[ ERROR_ROOT ]} (failure_handler w s) else []).

Definition build_edges (w : WorkflowConfig) (steps : list (string * FlowStep)) : list FlowEdge :=
  concat (map (step_edges w steps) (wc_flow w)).

Definition is_failure_edge (e : FlowEdge) : bool := bool_decide (ed_kind e = FAILURE).

Definition execution_edges (edges : list FlowEdge) : list FlowEdge :=
  List.filter (fun e => negb (is_failure_edge e)) edges.

(** [_group_outgoing(edges).get(name, [])] *)
Definition outgoing (edges : list FlowEdge) (name : string) : list FlowEdge :=
  List.filter (fun e => bool_decide (ed_source e = name)) edges.

Definition incoming (edges : list FlowEdge) (name : string) : list FlowEdge :=
  List.filter (fun e => bool_decide (ed_target e = name)) edges.

(** ** Reachability *)

(** The worklist loop of [_reachable]; [pending] is a stack whose top is its head.
    Every turn either drops an entry of the stack or marks a new node, which pushes at
    most all the edges. *)
Fixpoint reachable_loop (fuel : nat) (edges : list FlowEdge) (pending : list string)
    (reachable : names) : names :=
  match fuel, pending with
  | S fuel, current :: pending =>
      if decide (current ∈ reachable) then reachable_loop fuel edges pending reachable
      else reachable_loop fuel edges
             (rev (map ed_target (outgoing edges current)) ++ pending)
             ({[ current ]} ∪ reachable)
  | _, _ => reachable
  end.

Definition reachable_fuel (edges : list FlowEdge) (pending : list string) : nat :=
  length pending + length edges.

(** [_reachable(edges=edges, entries=entries)] *)
Definition reachable (edges : list FlowEdge) (entries : list string) : names :=
  reachable_loop (reachable_fuel edges entries) edges (rev entries) ∅.

(** ** Cycles *)

(** The three variables that [visit] shares; the top of [stack] is its last entry. *)
Record dfs_state := {
  dfs_visiting : names;
  dfs_visited : names;
  dfs_stack : list string;
}.

(** [stack[stack.index(target):] + [target]] *)
Definition cycle_at (target : string) (st : dfs_state) : list string :=
  drop_until target (dfs_stack st) ++ [target].

Definition dfs_enter (name : string) (st : dfs_state) : dfs_state := {|
  dfs_visiting := {[ name ]} ∪ dfs_visiting st;
  dfs_visited := dfs_visited st;
  dfs_stack := dfs_stack st ++ [name];
|}.

Definition dfs_leave (name : string) (st : dfs_state) : dfs_state := {|
  dfs_visiting := dfs_visiting st ∖ {[ name ]};
  dfs_visited := {[ name ]} ∪ dfs_visited st;
  dfs_stack := removelast (dfs_stack st);
|}.

(** The loop over the edges of one node. *)
Definition visit_edges (visit : string -> dfs_state -> option (list string) * dfs_state)
  : list FlowEdge -> dfs_state -> option (list string) * dfs_state :=
  fix go es st :=
    match es with
    | [] => (None, st)
    | e :: es =>
        if decide (ed_target e ∈ dfs_visiting st) then (Some (cycle_at (ed_target e) st), st)
        else if decide (ed_target e ∈ dfs_visited st) then go es st
        else
          let '(cycle, st) := visit (ed_target e) st in
          match cycle with Some _ => (cycle, st) | None => go es st end
    end.

(** [visit(name)]; the fuel bounds the depth of the recursion. *)
Fixpoint visit (fuel : nat) (edges : list FlowEdge) (name : string) (st : dfs_state)
  : option (list string) * dfs_state :=
  match fuel with
  | O => (None, st)
  | S fuel =>
      let '(cycle, st) := visit_edges (visit fuel edges) (outgoing edges name) (dfs_enter name st) in
      match cycle with
      | Some _ => (cycle, st)
      | None => (None, dfs_leave name st)
      end
  end.

Fixpoint find_cycle_from (fuel : nat) (edges : list FlowEdge) (todo : list string) (st : dfs_state)
  : option (list string) :=
  match todo with
  | [] => None
  | name :: todo =>
      if decide (name ∈ dfs_visited st) then find_cycle_from fuel edges todo st
      else
        let '(cycle, st) := visit fuel edges name st in
        match cycle with
        | Some _ => cycle
        | None => find_cycle_from fuel edges todo st
        end
  end.

(** [_find_cycle(steps, edges)]: no more than all the steps are on the stack. *)
Definition find_cycle (steps : list (string * FlowStep)) (edges : list FlowEdge)
  : option (list string) :=
  find_cycle_from (S (length steps)) edges (dict_keys steps)
    {| dfs_visiting := ∅; dfs_visited := ∅; dfs_stack := [] |}.

(** ** Availability *)

Definition count_incoming (edges : list FlowEdge) (name : string) : Z :=
  Z.of_nat (length (incoming edges name)).

(** The loop over the edges of one node in the topological sort. *)
Fixpoint relax (es : list FlowEdge) (indegree : gmap string Z) (pending : list string)
  : gmap string Z * list string :=
  match es with
  | [] => (indegree, pending)
  | e :: es =>
      let n := (default 0 (indegree !! ed_target e) - 1)%Z in
      relax es (<[ed_target e := n]> indegree)
        (if (n =? 0)%Z then pending ++ [ed_target e] else pending)
  end.

(** The topological sort; every step enters [pending] at most once. *)
Fixpoint topological_order (fuel : nat) (edges : list FlowEdge) (indegree : gmap string Z)
    (pending order : list string) : list string :=
  match fuel, pending with
  | S fuel, current :: pending =>
      let '(indegree, pending) := relax (outgoing edges current) indegree pending in
      topological_order fuel edges indegree pending (order ++ [current])
  | _, _ => order
  end.

Definition initial_indegree (nodes : list string) (edges : list FlowEdge) : gmap string Z :=
  list_to_map (map (fun n => (n, count_incoming edges n)) nodes).

Definition sorted_steps (steps : list (string * FlowStep)) (edges : list FlowEdge) : list string :=
  let keys := dict_keys steps in
  topological_order (length keys) edges (initial_indegree keys edges)
    (List.filter (fun n => (count_incoming edges n =? 0)%Z) keys) [].

(** [frozenset.intersection], which needs one set at least. *)
Definition intersect_all (sets : list names) : option names :=
  match sets with
  | [] => None
  | s :: sets => Some (fold_left (∩) sets s)
  end.

Definition predecessor_sets (edges : list FlowEdge) (entry_available available : gmap string names)
    (name : string) : list names :=
  match entry_available !! name with Some s => [s] | None => [] end
  ++ omap (fun e => (fun s => s ∪ ed_produced e) <$> available !! ed_source e) (incoming edges name).

Definition available_step (edges : list FlowEdge) (reachable : names)
    (entry_available available : gmap string names) (name : string) : gmap string names :=
  if decide (name ∈ reachable) then
    match intersect_all (predecessor_sets edges entry_available available name) with
    | Some s => <[name := s]> available
    | None => available
    end
  else available.

Definition must_available (steps : list (string * FlowStep)) (edges : list FlowEdge)
    (reachable : names) (entry_available : gmap string names) : gmap string names :=
  fold_left (available_step edges reachable entry_available) (sorted_steps steps edges) ∅.

Definition workflow_roots (w : WorkflowConfig) : names :=
  list_to_set (dict_keys (wc_params w)) ∪ {[ REQUEST_ID_ROOT ]}.

(** The failure edges whose source runs in normal flow. *)
Definition handler_edges (edges : list FlowEdge) (normal_reachable : names) : list FlowEdge :=
  List.filter (fun e => is_failure_edge e && bool_decide (ed_source e ∈ normal_reachable)) edges.

(** [candidates[target]] *)
Definition handler_candidates (edges : list FlowEdge) (normal_reachable : names)
    (normal_available : gmap string names) (target : string) : list names :=
  omap (fun e => (fun s => s ∪ ed_produced e) <$> normal_available !! ed_source e)
    (incoming (handler_edges edges normal_reachable) target).

Definition handler_entry_available (edges : list FlowEdge) (normal_reachable : names)
    (normal_available : gmap string names) : gmap string names :=
  list_to_map (omap (fun t =>
    pair t <$> intersect_all (handler_candidates edges normal_reachable normal_available t))
    (map ed_target (handler_edges edges normal_reachable))).

(** ** Issues *)

(** [sorted(s)] *)
Definition sorted_names (s : names) : list string :=
  dict_keys (sort_keys (map (fun n => (n, tt)) (elements s))).

Section issues.
Context `{PyParser}.

(** The roots of one condition, without [input]; text that does not parse is left to
    another check. *)
Definition condition_roots (expression : string) : names :=
  match condition_reference_roots expression with
  | Ok roots => list_to_set (List.filter (fun r => negb (bool_decide (r = INPUT_ROOT))) roots)
  | Raise _ => ∅
  end.

Definition branch_expressions (s : FlowStep) : list string :=
  omap (fun b => match br_when b with Some (WhenExpression c) => Some c | _ => None end) (branches s).

Definition opt_list {A} (o : option A) : list A := match o with Some a => [a] | None => [] end.

Definition input_roots (i : input_spec) : list string :=
  match i with
  | InputNone => []
  | InputRef r => [rp_root r]
  | InputDict d => map (fun kv => rp_root kv.2) d
  | InputList l => map rp_root l
  end.

Definition step_reference_roots (s : FlowStep) : names :=
  list_to_set (input_roots (st_input s))
  ∪ match st_for_each s with
    | Some r => if decide (rp_root r = INPUT_ROOT) then ∅ else {[ rp_root r ]}
    | None => ∅
    end
  ∪ match st_wait_for s ≫= wf_timeout_until with
    | Some r => {[ rp_root r ]}
    | None => ∅
    end
  ∪ ⋃ map condition_roots (opt_list (st_condition s) ++ opt_list (st_until s) ++ branch_expressions s).

(** The intersection of what is available in normal flow and in a handler, where the
    step occurs in either. *)
Definition guaranteed (normal_available handler_available : gmap string names) (name : string)
  : option names :=
  intersect_all (opt_list (normal_available !! name) ++ opt_list (handler_available !! name)).

Definition reference_issues_at (normal_available handler_available : gmap string names) (s : FlowStep)
  : list AnalysisIssue :=
  if st_terminal s then [] else
  match guaranteed normal_available handler_available (st_name s) with
  | None => []
  | Some available =>
      map (fun root => {|
        is_location := "flow." +:+ st_name s;
        is_message := "Reference root " +:+ quoted root +:+ " is not available on every path to step "
                      +:+ quoted (st_name s) |}) (sorted_names (step_reference_roots s ∖ available))
  end.

Definition reference_issues (w : WorkflowConfig) (normal_available handler_available : gmap string names)
  : list AnalysisIssue :=
  concat (map (reference_issues_at normal_available handler_available) (wc_flow w)).

Definition result_issues_at (result : ReferencePath) (normal_available handler_available : gmap string names)
    (s : FlowStep) : list AnalysisIssue :=
  if negb (st_terminal s) || isSome (st_reason s) then [] else
  match guaranteed normal_available handler_available (st_name s) with
  | Some available =>
      if decide (rp_root result ∈ available) then []
      else [{| is_location := "flow." +:+ st_name s;
               is_message := "Workflow result " +:+ quoted (rp_value result)
                 +:+ " is not available at normal terminal " +:+ quoted (st_name s) |}]
  | None => []
  end.

Definition result_issues (w : WorkflowConfig) (normal_available handler_available : gmap string names)
  : list AnalysisIssue :=
  match wc_result w with
  | None => []
  | Some r => concat (map (result_issues_at r normal_available handler_available) (wc_flow w))
  end.

Definition reachability_issues (w : WorkflowConfig) (entry : string)
    (steps : list (string * FlowStep)) (reachable : names) : list AnalysisIssue :=
  map (fun name => {|
    is_location := "flow." +:+ name;
    is_message := "Flow step " +:+ quoted name +:+ " is unreachable from entry step "
                  +:+ quoted entry +:+ " and every failure handler" |})
    (List.filter (fun name => negb (bool_decide (name ∈ reachable))) (dict_keys steps)).

Definition sink_issues (w : WorkflowConfig) (reachable : names) (edges : list FlowEdge)
  : list AnalysisIssue :=
  map (fun s => {|
    is_location := "flow." +:+ st_name s;
    is_message := "Reachable path from step " +:+ quoted (st_name s)
                  +:+ " has no explicit terminal successor" |})
    (List.filter (fun s => bool_decide (st_name s ∈ reachable) && negb (st_terminal s)
       && bool_decide (outgoing edges (st_name s) = [])) (wc_flow w)).

(** The values [analyze_workflow] computes on its way. *)
Record analysis := {
  an_steps : list (string * FlowStep);
  an_edges : list FlowEdge;
  an_execution : list FlowEdge;
  an_normal_reachable : names;
  an_handler_reachable : names;
  an_normal_available : gmap string names;
  an_handler_available : gmap string names;
}.

Definition analysis_of (w : WorkflowConfig) (entry : string) : analysis :=
  let steps := steps_dict w in
  let edges := build_edges w steps in
  let execution := execution_edges edges in
  let normal_reachable := reachable execution [entry] in
  let handler_entries : names := list_to_set (map ed_target (handler_edges edges normal_reachable)) in
  let handler_reachable := reachable execution (elements handler_entries) in
  let normal_available :=
    must_available steps execution normal_reachable {[ entry := workflow_roots w ]} in
  {| an_steps := steps; an_edges := edges; an_execution := execution;
     an_normal_reachable := normal_reachable; an_handler_reachable := handler_reachable;
     an_normal_available := normal_available;
     an_handler_available := must_available steps execution handler_reachable
       (handler_entry_available edges normal_reachable normal_available) |}.

(** [analyze_workflow(workflow)]; a workflow has one flow step at least. *)
Definition analyze_workflow (w : WorkflowConfig) : list AnalysisIssue :=
  match wc_flow w with
  | [] => []
  | first :: _ =>
      let a := analysis_of w (st_name first) in
      match find_cycle (an_steps a) (an_execution a) with
      | Some cycle =>
          [{| is_location := "flow";
              is_message := "Circular control flow detected: " +:+ string_join " -> " cycle |}]
      | None =>
          let all_reachable := an_normal_reachable a ∪ an_handler_reachable a in
          reachability_issues w (st_name first) (an_steps a) all_reachable
          ++ sink_issues w all_reachable (an_execution a)
          ++ reference_issues w (an_normal_available a) (an_handler_available a)
          ++ result_issues w (an_normal_available a) (an_handler_available a)
      end
  end.
End issues.
