(* ===== verification/AnalysisFacts.v ===== *)
(** Correctness of the workflow analysis ([Analysis]): reachability, cycle detection,
    the topological sort and the availability of references, as facts about paths of
    the control-flow graph. *)

From Stdlib Require Import Wf_nat.
From stdpp Require Import sorting.
From S2P Require Export Analysis.

(** ** The graph *)

Section graph.
Variable edges : list FlowEdge.

(** One edge leads from [x] to [y]. *)
Definition edge_rel (x y : string) : Prop := exists e, e ∈ edges /\ ed_source e = x /\ ed_target e = y.

(** A path: its edges in order. *)
Inductive flow_path : string -> list FlowEdge -> string -> Prop :=
| path_nil x : flow_path x [] x
| path_cons x e p z : e ∈ edges -> ed_source e = x -> flow_path (ed_target e) p z ->
    flow_path x (e :: p) z.

Lemma elem_outgoing e x : e ∈ outgoing edges x <-> e ∈ edges /\ ed_source e = x.
Proof.
  unfold outgoing. rewrite !list_elem_of_In, filter_In, bool_decide_eq_true. done.
Qed.

Lemma elem_incoming e x : e ∈ incoming edges x <-> e ∈ edges /\ ed_target e = x.
Proof. unfold incoming. rewrite !list_elem_of_In, filter_In, bool_decide_eq_true. done. Qed.

Lemma edge_rel_outgoing x y : edge_rel x y <-> y ∈ map ed_target (outgoing edges x).
Proof.
  split.
  - intros (e & He & Hx & <-). apply list_elem_of_fmap_2, elem_outgoing. done.
  - intros (e & -> & He%elem_outgoing)%list_elem_of_fmap_1. exists e. naive_solver.
Qed.

Lemma flow_path_app x p y q z : flow_path x p y -> flow_path y q z -> flow_path x (p ++ q) z.
Proof. induction 1; [done|]. intros. cbn. constructor; auto. Qed.

Lemma flow_path_snoc x p y e : flow_path x p y -> e ∈ edges -> ed_source e = y ->
  flow_path x (p ++ [e]) (ed_target e).
Proof. intros Hp He <-. eapply flow_path_app; [done|]. repeat constructor. done. Qed.

Lemma flow_path_rtc x y : (exists p, flow_path x p y) <-> rtc edge_rel x y.
Proof.
  split.
  - intros [p Hp]. induction Hp as [|x e p z He Hx _ IH]; [done|].
    eapply rtc_l; [|exact IH]. by exists e.
  - induction 1 as [|x y z (e & He & <- & <-) _ [p IH]]; [exists []; constructor|].
    exists (e :: p). by constructor.
Qed.

(** *** Reachability *)

Definition reach_frontier (pending : list string) (reachable : names) : Prop :=
  forall x y, x ∈ reachable -> edge_rel x y -> y ∈ reachable \/ y ∈ pending.

(** The edges still to be pushed. *)
Definition unexplored (reachable : names) : nat :=
  length (List.filter (fun e => negb (bool_decide (ed_source e ∈ reachable))) edges).

Lemma unexplored_enter x (R : names) :
  x ∉ R -> (unexplored ({[ x ]} ∪ R) + length (outgoing edges x) = unexplored R)%nat.
Proof.
  intros Hx. unfold unexplored, outgoing. clear -Hx. induction edges as [|e l IH]; [done|]. cbn.
  destruct (decide (ed_source e = x)) as [He|He].
  - rewrite (bool_decide_eq_true_2 (ed_source e = x)) by done.
    rewrite (bool_decide_eq_true_2 (ed_source e ∈ _)) by set_solver.
    rewrite (bool_decide_eq_false_2 (ed_source e ∈ R)) by (by rewrite He). cbn. lia.
  - rewrite (bool_decide_eq_false_2 (ed_source e = x)) by done.
    rewrite (bool_decide_ext (ed_source e ∈ {[x]} ∪ R) (ed_source e ∈ R)) by set_solver.
    destruct (bool_decide (ed_source e ∈ R)); cbn; lia.
Qed.

Lemma reachable_loop_spec fuel pending R :
  reach_frontier pending R -> (length pending + unexplored R <= fuel)%nat ->
  forall y, y ∈ reachable_loop fuel edges pending R <->
            y ∈ R \/ exists x, x ∈ pending /\ rtc edge_rel x y.
Proof.
  revert pending R; induction fuel as [|fuel IH]; intros pending R Hfr Hfuel y.
  - destruct pending; cbn in *; [|lia]. set_solver.
  - destruct pending as [|x pending]; cbn [reachable_loop]; [set_solver|].
    destruct (decide (x ∈ R)) as [Hx|Hx].
    + rewrite IH; [|intros a b Ha Hab; destruct (Hfr a b Ha Hab); set_solver|cbn in *; lia].
      split; [set_solver|]. intros [?|(z & [->|Hz]%elem_of_cons & Hr)]; [by left| |by right; eauto].
      assert (forall b, rtc edge_rel x b -> b ∈ R \/ exists a, a ∈ pending /\ rtc edge_rel a b) as Hcl.
      { intros b Hb. clear Hr. pattern b. eapply rtc_ind_r; [by left| |exact Hb]. clear b Hb.
        intros b c _ Hbc [HR|(a & Ha & Hab)]; [|right; exists a; split; [done|by eapply rtc_r]].
        destruct (Hfr _ _ HR Hbc) as [?|[->|?]%elem_of_cons]; [by left|by left|].
        right. exists c. split; [done|]. apply rtc_refl. }
      by apply Hcl.
    + rewrite IH.
      * split.
        -- intros [[->%elem_of_singleton|?]%elem_of_union|(z & Hz & Hr)];
             [right; exists x; split; [left|done]|by left|].
           right. apply elem_of_app in Hz as [Hz|Hz]; [|exists z; split; [by right|done]].
           exists x. split; [left|]. eapply rtc_l; [|done].
           apply edge_rel_outgoing. by apply elem_rev.
        -- intros [?|(z & [->|Hz]%elem_of_cons & Hr)]; [left; set_solver| |right; exists z; set_solver].
           inversion Hr as [|? b ? Hb Hr']; subst; [left; set_solver|].
           right. exists b. split; [|done]. apply elem_of_app. left.
           by apply elem_rev, edge_rel_outgoing.
      * intros a b [->%elem_of_singleton|Ha]%elem_of_union Hab.
        -- right. apply elem_of_app. left.
           by apply elem_rev, edge_rel_outgoing.
        -- destruct (Hfr a b Ha Hab) as [?|[->|?]%elem_of_cons]; set_solver.
      * pose proof (unexplored_enter x R Hx). cbn in Hfuel.
        rewrite length_app, length_rev, length_map. lia.
Qed.

Lemma elem_reachable entries y :
  y ∈ reachable edges entries <-> exists x, x ∈ entries /\ rtc edge_rel x y.
Proof.
  unfold reachable. rewrite reachable_loop_spec.
  - split; [intros [?|(x & Hx & Hr)]; [set_solver|]|intros (x & Hx & Hr); right]; exists x;
      (split; [|done]); by apply elem_rev.
  - intros ? ? ?; set_solver.
  - unfold reachable_fuel. rewrite length_rev. unfold unexplored.
    apply Nat.add_le_mono_l, List.filter_length_le.
Qed.

(** *** Cycles *)

Abbreviation walk := (Graphs.walk edge_rel).
Abbreviation is_cycle := (Graphs.is_cycle edge_rel).
Abbreviation descending := (Graphs.descending edge_rel).

Lemma cycle_at_cycle st l name y :
  dfs_stack st = l ++ [name] -> walk (l ++ [name]) -> edge_rel name y -> y ∈ dfs_stack st ->
  is_cycle (cycle_at y st).
Proof. unfold cycle_at. intros -> Hw Hy Hin. by apply drop_until_cycle. Qed.

Section dfs.
Variable nodes : list string.
Hypothesis Hnodes : forall x y, edge_rel x y -> y ∈ nodes.

Record dfs_inv (st : dfs_state) : Prop := {
  inv_visiting : forall x, x ∈ dfs_visiting st <-> x ∈ dfs_stack st;
  inv_nodup : NoDup (dfs_stack st);
  inv_nodes : forall x, x ∈ dfs_stack st -> x ∈ nodes;
  inv_walk : walk (dfs_stack st);
  inv_visited : exists l, descending l /\ forall x, x ∈ dfs_visited st <-> x ∈ l;
  inv_disjoint : forall x, x ∈ dfs_visited st -> x ∉ dfs_stack st;
}.

(** What a call leaves when it finds no cycle. *)
Definition dfs_kept (st st' : dfs_state) : Prop :=
  dfs_inv st' /\ dfs_stack st' = dfs_stack st /\ dfs_visiting st' = dfs_visiting st /\
  dfs_visited st ⊆ dfs_visited st'.

Definition dfs_outcome (r : option (list string) * dfs_state) (st : dfs_state) (P : dfs_state -> Prop)
  : Prop :=
  match r with
  | (Some cycle, _) => is_cycle cycle
  | (None, st') => dfs_kept st st' /\ P st'
  end.

Lemma dfs_kept_refl st : dfs_inv st -> dfs_kept st st.
Proof. done. Qed.

Lemma dfs_kept_trans st1 st2 st3 : dfs_kept st1 st2 -> dfs_kept st2 st3 -> dfs_kept st1 st3.
Proof.
  intros (_ & Hs & Hv & Hd) (Hinv & Hs' & Hv' & Hd'). split; [done|].
  split; [congruence|]. split; [congruence|]. by etransitivity.
Qed.

(** What [visit] promises at a node whose predecessor is on top of the stack. *)
Definition visit_ok (f : string -> dfs_state -> option (list string) * dfs_state) (st : dfs_state)
    (y : string) : Prop :=
  y ∉ dfs_stack st -> y ∉ dfs_visited st ->
  dfs_outcome (f y st) st (fun st' => y ∈ dfs_visited st').

Lemma visit_edges_spec f name l es st :
  (forall st' y, dfs_inv st' -> dfs_stack st' = l ++ [name] -> edge_rel name y -> visit_ok f st' y) ->
  (forall e, e ∈ es -> edge_rel name (ed_target e)) ->
  dfs_inv st -> dfs_stack st = l ++ [name] ->
  dfs_outcome (visit_edges f es st) st (fun st' => forall e, e ∈ es -> ed_target e ∈ dfs_visited st').
Proof.
  intros Hf. revert st; induction es as [|e es IH]; intros st Hes Hinv Hst; cbn [visit_edges].
  - split; [by apply dfs_kept_refl|]. intros e ?%not_elem_of_nil. done.
  - pose proof (Hes e (list_elem_of_here _ _)) as He.
    assert (forall e, e ∈ es -> edge_rel name (ed_target e)) as Hes' by (intros; apply Hes; by right).
    destruct (decide (ed_target e ∈ dfs_visiting st)) as [Hv|Hv].
    + cbn. apply (inv_visiting _ Hinv) in Hv. eapply cycle_at_cycle; [done| |done|done].
      rewrite <- Hst. apply (inv_walk _ Hinv).
    + rewrite (inv_visiting _ Hinv) in Hv.
      destruct (decide (ed_target e ∈ dfs_visited st)) as [Hd|Hd].
      * specialize (IH st Hes' Hinv Hst). destruct (visit_edges f es st) as [[c|] st']; cbn in *; [done|].
        destruct IH as [Hk IH]. split; [done|]. destruct Hk as (_ & _ & _ & Hsub).
        intros e' [->|?]%elem_of_cons; [by apply Hsub | auto].
      * specialize (Hf st _ Hinv Hst He Hv Hd). destruct (f (ed_target e) st) as [[c|] st1]; cbn in *; [done|].
        destruct Hf as [Hk Hin]. pose proof Hk as (Hinv1 & Hst1 & _ & _).
        specialize (IH st1 Hes' Hinv1 (eq_trans Hst1 Hst)).
        destruct (visit_edges f es st1) as [[c|] st']; cbn in *; [done|].
        destruct IH as [Hk' IH]. split; [by eapply dfs_kept_trans|].
        destruct Hk' as (_ & _ & _ & Hsub). intros e' [->|?]%elem_of_cons; [by apply Hsub | auto].
Qed.

Lemma dfs_enter_inv st name :
  dfs_inv st -> name ∉ dfs_stack st -> name ∉ dfs_visited st -> name ∈ nodes ->
  walk (dfs_stack st ++ [name]) -> dfs_inv (dfs_enter name st).
Proof.
  intros [Hv Hnd Hn Hw Hd Hdis] Hs Hvis Hin Hwalk. constructor; cbn.
  - intros x. rewrite elem_of_union, elem_of_singleton, Hv, elem_of_app, list_elem_of_singleton. tauto.
  - apply NoDup_app. split; [done|]. split; [|apply NoDup_singleton].
    intros x Hx ->%list_elem_of_singleton. done.
  - intros x [?| ->%list_elem_of_singleton]%elem_of_app; auto.
  - done.
  - done.
  - intros x Hx [?| ->%list_elem_of_singleton]%elem_of_app; [by eapply Hdis|done].
Qed.

Lemma dfs_leave_kept st st' name :
  dfs_inv st -> name ∉ dfs_stack st -> name ∉ dfs_visited st ->
  dfs_kept (dfs_enter name st) st' -> (forall y, edge_rel name y -> y ∈ dfs_visited st') ->
  dfs_kept st (dfs_leave name st') /\ name ∈ dfs_visited (dfs_leave name st').
Proof.
  intros Hinv Hs Hvis ([Hv Hnd Hn Hw (l & Hl & Hd) Hdis] & Hst & Hvi & Hsub) Hsucc. cbn in *.
  assert (removelast (dfs_stack st') = dfs_stack st) as Hrl by (rewrite Hst; apply removelast_last).
  assert (dfs_visiting st' ∖ {[name]} = dfs_visiting st) as Hvs.
  { rewrite Hvi. apply set_eq. intros x. rewrite elem_of_difference, elem_of_union, elem_of_singleton.
    rewrite (inv_visiting _ Hinv). split; [tauto|]. intros Hx. split; [auto|]. by intros ->. }
  split; [|set_solver].
  split; [|split; [done|split; [done|set_solver]]].
  assert (name ∉ dfs_visited st') as Hnv.
  { intros H. apply (Hdis _ H). rewrite Hst. apply elem_of_app. right. by left. }
  constructor; cbn; rewrite ?Hrl, ?Hvs; try apply Hinv.
  - exists (name :: l). split; [|intros x; rewrite elem_of_union, elem_of_singleton, Hd, elem_of_cons; done].
    constructor; [by rewrite <- Hd| |done]. intros y Hy. by apply Hd, Hsucc.
  - intros x [->%elem_of_singleton|Hx]%elem_of_union; [done|].
    intros Hin. apply (Hdis _ Hx). rewrite Hst. apply elem_of_app. by left.
Qed.

Lemma visit_spec fuel name st :
  dfs_inv st -> name ∈ nodes -> walk (dfs_stack st ++ [name]) ->
  (length nodes < fuel + length (dfs_stack st))%nat -> visit_ok (visit fuel edges) st name.
Proof.
  revert name st. induction fuel as [|fuel IH]; intros name st Hinv Hin Hw Hfuel Hs Hd.
  - exfalso. assert (length (dfs_stack st) <= length nodes)%nat; [|cbn in *; lia].
    apply NoDup_incl_length; [apply NoDup_ListNoDup, Hinv|].
    intros x. rewrite <- !list_elem_of_In. apply (inv_nodes _ Hinv).
  - cbn [visit]. pose proof (dfs_enter_inv _ _ Hinv Hs Hd Hin Hw) as Hent.
    assert (dfs_outcome (visit_edges (visit fuel edges) (outgoing edges name) (dfs_enter name st))
      (dfs_enter name st) (fun st' => forall e, e ∈ outgoing edges name -> ed_target e ∈ dfs_visited st'))
      as Hout.
    { apply (visit_edges_spec _ name (dfs_stack st)); [| |done|done].
      - intros st' y Hinv' Hst' Hy. apply IH; [done|by eapply Hnodes| |].
        + rewrite Hst', <- app_assoc. cbn. apply walk_snoc; [|done]. done.
        + rewrite Hst', length_app. cbn. lia.
      - intros e [He <-]%elem_outgoing. by exists e. }
    destruct (visit_edges _ _ _) as [[c|] st']; cbn in *; [done|]. destruct Hout as [Hk Hsucc].
    apply dfs_leave_kept; [done..|].
    intros y (e & -> & He)%edge_rel_outgoing%list_elem_of_fmap_1. auto.
Qed.

Lemma find_cycle_from_spec fuel todo st :
  dfs_inv st -> dfs_stack st = [] -> (forall x, x ∈ todo -> x ∈ nodes) -> (length nodes < fuel)%nat ->
  match find_cycle_from fuel edges todo st with
  | Some cycle => is_cycle cycle
  | None => exists l, descending l /\ forall x, x ∈ dfs_visited st \/ x ∈ todo -> x ∈ l
  end.
Proof.
  revert st; induction todo as [|x todo IH]; intros st Hinv Hst Htodo Hfuel; cbn [find_cycle_from].
  - destruct (inv_visited _ Hinv) as (l & Hl & Hd). exists l. split; [done|].
    intros x [?%Hd|?%not_elem_of_nil]; done.
  - assert (forall y, y ∈ todo -> y ∈ nodes) as Htodo' by (intros; apply Htodo; by right).
    destruct (decide (x ∈ dfs_visited st)) as [Hx|Hx].
    + specialize (IH st Hinv Hst Htodo' Hfuel). destruct (find_cycle_from fuel edges todo st); [done|].
      destruct IH as (l & Hl & IH). exists l. split; [done|].
      intros y [?|[->|?]%elem_of_cons]; auto.
    + pose proof (visit_spec fuel x st Hinv (Htodo x (list_elem_of_here _ _))) as Hv.
      rewrite Hst in Hv. specialize (Hv ltac:(intros [|i] a b; by cbn) ltac:(cbn; lia)).
      specialize (Hv ltac:(rewrite Hst; by intros ?%not_elem_of_nil) Hx).
      destruct (visit fuel edges x st) as [[c|] st']; cbn in *; [done|].
      destruct Hv as [(Hinv' & Hst' & _ & Hsub) Hin].
      specialize (IH st' Hinv' (eq_trans Hst' Hst) Htodo' Hfuel).
      destruct (find_cycle_from fuel edges todo st'); [done|].
      destruct IH as (l & Hl & IH). exists l. split; [done|].
      intros y [?|[->|?]%elem_of_cons]; auto.
Qed.
End dfs.

(** *** The topological sort *)

Definition into (n : string) (es : list FlowEdge) : nat :=
  length (List.filter (fun e => bool_decide (ed_target e = n)) es).

(** The edges into [n] whose source is not sorted yet. *)
Definition waiting (order : list string) (n : string) : nat :=
  length (List.filter (fun e => negb (bool_decide (ed_source e ∈ order))) (incoming edges n)).

Definition degree (indegree : gmap string Z) (n : string) : Z := default 0%Z (indegree !! n).

Lemma into_cons n e es : into n (e :: es) = ((if decide (ed_target e = n) then 1 else 0) + into n es)%nat.
Proof. unfold into. cbn. case_decide; [rewrite bool_decide_eq_true_2 | rewrite bool_decide_eq_false_2]; done. Qed.

Lemma into_pos n es : (0 < into n es)%nat <-> n ∈ map ed_target es.
Proof.
  induction es as [|e es IH]; [cbn; split; [lia|by intros ?%not_elem_of_nil]|].
  rewrite into_cons, map_cons, elem_of_cons, <- IH. case_decide; split; intros; subst; try lia; [by left|].
  destruct H0; [congruence|lia].
Qed.

Lemma relax_spec es indegree pending :
  (forall n, (Z.of_nat (into n es) <= degree indegree n)%Z) ->
  exists indegree' new, relax es indegree pending = (indegree', pending ++ new) /\
    (forall n, degree indegree' n = (degree indegree n - Z.of_nat (into n es))%Z) /\
    NoDup new /\ forall n, n ∈ new <-> n ∈ map ed_target es /\ degree indegree n = Z.of_nat (into n es).
Proof.
  revert indegree pending; induction es as [|e es IH]; intros indegree pending Hle; cbn [relax].
  - exists indegree, []. rewrite app_nil_r. split; [done|]. split; [cbn; intros; lia|].
    split; [apply NoDup_nil_2|]. intros n. cbn. split; [by intros ?%not_elem_of_nil|].
    by intros [?%not_elem_of_nil _].
  - fold (degree indegree (ed_target e)). set (t := ed_target e) in *.
    set (k := (degree indegree t - 1)%Z).
    assert (forall n, degree (<[t := k]> indegree) n = (degree indegree n - if decide (t = n) then 1 else 0)%Z)
      as Hdeg.
    { intros n. unfold degree at 1. case_decide; [subst n; by rewrite lookup_insert_eq|].
      rewrite lookup_insert_ne by done. unfold degree. lia. }
    assert (forall n, into n (e :: es) = ((if decide (t = n) then 1 else 0) + into n es)%nat) as Hinto
      by (intros; apply into_cons).
    destruct (IH (<[t := k]> indegree) (if (k =? 0)%Z then pending ++ [t] else pending))
      as (indegree' & new & -> & Hdeg' & Hnd & Hnew).
    { intros n. specialize (Hle n). rewrite Hinto in Hle. rewrite Hdeg. case_decide; lia. }
    assert (forall n, degree indegree' n = (degree indegree n - Z.of_nat (into n (e :: es)))%Z) as Hfin.
    { intros n. rewrite Hdeg', Hdeg, Hinto. case_decide; lia. }
    destruct (Z.eqb_spec k 0) as [Hk|Hk].
    + exists indegree', (t :: new). rewrite <- app_assoc. split; [done|]. split; [done|].
      assert (into t es = 0)%nat as Ht0.
      { specialize (Hle t). rewrite Hinto, decide_True in Hle by done. lia. }
      split.
      * apply NoDup_cons. split; [|done]. intros [Hin _]%Hnew. apply into_pos in Hin. lia.
      * intros n. rewrite map_cons, !elem_of_cons, Hnew, Hinto, Hdeg. fold t. split.
        -- intros [->|[Hin Heq]]; [rewrite decide_True, Ht0 by done; split; [by left|lia]|].
           split; [by right|]. case_decide; [|lia]. subst n. apply into_pos in Hin. lia.
        -- destruct (decide (t = n)) as [<-|Hne]; [by left|]. intros [[?|?] ?]; [done|]. right.
           split; [done|lia].
    + exists indegree', new. split; [done|]. split; [done|]. split; [done|].
      intros n. rewrite map_cons, elem_of_cons, Hnew, Hinto, Hdeg. fold t. split.
      * intros [Hin Heq]. split; [by right|]. case_decide; lia.
      * destruct (decide (t = n)) as [<-|Hne].
        -- intros [_ Heq]. rewrite <- into_pos. lia.
        -- intros [[?|?] ?]; [done|]. split; [done|lia].
Qed.

Lemma waiting_snoc order n x :
  x ∉ order -> (waiting (order ++ [x]) n + into n (outgoing edges x) = waiting order n)%nat.
Proof.
  intros Hx. unfold waiting, into, incoming, outgoing. clear -Hx. induction edges as [|e l IH]; [done|]. cbn.
  destruct (decide (ed_target e = n)) as [Ht|Ht].
  - rewrite (bool_decide_eq_true_2 (ed_target e = n)) by done. cbn.
    destruct (decide (ed_source e = x)) as [Hs|Hs].
    + rewrite (bool_decide_eq_true_2 (ed_source e = x)) by done. cbn.
      rewrite (bool_decide_eq_true_2 (ed_target e = n)) by done.
      rewrite (bool_decide_eq_true_2 (ed_source e ∈ order ++ [x])) by set_solver.
      rewrite (bool_decide_eq_false_2 (ed_source e ∈ order)) by (by rewrite Hs). cbn. lia.
    + rewrite (bool_decide_eq_false_2 (ed_source e = x)) by done.
      rewrite (bool_decide_ext (ed_source e ∈ order ++ [x]) (ed_source e ∈ order)) by set_solver.
      destruct (bool_decide (ed_source e ∈ order)); cbn; lia.
  - rewrite (bool_decide_eq_false_2 (ed_target e = n)) by done.
    destruct (decide (ed_source e = x)) as [Hs|Hs].
    + rewrite (bool_decide_eq_true_2 (ed_source e = x)) by done. cbn.
      rewrite (bool_decide_eq_false_2 (ed_target e = n)) by done. lia.
    + by rewrite (bool_decide_eq_false_2 (ed_source e = x)).
Qed.

Lemma waiting_zero order n : waiting order n = 0%nat <-> forall e, e ∈ incoming edges n -> ed_source e ∈ order.
Proof.
  unfold waiting. split.
  - intros H e He. apply dec_stable. intros Hn.
    assert (e ∈ List.filter (fun e => negb (bool_decide (ed_source e ∈ order))) (incoming edges n)) as Hin
      by (rewrite list_elem_of_In, filter_In, <- list_elem_of_In, bool_decide_eq_false_2; done).
    destruct (List.filter _ _); [by apply not_elem_of_nil in Hin | done].
  - intros H. destruct (List.filter _ _) as [|e l] eqn:Hf; [done|]. exfalso.
    assert (In e (e :: l)) as Hin by by left. rewrite <- Hf in Hin. apply filter_In in Hin as [Hin Hb].
    apply list_elem_of_In, H in Hin. rewrite bool_decide_eq_true_2 in Hb by done. done.
Qed.

(** Every node comes after the sources of its incoming edges. *)
Definition sorted_order (order : list string) : Prop :=
  forall l1 n l2, order = l1 ++ n :: l2 -> forall e, e ∈ incoming edges n -> ed_source e ∈ l1.

Lemma sorted_order_snoc order n :
  sorted_order order -> (forall e, e ∈ incoming edges n -> ed_source e ∈ order) -> sorted_order (order ++ [n]).
Proof.
  intros Ho Hn l1 m l2 Heq. destruct l2 as [|x l2 _] using rev_ind.
  - apply app_inj_tail in Heq as [-> <-]. done.
  - rewrite app_comm_cons, app_assoc in Heq. apply app_inj_tail in Heq as [Heq _]. by eapply Ho.
Qed.

Section kahn.
Variable nodes : list string.
Hypothesis Hnodup : NoDup nodes.
Hypothesis Htargets : forall e, e ∈ edges -> ed_target e ∈ nodes.

Record kahn_inv (indegree : gmap string Z) (pending order : list string) : Prop := {
  kahn_nodup : NoDup (order ++ pending);
  kahn_degree : forall n, degree indegree n = Z.of_nat (waiting order n);
  kahn_ready : forall n, n ∈ order ++ pending <-> n ∈ nodes /\ waiting order n = 0%nat;
  kahn_sorted : sorted_order order;
}.

Lemma kahn_step indegree current pending order :
  kahn_inv indegree (current :: pending) order ->
  exists indegree' pending', relax (outgoing edges current) indegree pending = (indegree', pending') /\
    kahn_inv indegree' pending' (order ++ [current]).
Proof.
  intros [Hnd Hdeg Hready Hsorted].
  assert (current ∉ order) as Hcur.
  { apply NoDup_app in Hnd as (_ & Hdis & _). intros Hin. apply (Hdis _ Hin). by left. }
  pose proof (fun n => waiting_snoc order n current Hcur) as Hw.
  assert (forall n, n ∈ map ed_target (outgoing edges current) -> n ∈ nodes) as Hout.
  { intros n (e & -> & [He _]%elem_outgoing)%list_elem_of_fmap_1. by apply Htargets. }
  destruct (relax_spec (outgoing edges current) indegree pending) as (indegree' & new & Hrel & Hdeg' & Hnd' & Hnew).
  { intros n. rewrite Hdeg. specialize (Hw n). lia. }
  exists indegree', (pending ++ new). split; [done|].
  assert (forall n, n ∈ new <-> n ∈ nodes /\ (0 < waiting order n)%nat /\ waiting (order ++ [current]) n = 0%nat)
    as Hnew'.
  { intros n. rewrite Hnew, Hdeg, <- into_pos. specialize (Hw n). split.
    - intros [Hin Heq]. split; [by apply Hout, into_pos|]. lia.
    - intros (_ & Hp & Hz). lia. }
  constructor; rewrite <- ?app_assoc; cbn.
  - rewrite app_comm_cons, app_assoc. apply NoDup_app. split; [done|]. split; [|done].
    intros n Hn%Hready Hin%Hnew'. lia.
  - intros n. rewrite Hdeg', Hdeg. specialize (Hw n). lia.
  - intros n. rewrite app_comm_cons, app_assoc, elem_of_app, Hready, Hnew'. specialize (Hw n).
    split; [intros [[Hn ?]|(Hn & ? & ?)]; split; done || lia|]. intros [Hn Hz].
    destruct (decide (waiting order n = 0)%nat); [by left|]. right. split; [done|]. lia.
  - apply sorted_order_snoc; [done|]. apply waiting_zero. apply Hready, elem_of_app. right. by left.
Qed.

Lemma topological_order_spec fuel indegree pending order :
  kahn_inv indegree pending order -> (length nodes <= fuel + length order)%nat ->
  exists indegree', kahn_inv indegree' [] (topological_order fuel edges indegree pending order).
Proof.
  revert indegree pending order; induction fuel as [|fuel IH]; intros indegree pending order Hinv Hfuel.
  - assert (length (order ++ pending) <= length nodes)%nat as Hlen.
    { apply NoDup_incl_length; [apply NoDup_ListNoDup, Hinv|].
      intros x. rewrite <- !list_elem_of_In. intros Hx. by apply (kahn_ready _ _ _ Hinv). }
    rewrite length_app in Hlen. destruct pending; cbn in *; [by exists indegree|lia].
  - destruct pending as [|current pending]; cbn [topological_order]; [by exists indegree|].
    destruct (kahn_step _ _ _ _ Hinv) as (indegree' & pending' & -> & Hinv').
    apply IH; [done|]. rewrite length_app. cbn. lia.
Qed.

Lemma waiting_nil n : waiting [] n = length (incoming edges n).
Proof.
  unfold waiting. induction (incoming edges n) as [|e l IH]; [done|]. cbn.
  rewrite bool_decide_eq_false_2 by apply not_elem_of_nil. cbn. f_equal. exact IH.
Qed.

Lemma initial_degree n : degree (initial_indegree nodes edges) n = count_incoming edges n.
Proof.
  unfold degree, initial_indegree.
  destruct (list_to_map (map (fun n => (n, count_incoming edges n)) nodes) !! n) as [k|] eqn:Hk.
  - apply elem_of_list_to_map_2 in Hk.
    apply list_elem_of_fmap_1 in Hk as (m & [= -> ->] & _). done.
  - cbn. destruct (incoming edges n) as [|e l] eqn:Hi; [by unfold count_incoming; rewrite Hi|]. exfalso.
    assert (e ∈ incoming edges n) as [He <-]%elem_incoming by (rewrite Hi; by left).
    apply not_elem_of_list_to_map_2 in Hk. apply Hk. rewrite <- list_fmap_compose.
    apply list_elem_of_fmap. exists (ed_target e). split; [done | by apply Htargets].
Qed.

Lemma kahn_init :
  kahn_inv (initial_indegree nodes edges)
    (List.filter (fun n => (count_incoming edges n =? 0)%Z) nodes) [].
Proof.
  constructor; cbn.
  - apply NoDup_ListNoDup, List.NoDup_filter. by apply NoDup_ListNoDup.
  - intros n. by rewrite initial_degree, waiting_nil.
  - intros n. rewrite list_elem_of_In, filter_In, <- list_elem_of_In, waiting_nil.
    unfold count_incoming. rewrite Z.eqb_eq. split; intros [? ?]; split; done || lia.
  - intros [|] ? ?; cbn; done.
Qed.
End kahn.

(** The whole sort: in an acyclic graph every node is sorted, sources first. *)
Lemma sorted_steps_spec (steps : list (string * FlowStep)) l :
  dict_wf steps -> descending l -> (forall x, x ∈ dict_keys steps -> x ∈ l) ->
  (forall e, e ∈ edges -> ed_target e ∈ dict_keys steps /\ ed_source e ∈ dict_keys steps) ->
  let order := sorted_steps steps edges in
  NoDup order /\ sorted_order order /\ forall n, n ∈ order <-> n ∈ dict_keys steps.
Proof.
  intros Hwf Hl Hcover Hends order.
  pose proof (kahn_init (dict_keys steps) Hwf (fun e He => proj1 (Hends e He))) as Hinit.
  apply (topological_order_spec (dict_keys steps) (fun e He => proj1 (Hends e He))
    (length (dict_keys steps))) in Hinit
    as (indegree' & [Hnd _ Hready Hsorted]); [|cbn; lia].
  change (topological_order _ _ _ _ _) with order in Hnd, Hready, Hsorted.
  rewrite app_nil_r in Hnd. setoid_rewrite app_nil_r in Hready.
  split; [done|]. split; [done|]. intros n. split; [by intros [? _]%Hready|]. intros Hn.
  apply dec_stable. intros Hno.
  apply (descending_no_backward edge_rel l (fun u => u ∈ dict_keys steps /\ u ∉ order) Hl) with (u := n); [| |done].
  - intros u [Hu _]. by apply Hcover.
  - intros u [Hu Hnot].
    assert (waiting order u <> 0%nat) as Hw by (intros Hz; by apply Hnot, Hready).
    destruct (decide (Exists (fun e => ed_source e ∉ order) (incoming edges u))) as [Hex|Hex].
    + apply Exists_exists in Hex as (e & He & Hs). exists (ed_source e).
      apply elem_incoming in He as [He Ht]. split; [split; [by apply Hends|done]|]. by exists e.
    + destruct Hw. apply waiting_zero. intros e He. apply dec_stable. intros Hs. apply Hex.
      apply Exists_exists. by exists e.
Qed.

(** *** Availability *)

Lemma intersect_all_elem sets s r : intersect_all sets = Some s -> r ∈ s <-> forall t, t ∈ sets -> r ∈ t.
Proof.
  destruct sets as [|s0 sets]; cbn; [done|]. intros [= <-]. revert s0.
  induction sets as [|t sets IH]; intros s0; cbn.
  - split; [by intros ? t ->%list_elem_of_singleton|]. intros H. apply H. by left.
  - rewrite IH. split.
    + intros H x [->|[->|Hx]%elem_of_cons]%elem_of_cons; [| |by apply H; right];
        apply (elem_of_intersection s0 t r); apply H; by left.
    + intros H x [->|Hx]%elem_of_cons; [apply elem_of_intersection; split|]; apply H;
        rewrite !elem_of_cons; tauto.
Qed.

Lemma intersect_all_Some sets t : t ∈ sets -> is_Some (intersect_all sets).
Proof. destruct sets; [by intros ?%not_elem_of_nil | cbn; eauto]. Qed.

Section availability.
Variables (R : names) (entry : gmap string names).

Lemma predecessor_sets_ext (a1 a2 : gmap string names) n :
  (forall e, e ∈ incoming edges n -> a1 !! ed_source e = a2 !! ed_source e) ->
  predecessor_sets edges entry a1 n = predecessor_sets edges entry a2 n.
Proof.
  intros H. unfold predecessor_sets. f_equal. induction (incoming edges n) as [|e l IH]; [done|].
  cbn. rewrite (H e) by by left. rewrite IH; [done|]. intros; apply H; by right.
Qed.

(** The availability map solves its equations. *)
Lemma available_fixpoint order :
  NoDup order -> sorted_order order ->
  let available := fold_left (available_step edges R entry) order ∅ in
  forall n, available !! n =
    if decide (n ∈ order /\ n ∈ R) then intersect_all (predecessor_sets edges entry available n) else None.
Proof.
  induction order as [|m order IH] using rev_ind; intros Hnd Hsorted available n.
  - unfold available. cbn. rewrite lookup_empty, decide_False; [done|]. by intros [?%not_elem_of_nil _].
  - apply NoDup_app in Hnd as (Hnd & Hdis & _).
    assert (sorted_order order) as Hs'.
    { intros l1 x l2 ->. apply (Hsorted l1 x (l2 ++ [m])). by rewrite <- app_assoc. }
    specialize (IH Hnd Hs'). cbn in IH. set (before := fold_left _ order ∅) in *.
    assert (available = available_step edges R entry before m) as Hav by apply fold_left_app.
    assert (forall x, x <> m -> available !! x = before !! x) as Hne.
    { intros x Hx. rewrite Hav. unfold available_step. case_decide; [|done].
      case_match; [by rewrite lookup_insert_ne|done]. }
    assert (forall x, x ∈ order ++ [m] -> forall e, e ∈ incoming edges x -> ed_source e <> m) as Hsrc.
    { intros x (l1 & l2 & Hx)%list_elem_of_split e He Hm.
      pose proof (Hsorted l1 x l2 Hx e He) as Hin. rewrite Hm in Hin.
      destruct l2 as [|y l2 _] using rev_ind.
      - apply app_inj_tail in Hx as [<- _]. apply (Hdis m Hin). by left.
      - rewrite app_comm_cons, app_assoc in Hx. apply app_inj_tail in Hx as [-> _].
        apply (Hdis m); [apply elem_of_app; by left | by left]. }
    destruct (decide (n = m)) as [->|Hn].
    + assert (m ∉ order) as Hm by (intros Hin; apply (Hdis _ Hin); by left).
      rewrite (predecessor_sets_ext available before m).
      * rewrite Hav. unfold available_step.
        assert (before !! m = None) as Hbm by (rewrite IH, decide_False; [done|tauto]).
        destruct (decide (m ∈ R)) as [HR|HR].
        -- rewrite decide_True by set_solver. destruct (intersect_all _); [by rewrite lookup_insert_eq|done].
        -- rewrite decide_False by tauto. done.
      * intros e He. apply Hne, (Hsrc m); [apply elem_of_app; right; by left|done].
    + rewrite Hne, IH by done.
      rewrite (decide_ext (n ∈ order /\ n ∈ R) (n ∈ order ++ [m] /\ n ∈ R)) by set_solver.
      case_decide as Hin; [|done]. f_equal. apply predecessor_sets_ext. intros e He. symmetry.
      apply Hne, (Hsrc n); [apply Hin|done].
Qed.
End availability.

(** What a path adds to the available roots. *)
Definition path_symbols (p : list FlowEdge) : names := ⋃ map ed_produced p.

Lemma path_symbols_snoc p e : path_symbols (p ++ [e]) = path_symbols p ∪ ed_produced e.
Proof.
  unfold path_symbols. rewrite map_app, union_list_app_L. cbn. by rewrite (right_id_L ∅ (∪)).
Qed.

Lemma flow_path_inv_snoc x p e z : flow_path x (p ++ [e]) z ->
  flow_path x p (ed_source e) /\ e ∈ edges /\ z = ed_target e.
Proof.
  revert x; induction p as [|e' p IH]; intros x; cbn.
  - inversion 1 as [|? ? ? ? He Hs Hp]; subst. inversion Hp; subst. split; [constructor|done].
  - inversion 1 as [|? ? ? ? He Hs Hp]; subst. destruct (IH _ Hp) as (? & ? & ->).
    split; [by constructor|done].
Qed.

Section exact.
Variables (steps : list (string * FlowStep)) (R : names) (entry : gmap string names) (l : list string).
Hypothesis Hwf : dict_wf steps.
Hypothesis Hl : descending l.
Hypothesis Hcover : forall x, x ∈ dict_keys steps -> x ∈ l.
Hypothesis Hends : forall e, e ∈ edges -> ed_target e ∈ dict_keys steps /\ ed_source e ∈ dict_keys steps.
Hypothesis HR : forall y, y ∈ R <-> exists x, is_Some (entry !! x) /\ rtc edge_rel x y.
Hypothesis Hentry : forall x, is_Some (entry !! x) -> x ∈ dict_keys steps.

Abbreviation available := (must_available steps edges R entry).

Lemma reached_node y : y ∈ R -> y ∈ dict_keys steps.
Proof.
  intros (x & Hx & Hr)%HR. apply rtc_inv_r in Hr as [->|(z & _ & e & He & _ & <-)]; [auto|].
  by apply Hends.
Qed.

Lemma available_equation y : y ∈ R ->
  available !! y = intersect_all (predecessor_sets edges entry available y).
Proof.
  intros Hy. destruct (sorted_steps_spec steps l Hwf Hl Hcover Hends) as (Hnd & Hs & Hall).
  unfold must_available at 1. rewrite available_fixpoint by done.
  rewrite decide_True; [done|]. split; [|done]. by apply Hall, reached_node.
Qed.

Lemma available_unreached y : y ∉ R -> available !! y = None.
Proof.
  intros Hy. destruct (sorted_steps_spec steps l Hwf Hl Hcover Hends) as (Hnd & Hs & _).
  unfold must_available. rewrite available_fixpoint by done. by rewrite decide_False by tauto.
Qed.

Lemma elem_predecessor_sets y t :
  t ∈ predecessor_sets edges entry available y <->
  entry !! y = Some t \/
  exists e s, e ∈ edges /\ ed_target e = y /\ available !! ed_source e = Some s /\ t = s ∪ ed_produced e.
Proof.
  unfold predecessor_sets. rewrite elem_of_app, list_elem_of_omap. setoid_rewrite elem_incoming.
  setoid_rewrite fmap_Some. destruct (entry !! y); [rewrite list_elem_of_singleton | rewrite elem_of_nil];
    naive_solver.
Qed.

Lemma must_available_sound x A p y :
  entry !! x = Some A -> flow_path x p y ->
  exists s, available !! y = Some s /\ s ⊆ A ∪ path_symbols p.
Proof.
  intros HA. revert y; induction p as [|e p IH] using rev_ind; intros y Hp.
  - inversion Hp; subst.
    assert (y ∈ R) as Hy by (apply HR; exists y; split; [by eexists|done]).
    rewrite available_equation by done.
    assert (A ∈ predecessor_sets edges entry available y) as Hin by (apply elem_predecessor_sets; by left).
    destruct (intersect_all_Some _ _ Hin) as [s Hs]. exists s. split; [done|].
    intros r Hr. apply elem_of_union. left. by eapply (intersect_all_elem _ s).
  - apply flow_path_inv_snoc in Hp as (Hp & He & ->).
    destruct (IH _ Hp) as (s & Hs & Hsub).
    assert (ed_target e ∈ R) as Hy.
    { apply HR. exists x. split; [by eexists|]. eapply rtc_r; [apply flow_path_rtc; by eexists|]. by exists e. }
    rewrite available_equation by done.
    assert (s ∪ ed_produced e ∈ predecessor_sets edges entry available (ed_target e)) as Hin
      by (apply elem_predecessor_sets; right; by exists e, s).
    destruct (intersect_all_Some _ _ Hin) as [s' Hs']. exists s'. split; [done|].
    intros r Hr. rewrite path_symbols_snoc. eapply (intersect_all_elem _ s') in Hr; [|done|exact Hin].
    set_solver.
Qed.

Lemma must_available_complete y s r :
  available !! y = Some s -> y ∈ R ->
  (forall x A p, entry !! x = Some A -> flow_path x p y -> r ∈ A ∪ path_symbols p) -> r ∈ s.
Proof.
  destruct (sorted_steps_spec steps l Hwf Hl Hcover Hends) as (Hnd & Hsorted & Hall).
  intros Hs HyR Hr. pose proof (reached_node _ HyR) as (l1 & l2 & Hpos)%Hall%list_elem_of_split.
  revert y s l2 Hpos Hs HyR Hr.
  induction l1 as [l1 IH] using (well_founded_induction (well_founded_ltof _ (@length string))).
  intros y s l2 Hpos Hs HyR Hr. rewrite available_equation in Hs by done.
  apply (intersect_all_elem _ _ _ Hs). intros t [Ht|(e & se & He & <- & Hse & ->)]%elem_predecessor_sets.
  - specialize (Hr y t [] Ht (path_nil _)). unfold path_symbols in Hr. cbn in Hr. set_solver.
  - apply elem_of_union. destruct (decide (r ∈ ed_produced e)) as [|Hne]; [by right|left].
    assert (ed_source e ∈ l1) as (l3 & l4 & Hl1)%list_elem_of_split
      by (eapply Hsorted; [exact Hpos|by apply elem_incoming]).
    assert (ed_source e ∈ R) as HsR.
    { apply dec_stable. intros Hn. revert Hse. unfold must_available.
      rewrite available_fixpoint, decide_False by (done || tauto). done. }
    apply (IH l3) with (ed_source e) (l4 ++ ed_target e :: l2); [| |done|done|].
    + unfold ltof. rewrite Hl1, length_app. cbn. lia.
    + rewrite Hpos, Hl1, <- app_assoc. done.
    + intros x A p HA Hp. specialize (Hr x A (p ++ [e]) HA (flow_path_snoc _ _ _ _ Hp He eq_refl)).
      rewrite path_symbols_snoc in Hr. set_solver.
Qed.
End exact.
End graph.

Arguments flow_path_rtc {edges x y}.

(** ** The graph of a workflow *)

Lemma elem_edge_to steps source kind produced target e :
  e ∈ edge_to steps source kind produced target ->
  ed_source e = source /\ ed_kind e = kind /\ ed_produced e = produced /\
  target = Some (ed_target e) /\ ed_target e ∈ dict_keys steps.
Proof.
  unfold edge_to. destruct target as [t|]; [|by intros ?%not_elem_of_nil].
  destruct (dict_mem t steps) eqn:Ht; [|by intros ?%not_elem_of_nil].
  intros ->%list_elem_of_singleton. cbn. split_and!; try done. by apply dict_get_Some_keys, dict_mem_true.
Qed.

Lemma elem_step_edges w steps s e :
  e ∈ step_edges w steps s ->
  st_terminal s = false /\ ed_source e = st_name s /\ ed_target e ∈ dict_keys steps.
Proof.
  unfold step_edges. destruct (st_terminal s); [by intros ?%not_elem_of_nil|].
  assert (forall (b : bool) kind produced target,
    e ∈ (if b then edge_to steps (st_name s) kind produced target else []) ->
    ed_source e = st_name s /\ ed_target e ∈ dict_keys steps) as Hif.
  { intros [] k p t; [intros (? & ? & ? & ? & ?)%elem_edge_to; done | by intros ?%not_elem_of_nil]. }
  intros H. split; [done|]. rewrite !elem_of_app in H. destruct H as [H|[H|[H|[H|H]]]].
  - by eapply Hif.
  - destruct (has_branches s); [|apply (Hif true _ _ _ H)].
    apply list_elem_of_In, in_concat in H as (es & Hes & H). apply in_map_iff in Hes as (b & <- & _).
    apply list_elem_of_In in H. by apply (Hif true) in H.
  - destruct (st_wait_for s); [apply (Hif true _ _ _ H) | by apply not_elem_of_nil in H].
  - by eapply Hif.
  - by eapply Hif.
Qed.

Lemma elem_build_edges w steps e :
  e ∈ build_edges w steps <-> exists s, s ∈ wc_flow w /\ e ∈ step_edges w steps s.
Proof.
  unfold build_edges. rewrite list_elem_of_In, in_concat. setoid_rewrite in_map_iff.
  setoid_rewrite list_elem_of_In. naive_solver.
Qed.

Lemma steps_dict_wf w : dict_wf (steps_dict w).
Proof. apply dict_update_wf. constructor. Qed.

Lemma elem_steps_dict w x : x ∈ dict_keys (steps_dict w) <-> exists s, s ∈ wc_flow w /\ st_name s = x.
Proof.
  unfold steps_dict, dict_of_pairs. rewrite dict_keys_update. unfold dict_keys at 2.
  rewrite list_elem_of_fmap. setoid_rewrite list_elem_of_fmap. split.
  - intros [(? & _ & ?%not_elem_of_nil)|([k s] & -> & s' & [= -> ->] & Hs)]; [done|]. by exists s'.
  - intros (s & Hs & <-). right. exists (st_name s, s). split; [done|]. by exists s.
Qed.

Lemma build_edges_ends w e : e ∈ build_edges w (steps_dict w) ->
  ed_target e ∈ dict_keys (steps_dict w) /\ ed_source e ∈ dict_keys (steps_dict w).
Proof.
  intros (s & Hs & (_ & Hsrc & Ht)%elem_step_edges)%elem_build_edges. split; [done|].
  apply elem_steps_dict. by exists s.
Qed.

Lemma elem_execution_edges edges e : e ∈ execution_edges edges <-> e ∈ edges /\ is_failure_edge e = false.
Proof.
  unfold execution_edges. by rewrite !list_elem_of_In, filter_In, negb_true_iff.
Qed.

Lemma elem_handler_edges edges R e :
  e ∈ handler_edges edges R <-> e ∈ edges /\ is_failure_edge e = true /\ ed_source e ∈ R.
Proof.
  unfold handler_edges. by rewrite !list_elem_of_In, filter_In, andb_true_iff, bool_decide_eq_true.
Qed.

(** The two graphs of a workflow: all edges, and those of normal execution. *)
Definition workflow_edges (w : WorkflowConfig) : list FlowEdge := build_edges w (steps_dict w).
Definition normal_edges (w : WorkflowConfig) : list FlowEdge := execution_edges (workflow_edges w).

Lemma normal_edges_ends w e : e ∈ normal_edges w ->
  ed_target e ∈ dict_keys (steps_dict w) /\ ed_source e ∈ dict_keys (steps_dict w).
Proof. intros [He _]%elem_execution_edges. by apply build_edges_ends. Qed.

Lemma find_cycle_spec w :
  match find_cycle (steps_dict w) (normal_edges w) with
  | Some cycle => is_cycle (edge_rel (normal_edges w)) cycle
  | None => exists l, descending (edge_rel (normal_edges w)) l /\ forall x, x ∈ dict_keys (steps_dict w) -> x ∈ l
  end.
Proof.
  unfold find_cycle. pose proof (find_cycle_from_spec (normal_edges w) (dict_keys (steps_dict w))
    (fun x y '(ex_intro _ e (conj He (conj _ Hy))) =>
       eq_ind (ed_target e) (fun y => y ∈ dict_keys (steps_dict w)) (proj1 (normal_edges_ends w e He)) y Hy)
    (S (length (steps_dict w))) (dict_keys (steps_dict w))
    {| dfs_visiting := ∅; dfs_visited := ∅; dfs_stack := [] |}) as H.
  destruct (find_cycle_from _ _ _ _) as [c|].
  - apply H; [|done|done|unfold dict_keys; rewrite length_fmap; lia].
    constructor; cbn; try set_solver; [constructor|by intros i ? ?|]. exists []. split; [constructor|set_solver].
  - destruct H as (l & Hl & H); [|done|done|unfold dict_keys; rewrite length_fmap; lia|].
    + constructor; cbn; try set_solver; [constructor|by intros i ? ?|]. exists []. split; [constructor|set_solver].
    + exists l. split; [done|]. intros x Hx. apply H. by right.
Qed.

(** ** What a step finds on a path to it *)

(** A way to a step, in normal flow or through the handler of a first failure, with
    the roots that the way provides. *)
Inductive way (w : WorkflowConfig) (first : string) : string -> names -> Prop :=
| way_normal p n :
    flow_path (normal_edges w) first p n -> way w first n (workflow_roots w ∪ path_symbols p)
| way_handler p f q n :
    flow_path (normal_edges w) first p (ed_source f) ->
    f ∈ workflow_edges w -> is_failure_edge f = true ->
    flow_path (normal_edges w) (ed_target f) q n ->
    way w first n (workflow_roots w ∪ path_symbols p ∪ ed_produced f ∪ path_symbols q).

Section analysed.
Variables (w : WorkflowConfig) (first : string) (l : list string).
Hypothesis Hfirst : first ∈ dict_keys (steps_dict w).
Hypothesis Hl : descending (edge_rel (normal_edges w)) l.
Hypothesis Hcover : forall x, x ∈ dict_keys (steps_dict w) -> x ∈ l.

Abbreviation a := (analysis_of w first).

Lemma normal_reachable_spec y :
  y ∈ an_normal_reachable a <-> exists p, flow_path (normal_edges w) first p y.
Proof.
  unfold analysis_of; cbn [an_normal_reachable]. rewrite elem_reachable.
  change (execution_edges (build_edges w (steps_dict w))) with (normal_edges w).
  setoid_rewrite list_elem_of_singleton. rewrite flow_path_rtc. naive_solver.
Qed.

Lemma normal_available_spec y :
  y ∈ an_normal_reachable a ->
  exists s, an_normal_available a !! y = Some s /\
    forall r, r ∈ s <-> forall p, flow_path (normal_edges w) first p y -> r ∈ workflow_roots w ∪ path_symbols p.
Proof.
  intros Hy. pose proof Hy as [p Hp]%normal_reachable_spec.
  assert (forall y, y ∈ an_normal_reachable a <-> exists x : string,
    is_Some (({[first := workflow_roots w]} : gmap string names) !! x) /\ rtc (edge_rel (normal_edges w)) x y)
    as HR.
  { intros z. rewrite normal_reachable_spec, flow_path_rtc.
    setoid_rewrite lookup_singleton_is_Some. naive_solver. }
  pose proof (must_available_sound (normal_edges w) (steps_dict w) (an_normal_reachable a)
    {[first := workflow_roots w]} l (steps_dict_wf w) Hl Hcover (normal_edges_ends w) HR) as Hsound.
  assert (forall x, is_Some (({[first := workflow_roots w]} : gmap string names) !! x) ->
    x ∈ dict_keys (steps_dict w)) as Hent by (intros x <-%lookup_singleton_is_Some; done).
  specialize (Hsound Hent first _ p y (lookup_singleton_eq _ _) Hp) as (s & Hs & _).
  exists s. split; [done|]. intros r. split.
  - intros Hr q Hq. destruct (must_available_sound (normal_edges w) (steps_dict w) (an_normal_reachable a)
      {[first := workflow_roots w]} l (steps_dict_wf w) Hl Hcover (normal_edges_ends w) HR Hent
      first _ q y (lookup_singleton_eq _ _) Hq) as (s' & Hs' & Hsub).
    rewrite Hs in Hs'. injection Hs' as <-. by apply Hsub.
  - intros H. eapply (must_available_complete (normal_edges w) (steps_dict w) (an_normal_reachable a)
      {[first := workflow_roots w]} l (steps_dict_wf w) Hl Hcover (normal_edges_ends w) HR Hent y s r Hs Hy).
    intros x A q [<- <-]%lookup_singleton_Some Hq. by apply H.
Qed.

Lemma lookup_map_of {A} (f : string -> option A) ts t :
  (list_to_map (omap (fun t => pair t <$> f t) ts) : gmap string A) !! t =
    if decide (t ∈ ts) then f t else None.
Proof.
  induction ts as [|x ts IH]; [done|]. cbn.
  destruct (f x) as [v|] eqn:Hx; cbn.
  - destruct (decide (t = x)) as [->|Hne].
    + rewrite lookup_insert_eq, decide_True by by left. done.
    + rewrite lookup_insert_ne, IH by done. rewrite (decide_ext _ (t ∈ x :: ts)) by set_solver. done.
  - rewrite IH. destruct (decide (t = x)) as [->|Hne].
    + rewrite (decide_True (P := x ∈ x :: ts)) by by left. rewrite Hx. by case_decide.
    + rewrite (decide_ext _ (t ∈ x :: ts)) by set_solver. done.
Qed.

Abbreviation handler_entry :=
  (handler_entry_available (workflow_edges w) (an_normal_reachable a) (an_normal_available a)).

Definition handler_edge (f : FlowEdge) : Prop :=
  f ∈ workflow_edges w /\ is_failure_edge f = true /\ exists p, flow_path (normal_edges w) first p (ed_source f).

Lemma handler_edge_spec f : f ∈ handler_edges (workflow_edges w) (an_normal_reachable a) <-> handler_edge f.
Proof. rewrite elem_handler_edges, normal_reachable_spec. done. Qed.

Lemma handler_entry_spec t :
  (is_Some (handler_entry !! t) <-> exists f, handler_edge f /\ ed_target f = t) /\
  forall A r, handler_entry !! t = Some A -> r ∈ A <-> forall f p, f ∈ workflow_edges w ->
    is_failure_edge f = true -> ed_target f = t -> flow_path (normal_edges w) first p (ed_source f) ->
    r ∈ workflow_roots w ∪ path_symbols p ∪ ed_produced f.
Proof.
  set (cands := handler_candidates (workflow_edges w) (an_normal_reachable a) (an_normal_available a) t).
  assert (Hc : forall s, s ∈ cands <-> exists f s0, handler_edge f /\ ed_target f = t /\
    an_normal_available a !! ed_source f = Some s0 /\ s = s0 ∪ ed_produced f).
  { intros s. unfold cands, handler_candidates. rewrite list_elem_of_omap. setoid_rewrite elem_incoming.
    setoid_rewrite handler_edge_spec. setoid_rewrite fmap_Some. naive_solver. }
  assert (handler_entry !! t = intersect_all cands) as Hent.
  { unfold handler_entry_available. rewrite lookup_map_of. case_decide as Ht; [done|].
    destruct cands as [|s sets]; [done|]. destruct Ht.
    destruct (proj1 (Hc s) (list_elem_of_here _ _)) as (f & s0 & Hf & <- & _).
    by apply list_elem_of_fmap_2, handler_edge_spec. }
  rewrite Hent. split.
  - split.
    + destruct cands as [|s sets]; [by intros [? [=]]|]. intros _.
      destruct (proj1 (Hc s) (list_elem_of_here _ _)) as (f & s0 & Hf & <- & _). by exists f.
    + intros (f & Hf & Ht). pose proof Hf as (_ & _ & Hp).
      apply normal_reachable_spec, normal_available_spec in Hp as (s & Hs & _).
      eapply intersect_all_Some, Hc. by exists f, s.
  - intros A r HA. rewrite (intersect_all_elem _ _ _ HA). split.
    + intros H f p Hf Hk Ht Hp.
      assert (ed_source f ∈ an_normal_reachable a) as HR by (apply normal_reachable_spec; by exists p).
      destruct (normal_available_spec _ HR) as (s & Hs & Hr).
      assert (r ∈ s ∪ ed_produced f) as [Hin|Hin]%elem_of_union
        by (apply H, Hc; exists f, s; split_and!; [split; [done|split; [done|by exists p]]|done..]).
      * apply elem_of_union_l. by apply Hr.
      * by apply elem_of_union_r.
    + intros H s (f & s0 & (Hf & Hk & p & Hp) & Ht & Hs0 & ->)%Hc.
      assert (ed_source f ∈ an_normal_reachable a) as HR by (apply normal_reachable_spec; by exists p).
      destruct (normal_available_spec _ HR) as (s & Hs & Hr). rewrite Hs in Hs0. injection Hs0 as ->.
      apply elem_of_union. destruct (decide (r ∈ ed_produced f)) as [|Hn]; [by right|left].
      apply Hr. intros q Hq. specialize (H f q Hf Hk Ht Hq). set_solver.
Qed.

Lemma handler_reachable_spec y :
  y ∈ an_handler_reachable a <-> exists f q, handler_edge f /\ flow_path (normal_edges w) (ed_target f) q y.
Proof.
  unfold analysis_of; cbn [an_handler_reachable]. rewrite elem_reachable.
  change (execution_edges (build_edges w (steps_dict w))) with (normal_edges w).
  change (build_edges w (steps_dict w)) with (workflow_edges w).
  change (reachable (normal_edges w) [first]) with (an_normal_reachable a).
  setoid_rewrite elem_of_elements. setoid_rewrite elem_of_list_to_set. split.
  - intros (x & (f & -> & Hf%handler_edge_spec)%list_elem_of_fmap_1 & [q Hq]%flow_path_rtc). by exists f, q.
  - intros (f & q & Hf & Hq). exists (ed_target f). split; [|apply flow_path_rtc; by exists q].
    by apply list_elem_of_fmap_2, handler_edge_spec.
Qed.

Lemma handler_available_spec y :
  y ∈ an_handler_reachable a ->
  exists s, an_handler_available a !! y = Some s /\
    forall r, r ∈ s <-> forall p f q, flow_path (normal_edges w) first p (ed_source f) ->
      f ∈ workflow_edges w -> is_failure_edge f = true -> flow_path (normal_edges w) (ed_target f) q y ->
      r ∈ workflow_roots w ∪ path_symbols p ∪ ed_produced f ∪ path_symbols q.
Proof.
  intros Hy.
  assert (forall y, y ∈ an_handler_reachable a <-> exists x : string,
    is_Some (handler_entry !! x) /\ rtc (edge_rel (normal_edges w)) x y) as HR.
  { intros z. rewrite handler_reachable_spec. setoid_rewrite (fun t => proj1 (handler_entry_spec t)).
    setoid_rewrite <- flow_path_rtc. naive_solver. }
  assert (forall x, is_Some (handler_entry !! x) -> x ∈ dict_keys (steps_dict w)) as Hent.
  { intros x (f & (Hf & _) & <-)%handler_entry_spec. by apply build_edges_ends. }
  pose proof (must_available_sound (normal_edges w) (steps_dict w) (an_handler_reachable a)
    handler_entry l (steps_dict_wf w) Hl Hcover (normal_edges_ends w) HR Hent) as Hsound.
  pose proof (must_available_complete (normal_edges w) (steps_dict w) (an_handler_reachable a)
    handler_entry l (steps_dict_wf w) Hl Hcover (normal_edges_ends w) HR Hent) as Hcomplete.
  change (must_available (steps_dict w) (normal_edges w) (an_handler_reachable a) handler_entry)
    with (an_handler_available a) in *.
  pose proof Hy as (f & q & Hf & Hq)%handler_reachable_spec.
  destruct (proj2 (proj1 (handler_entry_spec (ed_target f)))) as [A HA]; [by exists f|].
  destruct (Hsound _ _ _ _ HA Hq) as (s & Hs & _). exists s. split; [done|]. intros r. split.
  - intros Hr p g q' Hp Hg Hk Hq'.
    destruct (proj2 (proj1 (handler_entry_spec (ed_target g)))) as [A' HA'].
    { exists g. split; [|done]. split; [done|]. split; [done|]. by exists p. }
    destruct (Hsound _ _ _ _ HA' Hq') as (s' & Hs' & Hsub). rewrite Hs in Hs'. injection Hs' as <-.
    apply Hsub, elem_of_union in Hr as [Hr|Hr]; [|by apply elem_of_union_r].
    apply elem_of_union_l. by apply (proj1 (proj2 (handler_entry_spec (ed_target g)) _ r HA') Hr g p).
  - intros H. apply (Hcomplete y s r Hs Hy). intros x B q' HB Hq'.
    apply elem_of_union. destruct (decide (r ∈ path_symbols q')) as [|Hn]; [by right|left].
    apply (proj2 (handler_entry_spec x) _ _ HB). intros g p Hg Hk <- Hp.
    specialize (H p g q' Hp Hg Hk Hq'). set_solver.
Qed.

Lemma available_only_reached y :
  (y ∉ an_normal_reachable a -> an_normal_available a !! y = None) /\
  (y ∉ an_handler_reachable a -> an_handler_available a !! y = None).
Proof.
  split; intros H; apply (available_unreached (normal_edges w) (steps_dict w) _ _ l (steps_dict_wf w) Hl Hcover
    (normal_edges_ends w) _ H).
Qed.

Abbreviation guarantee := (guaranteed (an_normal_available a) (an_handler_available a)).

Lemma elem_opt_list {A} (o : option A) x : x ∈ opt_list o <-> o = Some x.
Proof. destruct o; cbn; rewrite ?list_elem_of_singleton, ?elem_of_nil; naive_solver. Qed.

Lemma guaranteed_spec n syms :
  way w first n syms ->
  exists s, guarantee n = Some s /\ forall r, r ∈ s <-> forall syms, way w first n syms -> r ∈ syms.
Proof.
  intros Hway. unfold guaranteed.
  set (sets := opt_list (an_normal_available a !! n) ++ opt_list (an_handler_available a !! n)).
  assert (forall t, t ∈ sets <-> an_normal_available a !! n = Some t \/ an_handler_available a !! n = Some t)
    as Hsets by (intros; unfold sets; by rewrite elem_of_app, !elem_opt_list).
  assert (exists t, t ∈ sets) as [t Ht].
  { setoid_rewrite Hsets. inversion Hway as [p ? Hp|p f q ? Hp Hf Hk Hq]; subst.
    - destruct (normal_available_spec n) as (s & Hs & _); [apply normal_reachable_spec; by exists p|].
      exists s. by left.
    - destruct (handler_available_spec n) as (s & Hs & _);
        [|exists s; by right]. apply handler_reachable_spec. exists f, q.
      split; [split; [done|split; [done|by exists p]]|done]. }
  destruct (intersect_all_Some _ _ Ht) as [s Hs]. exists s. split; [done|]. intros r.
  rewrite (intersect_all_elem _ _ _ Hs). split.
  - intros H syms' Hw. inversion Hw as [p ? Hp|p f q ? Hp Hf Hk Hq]; subst.
    + destruct (normal_available_spec n) as (s' & Hs' & Hr); [apply normal_reachable_spec; by exists p|].
      apply Hr; [|done]. apply H, Hsets. by left.
    + destruct (handler_available_spec n) as (s' & Hs' & Hr).
      { apply handler_reachable_spec. exists f, q. split; [split; [done|split; [done|by exists p]]|done]. }
      apply (proj1 (Hr r)); [|done..]. apply H, Hsets. by right.
  - intros H t' [Ht'|Ht']%Hsets.
    + assert (n ∈ an_normal_reachable a) as HR
        by (apply dec_stable; intros Hn; by rewrite (proj1 (available_only_reached n) Hn) in Ht').
      destruct (normal_available_spec n HR) as (s' & Hs' & Hr). rewrite Hs' in Ht'. injection Ht' as <-.
      apply Hr. intros p Hp. by apply H, way_normal.
    + assert (n ∈ an_handler_reachable a) as HR
        by (apply dec_stable; intros Hn; by rewrite (proj2 (available_only_reached n) Hn) in Ht').
      destruct (handler_available_spec n HR) as (s' & Hs' & Hr). rewrite Hs' in Ht'. injection Ht' as <-.
      apply Hr. intros p f q Hp Hf Hk Hq. by apply H, way_handler.
Qed.

Lemma way_reachable n :
  (exists syms, way w first n syms) <-> n ∈ an_normal_reachable a ∪ an_handler_reachable a.
Proof.
  rewrite elem_of_union, normal_reachable_spec, handler_reachable_spec. split.
  - intros [syms [p ? Hp|p f q ? Hp Hf Hk Hq]]; [left; by exists p|right; exists f, q].
    split; [split; [done|split; [done|by exists p]]|done].
  - intros [[p Hp]|(f & q & (Hf & Hk & p & Hp) & Hq)]; eexists; [by apply way_normal|by eapply way_handler].
Qed.

Lemma guaranteed_None n : ~ (exists syms, way w first n syms) -> guarantee n = None.
Proof.
  rewrite way_reachable, not_elem_of_union. intros [Hn Hh]. unfold guaranteed.
  by rewrite (proj1 (available_only_reached n) Hn), (proj2 (available_only_reached n) Hh).
Qed.
End analysed.

Lemma sorted_names_nil s : sorted_names s = [] <-> s = ∅.
Proof.
  unfold sorted_names. split.
  - intros H. apply leibniz_equiv, elements_empty_inv, map_eq_nil with (f := fun n => (n, tt)).
    destruct (map _ (elements s)) as [|[k v] m]; [done|]. cbn in H.
    destruct (sort_keys m) as [|[k' v'] m']; cbn in H; [done|]. by case_match.
  - intros ->. by rewrite elements_empty.
Qed.

Lemma concat_map_nil {A B} (f : A -> list B) l : concat (map f l) = [] <-> forall x, x ∈ l -> f x = [].
Proof.
  induction l as [|x l IH]; cbn; [split; [by intros _ x ?%not_elem_of_nil|done]|].
  rewrite app_nil, IH. split.
  - intros [Hx Hl] y [->|?]%elem_of_cons; auto.
  - intros H. split; [apply H; by left|]. intros; apply H; by right.
Qed.

(** ** Properties *)

(** What a workflow that passes the analysis guarantees.  A [way] is a path of normal
    execution, or one through the handler of a first failure. *)
Record sound_flow `{PyParser} (w : WorkflowConfig) (first : string) : Prop := {
  flow_acyclic : acyclic (edge_rel (normal_edges w));
  flow_reached : forall s, s ∈ wc_flow w -> exists roots, way w first (st_name s) roots;
  flow_progress : forall s, s ∈ wc_flow w -> st_terminal s = false ->
    exists y, edge_rel (normal_edges w) (st_name s) y;
  flow_references : forall s roots r, s ∈ wc_flow w -> st_terminal s = false ->
    way w first (st_name s) roots -> r ∈ step_reference_roots s -> r ∈ roots;
  flow_result : forall result s roots, wc_result w = Some result -> s ∈ wc_flow w ->
    st_terminal s = true -> st_reason s = None -> way w first (st_name s) roots -> rp_root result ∈ roots;
}.

Section exactness.
Context `{PyParser}.
Variables (w : WorkflowConfig) (first : FlowStep) (rest : list FlowStep) (l : list string).
Hypothesis Hflow : wc_flow w = first :: rest.
Hypothesis Hl : descending (edge_rel (normal_edges w)) l.
Hypothesis Hcover : forall x, x ∈ dict_keys (steps_dict w) -> x ∈ l.

Abbreviation a := (analysis_of w (st_name first)).

Lemma first_in_steps : st_name first ∈ dict_keys (steps_dict w).
Proof. apply elem_steps_dict. exists first. rewrite Hflow. split; [by left|done]. Qed.

Lemma normal_acyclic : acyclic (edge_rel (normal_edges w)).
Proof.
  eapply descending_acyclic; [done|]. intros x y (e & He & <- & _). apply Hcover. by apply normal_edges_ends.
Qed.

Lemma reference_issues_nil :
  reference_issues w (an_normal_available a) (an_handler_available a) = [] <->
  forall s roots r, s ∈ wc_flow w -> st_terminal s = false ->
    way w (st_name first) (st_name s) roots -> r ∈ step_reference_roots s -> r ∈ roots.
Proof.
  unfold reference_issues. rewrite concat_map_nil. unfold reference_issues_at. split.
  - intros Hi s roots r Hs Ht Hw Hr. specialize (Hi s Hs). rewrite Ht in Hi.
    destruct (guaranteed_spec w _ l first_in_steps Hl Hcover _ _ Hw) as (S & HS & Hel). rewrite HS in Hi.
    apply map_eq_nil, sorted_names_nil in Hi. apply Hel; [|done]. set_solver.
  - intros Hi s Hs. destruct (st_terminal s) eqn:Ht; [done|].
    destruct (guaranteed _ _ _) as [S|] eqn:HS; [|done].
    assert (step_reference_roots s ∖ S = ∅) as ->; [|done].
    apply elem_of_equiv_empty_L. intros r [Hr Hn]%elem_of_difference. apply Hn.
    destruct (decide (st_name s ∈ an_normal_reachable a ∪ an_handler_reachable a)) as [HR|HR].
    + apply way_reachable in HR as [roots Hw].
      destruct (guaranteed_spec w _ l first_in_steps Hl Hcover _ _ Hw) as (S' & HS' & Hel).
      rewrite HS' in HS. injection HS as ->. apply Hel. intros roots' Hw'. by eapply Hi.
    + rewrite <- way_reachable in HR. apply (guaranteed_None w _ l Hl Hcover) in HR. congruence.
Qed.

Lemma result_issues_nil :
  result_issues w (an_normal_available a) (an_handler_available a) = [] <->
  forall result s roots, wc_result w = Some result -> s ∈ wc_flow w -> st_terminal s = true ->
    st_reason s = None -> way w (st_name first) (st_name s) roots -> rp_root result ∈ roots.
Proof.
  unfold result_issues. destruct (wc_result w) as [result|]; [|by split].
  rewrite concat_map_nil. unfold result_issues_at. split.
  - intros Hi r s roots [= <-] Hs Ht Hre Hw. specialize (Hi s Hs). rewrite Ht, Hre in Hi. cbn -[guaranteed analysis_of] in Hi.
    destruct (guaranteed_spec w _ l first_in_steps Hl Hcover _ _ Hw) as (S & HS & Hel). rewrite HS in Hi.
    case_decide as Hin; [|done]. by apply Hel.
  - intros Hi s Hs. destruct (st_terminal s) eqn:Ht; [|done]. destruct (st_reason s) eqn:Hre; [done|]. cbn -[guaranteed analysis_of].
    destruct (guaranteed _ _ _) as [S|] eqn:HS; [|done]. rewrite decide_True; [done|].
    destruct (decide (st_name s ∈ an_normal_reachable a ∪ an_handler_reachable a)) as [HR|HR].
    + apply way_reachable in HR as [roots Hw].
      destruct (guaranteed_spec w _ l first_in_steps Hl Hcover _ _ Hw) as (S' & HS' & Hel).
      rewrite HS' in HS. injection HS as ->. apply Hel. intros roots' Hw'. by eapply Hi.
    + rewrite <- way_reachable in HR. apply (guaranteed_None w _ l Hl Hcover) in HR. congruence.
Qed.

Lemma reachability_issues_nil :
  reachability_issues w (st_name first) (steps_dict w) (an_normal_reachable a ∪ an_handler_reachable a) = [] <->
  forall s, s ∈ wc_flow w -> exists roots, way w (st_name first) (st_name s) roots.
Proof.
  unfold reachability_issues. setoid_rewrite way_reachable. split.
  - intros Hi%map_eq_nil s Hs. apply dec_stable. intros Hn.
    assert (st_name s ∈ List.filter (fun name => negb (bool_decide (name ∈ an_normal_reachable a ∪
      an_handler_reachable a))) (dict_keys (steps_dict w))) as Hin.
    { rewrite list_elem_of_In, filter_In, <- list_elem_of_In, bool_decide_eq_false_2 by done.
      split; [|done]. apply elem_steps_dict. by exists s. }
    rewrite Hi in Hin. by apply not_elem_of_nil in Hin.
  - intros Hi. destruct (List.filter _ _) as [|x m] eqn:Hf; [done|]. exfalso.
    assert (In x (x :: m)) as Hin by by left. rewrite <- Hf in Hin.
    apply filter_In in Hin as [(s & Hs & <-)%list_elem_of_In%elem_steps_dict Hb].
    rewrite bool_decide_eq_true_2 in Hb by (by apply Hi). done.
Qed.

Lemma sink_issues_nil (Hreach : forall s, s ∈ wc_flow w -> exists roots, way w (st_name first) (st_name s) roots) :
  sink_issues w (an_normal_reachable a ∪ an_handler_reachable a) (normal_edges w) = [] <->
  forall s, s ∈ wc_flow w -> st_terminal s = false -> exists y, edge_rel (normal_edges w) (st_name s) y.
Proof.
  unfold sink_issues. split.
  - intros Hi%map_eq_nil s Hs Ht. destruct (outgoing (normal_edges w) (st_name s)) as [|e es] eqn:Ho.
    + exfalso. eapply not_elem_of_nil. rewrite <- Hi. apply list_elem_of_In, filter_In.
      split; [apply list_elem_of_In, Hs|]. rewrite Ht, Ho, !bool_decide_eq_true_2; [done|done|].
      by apply way_reachable, Hreach.
    + assert (e ∈ outgoing (normal_edges w) (st_name s)) as [He Hsrc]%elem_outgoing by (rewrite Ho; by left).
      exists (ed_target e), e. done.
  - intros Hi. destruct (List.filter _ _) as [|s m] eqn:Hf; [done|]. exfalso.
    assert (In s (s :: m)) as Hin by by left. rewrite <- Hf in Hin.
    apply filter_In in Hin as [Hs%list_elem_of_In Hb]. apply andb_true_iff in Hb as [[_ Ht]%andb_true_iff Ho].
    apply negb_true_iff in Ht. destruct (Hi s Hs Ht) as (y & Hy). apply edge_rel_outgoing in Hy.
    apply bool_decide_eq_true in Ho. rewrite Ho in Hy. by apply not_elem_of_nil in Hy.
Qed.
End exactness.

(** Cycle detection is exact.  On the graph of normal execution of any workflow,
    [_find_cycle] returns [None] only when no walk goes on for ever, and what it returns
    otherwise is a real cycle: it starts and ends at the same step and each entry has
    an edge to the next. *)
Theorem find_cycle_exact (w : WorkflowConfig) :
  match find_cycle (steps_dict w) (normal_edges w) with
  | Some cycle => is_cycle (edge_rel (normal_edges w)) cycle
  | None => acyclic (edge_rel (normal_edges w))
  end.
Proof.
  pose proof (find_cycle_spec w) as H. destruct (find_cycle _ _) as [c|]; [done|].
  destruct H as (l & Hl & Hcover). by eapply normal_acyclic.
Qed.

Lemma analyze_workflow_sound `{PyParser} (w : WorkflowConfig) (first : FlowStep) (rest : list FlowStep)
    (Hflow : wc_flow w = first :: rest) :
  analyze_workflow w = [] <-> sound_flow w (st_name first).
Proof.
  pose proof (find_cycle_spec w) as Hfc. unfold analyze_workflow. rewrite Hflow.
  change (an_steps _) with (steps_dict w). change (an_execution _) with (normal_edges w).
  destruct (find_cycle (steps_dict w) (normal_edges w)) as [c|] eqn:Hc.
  - split; [done|]. intros [Hacc _ _ _ _]. by destruct (is_cycle_loop _ _ Hfc).
  - destruct Hfc as (l & Hl & Hcover). rewrite !app_nil.
    rewrite (reachability_issues_nil w first), (reference_issues_nil w first rest l Hflow Hl Hcover),
      (result_issues_nil w first rest l Hflow Hl Hcover).
    split.
    + intros (Hr & Hs & Href & Hres). pose proof (proj1 (sink_issues_nil w first Hr) Hs).
      constructor; [by eapply normal_acyclic|done..].
    + intros [Hacc Hr Hs Href Hres]. split; [done|]. split; [by apply (sink_issues_nil w first Hr)|done].
Qed.

(** C1: The analysis reports nothing exactly when the flow is sound.  Normal execution
    has no cycle; every step is reached; every step that is not terminal has a successor;
    on every way to a step, in normal flow or through the handler of a first failure,
    every root the step refers to is a workflow parameter, the request id, the [error]
    of the failure or a symbol that the way has produced; and the result is available
    at every normal terminal. *)
Theorem analyze_workflow_exact `{PyParser} (w : WorkflowConfig) (first : FlowStep) (rest : list FlowStep)
    (Hflow : wc_flow w = first :: rest) :
  analyze_workflow w = [] <-> sound_flow w (st_name first).
Proof. by eapply analyze_workflow_sound. Qed.

(** Two steps and a terminal; the second step reads what the first produced. *)
Definition sample_flow : list FlowStep :=
  [op_step "fetch" "get" InputNone "store" None;
   op_step "store" "put" (InputRef (root_reference "fetch")) "done" (Some "failed");
   terminal_step "done" None; terminal_step "failed" (Some "store failed")].

Definition sample_workflow : WorkflowConfig :=
  plain_workflow "sample"
    [("get", plain_operation "svc" "get"); ("put", plain_operation "svc" "put")] sample_flow.

Lemma analyze_workflow_exact_witness :
  let parser := sample_parser in
  analyze_workflow sample_workflow = [] /\ sound_flow sample_workflow "fetch".
Proof.
  intros parser.
  pose proof (analyze_workflow_exact sample_workflow (op_step "fetch" "get" InputNone "store" None)
    (tail sample_flow) eq_refl) as H.
  assert (analyze_workflow sample_workflow = []) as Hnil by (vm_compute; reflexivity).
  split; [exact Hnil|]. apply H, Hnil.
Defined.
