(* ===== verification/Runner.v ===== *)
(** The run-time of a workflow: [FlowRunner] of [engine/runner.py].  A method is a
    computation over a machine (the state of the run, the count of invocations and the
    outside world) that returns or raises, and keeps its changes of the machine in both
    cases.  The step executor, the clock and the time zone data are parameters. *)

From S2P Require Export Floats AuditCapture Analysis.

(** ** State *)

(** [_RunState] *)
Record RunState := {
  rs_correlation : CorrelationIdentity;
  rs_started_at : string;
  rs_params : list (string * json);
  rs_step_outputs : list (string * json);
  rs_step_timings : list (string * json);
  rs_transitions : list TransitionRecord;
  rs_failures : list StepFailure;
  rs_active_episode : option FailureEpisode;
  rs_phase : FailurePhase;
  rs_current_step_name : option string;
  rs_current_step_started : option spec_float;
  rs_next_seq : Z;
}.

Definition set_correlation (v : CorrelationIdentity) (s : RunState) : RunState := {|
  rs_correlation := v; rs_started_at := rs_started_at s; rs_params := rs_params s;
  rs_step_outputs := rs_step_outputs s; rs_step_timings := rs_step_timings s;
  rs_transitions := rs_transitions s; rs_failures := rs_failures s;
  rs_active_episode := rs_active_episode s; rs_phase := rs_phase s;
  rs_current_step_name := rs_current_step_name s;
  rs_current_step_started := rs_current_step_started s; rs_next_seq := rs_next_seq s |}.

Definition set_started_at (v : string) (s : RunState) : RunState := {|
  rs_correlation := rs_correlation s; rs_started_at := v; rs_params := rs_params s;
  rs_step_outputs := rs_step_outputs s; rs_step_timings := rs_step_timings s;
  rs_transitions := rs_transitions s; rs_failures := rs_failures s;
  rs_active_episode := rs_active_episode s; rs_phase := rs_phase s;
  rs_current_step_name := rs_current_step_name s;
  rs_current_step_started := rs_current_step_started s; rs_next_seq := rs_next_seq s |}.

Definition set_params (v : list (string * json)) (s : RunState) : RunState := {|
  rs_correlation := rs_correlation s; rs_started_at := rs_started_at s; rs_params := v;
  rs_step_outputs := rs_step_outputs s; rs_step_timings := rs_step_timings s;
  rs_transitions := rs_transitions s; rs_failures := rs_failures s;
  rs_active_episode := rs_active_episode s; rs_phase := rs_phase s;
  rs_current_step_name := rs_current_step_name s;
  rs_current_step_started := rs_current_step_started s; rs_next_seq := rs_next_seq s |}.

Definition set_step_outputs (v : list (string * json)) (s : RunState) : RunState := {|
  rs_correlation := rs_correlation s; rs_started_at := rs_started_at s; rs_params := rs_params s;
  rs_step_outputs := v; rs_step_timings := rs_step_timings s; rs_transitions := rs_transitions s;
  rs_failures := rs_failures s; rs_active_episode := rs_active_episode s; rs_phase := rs_phase s;
  rs_current_step_name := rs_current_step_name s;
  rs_current_step_started := rs_current_step_started s; rs_next_seq := rs_next_seq s |}.

Definition set_step_timings (v : list (string * json)) (s : RunState) : RunState := {|
  rs_correlation := rs_correlation s; rs_started_at := rs_started_at s; rs_params := rs_params s;
  rs_step_outputs := rs_step_outputs s; rs_step_timings := v; rs_transitions := rs_transitions s;
  rs_failures := rs_failures s; rs_active_episode := rs_active_episode s; rs_phase := rs_phase s;
  rs_current_step_name := rs_current_step_name s;
  rs_current_step_started := rs_current_step_started s; rs_next_seq := rs_next_seq s |}.

Definition set_transitions (v : list TransitionRecord) (s : RunState) : RunState := {|
  rs_correlation := rs_correlation s; rs_started_at := rs_started_at s; rs_params := rs_params s;
  rs_step_outputs := rs_step_outputs s; rs_step_timings := rs_step_timings s;
  rs_transitions := v; rs_failures := rs_failures s; rs_active_episode := rs_active_episode s;
  rs_phase := rs_phase s; rs_current_step_name := rs_current_step_name s;
  rs_current_step_started := rs_current_step_started s; rs_next_seq := rs_next_seq s |}.

Definition set_failures (v : list StepFailure) (s : RunState) : RunState := {|
  rs_correlation := rs_correlation s; rs_started_at := rs_started_at s; rs_params := rs_params s;
  rs_step_outputs := rs_step_outputs s; rs_step_timings := rs_step_timings s;
  rs_transitions := rs_transitions s; rs_failures := v; rs_active_episode := rs_active_episode s;
  rs_phase := rs_phase s; rs_current_step_name := rs_current_step_name s;
  rs_current_step_started := rs_current_step_started s; rs_next_seq := rs_next_seq s |}.

Definition set_active_episode (v : option FailureEpisode) (s : RunState) : RunState := {|
  rs_correlation := rs_correlation s; rs_started_at := rs_started_at s; rs_params := rs_params s;
  rs_step_outputs := rs_step_outputs s; rs_step_timings := rs_step_timings s;
  rs_transitions := rs_transitions s; rs_failures := rs_failures s; rs_active_episode := v;
  rs_phase := rs_phase s; rs_current_step_name := rs_current_step_name s;
  rs_current_step_started := rs_current_step_started s; rs_next_seq := rs_next_seq s |}.

Definition set_phase (v : FailurePhase) (s : RunState) : RunState := {|
  rs_correlation := rs_correlation s; rs_started_at := rs_started_at s; rs_params := rs_params s;
  rs_step_outputs := rs_step_outputs s; rs_step_timings := rs_step_timings s;
  rs_transitions := rs_transitions s; rs_failures := rs_failures s;
  rs_active_episode := rs_active_episode s; rs_phase := v;
  rs_current_step_name := rs_current_step_name s;
  rs_current_step_started := rs_current_step_started s; rs_next_seq := rs_next_seq s |}.

Definition set_current_step_name (v : option string) (s : RunState) : RunState := {|
  rs_correlation := rs_correlation s; rs_started_at := rs_started_at s; rs_params := rs_params s;
  rs_step_outputs := rs_step_outputs s; rs_step_timings := rs_step_timings s;
  rs_transitions := rs_transitions s; rs_failures := rs_failures s;
  rs_active_episode := rs_active_episode s; rs_phase := rs_phase s; rs_current_step_name := v;
  rs_current_step_started := rs_current_step_started s; rs_next_seq := rs_next_seq s |}.

Definition set_current_step_started (v : option spec_float) (s : RunState) : RunState := {|
  rs_correlation := rs_correlation s; rs_started_at := rs_started_at s; rs_params := rs_params s;
  rs_step_outputs := rs_step_outputs s; rs_step_timings := rs_step_timings s;
  rs_transitions := rs_transitions s; rs_failures := rs_failures s;
  rs_active_episode := rs_active_episode s; rs_phase := rs_phase s;
  rs_current_step_name := rs_current_step_name s; rs_current_step_started := v;
  rs_next_seq := rs_next_seq s |}.

Definition set_next_seq (v : Z) (s : RunState) : RunState := {|
  rs_correlation := rs_correlation s; rs_started_at := rs_started_at s; rs_params := rs_params s;
  rs_step_outputs := rs_step_outputs s; rs_step_timings := rs_step_timings s;
  rs_transitions := rs_transitions s; rs_failures := rs_failures s;
  rs_active_episode := rs_active_episode s; rs_phase := rs_phase s;
  rs_current_step_name := rs_current_step_name s;
  rs_current_step_started := rs_current_step_started s; rs_next_seq := v |}.

(** The mutable part of a run: [m_invocations] is the runner's [_invocations]. *)
Record machine (W : Type) := Machine {
  m_state : RunState;
  m_invocations : Z;
  m_world : W;
}.
Arguments Machine {W}.
Arguments m_state {W}.
Arguments m_invocations {W}.
Arguments m_world {W}.

(** ** The monad *)

Definition M (W A : Type) : Type := machine W -> res A * machine W.

#[export] Instance M_ret W : MRet (M W) := fun A a m => (Ok a, m).

#[export] Instance M_bind W : MBind (M W) := fun A B f c m =>
  match c m with
  | (Ok a, m) => f a m
  | (Raise e, m) => (Raise e, m)
  end.

#[export] Instance M_fmap W : FMap (M W) := fun A B f c m =>
  match c m with
  | (Ok a, m) => (Ok (f a), m)
  | (Raise e, m) => (Raise e, m)
  end.

Section monad.
Context {W : Type}.

(** A computation that does not touch the machine. *)
Definition lift {A} (r : res A) : M W A := fun m => (r, m).

Definition fail {A} (e : exn) : M W A := fun m => (Raise e, m).

(** [try: c except BaseException as e: h(e)] *)
Definition attempt {A} (c : M W A) (h : exn -> M W A) : M W A := fun m =>
  match c m with
  | (Ok a, m) => (Ok a, m)
  | (Raise e, m) => h e m
  end.

Definition reads {A} (f : RunState -> A) : M W A := fun m => (Ok (f (m_state m)), m).

Definition writes (f : RunState -> RunState) : M W unit := fun m =>
  (Ok tt, Machine (f (m_state m)) (m_invocations m) (m_world m)).

(** A call of the outside world. *)
Definition external {A} (f : W -> res A * W) : M W A := fun m =>
  let (r, w) := f (m_world m) in (r, Machine (m_state m) (m_invocations m) w).

Definition observe {A} (f : W -> A) : M W A := fun m => (Ok (f (m_world m)), m).

Definition when (b : bool) (c : M W unit) : M W unit := if b then c else mret tt.
End monad.

(** ** The executor *)

Record CacheDirective := {
  cd_resource : string;
  cd_key : raw;
  cd_ttl_sec : option Z;
}.

Record StepInvocation := {
  iv_step_name : string;
  iv_service_name : string;
  iv_action : string;
  iv_input : json;
  iv_globals : list (string * json);
  iv_cache : option CacheDirective;
  iv_input_schema : option json;
  iv_output_schema : option json;
  iv_required_resources : list string;
}.

Record StepResult (A : Type) := {
  sr_data : A;
  sr_cache : option string;
}.
Arguments sr_data {A}.
Arguments sr_cache {A}.

(** What the runner uses of a [ResolvedService]. *)
Record ResolvedService := {
  sv_name : string;
  sv_params : list (string * raw);
}.

(** [StepExecutor], with the outside world as a value.  [wait_for_event] returns [None]
    for [TIMED_OUT].  [next_completion] tells which of several running calls completes
    next, and [cancel_calls] what becomes of running calls that are cancelled. *)
Class StepExecutor (W : Type) := {
  run_step : StepInvocation -> ResolvedService -> W -> res (StepResult raw) * W;
  run_evaluator : string -> json -> list string -> string -> W -> res bool * W;
  wait_for_event : string -> num -> W -> res (option raw) * W;
  sleep : Z -> W -> res unit * W;
  validate_contract : json -> json -> string -> string -> W -> res unit * W;
  run_subworkflow : string -> string -> list (string * json) -> W -> res raw * W;
  archive : string -> raw -> string -> string -> json -> W -> res unit * W;
  observe_history : W -> HistoryObservation;
  now : W -> spec_float;
  next_completion : nat -> W -> nat * W;
  cancel_calls : nat -> W -> W;
}.

(** The [datetime] module: [datetime.fromtimestamp(ts, tz=UTC).isoformat()], and
    [datetime.fromisoformat(text)] with whether the value carries an offset and its
    [timestamp()]. *)
Record iso_deadline := {
  dl_aware : bool;
  dl_timestamp : spec_float;
}.

Class DateTime := {
  iso : spec_float -> string;
  fromisoformat : string -> option iso_deadline;
}.

(** [int((completed - started) * 1000)] *)
Definition duration_ms (started completed : spec_float) : res Z :=
  float_to_int (float_mul (float_sub completed started) (float_of_Z 1000)).

(** ** The runner *)

(** The constructor arguments of [FlowRunner]; [fr_identity] holds the identity
    arguments as given. *)
Record FlowRunner := {
  fr_config : WorkflowConfig;
  fr_services : list (string * ResolvedService);
  fr_identity : CorrelationIdentity;
  fr_limits : RuntimeLimits;
  fr_bounded_execution : bool;
  fr_timezone_aware : bool;
}.

Definition AUDIT_VERSION : Z := 4.
Definition ERROR_ALIAS : string := "error".

(** [self._flow_steps] *)
Definition flow_steps (r : FlowRunner) : list (string * FlowStep) := steps_dict (fr_config r).

Definition key_error {A} (key : string) : res A := raise KeyError (repr_string key).

(** [d[key]] *)
Definition get_item {V} (key : string) (d : list (string * V)) : res V :=
  match dict_get key d with Some v => Ok v | None => key_error key end.

Definition definition_error {A} (kind : FlowErrorKind) (msg : string) : res A :=
  raise (FlowDefinitionError kind) msg.

(** [except ... as e: raise FlowDefinitionError(f"Step '{step.name}': {e}", RESOLUTION_ERROR) from e] *)
Definition resolution_error {A} (handled : exn -> bool) (prefix : string) (r : res A) : res A :=
  catch r (fun e =>
    if handled e then raise_from (FlowDefinitionError RESOLUTION_ERROR) (prefix +:+ exn_msg e) e
    else Raise e).

Definition step_prefix (step : FlowStep) : string := "Step " +:+ quoted (st_name step) +:+ ": ".

Definition is_resolution_error (e : exn) : bool := is_reference_error e || is_condition_error e.

(** *** Regions of the flow *)

Definition normal_successors (s : FlowStep) : list string :=
  opt_list (st_then s)
  ++ omap branch_target (branches s)
  ++ opt_list (st_wait_for s ≫= wf_on_timeout)
  ++ opt_list (st_on_exhausted s).

(** The worklist of [_reachable_from_entry], [_handler_region]; [stop] tells where the
    walk ends.  Each turn drops an entry or marks a step, which adds its successors. *)
Fixpoint region_loop (fuel : nat) (steps : list (string * FlowStep)) (skip stop : string -> bool)
    (pending : list string) (region : names) : names :=
  match fuel, pending with
  | S fuel, current :: pending =>
      match dict_get current steps with
      | Some step =>
          if bool_decide (current ∈ region) || skip current
          then region_loop fuel steps skip stop pending region
          else
            region_loop fuel steps skip stop
              (if stop current then pending else normal_successors step ++ pending)
              ({[ current ]} ∪ region)
      | None => region_loop fuel steps skip stop pending region
      end
  | _, _ => region
  end.

Definition region_fuel (steps : list (string * FlowStep)) : nat :=
  S (length (concat (map (fun kv => normal_successors kv.2) steps))).

Definition normal_region (r : FlowRunner) : names :=
  match wc_flow (fr_config r) with
  | [] => ∅
  | first :: _ =>
      region_loop (region_fuel (flow_steps r)) (flow_steps r) (fun _ => false) (fun _ => false)
        [st_name first] ∅
  end.

Definition handler_region (r : FlowRunner) (entry : string) : names :=
  let normal := normal_region r in
  region_loop (region_fuel (flow_steps r)) (flow_steps r)
    (fun n => bool_decide (n ∈ normal) && negb (bool_decide (n = entry)))
    (fun n => bool_decide (n ∈ normal)) [entry] ∅.

(** *** Storing outputs *)

(** [step_outputs[step.name][output_key] = result]; only an object accepts an item
    with a string key. *)
Definition set_item (key : string) (value container : json) : res json :=
  match container with
  | JDict d => Ok (JDict (dict_set key value d))
  | JList _ => raise TypeError "list indices must be integers or slices, not str"
  | j => raise TypeError (quoted (json_type_name j) +:+ " object does not support item assignment")
  end.

Definition store_output (step : FlowStep) (result : json) (outputs : list (string * json))
  : res (list (string * json)) :=
  let output_key := default (st_name step) (st_output step) in
  let container := default (JDict []) (dict_get (st_name step) outputs) in
  container ← set_item output_key result container;
  Ok (dict_set output_key result (dict_set (st_name step) container outputs)).

(** What one item of an iteration gave: a value, or an exception the strategy lets
    pass; and what an iteration has gathered, with the count of failures. *)
Abbreviation item_outcome := (iteration_key * res json)%type.
Abbreviation iteration_progress := (list IterationResultCheckpoint * nat)%type.

Section runner.
Context {W : Type} {E : StepExecutor W} `{DateTime} `{FloatRepr} `{PyParser}.
Variable r : FlowRunner.

Abbreviation config := (fr_config r).
Abbreviation limits := (fr_limits r).

Definition iso_now : M W string := observe (fun w => iso (now w)).

(** *** Invocations *)

(** One [_invoke] between its start and the executor's answer. *)
Inductive prepared_call :=
| CallWorkflow (workflow step_name : string) (globals : list (string * json))
| CallService (invocation : StepInvocation) (service : ResolvedService).

Definition count_invocation : M W unit := fun m =>
  let n := (m_invocations m + 1)%Z in
  (enforce_limit n (total_invocations limits) TOTAL_INVOCATIONS "workflow.step_invocations",
   Machine (m_state m) n (m_world m)).

(** [_invoke] up to the call of the executor. *)
Definition begin_invoke (step_def : StepDefinition) (step_name : string) (resolved_input : json)
    (merged_globals params : list (string * json)) : M W prepared_call :=
  _ ← count_invocation;
  match sd_target step_def with
  | ChildWorkflowTarget workflow =>
      mret (CallWorkflow workflow step_name
        match resolved_input with
        | JNull => merged_globals
        | input => dict_set "input" input merged_globals
        end)
  | ServiceOperationTarget service action =>
      cache ← match sd_cache step_def with
        | Some c =>
            key ← lift (interpolate_params (RStr (cc_key c)) params);
            mret (Some {| cd_resource := cc_resource c; cd_key := key; cd_ttl_sec := cc_ttl_sec c |})
        | None => mret None
        end;
      resolved ← lift (get_item service (fr_services r));
      mret (CallService {|
        iv_step_name := step_name; iv_service_name := service; iv_action := action;
        iv_input := resolved_input; iv_globals := merged_globals; iv_cache := cache;
        iv_input_schema := sd_input_schema step_def; iv_output_schema := sd_output_schema step_def;
        iv_required_resources := sd_required_resources step_def |} resolved)
  end.

(** [_invoke] from the executor's answer on. *)
Definition end_invoke (call : prepared_call) : M W (StepResult json) :=
  match call with
  | CallWorkflow workflow step_name globals =>
      raw_child_record ← external (run_subworkflow workflow step_name globals);
      child_record ← lift (normalize_value ("steps." +:+ step_name +:+ ".child_record")
                             (collection_items limits) raw_child_record);
      mret {| sr_data := match json_field "result" child_record with
                         | Some result => result | None => child_record end;
              sr_cache := None |}
  | CallService invocation service =>
      result ← external (run_step invocation service);
      data ← lift (normalize_value ("steps." +:+ iv_step_name invocation +:+ ".output")
                     (collection_items limits) (sr_data result));
      mret {| sr_data := data; sr_cache := sr_cache result |}
  end.

Definition invoke (step_def : StepDefinition) (step_name : string) (resolved_input : json)
    (merged_globals params : list (string * json)) : M W (StepResult json) :=
  call ← begin_invoke step_def step_name resolved_input merged_globals params;
  end_invoke call.

(** *** Checkpoints *)

Definition build_checkpoint (s : RunState) (invocations : Z) (next_step_name : string) (next_seq : Z)
    (loop : option LoopCheckpoint) : RunnerCheckpoint := {|
  ck_started_at := rs_started_at s;
  ck_params := rs_params s;
  ck_step_outputs := rs_step_outputs s;
  ck_step_timings := rs_step_timings s;
  ck_transitions := rs_transitions s;
  ck_failures := rs_failures s;
  ck_active_episode := rs_active_episode s;
  ck_next_step_name := next_step_name;
  ck_next_seq := next_seq;
  ck_invocations := invocations;
  ck_loop := loop;
|}.

Definition enforce_checkpoint (checkpoint : RunnerCheckpoint) : M W unit :=
  _ ← lift (enforce_payload_bytes (RunnerCheckpoint_dump checkpoint) "workflow.continuation.state"
              (workflow_state_bytes limits));
  observation ← observe observe_history;
  if ho_server_suggested observation || (history_events limits <=? ho_events observation)%Z
     || (history_bytes limits <=? ho_bytes observation)%Z
  then lift (raise (FlowContinuation checkpoint observation)
               "Workflow execution requires a fresh Temporal history")
  else mret tt.

Definition checkpoint_at (next_step_name : string) (next_seq : Z) (loop : option LoopCheckpoint)
  : M W unit := fun m =>
  enforce_checkpoint (build_checkpoint (m_state m) (m_invocations m) next_step_name next_seq loop) m.

Definition checkpoint_after_step (next_step_name : option string) (next_seq : Z) : M W unit :=
  match next_step_name with
  | Some next => when (fr_bounded_execution r) (checkpoint_at next next_seq None)
  | None => mret tt
  end.

Definition checkpoint_during_loop (step_name : string) (seq : Z) (loop : LoopCheckpoint) : M W unit :=
  when (fr_bounded_execution r) (checkpoint_at step_name seq (Some loop)).

(** *** Until loops *)

Definition reject_loop_cache (step : FlowStep) (step_def : StepDefinition) (loop_kind : string)
  : res unit :=
  match sd_cache step_def with
  | None => Ok tt
  | Some c => definition_error UNSAFE_LOOP_CACHE
      ("Step " +:+ quoted (st_name step) +:+ " uses operation "
       +:+ quoted (default "None" (st_op step)) +:+ " with " +:+ loop_kind
       +:+ ", but that operation declares cache resource=" +:+ quoted (cc_resource c)
       +:+ " key=" +:+ quoted (cc_key c))
  end.

(** The attempts from number [S completed] on, of which [remaining] are left. *)
Fixpoint until_attempts (remaining completed : nat) (step : FlowStep) (until : string)
    (step_def : StepDefinition) (resolved_input : json) (merged_globals outputs params : list (string * json))
    (seq : Z) (step_started : spec_float) (last : json) : M W (json * nat * bool) :=
  match remaining with
  | O => mret (last, completed, false)
  | S remaining =>
      let number := S completed in
      result ← sr_data <$> invoke step_def (st_name step +:+ "#" +:+ nat_to_string number)
                             resolved_input merged_globals params;
      satisfied ← lift (resolution_error is_condition_error (step_prefix step)
                          (evaluate_condition until result outputs params));
      if (satisfied : bool) then mret (result, number, true)
      else
        _ ← match remaining, st_interval_sec step with
            | S _, Some interval => external (sleep interval)
            | _, _ => mret tt
            end;
        _ ← checkpoint_during_loop (st_name step) seq (UntilLoop {|
              uc_step_name := st_name step; uc_started_at_epoch := step_started;
              uc_attempts_completed := number; uc_last_result := result |});
        until_attempts remaining number step until step_def resolved_input merged_globals outputs params
          seq step_started result
  end.

Definition run_until (step : FlowStep) (step_def : StepDefinition) (resolved_input : json)
    (merged_globals outputs params : list (string * json)) (seq : Z) (step_started : spec_float)
    (continuation : option UntilCheckpoint) : M W (json * nat * bool) :=
  _ ← lift (reject_loop_cache step step_def "until");
  match st_until step, st_max_iterations step with
  | Some until, Some max_iterations =>
      _ ← lift (enforce_limit max_iterations (loop_attempts limits) LOOP_ATTEMPTS
                  ("steps." +:+ st_name step +:+ ".max_iterations"));
      let completed := match continuation with Some c => uc_attempts_completed c | None => O end in
      let last := match continuation with Some c => uc_last_result c | None => JNull end in
      if (max_iterations <? Z.of_nat completed)%Z
      then lift (definition_error INVARIANT_VIOLATION
             ("Step " +:+ quoted (st_name step) +:+ " has an invalid until continuation attempt"))
      else until_attempts (Z.to_nat max_iterations - completed) completed step until step_def
             resolved_input merged_globals outputs params seq step_started last
  | _, _ => lift (definition_error INVARIANT_VIOLATION
      ("Step " +:+ quoted (st_name step) +:+ " has an invalid until-loop declaration"))
  end.

(** *** Waits *)

Definition deadline_epoch (value : json) : res spec_float :=
  match value with
  | JInt z => int_to_float z
  | JFloat f => Ok f
  | JStr s =>
      match fromisoformat s with
      | None => raise ValueError "expected a valid ISO-8601 deadline"
      | Some deadline =>
          if fr_timezone_aware r && negb (dl_aware deadline)
          then raise ValueError "ISO-8601 deadline must include 'Z' or an explicit UTC offset"
          else Ok (dl_timestamp deadline)
      end
  | j => raise TypeError
      ("expected an ISO-8601 string or epoch number, got " +:+ json_type_name j)
  end.

(** [except (ReferenceResolutionError, ValueError, TypeError)], with the subclasses of
    [ValueError]. *)
Definition is_deadline_error (e : exn) : bool :=
  match exn_cls e with
  | ReferenceResolutionError | ValueError | TypeError | ReferenceSyntaxError | PlaceholderSyntaxError
  | StrictJsonError | AuditCaptureError | AuditCaptureLimitError _ _ | ValidationError => true
  | _ => false
  end.

Definition run_wait (step : FlowStep) (outputs params : list (string * json)) : M W (option raw) :=
  match st_wait_for step with
  | None => lift (definition_error INVARIANT_VIOLATION
      ("Step " +:+ quoted (st_name step) +:+ " has no wait declaration"))
  | Some wait =>
      let declared := NInt <$> wf_timeout_sec wait in
      timeout ← match wf_timeout_until wait with
        | None => mret declared
        | Some reference =>
            current ← observe now;
            deadline ← lift (resolution_error is_deadline_error
              (step_prefix step +:+ "cannot resolve timeout_until " +:+ quoted (rp_value reference) +:+ ": ")
              (value ← resolve_reference reference outputs params; deadline_epoch value));
            let remaining := NFloat (float_sub deadline current) in
            mret (Some match declared with Some t => py_min t remaining | None => remaining end)
        end;
      match timeout with
      | None => lift (definition_error INVARIANT_VIOLATION
          ("Step " +:+ quoted (st_name step) +:+ " has an unbounded wait"))
      | Some t => external (wait_for_event (wf_signal wait) (py_max (NFloat (S754_zero false)) t))
      end
  end.

(** *** Choosing the next step *)

Definition transition (step : FlowStep) (matched target : string) : TransitionRecord :=
  {| tr_step := st_name step; tr_matched := matched; tr_target := target |}.

Fixpoint match_branches (step : FlowStep) (result : json) (outputs params : list (string * json))
    (l : list OnResultBranch) : M W (option string * option TransitionRecord) :=
  match l with
  | [] => mret (None, None)
  | branch :: l =>
      match br_default branch with
      | Some target => mret (Some target, Some (transition step "default" target))
      | None =>
          outcome ← match br_when branch with
            | None => lift (definition_error INVARIANT_VIOLATION
                ("Step " +:+ quoted (st_name step) +:+ " has an invalid result branch"))
            | Some (WhenEvaluator evaluator resources) =>
                b ← external (run_evaluator evaluator result resources (st_name step));
                mret (b, "evaluator:" +:+ evaluator)
            | Some (WhenExpression condition) =>
                b ← lift (evaluate_condition condition result outputs params);
                mret (b, condition)
            end;
          let '(matched_branch, matched) := outcome : bool * string in
          if matched_branch then
            match br_then branch with
            | None => lift (definition_error INVARIANT_VIOLATION
                ("Step " +:+ quoted (st_name step) +:+ " result branch has no target"))
            | Some target => mret (Some target, Some (transition step matched target))
            end
          else match_branches step result outputs params l
      end
  end.

Definition next_step (step : FlowStep) (result : json) (outputs params : list (string * json))
  : M W (option string * option TransitionRecord) :=
  if has_branches step then
    attempt (match_branches step result outputs params (branches step)) (fun e =>
      lift (resolution_error is_condition_error (step_prefix step) (Raise e)))
  else mret (st_then step, None).

(** *** Iteration *)

Definition resolve_iteration_items (step_name : string) (for_each_ref : ReferencePath)
    (resolved_input : json) (outputs params : list (string * json)) : res json :=
  let prefix := "Step " +:+ quoted step_name +:+ ": cannot resolve for_each "
                +:+ quoted (rp_value for_each_ref) +:+ ": " in
  items ← resolution_error (fun e => is_data_error e || is_reference_error e) prefix
    (if bool_decide (rp_root for_each_ref = INPUT_ROOT) then
       match rp_path for_each_ref with
       | [] => Ok resolved_input
       | path => resolve_json_path (json_raw resolved_input) path "input"
       end
     else resolve_reference for_each_ref outputs params);
  match items with
  | JList _ | JDict _ => Ok items
  | j => definition_error RESOLUTION_ERROR
      ("Step " +:+ quoted step_name +:+ ": for_each " +:+ quoted (rp_value for_each_ref)
       +:+ " resolved to " +:+ json_type_name j +:+ ", expected a list or dict")
  end.

(** The keys and values of an iteration. *)
Definition iteration_entries (items : json) : list (iteration_key * json) :=
  match items with
  | JList l => imap (fun i x => (KeyIndex (Z.of_nat i), x)) l
  | JDict d => map (fun kv => (KeyName kv.1, kv.2)) d
  | _ => []
  end.

Definition key_text (k : iteration_key) : string :=
  match k with KeyIndex i => Z_to_string i | KeyName s => s end.

Definition iteration_name (step : FlowStep) (k : iteration_key) : string :=
  st_name step +:+ "[" +:+ key_text k +:+ "]".

Definition append_result (step : FlowStep) (strategy : IterationFailStrategy) (o : item_outcome)
  : IterationResultCheckpoint :=
  match o with
  | (key, Ok value) => IncludedIterationResult key value
  | (key, Raise e) =>
      match strategy with
      | COLLECT =>
          let failure := classify_failure e PHASE_STEP (Some (iteration_name step key)) (Some STEP_FAILED) in
          IncludedIterationResult key (IterationFailure_dump (fd_cause_code failure) (fd_message failure))
      | _ => OmittedIterationResult key
      end
  end.

Definition count_failed (l : list item_outcome) : nat :=
  length (List.filter (fun o => negb (is_ok o.2)) l).

(** [_append_iteration_results]: the entries to append and the failures among them. *)
Definition append_iteration_results (step : FlowStep) (strategy : IterationFailStrategy)
    (outcomes : list item_outcome) : list IterationResultCheckpoint * nat :=
  (map (append_result step strategy) outcomes, count_failed outcomes).

(** [except Exception as exc: if is_cancellation(exc) or STOP: raise] *)
Definition escapes (strategy : IterationFailStrategy) (e : exn) : bool :=
  negb (is_exception e) || is_cancellation e || bool_decide (strategy = STOP).

(** The invocation of one item, [run_one], up to the executor's answer. *)
Definition begin_item (step : FlowStep) (step_def : StepDefinition) (resolved_input : json)
    (merged_globals params : list (string * json)) (entry : iteration_key * json) : M W prepared_call :=
  let '(key, item) := entry in
  begin_invoke step_def (iteration_name step key)
    (if isSome (st_as_var step) then item else resolved_input)
    (match st_as_var step with Some v => dict_set v item merged_globals | None => merged_globals end)
    params.

(** [outcome = exc] for an exception that does not escape. *)
Definition guard_item (strategy : IterationFailStrategy) (key : iteration_key) (c : M W json)
  : M W item_outcome :=
  attempt (v ← c; mret (key, Ok v)) (fun e =>
    if escapes strategy e then fail e else mret (key, Raise e)).

Definition run_item (step : FlowStep) (step_def : StepDefinition) (resolved_input : json)
    (merged_globals params : list (string * json)) (strategy : IterationFailStrategy)
    (entry : iteration_key * json) : M W item_outcome :=
  guard_item strategy entry.1
    (call ← begin_item step step_def resolved_input merged_globals params entry;
     sr_data <$> end_invoke call).

(** *** Parallel iteration *)

(** The tasks of one chunk, each with its position: those that wait for the semaphore in
    order, those whose call runs, and those that are done, in order of completion. *)
Record pool := {
  pl_waiting : list (nat * (iteration_key * json));
  pl_running : list (nat * iteration_key * prepared_call);
  pl_done : list (nat * item_outcome);
}.

(** The waiting tasks start in order while the semaphore has permits; a task that
    raises before its call gives its permit back at once. *)
Fixpoint start_tasks (step : FlowStep) (step_def : StepDefinition) (resolved_input : json)
    (merged_globals params : list (string * json)) (permits : nat)
    (waiting : list (nat * (iteration_key * json))) : M W pool :=
  match waiting, permits with
  | (i, entry) :: waiting', S permits' =>
      started ← attempt
        (inl <$> begin_item step step_def resolved_input merged_globals params entry)
        (fun e => mret (inr e));
      match (started : prepared_call + exn) with
      | inl call =>
          p ← start_tasks step step_def resolved_input merged_globals params permits' waiting';
          mret {| pl_waiting := pl_waiting p; pl_running := (i, entry.1, call) :: pl_running p;
                  pl_done := pl_done p |}
      | inr e =>
          p ← start_tasks step step_def resolved_input merged_globals params permits waiting';
          mret {| pl_waiting := pl_waiting p; pl_running := pl_running p;
                  pl_done := (i, (entry.1, Raise e)) :: pl_done p |}
      end
  | _, _ => mret {| pl_waiting := waiting; pl_running := []; pl_done := [] |}
  end.

(** The first completed task, if any, whose exception [asyncio.gather] raises. *)
Fixpoint escaping (strategy : IterationFailStrategy) (l : list (nat * item_outcome)) : option exn :=
  match l with
  | [] => None
  | (_, (_, Raise e)) :: l => if escapes strategy e then Some e else escaping strategy l
  | _ :: l => escaping strategy l
  end.

(** The call at one position of the running ones, and the others. *)
Definition pick_running (choice : nat) (running : list (nat * iteration_key * prepared_call))
  : option (nat * iteration_key * prepared_call * list (nat * iteration_key * prepared_call)) :=
  let position := choice `mod` length running in
  (fun c => (c, take position running ++ drop (S position) running)) <$> running !! position.

(** The event loop: a running call completes, its permit starts the next task, and the
    first exception that escapes cancels what still runs. *)
Fixpoint run_pool (fuel : nat) (step : FlowStep) (step_def : StepDefinition) (resolved_input : json)
    (merged_globals params : list (string * json)) (strategy : IterationFailStrategy) (p : pool)
  : M W (list (nat * item_outcome)) :=
  match escaping strategy (pl_done p) with
  | Some e => _ ← external (fun w => (Ok tt, cancel_calls (length (pl_running p)) w)); fail e
  | None =>
      match fuel with
      | O => mret (pl_done p)
      | S fuel =>
          choice ← external (fun w => let (n, w) := next_completion (length (pl_running p)) w in (Ok n, w));
          match pick_running choice (pl_running p) with
          | None => mret (pl_done p)
          | Some (i, key, call, running) =>
              outcome ← attempt (v ← end_invoke call; mret (key, Ok (sr_data v)))
                                (fun e => mret (key, Raise e));
              started ← start_tasks step step_def resolved_input merged_globals params 1 (pl_waiting p);
              run_pool fuel step step_def resolved_input merged_globals params strategy
                {| pl_waiting := pl_waiting started;
                   pl_running := running ++ pl_running started;
                   pl_done := pl_done p ++ (i, outcome) :: pl_done started |}
          end
      end
  end.

(** [await asyncio.gather( *tasks )] for one chunk: the outcomes in the order of the
    tasks. *)
Definition run_chunk (step : FlowStep) (step_def : StepDefinition) (resolved_input : json)
    (merged_globals params : list (string * json)) (strategy : IterationFailStrategy) (permits : nat)
    (entries : list (iteration_key * json)) : M W (list item_outcome) :=
  p ← start_tasks step step_def resolved_input merged_globals params permits
        (imap (fun i e => (i, e)) entries);
  completed ← run_pool (length entries) step step_def resolved_input merged_globals params strategy p;
  mret (omap (fun i => dict_get i completed) (seq 0 (length entries))).

(** *** The loop over the items *)

(** [_append_iteration_results] and the checkpoint that follows it. *)
Definition record_progress (step : FlowStep) (strategy : IterationFailStrategy) (seq : Z)
    (step_started : spec_float) (offset : nat) (outcomes : list item_outcome)
    (progress : iteration_progress) : M W iteration_progress :=
  let '(added, failed) := append_iteration_results step strategy outcomes in
  let progress := (progress.1 ++ added, (progress.2 + failed)%nat) in
  _ ← checkpoint_during_loop (st_name step) seq (IterationLoop {|
        ic_step_name := st_name step; ic_started_at_epoch := step_started;
        ic_next_offset := offset; ic_results := progress.1; ic_failed := progress.2 |});
  mret progress.

Fixpoint iterate_sequential (step : FlowStep) (step_def : StepDefinition) (resolved_input : json)
    (merged_globals params : list (string * json)) (strategy : IterationFailStrategy) (seq : Z)
    (step_started : spec_float) (offset : nat) (entries : list (iteration_key * json))
    (progress : iteration_progress) : M W iteration_progress :=
  match entries with
  | [] => mret progress
  | entry :: entries =>
      outcome ← run_item step step_def resolved_input merged_globals params strategy entry;
      progress ← record_progress step strategy seq step_started (S offset) [outcome] progress;
      iterate_sequential step step_def resolved_input merged_globals params strategy seq step_started
        (S offset) entries progress
  end.

(** The chunks of [chunk_items] entries each; every turn consumes one entry at least. *)
Fixpoint iterate_parallel (fuel : nat) (step : FlowStep) (step_def : StepDefinition) (resolved_input : json)
    (merged_globals params : list (string * json)) (strategy : IterationFailStrategy) (permits chunk_items : nat)
    (seq : Z) (step_started : spec_float) (offset : nat) (entries : list (iteration_key * json))
    (progress : iteration_progress) : M W iteration_progress :=
  match fuel, entries with
  | S fuel, _ :: _ =>
      let chunk := take chunk_items entries in
      outcomes ← run_chunk step step_def resolved_input merged_globals params strategy permits chunk;
      progress ← record_progress step strategy seq step_started (offset + length chunk) outcomes progress;
      iterate_parallel fuel step step_def resolved_input merged_globals params strategy permits chunk_items
        seq step_started (offset + length chunk) (drop chunk_items entries) progress
  | _, _ => mret progress
  end.

Definition included_values (l : list IterationResultCheckpoint) : list json :=
  omap (fun x => match x with IncludedIterationResult _ v => Some v | _ => None end) l.

Definition included_items (l : list IterationResultCheckpoint) : list (string * json) :=
  omap (fun x => match x with
                 | IncludedIterationResult (KeyName k) v => Some (k, v)
                 | _ => None
                 end) l.

(** The value of the step and the two counts of [stats]. *)
Definition iteration_result (items : json) (progress : iteration_progress) : json * (nat * nat) :=
  (match items with
   | JDict _ => JDict (dict_of_pairs (included_items progress.1))
   | _ => JList (included_values progress.1)
   end, (length (iteration_entries items), progress.2)).

(** [len(processed) != next_offset or next_offset > len(iter_keys)], and an entry whose
    key is not the one of its position. *)
Definition invalid_offset (continuation : option IterationCheckpoint) (keys : list iteration_key) : bool :=
  match continuation with
  | Some c => negb (length (ic_results c) =? ic_next_offset c)%nat || (length keys <? ic_next_offset c)%nat
  | None => false
  end.

Definition mismatched_keys (continuation : option IterationCheckpoint) (keys : list iteration_key) : bool :=
  match continuation with
  | Some c => negb (bool_decide (map result_key (ic_results c) = take (length (ic_results c)) keys))
  | None => false
  end.

Definition run_iteration (step : FlowStep) (for_each_ref : ReferencePath) (step_def : StepDefinition)
    (resolved_input : json) (merged_globals outputs params : list (string * json)) (seq : Z)
    (step_started : spec_float) (continuation : option IterationCheckpoint) : M W (json * (nat * nat)) :=
  _ ← lift (reject_loop_cache step step_def "for_each");
  let parallelism_ := if st_parallel step then st_max_concurrency step else None in
  _ ← lift (if st_parallel step && negb (isSome parallelism_)
            then definition_error INVARIANT_VIOLATION
              ("Parallel step " +:+ quoted (st_name step) +:+ " has no max_concurrency")
            else Ok tt);
  _ ← lift (match parallelism_ with
            | Some n => enforce_limit n (parallelism limits) PARALLELISM
                          ("steps." +:+ st_name step +:+ ".max_concurrency")
            | None => Ok tt
            end);
  items ← lift (resolve_iteration_items (st_name step) for_each_ref resolved_input outputs params);
  let entries := iteration_entries items in
  _ ← lift (enforce_limit (Z.of_nat (length entries)) (fanout_items limits) FANOUT_ITEMS
              ("steps." +:+ st_name step +:+ ".for_each"));
  let strategy := default STOP (st_on_iteration_fail step) in
  _ ← lift (if invalid_offset continuation (map fst entries)
            then definition_error INVARIANT_VIOLATION
              ("Step " +:+ quoted (st_name step) +:+ " has an invalid iteration continuation offset")
            else Ok tt);
  _ ← lift (if mismatched_keys continuation (map fst entries)
            then definition_error INVARIANT_VIOLATION
              ("Step " +:+ quoted (st_name step) +:+ " iteration continuation does not match its input")
            else Ok tt);
  let progress := match continuation with
                  | Some c => (ic_results c, ic_failed c) | None => ([], 0%nat) end in
  let offset := length progress.1 in
  let todo := drop offset entries in
  progress ← match parallelism_ with
    | Some n =>
        let chunk_items :=
          if fr_bounded_execution r then Z.to_nat (fanout_chunk_items limits)
          else match length entries with
               | O => Z.to_nat (fanout_chunk_items limits)
               | len => len
               end in
        iterate_parallel (length todo) step step_def resolved_input merged_globals params strategy
          (Z.to_nat n) chunk_items seq step_started offset todo progress
    | None =>
        iterate_sequential step step_def resolved_input merged_globals params strategy seq step_started
          offset todo progress
    end;
  mret (iteration_result items progress).

(** *** One turn of the flow loop *)

(** How one turn ends: at a terminal with its reason, or with the next step and the next
    sequence number. *)
Inductive turn :=
| Finished (reason : option string)
| Continue (next : option string) (seq : Z).

(** The end of a turn that goes on: the checkpoint after the step. *)
Definition continue_at (next : option string) (seq : Z) : M W turn :=
  _ ← checkpoint_after_step next seq; mret (Continue next seq).

Definition record_entry (step : FlowStep) (entry : StepAuditEntry) : M W unit :=
  writes (fun s => set_step_timings (dict_set (st_name step) (StepAuditEntry_dump entry) (rs_step_timings s)) s).

Definition record_transition (t : TransitionRecord) : M W unit :=
  writes (fun s => set_transitions (rs_transitions s ++ [t]) s).

Definition store (step : FlowStep) (result : json) : M W unit :=
  outputs ← reads rs_step_outputs;
  outputs ← lift (store_output step result outputs);
  writes (set_step_outputs outputs).

(** [current_step_name, decision = await self._next_step(...)], the decision recorded. *)
Definition advance (step : FlowStep) (result : json) (seq : Z) : M W turn :=
  outputs ← reads rs_step_outputs;
  params ← reads rs_params;
  choice ← next_step step result outputs params;
  _ ← match choice.2 with Some decision => record_transition decision | None => mret tt end;
  continue_at choice.1 seq.

Definition entry_sleep (seq sleep_sec : Z) : StepAuditEntry := {|
  se_seq := seq; se_status := "slept"; se_globals := None; se_input := None; se_output := None;
  se_started_at := None; se_duration_ms := None; se_condition := None; se_then := None;
  se_signal := None; se_sleep_sec := Some (JInt sleep_sec); se_attempts := None; se_cache := None;
  se_items_total := None; se_items_failed := None; se_code := None; se_message := None |}.

Definition entry_timed_out (seq : Z) (signal : string) : StepAuditEntry := {|
  se_seq := seq; se_status := "timed_out"; se_globals := None; se_input := None; se_output := None;
  se_started_at := None; se_duration_ms := None; se_condition := None; se_then := None;
  se_signal := Some (JStr signal); se_sleep_sec := None; se_attempts := None; se_cache := None;
  se_items_total := None; se_items_failed := None; se_code := None; se_message := None |}.

Definition entry_received (seq : Z) (signal : string) (output : json) (started_at : string) (duration : Z)
  : StepAuditEntry := {|
  se_seq := seq; se_status := "succeeded"; se_globals := None; se_input := None; se_output := Some output;
  se_started_at := Some (JStr started_at); se_duration_ms := Some (JInt duration); se_condition := None;
  se_then := None; se_signal := Some (JStr signal); se_sleep_sec := None; se_attempts := None;
  se_cache := None; se_items_total := None; se_items_failed := None; se_code := None; se_message := None |}.

Definition entry_skipped (seq : Z) (condition : string) (then_ : option string) : StepAuditEntry := {|
  se_seq := seq; se_status := "skipped"; se_globals := None; se_input := None; se_output := None;
  se_started_at := None; se_duration_ms := None; se_condition := Some (JStr condition);
  se_then := Some (nullable (opt_str then_)); se_signal := None; se_sleep_sec := None; se_attempts := None;
  se_cache := None; se_items_total := None; se_items_failed := None; se_code := None; se_message := None |}.

Definition entry_failed (seq : Z) (failure : FailureDetail) (started_at : option string) : StepAuditEntry := {|
  se_seq := seq; se_status := "failed"; se_globals := None; se_input := None; se_output := None;
  se_started_at := Some (nullable (opt_str started_at)); se_duration_ms := None; se_condition := None;
  se_then := None; se_signal := None; se_sleep_sec := None; se_attempts := None; se_cache := None;
  se_items_total := None; se_items_failed := None; se_code := Some (JStr (fd_code failure));
  se_message := Some (JStr (fd_message failure)) |}.

Definition count_json (n : nat) : json := JInt (Z.of_nat n).

Definition entry_executed (seq : Z) (exhausted : bool) (globals : list (string * json)) (input output : json)
    (started_at : string) (duration : Z) (stats : option (nat * nat)) (attempts : option nat)
    (cache : option string) : StepAuditEntry := {|
  se_seq := seq; se_status := if exhausted then "exhausted" else "succeeded";
  se_globals := Some (JDict globals); se_input := Some input; se_output := Some output;
  se_started_at := Some (JStr started_at); se_duration_ms := Some (JInt duration); se_condition := None;
  se_then := None; se_signal := None; se_sleep_sec := None; se_attempts := count_json <$> attempts;
  se_cache := opt_str cache; se_items_total := (fun p => count_json p.1) <$> stats;
  se_items_failed := (fun p => count_json p.2) <$> stats; se_code := None; se_message := None |}.

Definition turn_sleep (step : FlowStep) (seq sleep_sec : Z) : M W turn :=
  _ ← external (sleep sleep_sec);
  _ ← record_entry step (entry_sleep seq sleep_sec);
  continue_at (st_then step) (seq + 1).

Definition turn_wait (step : FlowStep) (wait : WaitForConfig) (seq : Z) : M W turn :=
  step_started ← observe now;
  outputs ← reads rs_step_outputs;
  params ← reads rs_params;
  payload ← run_wait step outputs params;
  match payload with
  | None =>
      _ ← record_entry step (entry_timed_out seq (wf_signal wait));
      match wf_on_timeout wait with
      | None => lift (definition_error WAIT_TIMEOUT
          (step_prefix step +:+ "no " +:+ quoted (wf_signal wait)
           +:+ " event within the configured bound and no on_timeout target"))
      | Some target =>
          _ ← record_transition (transition step "timeout" target);
          continue_at (Some target) (seq + 1)
      end
  | Some payload =>
      payload ← lift (normalize_value ("steps." +:+ st_name step +:+ ".output") (collection_items limits) payload);
      _ ← store step payload;
      completed ← observe now;
      duration ← lift (duration_ms step_started completed);
      _ ← record_entry step (entry_received seq (wf_signal wait) payload (iso step_started) duration);
      advance step payload (seq + 1)
  end.

(** What an operation step yields: its result, the counts of an iteration, the attempts of
    an until loop, whether the loop ended unsatisfied, and the cache state. *)
Record operation_outcome := {
  oo_result : json;
  oo_stats : option (nat * nat);
  oo_attempts : option nat;
  oo_exhausted : bool;
  oo_cache : option string;
}.

Definition run_operation (step : FlowStep) (step_def : StepDefinition) (resolved_input : json)
    (merged_globals : list (string * json)) (seq : Z) (step_started : spec_float)
    (loop : option LoopCheckpoint) : M W operation_outcome :=
  outputs ← reads rs_step_outputs;
  params ← reads rs_params;
  match st_for_each step, st_until step with
  | Some reference, _ =>
      out ← run_iteration step reference step_def resolved_input merged_globals outputs params seq step_started
              match loop with Some (IterationLoop c) => Some c | _ => None end;
      mret {| oo_result := out.1; oo_stats := Some out.2; oo_attempts := None; oo_exhausted := false;
              oo_cache := None |}
  | None, Some _ =>
      out ← run_until step step_def resolved_input merged_globals outputs params seq step_started
              match loop with Some (UntilLoop c) => Some c | _ => None end;
      let '(result, attempts, satisfied) := out : json * nat * bool in
      mret {| oo_result := result; oo_stats := None; oo_attempts := Some attempts;
              oo_exhausted := negb satisfied; oo_cache := None |}
  | None, None =>
      out ← invoke step_def (st_name step) resolved_input merged_globals params;
      mret {| oo_result := sr_data out; oo_stats := None; oo_attempts := None; oo_exhausted := false;
              oo_cache := sr_cache out |}
  end.

(** [_step_failure] *)
Definition step_failure (failure : FailureDetail) : res StepFailure :=
  match fd_step failure with
  | None => raise ValueError "Step failure requires a step identity"
  | Some step => Ok {| sf_step := step; sf_code := fd_code failure; sf_cause_code := fd_cause_code failure;
                       sf_message := fd_message failure |}
  end.

(** [sorted(set(unresolved))] as text. *)
Definition py_repr_names (l : list string) : string :=
  "[" +:+ string_join ", " (map repr_string (sorted_names (list_to_set l))) +:+ "]".

Definition option_text (o : option string) : string := default "None" o.

(** What the handlers do not see: configuration errors, cancellation and exceptions that
    are not an [Exception]. *)
Definition bypasses_handlers (e : exn) : bool :=
  is_flow_definition_error e || negb (is_exception e) || is_cancellation e.

(** The [except] clauses around the execution of an operation. *)
Definition handle_failure (step : FlowStep) (seq : Z) (step_started : spec_float) (e : exn) : M W turn :=
  if bypasses_handlers e then fail e else
  episode ← reads rs_active_episode;
  match (episode : option FailureEpisode) with
  | Some episode =>
      let handler_failure := classify_failure e PHASE_HANDLER (Some (st_name step)) (Some HANDLER_FAILED) in
      lift (raise_from (HandlerFailure (ep_primary episode) handler_failure)
        ("Handler step " +:+ quoted (option_text (fd_step handler_failure)) +:+ " failed while handling "
         +:+ quoted (option_text (fd_step (ep_primary episode)))) e)
  | None =>
      match failure_handler config step with
      | None => fail e
      | Some handler =>
          let failure := classify_failure e PHASE_STEP (Some (st_name step)) (Some STEP_FAILED) in
          recorded ← lift (step_failure failure);
          _ ← writes (fun s => set_failures (rs_failures s ++ [recorded]) s);
          _ ← record_entry step (entry_failed seq failure (Some (iso step_started)));
          _ ← writes (fun s => set_step_outputs
                (dict_set ERROR_ALIAS (dump_step_failure recorded) (rs_step_outputs s)) s);
          _ ← record_transition (transition step "error" handler);
          _ ← writes (set_active_episode (Some {|
                ep_primary := failure; ep_handler := handler;
                ep_handler_steps := elements (handler_region r handler) |}));
          continue_at (Some handler) (seq + 1)
      end
  end.

(** The step after its operation has returned. *)
Definition complete_operation (step : FlowStep) (resolved_input : json) (merged_globals : list (string * json))
    (seq : Z) (step_started : spec_float) (out : operation_outcome) : M W turn :=
  _ ← (if oo_exhausted out then mret tt else store step (oo_result out));
  completed ← observe now;
  duration ← lift (duration_ms step_started completed);
  _ ← record_entry step (entry_executed seq (oo_exhausted out) merged_globals resolved_input (oo_result out)
        (iso step_started) duration (oo_stats out) (oo_attempts out) (oo_cache out));
  if oo_exhausted out then
    match st_on_exhausted step with
    | None => lift (definition_error LOOP_EXHAUSTED
        (step_prefix step +:+ "until " +:+ quoted (option_text (st_until step)) +:+ " unsatisfied after "
         +:+ match st_max_iterations step with Some n => Z_to_string n | None => "None" end
         +:+ " attempts and no on_exhausted target"))
    | Some target =>
        _ ← record_transition (transition step "exhausted" target);
        continue_at (Some target) (seq + 1)
    end
  else advance step (oo_result out) (seq + 1).

(** [service.params] of a service operation. *)
Definition service_params (target : StepTarget) : res (list (string * raw)) :=
  match target with
  | ServiceOperationTarget service _ => sv_params <$> get_item service (fr_services r)
  | ChildWorkflowTarget _ => Ok []
  end.

Definition merge_globals (step : FlowStep) (step_def : StepDefinition) (service : list (string * raw))
    (params : list (string * json)) : res (list (string * json)) :=
  interpolated ← interpolate_params
    (raw_fields (dict_update (dict_update service (sd_params step_def)) (st_params step))) params;
  normalize_json_object ("steps." +:+ st_name step +:+ ".globals") (collection_items limits) interpolated.

(** The input of the step, and whether its condition holds. *)
Definition resolve_step (step : FlowStep) (outputs params : list (string * json)) : res (json * bool) :=
  resolution_error is_resolution_error (step_prefix step)
    (resolved_input ← resolve_input (st_input step) outputs params;
     holds ← match st_condition step with
             | Some condition => evaluate_condition condition resolved_input outputs params
             | None => Ok true
             end;
     Ok (resolved_input, holds)).

Definition turn_operation (step : FlowStep) (seq : Z) (loop : option LoopCheckpoint) : M W turn :=
  step_started ← match loop with
    | Some l => mret (loop_started_at_epoch l)
    | None => observe now
    end;
  _ ← writes (set_current_step_started (Some step_started));
  match st_op step with
  | None => lift (definition_error INVARIANT_VIOLATION
      ("Non-terminal step " +:+ quoted (st_name step) +:+ " has no operation"))
  | Some op =>
      step_def ← lift (get_item op (wc_steps config));
      service ← lift (service_params (sd_target step_def));
      params ← reads rs_params;
      merged_globals ← lift (merge_globals step step_def service params);
      outputs ← reads rs_step_outputs;
      resolved ← lift (resolve_step step outputs params);
      let '(resolved_input, holds) := resolved : json * bool in
      if holds then
        result ← attempt
          (inl <$> run_operation step step_def resolved_input merged_globals seq step_started loop)
          (fun e => inr <$> handle_failure step seq step_started e);
        match (result : operation_outcome + turn) with
        | inl out => complete_operation step resolved_input merged_globals seq step_started out
        | inr t => mret t
        end
      else
        _ ← record_entry step (entry_skipped seq (option_text (st_condition step)) (st_then step));
        continue_at (st_then step) (seq + 1)
  end.

(** [checkpoint_matches_step and checkpoint_matches_kind] *)
Definition loop_matches (step : FlowStep) (loop : LoopCheckpoint) : bool :=
  bool_decide (loop_step_name loop = st_name step) &&
  match loop with
  | IterationLoop _ => isSome (st_for_each step)
  | UntilLoop _ => isSome (st_until step)
  end.

(** The head of a turn: the phase and the current step are noted, and an episode ends
    when the flow leaves the steps of its handler. *)
Definition enter_step (name : string) (seq : Z) (s : RunState) : RunState :=
  let s := set_next_seq seq (set_current_step_started None
             (set_current_step_name (Some name) (set_phase PHASE_STEP s))) in
  match rs_active_episode s with
  | Some episode =>
      if bool_decide (name ∈ ep_handler_steps episode) then s else set_active_episode None s
  | None => s
  end.

Definition run_turn (name : string) (seq : Z) (loop : option LoopCheckpoint) : M W turn :=
  _ ← writes (enter_step name seq);
  step ← lift (get_item name (flow_steps r));
  _ ← lift (match loop with
            | Some l => if loop_matches step l then Ok tt
                        else definition_error INVARIANT_VIOLATION
                          ("Workflow continuation does not match step " +:+ quoted (st_name step))
            | None => Ok tt
            end);
  if st_terminal step then mret (Finished (st_reason step))
  else match st_sleep_sec step, st_wait_for step with
       | Some sleep_sec, _ => turn_sleep step seq sleep_sec
       | None, Some wait => turn_wait step wait seq
       | None, None => turn_operation step seq loop
       end.

(** [while current_step_name: ...]; [None] when the fuel does not suffice. *)
Fixpoint run_flow (fuel : nat) (current : option string) (seq : Z) (loop : option LoopCheckpoint)
    (m : machine W) : option (res (option string) * machine W) :=
  match current with
  | None => Some (definition_error INVARIANT_VIOLATION
      ("Workflow " +:+ quoted (wc_workflow config)
       +:+ " exhausted control flow without reaching an explicit terminal"), m)
  | Some name =>
      match fuel with
      | O => None
      | S fuel =>
          match run_turn name seq loop m with
          | (Ok (Finished reason), m) => Some (Ok reason, m)
          | (Ok (Continue next seq), m) => run_flow fuel next seq None m
          | (Raise e, m) => Some (Raise e, m)
          end
      end
  end.

(** *** The beginning and the end of a run *)

(** [_build_params] *)
Definition build_params (request_id : string) (trigger_globals : list (string * json))
  : res (list (string * json)) :=
  let params := dict_set "request_id" (JStr request_id)
    (dict_update (map (fun kv => (kv.1, JStr kv.2)) (wc_params config)) trigger_globals) in
  interpolated ← interpolate_params (json_raw (JDict params)) params;
  params ← normalize_json_object "workflow.params" (collection_items limits) interpolated;
  unresolved ← find_unresolved_placeholders (json_raw (JDict params));
  match unresolved with
  | [] => Ok params
  | _ => definition_error MISSING_PARAMS
      ("Workflow params contain unresolved placeholders "
       +:+ py_repr_names unresolved
       +:+ "; the trigger message must supply them in 'globals'")
  end.

(** [_execute] up to the flow loop, of a run without a checkpoint. *)
Definition start_run (request_id : string) (trigger_globals : raw) : M W unit :=
  _ ← writes (set_phase PHASE_WORKFLOW_INPUT);
  globals ← lift (normalize_json_object "trigger.globals" (collection_items limits) trigger_globals);
  _ ← lift (enforce_payload_bytes (JDict globals) "workflow.trigger" (trigger_payload_bytes limits));
  _ ← match wc_input_schema config with
      | Some schema =>
          external (validate_contract schema (JDict globals) "workflow input" (wc_workflow config))
      | None => mret tt
      end;
  _ ← writes (set_phase PHASE_PARAMETERS);
  params ← lift (build_params request_id globals);
  writes (set_params params).

(** [AuditRecord.dump] of the record that [_execute] assembles; [result] is present when
    it was set. *)
Definition audit_record (s : RunState) (request_id : string) (reason : option string)
    (completed_at : string) (result : option json) : list (string * json) :=
  let i := fr_identity r in
  let failed := match rs_failures s with [] => false | _ => true end in
  omap (fun kv => pair kv.1 <$> kv.2)
    [("audit_version", Some (JInt AUDIT_VERSION));
     ("serialization_version", Some (JInt STRICT_JSON_VERSION));
     ("request_id", Some (JStr request_id)); ("workflow", Some (JStr (wc_workflow config)));
     ("definition_digest", opt_str (co_definition_digest i));
     ("worker_deployment", opt_str (co_worker_deployment i));
     ("worker_build_id", opt_str (co_worker_build_id i)); ("worker_artifact", co_worker_artifact i);
     ("environment_snapshot_digest", opt_str (co_environment_snapshot_digest i));
     ("trigger_source", opt_str (co_trigger_source i)); ("trigger_name", opt_str (co_trigger_name i));
     ("source_identity_digest", opt_str (co_source_identity_digest i));
     ("correlation_identity_digest", opt_str (co_correlation_identity_digest i));
     ("scope_digest", opt_str (co_scope_digest i));
     ("execution_configuration", co_execution_configuration i);
     ("status", Some (JStr (if isSome reason then "terminated"
                            else if failed then "recovered" else "completed")));
     ("reason", Some (nullable (opt_str reason))); ("params", Some (JDict (rs_params s)));
     ("steps", Some (JDict (rs_step_timings s)));
     ("transitions", Some (JList (map dump_transition (rs_transitions s))));
     ("started_at", Some (JStr (rs_started_at s))); ("completed_at", Some (JStr completed_at));
     ("error", if failed then dump_step_failure <$> last (rs_failures s) else None);
     ("failures", if failed then Some (JList (map dump_step_failure (rs_failures s))) else None);
     ("result", result)].

(** The result of the workflow, checked against its contract and bound. *)
Definition resolve_result (reason : option string) : M W (option json) :=
  match wc_result config with
  | None => mret None
  | Some reference =>
      outputs ← reads rs_step_outputs;
      params ← reads rs_params;
      match resolve_reference reference outputs params with
      | Raise e =>
          if is_reference_error e then
            if isSome reason then mret None
            else lift (raise_from (FlowDefinitionError INVARIANT_VIOLATION)
              ("Workflow result " +:+ quoted (rp_value reference)
               +:+ " is unavailable at normal completion") e)
          else fail e
      | Ok result =>
          _ ← match wc_output_schema config with
              | Some schema =>
                  external (validate_contract schema result "workflow output" (wc_workflow config))
              | None => mret tt
              end;
          _ ← lift (enforce_payload_bytes result "workflow.result" (workflow_output_bytes limits));
          mret (Some result)
      end
  end.

(** [if self._config.on_complete: ...] *)
Definition archive_record (record : list (string * json)) : M W unit :=
  match wc_on_complete config with
  | None => mret tt
  | Some on_complete =>
      _ ← writes (set_phase PHASE_ARCHIVE);
      captured ← lift (capture_audit_record record (oc_capture on_complete));
      _ ← lift (enforce_payload_bytes (JDict captured) "workflow.archive" (audit_record_bytes limits));
      params ← reads rs_params;
      path ← lift (interpolate_params (RStr (oc_path on_complete)) params);
      external (archive (oc_resource on_complete) path (oc_retention_policy on_complete)
                  (capture_mode (oc_capture on_complete)) (JDict captured))
  end.

(** [_execute] from the end of the flow loop on. *)
Definition finish_run (request_id : string) (reason : option string) : M W json :=
  _ ← writes (set_active_episode None);
  completed_at ← iso_now;
  s ← reads (fun s => s);
  _ ← writes (set_phase PHASE_RESULT);
  result ← resolve_result reason;
  let record := audit_record s request_id reason completed_at result in
  _ ← lift (enforce_payload_bytes (JDict record) "workflow.audit" (audit_record_bytes limits));
  _ ← lift (enforce_payload_bytes (JDict record) "workflow.output" (workflow_output_bytes limits));
  _ ← archive_record record;
  mret (JDict record).

Definition execute (fuel : nat) (trigger_globals : raw) (checkpoint : option RunnerCheckpoint)
    (m : machine W) : option (res json * machine W) :=
  match co_request_id (rs_correlation (m_state m)) with
  | None => Some (definition_error INVARIANT_VIOLATION "Workflow execution requires a request id", m)
  | Some request_id =>
      match match checkpoint with
            | Some _ => (Ok tt, m)
            | None => start_run request_id trigger_globals m
            end with
      | (Raise e, m) => Some (Raise e, m)
      | (Ok _, m) =>
          match wc_flow config with
          | [] => Some (definition_error INVARIANT_VIOLATION
              ("Workflow " +:+ quoted (wc_workflow config) +:+ " has no entry step"), m)
          | first :: _ =>
              let entry := match checkpoint with
                | Some c => (Some (ck_next_step_name c), ck_next_seq c, ck_loop c)
                | None => (Some (st_name first), 0%Z, None)
                end in
              match run_flow fuel entry.1.1 entry.1.2 entry.2 m with
              | None => None
              | Some (Raise e, m) => Some (Raise e, m)
              | Some (Ok reason, m) => Some (finish_run request_id reason m)
              end
          end
      end
  end.

(** *** Failures that no handler takes *)

(** [entry.get("status") == "failed"] *)
Definition entry_is_failed (entry : json) : bool :=
  match json_field "status" entry with Some (JStr "failed") => true | _ => false end.

Definition record_unhandled_step (failure : FailureDetail) (s : RunState) : RunState :=
  match fd_step failure with
  | None => s
  | Some step =>
      if match dict_get step (rs_step_timings s) with Some e => entry_is_failed e | None => false end
      then s
      else set_step_timings
        (dict_set step (StepAuditEntry_dump (entry_failed (rs_next_seq s) failure
          (iso <$> rs_current_step_started s))) (rs_step_timings s)) s
  end.

(** The primary failure where one is active, the secondary ones, and the failure of the
    step that ran. *)
Definition attribute_failure (e : exn) (s : RunState)
  : option FailureDetail * list FailureDetail * FailureDetail :=
  let step_name := if decide (rs_phase s = PHASE_STEP) then rs_current_step_name s else None in
  match exn_cls e, rs_active_episode s with
  | HandlerFailure primary handler, _ => (Some primary, [handler], handler)
  | _, Some episode =>
      let handler_failure := classify_failure e PHASE_HANDLER (rs_current_step_name s) (Some HANDLER_FAILED) in
      (Some (ep_primary episode), [handler_failure], handler_failure)
  | _, None => (None, [], classify_failure e (rs_phase s) step_name None)
  end.

(** [_build_execution_error] *)
Definition execution_error (e : exn) : M W exn :=
  s ← reads (fun s => s);
  let step_name := if decide (rs_phase s = PHASE_STEP) then rs_current_step_name s else None in
  let '(primary, secondary, failure_for_step) := attribute_failure e s in
  _ ← writes (record_unhandled_step failure_for_step);
  s ← reads (fun s => s);
  failed_at ← iso_now;
  mret (build_execution_error e (rs_correlation s) (rs_phase s) AUDIT_VERSION (rs_started_at s) failed_at
          step_name (rs_step_timings s) (rs_transitions s) primary secondary None
          (failure_record_bytes limits) None).

(** The [try] block of [_archive_failure]. *)
Definition archive_failure_record (on_complete : OnCompleteConfig) (record : FailureRecord) (s : RunState)
  : M W unit :=
  let archive_params := match co_request_id (rs_correlation s) with
    | Some request_id => dict_setdefault "request_id" (JStr request_id) (rs_params s)
    | None => rs_params s
    end in
  path ← lift (interpolate_params (RStr (oc_path on_complete)) archive_params);
  unresolved ← lift (find_unresolved_placeholders path);
  _ ← lift (match unresolved with
            | [] => Ok tt
            | _ => definition_error MISSING_PARAMS
                ("Failure archive path has unresolved placeholders " +:+ py_repr_names unresolved)
            end);
  captured ← lift (capture_audit_record
    (match FailureRecord_dump record with JDict d => d | _ => [] end) (oc_capture on_complete));
  external (archive (oc_resource on_complete) path (oc_retention_policy on_complete)
              (capture_mode (oc_capture on_complete)) (JDict captured)).

Definition archive_failure (failure : exn) : M W exn :=
  s ← reads (fun s => s);
  match wc_on_complete config, exn_cls failure with
  | Some on_complete, FlowExecutionError classification record _ secondary_failures =>
      if decide (rs_phase s = PHASE_ARCHIVE) then mret failure else
      attempt (_ ← archive_failure_record on_complete record s; mret failure) (fun archive_exc =>
        if is_cancellation archive_exc || negb (is_exception archive_exc) then fail archive_exc else
        let archive_failure := classify_failure archive_exc PHASE_ARCHIVE None (Some ARCHIVAL_FAILED) in
        failed_at ← iso_now;
        mret (build_execution_error archive_exc (rs_correlation s) (fd_phase classification) AUDIT_VERSION
                (rs_started_at s) failed_at (fd_step classification) (rs_step_timings s)
                (rs_transitions s) (Some classification) (secondary_failures ++ [archive_failure]) None
                (failure_record_bytes limits) None))
  | _, _ => mret failure
  end.

(** [raise failure from exc] *)
Definition with_cause (failure cause : exn) : exn :=
  Exn (exn_cls failure) (exn_msg failure) (Some cause).

(** What [run] lets pass as it is. *)
Definition passes_run (e : exn) : bool :=
  is_cancellation e || negb (is_exception e) ||
  match exn_cls e with FlowContinuation _ _ | FlowExecutionError _ _ _ _ => true | _ => false end.

Definition report_failure (e : exn) : M W json :=
  if passes_run e then fail e else
  failure ← execution_error e;
  failure ← archive_failure failure;
  fail (with_cause failure e).

(** *** Restoring and running *)

Definition identity_for (request_id : string) : CorrelationIdentity :=
  let i := fr_identity r in
  correlation_identity {|
    co_workflow := wc_workflow config; co_request_id := Some request_id; co_run_id := co_run_id i;
    co_definition_digest := co_definition_digest i; co_worker_deployment := co_worker_deployment i;
    co_worker_build_id := co_worker_build_id i; co_worker_artifact := co_worker_artifact i;
    co_environment_snapshot_digest := co_environment_snapshot_digest i;
    co_trigger_source := co_trigger_source i; co_trigger_name := co_trigger_name i;
    co_source_identity_digest := co_source_identity_digest i;
    co_correlation_identity_digest := co_correlation_identity_digest i;
    co_scope_digest := co_scope_digest i; co_execution_configuration := co_execution_configuration i |}.

(** [_restore_state], on a runner that has counted no invocation. *)
Definition restore_state (request_id : string) (checkpoint : option RunnerCheckpoint) (w : W) : machine W :=
  let correlation := identity_for request_id in
  match checkpoint with
  | None => Machine {|
      rs_correlation := correlation; rs_started_at := iso (now w); rs_params := []; rs_step_outputs := [];
      rs_step_timings := []; rs_transitions := []; rs_failures := []; rs_active_episode := None;
      rs_phase := PHASE_INTERNAL; rs_current_step_name := None; rs_current_step_started := None;
      rs_next_seq := 0 |} 0 w
  | Some c => Machine {|
      rs_correlation := correlation; rs_started_at := ck_started_at c; rs_params := ck_params c;
      rs_step_outputs := ck_step_outputs c; rs_step_timings := ck_step_timings c;
      rs_transitions := ck_transitions c; rs_failures := ck_failures c;
      rs_active_episode := ck_active_episode c; rs_phase := PHASE_INTERNAL;
      rs_current_step_name := None; rs_current_step_started := None; rs_next_seq := 0 |}
      (ck_invocations c) w
  end.

(** [FlowRunner.run] *)
Definition run (fuel : nat) (request_id : string) (trigger_globals : raw)
    (checkpoint : option RunnerCheckpoint) (w : W) : option (res json * machine W) :=
  match execute fuel trigger_globals checkpoint (restore_state request_id checkpoint w) with
  | None => None
  | Some (Ok record, m) => Some (Ok record, m)
  | Some (Raise e, m) => Some (report_failure e m)
  end.
End runner.
