(* ===== verification/RunnerFacts.v ===== *)
(** Facts about the parts of the runner: computations that leave the state of the run
    alone, what a turn of the flow loop does to it, and iteration. *)

From S2P Require Export Runner AnalysisFacts.

(** ** The monad *)

Section monad.
Context {W : Type}.
Implicit Types m : machine W.

Lemma bindM_Ok {A B} (c : M W A) (f : A -> M W B) m b m' :
  (c ≫= f) m = (Ok b, m') -> exists a m1, c m = (Ok a, m1) /\ f a m1 = (Ok b, m').
Proof. unfold mbind, M_bind. destruct (c m) as [[a|e] m1]; [eauto | done]. Qed.

Lemma bindM_Raise {A B} (c : M W A) (f : A -> M W B) m e m' :
  (c ≫= f) m = (Raise e, m') ->
  c m = (Raise e, m') \/ exists a m1, c m = (Ok a, m1) /\ f a m1 = (Raise e, m').
Proof. unfold mbind, M_bind. destruct (c m) as [[a|e'] m1]; [eauto | intros [= -> ->]; auto]. Qed.

Lemma fmapM_Ok {A B} (f : A -> B) (c : M W A) m b m' :
  (f <$> c) m = (Ok b, m') -> exists a, c m = (Ok a, m') /\ b = f a.
Proof. unfold fmap, M_fmap. destruct (c m) as [[a|e] m1]; [intros [= <- <-]; eauto | done]. Qed.

Lemma liftM_Ok {A} (x : res A) m a m' : lift x m = (Ok a, m') -> x = Ok a /\ m' = m.
Proof. unfold lift. by intros [= -> ->]. Qed.

Lemma attemptM_Ok {A} (c : M W A) (h : exn -> M W A) m a m' :
  attempt c h m = (Ok a, m') ->
  c m = (Ok a, m') \/ exists e m1, c m = (Raise e, m1) /\ h e m1 = (Ok a, m').
Proof. unfold attempt. destruct (c m) as [[a'|e] m1]; eauto. Qed.

Lemma bindM_run {A B} (c : M W A) (f : A -> M W B) m a m1 :
  c m = (Ok a, m1) -> (c ≫= f) m = f a m1.
Proof. intros Hc. unfold mbind, M_bind. by rewrite Hc. Qed.

Lemma bindM_raise {A B} (c : M W A) (f : A -> M W B) m e m1 :
  c m = (Raise e, m1) -> (c ≫= f) m = (Raise e, m1).
Proof. intros Hc. unfold mbind, M_bind. by rewrite Hc. Qed.

(** *** Computations that leave the state alone *)

Definition frames {A} (c : M W A) : Prop := forall m, m_state (c m).2 = m_state m.

Lemma frames_ret {A} (a : A) : frames (mret a).
Proof. done. Qed.

Lemma frames_bind {A B} (c : M W A) (f : A -> M W B) :
  frames c -> (forall a, frames (f a)) -> frames (c ≫= f).
Proof.
  intros Hc Hf m. unfold mbind, M_bind. specialize (Hc m). destruct (c m) as [[a|e] m1]; cbn in *; [|done].
  by rewrite Hf.
Qed.

Lemma frames_fmap {A B} (f : A -> B) (c : M W A) : frames c -> frames (f <$> c).
Proof. intros Hc m. unfold fmap, M_fmap. specialize (Hc m). by destruct (c m) as [[a|e] m1]. Qed.

Lemma frames_lift {A} (x : res A) : frames (lift x).
Proof. done. Qed.

Lemma frames_fail {A} e : frames (fail e : M W A).
Proof. done. Qed.

Lemma frames_reads {A} (f : RunState -> A) : frames (reads f).
Proof. done. Qed.

Lemma frames_observe {A} (f : W -> A) : frames (observe f).
Proof. done. Qed.

Lemma frames_external {A} (f : W -> res A * W) : frames (external f).
Proof. intros m. unfold external. by destruct (f (m_world m)). Qed.

Lemma frames_attempt {A} (c : M W A) (h : exn -> M W A) :
  frames c -> (forall e, frames (h e)) -> frames (attempt c h).
Proof.
  intros Hc Hh m. unfold attempt. specialize (Hc m). destruct (c m) as [[a|e] m1]; cbn in *; [done|].
  by rewrite Hh.
Qed.

Lemma frames_when (b : bool) (c : M W unit) : frames c -> frames (when b c).
Proof. by destruct b. Qed.

Lemma frames_state {A} (c : M W A) m x m' : frames c -> c m = (x, m') -> m_state m' = m_state m.
Proof. intros Hc Hm. specialize (Hc m). by rewrite Hm in Hc. Qed.
End monad.

Create HintDb frames.
#[export] Hint Resolve frames_ret frames_lift frames_fail frames_reads frames_observe frames_external
  frames_fmap frames_when : frames.

(** Walks through binds, matches and handlers. *)
Ltac solve_frames :=
  repeat (intros; match goal with
  | |- frames (_ ≫= _) => apply frames_bind
  | |- frames (_ <$> _) => apply frames_fmap
  | |- frames (attempt _ _) => apply frames_attempt
  | |- frames (when _ _) => apply frames_when
  | |- frames (match ?x with _ => _ end) => destruct x
  | |- frames _ => solve [auto with frames]
  end).

(** Splits hypotheses that say a computation returned. *)
Ltac inv_M :=
  repeat match goal with
  | H : (_ ≫= _) _ = (Ok _, _) |- _ =>
      let a := fresh "a" in let m := fresh "m" in let Ha := fresh "Ha" in
      apply bindM_Ok in H as (a & m & Ha & H)
  | H : (_ <$> _) _ = (Ok _, _) |- _ =>
      let a := fresh "a" in let Ha := fresh "Ha" in apply fmapM_Ok in H as (a & H & Ha)
  | H : lift _ _ = (Ok _, _) |- _ => apply liftM_Ok in H as [H ?]; subst
  | H : mret _ _ = (Ok _, _) |- _ => injection H as H; subst
  | H : reads _ _ = (Ok _, _) |- _ => injection H as H; subst
  | H : observe _ _ = (Ok _, _) |- _ => injection H as H; subst
  | H : writes _ _ = (Ok _, _) |- _ => injection H as H; subst
  | H : fail _ _ = (Ok _, _) |- _ => discriminate H
  end.

(** ** Computations of the runner that leave the state alone *)

Section frames.
Context {W : Type} `{StepExecutor W} `{DateTime} `{FloatRepr} `{PyParser}.
Variable r : FlowRunner.

Lemma frames_begin_invoke step_def name input globals params :
  frames (begin_invoke (W := W) r step_def name input globals params).
Proof.
  unfold begin_invoke. apply frames_bind; [done|]. solve_frames.
Qed.

Lemma frames_end_invoke call : frames (end_invoke (W := W) r call).
Proof. unfold end_invoke. solve_frames. Qed.

Lemma frames_invoke step_def name input globals params :
  frames (invoke (W := W) r step_def name input globals params).
Proof. apply frames_bind; [apply frames_begin_invoke | intros; apply frames_end_invoke]. Qed.

Lemma frames_checkpoint_at name seq loop : frames (checkpoint_at (W := W) r name seq loop).
Proof.
  assert (forall c, frames (enforce_checkpoint (W := W) r c)) as Hc by (intros; unfold enforce_checkpoint; solve_frames).
  intros m. unfold checkpoint_at. by rewrite Hc.
Qed.

Lemma frames_checkpoint_during_loop name seq loop :
  frames (checkpoint_during_loop (W := W) r name seq loop).
Proof. apply frames_when, frames_checkpoint_at. Qed.

Lemma frames_checkpoint_after_step next seq : frames (checkpoint_after_step (W := W) r next seq).
Proof. destruct next; [apply frames_when, frames_checkpoint_at | apply frames_ret]. Qed.
End frames.

#[export] Hint Resolve frames_begin_invoke frames_end_invoke frames_invoke frames_checkpoint_at
  frames_checkpoint_during_loop frames_checkpoint_after_step : frames.

Section loops.
Context {W : Type} `{StepExecutor W} `{DateTime} `{FloatRepr} `{PyParser}.
Variable r : FlowRunner.

Lemma frames_until_attempts n k step until sd input globals outs params seq t last :
  frames (until_attempts (W := W) r n k step until sd input globals outs params seq t last).
Proof. revert k last; induction n as [|n IH]; intros k last; cbn [until_attempts]; solve_frames; apply IH. Qed.

Lemma frames_run_until step sd input globals outs params seq t c :
  frames (run_until (W := W) r step sd input globals outs params seq t c).
Proof. unfold run_until. solve_frames; apply frames_until_attempts. Qed.

Lemma frames_run_wait step outs params : frames (run_wait (W := W) r step outs params).
Proof. unfold run_wait. solve_frames. Qed.

Lemma frames_match_branches step result outs params l :
  frames (match_branches (W := W) step result outs params l).
Proof. induction l as [|b l IH]; cbn [match_branches]; solve_frames; apply IH. Qed.

Lemma frames_next_step step result outs params : frames (next_step (W := W) step result outs params).
Proof. unfold next_step. solve_frames. apply frames_match_branches. Qed.

Lemma frames_begin_item step sd input globals params entry :
  frames (begin_item (W := W) r step sd input globals params entry).
Proof. destruct entry. apply frames_begin_invoke. Qed.
Hint Resolve frames_begin_item : frames.

Lemma frames_run_item step sd input globals params strategy entry :
  frames (run_item (W := W) r step sd input globals params strategy entry).
Proof. unfold run_item, guard_item. solve_frames. Qed.

Lemma frames_start_tasks step sd input globals params permits waiting :
  frames (start_tasks (W := W) r step sd input globals params permits waiting).
Proof.
  revert permits; induction waiting as [|[i entry] waiting IH]; intros [|permits]; cbn [start_tasks];
    solve_frames; apply IH.
Qed.
Hint Resolve frames_start_tasks : frames.

Lemma frames_run_pool fuel step sd input globals params strategy p :
  frames (run_pool (W := W) r fuel step sd input globals params strategy p).
Proof.
  revert p; induction fuel as [|fuel IH]; intros p; cbn [run_pool]; solve_frames; apply IH.
Qed.
Hint Resolve frames_run_pool : frames.

Lemma frames_run_chunk step sd input globals params strategy permits entries :
  frames (run_chunk (W := W) r step sd input globals params strategy permits entries).
Proof. unfold run_chunk. solve_frames. Qed.
Hint Resolve frames_run_chunk frames_run_item : frames.

Lemma frames_record_progress step strategy seq t offset outcomes progress :
  frames (record_progress (W := W) r step strategy seq t offset outcomes progress).
Proof. unfold record_progress. cbn. solve_frames. Qed.
Hint Resolve frames_record_progress : frames.

Lemma frames_iterate_sequential step sd input globals params strategy seq t offset entries progress :
  frames (iterate_sequential (W := W) r step sd input globals params strategy seq t offset entries progress).
Proof.
  revert offset progress; induction entries as [|e l IH]; intros offset progress;
    cbn [iterate_sequential]; solve_frames; apply IH.
Qed.

Lemma frames_iterate_parallel fuel step sd input globals params strategy permits chunk seq t offset entries progress :
  frames (iterate_parallel (W := W) r fuel step sd input globals params strategy permits chunk seq t offset
    entries progress).
Proof.
  revert offset entries progress; induction fuel as [|fuel IH]; intros offset entries progress;
    cbn [iterate_parallel]; solve_frames; apply IH.
Qed.
Hint Resolve frames_iterate_sequential frames_iterate_parallel : frames.

Lemma frames_run_iteration step reference sd input globals outs params seq t c :
  frames (run_iteration (W := W) r step reference sd input globals outs params seq t c).
Proof. unfold run_iteration. solve_frames. Qed.

Lemma frames_run_operation step sd input globals seq t loop :
  frames (run_operation (W := W) r step sd input globals seq t loop).
Proof.
  unfold run_operation. apply frames_bind; [done|]. intros outs. apply frames_bind; [done|]. intros params.
  destruct (st_for_each step); [apply frames_bind; [apply frames_run_iteration|done]|].
  destruct (st_until step); (apply frames_bind; [first [apply frames_run_until|apply frames_invoke]|]);
    [intros [[? ?] ?]|]; done.
Qed.
End loops.

#[export] Hint Resolve frames_run_wait frames_next_step frames_run_operation : frames.

(** ** Storing an output *)

Definition output_key (step : FlowStep) : string := default (st_name step) (st_output step).

Lemma store_output_get step result outs outs' x :
  store_output step result outs = Ok outs' ->
  dict_get x outs' =
    if decide (x = output_key step) then Some result
    else if decide (x = st_name step)
         then Some (JDict (dict_set (output_key step) result
                (match dict_get (st_name step) outs with Some (JDict d) => d | _ => [] end)))
         else dict_get x outs.
Proof.
  unfold store_output. fold (output_key step). intros Hs. inv_ok. rewrite !dict_get_set.
  case_decide; [done|]. case_decide; [|done]. f_equal.
  destruct (dict_get (st_name step) outs) as [[]|]; cbn in Ha; try discriminate Ha; by injection Ha as <-.
Qed.

Lemma store_output_mem step result outs outs' x :
  store_output step result outs = Ok outs' ->
  dict_mem x outs' = bool_decide (x = st_name step \/ x = output_key step) || dict_mem x outs.
Proof.
  intros Hs. unfold dict_mem. rewrite (store_output_get _ _ _ _ x Hs).
  destruct (decide (x = output_key step)) as [->|Hk].
  { rewrite bool_decide_eq_true_2 by by eexists. rewrite bool_decide_eq_true_2; [done|tauto]. }
  destruct (decide (x = st_name step)) as [->|Hn].
  { rewrite bool_decide_eq_true_2 by by eexists. rewrite bool_decide_eq_true_2; [done|tauto]. }
  rewrite (bool_decide_eq_false_2 (x = st_name step \/ _)) by tauto. done.
Qed.

Lemma produced_output_key step x : x ∈ produced_symbols step -> x = st_name step \/ x = output_key step.
Proof.
  unfold produced_symbols, output_key. destruct (isSome (st_sleep_sec step)); [set_solver|].
  destruct (st_output step); cbn; set_solver.
Qed.

(** ** The edges a turn can take *)

Section edges.
Variable w : WorkflowConfig.

Lemma get_steps_dict name step :
  dict_get name (steps_dict w) = Some step -> step ∈ wc_flow w /\ st_name step = name.
Proof.
  intros Hs%dict_get_elem. revert Hs. unfold steps_dict, dict_of_pairs.
  assert (forall d, (forall p, p ∈ d -> p.2 ∈ wc_flow w /\ st_name p.2 = p.1) ->
    forall l, (forall s, s ∈ l -> s ∈ wc_flow w) ->
    forall p, p ∈ dict_update d (map (fun s => (st_name s, s)) l) -> p.2 ∈ wc_flow w /\ st_name p.2 = p.1) as Hgen.
  { intros d Hd l. revert d Hd. induction l as [|s l IH]; intros d Hd Hl p Hp; [by apply Hd|].
    cbn [map] in Hp. rewrite dict_update_cons in Hp. eapply IH; [|intros; apply Hl; by right|exact Hp].
    intros [k v] Hin. clear -Hin Hd Hl. induction d as [|[k' v'] d IHd]; cbn in Hin.
    - apply list_elem_of_singleton in Hin as [= -> ->]. split; [apply Hl; by left|done].
    - case_decide as Hk.
      + apply elem_of_cons in Hin as [[= -> ->]|Hin]; [|apply Hd; by right].
        subst k'. split; [apply Hl; by left|done].
      + apply elem_of_cons in Hin as [->|Hin]; [apply Hd; by left|].
        apply IHd; [|done]. intros p Hp. apply Hd. by right. }
  intros Hs. apply (Hgen [] (fun p Hp => False_ind _ (not_elem_of_nil p Hp)) (wc_flow w) (fun s Hs => Hs) _ Hs).
Qed.

Lemma edge_to_intro source kind produced t :
  t ∈ dict_keys (steps_dict w) ->
  {| ed_source := source; ed_target := t; ed_kind := kind; ed_produced := produced |}
    ∈ edge_to (steps_dict w) source kind produced (Some t).
Proof. intros Ht. unfold edge_to. rewrite (proj2 (dict_mem_true _ _)); [by left|]. by apply dict_get_Some_keys. Qed.

(** A move along an edge of normal execution whose symbols are among the outputs. *)
Definition normal_move (name : string) (outs : list (string * json)) (n : string) : Prop :=
  n ∈ dict_keys (steps_dict w) ->
  exists e, e ∈ normal_edges w /\ ed_source e = name /\ ed_target e = n /\
    forall x, x ∈ ed_produced e -> dict_mem x outs = true.

Lemma normal_move_intro step kind produced outs n :
  step ∈ wc_flow w -> kind <> FAILURE ->
  (n ∈ dict_keys (steps_dict w) -> {| ed_source := st_name step; ed_target := n; ed_kind := kind;
     ed_produced := produced |} ∈ step_edges w (steps_dict w) step) ->
  (forall x, x ∈ produced -> dict_mem x outs = true) -> normal_move (st_name step) outs n.
Proof.
  intros Hs Hk He Hp Hn. specialize (He Hn).
  exists {| ed_source := st_name step; ed_target := n; ed_kind := kind; ed_produced := produced |}.
  split; [|done].
  apply elem_execution_edges. split; [|by apply bool_decide_eq_false].
  apply elem_build_edges. exists step. split; [done|]. exact He.
Qed.

Lemma skip_edge step n :
  st_terminal step = false -> isSome (st_condition step) = true -> st_then step = Some n ->
  n ∈ dict_keys (steps_dict w) ->
  {| ed_source := st_name step; ed_target := n; ed_kind := CONDITION_SKIP; ed_produced := ∅ |}
    ∈ step_edges w (steps_dict w) step.
Proof.
  intros Ht Hc Hn Hk. unfold step_edges. rewrite Ht, Hc, Hn, elem_of_app. left. by apply edge_to_intro.
Qed.

Lemma success_edge step n :
  st_terminal step = false -> has_branches step = false -> st_then step = Some n ->
  n ∈ dict_keys (steps_dict w) ->
  {| ed_source := st_name step; ed_target := n; ed_kind := SUCCESS; ed_produced := produced_symbols step |}
    ∈ step_edges w (steps_dict w) step.
Proof.
  intros Ht Hb Hn Hk. unfold step_edges. rewrite Ht, Hb, Hn, !elem_of_app. right; left. by apply edge_to_intro.
Qed.

Lemma branch_edge step b n :
  st_terminal step = false -> b ∈ branches step -> branch_target b = Some n ->
  n ∈ dict_keys (steps_dict w) ->
  {| ed_source := st_name step; ed_target := n;
     ed_kind := if isSome (br_default b) then RESULT_DEFAULT else RESULT_BRANCH;
     ed_produced := produced_symbols step |} ∈ step_edges w (steps_dict w) step.
Proof.
  intros Ht Hb Hn Hk. unfold step_edges. rewrite Ht, !elem_of_app. right; left.
  unfold has_branches. destruct (branches step) as [|b0 bs] eqn:Hbs; [by apply not_elem_of_nil in Hb|].
  rewrite <- Hbs in *. apply list_elem_of_In, in_concat. eexists. split; [|apply list_elem_of_In, edge_to_intro, Hk].
  apply in_map_iff. exists b. rewrite Hn. split; [done|]. by apply list_elem_of_In.
Qed.

Lemma timeout_edge step wait n :
  st_terminal step = false -> st_wait_for step = Some wait -> wf_on_timeout wait = Some n ->
  n ∈ dict_keys (steps_dict w) ->
  {| ed_source := st_name step; ed_target := n; ed_kind := WAIT_TIMEOUT_EDGE; ed_produced := ∅ |}
    ∈ step_edges w (steps_dict w) step.
Proof.
  intros Ht Hw Hn Hk. unfold step_edges. rewrite Ht, Hw, Hn, !elem_of_app. right; right; left.
  by apply edge_to_intro.
Qed.

Lemma exhaustion_edge step n :
  st_terminal step = false -> isSome (st_until step) = true -> st_on_exhausted step = Some n ->
  n ∈ dict_keys (steps_dict w) ->
  {| ed_source := st_name step; ed_target := n; ed_kind := LOOP_EXHAUSTION; ed_produced := ∅ |}
    ∈ step_edges w (steps_dict w) step.
Proof.
  intros Ht Hu Hn Hk. unfold step_edges. rewrite Ht, Hu, Hn, !elem_of_app. right; right; right; left.
  by apply edge_to_intro.
Qed.

Lemma failure_edge step h :
  st_terminal step = false -> isSome (st_op step) = true -> failure_handler w step = Some h ->
  h ∈ dict_keys (steps_dict w) ->
  {| ed_source := st_name step; ed_target := h; ed_kind := FAILURE; ed_produced := {[ ERROR_ROOT ]} |}
    ∈ step_edges w (steps_dict w) step.
Proof.
  intros Ht Ho Hh Hk. unfold step_edges. rewrite Ht, Ho, Hh, !elem_of_app. right; right; right; right.
  by apply edge_to_intro.
Qed.
End edges.

Lemma reject_then {A} (b : bool) msg (k : res A) :
  is_ok (_ ← reject b msg; k) = true <-> b = false /\ is_ok k = true.
Proof. destruct b; cbn; naive_solver. Qed.

(** ** What one turn does *)

(** A branch that names both a [default] and a [then]: the runner follows the first, the
    analysis the second. *)
Definition unambiguous (w : WorkflowConfig) : Prop :=
  forall s b, s ∈ wc_flow w -> b ∈ branches s -> br_default b = None \/ br_then b = None.

Definition grows (outs outs' : list (string * json)) : Prop :=
  forall x, dict_mem x outs = true -> dict_mem x outs' = true.

Section turns.
Context {W : Type} `{StepExecutor W} `{DateTime} `{FloatRepr} `{PyParser}.
Variable r : FlowRunner.
Abbreviation config := (fr_config r).

(** The state of the run fits the bound of a continuation. *)
Definition checkpointed (next : option string) (seq : Z) (m : machine W) : Prop :=
  fr_bounded_execution r = true -> forall n, next = Some n ->
  enforce_payload_bytes (RunnerCheckpoint_dump (build_checkpoint (m_state m) (m_invocations m) n seq None))
    "workflow.continuation.state" (workflow_state_bytes (fr_limits r)) = Ok tt.

(** The next step along normal execution, or the handler of a recorded failure. *)
Definition turn_effect (step : FlowStep) (seq : Z) (s : RunState) (m' : machine W) (t : turn) : Prop :=
  exists next, t = Continue next (seq + 1) /\ checkpointed next (seq + 1) m' /\
    rs_params (m_state m') = rs_params s /\ grows (rs_step_outputs s) (rs_step_outputs (m_state m')) /\
    ((rs_failures (m_state m') = rs_failures s /\
      forall n, next = Some n -> normal_move config (st_name step) (rs_step_outputs (m_state m')) n) \/
     (exists f h, rs_failures (m_state m') = rs_failures s ++ [f] /\ next = Some h /\
      failure_handler config step = Some h /\ isSome (st_op step) = true /\
      dict_mem ERROR_ALIAS (rs_step_outputs (m_state m')) = true)).

Lemma enforce_checkpoint_Ok c m m' :
  enforce_checkpoint (W := W) r c m = (Ok tt, m') ->
  m' = m /\ enforce_payload_bytes (RunnerCheckpoint_dump c) "workflow.continuation.state"
              (workflow_state_bytes (fr_limits r)) = Ok tt.
Proof.
  unfold enforce_checkpoint. intros Hc. inv_M. destruct a. split; [|done].
  destruct (_ || _) in Hc; [done|]. by inv_M.
Qed.

Lemma continue_at_Ok next seq m t m' :
  continue_at (W := W) r next seq m = (Ok t, m') ->
  t = Continue next seq /\ m' = m /\ checkpointed next seq m.
Proof.
  unfold continue_at. intros Hc. inv_M. destruct a.
  destruct next as [n|]; cbn in Ha; [|injection Ha as <-; split; [done|split; [done|by intros _ ? [=]]]].
  unfold when in Ha. destruct (fr_bounded_execution r) eqn:Hb.
  - apply enforce_checkpoint_Ok in Ha as [-> He]. split; [done|]. split; [done|].
    by intros _ n' [= <-].
  - injection Ha as <-. split; [done|]. split; [done|]. by intros ?; congruence.
Qed.

Lemma match_branches_target step result outs params l m next decision m' n :
  (forall b, b ∈ l -> br_default b = None \/ br_then b = None) ->
  match_branches (W := W) step result outs params l m = (Ok (next, decision), m') -> next = Some n ->
  exists b, b ∈ l /\ branch_target b = Some n.
Proof.
  revert m; induction l as [|b l IH]; intros m Hamb; cbn [match_branches].
  - by intros [= <- <- <-] [=].
  - destruct (br_default b) as [d|] eqn:Hd.
    + intros [= <- <- <-] [= <-]. exists b. split; [by left|]. unfold branch_target.
      destruct (Hamb b) as [Hb|Hb]; [by left|congruence|]. by rewrite Hb.
    + intros Hm ->. inv_M. destruct a as [matched_branch matched]. destruct matched_branch.
      * destruct (br_then b) as [t|] eqn:Ht; [|by inv_M]. inv_M. exists b. split; [by left|].
        unfold branch_target. rewrite Ht. congruence.
      * destruct (IH m0) as (b' & Hb' & Hn); [|done|done|].
        -- intros b' Hb'. apply Hamb. by right.
        -- exists b'. split; [by right|done].
Qed.

Lemma next_step_target step result outs params m next decision m' n :
  unambiguous config -> step ∈ wc_flow config ->
  next_step (W := W) step result outs params m = (Ok (next, decision), m') -> next = Some n ->
  if has_branches step then exists b, b ∈ branches step /\ branch_target b = Some n
  else st_then step = Some n.
Proof.
  intros Hamb Hs. unfold next_step. destruct (has_branches step).
  - intros [Hm|(e & m1 & _ & Hm)]%attemptM_Ok Hn.
    + eapply match_branches_target; [|exact Hm|done]. intros b. by apply Hamb.
    + unfold resolution_error in Hm. cbn in Hm. by case_match.
  - by intros [= <- <- <-].
Qed.

Lemma advance_spec step result seq m t m' :
  unambiguous config -> step ∈ wc_flow config ->
  advance (W := W) r step result seq m = (Ok t, m') ->
  exists next, t = Continue next seq /\ checkpointed next seq m' /\
    rs_params (m_state m') = rs_params (m_state m) /\
    rs_step_outputs (m_state m') = rs_step_outputs (m_state m) /\
    rs_failures (m_state m') = rs_failures (m_state m) /\
    forall n, next = Some n ->
      if has_branches step then exists b, b ∈ branches step /\ branch_target b = Some n
      else st_then step = Some n.
Proof.
  intros Hamb Hs. unfold advance. intros Hadv. inv_M. destruct a1 as [next decision].
  pose proof (frames_state _ _ _ _ (frames_next_step _ _ _ _) Ha1) as Hst.
  apply continue_at_Ok in Hadv as (-> & -> & Hck). exists next. split; [done|]. split; [done|].
  assert (rs_params (m_state m3) = rs_params (m_state m2) /\
    rs_step_outputs (m_state m3) = rs_step_outputs (m_state m2) /\
    rs_failures (m_state m3) = rs_failures (m_state m2)) as (-> & -> & ->)
    by (cbn in Ha2; destruct decision; unfold record_transition in Ha2; inv_M; done).
  rewrite Hst. split; [done|]. split; [done|]. split; [done|]. intros n. by eapply next_step_target.
Qed.

Lemma advance_move step outs n :
  step ∈ wc_flow config -> st_terminal step = false ->
  (forall x, x ∈ produced_symbols step -> dict_mem x outs = true) ->
  (if has_branches step then exists b, b ∈ branches step /\ branch_target b = Some n
   else st_then step = Some n) -> normal_move config (st_name step) outs n.
Proof.
  intros Hs Ht Hp Hn. destruct (has_branches step) eqn:Hb.
  - destruct Hn as (b & Hin & Hn). eapply normal_move_intro; [done| |intros Hk; by eapply branch_edge|done].
    by destruct (isSome (br_default b)).
  - eapply normal_move_intro; [done| |intros Hk; by eapply success_edge|done]. done.
Qed.

Lemma store_spec step result m u m' :
  store (W := W) step result m = (Ok u, m') ->
  exists outs, store_output step result (rs_step_outputs (m_state m)) = Ok outs /\
    m_state m' = set_step_outputs outs (m_state m) /\ grows (rs_step_outputs (m_state m)) outs /\
    forall x, x ∈ produced_symbols step -> dict_mem x outs = true.
Proof.
  unfold store. intros Hs. inv_M. exists a0. split; [done|]. split; [done|]. split.
  - intros x Hx. rewrite (store_output_mem _ _ _ _ x Ha0), Hx. by rewrite orb_true_r.
  - intros x Hx%produced_output_key. rewrite (store_output_mem _ _ _ _ x Ha0).
    by rewrite bool_decide_eq_true_2.
Qed.

Lemma record_entry_state step entry m u m' :
  record_entry (W := W) step entry m = (Ok u, m') ->
  rs_params (m_state m') = rs_params (m_state m) /\
  rs_step_outputs (m_state m') = rs_step_outputs (m_state m) /\
  rs_failures (m_state m') = rs_failures (m_state m).
Proof. unfold record_entry. intros Hr. by inv_M. Qed.

Lemma record_transition_state t m u m' :
  record_transition (W := W) t m = (Ok u, m') ->
  rs_params (m_state m') = rs_params (m_state m) /\
  rs_step_outputs (m_state m') = rs_step_outputs (m_state m) /\
  rs_failures (m_state m') = rs_failures (m_state m).
Proof. unfold record_transition. intros Hr. by inv_M. Qed.

Lemma grows_refl outs : grows outs outs.
Proof. by intros x. Qed.

Section valid.
Hypothesis Hamb : unambiguous config.
Variables (step : FlowStep) (seq : Z).
Hypothesis Hstep : step ∈ wc_flow config.
Hypothesis Hterm : st_terminal step = false.

Lemma stored_advance result (s : RunState) (m2 m3 : machine W) t :
  (forall x, x ∈ produced_symbols step -> dict_mem x (rs_step_outputs (m_state m2)) = true) ->
  rs_params (m_state m2) = rs_params s -> grows (rs_step_outputs s) (rs_step_outputs (m_state m2)) ->
  rs_failures (m_state m2) = rs_failures s ->
  advance (W := W) r step result (seq + 1) m2 = (Ok t, m3) -> turn_effect step seq s m3 t.
Proof.
  intros Hp Hpar Hg Hf Hadv. apply advance_spec in Hadv as (next & -> & Hck & Hp3 & Ho3 & Hf3 & Hn);
    [|done..]. exists next. split; [done|]. split; [done|]. split; [congruence|]. rewrite Ho3. split; [done|].
  left. split; [congruence|]. intros n Hnext. apply advance_move; [done..|]. by apply Hn.
Qed.

Lemma turn_sleep_spec sleep_sec m t m' :
  st_sleep_sec step = Some sleep_sec -> has_branches step = false ->
  turn_sleep (W := W) r step seq sleep_sec m = (Ok t, m') -> turn_effect step seq (m_state m) m' t.
Proof.
  unfold turn_sleep. intros Hsl Hb Ht. inv_M.
  pose proof (frames_state _ _ _ _ (frames_external _) Ha) as Hst.
  apply record_entry_state in Ha0 as (Hp & Ho & Hf).
  apply continue_at_Ok in Ht as (-> & -> & Hck). rewrite Hst in *.
  exists (st_then step). split; [done|]. split; [done|]. split; [done|]. rewrite Ho.
  split; [apply grows_refl|]. left. split; [done|]. intros n Hn.
  eapply normal_move_intro; [done| |intros Hk; by eapply success_edge|]; [done|].
  unfold produced_symbols. rewrite Hsl. cbn. set_solver.
Qed.

Lemma turn_wait_spec wait m t m' :
  st_wait_for step = Some wait ->
  turn_wait (W := W) r step wait seq m = (Ok t, m') -> turn_effect step seq (m_state m) m' t.
Proof.
  unfold turn_wait. intros Hw Ht. inv_M.
  pose proof (frames_state _ _ _ _ (frames_run_wait _ _ _ _) Ha2) as Hst.
  destruct a2 as [payload|]; inv_M.
  - match goal with H : store _ _ _ = _ |- _ => apply store_spec in H as (outs & Hso & Hst' & Hg & Hp) end.
    match goal with H : record_entry _ _ _ = _ |- _ => apply record_entry_state in H as (Hp5 & Ho5 & Hf5) end.
    rewrite Hst', Hst in *.
    eapply stored_advance; [..|exact Ht]; rewrite ?Ho5, ?Hp5, ?Hf5; done.
  - match goal with H : record_entry _ _ _ = _ |- _ => apply record_entry_state in H as (Hp & Ho & Hf) end.
    rewrite Hst in *.
    destruct (wf_on_timeout wait) as [target|] eqn:Htar; [|by inv_M]. inv_M.
    match goal with H : record_transition _ _ = _ |- _ =>
      apply record_transition_state in H as (Hp' & Ho' & Hf') end.
    apply continue_at_Ok in Ht as (-> & -> & Hck).
    exists (Some target). split; [done|]. split; [done|]. split; [congruence|]. rewrite Ho', Ho.
    split; [apply grows_refl|]. left. split; [congruence|]. intros n [= <-].
    eapply normal_move_intro; [done| |intros Hk; by eapply timeout_edge|]; [done|set_solver].
Qed.

Lemma run_operation_exhausted sd input globals t loop m out m' :
  run_operation (W := W) r step sd input globals seq t loop m = (Ok out, m') ->
  oo_exhausted out = true -> isSome (st_until step) = true.
Proof.
  unfold run_operation. intros Ho Hx. inv_M. destruct (st_for_each step); [by inv_M|].
  destruct (st_until step); [done|by inv_M].
Qed.

Lemma complete_operation_spec input globals t out m tn m' (s : RunState) :
  m_state m = s -> (oo_exhausted out = true -> isSome (st_until step) = true) ->
  complete_operation (W := W) r step input globals seq t out m = (Ok tn, m') -> turn_effect step seq s m' tn.
Proof.
  intros <- Hun. unfold complete_operation. intros Ht. inv_M.
  match goal with H : record_entry _ _ _ = _ |- _ => apply record_entry_state in H as (Hp5 & Ho5 & Hf5) end.
  destruct (oo_exhausted out) eqn:Hex; inv_M.
  - destruct (st_on_exhausted step) as [target|] eqn:Htar; [|by inv_M]. inv_M.
    match goal with H : record_transition _ _ = _ |- _ =>
      apply record_transition_state in H as (Hp' & Ho' & Hf') end.
    apply continue_at_Ok in Ht as (-> & -> & Hck).
    exists (Some target). split; [done|]. split; [done|]. split; [congruence|]. rewrite Ho', Ho5.
    split; [apply grows_refl|]. left. split; [congruence|]. intros n [= <-].
    eapply normal_move_intro; [done| |intros Hk; eapply exhaustion_edge; [done|by apply Hun|done|done]|];
      [done|set_solver].
  - match goal with H : store _ _ _ = _ |- _ => apply store_spec in H as (outs & Hso & Hst' & Hg & Hp) end.
    rewrite Hst' in *. eapply stored_advance; [..|exact Ht]; rewrite ?Ho5, ?Hp5, ?Hf5; done.
Qed.

Lemma handle_failure_spec t e m tn m' (s : RunState) :
  m_state m = s -> isSome (st_op step) = true ->
  handle_failure (W := W) r step seq t e m = (Ok tn, m') ->
  turn_effect step seq s m' tn /\ rs_active_episode s = None.
Proof.
  intros <- Hop. unfold handle_failure. destruct (bypasses_handlers e); [by intros ?; inv_M|].
  intros Ht. inv_M. destruct (rs_active_episode (m_state m0)) as [ep|] eqn:Hep; [by inv_M|].
  destruct (failure_handler config step) as [h|] eqn:Hh; [|by inv_M]. inv_M.
  unfold record_entry, record_transition in *. inv_M.
  apply continue_at_Ok in Ht as (-> & -> & Hck). split; [|done].
  exists (Some h). split; [done|]. split; [done|]. split; [done|]. split.
  - intros x Hx. cbn. rewrite dict_mem_set, Hx. by rewrite orb_true_r.
  - right. eexists _, h. split; [done|]. split; [done|]. split; [done|]. split; [done|]. cbn.
    rewrite dict_mem_set. by rewrite bool_decide_eq_true_2.
Qed.

Lemma turn_effect_ext s1 s2 m' tn :
  rs_params s1 = rs_params s2 -> rs_step_outputs s1 = rs_step_outputs s2 ->
  rs_failures s1 = rs_failures s2 -> turn_effect step seq s1 m' tn -> turn_effect step seq s2 m' tn.
Proof. unfold turn_effect. by intros -> -> ->. Qed.

Lemma turn_operation_spec loop m tn m' :
  turn_operation (W := W) r step seq loop m = (Ok tn, m') -> turn_effect step seq (m_state m) m' tn.
Proof.
  unfold turn_operation. intros Ht. inv_M.
  assert (m_state m0 = m_state m) as Hst0 by (destruct loop; by inv_M).
  rewrite <- Hst0. clear Hst0. destruct (st_op step) as [op|] eqn:Hop; [|by inv_M]. inv_M.
  set (s := m_state m0) in *.
  match goal with H : resolve_step _ _ _ = Ok ?p |- _ => destruct p as [input holds] end.
  destruct holds; inv_M.
  - match goal with H : attempt _ _ _ = _ |- _ => apply attemptM_Ok in H as [H|(e & mf & He & H)] end; inv_M; subst.
    + match goal with H : run_operation _ _ _ _ _ _ _ _ _ = _ |- _ =>
        pose proof (frames_state _ _ _ _ (frames_run_operation _ _ _ _ _ _ _ _) H) as Hst;
        pose proof (run_operation_exhausted _ _ _ _ _ _ _ _ H) as Hx end.
      eapply turn_effect_ext; [..|eapply complete_operation_spec; [exact Hst|exact Hx|exact Ht]]; done.
    + inv_M. apply (frames_state (inl <$> _)) in He; [|apply frames_fmap, frames_run_operation].
      match goal with H : handle_failure _ _ _ _ _ _ = _ |- _ =>
        apply (handle_failure_spec _ _ _ _ _ _ He) in H as [H _]; [|by rewrite Hop] end.
      eapply turn_effect_ext; [..|eassumption]; done.
  - match goal with H : record_entry _ _ _ = _ |- _ => apply record_entry_state in H as (Hp & Ho & Hf) end.
    apply continue_at_Ok in Ht as (-> & -> & Hck).
    exists (st_then step). split; [done|]. split; [done|]. split; [done|]. rewrite Ho.
    split; [apply grows_refl|]. left. split; [done|]. intros n Hn.
    eapply normal_move_intro; [done| |intros Hk; eapply skip_edge; [done| |done|done]|]; [done| |set_solver].
    match goal with H : resolve_step _ _ _ = _ |- _ => unfold resolve_step, resolution_error in H end.
    destruct (st_condition step); [done|]. exfalso.
    match goal with H : catch _ _ = _ |- _ => apply catch_Ok in H as [H|(e & _ & H)] end; [by inv_ok|by case_match].
Qed.
End valid.

Lemma sleep_no_branches step sleep_sec :
  flow_step_valid step = true -> st_terminal step = false -> st_sleep_sec step = Some sleep_sec ->
  has_branches step = false.
Proof.
  unfold flow_step_valid. intros [_ Hv]%andb_prop Ht Hs. unfold validate_flow_step in Hv. rewrite Ht, Hs in Hv.
  apply reject_then in Hv as [_ Hv]. apply reject_then in Hv as [_ Hv]. apply reject_then in Hv as [_ Hv].
  apply reject_then in Hv as [Hv _]. cbn in Hv. by apply orb_false_elim in Hv as [? _].
Qed.

Lemma enter_step_core name seq s :
  rs_params (enter_step name seq s) = rs_params s /\
  rs_step_outputs (enter_step name seq s) = rs_step_outputs s /\
  rs_failures (enter_step name seq s) = rs_failures s.
Proof. unfold enter_step. cbn. destruct (rs_active_episode s); [by case_match|done]. Qed.

Definition valid_flow (w : WorkflowConfig) : Prop :=
  unambiguous w /\ forall s, s ∈ wc_flow w -> flow_step_valid s = true.

Lemma run_turn_spec name seq loop m t m' :
  valid_flow config -> run_turn (W := W) r name seq loop m = (Ok t, m') ->
  exists step, dict_get name (flow_steps r) = Some step /\ step ∈ wc_flow config /\ st_name step = name /\
    if st_terminal step then t = Finished (st_reason step) /\ m_state m' = enter_step name seq (m_state m)
    else turn_effect step seq (m_state m) m' t.
Proof.
  intros [Hamb Hval]. unfold run_turn. intros Ht. inv_M.
  match goal with H : get_item _ _ = Ok ?s |- _ => rename H into Hget; rename s into step end.
  unfold get_item in Hget. destruct (dict_get name (flow_steps r)) as [step'|] eqn:Hstep; [|done].
  injection Hget as ->. destruct (get_steps_dict _ _ _ Hstep) as [Hin Hname].
  exists step. split; [done|]. split; [done|]. split; [done|].
  destruct (enter_step_core name seq (m_state m)) as (Hp & Ho & Hf).
  destruct (st_terminal step) eqn:Hterm; [by inv_M|].
  destruct (st_sleep_sec step) as [sleep_sec|] eqn:Hs.
  - eapply turn_effect_ext; [exact Hp|exact Ho|exact Hf|].
    eapply turn_sleep_spec in Ht; [exact Ht|done..|]. by eapply sleep_no_branches; [apply Hval| |].
  - destruct (st_wait_for step) as [wait|] eqn:Hw; (eapply turn_effect_ext; [exact Hp|exact Ho|exact Hf|]).
    + by eapply turn_wait_spec in Ht.
    + by eapply turn_operation_spec in Ht.
Qed.
End turns.
