(* ===== verification/Samples.v ===== *)
(** A scripted executor and sample runs: the instances on which the witnesses of the
    runner's properties evaluate. *)

From S2P Require Export RunnerFacts.

(** The outside world of a scripted run: the answers still to give to step calls and
    waits, the choices of the next completion, the history the server reports after the
    logged calls, and the log of step calls. *)
Record script := {
  sp_answers : list (res raw);
  sp_signals : list (option raw);
  sp_choices : list nat;
  sp_history : list HistoryObservation;
  sp_log : list string;
}.

Definition quiet_history : HistoryObservation :=
  {| ho_events := 0; ho_bytes := 0; ho_server_suggested := false |}.

Definition answer (name : string) (w : script) : res raw * script :=
  let w' := {| sp_answers := tail (sp_answers w); sp_signals := sp_signals w;
               sp_choices := sp_choices w; sp_history := sp_history w; sp_log := sp_log w ++ [name] |} in
  (default (Ok RNone) (head (sp_answers w)), w').

#[export] Instance script_executor : StepExecutor script := {|
  run_step := fun iv _ w =>
    let (x, w) := answer (iv_step_name iv) w in
    ((fun d => {| sr_data := d; sr_cache := None |}) <$> x, w);
  run_evaluator := fun _ _ _ _ w => (Ok true, w);
  wait_for_event := fun _ _ w =>
    (Ok (default None (head (sp_signals w))),
     {| sp_answers := sp_answers w; sp_signals := tail (sp_signals w); sp_choices := sp_choices w;
        sp_history := sp_history w; sp_log := sp_log w |});
  sleep := fun _ w => (Ok tt, w);
  validate_contract := fun _ _ _ _ w => (Ok tt, w);
  run_subworkflow := fun _ name _ w => answer name w;
  archive := fun _ _ _ _ _ w => (Ok tt, w);
  observe_history := fun w => default quiet_history (sp_history w !! length (sp_log w));
  now := fun _ => S754_zero false;
  next_completion := fun _ w =>
    (default 0%nat (head (sp_choices w)),
     {| sp_answers := sp_answers w; sp_signals := sp_signals w; sp_choices := tail (sp_choices w);
        sp_history := sp_history w; sp_log := sp_log w |});
  cancel_calls := fun _ w => w;
|}.

#[export] Instance sample_time : DateTime :=
  {| iso := fun _ => "1970-01-01T00:00:00+00:00"; fromisoformat := fun _ => None |}.

#[export] Instance sample_floats : FloatRepr := {| float_repr := fun _ => "0.0" |}.

#[export] Existing Instance sample_parser.

Definition no_identity (workflow : string) : CorrelationIdentity := {|
  co_workflow := workflow; co_request_id := None; co_run_id := None; co_definition_digest := None;
  co_worker_deployment := None; co_worker_build_id := None; co_worker_artifact := None;
  co_environment_snapshot_digest := None; co_trigger_source := None; co_trigger_name := None;
  co_source_identity_digest := None; co_correlation_identity_digest := None; co_scope_digest := None;
  co_execution_configuration := None |}.

Definition sample_runner (w : WorkflowConfig) : FlowRunner := {|
  fr_config := w;
  fr_services := [("svc", {| sv_name := "svc"; sv_params := [] |})];
  fr_identity := no_identity (wc_workflow w);
  fr_limits := DEFAULT_RUNTIME_LIMITS;
  fr_bounded_execution := true;
  fr_timezone_aware := true |}.

Definition script_of (answers : list (res raw)) : script :=
  {| sp_answers := answers; sp_signals := []; sp_choices := []; sp_history := []; sp_log := [] |}.

Definition service_error (message : string) : exn :=
  Exn (ExternalError "ApplicationError" (Some "ServiceError") (Some message) (Some true)) message None.

(** The status field of an audit record. *)
Definition record_status (j : json) : option json := json_field "status" j.

Example sample_run_completes :
  match run (sample_runner sample_workflow) 10 "req" (RDict []) None
          (script_of [Ok (RDict [(RStr "n", RInt 1)]); Ok RNone]) with
  | Some (Ok record, m) =>
      (record_status record, sp_log (m_world m)) = (Some (JStr "completed"), ["fetch"; "store"])
  | _ => False
  end.
Proof. vm_compute. reflexivity. Qed.

Example sample_run_recovers :
  match run (sample_runner sample_workflow) 10 "req" (RDict []) None
          (script_of [Ok RNone; Raise (service_error "no space")]) with
  | Some (Ok record, _) => record_status record = Some (JStr "terminated")
  | _ => False
  end.
Proof. vm_compute. reflexivity. Qed.

(** The sample run after its start, and after its first turn. *)
Definition sample_started : machine script :=
  (start_run (sample_runner sample_workflow) "req" (RDict [])
     (restore_state (sample_runner sample_workflow) "req" None (script_of [Ok (RInt 7)]))).2.

Definition sample_fetched : machine script :=
  (run_turn (sample_runner sample_workflow) "fetch" 0 None sample_started).2.

Lemma sample_workflow_valid : valid_flow sample_workflow.
Proof.
  split.
  - intros s b Hs Hb. repeat (apply elem_of_cons in Hs as [->|Hs]; [by apply not_elem_of_nil in Hb|]).
    by apply not_elem_of_nil in Hs.
  - apply Forall_forall. repeat constructor; vm_compute; reflexivity.
Qed.
