(* ===== verification/Termination.v ===== *)
(** Termination of runs: in an analysed workflow every turn follows an edge of normal
    execution, of which only finitely many can be taken in a row, or records a failure,
    of which only finitely many fit the bound on the state of a run. *)

From S2P Require Export RunnerFacts Samples.

(** ** The size of canonical JSON text *)

Lemma utf8_length_ge s : (Z.of_nat (String.length s) <= utf8_length s)%Z.
Proof. induction s as [|c s IH]; cbn [utf8_length String.length]; [lia|]. repeat case_match; lia. Qed.

Lemma string_join_cons sep p q ps :
  string_join sep (p :: q :: ps) = p +:+ sep +:+ string_join sep (q :: ps).
Proof. done. Qed.

Lemma string_join_elem sep p parts : p ∈ parts -> (String.length p <= String.length (string_join sep parts))%nat.
Proof.
  induction parts as [|q parts IH]; [by intros ?%not_elem_of_nil|].
  intros Hp. destruct parts as [|q' parts].
  - apply list_elem_of_singleton in Hp as ->. done.
  - rewrite string_join_cons, !string_length_append.
    apply elem_of_cons in Hp as [->|Hp]; [lia|]. specialize (IH Hp). lia.
Qed.

Lemma string_join_count c parts :
  (length parts <= S (String.length (string_join (String c EmptyString) parts)))%nat.
Proof.
  induction parts as [|q parts IH]; cbn [length]; [lia|]. destruct parts as [|q' parts]; [cbn; lia|].
  rewrite string_join_cons, !string_length_append. cbn [length String.length] in *. lia.
Qed.

Lemma elem_insert_key {A} k (v : A) l p : p ∈ insert_key k v l <-> p = (k, v) \/ p ∈ l.
Proof.
  induction l as [|[k' v'] l IH]; cbn; [set_solver|].
  destruct (String.leb k k'); rewrite !elem_of_cons, ?IH; tauto.
Qed.

Lemma elem_sort_keys {A} (l : list (string * A)) p : p ∈ sort_keys l <-> p ∈ l.
Proof. induction l as [|[k v] l IH]; cbn; [done|]. by rewrite elem_insert_key, IH, elem_of_cons. Qed.

Section size.
Context `{FloatRepr}.

Lemma dumps_dict_field k v d : (k, v) ∈ d ->
  (String.length (dumps_strict_json v) <= String.length (dumps_strict_json (JDict d)))%nat.
Proof.
  intros Hin. cbn [dumps_strict_json].
  set (parts := map _ (sort_keys _)).
  assert (json_quote k +:+ ":" +:+ dumps_strict_json v ∈ parts) as Hp.
  { apply (list_elem_of_fmap_2 (fun kv => json_quote kv.1 +:+ ":" +:+ kv.2) _ (k, dumps_strict_json v)).
    apply elem_sort_keys. by apply (list_elem_of_fmap_2 (fun kv => (kv.1, dumps_strict_json kv.2)) d (k, v)). }
  apply (string_join_elem ",") in Hp. rewrite !string_length_append in *. lia.
Qed.

Lemma dumps_list_length l : (length l <= String.length (dumps_strict_json (JList l)))%nat.
Proof.
  cbn [dumps_strict_json]. rewrite !string_length_append.
  pose proof (string_join_count "," (map dumps_strict_json l)) as Hc. rewrite length_map in Hc. cbn. lia.
Qed.

Lemma enforce_payload_bytes_le v boundary limit :
  enforce_payload_bytes v boundary limit = Ok tt -> (utf8_length (dumps_strict_json v) <= limit)%Z.
Proof.
  unfold enforce_payload_bytes, enforce_limit. intros Hb. inv_ok.
  apply catch_Ok in Ha as [Ha|(e & _ & Ha)]; [|by apply raise_from_not_ok in Ha].
  unfold strict_json_bytes in Ha. inv_ok.
  match type of Hb with (if ?b then _ else _) = _ => destruct b eqn:Hle end; [done|].
  by apply Z.ltb_ge in Hle.
Qed.

Lemma checkpoint_failures_field c : exists d, RunnerCheckpoint_dump c = JDict d /\
  ("failures", JList (map dump_step_failure (ck_failures c))) ∈ d.
Proof. eexists. split; [reflexivity|]. rewrite !elem_of_cons. tauto. Qed.

(** A checkpoint within the bound holds no more failures than the bound has bytes. *)
Lemma checkpoint_failures c boundary limit :
  enforce_payload_bytes (RunnerCheckpoint_dump c) boundary limit = Ok tt ->
  (Z.of_nat (length (ck_failures c)) <= limit)%Z.
Proof.
  destruct (checkpoint_failures_field c) as (d & -> & Hin). intros Hb%enforce_payload_bytes_le.
  pose proof (utf8_length_ge (dumps_strict_json (JDict d))) as Hu.
  pose proof (dumps_dict_field _ _ _ Hin) as Hf.
  pose proof (dumps_list_length (map dump_step_failure (ck_failures c))) as Hl. rewrite length_map in Hl. lia.
Qed.
End size.

(** ** Ranks of steps *)

Section rank.
Variable edges : list FlowEdge.

(** How many steps may still follow. *)
Fixpoint rank (x : string) (l : list string) : nat :=
  match l with
  | [] => 0
  | y :: l' => if decide (x = y) then length l else rank x l'
  end.

Lemma rank_le x l : (rank x l <= length l)%nat.
Proof. induction l as [|y l IH]; cbn; [lia|]. case_decide; [done|lia]. Qed.

Lemma rank_pos x l : x ∈ l -> (0 < rank x l)%nat.
Proof.
  induction l as [|y l IH]; [by intros ?%not_elem_of_nil|]. cbn. case_decide; [lia|].
  intros [?|?]%elem_of_cons; [done|auto].
Qed.

Lemma rank_decreases l x y : descending (edge_rel edges) l -> x ∈ l -> edge_rel edges x y -> (rank y l < rank x l)%nat.
Proof.
  induction 1 as [|z l Hz Hsucc Hl IH]; [by intros ?%not_elem_of_nil|]. intros Hx Hxy. cbn.
  destruct (decide (x = z)) as [->|Hne].
  - pose proof (Hsucc y Hxy) as Hy. destruct (decide (y = z)) as [->|_]; [done|].
    pose proof (rank_le y l). lia.
  - apply elem_of_cons in Hx as [?|Hx]; [done|].
    destruct (decide (y = z)) as [->|_]; [|by apply IH].
    destruct Hz. by eapply descending_closed.
Qed.

End rank.

(** The steps of an acyclic workflow, ranked. *)
Lemma ranked_steps w :
  find_cycle (steps_dict w) (normal_edges w) = None ->
  exists l, descending (edge_rel (normal_edges w)) l /\ (forall x, x ∈ dict_keys (steps_dict w) -> x ∈ l) /\
    (length l <= length (steps_dict w))%nat.
Proof.
  intros Hc. pose proof (find_cycle_spec w) as H. rewrite Hc in H. destruct H as (l & Hl & Hcover).
  exists (filter (fun x => x ∈ dict_keys (steps_dict w)) l). split; [|split].
  - apply descending_filter; [|done]. intros x y (e & He & _ & <-). by apply normal_edges_ends.
  - intros x Hx. apply list_elem_of_filter. auto.
  - replace (length (steps_dict w)) with (length (dict_keys (steps_dict w)))
      by (unfold dict_keys; by rewrite length_fmap).
    apply NoDup_incl_length.
    + apply NoDup_ListNoDup, NoDup_filter. by eapply descending_NoDup.
    + intros x. rewrite <- !list_elem_of_In, list_elem_of_filter. tauto.
Qed.

(** ** Runs *)

Section runs.
Context {W : Type} `{StepExecutor W} `{DateTime} `{FloatRepr} `{PyParser}.
Variable r : FlowRunner.
Abbreviation config := (fr_config r).

Lemma run_flow_mono fuel fuel' cur seq loop m out :
  run_flow (W := W) r fuel cur seq loop m = Some out -> (fuel <= fuel')%nat ->
  run_flow r fuel' cur seq loop m = Some out.
Proof.
  revert fuel' cur seq loop m; induction fuel as [|fuel IH]; intros fuel' cur seq loop m Hr Hle.
  - destruct cur, fuel'; done.
  - destruct fuel' as [|fuel']; [lia|]. destruct cur as [name|]; [|done]. cbn [run_flow] in *.
    destruct (run_turn r name seq loop m) as [[[reason|next seq']|e] m1]; [done| |done].
    apply IH; [done|lia].
Qed.

Variable l : list string.
Hypothesis Hvalid : valid_flow config.
Hypothesis Hbounded : fr_bounded_execution r = true.
Hypothesis Hl : descending (edge_rel (normal_edges config)) l.
Hypothesis Hcover : forall x, x ∈ dict_keys (steps_dict config) -> x ∈ l.

Definition failures_bound : nat := Z.to_nat (workflow_state_bytes (fr_limits r)).

(** The turns that the failures still to come allow. *)
Definition budget (failures : nat) : nat := (S failures_bound - failures) * S (length l).

Lemma budget_step failures :
  (failures < failures_bound)%nat -> budget failures = (S (length l) + budget (failures + 1))%nat.
Proof.
  intros Hf. unfold budget. replace (S failures_bound - failures)%nat
    with (S (S failures_bound - (failures + 1))) by lia. done.
Qed.

(** The turns that a run may still take. *)
Definition turns_left (name : string) (failures : nat) : nat := rank name l + budget failures + 1.

Lemma run_flow_total fuel name seq loop (m : machine W) :
  (turns_left name (length (rs_failures (m_state m))) <= fuel)%nat ->
  exists out, run_flow r fuel (Some name) seq loop m = Some out.
Proof.
  revert name seq loop m; induction fuel as [|fuel IH]; intros name seq loop m Hfuel;
    [unfold turns_left in Hfuel; lia|].
  cbn [run_flow]. destruct (run_turn r name seq loop m) as [[[reason|next seq']|e] m1] eqn:Ht; [eauto| |eauto].
  destruct next as [n|]; [|destruct fuel; cbn; eauto].
  apply run_turn_spec in Ht as (step & Hstep & Hin & Hname & Ht); [|done].
  destruct (st_terminal step); [by destruct Ht|].
  destruct Ht as (next & [= <- ->] & Hck & _ & _ & Hcases).
  unfold turns_left in Hfuel.
  assert (name ∈ l) as Hnl by (apply Hcover, dict_get_Some_keys; by eexists).
  pose proof (rank_pos name l Hnl) as Hpos.
  destruct (decide (n ∈ dict_keys (steps_dict config))) as [Hn|Hn].
  - apply IH. specialize (Hck Hbounded n eq_refl). apply checkpoint_failures in Hck. cbn in Hck.
    assert (length (rs_failures (m_state m1)) <= failures_bound)%nat as Hb by (unfold failures_bound; lia).
    unfold turns_left. pose proof (rank_le n l) as Hrn.
    destruct Hcases as [[Hf Hmove]|(f & h & Hf & _)]; rewrite Hf in *.
    + destruct (Hmove n eq_refl Hn) as (e & He & Hs & Htg & _).
      assert (rank n l < rank name l)%nat; [|lia].
      eapply rank_decreases; [done|done|]. exists e. split; [done|]. split; [congruence|done].
    + rewrite length_app in *. cbn [length] in *. rewrite budget_step in Hfuel by lia. lia.
  - destruct fuel as [|fuel]; [lia|]. cbn [run_flow].
    assert (exists e m2, run_turn r n (seq + 1) None m1 = (Raise e, m2)) as (e & m2 & ->); [|eauto].
    rewrite <- dict_get_None in Hn. unfold run_turn.
    erewrite bindM_run by reflexivity. erewrite bindM_raise; [eauto|]. unfold lift, get_item.
    change (flow_steps r) with (steps_dict config). rewrite Hn. reflexivity.
Qed.
End runs.

(** ** Properties *)

Section run_total.
Context {W : Type} `{StepExecutor W} `{DateTime} `{FloatRepr} `{PyParser}.

(** Turns enough for every run of a workflow: between two failures no step runs twice,
    and every failure takes a byte of the state at least. *)
Definition run_fuel (r : FlowRunner) : nat :=
  S (length (flow_steps r)) * S (S (Z.to_nat (workflow_state_bytes (fr_limits r)))).

Lemma no_issues_no_cycle w : analyze_workflow w = [] -> find_cycle (steps_dict w) (normal_edges w) = None.
Proof.
  unfold analyze_workflow. destruct (wc_flow w) as [|first rest] eqn:Hf.
  - intros _. unfold normal_edges, workflow_edges, build_edges, steps_dict. rewrite Hf. done.
  - change (an_steps _) with (steps_dict w). change (an_execution _) with (normal_edges w).
    by destruct (find_cycle (steps_dict w) (normal_edges w)).
Qed.

Lemma run_flow_enough (r : FlowRunner) cur seq loop (m : machine W) :
  valid_flow (fr_config r) -> analyze_workflow (fr_config r) = [] -> fr_bounded_execution r = true ->
  exists out, run_flow r (run_fuel r) cur seq loop m = Some out.
Proof.
  intros Hv Ha Hb. destruct cur as [name|]; [|destruct (run_fuel r); cbn; eauto].
  destruct (ranked_steps _ (no_issues_no_cycle _ Ha)) as (l & Hl & Hcover & Hlen).
  destruct (run_flow_total r l Hv Hb Hl Hcover _ name seq loop m (Nat.le_refl _)) as [out Hout].
  exists out. eapply run_flow_mono; [exact Hout|]. unfold turns_left, budget, run_fuel, failures_bound.
  pose proof (rank_le name l). change (length (flow_steps r)) with (length (steps_dict (fr_config r))).
  set (B := Z.to_nat _). set (N := length (steps_dict _)) in *. set (f := length (rs_failures _)).
  nia.
Qed.

(** C3: Every run terminates.  If the flow steps pass their validators, no branch names
    both a default and a target, and the analysis reports nothing, then with bounded
    execution a run from any trigger or checkpoint returns or raises, whatever the
    executor answers: also when failure handlers lead back to steps that fail again. *)
Theorem run_terminates (r : FlowRunner) (request_id : string) (trigger : raw)
    (checkpoint : option RunnerCheckpoint) (w : W)
    (Hvalid : valid_flow (fr_config r)) (Hanalysis : analyze_workflow (fr_config r) = [])
    (Hbounded : fr_bounded_execution r = true) :
  exists out, forall fuel, (run_fuel r <= fuel)%nat -> run r fuel request_id trigger checkpoint w = Some out.
Proof.
  assert (forall m, exists out, forall fuel, (run_fuel r <= fuel)%nat ->
    execute r fuel trigger checkpoint m = Some out) as Hex.
  { intros m. unfold execute. destruct (co_request_id _) as [id|]; [|eauto].
    destruct (match checkpoint with Some _ => _ | None => _ end) as [[u|e] m1]; [|eauto].
    destruct (wc_flow (fr_config r)) as [|first rest] eqn:Hf; [eauto|].
    set (entry := match checkpoint with Some c => _ | None => _ end).
    destruct (run_flow_enough r entry.1.1 entry.1.2 entry.2 m1 Hvalid Hanalysis Hbounded) as [out Hout].
    assert (forall fuel, (run_fuel r <= fuel)%nat -> run_flow r fuel entry.1.1 entry.1.2 entry.2 m1 = Some out)
      as Hall by (intros; by eapply run_flow_mono).
    destruct out as [[reason|e] m2]; eexists; intros fuel Hfuel; by rewrite (Hall fuel Hfuel). }
  destruct (Hex (restore_state r request_id checkpoint w)) as [[[record|e] m] Hout];
    eexists; intros fuel Hfuel; unfold run; by rewrite (Hout fuel Hfuel).
Qed.
End run_total.

Lemma run_terminates_witness :
  exists out, forall fuel, (run_fuel (sample_runner sample_workflow) <= fuel)%nat ->
    run (sample_runner sample_workflow) fuel "req" (RDict []) None (script_of []) = Some out.
Proof.
  apply run_terminates; [exact sample_workflow_valid|vm_compute; reflexivity|reflexivity].
Defined.
