(* ===== verification/Dataflow.v ===== *)
(** Reference soundness: in a run of an analysed workflow, up to and including the
    handling of its first failure, every root that a step refers to is bound. *)

From S2P Require Export RunnerFacts Samples.

(** ** Parameters *)

Lemma normalize_items_keys path f acc l d k :
  normalize_items path f acc l = Ok d ->
  (dict_mem k acc = true \/ exists x, (RStr k, x) ∈ l) -> dict_mem k d = true.
Proof.
  revert acc; induction l as [|[[] x] l IH]; intros acc; cbn; try done.
  - intros [= ->] [Hk|(x & Hx%not_elem_of_nil)]; done.
  - intros Hd Hk. inv_ok. eapply IH; [exact Hd|]. rewrite dict_mem_set.
    destruct Hk as [->|(y & [[= -> ->]|Hy]%elem_of_cons)]; [left; apply orb_true_r|left|right; by exists y].
    by rewrite bool_decide_eq_true_2.
Qed.

Lemma normalize_object_keys path n l d k x :
  normalize_json_object path n (RDict l) = Ok d -> (RStr k, x) ∈ l -> dict_mem k d = true.
Proof.
  unfold normalize_json_object, normalize_value. cbn [normalize_json_value]. intros Hn Hk.
  apply bind_Ok in Hn as (j & Hj & Hn). destruct (_ <? _)%Z in Hj; [done|].
  apply bind_Ok in Hj as (u & _ & Hj). destruct j as [| | | | | |d']; try done. injection Hn as ->.
  destruct (normalize_items _ _ _ _) as [d'|] eqn:Hi; [|done]. injection Hj as ->.
  eapply normalize_items_keys; [exact Hi|]. right. by exists x.
Qed.

Section params.
Context `{FloatRepr}.

Lemma interpolate_dict_keys l params v :
  interpolate_params (RDict l) params = Ok v ->
  exists l', v = RDict l' /\ forall k x, (k, x) ∈ l -> exists y, (k, y) ∈ l'.
Proof.
  cbn [interpolate_params]. intros Hv.
  destruct (traverse _ l) as [l'|] eqn:Ht; [|done]. injection Hv as <-. exists l'. split; [done|].
  apply traverse_Ok in Ht. intros k x Hin. apply list_elem_of_lookup in Hin as [i Hi].
  destruct (Forall2_lookup_l _ _ _ _ _ Ht Hi) as ([k' y] & Hi' & Heq). cbn in Heq.
  apply bind_Ok in Heq as (y' & _ & [= -> ->]). exists y. by eapply list_elem_of_lookup_2.
Qed.

Lemma build_params_keys r request_id globals params x :
  build_params r request_id globals = Ok params -> x ∈ workflow_roots (fr_config r) ->
  dict_mem x params = true.
Proof.
  unfold build_params. set (given := dict_set _ _ _). intros Hb Hx. inv_ok.
  destruct (interpolate_dict_keys _ _ _ Ha) as (l' & -> & Hl').
  assert (exists v, (RStr x, v) ∈ map (fun kv => (RStr kv.1, json_raw kv.2)) given) as [v Hv].
  { assert (is_Some (dict_get x given)) as [v Hv%dict_get_elem].
    { apply dict_mem_true. unfold given. rewrite dict_mem_set.
      unfold workflow_roots in Hx. apply elem_of_union in Hx as [Hx|Hx%elem_of_singleton];
        [|by rewrite bool_decide_eq_true_2]. rewrite elem_of_list_to_set in Hx.
      apply orb_true_iff. right. apply dict_mem_true, dict_get_Some_keys, dict_keys_update. left.
      revert Hx. unfold dict_keys. rewrite <- list_fmap_compose. done. }
    exists (json_raw v). by apply (list_elem_of_fmap_2 (fun kv => (RStr kv.1, json_raw kv.2)) given (x, v)). }
  destruct (Hl' _ _ Hv) as [y Hy].
  destruct a1; inv_ok; try done. eapply normalize_object_keys; [|exact Hy]. eassumption.
Qed.
End params.

(** ** The invariant of the flow loop *)

Lemma path_symbols_nil : path_symbols [] = ∅.
Proof. done. Qed.

Lemma way_snoc w first n roots e :
  way w first n roots -> e ∈ normal_edges w -> ed_source e = n ->
  way w first (ed_target e) (roots ∪ ed_produced e).
Proof.
  intros [p n' Hp|p f q n' Hp Hf Hk Hq] He Hs; rewrite <- (assoc_L (∪)), <- path_symbols_snoc.
  - apply way_normal. by eapply flow_path_snoc.
  - apply way_handler; [done..|]. by eapply flow_path_snoc.
Qed.

(** Every root of the set is an output or a parameter. *)
Definition supplied (roots : names) (s : RunState) : Prop :=
  forall x, x ∈ roots -> dict_mem x (rs_step_outputs s) = true \/ dict_mem x (rs_params s) = true.

Lemma supplied_mono roots s s' :
  rs_params s' = rs_params s -> grows (rs_step_outputs s) (rs_step_outputs s') ->
  supplied roots s -> supplied roots s'.
Proof. intros Hp Hg Hs x Hx. rewrite Hp. destruct (Hs x Hx); [left; by apply Hg|by right]. Qed.

Lemma supplied_union roots roots' s : supplied roots s -> supplied roots' s -> supplied (roots ∪ roots') s.
Proof. intros H1 H2 x [?|?]%elem_of_union; auto. Qed.

Section invariant.
Context {W : Type} `{StepExecutor W} `{DateTime} `{FloatRepr} `{PyParser}.
Variables (r : FlowRunner) (first : string).
Abbreviation config := (fr_config r).
Hypothesis Hvalid : valid_flow config.

(** The machine at the head of a turn, from the machine [m0] at the head of the first. *)
Inductive reaches (m0 : machine W) : string -> Z -> option LoopCheckpoint -> machine W -> Prop :=
| reach_first : reaches m0 first 0 None m0
| reach_turn name seq loop m next seq' m' :
    reaches m0 name seq loop m -> run_turn r name seq loop m = (Ok (Continue (Some next) seq'), m') ->
    reaches m0 next seq' None m'.

(** Before the first failure the flow is on a path of normal execution, and up to the
    second on a way; the roots that path or way provides are supplied. *)
Definition flow_invariant (name : string) (s : RunState) : Prop :=
  (rs_failures s = [] -> exists p, flow_path (normal_edges config) first p name /\
     supplied (workflow_roots config ∪ path_symbols p) s) /\
  ((length (rs_failures s) <= 1)%nat -> exists roots, way config first name roots /\ supplied roots s).

Lemma turn_effect_invariant step seq s (m' : machine W) next seq' :
  step ∈ wc_flow config -> st_terminal step = false -> next ∈ dict_keys (steps_dict config) ->
  turn_effect r step seq s m' (Continue (Some next) seq') ->
  flow_invariant (st_name step) s -> flow_invariant next (m_state m').
Proof.
  intros Hin Hterm Hn (n & [= <- ->] & _ & Hp & Hg & Hcases) [Hnormal Hway].
  destruct Hcases as [[Hf Hmove]|(f & h & Hf & [= ->] & Hh & Hop & Herr)]; unfold flow_invariant; rewrite Hf.
  - destruct (Hmove next eq_refl Hn) as (e & He & Hs & <- & Hprod). split.
    + intros Hnil. destruct (Hnormal Hnil) as (p & Hpath & Hsup). exists (p ++ [e]).
      split; [by eapply flow_path_snoc|]. rewrite path_symbols_snoc, (assoc_L (∪)).
      apply supplied_union; [by eapply supplied_mono|]. intros x Hx. left. by apply Hprod.
    + intros Hlen. destruct (Hway Hlen) as (roots & Hw & Hsup). exists (roots ∪ ed_produced e).
      split; [by eapply way_snoc|].
      apply supplied_union; [by eapply supplied_mono|]. intros x Hx. left. by apply Hprod.
  - split; [by destruct (rs_failures s)|]. rewrite length_app. cbn. intros Hlen.
    destruct (rs_failures s) as [|f' l]; [|cbn in Hlen; lia].
    destruct (Hnormal eq_refl) as (p & Hpath & Hsup).
    pose proof (failure_edge config step h Hterm Hop Hh Hn) as He.
    set (e := {| ed_source := st_name step; ed_target := h; ed_kind := FAILURE;
                 ed_produced := {[ ERROR_ROOT ]} |}) in *.
    exists (workflow_roots config ∪ path_symbols p ∪ ed_produced e ∪ path_symbols []). split.
    + apply way_handler; [exact Hpath| | |constructor].
      * apply elem_build_edges. by exists step.
      * by apply bool_decide_eq_true.
    + rewrite path_symbols_nil, (right_id_L ∅ (∪)).
      apply supplied_union; [by eapply supplied_mono|]. intros x Hx. left. cbn in Hx. apply elem_of_singleton in Hx as ->. done.
Qed.

Lemma reaches_invariant m0 name seq loop m :
  reaches m0 name seq loop m -> name ∈ dict_keys (steps_dict config) ->
  rs_failures (m_state m0) = [] -> supplied (workflow_roots config) (m_state m0) ->
  flow_invariant name (m_state m).
Proof.
  intros Hr Hn Hf Hsup. revert Hn. induction Hr as [|name seq loop m next seq' m' _ IH Ht]; intros Hn.
  - assert (supplied (workflow_roots config ∪ path_symbols []) (m_state m0)) as Hs0
      by (by rewrite path_symbols_nil, (right_id_L ∅ (∪))).
    split; intros _; [exists []; split; [constructor|done]|].
    exists (workflow_roots config ∪ path_symbols []). split; [apply way_normal; constructor|done].
  - apply run_turn_spec in Ht as (step & Hstep & Hin & Hname & Ht); [|done].
    destruct (st_terminal step) eqn:Hterm; [by destruct Ht|].
    eapply turn_effect_invariant; [exact Hin|done|done|exact Ht|]. rewrite Hname. apply IH.
    apply dict_get_Some_keys. by eexists.
Qed.
End invariant.

Lemma start_run_spec {W : Type} `{StepExecutor W} `{FloatRepr} (r : FlowRunner) request_id trigger (m m0 : machine W) :
  start_run r request_id trigger m = (Ok tt, m0) ->
  rs_failures (m_state m0) = rs_failures (m_state m) /\
  forall x, x ∈ workflow_roots (fr_config r) -> dict_mem x (rs_params (m_state m0)) = true.
Proof.
  unfold start_run. intros Hs. inv_M.
  match goal with H : match wc_input_schema _ with _ => _ end _ = _ |- _ =>
    apply (frames_state (match wc_input_schema (fr_config r) with _ => _ end)) in H as Hst;
      [|destruct (wc_input_schema (fr_config r)); auto with frames] end.
  cbn. rewrite Hst. split; [done|]. intros x Hx. by eapply build_params_keys.
Qed.

(** ** Properties *)


