(* ===== verification/Iteration.v ===== *)
(** Iteration: the pool of tasks of one parallel chunk completes every item once and in
    its place, whatever the order of completion, and a parallel iteration gives what the
    sequential one gives when the services answer each call in one way. *)

From S2P Require Export RunnerFacts Samples.

(** ** Lists *)

Lemma omap_all_Some {A B} (f : A -> option B) (l : list A) :
  (forall x, x ∈ l -> is_Some (f x)) ->
  length (omap f l) = length l /\ forall i x, l !! i = Some x -> omap f l !! i = f x.
Proof.
  induction l as [|x l IH]; intros Hf; [done|]. destruct (Hf x) as [y Hy]; [by left|].
  destruct IH as [Hlen Hl]; [intros; apply Hf; by right|]. cbn. rewrite Hy. split; [cbn; by rewrite Hlen|].
  intros [|i] x' Hx; cbn in *; [by injection Hx as <-|auto].
Qed.

Lemma dict_get_nodup {V} (l : list (nat * V)) i v :
  NoDup (map fst l) -> (i, v) ∈ l -> dict_get i l = Some v.
Proof.
  induction l as [|[j x] l IH]; cbn; [by intros _ ?%not_elem_of_nil|].
  intros [Hj Hnd]%NoDup_cons [[= -> ->]|Hin]%elem_of_cons; [by rewrite decide_True|].
  rewrite decide_False; [auto|]. intros ->. destruct Hj. by apply (list_elem_of_fmap_2 fst l (j, v)).
Qed.

Definition numbered {A} (l : list A) : list (nat * A) := imap (fun i x => (i, x)) l.

Lemma numbered_lookup {A} (l : list A) i : numbered l !! i = pair i <$> l !! i.
Proof. unfold numbered. rewrite list_lookup_imap. by destruct (l !! i). Qed.

Lemma drop_numbered {A} (l : list A) k i x rest :
  drop k (numbered l) = (i, x) :: rest -> i = k /\ l !! k = Some x /\ rest = drop (S k) (numbered l).
Proof.
  intros Hd. assert (numbered l !! k = Some (i, x)) as Hk.
  { rewrite <- (Nat.add_0_r k), <- lookup_drop, Hd. done. }
  rewrite numbered_lookup in Hk. destruct (l !! k) as [x'|] eqn:Hx; [|done]. injection Hk as -> ->.
  split; [done|]. split; [done|]. replace (S i) with (i + 1)%nat by lia. by rewrite <- drop_drop, Hd.
Qed.

Lemma drop_numbered_nil {A} (l : list A) k : drop k (numbered l) = [] -> (k <= length l)%nat -> k = length l.
Proof.
  intros Hd Hk. assert (length (drop k (numbered l)) = 0%nat) as Hl by by rewrite Hd.
  rewrite length_drop in Hl. unfold numbered in Hl. rewrite length_imap in Hl. lia.
Qed.

(** ** The invocations of one item *)

Section counts.
Context {W : Type} `{StepExecutor W} `{DateTime} `{FloatRepr} `{PyParser}.
Variable r : FlowRunner.

Lemma begin_invoke_invocations sd name input globals params (m : machine W) :
  m_invocations (begin_invoke r sd name input globals params m).2 = (m_invocations m + 1)%Z.
Proof.
  unfold begin_invoke, count_invocation, mbind, M_bind, mret, M_ret, lift. cbn.
  repeat (case_match; simplify_eq/=; try done).
Qed.

Lemma begin_item_invocations step sd input globals params entry (m : machine W) :
  m_invocations (begin_item r step sd input globals params entry m).2 = (m_invocations m + 1)%Z.
Proof. destruct entry. apply begin_invoke_invocations. Qed.

Lemma end_invoke_invocations call (m : machine W) :
  m_invocations (end_invoke r call m).2 = m_invocations m.
Proof.
  destruct call as [w n g|iv sv]; cbn; unfold mbind, M_bind, external, lift.
  - destruct (run_subworkflow _ _ _ _) as [[x|e] w']; cbn; [|done]. by destruct (normalize_value _ _ _).
  - destruct (run_step _ _ _) as [[x|e] w']; cbn; [|done]. by destruct (normalize_value _ _ _).
Qed.
End counts.

(** The outcomes are those of the entries, in their order, and none of them escapes. *)
Definition outcomes_of (strategy : IterationFailStrategy) (entries : list (iteration_key * json))
    (Q : nat -> res json -> Prop) (outcomes : list item_outcome) : Prop :=
  length outcomes = length entries /\
  forall i entry, entries !! i = Some entry -> exists y, outcomes !! i = Some (entry.1, y) /\ Q i y /\
    match y with Ok _ => True | Raise e => escapes strategy e = false end.

Lemma outcomes_of_keys strategy entries Q outcomes :
  outcomes_of strategy entries Q outcomes -> map fst outcomes = map fst entries.
Proof.
  unfold outcomes_of. intros [Hlen Hl]. apply list_eq. intros i. rewrite !list_lookup_fmap.
  destruct (entries !! i) as [entry|] eqn:He.
  - destruct (Hl _ _ He) as (y & -> & _). done.
  - apply lookup_ge_None in He. rewrite lookup_ge_None_2 by lia. done.
Qed.

Lemma outcomes_of_app strategy l1 l2 Q o1 o2 :
  outcomes_of strategy l1 Q o1 -> outcomes_of strategy l2 (fun i => Q (length l1 + i)%nat) o2 ->
  outcomes_of strategy (l1 ++ l2) Q (o1 ++ o2).
Proof.
  unfold outcomes_of. intros [Hn1 H1] [Hn2 H2].
  split; [rewrite !length_app; congruence|]. intros i entry. rewrite !lookup_app. destruct (l1 !! i) as [x|] eqn:Hx.
  - intros [= <-]. destruct (H1 _ _ Hx) as (y & Hy & HQ). exists y. by rewrite Hy.
  - intros Hi. apply lookup_ge_None in Hx. destruct (H2 _ _ Hi) as (y & Hy & HQ). exists y.
    rewrite lookup_ge_None_2, Hn1 by lia. split; [done|].
    by replace (length l1 + (i - length l1))%nat with i in HQ by lia.
Qed.

(** ** The pool of one chunk *)

Section pool.
Context {W : Type} `{StepExecutor W} `{DateTime} `{FloatRepr} `{PyParser}.
Variables (r : FlowRunner) (step : FlowStep) (sd : StepDefinition) (input : json).
Variables (globals params : list (string * json)) (strategy : IterationFailStrategy).
Variables (entries : list (iteration_key * json)) (base : Z).

(** What holds of a call that runs, and of an outcome. *)
Variables (R : nat -> prepared_call -> Prop) (Q : nat -> res json -> Prop).

Hypothesis Hbegin : forall i entry (m : machine W),
  entries !! i = Some entry -> m_invocations m = (base + Z.of_nat i)%Z ->
  match (begin_item r step sd input globals params entry m).1 with
  | Ok call => R i call
  | Raise e => Q i (Raise e)
  end.

Hypothesis Hend : forall i call (m : machine W),
  R i call -> Q i (sr_data <$> (end_invoke r call m).1).

Definition running_ok (x : nat * iteration_key * prepared_call) : Prop :=
  exists entry, entries !! x.1.1 = Some entry /\ x.1.2 = entry.1 /\ R x.1.1 x.2.

Definition done_ok (x : nat * item_outcome) : Prop :=
  exists entry, entries !! x.1 = Some entry /\ x.2.1 = entry.1 /\ Q x.1 x.2.2.

Definition positions (p : pool) : list nat := map (fun x => x.1.1) (pl_running p) ++ map fst (pl_done p).

(** The tasks from number [k] to number [k'] have started. *)
Definition started (k k' : nat) (p : pool) (m : machine W) : Prop :=
  (k <= k' <= length entries)%nat /\ pl_waiting p = drop k' (numbered entries) /\
  m_invocations m = (base + Z.of_nat k')%Z /\ positions p ≡ₚ seq k (k' - k) /\
  Forall running_ok (pl_running p) /\ Forall done_ok (pl_done p).

Abbreviation start := (start_tasks (W := W) r step sd input globals params).
Abbreviation pool_loop fuel := (run_pool (W := W) r fuel step sd input globals params strategy).

Lemma start_tasks_spec permits waiting k m :
  waiting = drop k (numbered entries) -> (k <= length entries)%nat ->
  m_invocations m = (base + Z.of_nat k)%Z ->
  exists p m' k', start permits waiting m = (Ok p, m') /\ started k k' p m' /\
    (k' = length entries \/ length (pl_running p) = permits).
Proof.
  revert permits k m; induction waiting as [|[i entry] waiting IH]; intros permits k m Hw Hk Hm.
  - exists {| pl_waiting := []; pl_running := []; pl_done := [] |}, m, k. cbn.
    assert (k = length entries) as -> by by apply drop_numbered_nil.
    split; [done|]. split; [|by left]. unfold started, positions. cbn. rewrite <- Hw, Nat.sub_diag.
    repeat split; auto.
  - pose proof Hw as Hd. symmetry in Hd. apply drop_numbered in Hd as (-> & He & Hrest).
    assert (S k <= length entries)%nat as Hk' by by apply lookup_lt_Some in He.
    destruct permits as [|permits].
    { exists {| pl_waiting := (k, entry) :: waiting; pl_running := []; pl_done := [] |}, m, k. cbn.
      split; [done|]. split; [|by right]. unfold started, positions. cbn. rewrite <- Hw, Nat.sub_diag.
      repeat split; auto. }
    pose proof (Hbegin k entry m He Hm) as Hb.
    pose proof (begin_item_invocations r step sd input globals params entry m) as Hn.
    destruct (begin_item r step sd input globals params entry m) as [[call|e] m1] eqn:Hbi;
      cbn in Hb, Hn; [destruct (IH permits (S k) m1) as (p & m' & k' & Hs & Hst & Hfull)
                     |destruct (IH (S permits) (S k) m1) as (p & m' & k' & Hs & Hst & Hfull)]; try done; try lia;
      destruct Hst as (Hle & Hwait & Hinv & Hpos & Hrun & Hdone);
      (eexists _, m', k'; split;
        [cbn [start_tasks]; unfold attempt, fmap, M_fmap, mbind, M_bind; rewrite Hbi; cbn; rewrite Hs; done|]);
      (split; [|cbn; destruct Hfull; [by left|right; lia]]);
      unfold started, positions in *; replace (k' - k)%nat with (S (k' - S k)) by lia; cbn.
    + split; [lia|]. split; [done|]. split; [done|]. split; [|split; [constructor; [by exists entry|done]|done]].
      by apply Permutation_skip.
    + split; [lia|]. split; [done|]. split; [done|].
      split; [|split; [done|constructor; [by exists entry|done]]].
      rewrite <- Permutation_middle. by apply Permutation_skip.
Qed.

Lemma pick_running_spec choice running :
  match pick_running choice running with
  | Some (x, rest) => running ≡ₚ x :: rest
  | None => running = []
  end.
Proof.
  unfold pick_running. set (i := choice `mod` length running).
  destruct (running !! i) as [x|] eqn:Hx; cbn.
  - by rewrite <- (take_drop_middle _ _ _ Hx) at 1; rewrite <- Permutation_middle.
  - destruct running as [|y l]; [done|]. apply lookup_ge_None in Hx.
    assert (i < length (y :: l))%nat; [|lia]. by apply Nat.mod_upper_bound.
Qed.

(** What the pool loop ends with. *)
Definition pool_result (x : res (list (nat * item_outcome)) * machine W) : Prop :=
  match x with
  | (Ok done, m) => map fst done ≡ₚ seq 0 (length entries) /\ Forall done_ok done /\
      escaping strategy done = None /\ m_invocations m = (base + Z.of_nat (length entries))%Z
  | (Raise e, _) => escapes strategy e = true /\ exists i entry, entries !! i = Some entry /\ Q i (Raise e)
  end.

Lemma escaping_Some l e :
  escaping strategy l = Some e -> escapes strategy e = true /\ exists i key, (i, (key, Raise e)) ∈ l.
Proof.
  induction l as [|[i [key [v|e']]] l IH]; cbn; [done| |].
  - intros (He & i' & k' & Hin)%IH. split; [done|]. exists i', k'. by right.
  - destruct (escapes strategy e') eqn:Hesc.
    + intros [= <-]. split; [done|]. exists i, key. by left.
    + intros (He & i' & k' & Hin)%IH. split; [done|]. exists i', k'. by right.
Qed.

Lemma escaping_None l o : escaping strategy l = None -> o ∈ l ->
  match o.2.2 with Ok _ => True | Raise e => escapes strategy e = false end.
Proof.
  induction l as [|[i [key [v|e']]] l IH]; cbn; [by intros _ ?%not_elem_of_nil| |].
  - intros He [->|Hin]%elem_of_cons; [done|]. by apply IH.
  - destruct (escapes strategy e') eqn:Hesc; [done|]. intros He [->|Hin]%elem_of_cons; [done|].
    by apply IH.
Qed.

Lemma done_escapes p e : Forall done_ok (pl_done p) -> escaping strategy (pl_done p) = Some e ->
  escapes strategy e = true /\ exists i entry, entries !! i = Some entry /\ Q i (Raise e).
Proof.
  intros Hd (He & i & key & Hin)%escaping_Some. split; [done|].
  rewrite Forall_forall in Hd. destruct (Hd _ Hin) as (entry & Hentry & _ & HQ). by exists i, entry.
Qed.

Lemma positions_length k p m : started 0 k p m ->
  (length (pl_running p) + length (pl_done p) = k)%nat.
Proof.
  intros (Hle & _ & _ & Hpos & _). apply Permutation_length in Hpos. unfold positions in Hpos.
  rewrite length_app, !length_map, length_seq in Hpos. lia.
Qed.

(** A completed call leaves the running ones, and the next task takes its permit. *)
Lemma pool_step k k' p i key call running (started_ : pool) (m m' : machine W) x :
  started 0 k p m -> pl_running p ≡ₚ (i, key, call) :: running -> Q i x ->
  started k k' started_ m' ->
  started 0 k' {| pl_waiting := pl_waiting started_; pl_running := running ++ pl_running started_;
                  pl_done := pl_done p ++ (i, (key, x)) :: pl_done started_ |} m'.
Proof.
  intros (Hle & _ & _ & Hpos & Hrun & Hdone) Hp HQ (Hle' & Hwait & Hinv & Hpos' & Hrun' & Hdone').
  rewrite Hp in Hrun. apply Forall_cons in Hrun as [(entry & He & Hkey & _) Hrun]. cbn in *.
  split; [lia|]. split; [done|]. split; [done|]. split; [|split].
  - rewrite Nat.sub_0_r in *. replace k' with (k + (k' - k))%nat by lia. rewrite seq_app.
    unfold positions in *. cbn. rewrite <- Hpos', <- Hpos, Hp. cbn. rewrite !map_app. cbn.
    rewrite <- !Permutation_middle. cbn. apply Permutation_skip. solve_Permutation.
  - by apply Forall_app.
  - apply Forall_app. split; [done|]. constructor; [by exists entry|done].
Qed.

Lemma run_pool_spec fuel k p m :
  started 0 k p m -> (k = length entries \/ pl_running p <> []) ->
  (length entries <= length (pl_done p) + fuel)%nat ->
  pool_result (pool_loop fuel p m).
Proof.
  revert k p m; induction fuel as [|fuel IH]; intros k p m Hst Hbusy Hfuel;
    pose proof (positions_length _ _ _ Hst) as Hlen; pose proof Hst as (Hle & Hwait & Hinv & Hpos & Hrun & Hdone);
    cbn [run_pool];
    (destruct (escaping strategy (pl_done p)) as [e|] eqn:Hesc; [by eapply done_escapes|]).
  - assert (length (pl_running p) = 0%nat /\ k = length entries) as [Hr ->] by lia.
    apply nil_length_inv in Hr. unfold positions in Hpos. rewrite Hr, Nat.sub_0_r in Hpos. by repeat split.
  - unfold mbind at 1, M_bind at 1, external at 1.
    destruct (next_completion (length (pl_running p)) (m_world m)) as [choice w].
    pose proof (pick_running_spec choice (pl_running p)) as Hpick.
    destruct (pick_running choice (pl_running p)) as [[[[i key] call] running]|].
    + unfold mbind at 1, M_bind at 1.
      set (m1 := Machine (m_state m) (m_invocations m) w).
      destruct (attempt _ _ m1) as [outcome m2] eqn:Hatt.
      assert (m_invocations m2 = m_invocations m /\ exists x, Q i x /\ outcome = Ok (key, x)) as (Hm2 & x & HQ & ->).
      { assert (R i call) as HR.
        { rewrite Hpick in Hrun. apply Forall_cons in Hrun as [(entry & _ & _ & HR) _]. exact HR. }
        pose proof (Hend i call m1 HR) as HQ. pose proof (end_invoke_invocations r call m1) as Hn.
        unfold attempt, mbind, M_bind in Hatt. destruct (end_invoke r call m1) as [[v|e] m3]; cbn in HQ, Hn;
          injection Hatt as <- <-; split; eauto. }
      unfold mbind at 1, M_bind at 1.
      destruct (start_tasks_spec 1 (pl_waiting p) k m2) as (p' & m' & k' & -> & Hst' & Hfull); [done|lia|congruence|].
      match goal with |- pool_result (pool_loop fuel ?q ?n) => apply (IH k' q n) end.
      * by eapply pool_step.
      * cbn. destruct Hfull as [?|Hone]; [by left|right]. intros [_ Hnil]%app_nil. rewrite Hnil in Hone. done.
      * cbn. rewrite length_app. cbn. lia.
    + rewrite Hpick in *. destruct Hbusy as [->|?]; [|done]. unfold positions in Hpos.
      rewrite Hpick, Nat.sub_0_r in Hpos. cbn in Hpos. by repeat split.
Qed.

(** ** One chunk *)

Definition chunk_result (x : res (list item_outcome) * machine W) : Prop :=
  match x with
  | (Ok outcomes, m) => outcomes_of strategy entries Q outcomes /\
      m_invocations m = (base + Z.of_nat (length entries))%Z
  | (Raise e, _) => escapes strategy e = true /\ exists i entry, entries !! i = Some entry /\ Q i (Raise e)
  end.

Lemma collect_outcomes done m :
  pool_result (Ok done, m) ->
  chunk_result (Ok (omap (fun i => dict_get i done) (seq 0 (length entries))), m).
Proof.
  intros (Hkeys & Hdone & Hesc & Hinv).
  assert (NoDup (map fst done)) as Hnd by (rewrite Hkeys; apply NoDup_ListNoDup, seq_NoDup).
  assert (forall i, i ∈ seq 0 (length entries) -> exists o, (i, o) ∈ done) as Hin.
  { intros i Hi. rewrite <- Hkeys in Hi. apply list_elem_of_fmap in Hi as ([j o] & -> & Ho). by exists o. }
  destruct (omap_all_Some (fun i => dict_get i done) (seq 0 (length entries))) as [Hlen Hl].
  { intros i (o & Ho)%Hin. exists o. by apply dict_get_nodup. }
  split; [|done]. split; [by rewrite Hlen, length_seq|]. intros i entry Hentry.
  assert (seq 0 (length entries) !! i = Some i) as Hi
    by (apply lookup_seq; split; [done|by apply lookup_lt_Some in Hentry]).
  specialize (Hl _ _ Hi). destruct (Hin i) as ([key y] & Ho); [by eapply list_elem_of_lookup_2|].
  rewrite (dict_get_nodup _ _ _ Hnd Ho) in Hl. rewrite Forall_forall in Hdone.
  destruct (Hdone _ Ho) as (entry' & He' & Hkey & HQ). cbn in *. rewrite Hentry in He'. injection He' as <-.
  subst key. exists y. split; [exact Hl|]. split; [done|]. apply (escaping_None _ _ Hesc Ho).
Qed.

Lemma run_chunk_spec permits m :
  (0 < permits)%nat -> m_invocations m = base ->
  chunk_result (run_chunk (W := W) r step sd input globals params strategy permits entries m).
Proof.
  intros Hp Hm. unfold run_chunk. unfold mbind at 1, M_bind at 1.
  destruct (start_tasks_spec permits (numbered entries) 0 m) as (p & m' & k & Hs & Hst & Hfull); [done|lia|lia|].
  change (imap (fun i e => (i, e)) entries) with (numbered entries). rewrite Hs.
  pose proof (run_pool_spec (length entries) k p m' Hst) as Hpool. unfold mbind, M_bind.
  destruct (pool_loop (length entries) p m') as [[done|e] m2]; cbn in *; [|apply Hpool]; [| |lia].
  - apply collect_outcomes, Hpool; [|lia]. destruct Hfull as [?|Hrun]; [by left|right]. intros Hnil.
    rewrite Hnil in Hrun. cbn in Hrun. lia.
  - destruct Hfull as [?|Hrun]; [by left|right]. intros Hnil. rewrite Hnil in Hrun. cbn in Hrun. lia.
Qed.
End pool.

(** ** The loops over the items *)

Definition extend (step : FlowStep) (strategy : IterationFailStrategy) (progress : iteration_progress)
    (outcomes : list item_outcome) : iteration_progress :=
  (progress.1 ++ map (append_result step strategy) outcomes, (progress.2 + count_failed outcomes)%nat).

Lemma extend_app step strategy progress o1 o2 :
  extend step strategy (extend step strategy progress o1) o2 = extend step strategy progress (o1 ++ o2).
Proof.
  unfold extend, count_failed. cbn. rewrite map_app, List.filter_app, length_app, app_assoc.
  f_equal. lia.
Qed.

Section loops.
Context {W : Type} `{StepExecutor W} `{DateTime} `{FloatRepr} `{PyParser}.
Variables (r : FlowRunner) (step : FlowStep) (sd : StepDefinition) (input : json).
Variables (globals params : list (string * json)) (strategy : IterationFailStrategy).
Variables (entries : list (iteration_key * json)) (base : Z).
Variables (R : nat -> prepared_call -> Prop) (Q : nat -> res json -> Prop).

Hypothesis Hbegin : forall i entry (m : machine W),
  entries !! i = Some entry -> m_invocations m = (base + Z.of_nat i)%Z ->
  match (begin_item r step sd input globals params entry m).1 with
  | Ok call => R i call
  | Raise e => Q i (Raise e)
  end.

Hypothesis Hend : forall i call (m : machine W),
  R i call -> Q i (sr_data <$> (end_invoke r call m).1).

(** The loop from item number [j] on. *)
Definition loop_result (j : nat) (progress : iteration_progress) (x : res iteration_progress * machine W) : Prop :=
  match x with
  | (Ok progress', m) => exists outcomes, outcomes_of strategy (drop j entries) (fun i => Q (j + i)%nat) outcomes /\
      progress' = extend step strategy progress outcomes /\
      m_invocations m = (base + Z.of_nat (length entries))%Z
  | (Raise e, _) => fr_bounded_execution r = true \/
      (escapes strategy e = true /\ exists i entry, (j <= i)%nat /\ entries !! i = Some entry /\ Q i (Raise e))
  end.

Lemma run_item_spec i entry m :
  entries !! i = Some entry -> m_invocations m = (base + Z.of_nat i)%Z ->
  match run_item (W := W) r step sd input globals params strategy entry m with
  | (Ok o, m') => exists y, o = (entry.1, y) /\ Q i y /\ m_invocations m' = (base + Z.of_nat (S i))%Z /\
      match y with Ok _ => True | Raise e => escapes strategy e = false end
  | (Raise e, _) => escapes strategy e = true /\ Q i (Raise e)
  end.
Proof.
  intros He Hm. pose proof (Hbegin i entry m He Hm) as Hb.
  pose proof (begin_item_invocations r step sd input globals params entry m) as Hn.
  unfold run_item, guard_item, attempt, fmap, M_fmap, mbind, M_bind, fail.
  destruct (begin_item _ _ _ _ _ _ _ _) as [[call|e] m1]; cbn in Hb, Hn.
  - pose proof (Hend i call m1 Hb) as HQ. pose proof (end_invoke_invocations r call m1) as Hn1.
    destruct (end_invoke r call m1) as [[v|e] m2]; cbn in HQ, Hn1.
    + exists (Ok (sr_data v)). repeat split; [done|lia].
    + destruct (escapes strategy e) eqn:Hesc; [done|]. exists (Raise e). repeat split; [done|lia|done].
  - destruct (escapes strategy e) eqn:Hesc; [done|]. exists (Raise e). repeat split; [done|lia|done].
Qed.

Lemma record_progress_spec seq t offset outcomes progress m :
  match record_progress (W := W) r step strategy seq t offset outcomes progress m with
  | (Ok progress', m') => progress' = extend step strategy progress outcomes /\
      m_invocations m' = m_invocations m
  | (Raise e, _) => fr_bounded_execution r = true
  end.
Proof.
  unfold record_progress, append_iteration_results, checkpoint_during_loop, mbind, M_bind.
  destruct (fr_bounded_execution r); cbn [when]; [|done].
  unfold checkpoint_at, enforce_checkpoint, mbind, M_bind, mret, M_ret, lift, observe.
  repeat (case_match; simplify_eq/=; try done).
Qed.

Lemma outcomes_of_one i entry y :
  entries !! i = Some entry -> Q i y ->
  match y with Ok _ => True | Raise e => escapes strategy e = false end ->
  outcomes_of strategy [entry] (fun j => Q (i + j)%nat) [(entry.1, y)].
Proof.
  intros He HQ Hesc. split; [done|]. intros [|j] entry' Hj; [|done]. injection Hj as <-.
  exists y. by rewrite Nat.add_0_r.
Qed.

Lemma outcomes_of_shift l j k outcomes :
  outcomes_of strategy l (fun i => Q (j + k + i)%nat) outcomes ->
  outcomes_of strategy l (fun i => Q (j + (k + i))%nat) outcomes.
Proof.
  intros [Hlen Hl]. split; [done|]. intros i entry Hi. destruct (Hl i entry Hi) as (y & ? & HQ & ?).
  exists y. by rewrite Nat.add_assoc.
Qed.

(** The entries from number [j] on done in two parts. *)
Lemma loop_result_cons j k progress o x :
  (j + k <= length entries)%nat ->
  outcomes_of strategy (take k (drop j entries)) (fun i => Q (j + i)%nat) o ->
  loop_result (j + k) (extend step strategy progress o) x -> loop_result j progress x.
Proof.
  intros Hk Ho. destruct x as [[progress'|e] m]; cbn.
  2: { intros [Hb|(He & i & entry & Hi & Hrest)]; [by left|right]. split; [done|]. exists i, entry.
       split; [lia|done]. }
  intros (o' & Ho' & -> & Hm). exists (o ++ o'). rewrite extend_app. split; [|done].
  rewrite <- (take_drop k (drop j entries)), drop_drop. apply outcomes_of_app; [done|].
  apply outcomes_of_shift. rewrite length_take, length_drop, Nat.min_l by lia. done.
Qed.

Lemma loop_result_nil j progress m :
  (length entries <= j)%nat -> m_invocations m = (base + Z.of_nat (length entries))%Z ->
  loop_result j progress (mret (M := M W) progress m).
Proof.
  intros Hj Hm. exists []. rewrite drop_ge by done. unfold extend. cbn.
  rewrite app_nil_r, Nat.add_0_r, <- surjective_pairing. done.
Qed.

Lemma iterate_sequential_spec seq t j offset progress m :
  (j <= length entries)%nat -> m_invocations m = (base + Z.of_nat j)%Z ->
  loop_result j progress (iterate_sequential (W := W) r step sd input globals params strategy seq t offset
    (drop j entries) progress m).
Proof.
  remember (drop j entries) as todo eqn:Htodo.
  revert j offset progress m Htodo; induction todo as [|entry todo IH]; intros j offset progress m Htodo Hj Hm.
  - assert (length entries <= j)%nat as Hle by (apply (f_equal length) in Htodo; rewrite length_drop in Htodo; cbn in Htodo; lia).
    apply loop_result_nil; [done|]. rewrite Hm. repeat f_equal. lia.
  - assert (entries !! j = Some entry /\ todo = drop (S j) entries) as [He Hrest].
    { rewrite <- (Nat.add_0_r j), <- lookup_drop, <- Htodo. split; [done|].
      replace (S (j + 0)) with (j + 1)%nat by lia. by rewrite <- drop_drop, <- Htodo. }
    pose proof He as Hlt%lookup_lt_Some. cbn [iterate_sequential].
    pose proof (run_item_spec j entry m He Hm) as Hitem. unfold mbind, M_bind.
    destruct (run_item _ _ _ _ _ _ _ _ m) as [[o|e] m1]; [|right; destruct Hitem; eauto 6].
    destruct Hitem as (y & -> & HQ & Hm1 & Hesc).
    pose proof (record_progress_spec seq t (S offset) [(entry.1, y)] progress m1) as Hrec.
    destruct (record_progress _ _ _ _ _ _ _ _ m1) as [[progress'|e] m2]; [|by left].
    destruct Hrec as [-> Hm2]. apply (loop_result_cons j 1 _ [(entry.1, y)]); [lia| |].
    + rewrite <- Htodo. cbn. by apply outcomes_of_one.
    + replace (j + 1)%nat with (S j) by lia. apply IH; [done|lia|congruence].
Qed.

Lemma iterate_parallel_spec fuel permits chunk seq t j offset progress m :
  (0 < permits)%nat -> (0 < chunk)%nat -> (length entries <= j + fuel)%nat ->
  (j <= length entries)%nat -> m_invocations m = (base + Z.of_nat j)%Z ->
  loop_result j progress (iterate_parallel (W := W) r fuel step sd input globals params strategy permits chunk
    seq t offset (drop j entries) progress m).
Proof.
  intros Hp Hc. revert j offset progress m; induction fuel as [|fuel IH]; intros j offset progress m Hfuel Hj Hm.
  { apply loop_result_nil; [lia|]. rewrite Hm. repeat f_equal. lia. }
  cbn [iterate_parallel]. destruct (drop j entries) as [|entry rest] eqn:Htodo.
  { assert (length entries <= j)%nat as Hle by (apply (f_equal length) in Htodo; rewrite length_drop in Htodo; cbn in Htodo; lia).
    apply loop_result_nil; [done|]. rewrite Hm. repeat f_equal. lia. }
  rewrite <- Htodo. set (part := take chunk (drop j entries)).
  assert (forall i e, part !! i = Some e -> entries !! (j + i)%nat = Some e) as Hpart.
  { intros i e. unfold part. rewrite lookup_take_Some, lookup_drop. tauto. }
  assert (0 < length part <= length (drop j entries))%nat as Hlen
    by (unfold part; rewrite length_take, Htodo; cbn; lia).
  rewrite length_drop in Hlen.
  pose proof (run_chunk_spec r step sd input globals params strategy part (m_invocations m)
    (fun i => R (j + i)%nat) (fun i => Q (j + i)%nat)) as Hchunk.
  unfold mbind, M_bind.
  specialize (Hchunk ltac:(intros i e m' He Hm'; apply Hbegin; [by apply Hpart|lia])
    ltac:(intros i call m'; apply Hend) permits m Hp eq_refl).
  destruct (run_chunk _ _ _ _ _ _ _ _ _ m) as [[outcomes|e] m1]; cbn in Hchunk.
  2: { right. destruct Hchunk as (He & i & e' & Hi & HQ). split; [done|]. exists (j + i)%nat, e'.
       split; [lia|auto]. }
  destruct Hchunk as [Ho Hm1].
  pose proof (record_progress_spec seq t (offset + length part) outcomes progress m1) as Hrec.
  destruct (record_progress _ _ _ _ _ _ _ _ m1) as [[progress'|e] m2]; [|by left].
  destruct Hrec as [-> Hm2].
  assert (drop chunk (drop j entries) = drop (j + length part) entries) as Hdrop.
  { rewrite drop_drop. unfold part. rewrite length_take, length_drop.
    destruct (Nat.min_spec chunk (length entries - j)) as [[? ->]|[? ->]]; [done|].
    rewrite !drop_ge by lia. done. }
  rewrite Hdrop. apply (loop_result_cons j (length part) _ outcomes); [lia| |apply IH; lia].
  replace (take (length part) (drop j entries)) with part; [done|].
  unfold part. rewrite length_take. destruct (Nat.min_spec chunk (length (drop j entries))) as [[? ->]|[? ->]];
    [done|]. by rewrite !take_ge by lia.
Qed.
End loops.

(** ** The whole iteration *)

Section whole.
Context {W : Type} `{StepExecutor W} `{DateTime} `{FloatRepr} `{PyParser}.
Variable r : FlowRunner.

(** The loop of [_run_iteration] that [parallelism] chooses. *)
Definition iteration_loop (step : FlowStep) (sd : StepDefinition) (input : json)
    (globals params : list (string * json)) (seq : Z) (t : spec_float) (entries : list (iteration_key * json))
    (progress : iteration_progress) : M W iteration_progress :=
  let strategy := default STOP (st_on_iteration_fail step) in
  let todo := drop (length progress.1) entries in
  match (if st_parallel step then st_max_concurrency step else None) with
  | Some n =>
      let chunk_items :=
        if fr_bounded_execution r then Z.to_nat (fanout_chunk_items (fr_limits r))
        else match length entries with
             | O => Z.to_nat (fanout_chunk_items (fr_limits r))
             | len => len
             end in
      iterate_parallel r (length todo) step sd input globals params strategy (Z.to_nat n) chunk_items seq t
        (length progress.1) todo progress
  | None => iterate_sequential r step sd input globals params strategy seq t (length progress.1) todo progress
  end.

Definition resumed (c : option IterationCheckpoint) : iteration_progress :=
  match c with Some c => (ic_results c, ic_failed c) | None => ([], 0%nat) end.

(** Everything [_run_iteration] checks before the loop, but the parallelism. *)
Definition iteration_start (step : FlowStep) (reference : ReferencePath) (sd : StepDefinition) (input : json)
    (outs params : list (string * json)) (c : option IterationCheckpoint) : res json :=
  _ ← reject_loop_cache step sd "for_each";
  items ← resolve_iteration_items (st_name step) reference input outs params;
  _ ← enforce_limit (Z.of_nat (length (iteration_entries items))) (fanout_items (fr_limits r)) FANOUT_ITEMS
        ("steps." +:+ st_name step +:+ ".for_each");
  if invalid_offset c (map fst (iteration_entries items)) || mismatched_keys c (map fst (iteration_entries items))
  then definition_error INVARIANT_VIOLATION "" else Ok items.

Definition parallelism_ok (step : FlowStep) : bool :=
  if st_parallel step then
    match st_max_concurrency step with Some n => (n <=? parallelism (fr_limits r))%Z | None => false end
  else true.

Lemma run_iteration_Ok step reference sd input globals outs params seq t c m out :
  (run_iteration (W := W) r step reference sd input globals outs params seq t c m).1 = Ok out <->
  parallelism_ok step = true /\ exists items progress, iteration_start step reference sd input outs params c = Ok items /\
    (iteration_loop step sd input globals params seq t (iteration_entries items) (resumed c) m).1 = Ok progress /\
    out = iteration_result items progress.
Proof.
  split.
  - destruct (run_iteration _ _ _ _ _ _ _ _ _ _ _ m) as [x m'] eqn:Hrun. cbn. intros ->.
    unfold run_iteration in Hrun. inv_M.
    repeat match goal with u : unit |- _ => destruct u end.
    split; [|eexists _, _; split; [|split; [exact (f_equal fst Ha6)|done]]].
    + unfold parallelism_ok. destruct (st_parallel step); [|done].
      destruct (st_max_concurrency step) as [n|]; [|done]. unfold enforce_limit in Ha1. rewrite Z.leb_antisym.
      by destruct (parallelism _ <? n)%Z.
    + unfold iteration_start. rewrite Ha. cbn. rewrite Ha2. cbn. rewrite Ha3. cbn.
      destruct (invalid_offset _ _); [done|]. by destruct (mismatched_keys _ _).
  - intros (Hpar & items & progress & Hstart & Hloop & ->). unfold iteration_start in Hstart. inv_ok.
    repeat match goal with u : unit |- _ => destruct u end.
    destruct (invalid_offset c (map fst (iteration_entries a0))) eqn:Ho; [done|].
    destruct (mismatched_keys c (map fst (iteration_entries a0))) eqn:Hk; [done|]. injection Hstart as ->.
    destruct (iteration_loop _ _ _ _ _ _ _ _ _ m) as [x m'] eqn:Hl. cbn in Hloop. subst x.
    unfold run_iteration.
    erewrite bindM_run by (unfold lift; rewrite Ha; reflexivity).
    erewrite bindM_run; [|unfold lift, parallelism_ok in *; destruct (st_parallel step), (st_max_concurrency step);
      done].
    erewrite bindM_run; [|unfold lift, parallelism_ok, enforce_limit in *;
      destruct (st_parallel step); [|done]; destruct (st_max_concurrency step); [|done];
      rewrite Z.leb_antisym in Hpar; by destruct (_ <? _)%Z].
    erewrite bindM_run by (unfold lift; rewrite Ha0; reflexivity).
    erewrite bindM_run by (unfold lift; rewrite Ha1; reflexivity).
    erewrite bindM_run by (unfold lift; rewrite Ho; reflexivity).
    erewrite bindM_run by (unfold lift; rewrite Hk; reflexivity).
    erewrite bindM_run by exact Hl. reflexivity.
Qed.
End whole.

Section facts.
Context {W : Type} `{StepExecutor W} `{DateTime} `{FloatRepr} `{PyParser}.
Variable r : FlowRunner.

Lemma iteration_start_offset step reference sd input outs params c items :
  iteration_start r step reference sd input outs params c = Ok items ->
  (length (resumed c).1 <= length (iteration_entries items))%nat /\
  map result_key (resumed c).1 = take (length (resumed c).1) (map fst (iteration_entries items)).
Proof.
  unfold iteration_start. intros Hs. inv_ok. destruct (invalid_offset _ _ || mismatched_keys _ _) eqn:Hc; [done|].
  injection Hs as ->. apply orb_false_elim in Hc as [Ho Hk]. destruct c as [c|]; cbn in *; [|split; [lia|done]].
  apply orb_false_elim in Ho as [Hlen Hle]. apply negb_false_iff, Nat.eqb_eq in Hlen.
  apply Nat.ltb_ge in Hle. rewrite length_map in Hle. split; [lia|].
  by apply negb_false_iff, bool_decide_eq_true in Hk.
Qed.

(** The strategy, concurrency and chunk size that a valid declaration and valid limits give. *)
Definition iteration_valid (step : FlowStep) : Prop :=
  (forall n, st_max_concurrency step = Some n -> (1 <= n)%Z) /\ (1 <= fanout_chunk_items (fr_limits r))%Z.

Lemma iteration_loop_spec step sd input globals params seq t entries progress m base R Q :
  iteration_valid step -> (length progress.1 <= length entries)%nat ->
  (forall i entry (m : machine W), entries !! i = Some entry -> m_invocations m = (base + Z.of_nat i)%Z ->
     match (begin_item r step sd input globals params entry m).1 with
     | Ok call => R i call
     | Raise e => Q i (Raise e)
     end) ->
  (forall i call (m : machine W), R i call -> Q i (sr_data <$> (end_invoke r call m).1)) ->
  m_invocations m = (base + Z.of_nat (length progress.1))%Z ->
  loop_result r step (default STOP (st_on_iteration_fail step)) entries base Q (length progress.1) progress
    (iteration_loop r step sd input globals params seq t entries progress m).
Proof.
  intros [Hn Hchunk] Hlen Hbegin Hend Hm. unfold iteration_loop.
  destruct (st_parallel step); [destruct (st_max_concurrency step) as [n|] eqn:Hmax|].
  - specialize (Hn n eq_refl). eapply (iterate_parallel_spec _ _ _ _ _ _ _ _ _ R); [done|done|lia| | |lia|done].
    + destruct (fr_bounded_execution r); [lia|]. destruct (length entries); lia.
    + rewrite length_drop. lia.
  - by eapply (iterate_sequential_spec _ _ _ _ _ _ _ _ _ R).
  - by eapply (iterate_sequential_spec _ _ _ _ _ _ _ _ _ R).
Qed.

Lemma loop_result_any step sd input globals params seq t entries progress (m : machine W) :
  iteration_valid step -> (length progress.1 <= length entries)%nat ->
  loop_result r step (default STOP (st_on_iteration_fail step)) entries
    (m_invocations m - Z.of_nat (length progress.1)) (fun _ _ => True) (length progress.1) progress
    (iteration_loop r step sd input globals params seq t entries progress m).
Proof.
  intros Hv Hlen. eapply (iteration_loop_spec _ _ _ _ _ _ _ _ _ _ _ (fun _ _ => True)); [done|done| |done|lia].
  intros i entry m' _ _. by destruct (begin_item _ _ _ _ _ _ _ _).1.
Qed.
End facts.

(** ** The value of the step *)

Lemma dict_of_pairs_nodup {V} (l : list (string * V)) : NoDup (map fst l) -> dict_of_pairs l = l.
Proof.
  unfold dict_of_pairs. assert (forall acc : list (string * V), NoDup (map fst (acc ++ l)) -> dict_update acc l = acc ++ l) as Hgen.
  { induction l as [|[k v] l IH]; intros acc Hnd; [by rewrite app_nil_r|].
    assert (dict_set k v acc = acc ++ [(k, v)]) as Hset.
    { rewrite map_app in Hnd. cbn in Hnd. apply NoDup_app in Hnd as (_ & Hk & _). clear -Hk.
      induction acc as [|[k' v'] acc IH]; [done|]. cbn in *. rewrite decide_False; [f_equal; apply IH|].
      - intros x Hx. apply Hk. by right.
      - intros ->. apply (Hk k'); by left. }
    rewrite dict_update_cons, Hset, IH; rewrite <- app_assoc; done. }
  apply (Hgen []).
Qed.

(** Whether an outcome has an entry in the value of the step. *)
Definition kept (strategy : IterationFailStrategy) (o : item_outcome) : bool :=
  is_ok o.2 || bool_decide (strategy = COLLECT).

Lemma kept_count strategy outcomes :
  Forall (fun o : item_outcome => match o.2 with Ok _ => True | Raise e => escapes strategy e = false end) outcomes ->
  length (List.filter (kept strategy) outcomes) =
    match strategy with SKIP => length outcomes - count_failed outcomes | _ => length outcomes end
  /\ (count_failed outcomes <= length outcomes)%nat /\ (strategy = STOP -> count_failed outcomes = 0%nat).
Proof.
  unfold count_failed. induction 1 as [|[k [v|e]] l Ho Hl (IH1 & IH2 & IH3)]; [by destruct strategy| |].
  - cbn. split; [destruct strategy; cbn; rewrite IH1; lia|]. split; [lia|done].
  - destruct strategy; cbn in *.
    + unfold escapes in Ho. rewrite bool_decide_eq_true_2, orb_true_r in Ho by done. done.
    + rewrite bool_decide_eq_false_2 by done. split; [rewrite IH1; lia|]. split; [lia|done].
    + rewrite bool_decide_eq_true_2 by done. cbn. split; [rewrite IH1; lia|]. split; [lia|done].
Qed.

Lemma included_values_kept step strategy outcomes :
  length (included_values (map (append_result step strategy) outcomes)) =
  length (List.filter (kept strategy) outcomes).
Proof.
  unfold included_values, kept in *.
  induction outcomes as [|[k [v|e]] l IH]; [done|cbn; by f_equal|].
  destruct strategy; cbn in *; first [by rewrite bool_decide_eq_false_2 by done|
    rewrite bool_decide_eq_true_2 by done; cbn; by f_equal].
Qed.

Lemma included_items_kept step strategy outcomes d :
  map fst outcomes = map fst (iteration_entries (JDict d)) ->
  map fst (included_items (map (append_result step strategy) outcomes)) `sublist_of` map fst d /\
  length (included_items (map (append_result step strategy) outcomes)) =
  length (List.filter (kept strategy) outcomes).
Proof.
  revert d; induction outcomes as [|[key o] l IH]; intros [|[k v] d]; try done; cbn.
  intros [= -> Hk]. destruct (IH d Hk) as [Hsub Hlen]. unfold included_items, kept in *.
  destruct o as [x|e]; [|destruct strategy]; cbn in *;
    first [rewrite bool_decide_eq_false_2 by done|rewrite bool_decide_eq_true_2 by done|idtac]; cbn;
    (split; [by constructor|first [by f_equal|done]]).
Qed.

(** Dict items with distinct keys, as normalisation gives them. *)
Definition distinct_items (items : json) : Prop :=
  match items with JDict d => dict_wf d | _ => True end.

Section properties.
Context {W : Type} `{StepExecutor W} `{DateTime} `{FloatRepr} `{PyParser}.
Variable r : FlowRunner.


(** *** Sequential and parallel *)

(** The same step without [parallel]. *)
Definition sequential (s : FlowStep) : FlowStep := {|
  st_name := st_name s; st_op := st_op s; st_input := st_input s; st_output := st_output s;
  st_params := st_params s; st_then := st_then s; st_on_result := st_on_result s;
  st_condition := st_condition s; st_for_each := st_for_each s; st_as_var := st_as_var s;
  st_parallel := false; st_max_concurrency := None; st_on_iteration_fail := st_on_iteration_fail s;
  st_wait_for := st_wait_for s; st_sleep_sec := st_sleep_sec s; st_until := st_until s;
  st_max_iterations := st_max_iterations s; st_interval_sec := st_interval_sec s;
  st_on_exhausted := st_on_exhausted s; st_on_failure := st_on_failure s; st_terminal := st_terminal s;
  st_reason := st_reason s |}.

(** Every call has one answer, whatever was called before. *)
Definition stateless_services : Prop :=
  forall call (m m' : machine W), (end_invoke r call m).1 = (end_invoke r call m').1.

Lemma begin_item_pure step sd input globals params entry (m m' : machine W) :
  m_invocations m = m_invocations m' ->
  (begin_item r step sd input globals params entry m).1 = (begin_item r step sd input globals params entry m').1.
Proof.
  destruct entry. unfold begin_item, begin_invoke, count_invocation, mbind, M_bind, mret, M_ret, lift. cbn.
  intros ->. repeat (case_match; simplify_eq/=; try done).
Qed.

Section determined.
Variables (step : FlowStep) (sd : StepDefinition) (input : json) (globals params : list (string * json)).
Variables (entries : list (iteration_key * json)) (base : Z) (m0 : machine W).
Hypothesis Hservices : stateless_services.

(** The outcome of item number [i], the [i]-th to be invoked. *)
Definition item_answer (i : nat) : res json :=
  match entries !! i with
  | Some entry =>
      call ← (begin_item r step sd input globals params entry
                (Machine (m_state m0) (base + Z.of_nat i) (m_world m0))).1;
      sr_data <$> (end_invoke r call m0).1
  | None => Ok JNull
  end.

Definition item_call (i : nat) (call : prepared_call) : Prop :=
  item_answer i = sr_data <$> (end_invoke r call m0).1.

Lemma item_begins i entry (m : machine W) :
  entries !! i = Some entry -> m_invocations m = (base + Z.of_nat i)%Z ->
  match (begin_item r step sd input globals params entry m).1 with
  | Ok call => item_call i call
  | Raise e => Raise e = item_answer i
  end.
Proof.
  intros He Hm. unfold item_call, item_answer. rewrite He.
  rewrite (begin_item_pure step sd input globals params entry m
    (Machine (m_state m0) (base + Z.of_nat i) (m_world m0))) by done.
  by destruct (begin_item _ _ _ _ _ _ _ _).1.
Qed.

Lemma item_ends i call (m : machine W) : item_call i call -> sr_data <$> (end_invoke r call m).1 = item_answer i.
Proof. intros Hc. unfold item_call in Hc. rewrite Hc. f_equal. apply Hservices. Qed.

Lemma outcomes_unique strategy l (Q : nat -> res json) o1 o2 :
  outcomes_of strategy l (fun i y => y = Q i) o1 -> outcomes_of strategy l (fun i y => y = Q i) o2 -> o1 = o2.
Proof.
  intros [Hn1 Hl1] [Hn2 Hl2]. apply list_eq_same_length with (n := length l); [done|done|].
  intros i x y Hi Hx Hy. destruct (lookup_lt_is_Some_2 l i) as [entry He]; [done|].
  destruct (Hl1 _ _ He) as (y1 & Hy1 & -> & _). destruct (Hl2 _ _ He) as (y2 & Hy2 & -> & _). congruence.
Qed.
End determined.

Lemma determined_loop s sd input globals params seq t entries progress (m m0 : machine W) :
  stateless_services -> iteration_valid r s -> (length progress.1 <= length entries)%nat ->
  let base := (m_invocations m - Z.of_nat (length progress.1))%Z in
  loop_result r s (default STOP (st_on_iteration_fail s)) entries base
    (fun i y => y = item_answer s sd input globals params entries base m0 i) (length progress.1) progress
    (iteration_loop r s sd input globals params seq t entries progress m).
Proof.
  intros Hs Hv Hlen base.
  eapply (iteration_loop_spec _ _ _ _ _ _ _ _ _ _ _ _ (item_call s sd input globals params entries base m0));
    [done|done| | |lia].
  - intros i entry m' He Hm.
    pose proof (item_begins s sd input globals params entries base m0 i entry m' He Hm) as Hb. exact Hb.
  - intros i call m' Hc. by eapply item_ends.
Qed.

Lemma run_iteration_is_ok step reference sd input globals outs params seq t c (m : machine W) :
  is_ok (run_iteration r step reference sd input globals outs params seq t c m).1 = true <->
  parallelism_ok r step = true /\ exists items, iteration_start r step reference sd input outs params c = Ok items /\
    is_ok (iteration_loop r step sd input globals params seq t (iteration_entries items) (resumed c) m).1 = true.
Proof.
  pose proof (run_iteration_Ok r step reference sd input globals outs params seq t c m) as Hrun. split.
  - destruct (run_iteration _ _ _ _ _ _ _ _ _ _ _ m).1 as [out|]; [|done]. intros _.
    destruct (proj1 (Hrun out) eq_refl) as (Hok & items & p & Hs & Hl & _). split; [done|]. exists items.
    by rewrite Hl.
  - intros (Hok & items & Hs & Hl). destruct (iteration_loop _ _ _ _ _ _ _ _ _ _ m).1 as [p|] eqn:Hp; [|done].
    rewrite (proj2 (Hrun (iteration_result items p))); [done|]. split; [done|]. by exists items, p.
Qed.

Lemma loop_result_is_ok step strategy entries base (Q : nat -> res json) j progress x y :
  fr_bounded_execution r = false ->
  loop_result (W := W) r step strategy entries base (fun i o => o = Q i) j progress x ->
  loop_result (W := W) r step strategy entries base (fun i o => o = Q i) j progress y ->
  is_ok x.1 = is_ok y.1.
Proof.
  intros Hb. assert (forall p (m : machine W) e m', loop_result r step strategy entries base (fun i o => o = Q i) j progress (Ok p, m) ->
    loop_result (W := W) r step strategy entries base (fun i o => o = Q i) j progress (Raise e, m') -> False) as Hno.
  { intros p m e m' (o & [Hlen Ho] & _) [Hb'|(Hesc & i & entry & Hi & He & HQ)]; [congruence|].
    destruct (Ho (i - j)%nat entry) as (y' & _ & Hy & Hn).
    - rewrite lookup_drop. by replace (j + (i - j))%nat with i by lia.
    - replace (j + (i - j))%nat with i in Hy by lia. rewrite <- HQ in Hy. subst y'. congruence. }
  destruct x as [[p|e] m], y as [[p'|e'] m']; try done; intros Hx Hy; exfalso;
    first [exact (Hno _ _ _ _ Hx Hy)|exact (Hno _ _ _ _ Hy Hx)].
Qed.

(** C5: Running the items of a [for_each] in parallel does not change what the step
    yields.  When every call has one answer, the parallel iteration and the sequential
    one, fresh or resumed at the same item, give the same value and counts whenever both
    return, under every order of completion; and without checkpoints one returns exactly
    when the other does. *)
Theorem parallel_iteration_equivalent (step : FlowStep) (reference : ReferencePath) (sd : StepDefinition)
    (input : json) (globals outs params : list (string * json)) (seq : Z) (t t' : spec_float)
    (c : option IterationCheckpoint) (m m' : machine W) (n : Z)
    (Hservices : stateless_services) (Hvalid : iteration_valid r step)
    (Hparallel : st_parallel step = true) (Hmax : st_max_concurrency step = Some n)
    (Hlimit : (n <= parallelism (fr_limits r))%Z)
    (Hcount : m_invocations m = m_invocations m') :
  let par := (run_iteration r step reference sd input globals outs params seq t c m).1 in
  let one := (run_iteration r (sequential step) reference sd input globals outs params seq t' c m').1 in
  (forall out out', par = Ok out -> one = Ok out' -> out = out') /\
  (fr_bounded_execution r = false -> is_ok par = is_ok one).
Proof.
  intros par one.
  set (strategy := default STOP (st_on_iteration_fail step)).
  assert (forall items, iteration_start r step reference sd input outs params c = Ok items ->
    let entries := iteration_entries items in let j := length (resumed c).1 in
    let Q := fun i y => y = item_answer step sd input globals params entries
                              (m_invocations m - Z.of_nat j) m i in
    loop_result r step strategy entries (m_invocations m - Z.of_nat j) Q j (resumed c)
      (iteration_loop r step sd input globals params seq t entries (resumed c) m) /\
    loop_result r step strategy entries (m_invocations m - Z.of_nat j) Q j (resumed c)
      (iteration_loop r (sequential step) sd input globals params seq t' entries (resumed c) m')) as Hboth.
  { intros items Hs%iteration_start_offset entries j Q. destruct Hs as [Hlen _]. split.
    - by apply determined_loop.
    - unfold Q. rewrite Hcount.
      apply (determined_loop (sequential step) sd input globals params seq t' entries (resumed c) m' m); try done.
      split; [done|apply Hvalid]. }
  assert (parallelism_ok r step = true) as Hok
    by (unfold parallelism_ok; rewrite Hparallel, Hmax; by apply Z.leb_le).
  split.
  - intros out out' (_ & items & p & Hs & Hl & ->)%run_iteration_Ok (_ & items' & p' & Hs' & Hl' & ->)%run_iteration_Ok.
    assert (items' = items) as -> by (change (iteration_start r step reference sd input outs params c = Ok items') in Hs'; congruence).
    destruct (Hboth items Hs) as [Hp Hq]. unfold iteration_result.
    destruct (iteration_loop r step _ _ _ _ _ _ _ _ _) as [x mx]; cbn in Hl; subst x.
    destruct (iteration_loop r (sequential step) _ _ _ _ _ _ _ _ _) as [x mx']; cbn in Hl'; subst x.
    destruct Hp as (o & Ho & -> & _), Hq as (o' & Ho' & -> & _).
    by rewrite (outcomes_unique _ _ _ _ _ Ho Ho').
  - intros Hb.
    apply eq_true_iff_eq. unfold par, one.
    transitivity (exists items, iteration_start r step reference sd input outs params c = Ok items /\
      is_ok (iteration_loop r step sd input globals params seq t (iteration_entries items) (resumed c) m).1 = true).
    { rewrite run_iteration_is_ok. naive_solver. }
    transitivity (exists items, iteration_start r step reference sd input outs params c = Ok items /\
      is_ok (iteration_loop r (sequential step) sd input globals params seq t' (iteration_entries items) (resumed c) m').1 = true).
    { split; intros (items & Hs & Hl); exists items; (split; [done|]); destruct (Hboth items Hs) as [Hp Hq];
        rewrite <- Hl; [symmetry|]; eapply loop_result_is_ok; done. }
    symmetry. rewrite run_iteration_is_ok. split; [by intros [_ Hx]|intros Hx; by split].
Qed.
End properties.

(** ** Samples *)

(** Services that give their input back, and refuse a text; the world holds the choices
    of the next completion. *)
#[export] Instance echo_executor : StepExecutor (list nat) := {|
  run_step := fun iv _ w =>
    (match iv_input iv with
     | JStr _ => Raise (service_error "refused")
     | input => Ok {| sr_data := json_raw input; sr_cache := None |}
     end, w);
  run_evaluator := fun _ _ _ _ w => (Ok true, w);
  wait_for_event := fun _ _ w => (Ok None, w);
  sleep := fun _ w => (Ok tt, w);
  validate_contract := fun _ _ _ _ w => (Ok tt, w);
  run_subworkflow := fun _ _ _ w => (Ok RNone, w);
  archive := fun _ _ _ _ _ w => (Ok tt, w);
  observe_history := fun _ => quiet_history;
  now := fun _ => S754_zero false;
  next_completion := fun _ w => (default 0%nat (head w), tail w);
  cancel_calls := fun _ w => w;
|}.

Definition each_step (name op : string) (items : ReferencePath) (concurrency : Z)
    (strategy : IterationFailStrategy) (then_ : string) : FlowStep := {|
  st_name := name; st_op := Some op; st_input := InputNone; st_output := None; st_params := [];
  st_then := Some then_; st_on_result := None; st_condition := None; st_for_each := Some items;
  st_as_var := Some "item"; st_parallel := true; st_max_concurrency := Some concurrency;
  st_on_iteration_fail := Some strategy; st_wait_for := None; st_sleep_sec := None; st_until := None;
  st_max_iterations := None; st_interval_sec := None; st_on_exhausted := None; st_on_failure := None;
  st_terminal := false; st_reason := None |}.

Definition sample_each : FlowStep := each_step "each" "get" (root_reference "rows") 2 SKIP "done".

Definition sample_each_runner : FlowRunner :=
  sample_runner (plain_workflow "each" [("get", plain_operation "svc" "get")]
    [sample_each; terminal_step "done" None]).

Definition sample_rows : json := JDict [("a", JInt 1); ("b", JStr "x"); ("c", JInt 3)].

Definition sample_machine (choices : list nat) : machine (list nat) :=
  restore_state sample_each_runner "req" None choices.

(** One run of the sample: two tasks at a time, the second completes first. *)
Definition sample_iteration (s : FlowStep) (choices : list nat) : res (json * (nat * nat)) :=
  (run_iteration sample_each_runner s (root_reference "rows") (plain_operation "svc" "get") JNull []
     [("rows", sample_rows)] [] 0 (S754_zero false) None (sample_machine choices)).1.

Lemma sample_each_valid : iteration_valid sample_each_runner sample_each.
Proof. split; [intros n [= <-]; lia|vm_compute; discriminate]. Qed.

Lemma echo_stateless : stateless_services (W := list nat) sample_each_runner.
Proof.
  intros [w n g|iv sv] m m'; cbn; [done|]. unfold mbind, M_bind, external, lift, mret, M_ret. cbn.
  destruct (iv_input iv); cbn -[normalize_value]; try done; by destruct (normalize_value _ _ _).
Qed.


Lemma parallel_iteration_equivalent_witness :
  sample_iteration sample_each [1; 0]%nat = Ok (JDict [("a", JInt 1); ("c", JInt 3)], (3, 1)%nat) /\
  forall out out', sample_iteration sample_each [1; 0]%nat = Ok out ->
    sample_iteration (sequential sample_each) [] = Ok out' -> out = out'.
Proof.
  split; [vm_compute; reflexivity|].
  apply (parallel_iteration_equivalent sample_each_runner sample_each (root_reference "rows")
    (plain_operation "svc" "get") JNull [] [("rows", sample_rows)] [] 0 (S754_zero false) (S754_zero false) None
    (sample_machine [1; 0]%nat) (sample_machine []) 2 echo_stateless sample_each_valid); try reflexivity.
  vm_compute. discriminate.
Defined.
