(* ===== verification/Cuts.v ===== *)
(** Continuations: the one exception by which a run leaves its history.  Nothing but the
    check of a checkpoint raises it; the lemmas here say so of every function the runner
    calls, by what a function may raise. *)

From S2P Require Export Iteration.

(** [isinstance(exc, FlowContinuation)] *)
Definition is_cut (e : exn) : bool :=
  match exn_cls e with FlowContinuation _ _ => true | _ => false end.

(** A result that is no continuation. *)
Definition plain {A} (x : res A) : Prop :=
  match x with Ok _ => True | Raise e => is_cut e = false end.

Lemma plain_bind {A B} (x : res A) (f : A -> res B) : plain x -> (forall a, plain (f a)) -> plain (x ≫= f).
Proof. destruct x; intros Hx Hf; [apply Hf|exact Hx]. Qed.

Lemma plain_fmap {A B} (f : A -> B) (x : res A) : plain x -> plain (f <$> x).
Proof. by destruct x. Qed.

Lemma plain_catch {A} (x : res A) (h : exn -> res A) :
  plain x -> (forall e, is_cut e = false -> plain (h e)) -> plain (catch x h).
Proof. destruct x; intros Hx Hh; [exact I|by apply Hh]. Qed.

Lemma plain_traverse {A B} (f : A -> res B) l : (forall x, x ∈ l -> plain (f x)) -> plain (traverse f l).
Proof.
  induction l as [|x l IH]; [done|]. intros Hf. cbn. apply plain_bind; [apply Hf; by left|]. intros y.
  apply plain_bind; [|done]. apply IH. intros z Hz. apply Hf. by right.
Qed.

Lemma plain_traverse_from {A B} (f : nat -> A -> res B) i l :
  (forall i x, x ∈ l -> plain (f i x)) -> plain (traverse_from f i l).
Proof.
  revert i; induction l as [|x l IH]; [done|]. intros i Hf. cbn. apply plain_bind; [apply Hf; by left|]. intros y.
  apply plain_bind; [|done]. apply IH. intros j z Hz. apply Hf. by right.
Qed.

Lemma plain_traverse_dict {A B} (f : string -> A -> res B) l :
  (forall k x, (k, x) ∈ l -> plain (f k x)) -> plain (traverse_dict f l).
Proof.
  induction l as [|[k x] l IH]; [done|]. intros Hf. cbn. apply plain_bind; [apply Hf; by left|]. intros y.
  apply plain_bind; [|done]. apply IH. intros k' z Hz. apply Hf. by right.
Qed.

#[global] Arguments plain : simpl never.

Create HintDb plain.

Ltac solve_plain :=
  repeat (intros; match goal with
  | |- plain (Ok _) => exact I
  | |- plain (mret _) => exact I
  | |- plain (raise _ _) => reflexivity
  | |- plain (raise_from _ _ _) => reflexivity
  | |- plain (Raise _) => assumption
  | |- plain (_ ≫= _) => apply plain_bind
  | |- plain (_ <$> _) => apply plain_fmap
  | |- plain (catch _ _) => apply plain_catch
  | |- plain (traverse _ _) => apply plain_traverse
  | |- plain (traverse_from _ _ _) => apply plain_traverse_from
  | |- plain (traverse_dict _ _) => apply plain_traverse_dict
  | |- plain (match ?x with _ => _ end) => destruct x
  | |- plain _ => solve [auto with plain]
  end); intros.

(** ** Values *)

Lemma plain_limit actual limit kind boundary : plain (enforce_limit actual limit kind boundary).
Proof. unfold enforce_limit. by destruct (_ <? _)%Z. Qed.
#[export] Hint Resolve plain_limit : plain.

Lemma plain_validate path j : plain (validate_json_value path j).
Proof.
  revert path; induction j as [| | |f| |l IH|d IH] using json_ind'; intros path; cbn; solve_plain;
    rewrite Forall_forall in IH; [by apply IH|by eapply (IH (_, _))].
Qed.
#[export] Hint Resolve plain_validate : plain.

Lemma plain_payload_bytes `{FloatRepr} v boundary limit : plain (enforce_payload_bytes v boundary limit).
Proof. unfold enforce_payload_bytes, strict_json_bytes. solve_plain. Qed.
#[export] Hint Resolve plain_payload_bytes : plain.

Lemma plain_normalization {A} path detail : plain (A := A) (normalization_error path detail).
Proof. done. Qed.

Lemma plain_path_error {A} path detail : plain (A := A) (path_error path detail).
Proof. done. Qed.
#[export] Hint Resolve plain_normalization plain_path_error : plain.

Lemma plain_normalize_items path f acc l :
  (forall k x, (RStr k, x) ∈ l -> plain (f k x)) -> plain (normalize_items path f acc l).
Proof.
  revert acc; induction l as [|[[] x] l IH]; intros acc Hf; cbn; try done.
  apply plain_bind; [apply Hf; by left|]. intros j. apply IH. intros k' z Hz. apply Hf. by right.
Qed.

Lemma plain_normalize_fields f acc l :
  (forall k x, (k, x) ∈ l -> plain (f k x)) -> plain (normalize_fields f acc l).
Proof.
  revert acc; induction l as [|[k x] l IH]; intros acc Hf; cbn; [done|].
  apply plain_bind; [apply Hf; by left|]. intros j. apply IH. intros k' z Hz. apply Hf. by right.
Qed.

Lemma plain_normalize path depth n d value : plain (normalize_json_value path depth n d value).
Proof.
  revert path d; induction value as [| | | |s|l IH|l IH|l IH|v IH|l IH|m] using raw_ind'; intros path d;
    cbn -[normalize_items normalize_fields]; (destruct (depth <? d)%Z; [done|]); solve_plain;
    try (rewrite Forall_forall in IH).
  - by apply IH.
  - by apply IH.
  - apply plain_normalize_items. intros k x Hx. by apply (IH _ Hx).
  - apply plain_normalize_fields. intros k x Hx. by apply (IH _ Hx).
Qed.
#[export] Hint Resolve plain_normalize : plain.

Lemma plain_normalize_value path n value : plain (normalize_value path n value).
Proof. apply plain_normalize. Qed.
#[export] Hint Resolve plain_normalize_value : plain.

Lemma plain_normalize_object path n value : plain (normalize_json_object path n value).
Proof. unfold normalize_json_object. solve_plain. Qed.
#[export] Hint Resolve plain_normalize_object : plain.

Lemma plain_resolve_token v t path : plain (resolve_token v t path).
Proof. unfold resolve_token. solve_plain. Qed.

Lemma plain_resolve_tokens v ts path : plain (resolve_tokens v ts path).
Proof.
  revert v path; induction ts as [|t ts IH]; intros v path; [done|]. cbn.
  apply plain_bind; [apply plain_resolve_token|]. intros []. apply IH.
Qed.
#[export] Hint Resolve plain_resolve_tokens : plain.

Lemma plain_resolve_path v ts root : plain (resolve_json_path v ts root).
Proof. unfold resolve_json_path. solve_plain. Qed.
#[export] Hint Resolve plain_resolve_path : plain.

(** ** References *)

Lemma plain_resolve_reference ref outs params : plain (resolve_reference ref outs params).
Proof. unfold resolve_reference. solve_plain. Qed.
#[export] Hint Resolve plain_resolve_reference : plain.

Lemma plain_resolve_input spec outs params : plain (resolve_input spec outs params).
Proof. unfold resolve_input. solve_plain. Qed.
#[export] Hint Resolve plain_resolve_input : plain.

Lemma plain_placeholders s : plain (parse_placeholders s).
Proof.
  unfold parse_placeholders. generalize (S (String.length s)) 0%nat. intros fuel. induction fuel as [|fuel IH]; intros i;
    [done|]. cbn. solve_plain.
Qed.
#[export] Hint Resolve plain_placeholders : plain.

Lemma plain_placeholder_syntax {A} (x : res A) : plain x -> plain (placeholder_syntax x).
Proof. unfold placeholder_syntax. solve_plain. Qed.
#[export] Hint Resolve plain_placeholder_syntax : plain.

Lemma plain_unresolved value : plain (find_unresolved_placeholders value).
Proof.
  induction value as [| | | |s|l IH|l IH|l IH|v IH|l IH|m] using raw_ind'; cbn -[placeholder_syntax parse_placeholders]; solve_plain;
    rewrite Forall_forall in IH; by apply IH.
Qed.
#[export] Hint Resolve plain_unresolved : plain.

Lemma plain_interpolate_string `{FloatRepr} s params : plain (interpolate_string s params).
Proof.
  unfold interpolate_string.
  assert (forall p l, plain (interpolate_pieces s params p l)) as Hp.
  { intros p l. revert p; induction l as [|x l IH]; intros p; [done|]. cbn. unfold param_missing. solve_plain. }
  unfold param_missing. solve_plain.
Qed.
#[export] Hint Resolve plain_interpolate_string : plain.

Lemma plain_interpolate `{FloatRepr} value params : plain (interpolate_params value params).
Proof.
  induction value as [| | | |s|l IH|l IH|l IH|v IH|l IH|m] using raw_ind';
    cbn -[interpolate_string]; solve_plain; rewrite Forall_forall in IH; by apply IH.
Qed.
#[export] Hint Resolve plain_interpolate : plain.

(** ** Conditions *)

Lemma plain_check_node node expression : plain (check_node node expression).
Proof.
  induction node using expr_ind'; cbn; unfold syntax_error; solve_plain.
  all: match goal with Hall : Forall _ _ |- _ => rewrite Forall_forall in Hall; apply Hall; first [done|by left] end.
Qed.
#[export] Hint Resolve plain_check_node : plain.

Lemma plain_resolve_root name ctx : plain (resolve_root name ctx).
Proof. unfold resolve_root, condition_error. solve_plain. Qed.

Lemma plain_get_path_value v t ctx : plain (get_path_value v t ctx).
Proof. unfold get_path_value. solve_plain. Qed.

Lemma plain_compare_values op a b ctx : plain (compare_values op a b ctx).
Proof. unfold compare_values, condition_error. solve_plain. Qed.
#[export] Hint Resolve plain_resolve_root plain_get_path_value plain_compare_values : plain.

Lemma plain_bool_loop stop eval l : (forall e, e ∈ l -> plain (eval e)) -> plain (bool_loop stop eval l).
Proof.
  induction l as [|e l IH]; [done|]. intros He. cbn. apply plain_bind; [apply He; by left|]. intros x.
  destruct (Bool.eqb _ _); [done|]. apply IH. intros y Hy. apply He. by right.
Qed.

Lemma plain_compare_loop ctx eval v l : (forall c, c ∈ l -> plain (eval c.2)) -> plain (compare_loop ctx eval v l).
Proof.
  revert v; induction l as [|[op e] l IH]; [done|]. intros v He. cbn.
  apply plain_bind; [apply (He (op, e)); by left|]. intros x. apply plain_bind; [apply plain_compare_values|].
  intros []; [|done]. apply IH. intros y Hy. apply He. by right.
Qed.

Lemma plain_evaluate node ctx : plain (evaluate node ctx).
Proof.
  induction node as [[] l IH|op e IH|e l IHe IH|f l k IHf IH|e a IH|e s IH _|n|c|l IH|l IH|n l IH] using expr_ind';
    cbn -[bool_loop compare_loop NAME_LITERALS WHITELISTED_FUNCTIONS]; unfold condition_error; try done;
    try rewrite Forall_forall in IH.
  - apply plain_bool_loop, IH.
  - apply plain_bool_loop, IH.
  - solve_plain.
  - apply plain_bind; [done|]. intros v. apply plain_compare_loop, IH.
  - solve_plain; apply IH; by left.
  - solve_plain.
  - solve_plain.
  - solve_plain.
  - solve_plain; by apply IH.
  - solve_plain; by apply IH.
Qed.
#[export] Hint Resolve plain_evaluate : plain.

Lemma plain_condition `{PyParser} condition data outs params : plain (evaluate_condition condition data outs params).
Proof. unfold evaluate_condition, wrap_condition, parse_condition, syntax_error. solve_plain. Qed.
#[export] Hint Resolve plain_condition : plain.

(** ** Audit capture *)

Lemma plain_capture `{FloatRepr} record capture : plain (capture_audit_record record capture).
Proof.
  assert (forall l doc, plain (redact_pointers doc l)) as Hp.
  { induction l as [|p l IH]; intros doc; [done|]. cbn. unfold redact_pointer. solve_plain. }
  unfold capture_audit_record, enforce_payload_limit, strict_json_bytes. solve_plain.
Qed.
#[export] Hint Resolve plain_capture : plain.

(** ** Computations *)

(** An executor whose calls raise no continuation. *)
Record ordinary {W : Type} (E : StepExecutor W) : Prop := {
  or_run_step iv sv (w : W) : plain (run_step iv sv w).1;
  or_run_evaluator e d l n (w : W) : plain (run_evaluator e d l n w).1;
  or_wait_for_event s t (w : W) : plain (wait_for_event s t w).1;
  or_sleep z (w : W) : plain (sleep z w).1;
  or_validate_contract s d a b (w : W) : plain (validate_contract s d a b w).1;
  or_run_subworkflow f n g (w : W) : plain (run_subworkflow f n g w).1;
  or_archive a p b c d (w : W) : plain (archive a p b c d w).1;
}.

Section uncut.
Context {W : Type}.

Definition uncut {A} (c : M W A) : Prop := forall m, plain (c m).1.

Lemma uncut_bind {A B} (c : M W A) (f : A -> M W B) : uncut c -> (forall a, uncut (f a)) -> uncut (c ≫= f).
Proof.
  intros Hc Hf m. unfold mbind, M_bind. specialize (Hc m). destruct (c m) as [[a|e] m1]; [apply Hf|exact Hc].
Qed.

Lemma uncut_fmap {A B} (f : A -> B) (c : M W A) : uncut c -> uncut (f <$> c).
Proof. intros Hc m. unfold fmap, M_fmap. specialize (Hc m). by destruct (c m) as [[a|e] m1]. Qed.

Lemma uncut_lift {A} (x : res A) : plain x -> uncut (lift x).
Proof. by intros Hx m. Qed.

Lemma uncut_attempt {A} (c : M W A) (h : exn -> M W A) :
  uncut c -> (forall e, is_cut e = false -> uncut (h e)) -> uncut (attempt c h).
Proof.
  intros Hc Hh m. unfold attempt. specialize (Hc m). destruct (c m) as [[a|e] m1]; [done|by apply Hh].
Qed.

Lemma uncut_when b (c : M W unit) : uncut c -> uncut (when b c).
Proof. by destruct b. Qed.

Lemma uncut_external {A} (f : W -> res A * W) : (forall w, plain (f w).1) -> uncut (external f).
Proof. intros Hf m. unfold external. specialize (Hf (m_world m)). by destruct (f (m_world m)). Qed.

Lemma uncut_ret {A} (a : A) : uncut (mret a).
Proof. done. Qed.

Lemma uncut_fail {A} e : is_cut e = false -> uncut (fail e : M W A).
Proof. by intros He m. Qed.

Lemma uncut_reads {A} (f : RunState -> A) : uncut (reads f).
Proof. done. Qed.

Lemma uncut_writes f : uncut (writes f).
Proof. done. Qed.

Lemma uncut_observe {A} (f : W -> A) : uncut (observe f).
Proof. done. Qed.
End uncut.

Create HintDb uncut.
#[export] Hint Resolve uncut_ret uncut_fail uncut_reads uncut_writes uncut_observe
  or_run_step or_run_evaluator or_wait_for_event or_sleep or_validate_contract or_run_subworkflow or_archive : uncut.

Ltac solve_uncut :=
  repeat (intros; match goal with
  | |- uncut (_ ≫= _) => apply uncut_bind
  | |- uncut (_ <$> _) => apply uncut_fmap
  | |- uncut (attempt _ _) => apply uncut_attempt
  | |- uncut (when _ _) => apply uncut_when
  | |- uncut (lift _) => apply uncut_lift; unfold definition_error; solve_plain
  | |- uncut (external _) => apply uncut_external
  | |- uncut (match ?x with _ => _ end) => destruct x
  | |- _ => solve [auto with uncut]
  end); intros.

Section runner.
Context {W : Type} {E : StepExecutor W} `{DateTime} `{FloatRepr} `{PyParser}.
Variable r : FlowRunner.
Hypothesis HE : ordinary E.

Lemma plain_get_item {V} key (d : list (string * V)) : plain (get_item key d).
Proof. unfold get_item, key_error. solve_plain. Qed.
Hint Resolve plain_get_item : plain.

Lemma plain_resolution_error {A} handled prefix (x : res A) : plain x -> plain (resolution_error handled prefix x).
Proof. unfold resolution_error. solve_plain. Qed.
Hint Resolve plain_resolution_error : plain.

Lemma uncut_begin_invoke sd name input globals params :
  uncut (begin_invoke (W := W) r sd name input globals params).
Proof.
  unfold begin_invoke. apply uncut_bind; [intros m; apply plain_limit|]. solve_uncut.
Qed.

Lemma uncut_end_invoke call : uncut (end_invoke (W := W) r call).
Proof. unfold end_invoke. solve_uncut. Qed.
Hint Resolve uncut_begin_invoke uncut_end_invoke : uncut.

Lemma uncut_invoke sd name input globals params : uncut (invoke (W := W) r sd name input globals params).
Proof. unfold invoke. solve_uncut. Qed.

Lemma plain_deadline value : plain (deadline_epoch r value).
Proof. unfold deadline_epoch, int_to_float, overflow_error. solve_plain. Qed.
Hint Resolve plain_deadline : plain.

Lemma uncut_run_wait step outs params : uncut (run_wait (W := W) r step outs params).
Proof.
  unfold run_wait. destruct (st_wait_for step) as [wait|]; [|solve_uncut].
  apply uncut_bind; [|solve_uncut].
  destruct (wf_timeout_until wait); [|done]. apply uncut_bind; [done|]. intros current.
  apply uncut_bind; [|done]. intros d. apply uncut_lift, plain_resolution_error. solve_plain.
Qed.

Lemma uncut_match_branches step result outs params l :
  uncut (match_branches (W := W) step result outs params l).
Proof. induction l as [|b l IH]; cbn [match_branches]; solve_uncut. Qed.

Lemma uncut_next_step step result outs params : uncut (next_step (W := W) step result outs params).
Proof.
  unfold next_step. destruct (has_branches step); [|done].
  apply uncut_attempt; [apply uncut_match_branches|]. intros e He. by apply uncut_lift, plain_resolution_error.
Qed.

Lemma uncut_begin_item step sd input globals params entry :
  uncut (begin_item (W := W) r step sd input globals params entry).
Proof. destruct entry. apply uncut_begin_invoke. Qed.
Hint Resolve uncut_begin_item : uncut.

Lemma uncut_run_item step sd input globals params strategy entry :
  uncut (run_item (W := W) r step sd input globals params strategy entry).
Proof. unfold run_item, guard_item. solve_uncut. Qed.

Lemma uncut_start_tasks step sd input globals params permits waiting :
  uncut (start_tasks (W := W) r step sd input globals params permits waiting).
Proof.
  revert permits; induction waiting as [|[i entry] waiting IH]; intros [|permits]; cbn [start_tasks]; solve_uncut.
Qed.

(** A property of every exception that a pool can raise. *)
Lemma escaping_plain strategy l e :
  Forall (fun o : nat * item_outcome => plain o.2.2) l -> escaping strategy l = Some e -> is_cut e = false.
Proof.
  intros Hl (_ & i & key & Hin)%escaping_Some. rewrite Forall_forall in Hl. exact (Hl _ Hin).
Qed.

Lemma start_tasks_plain step sd input globals params permits waiting (m : machine W) p m' :
  start_tasks r step sd input globals params permits waiting m = (Ok p, m') ->
  Forall (fun o : nat * item_outcome => plain o.2.2) (pl_done p).
Proof.
  revert permits m p m'; induction waiting as [|[i entry] waiting IH]; intros [|permits] m p m'; cbn [start_tasks];
    try by intros [= <- <-].
  unfold attempt, fmap, M_fmap, mbind, M_bind, mret, M_ret.
  pose proof (uncut_begin_item step sd input globals params entry m) as Hb.
  destruct (begin_item _ _ _ _ _ _ _ m) as [[call|e] m1]; cbn in Hb |- *.
  - destruct (start_tasks _ _ _ _ _ _ permits waiting m1) as [[p'|] m2] eqn:Hs; [|done].
    intros Heq. injection Heq as <- <-. cbn. by eapply IH.
  - destruct (start_tasks _ _ _ _ _ _ (S permits) waiting m1) as [[p'|] m2] eqn:Hs; [|done].
    intros Heq. injection Heq as <- <-. constructor; [done|]. by eapply IH.
Qed.

Lemma run_pool_plain fuel step sd input globals params strategy p (m : machine W) :
  Forall (fun o : nat * item_outcome => plain o.2.2) (pl_done p) ->
  plain (run_pool r fuel step sd input globals params strategy p m).1.
Proof.
  revert p m; induction fuel as [|fuel IH]; intros p m Hp; cbn [run_pool];
    (destruct (escaping strategy (pl_done p)) as [e|] eqn:He; [by eapply escaping_plain|]); [done|].
  unfold mbind at 1, M_bind at 1, external at 1. destruct (next_completion _ _) as [choice w].
  destruct (pick_running choice (pl_running p)) as [[[[i key] call] running]|]; [|done].
  unfold mbind at 1, M_bind at 1. unfold attempt at 1, mbind at 1, M_bind at 1.
  set (m1 := Machine _ _ w). pose proof (uncut_end_invoke call m1) as Hc.
  destruct (end_invoke r call m1) as [[v|e] m2]; cbn in Hc |- *;
    (unfold mbind at 1, M_bind at 1; destruct (start_tasks _ _ _ _ _ _ 1 (pl_waiting p) m2) as [[p'|e'] m3] eqn:Hs);
    try (apply IH; cbn; apply Forall_app; split; [done|]; constructor; [done|]; by eapply start_tasks_plain);
    pose proof (uncut_start_tasks step sd input globals params 1 (pl_waiting p) m2) as Hst; rewrite Hs in Hst; done.
Qed.

Lemma uncut_run_chunk step sd input globals params strategy permits entries :
  uncut (run_chunk (W := W) r step sd input globals params strategy permits entries).
Proof.
  intros m. unfold run_chunk. unfold mbind at 1, M_bind at 1.
  pose proof (uncut_start_tasks step sd input globals params permits (imap (fun i e => (i, e)) entries) m) as Hst.
  destruct (start_tasks _ _ _ _ _ _ _ _ m) as [[p|e] m1] eqn:Hs; [|exact Hst].
  pose proof (run_pool_plain (length entries) step sd input globals params strategy p m1) as Hp.
  unfold mbind, M_bind. destruct (run_pool _ _ _ _ _ _ _ _ _ m1) as [[l|e] m2]; [done|].
  apply Hp. by eapply start_tasks_plain.
Qed.

(** *** The beginning and the end of a run *)

Lemma plain_build_params id globals : plain (build_params r id globals).
Proof. unfold build_params, definition_error. solve_plain. Qed.
Hint Resolve plain_build_params : plain.

Lemma uncut_start_run id trigger : uncut (start_run (W := W) r id trigger).
Proof. unfold start_run. solve_uncut. Qed.

Lemma uncut_resolve_result reason : uncut (resolve_result (W := W) r reason).
Proof.
  unfold resolve_result. destruct (wc_result (fr_config r)) as [reference|]; [|done].
  apply uncut_bind; [done|]. intros outs. apply uncut_bind; [done|]. intros params.
  pose proof (plain_resolve_reference reference outs params) as Hp.
  destruct (resolve_reference reference outs params) as [result|e]; solve_uncut.
Qed.
Hint Resolve uncut_resolve_result : uncut.

Lemma uncut_finish_run id reason : uncut (finish_run (W := W) r id reason).
Proof.
  unfold finish_run, archive_record, iso_now. solve_uncut.
Qed.

Lemma plain_duration a b : plain (duration_ms a b).
Proof. unfold duration_ms, float_to_int, overflow_error. solve_plain. Qed.

Lemma plain_store_output step result outs : plain (store_output step result outs).
Proof. unfold store_output, set_item. solve_plain. Qed.
Hint Resolve plain_duration plain_store_output : plain.

Lemma uncut_store step result : uncut (store (W := W) step result).
Proof. unfold store. solve_uncut. Qed.
End runner.
