(* ===== verification/Resume.v ===== *)
(** Continuation: a run that leaves its history at a checkpoint and is resumed from it in
    a fresh one, any number of times, ends as the run that never left.  The run under an
    executor that reports any histories is compared with the run under the same executor
    with quiet histories. *)

From S2P Require Export Cuts Termination.

(** The same executor with other reports of its history. *)
Definition with_history {W} (E : StepExecutor W) (report : W -> HistoryObservation) : StepExecutor W := {|
  run_step := run_step; run_evaluator := run_evaluator; wait_for_event := wait_for_event;
  sleep := sleep; validate_contract := validate_contract; run_subworkflow := run_subworkflow;
  archive := archive; observe_history := report; now := now; next_completion := next_completion;
  cancel_calls := cancel_calls |}.

Lemma with_history_ordinary {W} (E : StepExecutor W) report : ordinary E -> ordinary (with_history E report).
Proof. by intros [? ? ? ? ? ? ?]. Qed.

(** ** Comparing two computations *)

Section refines.
Context {W : Type}.

(** The two computations agree on every machine where the first leaves no history; where
    it does, [K] tells what the second yields. *)
Definition refines {A} (K : exn -> machine W -> res A * machine W -> Prop) (c1 c2 : M W A) (m : machine W) : Prop :=
  match c1 m with
  | (Ok a, m1) => c2 m = (Ok a, m1)
  | (Raise e, m1) => if is_cut e then K e m1 (c2 m) else c2 m = (Raise e, m1)
  end.

Lemma refines_same {A} K (c1 c2 : M W A) m : c1 = c2 -> uncut c1 -> refines K c1 c2 m.
Proof.
  intros <- Hc. unfold refines. specialize (Hc m). destruct (c1 m) as [[a|e] m1]; [done|].
  unfold plain in Hc. cbn in Hc. by rewrite Hc.
Qed.

(** Resuming after a computation. *)
Definition andthen {A B} (x : res A * machine W) (f : A -> M W B) : res B * machine W :=
  match x with (Ok a, m) => f a m | (Raise e, m) => (Raise e, m) end.

Lemma andthen_bind {A B} (c : M W A) (f : A -> M W B) m : (c ≫= f) m = andthen (c m) f.
Proof. done. Qed.

Lemma refines_bind {A B} (K : exn -> machine W -> res A * machine W -> Prop)
    (K' : exn -> machine W -> res B * machine W -> Prop) (c1 c2 : M W A) (f1 f2 : A -> M W B) m :
  refines K c1 c2 m ->
  (forall a m1, c1 m = (Ok a, m1) -> refines K' (f1 a) (f2 a) m1) ->
  (forall e m1 y, c1 m = (Raise e, m1) -> K e m1 y -> K' e m1 (andthen y f2)) ->
  refines K' (c1 ≫= f1) (c2 ≫= f2) m.
Proof.
  unfold refines. rewrite !andthen_bind. intros Hc Hf HK. destruct (c1 m) as [[a|e] m1]; cbn.
  - rewrite Hc. cbn. by apply Hf.
  - destruct (is_cut e); [by apply HK|]. by rewrite Hc.
Qed.

(** A prefix that leaves no history. *)
Lemma refines_pre {A B} K (c1 c2 : M W A) (f1 f2 : A -> M W B) m :
  c1 = c2 -> uncut c1 -> (forall a m1, c1 m = (Ok a, m1) -> refines K (f1 a) (f2 a) m1) ->
  refines K (c1 ≫= f1) (c2 ≫= f2) m.
Proof.
  intros Hc Hu Hf. apply (refines_bind (fun _ _ _ => False)); [by apply refines_same|done|done].
Qed.

(** A cut of the last computation is a cut of the whole. *)
Lemma refines_weaken {A} (K K' : exn -> machine W -> res A * machine W -> Prop) c1 c2 m :
  (forall e m1 y, c1 m = (Raise e, m1) -> is_cut e = true -> K e m1 y -> K' e m1 y) ->
  refines K c1 c2 m -> refines K' c1 c2 m.
Proof.
  unfold refines. intros HK. destruct (c1 m) as [[a|e] m1]; [done|]. destruct (is_cut e) eqn:He; [by apply HK|done].
Qed.

Lemma refines_fmap {A B} (f : A -> B) (K : exn -> machine W -> res A * machine W -> Prop) c1 c2 m :
  refines K c1 c2 m -> refines (fun e m1 y => exists x, K e m1 x /\ y = andthen x (fun a => mret (f a))) (f <$> c1) (f <$> c2) m.
Proof.
  unfold refines, fmap, M_fmap. destruct (c1 m) as [[a|e] m1]; [by intros ->|].
  destruct (is_cut e); [|by intros ->]. intros HK. exists (c2 m). split; [done|]. by destruct (c2 m) as [[a|e'] m2].
Qed.

(** The result of a [try] block whose body gave [x]. *)
Definition orelse {A} (x : res A * machine W) (h : exn -> M W A) : res A * machine W :=
  match x with (Ok a, m) => (Ok a, m) | (Raise e, m) => h e m end.

Lemma refines_attempt {A} (K K' : exn -> machine W -> res A * machine W -> Prop) c1 c2 (h1 h2 : exn -> M W A) m :
  refines K c1 c2 m ->
  (forall e m1, c1 m = (Raise e, m1) -> is_cut e = false -> refines K' (h1 e) (h2 e) m1) ->
  (forall e m1 y, c1 m = (Raise e, m1) -> is_cut e = true -> K e m1 y ->
     h1 e m1 = (Raise e, m1) /\ K' e m1 (orelse y h2)) ->
  refines K' (attempt c1 h1) (attempt c2 h2) m.
Proof.
  unfold refines, attempt. intros Hc Hh HK. destruct (c1 m) as [[a|e] m1] eqn:Hm; [by rewrite Hc|].
  destruct (is_cut e) eqn:He.
  - destruct (HK e m1 (c2 m) eq_refl He Hc) as [-> HK']. rewrite He. exact HK'.
  - rewrite Hc. by apply Hh.
Qed.
End refines.

(** ** Checkpoints *)

Section resume.
Context {W : Type} (E : StepExecutor W) `{DateTime} `{FloatRepr} `{PyParser}.
Variables (r : FlowRunner) (report : W -> HistoryObservation).

Abbreviation noisy := (with_history E report).
Abbreviation quiet := (with_history E (fun _ => quiet_history)).
Abbreviation config := (fr_config r).

Hypothesis HE : ordinary E.
Hypothesis Hevents : (1 <= history_events (fr_limits r))%Z.
Hypothesis Hbytes : (1 <= history_bytes (fr_limits r))%Z.

Lemma noisy_ordinary : ordinary noisy.
Proof. by apply with_history_ordinary. Qed.
Hint Resolve noisy_ordinary : uncut.

(** The continuation that a machine gives. *)
Definition continues (e : exn) (m : machine W) (next : string) (seq : Z) (loop : option LoopCheckpoint) : Prop :=
  exists o, exn_cls e = FlowContinuation (build_checkpoint (m_state m) (m_invocations m) next seq loop) o.

Lemma checkpoint_refines next seq loop m :
  refines (fun e m1 y => m1 = m /\ continues e m next seq loop /\ y = (Ok tt, m))
    (checkpoint_at (E := noisy) r next seq loop) (checkpoint_at (E := quiet) r next seq loop) m.
Proof.
  unfold refines, checkpoint_at, enforce_checkpoint, mbind, M_bind, mret, M_ret, lift, observe.
  pose proof (plain_payload_bytes (RunnerCheckpoint_dump (build_checkpoint (m_state m) (m_invocations m) next seq loop))
    "workflow.continuation.state" (workflow_state_bytes (fr_limits r))) as Hp.
  destruct (enforce_payload_bytes _ _ _) as [u|e]; [|unfold plain in Hp; by rewrite Hp].
  assert (ho_server_suggested quiet_history || (history_events (fr_limits r) <=? ho_events quiet_history)%Z
    || (history_bytes (fr_limits r) <=? ho_bytes quiet_history)%Z = false) as Hq.
  { cbn. apply orb_false_intro; apply Z.leb_gt; lia. }
  cbn -[quiet_history]. rewrite Hq.
  match goal with |- context [if ?b then _ else _] => destruct b end; [|done].
  cbn. split; [done|]. split; [|done]. by eexists.
Qed.

Lemma loop_checkpoint_refines name seq l m :
  refines (fun e m1 y => m1 = m /\ continues e m name seq (Some l) /\ y = (Ok tt, m))
    (checkpoint_during_loop (E := noisy) r name seq l) (checkpoint_during_loop (E := quiet) r name seq l) m.
Proof.
  unfold checkpoint_during_loop. destruct (fr_bounded_execution r); cbn [when]; [apply checkpoint_refines|done].
Qed.

(** A history left after a step: the run without cuts goes on with the next step. *)
Definition after_cut (e : exn) (m1 : machine W) (y : res turn * machine W) : Prop :=
  exists next seq, continues e m1 next seq None /\ y = (Ok (Continue (Some next) seq), m1).

Lemma continue_at_refines next seq m :
  refines after_cut (continue_at (E := noisy) r next seq) (continue_at (E := quiet) r next seq) m.
Proof.
  unfold continue_at, checkpoint_after_step. destruct next as [n|]; [|done].
  eapply refines_bind.
  - instantiate (1 := fun e m1 y => m1 = m /\ continues e m n seq None /\ y = (Ok tt, m)).
    destruct (fr_bounded_execution r); cbn [when]; [apply checkpoint_refines|done].
  - done.
  - intros e m1 y _ (-> & Hc & ->). exists n, seq. done.
Qed.

(** ** Until loops *)

Section until.
Variables (step : FlowStep) (until : string) (sd : StepDefinition) (input : json).
Variables (globals outs params : list (string * json)) (seq : Z) (t : spec_float).

Abbreviation attempts F := (until_attempts (E := F) r).

Definition until_checkpoint (done : nat) (last : json) : UntilCheckpoint := {|
  uc_step_name := st_name step; uc_started_at_epoch := t; uc_attempts_completed := done; uc_last_result := last |}.

Lemma until_attempts_refines remaining completed last m :
  refines (fun e m1 y => exists remaining' completed' last',
      (remaining' + completed' = remaining + completed)%nat /\
      continues e m1 (st_name step) seq (Some (UntilLoop (until_checkpoint completed' last'))) /\
      y = attempts quiet remaining' completed' step until sd input globals outs params seq t last' m1)
    (attempts noisy remaining completed step until sd input globals outs params seq t last)
    (attempts quiet remaining completed step until sd input globals outs params seq t last) m.
Proof.
  revert completed last m; induction remaining as [|n IH]; intros completed last m; [done|]. cbn [until_attempts].
  apply refines_pre; [done|apply uncut_fmap, uncut_invoke; auto with uncut|]. intros result m1 _.
  apply refines_pre; [done|apply uncut_lift, plain_resolution_error, plain_condition|]. intros satisfied m2 _.
  destruct satisfied; [done|].
  apply refines_pre; [done|solve_uncut|]. intros [] m3 _.
  eapply refines_bind; [apply loop_checkpoint_refines| |].
  - intros [] m4 _. eapply refines_weaken; [|apply IH].
    intros e m5 y _ _ (n' & k' & last' & Hn & Hrest). exists n', k', last'. split; [lia|done].
  - intros e m4 y _ (-> & Hc & ->). exists n, (S completed), result. split; [lia|]. by split.
Qed.
End until.

Lemma run_until_refines step sd input globals outs params seq t c m :
  refines (fun e m1 y => exists c', continues e m1 (st_name step) seq (Some (UntilLoop c')) /\
      uc_step_name c' = st_name step /\ uc_started_at_epoch c' = t /\
      y = run_until (E := quiet) r step sd input globals outs params seq t (Some c') m1)
    (run_until (E := noisy) r step sd input globals outs params seq t c)
    (run_until (E := quiet) r step sd input globals outs params seq t c) m.
Proof.
  unfold run_until. apply refines_pre; [done|unfold reject_loop_cache, definition_error; solve_uncut|].
  intros u m1 Hreject. destruct (st_until step) as [until|]; [|apply refines_same; [done|solve_uncut]].
  destruct (st_max_iterations step) as [max|]; [|apply refines_same; [done|solve_uncut]].
  apply refines_pre; [done|solve_uncut|]. intros u' m2 Hlimit.
  destruct (max <? _)%Z eqn:Hmax; [apply refines_same; [done|solve_uncut]|].
  apply Z.ltb_ge in Hmax. eapply refines_weaken; [|apply until_attempts_refines].
  intros e m3 y _ _ (n' & k' & last' & Hn & Hc & ->). exists (until_checkpoint step t k' last').
  split; [done|]. split; [done|]. split; [done|]. apply liftM_Ok in Hreject as [Hreject _].
  apply liftM_Ok in Hlimit as [Hlimit _]. cbn [uc_attempts_completed uc_last_result until_checkpoint].
  erewrite bindM_run by (unfold lift; rewrite Hreject; reflexivity).
  erewrite bindM_run by (unfold lift; rewrite Hlimit; reflexivity).
  replace (max <? Z.of_nat k')%Z with false by (symmetry; apply Z.ltb_ge; lia).
  by replace (Z.to_nat max - k')%nat with n' by lia.
Qed.

(** ** Iterations *)

Lemma run_item_key {W' : Type} {F : StepExecutor W'} step sd input globals params strategy entry (m : machine W') o m' :
  run_item (E := F) r step sd input globals params strategy entry m = (Ok o, m') -> o.1 = entry.1.
Proof.
  unfold run_item, guard_item. intros [Hi|(e & m1 & _ & Hi)]%attemptM_Ok; [by inv_M|].
  destruct (escapes strategy e); by inv_M.
Qed.

Lemma append_result_key step strategy o : result_key (append_result step strategy o) = o.1.
Proof. destruct o as [k [v|e]]; [done|by destruct strategy]. Qed.

Lemma run_chunk_keys {W' : Type} {F : StepExecutor W'} step sd input globals params strategy permits entries
    (m : machine W') outcomes m' :
  (0 < permits)%nat -> run_chunk (E := F) r step sd input globals params strategy permits entries m = (Ok outcomes, m') ->
  map fst outcomes = map fst entries.
Proof.
  intros Hp Hc. pose proof (run_chunk_spec r step sd input globals params strategy entries (m_invocations m)
    (fun _ _ => True) (fun _ _ => True)) as Hs.
  specialize (Hs ltac:(intros; by destruct (begin_item _ _ _ _ _ _ _ _).1) ltac:(done) permits m Hp eq_refl).
  rewrite Hc in Hs. by eapply outcomes_of_keys, Hs.
Qed.

Section iteration.
Variables (step : FlowStep) (sd : StepDefinition) (input : json) (globals params : list (string * json)).
Variables (strategy : IterationFailStrategy) (seq : Z) (t : spec_float).
Variable entries : list (iteration_key * json).

(** The first [offset] items are done. *)
Definition progressed (offset : nat) (progress : iteration_progress) : Prop :=
  (offset <= length entries)%nat /\ length progress.1 = offset /\
  map result_key progress.1 = take offset (map fst entries).

Definition iteration_checkpoint (offset : nat) (progress : iteration_progress) : IterationCheckpoint := {|
  ic_step_name := st_name step; ic_started_at_epoch := t; ic_next_offset := offset;
  ic_results := progress.1; ic_failed := progress.2 |}.

(** A history left inside the loop: [loop] goes on from the item of the checkpoint. *)
Definition iteration_cut (loop : nat -> iteration_progress -> M W iteration_progress) (e : exn) (m1 : machine W)
    (y : res iteration_progress * machine W) : Prop :=
  exists offset progress, progressed offset progress /\
    continues e m1 (st_name step) seq (Some (IterationLoop (iteration_checkpoint offset progress))) /\
    y = loop offset progress m1.

Lemma progressed_extend offset k progress outcomes :
  progressed offset progress -> (offset + k <= length entries)%nat ->
  map fst outcomes = map fst (take k (drop offset entries)) ->
  progressed (offset + k) (progress.1 ++ map (append_result step strategy) outcomes, (progress.2 + count_failed outcomes)%nat).
Proof.
  intros (Hle & Hlen & Hkeys) Hk Ho. split; [lia|]. cbn. rewrite length_app, length_map, map_app, map_map. split.
  - apply (f_equal length) in Ho. rewrite !length_map, length_take, length_drop in Ho. lia.
  - rewrite (map_ext _ _ (append_result_key step strategy)), Ho, Hkeys.
    rewrite <- take_take_drop, !firstn_map, skipn_map, firstn_map. done.
Qed.

Lemma record_progress_refines offset outcomes progress m :
  refines (fun e m1 y => m1 = m /\ y = (Ok (extend step strategy progress outcomes), m) /\
      continues e m (st_name step) seq
        (Some (IterationLoop (iteration_checkpoint offset (extend step strategy progress outcomes)))))
    (record_progress (E := noisy) r step strategy seq t offset outcomes progress)
    (record_progress (E := quiet) r step strategy seq t offset outcomes progress) m.
Proof.
  unfold record_progress, append_iteration_results. eapply refines_bind; [apply loop_checkpoint_refines|done|].
  intros e m1 y _ (-> & Hc & ->). done.
Qed.

Lemma iterate_sequential_refines offset progress m :
  progressed offset progress ->
  refines (iteration_cut (fun o p => iterate_sequential (E := quiet) r step sd input globals params strategy seq t o
      (drop o entries) p))
    (iterate_sequential (E := noisy) r step sd input globals params strategy seq t offset (drop offset entries) progress)
    (iterate_sequential (E := quiet) r step sd input globals params strategy seq t offset (drop offset entries) progress) m.
Proof.
  remember (drop offset entries) as todo eqn:Htodo.
  revert offset progress m Htodo; induction todo as [|entry todo IH]; intros offset progress m Htodo Hp; [done|].
  assert (todo = drop (S offset) entries) as Hrest.
  { replace (S offset) with (offset + 1)%nat by lia. by rewrite <- drop_drop, <- Htodo. }
  assert (offset + 1 <= length entries)%nat as Hlt.
  { apply (f_equal length) in Htodo. rewrite length_drop in Htodo. cbn in Htodo. lia. }
  cbn [iterate_sequential]. apply refines_pre; [done|apply uncut_run_item; auto with uncut|].
  intros o m1 Ho%run_item_key.
  assert (progressed (S offset) (extend step strategy progress [o])) as Hp'.
  { replace (S offset) with (offset + 1)%nat by lia. apply progressed_extend; [done|lia|].
    rewrite <- Htodo. cbn. by rewrite Ho. }
  eapply refines_bind; [apply record_progress_refines| |].
  - intros progress' m2 Hrec. apply IH; [done|].
    pose proof (record_progress_spec (H := noisy) r step strategy seq t (S offset) [o] progress m1) as Hs.
    rewrite Hrec in Hs. by destruct Hs as [-> _].
  - intros e m2 y _ (-> & -> & Hc). exists (S offset), (extend step strategy progress [o]).
    split; [done|]. split; [done|]. cbn [andthen]. by rewrite Hrest.
Qed.

Section parallel.
Variables (permits chunk : nat).
Hypothesis Hpermits : (0 < permits)%nat.
Hypothesis Hchunk : (0 < chunk)%nat.

Abbreviation parallel F := (iterate_parallel (E := F) r).

(** Fuel beyond the number of items changes nothing. *)
Lemma iterate_parallel_fuel (F : StepExecutor W) fuel fuel' offset todo progress m :
  (length todo <= fuel)%nat -> (length todo <= fuel')%nat ->
  parallel F fuel step sd input globals params strategy permits chunk seq t offset todo progress m =
  parallel F fuel' step sd input globals params strategy permits chunk seq t offset todo progress m.
Proof.
  revert fuel' offset todo progress m; induction fuel as [|fuel IH]; intros fuel' offset todo progress m Hf Hf'.
  - destruct todo; [|cbn in Hf; lia]. by destruct fuel'.
  - destruct todo as [|x todo]; [by destruct fuel'|]. destruct fuel' as [|fuel']; [cbn in Hf'; lia|].
    cbn [iterate_parallel]. unfold mbind, M_bind. destruct (run_chunk _ _ _ _ _ _ _ _ _ m) as [[o|e] m1]; [|done].
    destruct (record_progress _ _ _ _ _ _ _ _ m1) as [[p|e] m2]; [|done].
    apply IH; rewrite length_drop; cbn in *; lia.
Qed.

Lemma iterate_parallel_refines fuel offset progress m :
  progressed offset progress -> (length (drop offset entries) <= fuel)%nat ->
  refines (iteration_cut (fun o p => parallel quiet (length (drop o entries)) step sd input globals params strategy
      permits chunk seq t o (drop o entries) p))
    (parallel noisy fuel step sd input globals params strategy permits chunk seq t offset (drop offset entries) progress)
    (parallel quiet fuel step sd input globals params strategy permits chunk seq t offset (drop offset entries) progress) m.
Proof.
  revert offset progress m; induction fuel as [|fuel IH]; intros offset progress m Hp Hfuel; [done|].
  cbn [iterate_parallel]. destruct (drop offset entries) as [|entry todo] eqn:Htodo; [done|].
  rewrite <- Htodo in *. set (part := take chunk (drop offset entries)).
  assert (0 < length part)%nat as Hpos by (unfold part; rewrite length_take, Htodo; cbn; lia).
  assert (offset + length part <= length entries)%nat as Hle.
  { unfold part. rewrite length_take, length_drop. destruct Hp as [Hp _]. lia. }
  assert (drop chunk (drop offset entries) = drop (offset + length part) entries) as Hdrop.
  { rewrite drop_drop. unfold part. rewrite length_take, length_drop.
    destruct (Nat.min_spec chunk (length entries - offset)) as [[? ->]|[? ->]]; [done|].
    rewrite !drop_ge by lia. done. }
  apply refines_pre; [done|apply uncut_run_chunk; auto with uncut|].
  intros outcomes m1 Ho%run_chunk_keys; [|done].
  assert (progressed (offset + length part) (extend step strategy progress outcomes)) as Hp'.
  { apply progressed_extend; [done|done|]. rewrite Ho. unfold part. f_equal. rewrite length_take.
    destruct (Nat.min_spec chunk (length (drop offset entries))) as [[? ->]|[? ->]]; [done|].
    by rewrite !take_ge by lia. }
  rewrite Hdrop. eapply refines_bind; [apply record_progress_refines| |].
  - intros progress' m2 Hrec. apply IH.
    + pose proof (record_progress_spec (H := noisy) r step strategy seq t (offset + length part) outcomes progress m1) as Hs.
      rewrite Hrec in Hs. by destruct Hs as [-> _].
    + rewrite length_drop in *. lia.
  - intros e m2 y _ (-> & -> & Hc). eexists _, _. split; [exact Hp'|]. split; [done|]. cbn [andthen].
    apply iterate_parallel_fuel; [rewrite length_drop in *; lia|done].
Qed.
End parallel.
End iteration.

Lemma iteration_loop_refines step sd input globals params seq t entries progress m :
  iteration_valid r step -> progressed entries (length progress.1) progress ->
  refines (iteration_cut step seq t entries (fun o p =>
      iteration_loop (H := quiet) r step sd input globals params seq t entries p))
    (iteration_loop (H := noisy) r step sd input globals params seq t entries progress)
    (iteration_loop (H := quiet) r step sd input globals params seq t entries progress) m.
Proof.
  intros [Hn Hchunk] Hp. unfold iteration_loop.
  assert (forall loop1 loop2 : nat -> iteration_progress -> M W iteration_progress,
    (forall o p m1, progressed entries o p -> loop1 o p m1 = loop2 o p m1) -> forall e m1 y,
    iteration_cut step seq t entries loop1 e m1 y -> iteration_cut step seq t entries loop2 e m1 y) as Hweak.
  { intros loop1 loop2 Heq e m1 y (o & p & Hpr & Hc & ->). exists o, p. rewrite Heq by done. done. }
  destruct (st_parallel step); [destruct (st_max_concurrency step) as [n|] eqn:Hmax|].
  - specialize (Hn n eq_refl). eapply refines_weaken; [|apply iterate_parallel_refines; [lia| |done|done]].
    + intros e m1 y _ _. apply Hweak. intros o p m2 (_ & <- & _). done.
    + destruct (fr_bounded_execution r); [lia|]. destruct (length entries); lia.
  - eapply refines_weaken; [|by apply iterate_sequential_refines].
    intros e m1 y _ _. apply Hweak. intros o p m2 (_ & <- & _). done.
  - eapply refines_weaken; [|by apply iterate_sequential_refines].
    intros e m1 y _ _. apply Hweak. intros o p m2 (_ & <- & _). done.
Qed.

Lemma run_iteration_refines step reference sd input globals outs params seq t c m :
  iteration_valid r step ->
  refines (fun e m1 y => exists c', continues e m1 (st_name step) seq (Some (IterationLoop c')) /\
      ic_step_name c' = st_name step /\ ic_started_at_epoch c' = t /\
      y = run_iteration (E := quiet) r step reference sd input globals outs params seq t (Some c') m1)
    (run_iteration (E := noisy) r step reference sd input globals outs params seq t c)
    (run_iteration (E := quiet) r step reference sd input globals outs params seq t c) m.
Proof.
  intros Hvalid. unfold run_iteration.
  apply refines_pre; [done|unfold reject_loop_cache, definition_error; solve_uncut|]. intros u1 m1 [Hl1 _]%liftM_Ok.
  apply refines_pre; [done|solve_uncut|]. intros u2 m2 [Hl2 _]%liftM_Ok.
  apply refines_pre; [done|solve_uncut|]. intros u3 m3 [Hl3 _]%liftM_Ok.
  apply refines_pre; [done|unfold resolve_iteration_items; apply uncut_lift, plain_bind;
    [apply plain_resolution_error; solve_plain|unfold definition_error; solve_plain]|].
  intros items m4 [Hl4 _]%liftM_Ok.
  apply refines_pre; [done|solve_uncut|]. intros u5 m5 [Hl5 _]%liftM_Ok.
  apply refines_pre; [done|solve_uncut|]. intros u6 m6 [Hl6 _]%liftM_Ok.
  apply refines_pre; [done|solve_uncut|]. intros u7 m7 [Hl7 _]%liftM_Ok.
  destruct (invalid_offset c (map fst (iteration_entries items))) eqn:Hoff; [done|].
  destruct (mismatched_keys c (map fst (iteration_entries items))) eqn:Hmis; [done|].
  assert (progressed (iteration_entries items) (length (resumed c).1) (resumed c)) as Hp.
  { destruct c as [c|]; cbn in *; [|split; [lia|by split]]. apply orb_false_elim in Hoff as [Hlen Hle].
    apply negb_false_iff, Nat.eqb_eq in Hlen. apply Nat.ltb_ge in Hle. rewrite length_map in Hle.
    apply negb_false_iff, bool_decide_eq_true in Hmis. split; [lia|]. by split. }
  eapply refines_bind; [exact (iteration_loop_refines step sd input globals params seq t (iteration_entries items)
    (resumed c) m7 Hvalid Hp)|done|].
  intros e m8 y _ (offset & progress & (Hle & Hlen & Hkeys) & Hc & ->).
  exists (iteration_checkpoint step t offset progress). split; [done|]. split; [done|]. split; [done|].
  erewrite bindM_run by (unfold lift; rewrite Hl1; reflexivity).
  erewrite bindM_run by (unfold lift; rewrite Hl2; reflexivity).
  erewrite bindM_run by (unfold lift; rewrite Hl3; reflexivity).
  erewrite bindM_run by (unfold lift; rewrite Hl4; reflexivity).
  erewrite bindM_run by (unfold lift; rewrite Hl5; reflexivity).
  assert (invalid_offset (Some (iteration_checkpoint step t offset progress)) (map fst (iteration_entries items)) = false) as Ho'.
  { cbn. rewrite Hlen, Nat.eqb_refl. cbn. rewrite length_map. by apply Nat.ltb_ge. }
  assert (mismatched_keys (Some (iteration_checkpoint step t offset progress)) (map fst (iteration_entries items)) = false) as Hm'.
  { cbn. rewrite Hlen, Hkeys. by rewrite bool_decide_eq_true_2. }
  erewrite bindM_run by (unfold lift; rewrite Ho'; reflexivity).
  erewrite bindM_run by (unfold lift; rewrite Hm'; reflexivity).
  cbn [iteration_checkpoint ic_results ic_failed]. rewrite <- surjective_pairing. reflexivity.
Qed.

(** ** One turn *)

Section turn.
Variables (step : FlowStep) (seq : Z).
Hypothesis Hvalid : iteration_valid r step.

(** A history left in a loop: the run without cuts is at the same item or attempt. *)
Definition loop_cut {A} (t : spec_float) (resume : LoopCheckpoint -> M W A) (e : exn) (m1 : machine W)
    (y : res A * machine W) : Prop :=
  exists l, continues e m1 (st_name step) seq (Some l) /\ loop_matches step l = true /\
    loop_started_at_epoch l = t /\ y = resume l m1.

Lemma run_operation_refines sd input globals t loop m :
  refines (loop_cut t (fun l => run_operation (E := quiet) r step sd input globals seq t (Some l)))
    (run_operation (E := noisy) r step sd input globals seq t loop)
    (run_operation (E := quiet) r step sd input globals seq t loop) m.
Proof.
  unfold run_operation.
  apply refines_pre; [done|done|]. intros outs m1 [= <- <-].
  apply refines_pre; [done|done|]. intros params m2 [= <- <-].
  destruct (st_for_each step) as [reference|] eqn:Hfor; [|destruct (st_until step) as [until|] eqn:Huntil].
  - eapply refines_bind; [by apply run_iteration_refines|done|].
    intros e m3 y He (c' & Hc & Hname & Ht & ->). exists (IterationLoop c').
    apply (frames_state _ _ _ _ (frames_run_iteration _ _ _ _ _ _ _ _ _ _ _)) in He.
    split; [done|]. split; [|split; [done|]].
    + unfold loop_matches. cbn. rewrite Hname, Hfor. by rewrite bool_decide_eq_true_2.
    + rewrite <- He. reflexivity.
  - eapply refines_bind; [by apply run_until_refines|intros [[? ?] ?]; done|].
    intros e m3 y He (c' & Hc & Hname & Ht & ->). exists (UntilLoop c').
    apply (frames_state _ _ _ _ (frames_run_until _ _ _ _ _ _ _ _ _ _)) in He.
    split; [done|]. split; [|split; [done|]].
    + unfold loop_matches. cbn. rewrite Hname, Huntil. by rewrite bool_decide_eq_true_2.
    + rewrite <- He. reflexivity.
  - apply refines_same; [done|]. apply uncut_bind; [apply uncut_invoke; auto with uncut|done].
Qed.

Lemma advance_refines result q m :
  refines after_cut (advance (E := noisy) r step result q) (advance (E := quiet) r step result q) m.
Proof.
  unfold advance. apply refines_pre; [done|done|]. intros outs m1 _. apply refines_pre; [done|done|].
  intros params m2 _. apply refines_pre; [done|apply uncut_next_step; auto with uncut|]. intros choice m3 _.
  apply refines_pre; [done|by destruct choice.2|]. intros u m4 _. apply continue_at_refines.
Qed.

Lemma turn_sleep_refines sleep_sec m :
  refines after_cut (turn_sleep (E := noisy) r step seq sleep_sec) (turn_sleep (E := quiet) r step seq sleep_sec) m.
Proof.
  unfold turn_sleep. apply refines_pre; [done|solve_uncut|]. intros u m1 _.
  apply refines_pre; [done|done|]. intros u' m2 _. apply continue_at_refines.
Qed.

Lemma turn_wait_refines wait m :
  refines after_cut (turn_wait (E := noisy) r step wait seq) (turn_wait (E := quiet) r step wait seq) m.
Proof.
  unfold turn_wait. apply refines_pre; [done|done|]. intros t m1 _. apply refines_pre; [done|done|]. intros outs m2 _.
  apply refines_pre; [done|done|]. intros params m3 _.
  apply refines_pre; [done|apply uncut_run_wait; auto with uncut|]. intros [payload|] m4 _.
  - apply refines_pre; [done|solve_uncut|]. intros p m5 _. apply refines_pre; [done|apply uncut_store|]. intros u m6 _.
    apply refines_pre; [done|done|]. intros completed m7 _.
    apply refines_pre; [done|apply uncut_lift, plain_duration|]. intros d m8 _.
    apply refines_pre; [done|done|]. intros u' m9 _. apply advance_refines.
  - apply refines_pre; [done|done|]. intros u m5 _. destruct (wf_on_timeout wait) as [target|].
    + apply refines_pre; [done|done|]. intros u' m6 _. apply continue_at_refines.
    + apply refines_same; [done|]. by apply uncut_lift.
Qed.

Lemma complete_operation_refines input globals t out m :
  refines after_cut (complete_operation (E := noisy) r step input globals seq t out)
    (complete_operation (E := quiet) r step input globals seq t out) m.
Proof.
  unfold complete_operation. apply refines_pre; [done|destruct (oo_exhausted out); [done|apply uncut_store]|].
  intros u m1 _. apply refines_pre; [done|done|]. intros completed m2 _.
  apply refines_pre; [done|apply uncut_lift, plain_duration|]. intros d m3 _.
  apply refines_pre; [done|done|]. intros u' m4 _. destruct (oo_exhausted out); [|apply advance_refines].
  destruct (st_on_exhausted step) as [target|].
  - apply refines_pre; [done|done|]. intros u'' m5 _. apply continue_at_refines.
  - apply refines_same; [done|]. by apply uncut_lift.
Qed.

Lemma handle_failure_refines t e m :
  is_cut e = false ->
  refines after_cut (handle_failure (E := noisy) r step seq t e) (handle_failure (E := quiet) r step seq t e) m.
Proof.
  intros He. unfold handle_failure. destruct (bypasses_handlers e); [apply refines_same; [done|by apply uncut_fail]|].
  apply refines_pre; [done|done|]. intros [episode|] m1 _; [apply refines_same; [done|by apply uncut_lift]|].
  destruct (failure_handler config step) as [handler|]; [|apply refines_same; [done|by apply uncut_fail]].
  apply refines_pre; [done|unfold step_failure; solve_uncut|]. intros recorded m2 _.
  do 5 (apply refines_pre; [done|done|]; intros ? ? _). apply continue_at_refines.
Qed.

(** What the turn without cuts does where the turn with cuts leaves its history: it ends
    with the same machine, or it is as far as a turn resumed in the loop. *)
Definition turn_cut (resume : LoopCheckpoint -> M W turn) (s : RunState) (e : exn) (m1 : machine W)
    (y : res turn * machine W) : Prop :=
  after_cut e m1 y \/
  exists l, continues e m1 (st_name step) seq (Some l) /\ loop_matches step l = true /\
    m_state m1 = set_current_step_started (Some (loop_started_at_epoch l)) s /\ y = resume l m1.

Lemma after_cut_turn resume s (c1 c2 : M W turn) m :
  refines after_cut c1 c2 m -> refines (turn_cut resume s) c1 c2 m.
Proof. apply refines_weaken. intros e m1 y _ _ Hc. by left. Qed.

(** A step that loops has no failure handler, and no handler runs. *)
Definition loops_unhandled (s : RunState) : Prop :=
  isSome (st_for_each step) || isSome (st_until step) = true ->
  failure_handler config step = None /\ rs_active_episode s = None.

Lemma unhandled_cut t e (m : machine W) :
  failure_handler config step = None -> rs_active_episode (m_state m) = None ->
  handle_failure (E := noisy) r step seq t e m = (Raise e, m).
Proof.
  intros Hh He. unfold handle_failure. destruct (bypasses_handlers e); [done|].
  erewrite bindM_run by reflexivity. by rewrite He, Hh.
Qed.

Lemma loop_matches_loops l : loop_matches step l = true -> isSome (st_for_each step) || isSome (st_until step) = true.
Proof. unfold loop_matches. intros [_ Hl]%andb_prop. destruct l; rewrite Hl; [done|apply orb_true_r]. Qed.

Lemma set_started_same v s : rs_current_step_started s = v -> set_current_step_started v s = s.
Proof. intros <-. by destruct s. Qed.

Definition started_of (loop : option LoopCheckpoint) : M W spec_float :=
  match loop with Some l => mret (loop_started_at_epoch l) | None => observe now end.

Lemma turn_operation_refines loop m :
  loops_unhandled (m_state m) ->
  refines (turn_cut (fun l => turn_operation (E := quiet) r step seq (Some l)) (m_state m))
    (turn_operation (E := noisy) r step seq loop) (turn_operation (E := quiet) r step seq loop) m.
Proof.
  intros Hloops. unfold turn_operation.
  apply refines_pre; [done|by destruct loop|]. intros t m1 Ht.
  assert (m_state m1 = m_state m) as Hm1 by (destruct loop; by injection Ht as <- <-).
  apply refines_pre; [done|done|]. intros u m2 [= <- <-].
  set (m2 := Machine _ (m_invocations m1) _).
  destruct (st_op step) as [op|]; [|apply refines_same; [done|by apply uncut_lift]].
  apply refines_pre; [done|apply uncut_lift, plain_get_item|]. intros sd m3 [Hsd ->]%liftM_Ok.
  apply refines_pre; [done|apply uncut_lift; unfold service_params; pose proof @plain_get_item; solve_plain|].
  intros service m3 [Hservice ->]%liftM_Ok.
  apply refines_pre; [done|done|]. intros params m3 [= <- <-].
  apply refines_pre; [done|apply uncut_lift; unfold merge_globals; solve_plain|].
  intros globals m3 [Hglobals ->]%liftM_Ok.
  apply refines_pre; [done|done|]. intros outs m3 [= <- <-].
  apply refines_pre; [done|apply uncut_lift, plain_resolution_error; solve_plain|].
  intros resolved m3 [Hresolved ->]%liftM_Ok. destruct resolved as [input holds] eqn:Hpair.
  destruct holds.
  2: { apply after_cut_turn. apply refines_pre; [done|done|]. intros u' m3 _. apply continue_at_refines. }
  eapply (refines_bind (fun e m3 y =>
    (exists n q, continues e m3 n q None /\ y = (Ok (inr (Continue (Some n) q)), m3)) \/
    (exists l, continues e m3 (st_name step) seq (Some l) /\ loop_matches step l = true /\
       loop_started_at_epoch l = t /\ m_state m3 = m_state m2 /\
       y = attempt (inl <$> run_operation (E := quiet) r step sd input globals seq t (Some l))
             (fun e => inr <$> handle_failure (E := quiet) r step seq t e) m3))).
  - eapply refines_attempt; [apply refines_fmap, run_operation_refines| |].
    + intros e m3 _ He. eapply refines_weaken; [|by apply refines_fmap, handle_failure_refines].
      intros e' m4 y _ _ (x & (n & q & Hc & ->) & ->). left. by exists n, q.
    + intros e m3 y Hop He (x & (l & Hc & Hmatch & Hstart & ->) & ->).
      assert (m_state m3 = m_state m2) as Hm3.
      { apply (frames_state (inl <$> _)) in Hop; [done|]. apply frames_fmap, frames_run_operation. }
      destruct (Hloops (loop_matches_loops l Hmatch)) as [Hnone Hep].
      split; [|right; exists l; by repeat split].
      unfold fmap, M_fmap. rewrite unhandled_cut; [done|done|]. rewrite Hm3. cbn. by rewrite Hm1.
  - intros [out|tn] m3 _; [apply after_cut_turn, complete_operation_refines|done].
  - intros e m3 y _ [(n & q & Hc & ->)|(l & Hc & Hmatch & Hstart & Hm3 & ->)]; [left; by exists n, q|right].
    exists l. split; [done|]. split; [done|]. split; [rewrite Hm3, Hstart; cbn; by rewrite Hm1|].
    assert (Machine (set_current_step_started (Some t) (m_state m3)) (m_invocations m3) (m_world m3) = m3) as Hsame.
    { rewrite set_started_same; [by destruct m3|]. by rewrite Hm3. }
    erewrite (bindM_run (mret _)) by reflexivity. rewrite Hstart.
    erewrite (bindM_run (writes _)) by reflexivity. rewrite Hsame.
    erewrite bindM_run by (unfold lift; rewrite Hsd; reflexivity).
    erewrite bindM_run by (unfold lift; rewrite Hservice; reflexivity).
    erewrite bindM_run by reflexivity. rewrite Hm3. cbn [rs_params set_current_step_started m2 m_state].
    erewrite bindM_run by (unfold lift; rewrite Hglobals; reflexivity).
    erewrite bindM_run by reflexivity. rewrite Hm3. cbn [rs_step_outputs set_current_step_started m2 m_state].
    erewrite bindM_run by (unfold lift; rewrite Hresolved; reflexivity).
    reflexivity.
Qed.
End turn.

(** A run whose loops have no handler: no step that loops names one, or stands in the
    steps of one. *)
Definition unhandled_loops : Prop :=
  forall step, step ∈ wc_flow config -> isSome (st_for_each step) || isSome (st_until step) = true ->
  failure_handler config step = None /\
  forall source h, source ∈ wc_flow config -> failure_handler config source = Some h ->
  st_name step ∉ handler_region r h.

(** What holds of the state of a run: its identity, and an episode of a handler. *)
Definition episode_of_flow (s : RunState) : Prop :=
  forall episode, rs_active_episode s = Some episode ->
  exists source h, source ∈ wc_flow config /\ failure_handler config source = Some h /\
    ep_handler_steps episode = elements (handler_region r h).

Hypothesis Hloops : unhandled_loops.
Hypothesis Hvalid : forall step, step ∈ wc_flow config -> iteration_valid r step.

Lemma enter_step_unhandled name seq s step :
  episode_of_flow s -> step ∈ wc_flow config -> st_name step = name -> loops_unhandled step (enter_step name seq s).
Proof.
  intros Hep Hin <- Hloop. destruct (Hloops step Hin Hloop) as [Hh Hregions]. split; [done|].
  unfold enter_step. cbn. destruct (rs_active_episode s) as [episode|] eqn:He; [|by cbn].
  destruct (Hep _ He) as (source & h & Hs & Hf & Hsteps). rewrite bool_decide_eq_false_2; [done|].
  rewrite Hsteps, elem_of_elements. by eapply Hregions.
Qed.

Lemma enter_again name seq v s :
  enter_step name seq (set_current_step_started v (enter_step name seq s)) = enter_step name seq s.
Proof.
  unfold enter_step. cbn. destruct (rs_active_episode s) as [ep|] eqn:Hep; cbn; [|by rewrite Hep].
  destruct (bool_decide (name ∈ ep_handler_steps ep)) eqn:Hb; cbn; [|done]. by rewrite Hep, Hb.
Qed.

Lemma turn_operation_restarted step seq l v s i (w : W) :
  turn_operation (E := quiet) r step seq (Some l) (Machine (set_current_step_started v s) i w) =
  turn_operation (E := quiet) r step seq (Some l) (Machine s i w).
Proof. reflexivity. Qed.

(** A history left in a turn: the run without cuts is before the next turn, or in a loop
    where a resumed turn would go on. *)
Definition flow_cut (name : string) (seq : Z) (e : exn) (m1 : machine W) (y : res turn * machine W) : Prop :=
  after_cut e m1 y \/
  exists l, continues e m1 name seq (Some l) /\ y = run_turn (E := quiet) r name seq (Some l) m1.

Lemma run_turn_refines name seq loop m :
  episode_of_flow (m_state m) ->
  refines (flow_cut name seq) (run_turn (E := noisy) r name seq loop) (run_turn (E := quiet) r name seq loop) m.
Proof.
  intros Hep. unfold run_turn. apply refines_pre; [done|done|]. intros u m1 [= <- <-].
  apply refines_pre; [done|apply uncut_lift, plain_get_item|]. intros step m2 [Hstep ->]%liftM_Ok.
  apply refines_pre; [done|apply uncut_lift; unfold definition_error; solve_plain|]. intros u' m3 [Hloop ->]%liftM_Ok.
  assert (dict_get name (steps_dict config) = Some step) as Hget.
  { unfold get_item, flow_steps in Hstep. destruct (dict_get name (steps_dict config)); [congruence|done]. }
  destruct (get_steps_dict _ _ _ Hget) as [Hin Hname].
  destruct (st_terminal step) eqn:Hterm; [done|].
  destruct (st_sleep_sec step) as [z|] eqn:Hsleep.
  { eapply refines_weaken; [|apply turn_sleep_refines]. intros ??? _ _ Hc. by left. }
  destruct (st_wait_for step) as [wait|] eqn:Hwait.
  { eapply refines_weaken; [|apply turn_wait_refines]. intros ??? _ _ Hc. by left. }
  eapply refines_weaken; [|apply turn_operation_refines; [by apply Hvalid|by eapply enter_step_unhandled]].
  intros e m4 y _ _ [Hc|(l & Hc & Hmatch & Hm4 & ->)]; [by left|right]. exists l. rewrite Hname in Hc. split; [done|].
  cbn [m_state] in Hm4. symmetry. unfold run_turn. erewrite bindM_run by reflexivity. rewrite Hm4. cbn [m_state]. rewrite enter_again.
  erewrite bindM_run by (unfold lift; rewrite Hstep; reflexivity). rewrite Hmatch.
  erewrite bindM_run by reflexivity. rewrite Hterm, Hsleep, Hwait.
  rewrite <- turn_operation_restarted with (v := Some (loop_started_at_epoch l)). rewrite <- Hm4. by destruct m4.
Qed.

(** ** What every turn keeps *)

Definition flow_state (identity : CorrelationIdentity) (s : RunState) : Prop :=
  rs_correlation s = identity /\ episode_of_flow s.

Section keeps.
Variable identity : CorrelationIdentity.

Definition keeps {A} (c : M W A) : Prop := forall m, flow_state identity (m_state m) -> flow_state identity (m_state (c m).2).

Lemma keeps_frames {A} (c : M W A) : frames c -> keeps c.
Proof. intros Hc m. by rewrite Hc. Qed.

Lemma keeps_bind {A B} (c : M W A) (f : A -> M W B) : keeps c -> (forall a, keeps (f a)) -> keeps (c ≫= f).
Proof.
  intros Hc Hf m Hm. unfold mbind, M_bind. specialize (Hc m Hm). destruct (c m) as [[a|e] m1]; [by apply Hf|done].
Qed.

Lemma keeps_fmap {A B} (f : A -> B) (c : M W A) : keeps c -> keeps (f <$> c).
Proof. intros Hc m Hm. unfold fmap, M_fmap. specialize (Hc m Hm). by destruct (c m) as [[a|e] m1]. Qed.

Lemma keeps_attempt {A} (c : M W A) (h : exn -> M W A) : keeps c -> (forall e, keeps (h e)) -> keeps (attempt c h).
Proof.
  intros Hc Hh m Hm. unfold attempt. specialize (Hc m Hm). destruct (c m) as [[a|e] m1]; [done|by apply Hh].
Qed.

Lemma keeps_writes f :
  (forall s, rs_correlation (f s) = rs_correlation s) ->
  (forall s, rs_active_episode (f s) = rs_active_episode s \/ rs_active_episode (f s) = None) -> keeps (writes f).
Proof.
  intros Hc He m [Hm Hep]. split; [by cbn; rewrite Hc|]. intros ep. cbn.
  destruct (He (m_state m)) as [->| ->]; [apply Hep|done].
Qed.
End keeps.

Create HintDb keeps.

Ltac solve_keeps :=
  repeat (intros; match goal with
  | |- keeps _ (_ ≫= _) => apply keeps_bind
  | |- keeps _ (_ <$> _) => apply keeps_fmap
  | |- keeps _ (attempt _ _) => apply keeps_attempt
  | |- keeps _ (writes _) => apply keeps_writes; [done|by left]
  | |- keeps _ (match ?x with _ => _ end) => destruct x
  | |- keeps _ _ => solve [apply keeps_frames; auto with frames]
  end); intros.

Section turn_keeps.
Context {F : StepExecutor W}.
Variables (identity : CorrelationIdentity) (step : FlowStep) (seq : Z).

Lemma keeps_continue_at next q : keeps identity (continue_at r next q).
Proof. unfold continue_at. solve_keeps. Qed.

Lemma keeps_record_entry entry : keeps identity (record_entry step entry).
Proof. unfold record_entry. solve_keeps. Qed.

Lemma keeps_record_transition t : keeps identity (record_transition t).
Proof. unfold record_transition. solve_keeps. Qed.

Lemma keeps_store result : keeps identity (store step result).
Proof. unfold store. solve_keeps. Qed.
Hint Resolve keeps_continue_at keeps_record_entry keeps_record_transition keeps_store : keeps.

Lemma keeps_advance result q : keeps identity (advance r step result q).
Proof.
  unfold advance. solve_keeps; auto with keeps.
Qed.
Hint Resolve keeps_advance : keeps.

Lemma keeps_turn_sleep z : keeps identity (turn_sleep r step seq z).
Proof. unfold turn_sleep. solve_keeps; auto with keeps. Qed.

Lemma keeps_turn_wait wait : keeps identity (turn_wait r step wait seq).
Proof. unfold turn_wait. solve_keeps; auto with keeps. Qed.

Lemma keeps_complete_operation input globals t out : keeps identity (complete_operation r step input globals seq t out).
Proof. unfold complete_operation. solve_keeps; auto with keeps. Qed.

Lemma keeps_handle_failure t e : step ∈ wc_flow config -> keeps identity (handle_failure r step seq t e).
Proof.
  intros Hin. unfold handle_failure. destruct (bypasses_handlers e); [solve_keeps|].
  apply keeps_bind; [solve_keeps|]. intros [episode|]; [solve_keeps|].
  destruct (failure_handler config step) as [handler|] eqn:Hh; [|solve_keeps].
  do 5 (apply keeps_bind; [solve_keeps; auto with keeps|]; intros).
  apply keeps_bind; [|solve_keeps; auto with keeps].
  intros m [Hm _]. split; [done|]. cbn. intros ep [= <-]. by exists step, handler.
Qed.

Lemma keeps_turn_operation loop : step ∈ wc_flow config -> keeps identity (turn_operation r step seq loop).
Proof.
  intros Hin. unfold turn_operation. solve_keeps; auto with keeps.
  - by apply keeps_handle_failure.
  - apply keeps_complete_operation.
Qed.

End turn_keeps.

Lemma keeps_run_turn {F : StepExecutor W} identity name seq loop : keeps identity (run_turn r name seq loop).
Proof.
  unfold run_turn. apply keeps_bind.
  { apply keeps_writes; intros s; unfold enter_step; cbn; destruct (rs_active_episode s) as [ep|] eqn:Hep; cbn; auto;
      destruct (bool_decide (name ∈ ep_handler_steps ep)); cbn; auto. }
  intros u. unfold get_item. destruct (dict_get name (flow_steps r)) as [step|] eqn:Hget; [|by intros m Hm].
  apply (get_steps_dict config) in Hget as [Hin _].
  match goal with |- keeps _ (lift (Ok ?s) ≫= ?f) => change (keeps identity (f s)) end. cbv beta. solve_keeps.
  - apply keeps_turn_sleep.
  - apply keeps_turn_wait.
  - by apply keeps_turn_operation.
Qed.

(** ** Runs *)

(** The next step sees nothing of a state but what a checkpoint restores. *)
Definition resumes (s s' : RunState) : Prop := forall name seq, enter_step name seq s = enter_step name seq s'.

Lemma run_flow_resumes {F : StepExecutor W} fuel name seq loop s s' i (w : W) :
  resumes s s' ->
  run_flow (E := F) r fuel (Some name) seq loop (Machine s i w) = run_flow (E := F) r fuel (Some name) seq loop (Machine s' i w).
Proof.
  intros Hs. destruct fuel; [done|]. cbn [run_flow].
  assert (run_turn (E := F) r name seq loop (Machine s i w) = run_turn (E := F) r name seq loop (Machine s' i w)) as ->; [|done].
  unfold run_turn. erewrite !(bindM_run (writes _)) by reflexivity. cbn [m_state m_invocations m_world]. by rewrite Hs.
Qed.

Lemma checkpoint_resumes request_id s i next seq loop (w : W) :
  rs_correlation s = identity_for r request_id ->
  resumes s (m_state (restore_state (E := E) r request_id (Some (build_checkpoint s i next seq loop)) w)).
Proof. intros Hc name q. destruct s. cbn in Hc. subst. reflexivity. Qed.

(** A history left in the flow: what the run without cuts does from the checkpoint it does from the beginning. *)
Lemma run_flow_refines identity fuel cur seq loop m :
  flow_state identity (m_state m) ->
  match run_flow (E := noisy) r fuel cur seq loop m with
  | None => True
  | Some (Raise e, m1) =>
      if is_cut e then
        flow_state identity (m_state m1) /\
        exists name seq' loop', continues e m1 name seq' loop' /\
        forall fuel' y, run_flow (E := quiet) r fuel' (Some name) seq' loop' m1 = Some y ->
        exists fuel'', run_flow (E := quiet) r fuel'' cur seq loop m = Some y
      else run_flow (E := quiet) r fuel cur seq loop m = Some (Raise e, m1)
  | Some y => run_flow (E := quiet) r fuel cur seq loop m = Some y
  end.
Proof.
  revert cur seq loop m; induction fuel as [|fuel IH]; intros [name|] seq loop m Hm; try done. cbn [run_flow].
  pose proof (run_turn_refines name seq loop m (proj2 Hm)) as Ht. unfold refines in Ht.
  pose proof (keeps_run_turn (F := noisy) identity name seq loop m Hm) as Hk.
  destruct (run_turn (E := noisy) r name seq loop m) as [[[reason|next seq']|e] m1]; cbn in Hk; [by rewrite Ht| |].
  - rewrite Ht. specialize (IH next seq' None m1 Hk).
    destruct (run_flow (E := noisy) r fuel next seq' None m1) as [[[reason|e] m2]|]; [done| |done].
    destruct (is_cut e); [|done]. destruct IH as (Hs & n & q & l & Hc & Hgo). split; [done|].
    exists n, q, l. split; [done|]. intros fuel' y Hy. destruct (Hgo _ _ Hy) as [fuel'' Hf]. exists (S fuel'').
    cbn [run_flow]. by rewrite Ht.
  - destruct (is_cut e); [|by rewrite Ht]. split; [done|]. destruct Ht as [(n & q & Hc & Ht)|(l & Hc & Ht)].
    + exists n, q, None. split; [done|]. intros fuel' y Hy. exists (S fuel'). cbn [run_flow]. by rewrite Ht.
    + exists name, seq, (Some l). split; [done|]. intros [|fuel'] y Hy; [done|]. exists (S fuel'). cbn [run_flow] in *.
      by rewrite Ht.
Qed.

Lemma keeps_start_run {F : StepExecutor W} identity request_id trigger :
  keeps identity (start_run r request_id trigger).
Proof.
  unfold start_run. solve_keeps.
Qed.

(** The executions compared: a history left in [execute] resumes from its checkpoint. *)
Lemma execute_refines request_id fuel trigger checkpoint (w : W) :
  let m := restore_state (E := E) r request_id checkpoint w in
  flow_state (identity_for r request_id) (m_state m) ->
  match execute (E := noisy) r fuel trigger checkpoint m with
  | None => True
  | Some (Raise e, m1) =>
      if is_cut e then
        flow_state (identity_for r request_id) (m_state m1) /\
        exists c o, exn_cls e = FlowContinuation c o /\
        flow_state (identity_for r request_id) (m_state (restore_state (E := E) r request_id (Some c) (m_world m1))) /\
        forall fuel' y, execute (E := quiet) r fuel' trigger (Some c)
          (restore_state (E := E) r request_id (Some c) (m_world m1)) = Some y ->
        exists fuel'', execute (E := quiet) r fuel'' trigger checkpoint m = Some y
      else execute (E := quiet) r fuel trigger checkpoint m = Some (Raise e, m1)
  | Some y => execute (E := quiet) r fuel trigger checkpoint m = Some y
  end.
Proof.
  intros m Hm. pose proof (run_flow_refines (identity_for r request_id) fuel) as Hflow. unfold execute.
  assert (rs_correlation (m_state m) = identity_for r request_id) as Hid by apply Hm.
  assert (forall c w', rs_correlation (m_state (restore_state (E := E) r request_id (Some c) w')) = identity_for r request_id)
    as Hid' by done.
  destruct (co_request_id (rs_correlation (m_state m))) as [id|] eqn:Hreq; [|done]. rewrite Hid in Hreq.
  set (start := match checkpoint with Some _ => (Ok tt, m) | None => start_run (E := quiet) r id trigger m end).
  change (match checkpoint with Some _ => (Ok tt, m) | None => start_run (E := noisy) r id trigger m end) with start.
  assert (flow_state (identity_for r request_id) (m_state start.2) /\ plain start.1) as [Hstart Hplain].
  { unfold start. destruct checkpoint; [done|]. split; [by apply keeps_start_run|]. apply uncut_start_run.
    by apply with_history_ordinary. }
  destruct start as [[u|e] m0]; cbn in Hstart, Hplain; [|unfold plain in Hplain; by rewrite Hplain].
  destruct (wc_flow config) as [|first rest]; [done|].
  set (entry := match checkpoint with Some c => _ | None => _ end).
  specialize (Hflow entry.1.1 entry.1.2 entry.2 m0 Hstart) as Hf.
  destruct (run_flow (E := noisy) r fuel entry.1.1 entry.1.2 entry.2 m0) as [[[reason|e] m1]|]; [|..|done].
  - rewrite Hf. change (finish_run (E := quiet) r id reason m1) with (finish_run (E := noisy) r id reason m1).
    pose proof (uncut_finish_run (E := noisy) r noisy_ordinary id reason m1) as Hp.
    destruct (finish_run (E := noisy) r id reason m1) as [[x|e] m2]; [done|]. unfold plain in Hp. cbn in Hp. by rewrite Hp.
  - destruct (is_cut e); [|by rewrite Hf]. destruct Hf as (Hs & name & seq & loop & [o Hc] & Hgo).
    split; [done|]. eexists _, o. split; [exact Hc|]. split; [split; [done|apply Hs]|]. intros fuel' y.
    rewrite Hid', Hreq. cbn [ck_next_step_name ck_next_seq ck_loop build_checkpoint fst snd].
    assert (run_flow (E := quiet) r fuel' (Some name) seq loop m1 = run_flow (E := quiet) r fuel' (Some name) seq loop
      (restore_state (E := E) r request_id (Some (build_checkpoint (m_state m1) (m_invocations m1) name seq loop))
         (m_world m1))) as <-.
    { destruct m1 as [s i w1]. exact (run_flow_resumes fuel' name seq loop _ _ i w1
        (checkpoint_resumes request_id s i name seq loop w1 (proj1 Hs))). }
    intros Hy. destruct (run_flow (E := quiet) r fuel' (Some name) seq loop m1) as [z|] eqn:Hz; [|done].
    destruct (Hgo _ _ Hz) as [fuel'' Hq]. exists fuel''. by rewrite Hq.
Qed.
End resume.

(** ** Histories *)

Section histories.
Context {W : Type} (E : StepExecutor W) `{DateTime} `{FloatRepr} `{PyParser}.
Variable r : FlowRunner.

Lemma execution_error_Ok {F : StepExecutor W} e (m : machine W) x m1 :
  execution_error r e m = (Ok x, m1) -> is_cut x = false.
Proof.
  unfold execution_error, iso_now. intros Hx. apply bindM_Ok in Hx as (s & m2 & _ & Hx).
  destruct (attribute_failure e s) as [[p q] f]. by inv_M.
Qed.

Lemma uncut_archive_failure {F : StepExecutor W} e : ordinary F -> uncut (archive_failure (W := W) r e).
Proof.
  intros HF. unfold archive_failure. apply uncut_bind; [done|]. intros s.
  destruct (wc_on_complete (fr_config r)); [|done]. destruct (exn_cls e); try done.
  destruct (decide (rs_phase s = PHASE_ARCHIVE)); [done|].
  apply uncut_attempt; [|unfold iso_now; solve_uncut].
  unfold archive_failure_record, definition_error. solve_uncut.
Qed.

Lemma archive_failure_Ok {F : StepExecutor W} e (m : machine W) x m1 :
  is_cut e = false -> archive_failure r e m = (Ok x, m1) -> is_cut x = false.
Proof.
  intros He. unfold archive_failure. intros Hx. apply bindM_Ok in Hx as (s & m2 & _ & Hx).
  destruct (wc_on_complete (fr_config r)); [|by inv_M]. destruct (exn_cls e); try by inv_M.
  destruct (decide (rs_phase s = PHASE_ARCHIVE)); [by inv_M|].
  apply attemptM_Ok in Hx as [Hx|(e' & m3 & _ & Hx)]; [by inv_M|].
  destruct (is_cancellation e' || negb (is_exception e')); unfold iso_now in Hx; by inv_M.
Qed.

Lemma uncut_report_failure {F : StepExecutor W} e : ordinary F -> is_cut e = false -> uncut (report_failure (W := W) r e).
Proof.
  intros HF He. unfold report_failure. destruct (passes_run e); [by apply uncut_fail|]. intros m.
  unfold mbind at 1, M_bind at 1.
  assert (uncut (execution_error (W := W) r e)) as Hu.
  { unfold execution_error, iso_now. apply uncut_bind; [done|]. intros s.
    destruct (attribute_failure e s) as [[p q] f]. solve_uncut. }
  specialize (Hu m). destruct (execution_error r e m) as [[x|e'] m1] eqn:Hx; [|exact Hu].
  apply execution_error_Ok in Hx. unfold mbind, M_bind. pose proof (uncut_archive_failure x HF m1) as Ha.
  destruct (archive_failure r x m1) as [[y|e'] m2] eqn:Hy; [|exact Ha].
  exact (archive_failure_Ok _ _ _ _ Hx Hy).
Qed.

(** The report of a failed run does not look at the history. *)
Lemma report_failure_history report report' e (m : machine W) :
  report_failure (E := with_history E report) r e m = report_failure (E := with_history E report') r e m.
Proof.
  assert (forall x, execution_error (E := with_history E report) r x = execution_error (E := with_history E report') r x) as He
    by done.
  assert (forall x, archive_failure (E := with_history E report) r x = archive_failure (E := with_history E report') r x) as Ha
    by done.
  unfold report_failure. rewrite He. destruct (passes_run e); [done|]. unfold mbind, M_bind.
  destruct (execution_error _ _ m) as [[x|e'] m1]; [|done]. by rewrite Ha.
Qed.

(** A run that may leave its history: [observations] tells what each history reports of
    itself, and every history but the first begins with the checkpoint of the one before,
    in the world it left. *)
Inductive histories (request_id : string) (trigger : raw)
  : option RunnerCheckpoint -> W -> res json * machine W -> Prop :=
| history_last report fuel checkpoint w x m :
    run (E := with_history E report) r fuel request_id trigger checkpoint w = Some (x, m) -> plain x ->
    histories request_id trigger checkpoint w (x, m)
| history_left report fuel checkpoint w e m c o y :
    run (E := with_history E report) r fuel request_id trigger checkpoint w = Some (Raise e, m) ->
    exn_cls e = FlowContinuation c o ->
    histories request_id trigger (Some c) (m_world m) y -> histories request_id trigger checkpoint w y.

Abbreviation quiet := (with_history E (fun _ => quiet_history)).

Hypothesis HE : ordinary E.
Hypothesis Hevents : (1 <= history_events (fr_limits r))%Z.
Hypothesis Hbytes : (1 <= history_bytes (fr_limits r))%Z.
Hypothesis Hloops : unhandled_loops r.
Hypothesis Hvalid : forall step, step ∈ wc_flow (fr_config r) -> iteration_valid r step.

Lemma run_refines report request_id fuel trigger checkpoint (w : W) :
  flow_state r (identity_for r request_id) (m_state (restore_state (E := E) r request_id checkpoint w)) ->
  match run (E := with_history E report) r fuel request_id trigger checkpoint w with
  | None => True
  | Some (Raise e, m1) =>
      if is_cut e then
        exists c o, exn_cls e = FlowContinuation c o /\
        flow_state r (identity_for r request_id) (m_state (restore_state (E := E) r request_id (Some c) (m_world m1))) /\
        forall fuel' y, run (E := quiet) r fuel' request_id trigger (Some c) (m_world m1) = Some y ->
        exists fuel'', run (E := quiet) r fuel'' request_id trigger checkpoint w = Some y
      else run (E := quiet) r fuel request_id trigger checkpoint w = Some (Raise e, m1)
  | Some y => run (E := quiet) r fuel request_id trigger checkpoint w = Some y
  end.
Proof.
  intros Hm. pose proof (execute_refines E r report HE Hevents Hbytes Hloops Hvalid request_id fuel trigger checkpoint w Hm) as He.
  cbv zeta in He. unfold run.
  change (restore_state (E := with_history E report) r request_id checkpoint w) with (restore_state (E := E) r request_id checkpoint w).
  change (restore_state (E := quiet) r request_id checkpoint w) with (restore_state (E := E) r request_id checkpoint w).
  destruct (execute (E := with_history E report) r fuel trigger checkpoint _) as [[[record|e] m1]|]; [by rewrite He| |done].
  destruct (is_cut e) eqn:Hcut.
  - destruct He as (_ & c & o & Hc & Hs & Hgo).
    assert (report_failure (E := with_history E report) r e m1 = (Raise e, m1)) as ->.
    { unfold report_failure, passes_run. rewrite Hc, !orb_true_r. done. }
    rewrite Hcut. exists c, o. split; [done|]. split; [done|]. intros fuel' y Hy.
    change (restore_state (E := quiet) r request_id (Some c) (m_world m1)) with
      (restore_state (E := E) r request_id (Some c) (m_world m1)) in Hy.
    destruct (execute (E := quiet) r fuel' trigger (Some c) _) as [z|] eqn:Hz; [|done].
    destruct (Hgo _ _ Hz) as [fuel'' Hq]. exists fuel''. by rewrite Hq.
  - rewrite He. rewrite (report_failure_history (fun _ => quiet_history) report).
    pose proof (uncut_report_failure (F := with_history E report) e (with_history_ordinary E report HE) Hcut m1) as Hp.
    destruct (report_failure r e m1) as [[x|e'] m2]; [done|]. unfold plain in Hp. cbn in Hp. by rewrite Hp.
Qed.

Lemma histories_run request_id trigger checkpoint w y :
  histories request_id trigger checkpoint w y ->
  flow_state r (identity_for r request_id) (m_state (restore_state (E := E) r request_id checkpoint w)) ->
  exists fuel, run (E := quiet) r fuel request_id trigger checkpoint w = Some y.
Proof.
  induction 1 as [report fuel checkpoint w x m Hrun Hx|report fuel checkpoint w e m c o y Hrun Hc _ IH]; intros Hm;
    pose proof (run_refines report request_id fuel trigger checkpoint w Hm) as Hr; rewrite Hrun in Hr.
  - exists fuel. destruct x as [x|e]; [done|]. unfold plain in Hx. cbn in Hx. by rewrite Hx in Hr.
  - unfold is_cut in Hr. rewrite Hc in Hr. destruct Hr as (c' & o' & [= <- <-] & Hs & Hgo).
    destruct (IH Hs) as [fuel' Hy]. by eapply Hgo.
Qed.

Lemma fresh_flow_state request_id (w : W) :
  flow_state r (identity_for r request_id) (m_state (restore_state (E := E) r request_id None w)).
Proof. by split. Qed.
End histories.

Lemma run_mono {W : Type} `{StepExecutor W} `{DateTime} `{FloatRepr} `{PyParser} r fuel fuel' request_id trigger
    checkpoint (w : W) y :
  run r fuel request_id trigger checkpoint w = Some y -> (fuel <= fuel')%nat ->
  run r fuel' request_id trigger checkpoint w = Some y.
Proof.
  unfold run, execute. set (m := restore_state r request_id checkpoint w). intros Hr Hle.
  destruct (co_request_id (rs_correlation (m_state m))) as [id|]; [|done].
  destruct (match checkpoint with Some _ => _ | None => _ end) as [[u|e] m1]; [|done].
  destruct (wc_flow (fr_config r)) as [|first rest]; [done|].
  set (entry := match checkpoint with Some c => _ | None => _ end) in *.
  destruct (run_flow r fuel entry.1.1 entry.1.2 entry.2 m1) as [out|] eqn:Hf; [|done].
  by rewrite (run_flow_mono r _ _ _ _ _ _ _ Hf Hle).
Qed.

(** ** Properties *)


(** ** Samples *)

Definition sample_loop_runner : FlowRunner :=
  sample_runner (plain_workflow "loop" [("get", plain_operation "svc" "get")]
    [op_step "fetch" "get" InputNone "each" None;
     sequential (each_step "each" "get" (root_reference "fetch") 1 SKIP "done"); terminal_step "done" None]).

(** Services whose answers depend on the number of the call: a list, then numbers, and
    a refusal. *)
Definition counting_executor : StepExecutor nat := {|
  run_step := fun _ _ n =>
    (match n with
     | 0%nat => Ok {| sr_data := RList [RInt 5; RInt 6; RInt 7]; sr_cache := None |}
     | 2%nat => Raise (service_error "refused")
     | _ => Ok {| sr_data := RInt (Z.of_nat n); sr_cache := None |}
     end, S n);
  run_evaluator := fun _ _ _ _ n => (Ok true, n);
  wait_for_event := fun _ _ n => (Ok None, n);
  sleep := fun _ n => (Ok tt, n);
  validate_contract := fun _ _ _ _ n => (Ok tt, n);
  run_subworkflow := fun _ _ _ n => (Ok RNone, n);
  archive := fun _ _ _ _ _ n => (Ok tt, n);
  observe_history := fun _ => quiet_history;
  now := fun _ => S754_zero false;
  next_completion := fun _ n => (0%nat, n);
  cancel_calls := fun _ n => n;
|}.

Lemma counting_ordinary : ordinary counting_executor.
Proof. split; try done. intros iv sv [|[|[|n]]]; done. Qed.

Definition set_on_failure (handler : option string) (s : FlowStep) : FlowStep := {|
  st_name := st_name s; st_op := st_op s; st_input := st_input s; st_output := st_output s;
  st_params := st_params s; st_then := st_then s; st_on_result := st_on_result s;
  st_condition := st_condition s; st_for_each := st_for_each s; st_as_var := st_as_var s;
  st_parallel := st_parallel s; st_max_concurrency := st_max_concurrency s;
  st_on_iteration_fail := st_on_iteration_fail s; st_wait_for := st_wait_for s;
  st_sleep_sec := st_sleep_sec s; st_until := st_until s; st_max_iterations := st_max_iterations s;
  st_interval_sec := st_interval_sec s; st_on_exhausted := st_on_exhausted s; st_on_failure := handler;
  st_terminal := st_terminal s; st_reason := st_reason s |}.

(** A history that ends after the given number of calls. *)
Definition ends_after (calls n : nat) : HistoryObservation :=
  {| ho_events := 0; ho_bytes := 0; ho_server_suggested := Nat.eqb n calls |}.

(** The sample run in one history, from a checkpoint or the beginning. *)
Definition loop_history (report : nat -> HistoryObservation) (checkpoint : option RunnerCheckpoint) (n : nat)
  : option (res json * machine nat) :=
  run (E := with_history counting_executor report) sample_loop_runner 5 "req" (RDict []) checkpoint n.

Definition left_at (x : option (res json * machine nat)) : option RunnerCheckpoint :=
  match x with
  | Some (Raise e, _) => match exn_cls e with FlowContinuation c _ => Some c | _ => None end
  | _ => None
  end.

Definition loop_checkpoint_1 := left_at (loop_history (ends_after 1) None 0).
Definition loop_checkpoint_2 := left_at (loop_history (ends_after 3) loop_checkpoint_1 1).
Definition loop_end := loop_history (ends_after 7) loop_checkpoint_2 3.

Lemma sample_loop_unhandled : unhandled_loops sample_loop_runner.
Proof.
  intros step Hin _. split.
  - repeat (apply elem_of_cons in Hin as [->|Hin]; [done|]). by apply not_elem_of_nil in Hin.
  - intros source h Hs Hh. repeat (apply elem_of_cons in Hs as [->|Hs]; [done|]). by apply not_elem_of_nil in Hs.
Qed.

Lemma sample_loop_valid step : step ∈ wc_flow (fr_config sample_loop_runner) -> iteration_valid sample_loop_runner step.
Proof.
  intros Hin. repeat (apply elem_of_cons in Hin as [->|Hin]; [by split|]). by apply not_elem_of_nil in Hin.
Qed.


(** The same run where the loop has a handler: the handler takes the continuation for a
    failure of the step, and the next history begins with the handler. *)
Example handler_takes_continuation :
  let r := sample_runner (plain_workflow "loop" [("get", plain_operation "svc" "get")]
    [op_step "fetch" "get" InputNone "each" None;
     set_on_failure (Some "failed") (sequential (each_step "each" "get" (root_reference "fetch") 1 SKIP "done"));
     terminal_step "done" None; terminal_step "failed" (Some "each failed")]) in
  let once := run (E := with_history counting_executor (fun _ => quiet_history)) r 5 "req" (RDict []) None 0%nat in
  let cut := left_at (run (E := with_history counting_executor (ends_after 3)) r 5 "req" (RDict []) None 0%nat) in
  (ck_next_step_name <$> cut) = Some "failed" /\ (sf_cause_code <$> (cut ≫= fun c => head (ck_failures c))) = Some "FlowContinuation" /\
  match once with Some (Ok record, _) => record_status record = Some (JStr "completed") | _ => False end.
Proof. vm_compute. repeat split. Qed.
