(* ===== verification/Regions.v ===== *)
(** The regions of the flow that the runner computes ([Runner.normal_region],
    [Runner.handler_region]): the worklists end with exactly the steps that a walk
    reaches, in whatever order the successors are taken, and the normal region is the
    set of steps that the analysis reaches from the entry. *)

From S2P Require Export RunnerFacts Samples.

(** ** The worklist *)

Section region.
Variables (steps : list (string * FlowStep)) (skip stop : string -> bool).

(** The steps that the walk may enter. *)
Definition enters (x : string) : Prop := is_Some (dict_get x steps) /\ skip x = false.

Definition region_rel (x y : string) : Prop :=
  stop x = false /\ enters y /\ exists step, dict_get x steps = Some step /\ y ∈ normal_successors step.

(** The successors still to be pushed. *)
Definition unpushed (region : names) (l : list (string * FlowStep)) : nat :=
  sum_list_with (fun kv => if decide (kv.1 ∈ region) then 0 else length (normal_successors kv.2))%nat l.

Lemma unpushed_le x region l : (unpushed ({[ x ]} ∪ region) l <= unpushed region l)%nat.
Proof.
  induction l as [|[k s] l IH]; [done|]. cbn. unfold unpushed in *.
  destruct (decide (k ∈ {[ x ]} ∪ region)); [lia|]. rewrite decide_False by set_solver. lia.
Qed.

Lemma unpushed_enter x step region l :
  dict_get x l = Some step -> x ∉ region ->
  (unpushed ({[ x ]} ∪ region) l + length (normal_successors step) <= unpushed region l)%nat.
Proof.
  intros Hx Hr. induction l as [|[k s] l IH]; [done|]. cbn in Hx |- *. destruct (decide (x = k)) as [<-|Hk].
  - injection Hx as ->. rewrite decide_True by set_solver. rewrite decide_False by done.
    pose proof (unpushed_le x region l). unfold unpushed in *. lia.
  - specialize (IH Hx). unfold unpushed in *.
    destruct (decide (k ∈ region)); [rewrite decide_True by set_solver; lia|]. rewrite decide_False by set_solver. lia.
Qed.

Definition region_frontier (pending : list string) (region : names) : Prop :=
  forall x y, x ∈ region -> region_rel x y -> y ∈ region \/ y ∈ pending.

Lemma region_closed pending region x y :
  region_frontier pending region -> x ∈ region -> rtc region_rel x y ->
  y ∈ region \/ exists z, z ∈ pending /\ enters z /\ rtc region_rel z y.
Proof.
  intros Hf Hx Hr. induction Hr as [|x y z Hxy Hyz IH]; [by left|].
  destruct (Hf x y Hx Hxy) as [Hy|Hy]; [by apply IH|]. right. exists y. split; [done|]. split; [apply Hxy|done].
Qed.

(** An entry that the walk drops: it is in the region, or the walk may not enter it. *)
Lemma region_drop x pending region :
  x ∈ region \/ ~ enters x -> region_frontier (x :: pending) region ->
  region_frontier pending region /\ forall y,
    (y ∈ region \/ exists z, z ∈ x :: pending /\ enters z /\ rtc region_rel z y) <->
    (y ∈ region \/ exists z, z ∈ pending /\ enters z /\ rtc region_rel z y).
Proof.
  intros Hx Hf. assert (region_frontier pending region) as Hf'.
  { intros a b Ha Hab. destruct (Hf a b Ha Hab) as [?|[->|?]%elem_of_cons]; [by left| |by right].
    destruct Hx as [?|Hx]; [by left|]. destruct Hx. apply Hab. }
  split; [done|]. intros y. split.
  - intros [?|(z & [->|Hz]%elem_of_cons & He & Hr)]; [by left| |right; by exists z].
    destruct Hx as [Hx|Hx]; [by eapply region_closed|by destruct Hx].
  - intros [?|(z & Hz & ?)]; [by left|]. right. exists z. split; [by right|done].
Qed.

(** An entry that the walk takes. *)
Lemma region_take x step pending region :
  dict_get x steps = Some step -> skip x = false -> x ∉ region -> region_frontier (x :: pending) region ->
  let pending' := if stop x then pending else normal_successors step ++ pending in
  region_frontier pending' ({[ x ]} ∪ region) /\ forall y,
    (y ∈ region \/ exists z, z ∈ x :: pending /\ enters z /\ rtc region_rel z y) <->
    (y ∈ {[ x ]} ∪ region \/ exists z, z ∈ pending' /\ enters z /\ rtc region_rel z y).
Proof.
  intros Hs Hskip Hx Hf pending'.
  assert (enters x) as He by (split; [by eexists|done]).
  assert (forall b, region_rel x b -> b ∈ pending') as Hsucc.
  { intros b (Hstop & _ & step' & Hs' & Hb). rewrite Hs in Hs'. injection Hs' as <-. unfold pending'. rewrite Hstop.
    apply elem_of_app. by left. }
  assert (forall b, b ∈ pending -> b ∈ pending') as Hpend
    by (intros b Hb; unfold pending'; destruct (stop x); [done|apply elem_of_app; by right]).
  assert (region_frontier pending' ({[ x ]} ∪ region)) as Hf'.
  { intros a b [->%elem_of_singleton|Ha]%elem_of_union Hab; [right; by apply Hsucc|].
    destruct (Hf a b Ha Hab) as [?|[->|?]%elem_of_cons]; [left; set_solver|left; set_solver|right; by apply Hpend]. }
  split; [done|]. intros y. split.
  - intros [?|(z & [->|Hz]%elem_of_cons & Hez & Hr)]; [left; set_solver| |right; exists z; split; [by apply Hpend|done]].
    apply (region_closed pending' _ x); [done|set_solver|done].
  - intros [[->%elem_of_singleton|?]%elem_of_union|(z & Hz & Hez & Hr)]; [|by left|].
    + right. exists x. split; [by left|]. by split.
    + right. unfold pending' in Hz. destruct (stop x) eqn:Hstop; [exists z; split; [by right|done]|].
      apply elem_of_app in Hz as [Hz|Hz]; [|exists z; split; [by right|done]].
      exists x. split; [by left|]. split; [done|]. eapply rtc_l; [|exact Hr].
      split; [done|]. split; [done|]. by exists step.
Qed.

Lemma region_loop_spec fuel pending region :
  region_frontier pending region -> (length pending + unpushed region steps <= fuel)%nat ->
  forall y, y ∈ region_loop fuel steps skip stop pending region <->
    y ∈ region \/ exists x, x ∈ pending /\ enters x /\ rtc region_rel x y.
Proof.
  revert pending region; induction fuel as [|fuel IH]; intros pending region Hf Hfuel y;
    [destruct pending; cbn in *; [set_solver|lia]|].
  destruct pending as [|x pending]; cbn [region_loop]; [set_solver|]. cbn in Hfuel.
  destruct (dict_get x steps) as [step|] eqn:Hstep.
  - destruct (bool_decide (x ∈ region) || skip x) eqn:Hb.
    + destruct (region_drop x pending region) as [Hf' Heq]; [|done|rewrite IH by (done || lia); by rewrite Heq].
      apply orb_prop in Hb as [Hb%bool_decide_eq_true|Hb]; [by left|right]. intros [_ ?]. congruence.
    + apply orb_false_elim in Hb as [Hx%bool_decide_eq_false Hskip].
      destruct (region_take x step pending region Hstep Hskip Hx Hf) as [Hf' Heq]. rewrite IH; [by rewrite Heq|done|].
      pose proof (unpushed_enter x step region steps Hstep Hx). destruct (stop x); rewrite ?length_app; lia.
  - destruct (region_drop x pending region) as [Hf' Heq]; [|done|rewrite IH by (done || lia); by rewrite Heq].
    right. intros [[? ?] _]. congruence.
Qed.

(** The worklist from one entry. *)
Lemma region_walk entry y :
  y ∈ region_loop (region_fuel steps) steps skip stop [entry] ∅ <-> enters entry /\ rtc region_rel entry y.
Proof.
  rewrite region_loop_spec.
  - split; [intros [?|(x & ->%list_elem_of_singleton & ?)]; [set_solver|done]|]. intros Hy. right. exists entry.
    split; [by left|done].
  - intros ? ? ?. set_solver.
  - unfold region_fuel. cbn. apply le_n_S.
    clear. induction steps as [|[k s] l IH]; [done|]. cbn. rewrite length_app. case_decide; unfold unpushed in *; lia.
Qed.
End region.

(** ** The successors are the edges of normal execution *)

Section edges.
Variable w : WorkflowConfig.
Hypothesis Hvalid : forall s, s ∈ wc_flow w -> flow_step_valid s = true.
Hypothesis Hnames : NoDup (map st_name (wc_flow w)).

Lemma named_step s s' : s ∈ wc_flow w -> s' ∈ wc_flow w -> st_name s = st_name s' -> s = s'.
Proof.
  revert Hnames. clear. induction (wc_flow w) as [|x l IH]; [by intros _ ?%not_elem_of_nil|]. cbn.
  intros [Hx Hl]%NoDup_cons [->|Hs]%elem_of_cons [->|Hs']%elem_of_cons Heq; [done| | |by apply IH]; exfalso; apply Hx.
  - rewrite Heq. by apply list_elem_of_fmap_2.
  - rewrite <- Heq. by apply list_elem_of_fmap_2.
Qed.

Lemma dict_step s : s ∈ wc_flow w -> dict_get (st_name s) (steps_dict w) = Some s.
Proof.
  intros Hs. destruct (dict_get (st_name s) (steps_dict w)) as [s'|] eqn:Hget.
  - destruct (get_steps_dict _ _ _ Hget) as [Hin Hname]. f_equal. by apply named_step.
  - apply dict_get_None in Hget. destruct Hget. apply elem_steps_dict. by exists s.
Qed.

End edges.

(** What the validators say of a step that is not terminal. *)
Record running_step (s : FlowStep) : Prop := {
  rn_kind : count_true [isSome (st_op s); isSome (st_wait_for s); isSome (st_sleep_sec s)] = 1%nat;
  rn_until : isSome (st_until s) = true -> isSome (st_op s) = true /\ isSome (st_max_iterations s) = true /\
    isSome (st_for_each s) = false;
  rn_exhausted : isSome (st_on_exhausted s) = true -> isSome (st_until s) = true;
  rn_condition : isSome (st_condition s) = true -> isSome (st_then s) = true;
  rn_branches : isSome (st_then s) = true -> has_branches s = true -> isSome (st_condition s) = true;
  rn_sleep : isSome (st_sleep_sec s) = true -> has_branches s = false;
  rn_successor : isSome (st_then s) = true \/ has_branches s = true;
}.

Lemma reject_ok b msg : is_ok (reject b msg) = true <-> b = false.
Proof. by destruct b. Qed.

Ltac split_rejects H :=
  repeat (let Hb := fresh "Hb" in apply reject_then in H as [Hb H]).

Lemma is_ok_bind {A} (c : res A) (k : res unit) : is_ok (_ ← c; k) = true -> is_ok c = true /\ is_ok k = true.
Proof. by destruct c. Qed.

Ltac finish_running :=
  constructor; repeat match goal with
  | |- context [isSome ?x] => destruct (isSome x) eqn:?
  | |- context [has_branches ?s] => destruct (has_branches s) eqn:?
  end; try done; rewrite ?orb_true_r in *; cbn in *; auto; try done; try congruence.

Lemma running_step_valid s : flow_step_valid s = true -> st_terminal s = false -> running_step s.
Proof.
  unfold flow_step_valid, validate_flow_step. intros [_ Hs]%andb_prop Ht. rewrite Ht in Hs.
  split_rejects Hs. apply negb_false_iff, Nat.eqb_eq in Hb.
  destruct (isSome (st_until s)) eqn:Hun.
  - apply is_ok_bind in Hs as [Hu Hs]. split_rejects Hu. apply reject_ok in Hu. split_rejects Hs. apply reject_ok in Hs.
    finish_running.
  - split_rejects Hs. apply reject_ok in Hs. finish_running.
Qed.

Lemma terminal_successors s : flow_step_valid s = true -> st_terminal s = true -> normal_successors s = [].
Proof.
  unfold flow_step_valid, validate_flow_step. intros [_ Hs]%andb_prop Ht. rewrite Ht in Hs.
  apply reject_ok, orb_false_elim in Hs as [Hs _]. unfold terminal_conflicts in Hs.
  repeat match type of Hs with _ || _ = false => apply orb_false_elim in Hs as [Hs ?] end.
  unfold normal_successors, branches. destruct (st_then s), (st_on_result s), (st_wait_for s), (st_on_exhausted s); done.
Qed.

Section successors.
Variable w : WorkflowConfig.
Hypothesis Hvalid : forall s, s ∈ wc_flow w -> flow_step_valid s = true.
Hypothesis Hnames : NoDup (map st_name (wc_flow w)).

Lemma elem_normal_successors s n :
  n ∈ normal_successors s <-> st_then s = Some n \/ (exists b, b ∈ branches s /\ branch_target b = Some n) \/
    (exists wait, st_wait_for s = Some wait /\ wf_on_timeout wait = Some n) \/ st_on_exhausted s = Some n.
Proof.
  unfold normal_successors. rewrite !elem_of_app, !elem_opt_list, list_elem_of_omap, bind_Some. done.
Qed.

Lemma step_edge_normal s e :
  e ∈ step_edges w (steps_dict w) s -> is_failure_edge e = false -> ed_target e ∈ normal_successors s.
Proof.
  rewrite elem_normal_successors. unfold step_edges. destruct (st_terminal s); [by intros ?%not_elem_of_nil|].
  rewrite !elem_of_app. intros [He|[He|[He|[He|He]]]] Hf.
  - destruct (isSome (st_condition s)); [|by apply not_elem_of_nil in He]. apply elem_edge_to in He. naive_solver.
  - destruct (has_branches s); [|apply elem_edge_to in He; naive_solver].
    apply list_elem_of_In, in_concat in He as (es & (b & <- & Hb)%in_map_iff & He).
    apply list_elem_of_In in He, Hb. apply elem_edge_to in He. naive_solver.
  - destruct (st_wait_for s) as [wait|]; [|by apply not_elem_of_nil in He]. apply elem_edge_to in He. naive_solver.
  - destruct (isSome (st_until s)); [|by apply not_elem_of_nil in He]. apply elem_edge_to in He. naive_solver.
  - destruct (isSome (st_op s)); [|by apply not_elem_of_nil in He].
    apply elem_edge_to in He as (_ & Hk & _). unfold is_failure_edge in Hf. by rewrite Hk in Hf.
Qed.

Lemma normal_edge s kind produced n :
  s ∈ wc_flow w -> kind <> FAILURE ->
  {| ed_source := st_name s; ed_target := n; ed_kind := kind; ed_produced := produced |} ∈ step_edges w (steps_dict w) s ->
  edge_rel (normal_edges w) (st_name s) n.
Proof.
  intros Hs Hk He. exists {| ed_source := st_name s; ed_target := n; ed_kind := kind; ed_produced := produced |}.
  split; [|by split].
  apply elem_execution_edges. split; [|by apply bool_decide_eq_false]. apply elem_build_edges. exists s. by split.
Qed.

Lemma successors_edges s n :
  s ∈ wc_flow w -> n ∈ dict_keys (steps_dict w) ->
  (n ∈ normal_successors s <-> edge_rel (normal_edges w) (st_name s) n).
Proof.
  intros Hs Hn. split.
  - intros Hin. destruct (st_terminal s) eqn:Hterm.
    { rewrite (terminal_successors s (Hvalid s Hs) Hterm) in Hin. by apply not_elem_of_nil in Hin. }
    pose proof (running_step_valid s (Hvalid s Hs) Hterm) as Hr.
    apply elem_normal_successors in Hin as [Ht|[(b & Hb & Ht)|[(wait & Hw & Ht)|Ht]]].
    + destruct (has_branches s) eqn:Hbr.
      * eapply normal_edge; [done| |apply skip_edge; [done| |exact Ht|done]]; [done|].
        by apply (rn_branches s Hr); rewrite ?Ht.
      * eapply normal_edge; [done| |by apply success_edge]; done.
    + eapply normal_edge; [done| |by eapply branch_edge]; by destruct (isSome (br_default b)).
    + eapply normal_edge; [done| |by eapply timeout_edge]; done.
    + eapply normal_edge; [done| |apply exhaustion_edge; [done| |exact Ht|done]]; [done|].
      by apply (rn_exhausted s Hr); rewrite Ht.
  - intros (e & [(s' & Hs' & He)%elem_build_edges Hf]%elem_execution_edges & Hsrc & <-).
    pose proof (elem_step_edges _ _ _ _ He) as (_ & Hsrc' & _).
    assert (s' = s) as -> by (eapply named_step; [done|done|done|congruence]). by eapply step_edge_normal.
Qed.

(** A step taken by the worklist is an edge of normal execution. *)
Lemma region_rel_edge skip stop x y :
  region_rel (steps_dict w) skip stop x y <-> stop x = false /\ skip y = false /\ edge_rel (normal_edges w) x y.
Proof.
  unfold region_rel, enters. rewrite dict_get_Some_keys. split.
  - intros (Hstop & [Hy Hskip] & s & Hx & Hn). split; [done|]. split; [done|].
    destruct (get_steps_dict _ _ _ Hx) as [Hin <-]. by apply successors_edges.
  - intros (Hstop & Hskip & He). split; [done|]. pose proof He as (e & He' & <- & <-).
    apply normal_edges_ends in He' as [Ht (s & Hs & Hsrc)%elem_steps_dict]. split; [done|].
    exists s. rewrite <- Hsrc in *. split; [by apply dict_step|]. by apply successors_edges.
Qed.
End successors.

Lemma rtc_ext {A} (R S : A -> A -> Prop) x y : (forall a b, R a b <-> S a b) -> (rtc R x y <-> rtc S x y).
Proof. intros H. split; induction 1; [done|eapply rtc_l; [by apply H|done]|done|eapply rtc_l; [by apply H|done]]. Qed.

(** A path of normal execution outside the normal flow: every step that it leaves and
    every step that it enters is outside. *)
Definition outside_rel (r : FlowRunner) (x y : string) : Prop :=
  (x ∉ normal_region r) /\ (y ∉ normal_region r) /\ edge_rel (normal_edges (fr_config r)) x y.

(** ** Properties *)

Definition distinct_names (w : WorkflowConfig) : Prop := NoDup (map st_name (wc_flow w)).

(** C10: The regions of the runner.  In a workflow that passes its validators and whose
    step names are distinct, the normal region holds exactly the steps that a path of
    normal execution reaches from the entry, which are those the analysis calls reached.
    The region of a handler holds exactly the handler and the steps that a path from it
    reaches outside of normal flow. *)
Theorem regions_exact (r : FlowRunner) (first : FlowStep) (rest : list FlowStep) (handler : string)
    (Hflow : wc_flow (fr_config r) = first :: rest) (Hvalid : valid_flow (fr_config r))
    (Hnames : distinct_names (fr_config r)) (Hhandler : handler ∈ dict_keys (flow_steps r)) :
  (forall n, n ∈ normal_region r <-> exists p, flow_path (normal_edges (fr_config r)) (st_name first) p n) /\
  normal_region r = an_normal_reachable (analysis_of (fr_config r) (st_name first)) /\
  (forall n, n ∈ handler_region r handler <-> rtc (outside_rel r) handler n).
Proof.
  destruct Hvalid as [_ Hvalid].
  assert (st_name first ∈ dict_keys (steps_dict (fr_config r))) as Hfirst
    by (apply elem_steps_dict; exists first; rewrite Hflow; split; [by left|done]).
  assert (forall n, n ∈ normal_region r <-> rtc (edge_rel (normal_edges (fr_config r))) (st_name first) n) as Hnormal.
  { intros n. unfold normal_region. rewrite Hflow. change (flow_steps r) with (steps_dict (fr_config r)).
    rewrite region_walk. rewrite (rtc_ext _ (edge_rel (normal_edges (fr_config r)))).
    - split; [by intros [_ ?]|]. intros Hr. split; [|done]. split; [by apply dict_get_Some_keys|done].
    - intros a b. rewrite region_rel_edge by done. naive_solver. }
  split; [|split].
  - intros n. by rewrite Hnormal, flow_path_rtc.
  - apply set_eq. intros n. rewrite Hnormal. unfold analysis_of. cbn [an_normal_reachable].
    rewrite elem_reachable. setoid_rewrite list_elem_of_singleton. unfold normal_edges, workflow_edges. naive_solver.
  - intros n. unfold handler_region. cbv zeta. change (flow_steps r) with (steps_dict (fr_config r)).
    set (normal := normal_region r) in *. rewrite region_walk. unfold enters.
    rewrite dict_get_Some_keys, (bool_decide_eq_true_2 (handler = handler)), andb_false_r by done.
    destruct (decide (handler ∈ normal)) as [Hh|Hh].
    + split.
      * intros [_ Hr]. inversion Hr as [|? y ? Hy _]; subst; [done|].
        apply region_rel_edge in Hy as [Hy _]; [|done..]. by rewrite bool_decide_eq_true_2 in Hy.
      * intros Hr. split; [done|]. inversion Hr as [|? y ? (Hy & _) _]; subst; done.
    + assert (forall a b, region_rel (steps_dict (fr_config r))
        (fun n => bool_decide (n ∈ normal) && negb (bool_decide (n = handler))) (fun n => bool_decide (n ∈ normal)) a b
        <-> outside_rel r a b) as Hext.
      { intros a b. rewrite region_rel_edge by done. unfold outside_rel. fold normal.
        rewrite bool_decide_eq_false, andb_false_iff, bool_decide_eq_false, negb_false_iff, bool_decide_eq_true.
        naive_solver. }
      rewrite (rtc_ext _ _ _ _ Hext). naive_solver.
Qed.

Lemma regions_exact_witness :
  let r := sample_runner sample_workflow in
  normal_region r = an_normal_reachable (analysis_of sample_workflow "fetch") /\
  handler_region r "failed" = {[ "failed" ]} /\
  forall n, n ∈ handler_region r "failed" <-> rtc (outside_rel r) "failed" n.
Proof.
  intros r.
  destruct (regions_exact r (op_step "fetch" "get" InputNone "store" None) (tail sample_flow) "failed") as (_ & Hn & Hh);
    [reflexivity|exact sample_workflow_valid| | |].
  - refine (bool_decide_eq_true_1 (NoDup (map st_name sample_flow)) _). vm_compute. reflexivity.
  - refine (bool_decide_eq_true_1 ("failed" ∈ dict_keys (steps_dict sample_workflow)) _). vm_compute. reflexivity.
  - split; [exact Hn|]. split; [vm_compute; reflexivity|exact Hh].
Defined.
