(* ===== verification/AuditTrail.v ===== *)
(** The audit trail of the flow loop: every turn that goes on records one entry of its
    step under the number of the turn and the decision that chose the next step; a run
    ends at a terminal step, or raises in a turn of a step that exists. *)

From S2P Require Export Regions Dataflow.

(** ** Decisions *)

(** Why the flow goes from a step to a target, as a transition records it. *)
Inductive decision (w : WorkflowConfig) (step : FlowStep) : string -> string -> Prop :=
| decided_default b target :
    b ∈ branches step -> br_default b = Some target -> decision w step "default" target
| decided_condition b condition target :
    b ∈ branches step -> br_when b = Some (WhenExpression condition) -> br_default b = None ->
    br_then b = Some target -> decision w step condition target
| decided_evaluator b evaluator resources target :
    b ∈ branches step -> br_when b = Some (WhenEvaluator evaluator resources) -> br_default b = None ->
    br_then b = Some target -> decision w step ("evaluator:" +:+ evaluator) target
| decided_timeout wait target :
    st_wait_for step = Some wait -> wf_on_timeout wait = Some target -> decision w step "timeout" target
| decided_exhausted target : st_on_exhausted step = Some target -> decision w step "exhausted" target
| decided_error target : failure_handler w step = Some target -> decision w step "error" target.

(** The next step, by the transitions that a turn records. *)
Definition decided (w : WorkflowConfig) (step : FlowStep) (next : option string) (l : list TransitionRecord) : Prop :=
  match l with
  | [] => (next = st_then step /\ (has_branches step = false \/ isSome (st_condition step) = true)) \/
      (next = None /\ has_branches step = true /\ Forall (fun b => br_default b = None) (branches step))
  | [t] => tr_step t = st_name step /\ next = Some (tr_target t) /\ decision w step (tr_matched t) (tr_target t)
  | _ => False
  end.

Definition turn_statuses : list string :=
  ["slept"; "timed_out"; "succeeded"; "skipped"; "exhausted"; "failed"].

Lemma status_known s : bool_decide (s ∈ turn_statuses) = true -> s ∈ turn_statuses.
Proof. apply bool_decide_eq_true_1. Qed.

(** What a turn that goes on records. *)
Definition audited (w : WorkflowConfig) (step : FlowStep) (seq : Z) (s s' : RunState) (t : turn) : Prop :=
  exists next entry l,
    t = Continue next (seq + 1) /\ se_seq entry = seq /\ se_status entry ∈ turn_statuses /\
    rs_step_timings s' = dict_set (st_name step) (StepAuditEntry_dump entry) (rs_step_timings s) /\
    rs_transitions s' = rs_transitions s ++ l /\ decided w step next l.

Section turns.
Context {W : Type} `{StepExecutor W} `{DateTime} `{FloatRepr} `{PyParser}.
Variable r : FlowRunner.
Abbreviation config := (fr_config r).
Variables (step : FlowStep) (seq : Z).

Lemma match_branches_decided result outs params l (m : machine W) next t m' :
  (forall b, b ∈ l -> b ∈ branches step) ->
  match_branches (W := W) step result outs params l m = (Ok (next, t), m') ->
  match t with
  | Some t => tr_step t = st_name step /\ next = Some (tr_target t) /\ decision config step (tr_matched t) (tr_target t)
  | None => next = None /\ Forall (fun b => br_default b = None) l
  end.
Proof.
  revert m; induction l as [|b l IH]; intros m Hl; cbn [match_branches]; [by intros [= <- <- <-]|].
  assert (b ∈ branches step) as Hb by (apply Hl; by left).
  destruct (br_default b) as [d|] eqn:Hd.
  { intros [= <- <- <-]. split; [done|]. split; [done|]. by eapply decided_default. }
  intros Hm. inv_M. destruct a as [matched_branch matched]. destruct matched_branch.
  - destruct (br_then b) as [target|] eqn:Ht; [|by inv_M]. injection Hm as <- <- <-. cbn.
    split; [done|]. split; [done|]. destruct (br_when b) as [[]|] eqn:Hw; inv_M; simplify_eq.
    + by eapply decided_condition.
    + by eapply decided_evaluator.
  - assert (forall b', b' ∈ l -> b' ∈ branches step) as Hl' by (intros b' Hb'; apply Hl; by right).
    specialize (IH _ Hl' Hm). destruct t; [done|]. destruct IH as [-> IH]. split; [done|]. by constructor.
Qed.

Lemma advance_decided result q (m : machine W) t m' :
  advance (W := W) r step result q m = (Ok t, m') ->
  exists next l, t = Continue next q /\ rs_step_timings (m_state m') = rs_step_timings (m_state m) /\
    rs_transitions (m_state m') = rs_transitions (m_state m) ++ l /\ decided config step next l.
Proof.
  unfold advance. intros Hadv. inv_M. destruct a1 as [next choice].
  pose proof (frames_state _ _ _ _ (frames_next_step _ _ _ _) Ha1) as Hst.
  apply continue_at_Ok in Hadv as (-> & -> & _). exists next, (opt_list choice). split; [done|].
  assert (rs_step_timings (m_state m3) = rs_step_timings (m_state m2) /\
    rs_transitions (m_state m3) = rs_transitions (m_state m2) ++ opt_list choice) as [-> ->].
  { cbn in Ha2. destruct choice; unfold record_transition in Ha2; inv_M; [done|]. by rewrite app_nil_r. }
  rewrite Hst. split; [done|]. split; [done|]. unfold next_step in Ha1.
  destruct (has_branches step) eqn:Hb.
  - apply attemptM_Ok in Ha1 as [Ha1|(e & m4 & _ & Ha1)].
    + apply match_branches_decided in Ha1. 2: { by intros b Hbin. } destruct choice as [tr|]; [exact Ha1|]. right. destruct Ha1 as [-> Hn]. by split_and!.
    + unfold resolution_error in Ha1. cbn in Ha1. by destruct (is_condition_error e).
  - injection Ha1 as <- <- <-. left. split; [done|by left].
Qed.

Lemma record_transition_run (t : TransitionRecord) (m : machine W) :
  record_transition t m = (Ok tt, Machine (set_transitions (rs_transitions (m_state m) ++ [t]) (m_state m)) (m_invocations m) (m_world m)).
Proof. done. Qed.

Lemma turn_sleep_audited sleep_sec (m : machine W) t m' :
  has_branches step = false ->
  turn_sleep (W := W) r step seq sleep_sec m = (Ok t, m') -> audited config step seq (m_state m) (m_state m') t.
Proof.
  unfold turn_sleep. intros Hb Ht. inv_M. pose proof (frames_state _ _ _ _ (frames_external _) Ha) as Hst.
  apply continue_at_Ok in Ht as (-> & -> & _). unfold record_entry in Ha0. inv_M.
  exists (st_then step), (entry_sleep seq sleep_sec), []. split; [done|]. cbn. rewrite Hst, app_nil_r. split_and!; try done; [by apply status_known|].
  left. split; [done|by left].
Qed.

(** The common end of a turn: the entry of the step, then the decision. *)
Lemma recorded_advance entry result (s : RunState) (m m1 m2 : machine W) u t :
  se_seq entry = seq -> se_status entry ∈ turn_statuses ->
  rs_step_timings (m_state m) = rs_step_timings s -> rs_transitions (m_state m) = rs_transitions s ->
  record_entry step entry m = (Ok u, m1) -> advance (W := W) r step result (seq + 1) m1 = (Ok t, m2) ->
  audited config step seq s (m_state m2) t.
Proof.
  unfold record_entry. intros Hseq Hstatus Htim Htr Hent Hadv. inv_M.
  apply advance_decided in Hadv as (next & l & -> & Ht2 & Htr2 & Hd). cbn in Ht2, Htr2.
  exists next, entry, l. rewrite Ht2, Htr2, Htim, Htr. by split_and!.
Qed.

(** The end of a turn that names its target. *)
Lemma recorded_target entry matched target (s : RunState) (m m1 m2 m3 : machine W) u u' t :
  se_seq entry = seq -> se_status entry ∈ turn_statuses ->
  rs_step_timings (m_state m) = rs_step_timings s -> rs_transitions (m_state m) = rs_transitions s ->
  record_entry step entry m = (Ok u, m1) ->
  record_transition (transition step matched target) m1 = (Ok u', m2) ->
  decision config step matched target ->
  continue_at (W := W) r (Some target) (seq + 1) m2 = (Ok t, m3) -> audited config step seq s (m_state m3) t.
Proof.
  unfold record_entry, record_transition. intros Hseq Hstatus Htim Htr Hent Htrans Hd Hc. inv_M.
  apply continue_at_Ok in Hc as (-> & -> & _). eexists _, entry, [_]. cbn. rewrite Htim, Htr. by split_and!.
Qed.

Lemma store_audit result (m : machine W) u m' :
  store step result m = (Ok u, m') ->
  rs_step_timings (m_state m') = rs_step_timings (m_state m) /\ rs_transitions (m_state m') = rs_transitions (m_state m).
Proof. unfold store. intros Hs. by inv_M. Qed.

Lemma turn_wait_audited wait (m : machine W) t m' :
  st_wait_for step = Some wait ->
  turn_wait (W := W) r step wait seq m = (Ok t, m') -> audited config step seq (m_state m) (m_state m') t.
Proof.
  unfold turn_wait. intros Hw Ht. inv_M.
  pose proof (frames_state _ _ _ _ (frames_run_wait _ _ _ _) Ha2) as Hst.
  destruct a2 as [payload|]; inv_M.
  - match goal with H : store _ _ _ = _ |- _ => apply store_audit in H as [Htim Htr] end. rewrite Hst in *.
    match goal with H : record_entry _ _ _ = _ |- _ => eapply recorded_advance; [..|exact H|exact Ht] end;
      [done|by apply status_known|done|done].
  - destruct (wf_on_timeout wait) as [target|] eqn:Ho; [|by inv_M]. inv_M. rewrite <- Hst.
    match goal with H : record_entry _ _ _ = _, H' : record_transition _ _ = _ |- _ =>
      eapply recorded_target; [..|exact H|exact H'| |exact Ht] end; try done;
      [by apply status_known|by eapply decided_timeout].
Qed.

Lemma complete_operation_audited input globals started out (m : machine W) t m' :
  complete_operation (W := W) r step input globals seq started out m = (Ok t, m') ->
  audited config step seq (m_state m) (m_state m') t.
Proof.
  unfold complete_operation. intros Ht. apply bindM_Ok in Ht as (u0 & m0 & Hstore & Ht).
  assert (rs_step_timings (m_state m0) = rs_step_timings (m_state m) /\
    rs_transitions (m_state m0) = rs_transitions (m_state m)) as [Htim Htr].
  { destruct (oo_exhausted out); [by inv_M|by eapply store_audit]. }
  inv_M.
  destruct (oo_exhausted out) eqn:Hx.
  - destruct (st_on_exhausted step) as [target|] eqn:Ho; [|by inv_M]. inv_M.
    match goal with H : record_entry _ _ _ = _, H' : record_transition _ _ = _ |- _ =>
      eapply recorded_target; [..|exact H|exact H'| |exact Ht] end; try done;
      [by apply status_known|by apply decided_exhausted].
  - match goal with H : record_entry _ _ _ = _ |- _ => eapply recorded_advance; [..|exact H|exact Ht] end;
      [done|by apply status_known|done|done].
Qed.

Lemma handle_failure_audited started e (m : machine W) t m' :
  handle_failure (W := W) r step seq started e m = (Ok t, m') -> audited config step seq (m_state m) (m_state m') t.
Proof.
  unfold handle_failure. destruct (bypasses_handlers e); [done|]. intros Ht.
  apply bindM_Ok in Ht as (episode & m0 & Hep & Ht). injection Hep as <- <-.
  destruct (rs_active_episode (m_state m)); [by inv_M|]. destruct (failure_handler config step) as [handler|] eqn:Hh; [|done]. unfold record_entry, record_transition in Ht. inv_M.
  apply continue_at_Ok in Ht as (-> & -> & _). eexists _, (entry_failed seq _ _), [_]. cbn.
  split_and!; try done; [by apply status_known|by apply decided_error].
Qed.

Lemma turn_operation_audited loop (m : machine W) t m' :
  turn_operation (W := W) r step seq loop m = (Ok t, m') ->
  audited config step seq (m_state m) (m_state m') t.
Proof.
  unfold turn_operation. intros Ht.
  apply bindM_Ok in Ht as (t0 & m0 & Ht0 & Ht). assert (m_state m0 = m_state m) as Hst0 by (destruct loop; by inv_M).
  apply bindM_Ok in Ht as (u & m1 & Hw & Ht). injection Hw as <- <-.
  destruct (st_op step) as [op|]; [|by inv_M]. inv_M.
  match goal with H : resolve_step _ _ _ = Ok ?p |- _ => rename H into Hres; destruct p as [input holds] end.
  rewrite <- Hst0. destruct holds; inv_M.
  - match goal with H : attempt _ _ _ = _ |- _ => apply attemptM_Ok in H as [H|(e & mf & He & H)] end; inv_M; subst.
    + match goal with H : run_operation _ _ _ _ _ _ _ _ _ = _ |- _ =>
        pose proof (frames_state _ _ _ _ (frames_run_operation _ _ _ _ _ _ _ _) H) as Hst end.
      apply complete_operation_audited in Ht. by rewrite Hst in Ht.
    + inv_M. apply (frames_state (inl <$> _)) in He; [|apply frames_fmap, frames_run_operation].
      match goal with H : handle_failure _ _ _ _ _ _ = _ |- _ => apply handle_failure_audited in H; by rewrite He in H end.
  - match goal with H : record_entry _ _ _ = _ |- _ => unfold record_entry in H end. inv_M.
    apply continue_at_Ok in Ht as (-> & -> & _). eexists _, (entry_skipped seq _ _), []. cbn. rewrite app_nil_r.
    split_and!; try done; [by apply status_known|]. left. split; [done|]. right.
    unfold resolve_step, resolution_error in Hres. destruct (st_condition step); [done|]. exfalso.
    apply catch_Ok in Hres as [Hres|(e & _ & Hres)]; [by inv_ok|by case_match].
Qed.
End turns.

Lemma enter_step_audit name seq s :
  rs_step_timings (enter_step name seq s) = rs_step_timings s /\ rs_transitions (enter_step name seq s) = rs_transitions s.
Proof. unfold enter_step. cbn. destruct (rs_active_episode s); [by case_match|done]. Qed.

Section flow.
Context {W : Type} `{StepExecutor W} `{DateTime} `{FloatRepr} `{PyParser}.
Variable r : FlowRunner.
Abbreviation config := (fr_config r).

Lemma audited_ext step seq s1 s2 s' t :
  rs_step_timings s1 = rs_step_timings s2 -> rs_transitions s1 = rs_transitions s2 ->
  audited config step seq s1 s' t -> audited config step seq s2 s' t.
Proof. unfold audited. by intros -> ->. Qed.

Lemma run_turn_audited name seq loop (m : machine W) t m' :
  (forall s, s ∈ wc_flow config -> flow_step_valid s = true) ->
  run_turn (W := W) r name seq loop m = (Ok t, m') ->
  exists step, dict_get name (flow_steps r) = Some step /\ step ∈ wc_flow config /\ st_name step = name /\
    if st_terminal step then t = Finished (st_reason step) /\ m_state m' = enter_step name seq (m_state m)
    else audited config step seq (m_state m) (m_state m') t.
Proof.
  unfold run_turn. intros Hval Ht. inv_M.
  match goal with H : get_item _ _ = Ok ?s |- _ => rename H into Hget; rename s into step end.
  unfold get_item in Hget. destruct (dict_get name (flow_steps r)) as [step'|] eqn:Hstep; [|done].
  injection Hget as ->. destruct (get_steps_dict _ _ _ Hstep) as [Hin Hname].
  exists step. split; [done|]. split; [done|]. split; [done|].
  destruct (st_terminal step) eqn:Hterm; [by inv_M|].
  destruct (enter_step_audit name seq (m_state m)) as [Htim Htr].
  destruct (st_sleep_sec step) as [sleep_sec|] eqn:Hs;
    [|destruct (st_wait_for step) as [wait|] eqn:Hw]; (eapply audited_ext; [exact Htim|exact Htr|]).
  - eapply turn_sleep_audited in Ht; [exact Ht|]. by eapply sleep_no_branches; [apply Hval| |].
  - by eapply turn_wait_audited in Ht.
  - by eapply turn_operation_audited in Ht.
Qed.

(** Every target that a step names is a step. *)
Definition closed_flow : Prop :=
  forall s, s ∈ wc_flow config ->
  (forall n, n ∈ normal_successors s -> n ∈ dict_keys (flow_steps r)) /\
  (forall h, failure_handler config s = Some h -> h ∈ dict_keys (flow_steps r)).

Lemma decision_target step matched target :
  unambiguous config -> step ∈ wc_flow config -> decision config step matched target ->
  target ∈ normal_successors step \/ failure_handler config step = Some target.
Proof.
  intros Hamb Hin Hd. rewrite elem_normal_successors.
  destruct Hd as [b target Hb Hd|b c target Hb _ _ Ht|b e l target Hb _ _ Ht|wait target Hw Ht|target Ht|target Ht];
    [left|left|left|left|left|by right].
  - right; left. exists b. split; [done|]. unfold branch_target.
    destruct (Hamb step b Hin Hb) as [Hb'|Hb']; [congruence|]. by rewrite Hb'.
  - right; left. exists b. split; [done|]. unfold branch_target. by rewrite Ht.
  - right; left. exists b. split; [done|]. unfold branch_target. by rewrite Ht.
  - right; right; left. by exists wait.
  - by right; right; right.
Qed.

(** The last branch of a step that has branches is a default. *)
Lemma branches_default step :
  is_ok (validate_step_branches step) = true -> has_branches step = true ->
  ~ Forall (fun b => br_default b = None) (branches step).
Proof.
  unfold validate_step_branches. intros Hv Hb. rewrite Hb in Hv. apply reject_then in Hv as [Hv _].
  intros Hall. apply bool_decide_eq_false in Hv. apply Hv. revert Hall. generalize (branches step) 0%nat. clear.
  intros l. induction l as [|b l IH]; intros i Hall; [done|]. apply Forall_cons in Hall as [Hb Hl]. cbn. rewrite Hb. by apply IH.
Qed.

Lemma decided_next step next l :
  flow_step_valid step = true -> is_ok (validate_step_branches step) = true -> st_terminal step = false ->
  decided config step next l -> is_Some next.
Proof.
  intros Hv Hbr Hterm Hd. pose proof (running_step_valid step Hv Hterm) as Hr. unfold decided in Hd.
  destruct l as [|t [|? ?]]; [|destruct Hd as (_ & -> & _); by eexists|done].
  destruct Hd as [[-> Hb]|(-> & Hb & Hall)]; [|by destruct (branches_default step Hbr Hb)].
  destruct (st_then step) as [n|] eqn:Ht; [by eexists|]. exfalso.
  destruct Hb as [Hb|Hc]; [|apply (rn_condition step Hr) in Hc; by rewrite Ht in Hc].
  destruct (rn_successor step Hr) as [Hs|Hs]; [by rewrite Ht in Hs|congruence].
Qed.

Hypothesis Hamb : unambiguous config.
Hypothesis Hworkflow : workflow_valid config = true.
Hypothesis Hclosed : closed_flow.

Lemma workflow_steps s : s ∈ wc_flow config -> flow_step_valid s = true /\ is_ok (validate_step_branches s) = true.
Proof.
  unfold workflow_valid in Hworkflow. rewrite !andb_true_iff, forallb_forall in Hworkflow.
  destruct Hworkflow as [[[_ Hsteps] _] Hw]. intros Hs. split; [by apply Hsteps, list_elem_of_In|].
  unfold validate_workflow in Hw. apply is_ok_bind in Hw as [_ Hw]. apply is_ok_bind in Hw as [_ Hw].
  apply is_ok_bind in Hw as [Hw _]. destruct (traverse validate_step_branches (wc_flow config)) as [ys|] eqn:Ht; [|done].
  apply traverse_Ok in Ht. apply list_elem_of_lookup in Hs as [i Hi].
  destruct (Forall2_lookup_l _ _ _ _ _ Ht Hi) as (y & _ & ->). done.
Qed.

(** A turn that goes on leads to a step. *)
Lemma turn_continues name seq loop (m : machine W) next q m' :
  run_turn r name seq loop m = (Ok (Continue next q), m') ->
  exists n, next = Some n /\ n ∈ dict_keys (flow_steps r).
Proof.
  intros Ht. apply run_turn_audited in Ht as (step & _ & Hin & _ & Ht); [|intros s Hs; by apply workflow_steps].
  destruct (st_terminal step) eqn:Hterm; [by destruct Ht|].
  destruct Ht as (next' & entry & l & [= <- _] & _ & _ & _ & _ & Hd).
  destruct (workflow_steps step Hin) as [Hv Hbr]. destruct (decided_next step next l Hv Hbr Hterm Hd) as [n ->].
  exists n. split; [done|]. destruct (Hclosed step Hin) as [Hn Hh]. unfold decided in Hd. destruct l as [|t [|? ?]].
  - destruct Hd as [[Ht _]|[? _]]; [|done]. apply Hn, elem_normal_successors. by left.
  - destruct Hd as (_ & [= ->] & Hd). apply decision_target in Hd as [Hd|Hd]; [by apply Hn|by apply Hh|done|done].
  - done.
Qed.
End flow.

Section properties.
Context {W : Type} `{StepExecutor W} `{DateTime} `{FloatRepr} `{PyParser}.
Variable r : FlowRunner.
Abbreviation config := (fr_config r).

(** C9: The audit of a turn.  A turn of a valid workflow either ends the run, at a
    terminal step with the reason of that step and no record, or goes on: it then
    records exactly one entry, under the name of its step, with the number of the turn;
    takes the next number; and appends at most one transition, from this step to the next
    one, which names the branch, the condition, the evaluator, the timeout, the exhausted
    loop or the failure that chose it.  Without a transition the next step is [then]. *)
Theorem turn_audited (name : string) (seq : Z) (loop : option LoopCheckpoint) (m m' : machine W) (t : turn)
    (Hvalid : forall s, s ∈ wc_flow config -> flow_step_valid s = true)
    (Hturn : run_turn r name seq loop m = (Ok t, m')) :
  exists step, dict_get name (flow_steps r) = Some step /\ st_name step = name /\
    if st_terminal step then
      t = Finished (st_reason step) /\ rs_step_timings (m_state m') = rs_step_timings (m_state m) /\
      rs_transitions (m_state m') = rs_transitions (m_state m)
    else audited config step seq (m_state m) (m_state m') t.
Proof.
  destruct (run_turn_audited r name seq loop m t m' Hvalid Hturn) as (step & Hget & _ & Hname & Ht).
  exists step. split; [done|]. split; [done|]. destruct (st_terminal step); [|done].
  destruct Ht as [-> ->]. split; [done|]. apply enter_step_audit.
Qed.

Lemma run_flow_reaches first m0 fuel name seq loop (m : machine W) x m' :
  unambiguous config -> workflow_valid config = true -> closed_flow r -> name ∈ dict_keys (flow_steps r) ->
  reaches r first m0 name seq loop m -> run_flow r fuel (Some name) seq loop m = Some (x, m') ->
  exists last q l m1 step, reaches r first m0 last q l m1 /\ dict_get last (flow_steps r) = Some step /\
    match x with
    | Ok reason => st_terminal step = true /\ reason = st_reason step
    | Raise e => run_turn r last q l m1 = (Raise e, m')
    end.
Proof.
  intros Hamb Hw Hclosed. revert name seq loop m; induction fuel as [|fuel IH]; intros name seq loop m Hn Hr; [done|].
  cbn [run_flow]. destruct (run_turn r name seq loop m) as [[[reason|next seq']|e] m1] eqn:Ht.
  - intros [= <- <-]. apply run_turn_audited in Ht as (step & Hget & _ & _ & Ht);
      [|intros s Hs; by apply (workflow_steps r Hw)].
    exists name, seq, loop, m, step. split; [done|]. split; [done|].
    destruct (st_terminal step) eqn:Hterm; [|by destruct Ht as (? & ? & ? & ? & _)]. by destruct Ht as [[= ->] _].
  - destruct (turn_continues r Hamb Hw Hclosed _ _ _ _ _ _ _ Ht) as (n & -> & Hk). intros Hf.
    eapply IH; [exact Hk| |exact Hf]. by eapply reach_turn.
  - intros [= <- <-]. apply dict_get_Some_keys in Hn as [step Hget]. by exists name, seq, loop, m, step.
Qed.

(** C8: The flow never runs out of control.  In a workflow that passes its validators and
    whose targets are steps, the flow loop ends at a terminal step that the turns reach,
    with the reason of that step, or with what a turn of a reached step raised: it never
    ends for want of a next step, and no turn begins with a name that is no step. *)
Theorem flow_ends_at_terminal (first : FlowStep) (rest : list FlowStep) (fuel : nat) (m0 m' : machine W)
    (x : res (option string))
    (Hflow : wc_flow config = first :: rest) (Hamb : unambiguous config) (Hvalid : workflow_valid config = true)
    (Hclosed : closed_flow r) (Hrun : run_flow r fuel (Some (st_name first)) 0 None m0 = Some (x, m')) :
  exists last seq loop m1 step,
    reaches r (st_name first) m0 last seq loop m1 /\ dict_get last (flow_steps r) = Some step /\
    match x with
    | Ok reason => st_terminal step = true /\ reason = st_reason step
    | Raise e => run_turn r last seq loop m1 = (Raise e, m')
    end.
Proof.
  eapply run_flow_reaches; [done|done|done| |apply reach_first|exact Hrun].
  apply elem_steps_dict. exists first. rewrite Hflow. split; [by left|done].
Qed.
End properties.

(** ** Samples *)

Lemma turn_audited_witness :
  let r := sample_runner sample_workflow in
  exists entry, rs_step_timings (m_state sample_fetched) =
      dict_set "fetch" (StepAuditEntry_dump entry) (rs_step_timings (m_state sample_started)) /\
    se_seq entry = 0%Z /\ rs_transitions (m_state sample_fetched) = [].
Proof.
  destruct (turn_audited (sample_runner sample_workflow) "fetch" 0 None sample_started sample_fetched
    (Continue (Some "store") 1)) as (step & Hget & _ & Ht).
  - intros s Hs. by apply sample_workflow_valid.
  - vm_compute. reflexivity.
  - assert (st_terminal step = false) as Hterm by (vm_compute in Hget; by injection Hget as <-).
    rewrite Hterm in Ht. destruct Ht as (next & entry & l & _ & Hseq & _ & Htim & _).
    exists entry. assert (st_name step = "fetch") as Hname by (vm_compute in Hget; by injection Hget as <-).
    rewrite Hname in Htim. split; [exact Htim|]. split; [exact Hseq|]. vm_compute. reflexivity.
Defined.

Lemma sample_closed : closed_flow (sample_runner sample_workflow).
Proof.
  assert (forall s, s ∈ sample_flow ->
    forallb (fun n => dict_mem n (steps_dict sample_workflow))
      (normal_successors s ++ opt_list (failure_handler sample_workflow s)) = true) as Hall.
  { intros s Hs. repeat (apply elem_of_cons in Hs as [->|Hs]; [vm_compute; reflexivity|]). by apply not_elem_of_nil in Hs. }
  intros s Hs. specialize (Hall s Hs). rewrite forallb_forall in Hall.
  split; intros n Hn; apply dict_get_Some_keys, dict_mem_true, Hall, list_elem_of_In, elem_of_app; [by left|].
  right. by apply elem_opt_list.
Qed.

Lemma flow_ends_at_terminal_witness :
  let r := sample_runner sample_workflow in
  exists last seq loop m1 step, reaches r "fetch" sample_started last seq loop m1 /\
    dict_get last (flow_steps r) = Some step /\ st_terminal step = true /\ None = st_reason step.
Proof.
  intros r.
  apply (flow_ends_at_terminal r (op_step "fetch" "get" InputNone "store" None) (tail sample_flow) 5 sample_started
    (default sample_started (snd <$> run_flow r 5 (Some "fetch") 0 None sample_started)) (Ok None)).
  - reflexivity.
  - apply sample_workflow_valid.
  - vm_compute. reflexivity.
  - exact sample_closed.
  - vm_compute. reflexivity.
Defined.
