(* ===== verification/Until.v ===== *)
(** Until loops: what [_run_until] returns is the first answer that satisfies the
    condition, or the last of the answers that the bound allows. *)

From S2P Require Export RunnerFacts Samples Iteration.

Section until.
Context {W : Type} `{StepExecutor W} `{DateTime} `{FloatRepr} `{PyParser}.
Variables (r : FlowRunner) (step : FlowStep) (until : string) (sd : StepDefinition) (input : json).
Variables (globals outs params : list (string * json)) (seq : Z) (t : spec_float).

(** The answer of one attempt, of the given number. *)
Definition attempt_answer (number : nat) (answer : json) : Prop :=
  exists (m m' : machine W) out,
    invoke r sd (st_name step +:+ "#" +:+ nat_to_string number) input globals params m = (Ok out, m') /\
    sr_data out = answer.

(** The answers of the attempts after the first [completed] ones. *)
Definition attempt_answers (completed : nat) (answers : list json) : Prop :=
  forall i x, answers !! i = Some x -> attempt_answer (S (completed + i)) x.

Definition unsatisfied (x : json) : Prop := evaluate_condition until x outs params = Ok false.

(** The outcome of a loop: the answers, in order, that it went through. *)
Definition until_outcome (remaining completed : nat) (last : json) (out : json * nat * bool) : Prop :=
  let '(result, attempts, satisfied) := out in
  exists answers, attempt_answers completed answers /\ attempts = (completed + length answers)%nat /\
    if satisfied then
      exists before, answers = before ++ [result] /\ (length answers <= remaining)%nat /\
        Forall unsatisfied before /\ evaluate_condition until result outs params = Ok true
    else
      length answers = remaining /\ Forall unsatisfied answers /\ result = List.last answers last.

Lemma attempt_answers_cons completed x answers :
  attempt_answer (S completed) x -> attempt_answers (S completed) answers -> attempt_answers completed (x :: answers).
Proof.
  intros Hx Ha [|i] y; cbn.
  - intros [= <-]. by rewrite Nat.add_0_r.
  - intros Hy. specialize (Ha i y Hy). by rewrite Nat.add_succ_r.
Qed.

Lemma last_cons {A} (x d : A) l : List.last (x :: l) d = List.last l x.
Proof. revert x; induction l as [|y l IH]; [done|]. intros x. cbn. destruct l; [done|]. apply IH. Qed.

Lemma until_attempts_outcome remaining completed last m out m' :
  until_attempts (W := W) r remaining completed step until sd input globals outs params seq t last m = (Ok out, m') ->
  until_outcome remaining completed last out.
Proof.
  revert completed last m; induction remaining as [|n IH]; intros completed last m; cbn [until_attempts].
  - intros [= <- <-]. exists []. cbn. split; [by intros i x|]. split; [lia|]. split; [done|]. split; [constructor|done].
  - intros Hrun. apply bindM_Ok in Hrun as (x & m1 & Hx & Hrun). apply fmapM_Ok in Hx as (res & Hx & ->).
    apply bindM_Ok in Hrun as (satisfied & m2 & Hc & Hrun). apply liftM_Ok in Hc as [Hc ->].
    assert (attempt_answer (S completed) (sr_data res)) as Hans by (by exists m, m1, res).
    unfold resolution_error in Hc. apply catch_Ok in Hc as [Hc|(e & _ & Hc)]; [|by destruct (is_condition_error e)].
    destruct satisfied.
    + injection Hrun as <- <-. exists [sr_data res]. split; [by apply attempt_answers_cons|]. split; [cbn; lia|].
      exists []. cbn. split; [done|]. split; [lia|]. by split.
    + apply bindM_Ok in Hrun as (u & m3 & _ & Hrun). apply bindM_Ok in Hrun as (u' & m4 & _ & Hrun).
      apply IH in Hrun. destruct out as [[result attempts] satisfied].
      destruct Hrun as (answers & Ha & -> & Hout). exists (sr_data res :: answers).
      split; [by apply attempt_answers_cons|]. split; [cbn; lia|]. destruct satisfied.
      * destruct Hout as (before & -> & Hlen & Hb & Ht). exists (sr_data res :: before). cbn in *.
        split; [done|]. split; [lia|]. split; [by constructor|done].
      * destruct Hout as (Hlen & Hall & ->). cbn [length]. rewrite last_cons. split; [lia|]. split; [by constructor|done].
Qed.
End until.

(** ** Properties *)

(** C11: An until loop returns the first answer that satisfies its condition.  Where the
    loop returns satisfied, the result is the answer of its last attempt, the condition
    holds of it and of none of the answers before, and no more than [max_iterations]
    attempts were made, those of earlier histories included.  Where it returns
    unsatisfied, it made exactly [max_iterations] attempts, the condition held of none,
    and the result is the last answer. *)
Theorem until_first_satisfied {W : Type} `{StepExecutor W} `{DateTime} `{FloatRepr} `{PyParser} (r : FlowRunner)
    (step : FlowStep) (sd : StepDefinition) (input : json) (globals outs params : list (string * json))
    (seq : Z) (t : spec_float) (c : option UntilCheckpoint) (m m' : machine W)
    (result : json) (attempts : nat) (satisfied : bool)
    (Hrun : run_until r step sd input globals outs params seq t c m = (Ok (result, attempts, satisfied), m')) :
  exists until max answers,
    let completed := match c with Some c => uc_attempts_completed c | None => 0%nat end in
    let last := match c with Some c => uc_last_result c | None => JNull end in
    st_until step = Some until /\ st_max_iterations step = Some max /\ (max <= loop_attempts (fr_limits r))%Z /\
    attempt_answers r step sd input globals params completed answers /\
    attempts = (completed + length answers)%nat /\ (attempts <= Z.to_nat max)%nat /\
    if satisfied then
      exists before, answers = before ++ [result] /\ Forall (unsatisfied until outs params) before /\
        evaluate_condition until result outs params = Ok true
    else
      attempts = Z.to_nat max /\ Forall (unsatisfied until outs params) answers /\ result = List.last answers last.
Proof.
  unfold run_until in Hrun. apply bindM_Ok in Hrun as (u & m1 & _ & Hrun).
  destruct (st_until step) as [until|]; [|by inv_M]. destruct (st_max_iterations step) as [max|]; [|by inv_M].
  apply bindM_Ok in Hrun as (u' & m2 & Hmax & Hrun). apply liftM_Ok in Hmax as [Hmax ->].
  unfold enforce_limit in Hmax. destruct (_ <? max)%Z eqn:Hlt in Hmax; [done|]. apply Z.ltb_ge in Hlt.
  set (completed := match c with Some c => uc_attempts_completed c | None => 0%nat end) in *.
  set (last := match c with Some c => uc_last_result c | None => JNull end) in *.
  destruct (max <? Z.of_nat completed)%Z eqn:Hcompleted; [by inv_M|]. apply Z.ltb_ge in Hcompleted.
  apply until_attempts_outcome in Hrun as (answers & Ha & -> & Hout). exists until, max, answers. cbv zeta.
  split; [done|]. split; [done|]. split; [done|]. split; [done|]. split; [done|]. destruct satisfied.
  - destruct Hout as (before & -> & Hlen & Hb & Ht). split; [lia|]. by exists before.
  - destruct Hout as (Hlen & Hall & ->). split; [lia|]. split; [lia|done].
Qed.

(** ** Samples *)

Definition until_step : FlowStep := {|
  st_name := "poll"; st_op := Some "get"; st_input := InputNone; st_output := None; st_params := [];
  st_then := Some "done"; st_on_result := None; st_condition := None; st_for_each := None;
  st_as_var := None; st_parallel := false; st_max_concurrency := None; st_on_iteration_fail := None;
  st_wait_for := None; st_sleep_sec := None; st_until := Some "input.n < 3"; st_max_iterations := Some 5%Z;
  st_interval_sec := Some 1%Z; st_on_exhausted := Some "done"; st_on_failure := None; st_terminal := false;
  st_reason := None |}.

Definition number_answer (n : Z) : res raw := Ok (RDict [(RStr "n", RInt n)]).

Definition until_runner : FlowRunner :=
  sample_runner (plain_workflow "poll" [("get", plain_operation "svc" "get")] [until_step; terminal_step "done" None]).

Definition until_machine (answers : list Z) : machine script :=
  restore_state until_runner "req" None (script_of (map number_answer answers)).

Definition sample_until (answers : list Z) :=
  run_until until_runner until_step (plain_operation "svc" "get") JNull [] [] [] 0 (S754_zero false) None
    (until_machine answers).

Lemma until_first_satisfied_witness :
  exists answers, (3 = 0 + length answers)%nat /\
    exists before, answers = before ++ [JDict [("n", JInt 2)]] /\
      Forall (unsatisfied "input.n < 3" [] []) before /\
      evaluate_condition "input.n < 3" (JDict [("n", JInt 2)]) [] [] = Ok true.
Proof.
  destruct (until_first_satisfied until_runner until_step (plain_operation "svc" "get") JNull [] [] [] 0
    (S754_zero false) None (until_machine [7; 5; 2; 9]%Z) (sample_until [7; 5; 2; 9]%Z).2 (JDict [("n", JInt 2)]) 3 true)
    as (until & max & answers & [= <-] & _ & _ & _ & Hlen & _ & Hout).
  - vm_compute. reflexivity.
  - by exists answers.
Defined.
