(* ===== verification/Metering.v ===== *)
(** The bound on invocations: however steps loop, iterate in parallel, fail and recover,
    the executor is not called for steps more often than [total_invocations] allows.  The
    executor is compared with one that counts its calls. *)

From S2P Require Export Iteration.

(** The executor that counts the calls of services and child workflows. *)
Definition metered {W} (E : StepExecutor W) : StepExecutor (W * Z) := {|
  run_step := fun iv sv w => let (x, w') := run_step iv sv w.1 in (x, (w', w.2 + 1)%Z);
  run_evaluator := fun e d l n w => let (x, w') := run_evaluator e d l n w.1 in (x, (w', w.2));
  wait_for_event := fun s t w => let (x, w') := wait_for_event s t w.1 in (x, (w', w.2));
  sleep := fun z w => let (x, w') := sleep z w.1 in (x, (w', w.2));
  validate_contract := fun s d a b w => let (x, w') := validate_contract s d a b w.1 in (x, (w', w.2));
  run_subworkflow := fun f n g w => let (x, w') := run_subworkflow f n g w.1 in (x, (w', w.2 + 1)%Z);
  archive := fun a p b c d w => let (x, w') := archive a p b c d w.1 in (x, (w', w.2));
  observe_history := fun w => observe_history w.1;
  now := fun w => now w.1;
  next_completion := fun n w => let (k, w') := next_completion n w.1 in (k, (w', w.2));
  cancel_calls := fun n w => (cancel_calls n w.1, w.2);
|}.

Definition calls {W} (m : machine (W * Z)) : Z := (m_world m).2.

(** ** Triples: the calls made and those begun stay within the bound *)

Section spends.
Context {W : Type}.
Variable limit : Z.

(** With [pending] invocations counted whose call is still to be made. *)
Definition budget (pending : nat) (m : machine (W * Z)) : Prop :=
  (calls m + Z.of_nat pending <= m_invocations m)%Z /\ (calls m + Z.of_nat pending <= Z.max 0 limit)%Z.

(** From [p] pending invocations to [q] where the computation returns, and to [pe] where
    it raises. *)
Definition spends {A} (p : nat) (q : A -> nat) (pe : nat) (c : M (W * Z) A) : Prop :=
  forall m, budget p m -> match c m with (Ok a, m') => budget (q a) m' | (Raise _, m') => budget pe m' end.

Abbreviation steady c := (spends 0 (fun _ => 0%nat) 0 c).

Lemma budget_le p q m : (q <= p)%nat -> budget p m -> budget q m.
Proof. intros Hle [H1 H2]. split; lia. Qed.

Lemma spends_weaken {A} p p' (q q' : A -> nat) pe pe' (c : M (W * Z) A) :
  spends p q pe c -> (p <= p')%nat -> (forall a, (q' a <= q a)%nat) -> (pe' <= pe)%nat -> spends p' q' pe' c.
Proof.
  intros Hc Hp Hq Hpe m Hm. specialize (Hc m (budget_le _ _ _ Hp Hm)). destruct (c m) as [[a|e] m1];
    (eapply budget_le; [|exact Hc]); auto.
Qed.

Lemma spends_bind {A B} p (q : A -> nat) (q' : B -> nat) pe (c : M (W * Z) A) (f : A -> M (W * Z) B) :
  spends p q pe c -> (forall a, spends (q a) q' pe (f a)) -> spends p q' pe (c ≫= f).
Proof.
  intros Hc Hf m Hm. unfold mbind, M_bind. specialize (Hc m Hm). destruct (c m) as [[a|e] m1]; [by apply Hf|done].
Qed.

Lemma spends_fmap {A B} p (q : B -> nat) pe (g : A -> B) (c : M (W * Z) A) :
  spends p (fun a => q (g a)) pe c -> spends p q pe (g <$> c).
Proof. intros Hc m Hm. unfold fmap, M_fmap. specialize (Hc m Hm). by destruct (c m) as [[a|e] m1]. Qed.

Lemma spends_attempt {A} p (q : A -> nat) pe pe' (c : M (W * Z) A) (h : exn -> M (W * Z) A) :
  spends p q pe c -> (forall e, spends pe q pe' (h e)) -> spends p q pe' (attempt c h).
Proof.
  intros Hc Hh m Hm. unfold attempt. specialize (Hc m Hm). destruct (c m) as [[a|e] m1]; [done|by apply Hh].
Qed.

Lemma spends_ret {A} p (q : A -> nat) pe (a : A) : (q a <= p)%nat -> spends p q pe (mret a).
Proof. intros Hq m Hm. by apply (budget_le p). Qed.

Lemma spends_lift {A} p (q : A -> nat) pe (x : res A) :
  (forall a, (q a <= p)%nat) -> (pe <= p)%nat -> spends p q pe (lift x).
Proof. intros Hq Hpe m Hm. unfold lift. destruct x; (eapply budget_le; [|exact Hm]); auto. Qed.

Lemma spends_fail {A} p (q : A -> nat) pe e : (pe <= p)%nat -> spends p q pe (fail e).
Proof. intros Hpe m Hm. by apply (budget_le p). Qed.

Lemma spends_external {A} p pe (f : W * Z -> res A * (W * Z)) :
  (pe <= p)%nat -> (forall w, (f w).2.2 = w.2) -> spends p (fun _ => p) pe (external f).
Proof.
  intros Hpe Hf m Hm. unfold external. specialize (Hf (m_world m)). destruct (f (m_world m)) as [x w]. cbn in Hf.
  assert (budget p (Machine (m_state m) (m_invocations m) w)) as Hb
    by (unfold budget, calls in *; cbn [m_world m_invocations]; rewrite Hf; exact Hm).
  destruct x; [done|by apply (budget_le p)].
Qed.

Lemma spends_reads {A} p pe (f : RunState -> A) : spends p (fun _ => p) pe (reads f).
Proof. by intros m. Qed.

Lemma spends_observe {A} p pe (f : W * Z -> A) : spends p (fun _ => p) pe (observe f).
Proof. by intros m. Qed.

Lemma spends_writes p pe f : spends p (fun _ => p) pe (writes f).
Proof. by intros m. Qed.

Lemma steady_when b (c : M (W * Z) unit) : steady c -> steady (when b c).
Proof. intros Hc. destruct b; [done|]. by apply spends_ret. Qed.

(** A call of the executor, for which one invocation was counted. *)
Lemma spends_call {A} p (f : W * Z -> res A * (W * Z)) :
  (forall w, (f w).2.2 = (w.2 + 1)%Z) -> spends (S p) (fun _ => p) p (external f).
Proof.
  intros Hf m [H1 H2]. unfold external. specialize (Hf (m_world m)). destruct (f (m_world m)) as [x w]. cbn in Hf.
  assert (budget p (Machine (m_state m) (m_invocations m) w)) as Hb.
  { unfold budget, calls in *. cbn [m_world m_invocations]. rewrite Hf. split; lia. }
  by destruct x.
Qed.
End spends.

Create HintDb spends.

Ltac solve_spends :=
  repeat (intros; match goal with
  | |- spends _ ?p _ _ (_ ≫= _) => eapply (spends_bind _ p (fun _ => p))
  | |- spends _ _ _ _ (_ <$> _) => apply spends_fmap
  | |- spends _ ?p _ _ (attempt _ _) => eapply (spends_attempt _ p _ p)
  | |- spends _ _ _ _ (when _ _) => apply steady_when
  | |- spends _ _ _ _ (mret _) => apply spends_ret; lia
  | |- spends _ _ _ _ (fail _) => apply spends_fail; lia
  | |- spends _ _ _ _ (lift _) => apply spends_lift; [intros; lia|lia]
  | |- spends _ _ _ _ (reads _) => apply spends_reads
  | |- spends _ _ _ _ (writes _) => apply spends_writes
  | |- spends _ _ _ _ (observe _) => apply spends_observe
  | |- spends _ _ _ _ (external _) => apply spends_external; [lia|]; intros [? ?]; cbn; by repeat case_match
  | |- spends _ _ _ _ (match ?x with _ => _ end) => destruct x
  | |- _ => solve [auto with spends]
  end); intros.

Section runner.
Context {W : Type} (E : StepExecutor W) `{DateTime} `{FloatRepr} `{PyParser}.
Variable r : FlowRunner.

Abbreviation limit := (total_invocations (fr_limits r)).
Abbreviation F := (metered E).
Abbreviation steady c := (spends (W := W) limit 0 (fun _ => 0%nat) 0 c).

Lemma spends_count p : spends (W := W) limit p (fun _ => S p) p (count_invocation r).
Proof.
  intros m [H1' H2']. unfold count_invocation, enforce_limit.
  destruct (limit <? m_invocations m + 1)%Z eqn:Hlt; unfold budget, calls in *; cbn; [split; lia|].
  apply Z.ltb_ge in Hlt. split; lia.
Qed.

Lemma spends_begin_invoke p sd name input globals params :
  spends (W := W) limit p (fun _ => S p) p (begin_invoke r sd name input globals params).
Proof.
  unfold begin_invoke. eapply spends_bind; [apply spends_count|]. intros u.
  apply (spends_weaken _ (S p) _ (fun _ => S p) _ (S p)); [|lia|intros; lia|lia].
  solve_spends.
Qed.

Lemma spends_end_invoke p call : spends (W := W) limit (S p) (fun _ => p) p (end_invoke (E := F) r call).
Proof.
  unfold end_invoke. destruct call as [workflow name gl|iv sv];
    (eapply spends_bind; [apply spends_call; intros [? ?]; cbn; by case_match|]); solve_spends.
Qed.

Lemma steady_invoke sd name input globals params : steady (invoke (E := F) r sd name input globals params).
Proof.
  unfold invoke. eapply spends_bind; [apply spends_begin_invoke|]. intros call. apply spends_end_invoke.
Qed.

Lemma steady_checkpoint_at name seq loop : steady (checkpoint_at (E := F) r name seq loop).
Proof.
  assert (forall c, steady (enforce_checkpoint (E := F) r c)) as Hc by (intros; unfold enforce_checkpoint; solve_spends).
  intros m Hm. apply (Hc _ m Hm).
Qed.
Hint Resolve steady_invoke steady_checkpoint_at : spends.

Lemma steady_during_loop name seq loop : steady (checkpoint_during_loop (E := F) r name seq loop).
Proof. unfold checkpoint_during_loop. solve_spends. Qed.

Lemma steady_continue_at next seq : steady (continue_at (E := F) r next seq).
Proof. unfold continue_at, checkpoint_after_step. solve_spends. Qed.
Hint Resolve steady_during_loop steady_continue_at : spends.

Lemma steady_until_attempts n k step until sd input globals outs params seq t last :
  steady (until_attempts (E := F) r n k step until sd input globals outs params seq t last).
Proof. revert k last; induction n as [|n IH]; intros k last; cbn [until_attempts]; solve_spends. Qed.
Hint Resolve steady_until_attempts : spends.

Lemma steady_run_until step sd input globals outs params seq t c :
  steady (run_until (E := F) r step sd input globals outs params seq t c).
Proof. unfold run_until. solve_spends. Qed.

Lemma steady_run_wait step outs params : steady (run_wait (E := F) r step outs params).
Proof. unfold run_wait. solve_spends. Qed.

Lemma steady_match_branches step result outs params l :
  steady (match_branches (E := F) step result outs params l).
Proof. induction l as [|b l IH]; cbn [match_branches]; solve_spends. Qed.
Hint Resolve steady_match_branches : spends.

Lemma steady_next_step step result outs params : steady (next_step (E := F) step result outs params).
Proof. unfold next_step. solve_spends. Qed.
Hint Resolve steady_run_until steady_run_wait steady_next_step : spends.

(** *** Iteration *)

Lemma spends_begin_item p step sd input globals params entry :
  spends (W := W) limit p (fun _ => S p) p (begin_item r step sd input globals params entry).
Proof. destruct entry. apply spends_begin_invoke. Qed.

Lemma steady_run_item step sd input globals params strategy entry :
  steady (run_item (E := F) r step sd input globals params strategy entry).
Proof.
  unfold run_item, guard_item. eapply (spends_attempt _ 0 _ 0); [|solve_spends].
  eapply (spends_bind _ 0 (fun _ => 0%nat)); [|solve_spends].
  eapply spends_bind; [apply spends_begin_item|]. intros call. apply spends_fmap, spends_end_invoke.
Qed.

(** The tasks whose call runs are the pending invocations. *)
Lemma spends_start_tasks p step sd input globals params permits waiting :
  spends (W := W) limit p (fun q => p + length (pl_running q))%nat p
    (start_tasks r step sd input globals params permits waiting).
Proof.
  revert p permits; induction waiting as [|[i entry] waiting IH]; intros p [|permits]; cbn [start_tasks];
    try (apply spends_ret; cbn; lia).
  eapply (spends_bind _ p (fun s => match s with inl _ => S p | inr _ => p end)).
  { eapply (spends_attempt _ p _ p); [apply spends_fmap, spends_begin_item|]. intros e. apply spends_ret. lia. }
  intros [call|e].
  - eapply (spends_weaken _ (S p) _ (fun q => p + length (pl_running q))%nat _ p); [|lia|intros; cbn; lia|lia].
    eapply spends_bind; [eapply (spends_weaken _ (S p) (S p) _ _ (S p) p); [apply IH|lia|intros; reflexivity|lia]|].
    intros q. apply spends_ret. cbn. lia.
  - eapply spends_bind; [apply IH|]. intros q. apply spends_ret. cbn. lia.
Qed.

Lemma pick_running_length choice running i key call rest :
  pick_running choice running = Some (i, key, call, rest) -> length running = S (length rest).
Proof.
  unfold pick_running. destruct (running !! _) as [c|] eqn:Hc; [|done]. cbn. intros [= _ <-].
  apply lookup_lt_Some in Hc. rewrite length_app, length_take, length_drop. lia.
Qed.

Lemma spends_run_pool fuel step sd input globals params strategy p :
  spends (W := W) limit (length (pl_running p)) (fun _ => 0%nat) 0
    (run_pool (E := F) r fuel step sd input globals params strategy p).
Proof.
  revert p; induction fuel as [|fuel IH]; intros p; cbn [run_pool]; (destruct (escaping strategy (pl_done p)) as [e|];
    [eapply spends_bind; [apply spends_external; [lia|by intros [? ?]]|]; intros u; apply spends_fail; lia|]).
  - apply spends_ret. lia.
  - eapply spends_bind; [apply spends_external; [lia|intros [? ?]; cbn; by destruct (next_completion _ _)]|]. intros choice.
    destruct (pick_running choice (pl_running p)) as [[[[i key] call] rest]|] eqn:Hp; [|apply spends_ret; lia].
    apply pick_running_length in Hp. rewrite Hp.
    eapply (spends_bind _ _ (fun _ => length rest)).
    { eapply (spends_attempt _ _ _ (length rest)); [|intros e; apply spends_ret; lia].
      eapply spends_bind; [apply spends_end_invoke|]. intros v. apply spends_ret. lia. }
    intros outcome. eapply spends_bind; [eapply (spends_weaken _ _ _ _ _ (length rest) 0);
      [apply spends_start_tasks|lia|intros; reflexivity|lia]|]. intros started.
    eapply spends_weaken; [apply IH|cbn; rewrite length_app; lia|intros; reflexivity|lia].
Qed.

Lemma steady_run_chunk step sd input globals params strategy permits entries :
  steady (run_chunk (E := F) r step sd input globals params strategy permits entries).
Proof.
  unfold run_chunk. eapply spends_bind; [apply spends_start_tasks|]. intros p. cbn [Nat.add].
  eapply spends_bind; [apply spends_run_pool|]. intros l. apply spends_ret. lia.
Qed.
Hint Resolve steady_run_item steady_run_chunk : spends.

Lemma steady_record_progress step strategy seq t offset outcomes progress :
  steady (record_progress (E := F) r step strategy seq t offset outcomes progress).
Proof. unfold record_progress, append_iteration_results. solve_spends. Qed.
Hint Resolve steady_record_progress : spends.

Lemma steady_iterate_sequential step sd input globals params strategy seq t offset entries progress :
  steady (iterate_sequential (E := F) r step sd input globals params strategy seq t offset entries progress).
Proof.
  revert offset progress; induction entries as [|e l IH]; intros offset progress; cbn [iterate_sequential]; solve_spends.
Qed.

Lemma steady_iterate_parallel fuel step sd input globals params strategy permits chunk seq t offset entries progress :
  steady (iterate_parallel (E := F) r fuel step sd input globals params strategy permits chunk seq t offset entries progress).
Proof.
  revert offset entries progress; induction fuel as [|fuel IH]; intros offset entries progress; cbn [iterate_parallel];
    solve_spends.
Qed.
Hint Resolve steady_iterate_sequential steady_iterate_parallel : spends.

Lemma steady_run_iteration step reference sd input globals outs params seq t c :
  steady (run_iteration (E := F) r step reference sd input globals outs params seq t c).
Proof. unfold run_iteration. solve_spends. Qed.
Hint Resolve steady_run_iteration : spends.

(** *** Turns *)

Lemma steady_run_operation step sd input globals seq t loop :
  steady (run_operation (E := F) r step sd input globals seq t loop).
Proof. unfold run_operation. solve_spends. Qed.
Hint Resolve steady_run_operation : spends.

Lemma steady_record_entry step entry : steady (record_entry (W := W * Z) step entry).
Proof. unfold record_entry. solve_spends. Qed.

Lemma steady_record_transition t : steady (record_transition (W := W * Z) t).
Proof. unfold record_transition. solve_spends. Qed.

Lemma steady_store step result : steady (store (W := W * Z) step result).
Proof. unfold store. solve_spends. Qed.
Hint Resolve steady_record_entry steady_record_transition steady_store : spends.

Lemma steady_advance step result seq : steady (advance (E := F) r step result seq).
Proof. unfold advance. solve_spends. Qed.
Hint Resolve steady_advance : spends.

Lemma steady_turn_sleep step seq z : steady (turn_sleep (E := F) r step seq z).
Proof. unfold turn_sleep. solve_spends. Qed.

Lemma steady_turn_wait step wait seq : steady (turn_wait (E := F) r step wait seq).
Proof. unfold turn_wait. solve_spends. Qed.

Lemma steady_handle_failure step seq t e : steady (handle_failure (E := F) r step seq t e).
Proof. unfold handle_failure. solve_spends. Qed.

Lemma steady_complete_operation step input globals seq t out :
  steady (complete_operation (E := F) r step input globals seq t out).
Proof. unfold complete_operation. solve_spends. Qed.
Hint Resolve steady_turn_sleep steady_turn_wait steady_handle_failure steady_complete_operation : spends.

Lemma steady_turn_operation step seq loop : steady (turn_operation (E := F) r step seq loop).
Proof. unfold turn_operation. solve_spends. Qed.
Hint Resolve steady_turn_operation : spends.

Lemma steady_run_turn name seq loop : steady (run_turn (E := F) r name seq loop).
Proof. unfold run_turn. solve_spends. Qed.

(** *** Runs *)

Lemma steady_start_run request_id trigger : steady (start_run (E := F) r request_id trigger).
Proof. unfold start_run. solve_spends. Qed.

Lemma steady_resolve_result reason : steady (resolve_result (E := F) r reason).
Proof. unfold resolve_result. solve_spends. Qed.

Lemma steady_archive_record record : steady (archive_record (E := F) r record).
Proof. unfold archive_record. solve_spends. Qed.
Hint Resolve steady_resolve_result steady_archive_record : spends.

Lemma steady_finish_run request_id reason : steady (finish_run (E := F) r request_id reason).
Proof. unfold finish_run, iso_now. solve_spends. Qed.

Lemma steady_execution_error e : steady (execution_error (E := F) r e).
Proof.
  unfold execution_error, iso_now. apply (spends_bind _ 0 (fun _ => 0%nat)); [apply spends_reads|]. intros s.
  destruct (attribute_failure e s) as [[p q] f]. solve_spends.
Qed.

Lemma steady_archive_failure_record on_complete record s :
  steady (archive_failure_record (E := F) on_complete record s).
Proof. unfold archive_failure_record. solve_spends. Qed.
Hint Resolve steady_execution_error steady_archive_failure_record : spends.

Lemma steady_archive_failure e : steady (archive_failure (E := F) r e).
Proof. unfold archive_failure, iso_now. solve_spends. Qed.
Hint Resolve steady_archive_failure : spends.

Lemma steady_report_failure e : steady (report_failure (E := F) r e).
Proof. unfold report_failure. solve_spends. Qed.

Lemma run_flow_budget fuel cur seq loop (m : machine (W * Z)) x m' :
  budget limit 0 m -> run_flow (E := F) r fuel cur seq loop m = Some (x, m') -> budget limit 0 m'.
Proof.
  revert cur seq loop m; induction fuel as [|fuel IH]; intros [name|] seq loop m Hm; cbn [run_flow]; try done;
    try by intros [= _ <-].
  pose proof (steady_run_turn name seq loop m Hm) as Ht.
  destruct (run_turn (E := F) r name seq loop m) as [[[reason|next q]|e] m1]; [by intros [= _ <-]| |by intros [= _ <-]].
  by apply IH.
Qed.

(** A computation that ends a run. *)
Lemma steady_end {A} (c : M (W * Z) A) m x m' : steady c -> budget limit 0 m -> c m = (x, m') -> budget limit 0 m'.
Proof. intros Hc Hm Hx. specialize (Hc m Hm). rewrite Hx in Hc. by destruct x. Qed.

Lemma execute_budget fuel trigger checkpoint (m : machine (W * Z)) x m' :
  budget limit 0 m -> execute (E := F) r fuel trigger checkpoint m = Some (x, m') -> budget limit 0 m'.
Proof.
  intros Hm. unfold execute. destruct (co_request_id _) as [id|]; [|by intros [= _ <-]].
  set (start := match checkpoint with Some _ => (Ok tt, m) | None => _ end).
  assert (budget limit 0 start.2) as Hs.
  { unfold start. destruct checkpoint; [done|]. destruct (start_run (E := F) r id trigger m) as [y m1] eqn:Hy.
    by eapply steady_end; [apply steady_start_run| |exact Hy]. }
  destruct start as [[u|e] m1]; cbn in Hs; [|by intros [= _ <-]].
  destruct (wc_flow (fr_config r)) as [|first rest]; [by intros [= _ <-]|].
  destruct (run_flow _ _ _ _ _ m1) as [[[reason|e] m2]|] eqn:Hf; [|apply run_flow_budget in Hf; [by intros [= _ <-]|done]|done].
  apply run_flow_budget in Hf; [|done]. intros Heq. injection Heq as Heq.
  by eapply steady_end; [apply steady_finish_run| |exact Heq].
Qed.
End runner.

(** ** Properties *)


(** ** Samples *)

Definition one_invocation : RuntimeLimits := {|
  trigger_payload_bytes := 262144; workflow_output_bytes := 1048576; activity_input_bytes := 524288;
  activity_output_bytes := 524288; failure_record_bytes := 32768; audit_record_bytes := 1048576;
  cache_entry_bytes := 524288; fanout_items := 1000; fanout_chunk_items := 20; parallelism := 32;
  loop_attempts := 1000; total_invocations := 1; queued_messages := 1000; signal_payload_bytes := 262144;
  queued_message_bytes := 262144; collection_items := 10000; workflow_state_bytes := 786432;
  continuation_input_bytes := 1572864; history_events := 10000; history_bytes := 10485760 |}.

Definition limited_runner : FlowRunner := {|
  fr_config := sample_workflow; fr_services := fr_services (sample_runner sample_workflow);
  fr_identity := no_identity "sample"; fr_limits := one_invocation; fr_bounded_execution := true;
  fr_timezone_aware := true |}.

