(* ===== verification/Failures.v ===== *)
(** How a run fails: what [FlowRunner.run] raises is an exception that it lets pass, or
    one failure with a bounded record that names the first failure of the run and keeps
    the failures of handlers and of the archive as secondary ones. *)

From S2P Require Export Resume.

Section failures.
Context {W : Type} `{StepExecutor W} `{DateTime} `{FloatRepr} `{PyParser}.
Variable r : FlowRunner.
Abbreviation config := (fr_config r).
Abbreviation record_bytes := (failure_record_bytes (fr_limits r)).

(** The record fits the bound, or its lists are empty. *)
Definition bounded_record (d : FailureDetail) (secondary : list FailureDetail) (identity : CorrelationIdentity)
    (record : FailureRecord) : Prop :=
  fr_error record = FailureMetadata_from_detail d /\
  fr_secondary record = map FailureMetadata_from_detail secondary /\
  (length secondary <= MAX_SECONDARY_FAILURES)%nat /\
  (length (fr_steps record) <= MAX_FAILURE_STEPS)%nat /\
  (length (fr_transitions record) <= MAX_FAILURE_TRANSITIONS)%nat /\
  fr_correlation record = identity /\
  ((record_size record <= record_bytes)%Z \/ fr_steps record = [] /\ fr_transitions record = []).

(** The step that an exception of this state is put down to. *)
Definition failing_step (s : RunState) : option string :=
  if decide (rs_phase s = PHASE_STEP) then rs_current_step_name s else None.

(** The failure that a run in this state reports for an exception. *)
Definition reported (e : exn) (s : RunState) : FailureDetail :=
  default (classify_failure e (rs_phase s) (failing_step s) None) (attribute_failure e s).1.1.

(** An exception that reports the failure [c] of a run that ended in state [s]. *)
Definition reports (identity : CorrelationIdentity) (c : exn) (s : RunState) (e : exn) : Prop :=
  exists record secondary,
    exn_cls e = FlowExecutionError (reported c s) record identity secondary /\
    (attribute_failure c s).1.2 `prefix_of` secondary /\ bounded_record (reported c s) secondary identity record.

Lemma build_record (e : exn) identity phase started failed step entries transitions primary secondary cause :
  let d := default (classify_failure e phase step None) primary in
  exists record, exn_cls (build_execution_error e identity phase AUDIT_VERSION started failed step entries transitions
      primary secondary None record_bytes cause) =
    FlowExecutionError d record identity (take MAX_SECONDARY_FAILURES secondary) /\
  bounded_record d (take MAX_SECONDARY_FAILURES secondary) identity record.
Proof.
  intros d. unfold build_execution_error. eexists. split; [reflexivity|].
  set (record := Build_FailureRecord _ _ _ _ _ _ _ _ _).
  assert (length (fr_steps record) <= MAX_FAILURE_STEPS)%nat as Hsteps
    by (unfold record, failure_steps; cbn [fr_steps]; rewrite length_map; apply last_n_length).
  assert (length (fr_transitions record) <= MAX_FAILURE_TRANSITIONS)%nat as Htrans
    by (unfold record, failure_transitions; cbn [fr_transitions]; rewrite length_map; apply last_n_length).
  assert (length (take MAX_SECONDARY_FAILURES secondary) <= MAX_SECONDARY_FAILURES)%nat as Hsec
    by (rewrite length_take; lia).
  destruct (record_bytes <? record_size record)%Z eqn:Hsize.
  - unfold bounded_record. cbn [clear_record_details fr_error fr_secondary fr_steps fr_transitions fr_correlation length].
    split_and!; try done; try lia. by right.
  - apply Z.ltb_ge in Hsize. split_and!; try done. by left.
Qed.

(** What the report of a failure leaves of the state. *)
Definition same_failure (s s' : RunState) : Prop :=
  rs_correlation s' = rs_correlation s /\ rs_phase s' = rs_phase s /\
  rs_current_step_name s' = rs_current_step_name s /\ rs_active_episode s' = rs_active_episode s.

Lemma attribute_same c s s' : same_failure s s' -> attribute_failure c s' = attribute_failure c s.
Proof. unfold attribute_failure. by intros (_ & -> & -> & ->). Qed.

Lemma reported_same c s s' : same_failure s s' -> reported c s' = reported c s.
Proof.
  intros Hs. unfold reported, failing_step. rewrite (attribute_same c s s' Hs). by destruct Hs as (_ & -> & -> & _).
Qed.

Lemma attribute_secondary c s : (length (attribute_failure c s).1.2 <= 1)%nat.
Proof. unfold attribute_failure. destruct (exn_cls c), (rs_active_episode s); cbn; lia. Qed.

Lemma record_unhandled_same f s : same_failure s (record_unhandled_step f s).
Proof.
  unfold record_unhandled_step. destruct (fd_step f); [|done]. by case_match.
Qed.

Lemma execution_error_reports c (m : machine W) e m1 :
  execution_error r c m = (Ok e, m1) ->
  same_failure (m_state m) (m_state m1) /\ reports (rs_correlation (m_state m)) c (m_state m1) e.
Proof.
  unfold execution_error, iso_now. intros He. apply bindM_Ok in He as (s & m2 & Hs & He). injection Hs as <- <-.
  destruct (attribute_failure c (m_state m)) as [[primary secondary] f] eqn:Hattr. cbv zeta in He. inv_M.
  pose proof (record_unhandled_same f (m_state m)) as Hsame. cbn [m_state] in *. split; [done|].
  set (s' := record_unhandled_step f (m_state m)) in *.
  destruct (build_record c (rs_correlation s') (rs_phase s') (rs_started_at s') (iso (now (m_world m))) (failing_step (m_state m))
    (rs_step_timings s') (rs_transitions s') primary secondary None) as (record & Hcls & Hb).
  assert (rs_correlation s' = rs_correlation (m_state m)) as Hcor by apply Hsame.
  assert (reported c s' = default (classify_failure c (rs_phase s') (failing_step (m_state m)) None) primary) as Hd.
  { rewrite (reported_same _ _ _ Hsame). unfold reported. rewrite Hattr. cbn. destruct Hsame as (_ & -> & _). done. }
  exists record, (take MAX_SECONDARY_FAILURES secondary). rewrite Hd, <- Hcor. split; [exact Hcls|]. split; [|exact Hb].
  rewrite (attribute_same _ _ _ Hsame), Hattr. cbn [fst snd]. rewrite take_ge; [done|].
  pose proof (attribute_secondary c (m_state m)) as Hlen. rewrite Hattr in Hlen. cbn in Hlen. unfold MAX_SECONDARY_FAILURES. lia.
Qed.

Lemma prefix_take_snoc {A} n (l1 l2 : list A) x :
  l1 `prefix_of` l2 -> (length l2 <= n)%nat -> l1 `prefix_of` take n (l2 ++ [x]).
Proof.
  intros [k ->] Hlen. rewrite take_app. rewrite (take_ge (l1 ++ k)) by done. rewrite <- app_assoc. by eexists.
Qed.

Lemma archive_failure_reports identity c e (m : machine W) x m1 :
  rs_correlation (m_state m) = identity -> reports identity c (m_state m) e ->
  archive_failure r e m = (x, m1) ->
  m_state m1 = m_state m /\
  match x with Ok e' => reports identity c (m_state m1) e' | Raise e' => passes_run e' = true end.
Proof.
  intros Hcor He. unfold archive_failure. rewrite bindM_run with (a := m_state m) (m1 := m) by done.
  destruct (wc_on_complete config) as [on_complete|]; [|by intros [= <- <-]].
  pose proof He as (record & secondary & Hcls & Hprefix & Hbound). rewrite Hcls.
  destruct (decide (rs_phase (m_state m) = PHASE_ARCHIVE)); [by intros [= <- <-]|].
  assert (frames (archive_failure_record on_complete record (m_state m))) as Hf
    by (unfold archive_failure_record; solve_frames).
  unfold attempt, mbind at 1, M_bind at 1. specialize (Hf m).
  destruct (archive_failure_record on_complete record (m_state m) m) as [[u|ae] m2]; cbn in Hf.
  { intros [= <- <-]. by rewrite Hf. }
  destruct (is_cancellation ae || negb (is_exception ae)) eqn:Hpass.
  { intros [= <- <-]. split; [done|]. unfold passes_run. by rewrite Hpass. }
  unfold iso_now, observe, mbind, M_bind, mret, M_ret. intros Heq. injection Heq as <- <-. rewrite Hf.
  split; [done|]. set (archived := classify_failure ae PHASE_ARCHIVE None (Some ARCHIVAL_FAILED)).
  destruct (build_record ae (rs_correlation (m_state m)) (fd_phase (reported c (m_state m))) (rs_started_at (m_state m))
    (iso (now (m_world m2))) (fd_step (reported c (m_state m))) (rs_step_timings (m_state m))
    (rs_transitions (m_state m)) (Some (reported c (m_state m))) (secondary ++ [archived]) None) as (record' & Hcls' & Hb').
  cbn [default] in Hcls', Hb'. rewrite Hcor in *. exists record', (take MAX_SECONDARY_FAILURES (secondary ++ [archived])).
  split; [exact Hcls'|]. split; [|exact Hb']. apply prefix_take_snoc; [done|]. apply Hbound.
Qed.

Lemma same_failure_refl s : same_failure s s.
Proof. done. Qed.

(** The report of a failure, whatever it was. *)
Lemma report_failure_reports identity c (m : machine W) x m1 :
  rs_correlation (m_state m) = identity -> report_failure r c m = (x, m1) ->
  same_failure (m_state m) (m_state m1) /\
  match x with
  | Ok _ => False
  | Raise e => passes_run e = true /\ (passes_run c = true -> e = c) \/
      passes_run c = false /\ exn_cause e = Some c /\ reports identity c (m_state m1) e
  end.
Proof.
  intros Hcor. unfold report_failure. destruct (passes_run c) eqn:Hc; [intros [= <- <-]; by split; [|left]|].
  unfold mbind at 1, M_bind at 1.
  destruct (execution_error r c m) as [[e|e] m2] eqn:He.
  2: { exfalso. unfold execution_error, iso_now, reads, writes, observe, mbind, M_bind in He.
       destruct (attribute_failure c (m_state m)) as [[p q] f]. done. }
  apply execution_error_reports in He as [Hs He]. rewrite Hcor in He.
  assert (rs_correlation (m_state m2) = identity) as Hcor2 by (destruct Hs as [-> _]; done).
  unfold mbind, M_bind. destruct (archive_failure r e m2) as [y m3] eqn:Ha.
  apply (archive_failure_reports identity c) in Ha as [Hst Hy]; [|done|done]. rewrite <- Hst in Hs.
  destruct y as [e'|e']; intros [= <- <-]; (split; [done|]); [right|left; split; [done|done]].
  split; [done|]. split; [done|]. destruct Hy as (record & secondary & Hcls & Hrest). by exists record, secondary.
Qed.

(** *** The identity of a run never changes *)

Definition keeps_identity {A} (c : M W A) : Prop := forall m, rs_correlation (m_state (c m).2) = rs_correlation (m_state m).

Lemma keeps_identity_bind {A B} (c : M W A) (f : A -> M W B) :
  keeps_identity c -> (forall a, keeps_identity (f a)) -> keeps_identity (c ≫= f).
Proof.
  intros Hc Hf m. unfold mbind, M_bind. specialize (Hc m). destruct (c m) as [[a|e] m1]; [by rewrite Hf|done].
Qed.

Lemma keeps_identity_frames {A} (c : M W A) : frames c -> keeps_identity c.
Proof. intros Hc m. by rewrite Hc. Qed.

Lemma finish_run_identity request_id reason : keeps_identity (finish_run (W := W) r request_id reason).
Proof.
  unfold finish_run, archive_record, iso_now.
  repeat (intros; first
    [apply keeps_identity_bind
    |match goal with |- keeps_identity (match ?x with _ => _ end) => destruct x end
    |by intros m|apply keeps_identity_frames; unfold resolve_result; solve_frames]).
Qed.

Lemma run_flow_identity identity fuel cur seq loop (m : machine W) x m' :
  flow_state r identity (m_state m) -> run_flow r fuel cur seq loop m = Some (x, m') -> flow_state r identity (m_state m').
Proof.
  revert cur seq loop m; induction fuel as [|fuel IH]; intros [name|] seq loop m Hm; cbn [run_flow]; try done;
    try by intros [= _ <-].
  pose proof (keeps_run_turn r identity name seq loop m Hm) as Ht.
  destruct (run_turn r name seq loop m) as [[[reason|next q]|e] m1]; [by intros [= _ <-]| |by intros [= _ <-]].
  by apply IH.
Qed.

Lemma execute_identity identity fuel trigger checkpoint (m : machine W) x m' :
  flow_state r identity (m_state m) -> execute r fuel trigger checkpoint m = Some (x, m') ->
  rs_correlation (m_state m') = identity.
Proof.
  intros Hm. unfold execute. destruct (co_request_id _) as [id|]; [|intros [= _ <-]; apply Hm].
  set (start := match checkpoint with Some _ => (Ok tt, m) | None => _ end).
  assert (flow_state r identity (m_state start.2)) as Hs
    by (unfold start; destruct checkpoint; [done|by apply keeps_start_run]).
  destruct start as [[u|e] m1]; cbn in Hs; [|intros [= _ <-]; apply Hs].
  destruct (wc_flow config) as [|first rest]; [intros [= _ <-]; apply Hs|].
  destruct (run_flow r fuel _ _ _ m1) as [[[reason|e] m2]|] eqn:Hf; [| |done];
    apply run_flow_identity with (identity := identity) in Hf; try done; intros Heq; injection Heq as Heq.
  - pose proof (finish_run_identity id reason m2) as Hid. rewrite Heq in Hid. cbn in Hid. rewrite Hid. apply Hf.
  - subst. apply Hf.
Qed.
End failures.

(** ** Properties *)


