(* ===== verification/Canonical.v ===== *)
(** Canonical JSON text ([dumps_strict_json]) determines the value: two values have one
    text exactly when they differ in the order of object keys only. *)

From stdpp Require Import countable.
From Stdlib Require Import Sorting.Sorted.
From S2P Require Export Data.

(** ** Values up to the order of keys *)

(** The value with the keys of every object sorted. *)
Fixpoint sorted_value (j : json) : json :=
  match j with
  | JList l => JList (map sorted_value l)
  | JDict d => JDict (sort_keys (map (fun kv => (kv.1, sorted_value kv.2)) d))
  | j => j
  end.

(** Finite numbers of the format. *)
Fixpoint sound_floats (j : json) : bool :=
  match j with
  | JFloat f => isfinite f && valid_binary 53 1024 f
  | JList l => forallb sound_floats l
  | JDict d => forallb (fun kv => sound_floats kv.2) d
  | _ => true
  end.

(** What [float.__repr__] guarantees of finite numbers: the text is made of the
    characters of a number, is no text of an integer, and is read back as the number. *)
Definition number_char (c : Ascii.ascii) : bool :=
  is_digit c || bool_decide (c = "-"%char) || bool_decide (c = "+"%char) || bool_decide (c = "."%char)
  || bool_decide (c = "e"%char).

Class FloatReprLaws `{FloatRepr} : Prop := {
  float_repr_chars f : isfinite f = true -> string_forallb number_char (float_repr f) = true;
  float_repr_head f : isfinite f = true -> exists c s, float_repr f = String c s /\ (is_digit c || bool_decide (c = "-"%char)) = true;
  float_repr_point f : isfinite f = true ->
    string_existsb (fun c => bool_decide (c = "."%char) || bool_decide (c = "e"%char)) (float_repr f) = true;
  float_repr_inj f g : isfinite f = true -> isfinite g = true -> valid_binary 53 1024 f = true ->
    valid_binary 53 1024 g = true -> float_repr f = float_repr g -> f = g;
}.

Section canonical.
Context `{FloatRepr}.

(** The text with the keys of objects in their order. *)
Fixpoint plain_text (j : json) : string :=
  match j with
  | JNull => "null"
  | JBool b => if b then "true" else "false"
  | JInt z => Z_to_string z
  | JFloat f => float_repr f
  | JStr s => json_quote s
  | JList l => "[" +:+ string_join "," (map plain_text l) +:+ "]"
  | JDict d => "{" +:+ string_join "," (map (fun kv => json_quote kv.1 +:+ ":" +:+ plain_text kv.2) d) +:+ "}"
  end.

Lemma insert_key_map {A B} (f : A -> B) k v l :
  map (fun kv => (kv.1, f kv.2)) (insert_key k v l) = insert_key k (f v) (map (fun kv => (kv.1, f kv.2)) l).
Proof.
  induction l as [|[k' v'] l IH]; [done|]. cbn. destruct (String.leb k k'); [done|]. cbn. by rewrite IH.
Qed.

Lemma sort_keys_map {A B} (f : A -> B) l :
  map (fun kv => (kv.1, f kv.2)) (sort_keys l) = sort_keys (map (fun kv => (kv.1, f kv.2)) l).
Proof. induction l as [|[k v] l IH]; [done|]. cbn. by rewrite insert_key_map, IH. Qed.

Lemma insert_key_Permutation {A} k (v : A) l : insert_key k v l ≡ₚ (k, v) :: l.
Proof.
  induction l as [|[k' v'] l IH]; cbn; [done|]. destruct (String.leb k k'); [done|]. rewrite IH. apply Permutation_swap.
Qed.

Lemma sort_keys_Permutation {A} (l : list (string * A)) : sort_keys l ≡ₚ l.
Proof. induction l as [|[k v] l IH]; cbn; [done|]. by rewrite insert_key_Permutation, IH. Qed.

Definition by_key {A} (a b : string * A) : Prop := String.leb a.1 b.1 = true.

Lemma insert_key_HdRel {A} (a : string * A) k v l : by_key a (k, v) -> HdRel by_key a l -> HdRel by_key a (insert_key k v l).
Proof. intros Ha [|[k' v'] l' Hl]; cbn; [by constructor|]. destruct (String.leb k k'); by constructor. Qed.

Lemma insert_key_Sorted {A} k (v : A) l : Sorted by_key l -> Sorted by_key (insert_key k v l).
Proof.
  induction 1 as [|[k' v'] l Hs IH Hl]; cbn; [by repeat constructor|].
  destruct (String.leb k k') eqn:Hk; [by repeat constructor|]. constructor; [done|]. apply insert_key_HdRel; [|done].
  unfold by_key. cbn. by destruct (String.leb_total k k') as [?|?]; [congruence|].
Qed.

Lemma sort_keys_Sorted {A} (l : list (string * A)) : Sorted by_key (sort_keys l).
Proof. induction l as [|[k v] l IH]; cbn; [constructor|by apply insert_key_Sorted]. Qed.

Lemma sort_keys_sorted {A} (l : list (string * A)) : Sorted by_key l -> sort_keys l = l.
Proof.
  induction 1 as [|[k v] l Hs IH Hl]; cbn; [done|]. rewrite IH. destruct Hl as [|[k' v'] l Hl]; [done|]. cbn.
  unfold by_key in Hl. cbn in Hl. by rewrite Hl.
Qed.

Lemma sort_keys_idemp {A} (l : list (string * A)) : sort_keys (sort_keys l) = sort_keys l.
Proof. apply sort_keys_sorted, sort_keys_Sorted. Qed.

Lemma dumps_sorted j : dumps_strict_json j = plain_text (sorted_value j).
Proof.
  induction j as [| | | | |l IH|d IH] using json_ind'; try done; cbn.
  - do 3 f_equal. rewrite map_map. apply map_ext_Forall. exact IH.
  - do 2 f_equal. rewrite <- (map_map (fun kv => (kv.1, plain_text kv.2)) (fun kv => json_quote kv.1 +:+ ":" +:+ kv.2)).
    rewrite sort_keys_map, map_map. cbn. do 3 f_equal. apply map_ext_Forall.
    eapply Forall_impl; [exact IH|]. intros [k v]. cbn. by intros ->.
Qed.

(** ** Texts that can be told from what follows *)

(** What may follow a value inside a text. *)
Definition stops (s : string) : Prop :=
  s = EmptyString \/ exists c s', s = String c s' /\ c ∈ [","; "]"; "}"]%char.

Lemma app_string_inv p q s t : p +:+ s = q +:+ t -> String.length p = String.length q -> p = q /\ s = t.
Proof.
  revert q; induction p as [|c p IH]; intros [|d q]; try done.
  rewrite !string_append_cons. intros [= -> Heq] [= Hl]. destruct (IH q Heq Hl) as [-> ->]. done.
Qed.

Lemma number_span p q s t :
  string_forallb number_char p = true -> string_forallb number_char q = true -> stops s -> stops t ->
  p +:+ s = q +:+ t -> p = q /\ s = t.
Proof.
  assert (forall c s, stops (String c s) -> number_char c = false) as Hstop.
  { intros c u [?|(d & u' & [= -> ->] & Hd)]; [done|].
    repeat (apply elem_of_cons in Hd as [->|Hd]; [vm_compute; reflexivity|]). by apply not_elem_of_nil in Hd. }
  revert q; induction p as [|c p IH]; intros [|d q]; rewrite ?string_append_cons, ?string_append_nil_l; cbn [string_forallb];
    intros Hp Hq Hs Ht Heq.
  - done.
  - subst s. apply andb_prop in Hq as [Hd _]. by rewrite (Hstop _ _ Hs) in Hd.
  - subst t. apply andb_prop in Hp as [Hc _]. by rewrite (Hstop _ _ Ht) in Hc.
  - injection Heq as -> Heq. apply andb_prop in Hp as [_ Hp]. apply andb_prop in Hq as [_ Hq].
    destruct (IH q Hp Hq Hs Ht Heq) as [-> ->]. done.
Qed.

(** *** String literals *)

Definition hex_value (c : Ascii.ascii) : N :=
  let n := Ascii.N_of_ascii c in if (n <? 58)%N then n - 48 else n - 87.

(** The character that a string literal begins with, and what follows it. *)
Definition unescape (s : string) : option (Ascii.ascii * string) :=
  match s with
  | String c s =>
      if decide (c = dquote) then None
      else if decide (c = backslash) then
        match s with
        | String d s =>
            if decide (d = "u"%char) then
              match s with
              | String _ (String _ (String h (String l s))) =>
                  Some (Ascii.ascii_of_N (16 * hex_value h + hex_value l), s)
              | _ => None
              end
            else Some (if decide (d = "n"%char) then Ascii.ascii_of_N 10 else if decide (d = "r"%char) then Ascii.ascii_of_N 13
                       else if decide (d = "t"%char) then Ascii.ascii_of_N 9 else if decide (d = "f"%char) then Ascii.ascii_of_N 12
                       else if decide (d = "b"%char) then Ascii.ascii_of_N 8 else d, s)
        | EmptyString => None
        end
      else Some (c, s)
  | EmptyString => None
  end.

Lemma unescape_char c s : unescape (json_escape_char c +:+ s) = Some (c, s).
Proof. destruct c as [[] [] [] [] [] [] [] []]; reflexivity. Qed.

Lemma escape_span k l s t :
  json_escape k +:+ String dquote s = json_escape l +:+ String dquote t -> k = l /\ s = t.
Proof.
  assert (forall u, unescape (String dquote u) = None) as Hq by done.
  revert l; induction k as [|c k IH]; intros [|d l]; cbn [json_escape];
    rewrite ?string_append_nil_l, ?string_append_assoc; intros Heq.
  - by injection Heq.
  - apply (f_equal unescape) in Heq. by rewrite unescape_char in Heq.
  - apply (f_equal unescape) in Heq. by rewrite unescape_char in Heq.
  - apply (f_equal unescape) in Heq. rewrite !unescape_char in Heq. injection Heq as -> Heq.
    destruct (IH l Heq) as [-> ->]. done.
Qed.

Lemma quote_span k l s t : json_quote k +:+ s = json_quote l +:+ t -> k = l /\ s = t.
Proof.
  unfold json_quote. rewrite !string_append_cons, !string_append_assoc, !string_append_cons, !string_append_nil_l.
  intros [= Heq]. by apply escape_span.
Qed.

(** *** Integers *)

Lemma Z_to_string_neg p : Z_to_string (Z.neg p) = String "-"%char (Z_to_string (Z.pos p)).
Proof. reflexivity. Qed.

Lemma Z_to_string_inj a b : Z_to_string a = Z_to_string b -> a = b.
Proof.
  assert (forall x y, (0 <= x)%Z -> (0 <= y)%Z -> Z_to_string x = Z_to_string y -> x = y) as Hpos.
  { intros x y Hx Hy Heq. rewrite <- (Z_of_digits_to_string x), <- (Z_of_digits_to_string y) by done. by rewrite Heq. }
  assert (forall x p, (0 <= x)%Z -> Z_to_string x <> Z_to_string (Z.neg p)) as Hneg.
  { intros x p Hx Heq. pose proof (Z_to_string_digits x Hx) as Hd. rewrite Heq, Z_to_string_neg in Hd. done. }
  intros Heq. destruct (Z.le_gt_cases 0 a), (Z.le_gt_cases 0 b); try by auto.
  - destruct b; try lia. by destruct (Hneg a p).
  - destruct a; try lia. by destruct (Hneg b p).
  - destruct a as [| |p], b as [| |q]; try lia. rewrite !Z_to_string_neg in Heq. injection Heq as Heq.
    apply Hpos in Heq; [|lia|lia]. congruence.
Qed.

Lemma Z_to_string_chars z : string_forallb (fun c => is_digit c || bool_decide (c = "-"%char)) (Z_to_string z) = true.
Proof.
  destruct (Z.le_gt_cases 0 z) as [Hz|Hz].
  - eapply string_forallb_impl; [|by apply Z_to_string_digits]. intros c ->. done.
  - destruct z as [| |p]; try lia. rewrite Z_to_string_neg. cbn [string_forallb].
    rewrite bool_decide_eq_true_2, orb_true_r by done. cbn [andb].
    eapply string_forallb_impl; [|apply Z_to_string_digits; lia]. intros c ->. done.
Qed.

(** *** Values *)

Context `{!FloatReprLaws}.

Definition starts_number (c : Ascii.ascii) : bool := is_digit c || bool_decide (c = "-"%char).

(** The first character of a text tells the kind of value. *)
Definition head_kind (c : Ascii.ascii) : nat :=
  if starts_number c then 0%nat else nat_of_ascii c.

Definition value_kind (j : json) : nat :=
  match j with
  | JNull => nat_of_ascii "n"
  | JBool b => nat_of_ascii (if b then "t" else "f")
  | JInt _ | JFloat _ => 0
  | JStr _ => nat_of_ascii dquote
  | JList _ => nat_of_ascii "["
  | JDict _ => nat_of_ascii "{"
  end%char.

Lemma plain_text_head j :
  sound_floats j = true -> exists c s, plain_text j = String c s /\ head_kind c = value_kind j.
Proof.
  destruct j as [|[]|z|f|s|l|d]; cbn [plain_text sound_floats value_kind]; intros Hs; try by eexists _, _.
  - pose proof (Z_to_string_chars z) as Hc. destruct (Z_to_string z) as [|c s] eqn:Hz.
    { exfalso. destruct (Z.le_gt_cases 0 z); [by destruct (Z_to_string_nonempty z)|].
      destruct z as [| |p]; try lia. by rewrite Z_to_string_neg in Hz. }
    exists c, s. split; [done|]. cbn [string_forallb] in Hc. apply andb_prop in Hc as [Hc _].
    unfold head_kind, starts_number. by rewrite Hc.
  - apply andb_prop in Hs as [Hf _]. destruct (float_repr_head f Hf) as (c & s & -> & Hc). exists c, s. split; [done|].
    unfold head_kind, starts_number. by rewrite Hc.
Qed.

Lemma plain_text_kinds a b s t :
  sound_floats a = true -> sound_floats b = true -> plain_text a +:+ s = plain_text b +:+ t -> value_kind a = value_kind b.
Proof.
  intros (c & a' & -> & <-)%plain_text_head (d & b' & -> & <-)%plain_text_head. rewrite !string_append_cons. congruence.
Qed.

(** A text that can be told from what follows it. *)
Definition spans {A} (text : A -> string) (sound : A -> bool) (a : A) : Prop :=
  forall b s t, sound b = true -> stops s -> stops t -> text a +:+ s = text b +:+ t -> a = b /\ s = t.

Section join.
Context {A : Type} (text : A -> string) (sound : A -> bool) (close : Ascii.ascii).
Hypothesis Hclose : close ∈ ["]"; "}"]%char.
Hypothesis Hhead : forall a s t, sound a = true -> text a +:+ s <> String close t.

Lemma stops_close s : stops (String close s).
Proof. right. exists close, s. split; [done|]. by right. Qed.

Lemma stops_comma s : stops (String ","%char s).
Proof. right. eexists _, s. split; [done|]. by left. Qed.

Lemma join_cons a l :
  string_join "," (map text (a :: l)) =
  text a +:+ match l with [] => EmptyString | _ => String ","%char (string_join "," (map text l)) end.
Proof. destruct l; cbn; [by rewrite string_append_nil_r|done]. Qed.

Lemma join_span l l' s t :
  forallb sound l = true -> forallb sound l' = true -> Forall (spans text sound) l ->
  string_join "," (map text l) +:+ String close s = string_join "," (map text l') +:+ String close t ->
  l = l' /\ s = t.
Proof.
  assert (close <> ","%char) as Hcomma.
  { intros Heq. pose proof Hclose as Hc. rewrite Heq in Hc. repeat (apply elem_of_cons in Hc as [Hc|Hc]; [done|]).
    by apply not_elem_of_nil in Hc. }
  revert l'; induction l as [|a l IH]; intros [|b l'] Hl Hl' Hall; rewrite ?join_cons, ?string_append_assoc.
  - rewrite !string_append_nil_l. by intros [= ->].
  - cbn in Hl'. apply andb_prop in Hl' as [Hb _]. intros Heq. symmetry in Heq. by destruct (Hhead b _ _ Hb Heq).
  - cbn in Hl. apply andb_prop in Hl as [Ha _]. intros Heq. by destruct (Hhead a _ _ Ha Heq).
  - cbn [forallb] in Hl, Hl'. apply andb_prop in Hl as [Ha Hl]. apply andb_prop in Hl' as [Hb Hl'].
    apply Forall_cons in Hall as [Hspan Hall]. intros Heq.
    apply Hspan in Heq as [-> Heq]; [|done| |].
    + destruct l as [|a' l], l' as [|b' l']; rewrite ?string_append_nil_l, ?string_append_cons in Heq.
      * by injection Heq as ->.
      * by injection Heq.
      * by injection Heq.
      * injection Heq as Heq. destruct (IH (b' :: l') Hl Hl' Hall Heq) as [-> ->]. done.
    + destruct l; [apply stops_close|apply stops_comma].
    + destruct l'; [apply stops_close|apply stops_comma].
Qed.
End join.

Lemma plain_text_nonclose close a s t :
  close ∈ ["]"; "}"]%char -> sound_floats a = true -> plain_text a +:+ s <> String close t.
Proof.
  intros Hclose (c & u & -> & Hc)%plain_text_head Heq. rewrite string_append_cons in Heq. injection Heq as -> _.
  revert Hc. repeat (apply elem_of_cons in Hclose as [->|Hclose]; [by destruct a as [|[]| | | | |]|]).
  by apply not_elem_of_nil in Hclose.
Qed.

Lemma number_text_chars z : string_forallb number_char (Z_to_string z) = true.
Proof.
  eapply string_forallb_impl; [|apply Z_to_string_chars]. intros c [Hc|Hc]%orb_prop; unfold number_char; rewrite Hc; [done|].
  by rewrite !orb_true_r.
Qed.

Lemma existsb_forallb p q s :
  (forall c, p c = true -> q c = false) -> string_forallb p s = true -> string_existsb q s = false.
Proof.
  intros H'. induction s as [|c s IH]; [done|]. cbn. intros [Hc Hs]%andb_prop. by rewrite (H' c Hc), IH.
Qed.

(** No text of an integer is one of a float. *)
Lemma int_float_text z f : isfinite f = true -> Z_to_string z <> float_repr f.
Proof.
  intros Hf Heq. pose proof (float_repr_point f Hf) as Hp. rewrite <- Heq in Hp.
  rewrite (existsb_forallb (fun c => is_digit c || bool_decide (c = "-"%char)) _ (Z_to_string z)) in Hp; [done| |apply Z_to_string_chars].
  intros c Hc. destruct (bool_decide (c = "."%char) || bool_decide (c = "e"%char)) eqn:Hd; [|done].
  apply orb_prop in Hd as [Hd|Hd]; apply bool_decide_eq_true in Hd as ->; done.
Qed.

Lemma plain_text_span a : sound_floats a = true -> spans plain_text sound_floats a.
Proof.
  induction a as [|x|z|f|k|l IH|d IH] using json_ind'; intros Ha b s t Hb Hs Ht Heq;
    pose proof (plain_text_kinds _ _ _ _ Ha Hb Heq) as Hkind.
  - destruct b as [|[]|z'|f'|k'|l'|d']; try done. by injection Heq.
  - destruct b as [|y|z'|f'|k'|l'|d']; try (by destruct x). destruct x, y; try done; by injection Heq.
  - destruct b as [|[]|z'|f'|k'|l'|d']; try done; cbn [plain_text] in Heq.
    + apply number_span in Heq as [Heq ->]; [|apply number_text_chars|apply number_text_chars|done|done].
      apply Z_to_string_inj in Heq as ->. done.
    + cbn in Hb. apply andb_prop in Hb as [Hf _].
      apply number_span in Heq as [Heq _]; [|apply number_text_chars|by apply float_repr_chars|done|done].
      by destruct (int_float_text z f' Hf).
  - cbn in Ha. apply andb_prop in Ha as [Hf Hv].
    destruct b as [|[]|z'|f'|k'|l'|d']; try done; cbn [plain_text] in Heq.
    + symmetry in Heq. apply number_span in Heq as [Heq _]; [|apply number_text_chars|by apply float_repr_chars|done|done].
      by destruct (int_float_text z' f Hf).
    + cbn in Hb. apply andb_prop in Hb as [Hf' Hv'].
      apply number_span in Heq as [Heq ->]; [|by apply float_repr_chars|by apply float_repr_chars|done|done].
      apply float_repr_inj in Heq as ->; done.
  - destruct b as [|[]|z'|f'|k'|l'|d']; try done. cbn [plain_text] in Heq. by apply quote_span in Heq as [-> ->].
  - destruct b as [|[]|z'|f'|k'|l'|d']; try done. cbn [plain_text] in Heq.
    rewrite !string_append_cons, !string_append_assoc, !string_append_cons, !string_append_nil_l in Heq.
    injection Heq as Heq. apply (join_span _ sound_floats) in Heq as [-> ->]; [done|by left| |exact Ha|exact Hb|].
    + intros. apply plain_text_nonclose; [by left|done].
    + cbn in Ha. clear -IH Ha. induction IH as [|x l Hx IH' IHl]; [constructor|]. cbn in Ha.
      apply andb_prop in Ha as [Hx' Ha]. constructor; auto.
  - destruct b as [|[]|z'|f'|k'|l'|d']; try done. cbn [plain_text] in Heq.
    rewrite !string_append_cons, !string_append_assoc, !string_append_cons, !string_append_nil_l in Heq.
    injection Heq as Heq. apply (join_span _ (fun kv => sound_floats kv.2)) in Heq as [-> ->];
      [done|by right; left| |exact Ha|exact Hb|].
    + intros [k v] u v' _. cbn. unfold json_quote. rewrite !string_append_cons. by intros [=].
    + cbn in Ha. clear -IH Ha. induction IH as [|[k x] l Hx IH' IHl]; [constructor|]. cbn in Ha.
      apply andb_prop in Ha as [Hx' Ha]. constructor; [|by apply IHl].
      intros [k' y] s t Hy Hs Ht. cbn. rewrite !string_append_assoc. intros [-> Heq]%quote_span.
      rewrite !string_append_cons, !string_append_nil_l in Heq. injection Heq as Heq.
      cbn in *. apply Hx in Heq as [-> ->]; done.
Qed.

Lemma insert_key_Forall {A} (P : string * A -> Prop) k v l : P (k, v) -> Forall P l -> Forall P (insert_key k v l).
Proof.
  intros Hkv. induction 1 as [|[k' v'] l Hx Hl IH]; cbn; [by constructor|]. destruct (String.leb k k'); by repeat constructor.
Qed.

Lemma sorted_sound j : sound_floats j = true -> sound_floats (sorted_value j) = true.
Proof.
  induction j as [| | | | |l IH|d IH] using json_ind'; try done; cbn; rewrite !forallb_forall.
  - intros Hl y Hy. apply in_map_iff in Hy as (x & <- & Hx). rewrite Forall_forall in IH. apply IH; [|by apply Hl].
    by apply list_elem_of_In.
  - intros Hd.
    assert (Forall (fun kv : string * json => sound_floats kv.2 = true) (sort_keys (map (fun kv => (kv.1, sorted_value kv.2)) d))) as Hall.
    { clear -IH Hd. induction IH as [|[k x] l Hx IH' IHl]; [constructor|]. cbn. apply insert_key_Forall.
      - apply Hx. apply (Hd (k, x)). by left.
      - apply IHl. intros y Hy. apply Hd. by right. }
    rewrite Forall_forall in Hall. intros y Hy. apply Hall. by apply list_elem_of_In.
Qed.
End canonical.

(** ** Properties *)

(** C13: Canonical text determines the value.  Two JSON values whose numbers are finite
    have the same canonical text exactly when they are the same value up to the order of
    the keys of their objects, at every depth: no two different values, of different
    kinds or structure, share a text or a digest of it. *)
Theorem canonical_text_exact `{FloatReprLaws} (a b : json)
    (Ha : sound_floats a = true) (Hb : sound_floats b = true) :
  dumps_strict_json a = dumps_strict_json b <-> sorted_value a = sorted_value b.
Proof.
  rewrite !dumps_sorted. split; [|by intros ->]. intros Heq.
  assert (stops EmptyString) as Hs by by left.
  destruct (plain_text_span (sorted_value a) (sorted_sound a Ha) (sorted_value b) EmptyString EmptyString (sorted_sound b Hb) Hs Hs);
    [by rewrite Heq|done].
Qed.

(** ** Samples *)

(** A printer of finite floats that keeps the laws: the number of the float, then ".0". *)
Definition float_code (f : spec_float) : positive :=
  encode match f with
  | S754_zero s => inl s
  | S754_finite s m e => inr (s, m, e)
  | S754_infinity s => inl s
  | S754_nan => inl false
  end.

Definition coded_floats : FloatRepr := {| float_repr := fun f => Z_to_string (Z.pos (float_code f)) +:+ ".0" |}.

Lemma coded_floats_laws : @FloatReprLaws coded_floats.
Proof.
  split; unfold float_repr, coded_floats.
  - intros f _. rewrite string_forallb_append, number_text_chars. reflexivity.
  - intros f _. destruct (Z_to_string (Z.pos (float_code f))) as [|c s] eqn:Hz; [by destruct (Z_to_string_nonempty (Z.pos (float_code f)))|].
    exists c, (s +:+ ".0"). split; [by rewrite string_append_cons|].
    pose proof (Z_to_string_chars (Z.pos (float_code f))) as Hc. rewrite Hz in Hc. by apply andb_prop in Hc as [-> _].
  - intros f _. generalize (Z_to_string (Z.pos (float_code f))). intros s.
    induction s as [|c s IH]; [done|]. rewrite string_append_cons. cbn [string_existsb]. by rewrite IH, orb_true_r.
  - intros f g Hf Hg _ _ Heq. apply app_string_inv in Heq as [Heq _].
    + apply Z_to_string_inj in Heq. injection Heq as Heq. unfold float_code in Heq. apply (inj encode) in Heq.
      destruct f, g; try done; congruence.
    + apply (f_equal String.length) in Heq. rewrite !string_length_append in Heq. lia.
Qed.

Definition sample_half : json := JFloat (S754_finite false 4503599627370496 (-53)).

Lemma canonical_text_exact_witness :
  let floats := coded_floats in
  let a := JDict [("b", JInt 1); ("a", JList [sample_half; JNull])] in
  let b := JDict [("a", JList [sample_half; JNull]); ("b", JInt 1)] in
  dumps_strict_json a = dumps_strict_json b /\
  (dumps_strict_json a = dumps_strict_json (JDict [("b", JStr "1"); ("a", JNull)]) <->
   sorted_value a = sorted_value (JDict [("b", JStr "1"); ("a", JNull)])).
Proof.
  intros floats a b. pose proof coded_floats_laws as Hlaws. split.
  - apply (canonical_text_exact a b); vm_compute; reflexivity.
  - apply (canonical_text_exact a); vm_compute; reflexivity.
Defined.
