(* ===== verification/Scope.v ===== *)
(** Runtime scopes and the identities derived from them ([scope.py]): an identity names
    its kind and its scope in clear and its parts by a SHA-256 digest, which is a
    parameter. *)

From S2P Require Export Errors.

(** [hashlib.sha256(text.encode("utf-8")).hexdigest()]: 64 lower-case hexadecimal
    digits. *)
Definition is_hex_lower (c : Ascii.ascii) : bool :=
  let n := Ascii.N_of_ascii c in is_digit c || ((97 <=? n)%N && (n <=? 102)%N).

Definition SCOPE_DIGEST_LENGTH : nat := 64.

(** [SCOPE_DIGEST_PATTERN.fullmatch] *)
Definition is_scope_digest (s : string) : bool :=
  bool_decide (String.length s = SCOPE_DIGEST_LENGTH) && string_forallb is_hex_lower s.

Class Sha256 := {
  hexdigest : string -> string;
  hexdigest_form s : is_scope_digest (hexdigest s) = true;
}.

(** [json.dumps(parts, ensure_ascii=False, separators=(",", ":"))] of strings *)
Definition dumps_strings (parts : list string) : string :=
  "[" +:+ string_join "," (map json_quote parts) +:+ "]".

(** ** Scopes *)

Definition MAX_SCOPE_COMPONENT_LENGTH : nat := 64.
Definition SCOPED_IDENTITY_VERSION : string := "jf1".
Definition MAX_SCOPED_IDENTITY_KIND_LENGTH : nat := 32.

Definition is_alnum (c : Ascii.ascii) : bool := is_digit c || is_upper c || is_lower c.

(** [SCOPE_COMPONENT_PATTERN] *)
Definition is_scope_component (s : string) : bool :=
  match s with
  | EmptyString => false
  | String c rest =>
      is_alnum c &&
      string_forallb (fun c => is_alnum c || bool_decide (c = "."%char) ||
                               bool_decide (c = "_"%char) || bool_decide (c = "-"%char)) rest
  end.

(** The field of [_ScopeIdentity]. *)
Definition scope_component (s : string) : bool :=
  (1 <=? String.length s)%nat && (String.length s <=? MAX_SCOPE_COMPONENT_LENGTH)%nat
  && is_scope_component s.

Record RuntimeScope := {
  tenant : string;
  application : string;
  environment : string;
}.

#[export] Instance RuntimeScope_eq_dec : EqDecision RuntimeScope.
Proof. solve_decision. Defined.

(** [RuntimeScope.create]: [None] when pydantic refuses a component. *)
Definition create (tenant application environment : string) : option RuntimeScope :=
  if scope_component tenant && scope_component application && scope_component environment
  then Some {| tenant := tenant; application := application; environment := environment |}
  else None.

(** [RuntimeScope.model_dump_public] *)
Definition model_dump_public (s : RuntimeScope) : list (string * string) :=
  [("tenant", tenant s); ("application", application s); ("environment", environment s)].

Definition LOCAL_RUNTIME_SCOPE : RuntimeScope :=
  {| tenant := "local"; application := "justflow"; environment := "development" |}.

(** [UnscopedCompatibilityMode] *)
Inductive UnscopedCompatibilityMode := REJECT | LOCAL_ONLY.

#[export] Instance UnscopedCompatibilityMode_eq_dec : EqDecision UnscopedCompatibilityMode.
Proof. solve_decision. Defined.

(** [ScopeBindingKind] *)
Inductive ScopeBindingKind := API | WEBHOOK | BROKER | SCHEDULE | CLOUD_EVENT | HOST.

#[export] Instance ScopeBindingKind_eq_dec : EqDecision ScopeBindingKind.
Proof. solve_decision. Defined.

Record TrustedScopeBinding := {
  tsb_kind : ScopeBindingKind;
  tsb_scope : RuntimeScope;
  tsb_binding_id : string;
}.

(** [TrustedScopeBinding.create] *)
Definition create_binding (kind : ScopeBindingKind) (scope : RuntimeScope) (binding_id : string)
  : option TrustedScopeBinding :=
  if (1 <=? String.length binding_id)%nat && (String.length binding_id <=? MAX_SCOPE_COMPONENT_LENGTH)%nat
  then Some {| tsb_kind := kind; tsb_scope := scope; tsb_binding_id := binding_id |}
  else None.

Definition scope_resolution_error {A} (msg : string) : res A :=
  raise (ExternalError "ScopeResolutionError" None None None) msg.

Definition require_scope_grant (granted_scopes : list RuntimeScope) (required_scope : RuntimeScope)
  : res RuntimeScope :=
  if bool_decide (required_scope ∈ granted_scopes) then Ok required_scope
  else scope_resolution_error "The principal has no grant for the runtime scope".

Definition require_bound_scope (binding : TrustedScopeBinding) (expected_kind : ScopeBindingKind)
    (required_scope : RuntimeScope) : res RuntimeScope :=
  if negb (bool_decide (tsb_kind binding = expected_kind))
     || negb (bool_decide (tsb_scope binding = required_scope))
  then scope_resolution_error "The trusted source binding does not match the runtime scope"
  else Ok required_scope.

Definition validate_scope_digest (value : string) : res string :=
  if is_scope_digest value then Ok value
  else raise ValueError "Runtime scope digest must be a full lowercase SHA-256 digest".

(** [re.fullmatch(r"[a-z][a-z0-9_-]*", kind)] *)
Definition is_identity_kind (kind : string) : bool :=
  match kind with
  | EmptyString => false
  | String c rest =>
      is_lower c &&
      string_forallb (fun c => is_lower c || is_digit c || bool_decide (c = "_"%char)
                               || bool_decide (c = "-"%char)) rest
  end.

(** [_validate_identity_kind] *)
Definition validate_identity_kind (kind : string) : res unit :=
  if bool_decide (kind = EmptyString)
     || (MAX_SCOPED_IDENTITY_KIND_LENGTH <? String.length kind)%nat
     || negb (is_identity_kind kind)
  then raise ValueError "Scoped identity kind is invalid"
  else Ok tt.

(** [value.startswith(prefix)] *)
Fixpoint startswith (prefix value : string) : bool :=
  match prefix, value with
  | EmptyString, _ => true
  | String c p, String c' v => bool_decide (c = c') && startswith p v
  | String _ _, EmptyString => false
  end.

Section identities.
Context `{Sha256}.

(** [RuntimeScope.digest] *)
Definition digest (s : RuntimeScope) : string :=
  hexdigest (dumps_strings [tenant s; application s; environment s]).

(** [ScopeCompatibilityPolicy.owns] *)
Definition owns (unscoped_mode : UnscopedCompatibilityMode) (observed_scope_digest : option string)
    (runtime_scope : RuntimeScope) : bool :=
  if bool_decide (observed_scope_digest = Some (digest runtime_scope)) then true
  else
    bool_decide (observed_scope_digest = None)
    && bool_decide (unscoped_mode = LOCAL_ONLY)
    && bool_decide (runtime_scope = LOCAL_RUNTIME_SCOPE).

(** [LEGACY_LOCAL_UNSCOPED_POLICY.owns] *)
Definition legacy_owns (observed_scope_digest : option string) (runtime_scope : RuntimeScope) : bool :=
  owns LOCAL_ONLY observed_scope_digest runtime_scope.

Definition identity_prefix (kind scope_digest : string) : string :=
  SCOPED_IDENTITY_VERSION +:+ "." +:+ kind +:+ "." +:+ scope_digest +:+ ".".

Definition scoped_identity_prefix (kind : string) (scope : RuntimeScope) : res string :=
  _ ← validate_identity_kind kind; Ok (identity_prefix kind (digest scope)).

Definition scoped_identity_from_digest (kind scope_digest : string) (parts : list string) : res string :=
  _ ← validate_identity_kind kind;
  _ ← validate_scope_digest scope_digest;
  Ok (identity_prefix kind scope_digest +:+ hexdigest (dumps_strings parts)).

Definition scoped_identity (kind : string) (scope : RuntimeScope) (parts : list string) : res string :=
  scoped_identity_from_digest kind (digest scope) parts.

Definition safe_identity_digest (kind value : string) : res string :=
  _ ← validate_identity_kind kind; Ok (hexdigest (dumps_strings [kind; value])).

Definition identity_belongs_to_scope (value kind : string) (scope : RuntimeScope) : res bool :=
  prefix ← scoped_identity_prefix kind scope; Ok (startswith prefix value).
End identities.
