(* ===== verification/ScopeFacts.v ===== *)
(** Identities name their kind and their scope unambiguously, and their parts up to a
    collision of the digest. *)

From S2P Require Export Scope Canonical.

Lemma startswith_spec p v : startswith p v = true <-> exists rest, v = p +:+ rest.
Proof.
  revert v; induction p as [|c p IH]; intros v; cbn [startswith].
  - split; [by exists v | done].
  - destruct v as [|c' v].
    + split; [done|]. intros [rest Hr]. discriminate Hr.
    + rewrite andb_true_iff, bool_decide_eq_true, IH. split.
      * intros [-> [rest ->]]. by exists rest.
      * intros [rest Hr]. rewrite string_append_cons in Hr. injection Hr as -> ->. eauto.
Qed.

Definition undotted (s : string) : Prop := string_forallb (fun c => bool_decide (c <> "."%char)) s = true.

Lemma kind_undotted k : validate_identity_kind k = Ok tt -> undotted k.
Proof.
  unfold validate_identity_kind. case_match eqn:Hk; [done|intros _].
  apply orb_false_iff in Hk as [_ Hk%negb_false_iff].
  destruct k as [|c k]; [done|]. cbn [is_identity_kind] in Hk. apply andb_prop in Hk as [Hc Hr].
  unfold undotted. cbn [string_forallb]. apply andb_true_iff. split.
  - apply bool_decide_eq_true. by intros ->.
  - eapply string_forallb_impl; [|exact Hr]. intros c' Hc'. cbn beta in Hc'.
    apply bool_decide_eq_true. by intros ->.
Qed.

Section identities.
Context `{Sha256}.

Lemma scope_digest_undotted d : is_scope_digest d = true -> undotted d.
Proof.
  unfold is_scope_digest. intros [_ Hd]%andb_prop. eapply string_forallb_impl; [|exact Hd].
  intros c Hc. apply bool_decide_eq_true. by intros ->.
Qed.

Lemma prefix_split k d rest :
  undotted k -> undotted d ->
  string_split "." (identity_prefix k d +:+ rest) = "jf1" :: k :: d :: string_split "." rest.
Proof.
  intros Hk Hd. unfold identity_prefix, SCOPED_IDENTITY_VERSION.
  rewrite !string_append_assoc.
  change (string_split "." ("jf1" +:+ String "." (k +:+ String "." (d +:+ String "." rest)))
    = "jf1" :: k :: d :: string_split "." rest).
  by rewrite !string_split_app by done.
Qed.

Lemma scoped_identity_shape k d parts v :
  scoped_identity_from_digest k d parts = Ok v ->
  undotted k /\ undotted d /\ v = identity_prefix k d +:+ hexdigest (dumps_strings parts).
Proof.
  unfold scoped_identity_from_digest, validate_scope_digest. intros Hv.
  apply bind_Ok in Hv as ([] & Hk & Hv). apply bind_Ok in Hv as (d' & Hd & Hv). injection Hv as <-.
  destruct (is_scope_digest d) eqn:Hdig; [|done].
  split_and!; [by apply kind_undotted | by apply scope_digest_undotted | done].
Qed.

Lemma identity_parts k d k' d' r r' :
  undotted k -> undotted d -> undotted k' -> undotted d' ->
  identity_prefix k d +:+ r = identity_prefix k' d' +:+ r' -> k = k' /\ d = d'.
Proof.
  intros Hk Hd Hk' Hd' Heq. apply (f_equal (string_split ".")) in Heq.
  rewrite !prefix_split in Heq by done. injection Heq as -> -> _. done.
Qed.
End identities.

(** ** The texts that are digested *)

Lemma join_quotes_span l l' s t :
  (forall c r, s = String c r -> c <> ","%char) -> (forall c r, t = String c r -> c <> ","%char) ->
  s <> EmptyString -> t <> EmptyString ->
  (forall c r, s = String c r -> c <> dquote) -> (forall c r, t = String c r -> c <> dquote) ->
  string_join "," (map json_quote l) +:+ s = string_join "," (map json_quote l') +:+ t -> l = l' /\ s = t.
Proof.
  intros Hs Ht Hs0 Ht0 Hsq Htq. revert l'; induction l as [|p l IH]; intros [|q l'] Heq.
  - by rewrite !string_append_nil_l in Heq.
  - exfalso. cbn [map] in Heq. destruct (map json_quote l') as [|r ps]; cbn [string_join] in Heq;
      rewrite string_append_nil_l in Heq; unfold json_quote in Heq;
      rewrite ?string_append_assoc, !string_append_cons in Heq; by eapply Hsq.
  - exfalso. cbn [map] in Heq. destruct (map json_quote l) as [|r ps]; cbn [string_join] in Heq;
      rewrite string_append_nil_l in Heq; unfold json_quote in Heq;
      rewrite ?string_append_assoc, !string_append_cons in Heq; by eapply Htq.
  - cbn [map] in Heq. specialize (IH l'). cbn [map] in IH.
    destruct l as [|p' l], l' as [|q' l']; cbn [map string_join] in *.
    + apply quote_span in Heq as [-> ->]. done.
    + rewrite !string_append_assoc in Heq. apply quote_span in Heq as [-> ->].
      by edestruct (Hs ","%char).
    + rewrite !string_append_assoc in Heq. apply quote_span in Heq as [-> <-].
      by edestruct (Ht ","%char).
    + rewrite !string_append_assoc in Heq. apply quote_span in Heq as [-> Heq].
      rewrite !string_append_cons, !string_append_nil_l in Heq. injection Heq as Heq.
      destruct (IH Heq) as [[= -> ->] ->]. done.
Qed.

Lemma dumps_strings_inj l l' : dumps_strings l = dumps_strings l' -> l = l'.
Proof.
  unfold dumps_strings. rewrite !string_append_cons, !string_append_nil_l. intros [= Heq].
  apply join_quotes_span in Heq as [-> _]; [done|..]; try (by intros [=]); intros c r [= <- _]; by intros [=].
Qed.

(** ** Properties *)

(** Two texts that the digest does not tell apart. *)
Definition collision `{Sha256} : Prop := exists x y, x <> y /\ hexdigest x = hexdigest y.

Lemma digest_parts_inj `{Sha256} l l' :
  hexdigest (dumps_strings l) = hexdigest (dumps_strings l') -> l = l' \/ collision.
Proof.
  intros Heq. destruct (decide (l = l')) as [->|Hne]; [by left | right].
  exists (dumps_strings l), (dumps_strings l'). split; [by intros ?%dumps_strings_inj | done].
Qed.

Lemma digest_inj `{Sha256} s s' : digest s = digest s' -> s = s' \/ collision.
Proof.
  intros [Heq|?]%digest_parts_inj; [left | by right]. destruct s, s'; cbn in Heq. by simplify_eq.
Qed.

(** A scoped identity belongs to the kind and the scope it was made for, and to no
    other kind or scope: the test that guards every delivery is exact up to the digest of
    the scope.  Two identities are equal only when their kinds, scopes and parts are, or
    when two different texts have the same SHA-256 digest. *)
Theorem scoped_identity_exact `{Sha256} kind scope parts v :
  scoped_identity kind scope parts = Ok v ->
  (forall kind' scope' b, identity_belongs_to_scope v kind' scope' = Ok b ->
     (b = true <-> kind = kind' /\ digest scope = digest scope')) /\
  (forall kind' scope' parts', scoped_identity kind' scope' parts' = Ok v ->
     (kind = kind' /\ scope = scope' /\ parts = parts') \/ collision).
Proof.
  intros (Hk & Hd & ->)%scoped_identity_shape. split.
  - intros kind' scope' b Hb. unfold identity_belongs_to_scope, scoped_identity_prefix in Hb.
    apply bind_Ok in Hb as (p & Hp & [= <-]). apply bind_Ok in Hp as ([] & Hk' & [= <-]).
    rewrite startswith_spec. split.
    + intros [rest Heq]. eapply identity_parts; [exact Hk|exact Hd| | |exact Heq].
      * by apply kind_undotted.
      * by apply scope_digest_undotted, hexdigest_form.
    + intros [-> ->]. eauto.
  - intros kind' scope' parts' (Hk' & Hd' & Heq)%scoped_identity_shape.
    destruct (identity_parts _ _ _ _ _ _ Hk Hd Hk' Hd' Heq) as [-> Hdig]. rewrite Hdig in Heq.
    apply app_string_inv in Heq as [_ Heq]; [|done].
    destruct (digest_inj _ _ Hdig) as [->|?]; [|by right].
    destruct (digest_parts_inj _ _ Heq) as [->|?]; [by left | by right].
Qed.

(** A digest for concrete runs: the sixty-four digits of the length of the text. *)
Fixpoint hex_digits (n : nat) (z : N) : string :=
  match n with
  | O => EmptyString
  | S n => String (hex_digit (z mod 16)) (hex_digits n (z / 16))
  end.

Lemma hex_digit_lower z : (z < 16)%N -> is_hex_lower (hex_digit z) = true.
Proof.
  intros Hz. destruct z as [|p]; [done|].
  do 4 (destruct p as [p|p|]; try reflexivity; try lia).
Qed.

Lemma hex_digits_form n z :
  String.length (hex_digits n z) = n /\ string_forallb is_hex_lower (hex_digits n z) = true.
Proof.
  revert z; induction n as [|n IH]; intros z; [done|]. cbn [hex_digits String.length string_forallb].
  destruct (IH (z / 16)%N) as [-> ->]. split; [done|]. rewrite andb_true_r.
  apply hex_digit_lower, N.mod_lt. done.
Qed.

Fixpoint text_code (s : string) : N :=
  match s with EmptyString => 1 | String c s => (Ascii.N_of_ascii c + 256 * text_code s)%N end.

Definition sample_hexdigest (s : string) : string := hex_digits 64 (text_code s).

Definition sample_sha256 : Sha256.
Proof.
  refine {| hexdigest := sample_hexdigest |}. intros s. unfold is_scope_digest, sample_hexdigest.
  destruct (hex_digits_form 64 (text_code s)) as [Hl ->]. rewrite andb_true_r.
  by apply bool_decide_eq_true_2.
Defined.

#[local] Existing Instance sample_sha256.

Definition sample_scope : RuntimeScope :=
  {| tenant := "acme"; application := "orders"; environment := "production" |}.

Lemma scoped_identity_exact_witness :
  let v := match scoped_identity "workflow" sample_scope ["orders"; "42"] with Ok v => v | Raise _ => "" end in
  (false = true <-> "workflow" = "workflow" /\ digest sample_scope = digest LOCAL_RUNTIME_SCOPE).
Proof.
  intros v.
  refine (proj1 (scoped_identity_exact "workflow" sample_scope ["orders"; "42"] v _)
    "workflow" LOCAL_RUNTIME_SCOPE false _); vm_compute; reflexivity.
Defined.
