(* ===== verification/Messages.v ===== *)
(** The contracts of asynchronous messages ([sdk/message_contract.py]): the envelopes with
    the bounds of their fields and their validators, the identities of workflows and step
    invocations, and the payloads of the two signals. *)

From S2P Require Export Data Scope.

(** ** Bounds of fields *)

Definition PROTOCOL_VERSION : string := "1".
Definition STEP_RESPONSE_SIGNAL : string := "step_response".
Definition WORKFLOW_EVENT_SIGNAL : string := "workflow_event".
Definition MAX_IDENTIFIER_LENGTH : nat := 256.
Definition MAX_ACTION_LENGTH : nat := 512.
Definition DEFINITION_DIGEST_LENGTH : nat := 64.

(** [Field(min_length=low, max_length=high)] *)
Definition text_between (low high : nat) (s : string) : bool :=
  (low <=? String.length s)%nat && (String.length s <=? high)%nat.

Definition identifier_field (s : string) : bool := text_between 1 MAX_IDENTIFIER_LENGTH s.
Definition action_field (s : string) : bool := text_between 1 MAX_ACTION_LENGTH s.

Definition optional_field (field : string -> bool) (s : option string) : bool :=
  match s with Some s => field s | None => true end.

(** ** Envelopes *)

(** [CommonEnvelope] *)
Record CommonEnvelope := {
  ce_message_id : string;
  ce_workflow_name : string;
  ce_definition_digest : string;
  ce_workflow_id : string;
  ce_correlation_id : string;
  ce_causation_id : option string;
  ce_trace_id : option string;
  ce_scope_digest : option string;
}.

Definition CommonEnvelope_fields (c : CommonEnvelope) : bool :=
  identifier_field (ce_message_id c)
  && identifier_field (ce_workflow_name c)
  && text_between DEFINITION_DIGEST_LENGTH DEFINITION_DIGEST_LENGTH (ce_definition_digest c)
  && identifier_field (ce_workflow_id c)
  && identifier_field (ce_correlation_id c)
  && optional_field identifier_field (ce_causation_id c)
  && optional_field identifier_field (ce_trace_id c)
  && optional_field is_scope_digest (ce_scope_digest c).

Record TriggerEnvelope := {
  te_common : CommonEnvelope;
  te_business_request_id : string;
  te_input : list (string * json);
}.

Record StepRequestEnvelope := {
  sq_common : CommonEnvelope;
  sq_workflow_run_id : string;
  sq_step_invocation_id : string;
  sq_step_name : string;
  sq_action : string;
  sq_input : json;
  sq_globals : list (string * json);
  sq_reply_destination : string;
}.

(** [StepResponseBody] *)
Inductive StepResponseBody :=
| StepSuccessBody (output : json)
| StepErrorBody (code message : string) (retryable : bool).

Definition StepResponseBody_fields (b : StepResponseBody) : bool :=
  match b with
  | StepSuccessBody _ => true
  | StepErrorBody code message _ => identifier_field code && action_field message
  end.

Record StepResponseEnvelope := {
  sr_common : CommonEnvelope;
  sr_workflow_run_id : string;
  sr_in_reply_to : string;
  sr_step_invocation_id : string;
  sr_step_name : string;
  sr_action : string;
  sr_body : StepResponseBody;
}.

Record EventEnvelope := {
  ee_common : CommonEnvelope;
  ee_workflow_run_id : string;
  ee_event_name : string;
  ee_payload : json;
}.

(** [AsyncEnvelope]; the constructor is the value of [kind]. *)
Inductive AsyncEnvelope :=
| TriggerMessage (e : TriggerEnvelope)
| StepRequestMessage (e : StepRequestEnvelope)
| StepResponseMessage (e : StepResponseEnvelope)
| EventMessage (e : EventEnvelope).

(** [MessageKind.value] *)
Definition message_kind (e : AsyncEnvelope) : string :=
  match e with
  | TriggerMessage _ => "trigger"
  | StepRequestMessage _ => "step_request"
  | StepResponseMessage _ => "step_response"
  | EventMessage _ => "event"
  end.

Definition envelope_common (e : AsyncEnvelope) : CommonEnvelope :=
  match e with
  | TriggerMessage e => te_common e
  | StepRequestMessage e => sq_common e
  | StepResponseMessage e => sr_common e
  | EventMessage e => ee_common e
  end.

Definition envelope_fields (e : AsyncEnvelope) : bool :=
  CommonEnvelope_fields (envelope_common e) &&
  match e with
  | TriggerMessage e => identifier_field (te_business_request_id e)
  | StepRequestMessage e =>
      identifier_field (sq_workflow_run_id e) && identifier_field (sq_step_invocation_id e)
      && identifier_field (sq_step_name e) && action_field (sq_action e)
      && identifier_field (sq_reply_destination e)
  | StepResponseMessage e =>
      identifier_field (sr_workflow_run_id e) && identifier_field (sr_in_reply_to e)
      && identifier_field (sr_step_invocation_id e) && identifier_field (sr_step_name e)
      && action_field (sr_action e) && StepResponseBody_fields (sr_body e)
  | EventMessage e => identifier_field (ee_workflow_run_id e) && identifier_field (ee_event_name e)
  end.

(** ** Identities and validators *)

Section identities.
Context `{Sha256}.

(** [_stable_identity] *)
Definition stable_identity (parts : list string) : string := hexdigest (dumps_strings parts).

Definition make_workflow_id (workflow_name business_request_id : string) (scope : option RuntimeScope)
  : res string :=
  match scope with
  | None => Ok (stable_identity ["workflow"; workflow_name; business_request_id])
  | Some scope => scoped_identity "workflow" scope [workflow_name; business_request_id]
  end.

Definition make_trigger_message_id (workflow_name definition_digest business_request_id : string)
    (scope : option RuntimeScope) : res string :=
  match scope with
  | None => Ok (stable_identity ["trigger"; workflow_name; definition_digest; business_request_id])
  | Some scope => scoped_identity "trigger" scope [workflow_name; definition_digest; business_request_id]
  end.

Definition make_step_invocation_id (workflow_id workflow_run_id step_name : string) : string :=
  stable_identity ["step"; workflow_id; workflow_run_id; step_name].

Definition make_step_request_message_id (step_invocation_id : string) : string :=
  stable_identity ["step_request"; step_invocation_id].

(** [TriggerEnvelope.validate_workflow_identity] *)
Definition validate_workflow_identity (e : TriggerEnvelope) : res unit :=
  expected ←
    match ce_scope_digest (te_common e) with
    | None =>
        Ok (stable_identity ["workflow"; ce_workflow_name (te_common e); te_business_request_id e])
    | Some scope_digest =>
        scoped_identity_from_digest "workflow" scope_digest
          [ce_workflow_name (te_common e); te_business_request_id e]
    end;
  if bool_decide (ce_workflow_id (te_common e) = expected) then Ok tt
  else raise ValueError "workflow_id does not match workflow and business request identity".

(** [StepRequestEnvelope.validate_step_identity] *)
Definition validate_step_identity (e : StepRequestEnvelope) : res unit :=
  let expected_invocation_id :=
    make_step_invocation_id (ce_workflow_id (sq_common e)) (sq_workflow_run_id e) (sq_step_name e) in
  if negb (bool_decide (sq_step_invocation_id e = expected_invocation_id))
  then raise ValueError "step_invocation_id does not match its workflow execution"
  else if negb (bool_decide (ce_message_id (sq_common e) = make_step_request_message_id expected_invocation_id))
  then raise ValueError "message_id does not match its step invocation"
  else Ok tt.

(** [StepResponseEnvelope.validate_reply_identity] *)
Definition validate_reply_identity (e : StepResponseEnvelope) : res unit :=
  let expected_invocation_id :=
    make_step_invocation_id (ce_workflow_id (sr_common e)) (sr_workflow_run_id e) (sr_step_name e) in
  if negb (bool_decide (sr_step_invocation_id e = expected_invocation_id))
  then raise ValueError "step_invocation_id does not match its workflow execution"
  else if negb (bool_decide (sr_in_reply_to e = make_step_request_message_id expected_invocation_id))
  then raise ValueError "in_reply_to does not match the step invocation"
  else if negb (bool_decide (ce_causation_id (sr_common e) = Some (sr_in_reply_to e)))
  then raise ValueError "causation_id must identify the step request"
  else Ok tt.

(** What pydantic accepts as an envelope: bounded fields and a validator that returns. *)
Definition valid_envelope (e : AsyncEnvelope) : bool :=
  envelope_fields e &&
  match e with
  | TriggerMessage e => is_ok (validate_workflow_identity e)
  | StepRequestMessage e => is_ok (validate_step_identity e)
  | StepResponseMessage e => is_ok (validate_reply_identity e)
  | EventMessage _ => true
  end.
End identities.

(** ** Payloads of signals *)

Definition make_signal_key (request_id step_name action : string) : string :=
  request_id +:+ ":" +:+ step_name +:+ ":" +:+ action.

(** [SignalPayload(...).model_dump(mode="json")] *)
Definition SignalPayload_dump (request_id step_name action status : string) (step_response : json)
    (error : option (list (string * json))) : json :=
  JDict [("request_id", JStr request_id); ("step_name", JStr step_name); ("action", JStr action);
         ("status", JStr status); ("step_response", step_response);
         ("error", match error with Some d => JDict d | None => JNull end)].

(** [EventPayload(...).model_dump(mode="json")] *)
Definition EventPayload_dump (signal : string) (data : json) : json :=
  JDict [("signal", JStr signal); ("data", data)].
