(* ===== verification/Deduplication.v ===== *)
(** Duplicate detection of deliveries ([engine/deduplication.py]), its abstract ledger
    and the refinement of the ledger by the store.  Each method of the store runs under
    its lock and awaits nothing inside, so a history is a sequence of whole operations. *)

From stdpp Require Export gmap.
From S2P Require Export Floats.

(** ** The store *)

(** [DuplicateState] *)
Inductive DuplicateState := IN_FLIGHT | COMPLETED | CAPACITY_EXHAUSTED.

#[export] Instance DuplicateState_eq_dec : EqDecision DuplicateState.
Proof. solve_decision. Defined.

(** [DeliveryClaim]: claims are compared with [is], so a claim carries the identity of
    the object. *)
Record DeliveryClaim := {
  claim_object : nat;
  claim_message_id : string;
}.

#[export] Instance DeliveryClaim_eq_dec : EqDecision DeliveryClaim.
Proof. solve_decision. Defined.

(** [BoundedDeduplicationStore]; [bds_allocated] counts the claim objects created, so
    that a new one differs from all that exist. *)
Record BoundedDeduplicationStore := {
  bds_capacity : Z;
  bds_retention_seconds : num;
  bds_entries : list (string * spec_float);
  bds_pending : list (string * DeliveryClaim);
  bds_allocated : nat;
}.

Definition set_entries (v : list (string * spec_float)) (s : BoundedDeduplicationStore)
  : BoundedDeduplicationStore :=
  {| bds_capacity := bds_capacity s; bds_retention_seconds := bds_retention_seconds s;
     bds_entries := v; bds_pending := bds_pending s; bds_allocated := bds_allocated s |}.

Definition set_pending (v : list (string * DeliveryClaim)) (s : BoundedDeduplicationStore)
  : BoundedDeduplicationStore :=
  {| bds_capacity := bds_capacity s; bds_retention_seconds := bds_retention_seconds s;
     bds_entries := bds_entries s; bds_pending := v; bds_allocated := bds_allocated s |}.

(** [isinstance(r, bool) or not isinstance(r, (int, float)) or not math.isfinite(r)
    or r <= 0], where [math.isfinite] converts an integer to a float. *)
Definition retention_number (r : raw) : res (option num) :=
  match r with
  | RInt z => _ ← int_to_float z; Ok (if (z <=? 0)%Z then None else Some (NInt z))
  | RFloat f =>
      Ok (if negb (isfinite f) || float_le f (float_of_Z 0) then None else Some (NFloat f))
  | _ => Ok None
  end.

(** [BoundedDeduplicationStore.__init__] *)
Definition new_store (capacity : Z) (retention_seconds : raw) : res BoundedDeduplicationStore :=
  _ ← guard_or (1 <=? capacity)%Z
        (Exn ValueError "Deduplication capacity must be positive" None);
  r ← retention_number retention_seconds;
  retention ← from_option r
    (Exn ValueError "Deduplication retention must be finite positive seconds" None);
  Ok {| bds_capacity := capacity; bds_retention_seconds := retention;
        bds_entries := []; bds_pending := []; bds_allocated := 0 |}.

Definition expired_ids (now : spec_float) (entries : list (string * spec_float)) : list string :=
  (filter (fun kv => float_le kv.2 now = true) entries).*1.

(** [_expire] *)
Definition expire (now : spec_float) (s : BoundedDeduplicationStore) : BoundedDeduplicationStore :=
  set_entries (fold_left (fun d k => dict_del k d) (expired_ids now (bds_entries s)) (bds_entries s)) s.

(** [while len(entries) + len(pending) >= capacity: entries.popitem(last=False)] *)
Fixpoint evict (capacity : Z) (pending : nat) (entries : list (string * spec_float))
  : res (list (string * spec_float)) :=
  if (capacity <=? Z.of_nat (length entries + pending))%Z then
    match entries with
    | [] => raise KeyError "'dictionary is empty'"
    | _ :: entries => evict capacity pending entries
    end
  else Ok entries.

(** [claim], with the reading of the clock. *)
Definition claim (message_id : string) (now : spec_float) (s : BoundedDeduplicationStore)
  : res (DeliveryClaim + DuplicateState) * BoundedDeduplicationStore :=
  let s := expire now s in
  if dict_mem message_id (bds_entries s) then (Ok (inr COMPLETED), s)
  else if dict_mem message_id (bds_pending s) then (Ok (inr IN_FLIGHT), s)
  else if (bds_capacity s <=? Z.of_nat (length (bds_pending s)))%Z
  then (Ok (inr CAPACITY_EXHAUSTED), s)
  else
    match evict (bds_capacity s) (length (bds_pending s)) (bds_entries s) with
    | Raise e => (Raise e, set_entries [] s)
    | Ok entries =>
        let c := {| claim_object := bds_allocated s; claim_message_id := message_id |} in
        (Ok (inl c),
         {| bds_capacity := bds_capacity s; bds_retention_seconds := bds_retention_seconds s;
            bds_entries := entries; bds_pending := dict_set message_id c (bds_pending s);
            bds_allocated := S (bds_allocated s) |})
    end.

(** [self._pending.get(claim.message_id) is claim] *)
Definition holds (c : DeliveryClaim) (s : BoundedDeduplicationStore) : bool :=
  match dict_get (claim_message_id c) (bds_pending s) with
  | Some c' => bool_decide (claim_object c' = claim_object c)
  | None => false
  end.

(** [self._clock() + self._retention_seconds]: the interpreter converts an integer. *)
Definition expiry (now : spec_float) (retention_seconds : num) : res spec_float :=
  r ← num_to_float retention_seconds; Ok (float_add now r).

(** [complete], with the reading of the clock. *)
Definition complete (c : DeliveryClaim) (now : spec_float) (s : BoundedDeduplicationStore)
  : res unit * BoundedDeduplicationStore :=
  if holds c s then
    let s := set_pending (dict_del (claim_message_id c) (bds_pending s)) s in
    match expiry now (bds_retention_seconds s) with
    | Raise e => (Raise e, s)
    | Ok expires_at =>
        (Ok tt, set_entries (dict_set (claim_message_id c) expires_at (bds_entries s)) s)
    end
  else (Ok tt, s).

(** [release] *)
Definition release (c : DeliveryClaim) (s : BoundedDeduplicationStore) : BoundedDeduplicationStore :=
  if holds c s then set_pending (dict_del (claim_message_id c) (bds_pending s)) s else s.

(** [clear] *)
Definition clear (s : BoundedDeduplicationStore) : BoundedDeduplicationStore :=
  set_pending [] (set_entries [] s).

(** ** Histories *)

Inductive operation :=
| OpClaim (message_id : string) (now : spec_float)
| OpComplete (c : DeliveryClaim) (now : spec_float)
| OpRelease (c : DeliveryClaim)
| OpClear.

Inductive answer :=
| AClaim (a : DeliveryClaim + DuplicateState)
| ANone
| ARaised (e : exn).

Definition answer_of {A} (f : A -> answer) (r : res A) : answer :=
  match r with Ok a => f a | Raise e => ARaised e end.

(** A call of a method of the store. *)
Definition perform (o : operation) (s : BoundedDeduplicationStore) : answer * BoundedDeduplicationStore :=
  match o with
  | OpClaim m now => let '(r, s') := claim m now s in (answer_of AClaim r, s')
  | OpComplete c now => let '(r, s') := complete c now s in (answer_of (fun _ => ANone) r, s')
  | OpRelease c => (ANone, release c s)
  | OpClear => (ANone, clear s)
  end.

Fixpoint perform_all (os : list operation) (s : BoundedDeduplicationStore)
  : list answer * BoundedDeduplicationStore :=
  match os with
  | [] => ([], s)
  | o :: os =>
      let '(a, s1) := perform o s in
      let '(l, s2) := perform_all os s1 in
      (a :: l, s2)
  end.

(** ** What the store promises: a ledger of deliveries

    A delivery is in flight under one claim, or remembered as completed until its
    retention ends.  The ledger says which answers are allowed; it leaves open which
    completed deliveries are forgotten when room is needed. *)

Inductive phase :=
| InFlight (claim_object : nat)
| Remembered (expires_at : spec_float).

Abbreviation ledger := (gmap string phase).

Definition is_in_flight (p : phase) : bool := match p with InFlight _ => true | _ => false end.

Definition unexpired (now : spec_float) (p : phase) : bool :=
  match p with InFlight _ => true | Remembered e => negb (float_le e now) end.

Definition forget_expired (now : spec_float) (L : ledger) : ledger :=
  filter (fun kv => unexpired now kv.2 = true) L.

Definition in_flight (L : ledger) : nat := size (filter (fun kv => is_in_flight kv.2 = true) L).

(** Room is made for one delivery by forgetting completed ones, and no more of them
    than the capacity demands. *)
Definition make_room (capacity : Z) (L K : ledger) : Prop :=
  K ⊆ L /\
  (forall k p, L !! k = Some p -> K !! k = None -> is_in_flight p = false) /\
  Z.of_nat (size K) = Z.min (Z.of_nat (size L)) (capacity - 1).

Inductive ledger_step (capacity : Z) (retention : num) : ledger -> operation -> answer -> ledger -> Prop :=
| ledger_completed L m now e :
    forget_expired now L !! m = Some (Remembered e) ->
    ledger_step capacity retention L (OpClaim m now) (AClaim (inr COMPLETED)) (forget_expired now L)
| ledger_in_flight L m now o :
    forget_expired now L !! m = Some (InFlight o) ->
    ledger_step capacity retention L (OpClaim m now) (AClaim (inr IN_FLIGHT)) (forget_expired now L)
| ledger_exhausted L m now :
    forget_expired now L !! m = None ->
    (capacity <= Z.of_nat (in_flight (forget_expired now L)))%Z ->
    ledger_step capacity retention L (OpClaim m now) (AClaim (inr CAPACITY_EXHAUSTED))
      (forget_expired now L)
| ledger_granted L K m now c :
    forget_expired now L !! m = None ->
    (Z.of_nat (in_flight (forget_expired now L)) < capacity)%Z ->
    make_room capacity (forget_expired now L) K ->
    claim_message_id c = m ->
    (forall k, L !! k <> Some (InFlight (claim_object c))) ->
    ledger_step capacity retention L (OpClaim m now) (AClaim (inl c)) (<[m := InFlight (claim_object c)]> K)
| ledger_settled L c now e :
    L !! claim_message_id c = Some (InFlight (claim_object c)) ->
    expiry now retention = Ok e ->
    ledger_step capacity retention L (OpComplete c now) ANone (<[claim_message_id c := Remembered e]> L)
| ledger_stale_completion L c now :
    L !! claim_message_id c <> Some (InFlight (claim_object c)) ->
    ledger_step capacity retention L (OpComplete c now) ANone L
| ledger_released L c :
    L !! claim_message_id c = Some (InFlight (claim_object c)) ->
    ledger_step capacity retention L (OpRelease c) ANone (delete (claim_message_id c) L)
| ledger_stale_release L c :
    L !! claim_message_id c <> Some (InFlight (claim_object c)) ->
    ledger_step capacity retention L (OpRelease c) ANone L
| ledger_cleared L : ledger_step capacity retention L OpClear ANone ∅.

Inductive ledger_history (capacity : Z) (retention : num)
  : ledger -> list operation -> list answer -> ledger -> Prop :=
| history_nil L : ledger_history capacity retention L [] [] L
| history_cons L o a L' os l L'' :
    ledger_step capacity retention L o a L' ->
    ledger_history capacity retention L' os l L'' ->
    ledger_history capacity retention L (o :: os) (a :: l) L''.

(** One for a claim that is granted. *)
Definition granted (a : answer) : nat := match a with AClaim (inl _) => 1 | _ => 0 end.

(** An operation after which a completed delivery that expires at [e] may still be
    known: no [clear], and no claim at a time at which it has expired. *)
Definition keeps_until (e : spec_float) (o : operation) : bool :=
  match o with OpClear => false | OpClaim _ now => negb (float_le e now) | _ => true end.

(** The ledger that a store stands for. *)
Definition rows (s : BoundedDeduplicationStore) : list (string * phase) :=
  (prod_map id Remembered <$> bds_entries s) ++
  (prod_map id (fun c => InFlight (claim_object c)) <$> bds_pending s).

Definition ledger_of (s : BoundedDeduplicationStore) : ledger := list_to_map (rows s).

(** What every reachable store satisfies. *)
Record store_wf (s : BoundedDeduplicationStore) : Prop := {
  wf_capacity : (1 <= bds_capacity s)%Z;
  wf_retention : is_ok (num_to_float (bds_retention_seconds s)) = true;
  wf_keys : NoDup (dict_keys (bds_entries s) ++ dict_keys (bds_pending s));
  wf_size : (Z.of_nat (length (bds_entries s) + length (bds_pending s)) <= bds_capacity s)%Z;
  wf_claims : Forall (fun kv => claim_message_id kv.2 = kv.1) (bds_pending s);
  wf_allocated : Forall (fun kv => (claim_object kv.2 < bds_allocated s)%nat) (bds_pending s);
}.
