(* ===== verification/DeduplicationFacts.v ===== *)
(** The store of deliveries refines its ledger, and what follows for histories: a
    delivery in flight is handed out once, and a completed one stays known. *)

From S2P Require Export Deduplication.

(** ** Lists of rows and the ledgers they stand for *)

Lemma list_to_map_filter {A} (P : string * A -> Prop) `{!forall x, Decision (P x)} (l : list (string * A)) :
  NoDup l.*1 -> filter P (list_to_map l : gmap string A) = list_to_map (filter P l).
Proof.
  induction l as [|[k v] l IH]; [intros _; apply map_filter_empty|].
  rewrite fmap_cons, list.NoDup_cons. intros [Hk Hnd]. cbn [fst] in Hk. cbn [list_to_map foldr uncurry fst snd].
  pose proof (not_elem_of_list_to_map_1 (M := gmap string) l k Hk) as Hnone.
  destruct (decide (P (k, v))) as [HP|HP].
  - rewrite map_filter_insert_True by done. rewrite filter_cons_True by done.
    fold (list_to_map (M := gmap string A) l). by rewrite (IH Hnd).
  - rewrite map_filter_insert_False by done. rewrite filter_cons_False by done.
    fold (list_to_map (M := gmap string A) l). rewrite delete_id by done. by rewrite (IH Hnd).
Qed.

Lemma rows_keys s : (rows s).*1 = dict_keys (bds_entries s) ++ dict_keys (bds_pending s).
Proof. unfold rows, dict_keys. rewrite fmap_app, <- !list_fmap_compose. done. Qed.

Section of_wf.
Context (s : BoundedDeduplicationStore) (Hwf : store_wf s).

Lemma rows_nodup : NoDup (rows s).*1.
Proof. rewrite rows_keys. apply Hwf. Qed.

Lemma ledger_lookup k p : ledger_of s !! k = Some p <-> (k, p) ∈ rows s.
Proof. symmetry. apply elem_of_list_to_map, rows_nodup. Qed.

Lemma entries_wf : dict_wf (bds_entries s).
Proof. destruct Hwf as [_ _ Hk _ _ _]. apply list.NoDup_app in Hk as (? & _ & _). done. Qed.

Lemma pending_wf : dict_wf (bds_pending s).
Proof. destruct Hwf as [_ _ Hk _ _ _]. apply list.NoDup_app in Hk as (_ & _ & ?). done. Qed.

Lemma ledger_entry k e : dict_get k (bds_entries s) = Some e -> ledger_of s !! k = Some (Remembered e).
Proof.
  intros H%dict_get_elem. apply ledger_lookup. unfold rows. apply elem_of_app; left.
  by apply (list_elem_of_fmap_2 (prod_map id Remembered) _ (k, e)).
Qed.

Lemma ledger_pending k c :
  dict_get k (bds_pending s) = Some c -> ledger_of s !! k = Some (InFlight (claim_object c)).
Proof.
  intros H%dict_get_elem. apply ledger_lookup. unfold rows. apply elem_of_app; right.
  by apply (list_elem_of_fmap_2 (prod_map id (fun c => InFlight (claim_object c))) _ (k, c)).
Qed.

Lemma ledger_unknown k :
  dict_get k (bds_entries s) = None -> dict_get k (bds_pending s) = None -> ledger_of s !! k = None.
Proof.
  intros He%dict_get_None Hp%dict_get_None. apply not_elem_of_list_to_map_1.
  rewrite rows_keys, elem_of_app. tauto.
Qed.

(** A claim is in flight in the ledger exactly when its object is the pending one. *)
Lemma ledger_holds c :
  holds c s = true <-> ledger_of s !! claim_message_id c = Some (InFlight (claim_object c)).
Proof.
  unfold holds. destruct (dict_get _ (bds_pending s)) as [c'|] eqn:Hc.
  - rewrite (ledger_pending _ _ Hc), bool_decide_eq_true. split; [by intros -> | by intros [= ->]].
  - split; [done|]. destruct (dict_get (claim_message_id c) (bds_entries s)) as [e|] eqn:He.
    + by rewrite (ledger_entry _ _ He).
    + by rewrite (ledger_unknown _ He Hc).
Qed.

Lemma ledger_holds_false c :
  holds c s = false <-> ledger_of s !! claim_message_id c <> Some (InFlight (claim_object c)).
Proof. rewrite <- ledger_holds. by rewrite not_true_iff_false. Qed.

Lemma ledger_size : size (ledger_of s) = (length (bds_entries s) + length (bds_pending s))%nat.
Proof.
  unfold ledger_of. rewrite map_size_list_to_map by apply rows_nodup.
  unfold rows. by rewrite length_app, !length_fmap.
Qed.

Lemma ledger_in_flight_size : in_flight (ledger_of s) = length (bds_pending s).
Proof.
  unfold in_flight, ledger_of. rewrite list_to_map_filter by apply rows_nodup.
  rewrite map_size_list_to_map.
  - unfold rows. rewrite filter_app, length_app.
    assert (forall l : list (string * spec_float),
      filter (fun kv => is_in_flight kv.2 = true) (prod_map id Remembered <$> l) = []) as ->.
    { induction l as [|[k e] l IH]; [done|]. rewrite fmap_cons, filter_cons_False by done. done. }
    rewrite filter_all; [by rewrite length_fmap|].
    apply Forall_fmap, Forall_forall. done.
  - eapply sublist_NoDup; [apply rows_nodup | apply fmap_sublist, sublist_filter].
Qed.
End of_wf.

(** ** Each method keeps the store well formed and is a step of the ledger *)

Lemma expire_spec now s :
  store_wf s -> expire now s = set_entries (filter (fun kv => float_le kv.2 now = false) (bds_entries s)) s.
Proof.
  intros Hwf. unfold expire. f_equal. rewrite dict_del_all_filter by by apply entries_wf.
  unfold expired_ids. pose proof (entries_wf s Hwf) as Hnd.
  assert (forall l, l ⊆ bds_entries s ->
    filter (fun kv => kv.1 ∉ (filter (fun kv => float_le kv.2 now = true) (bds_entries s)).*1) l
    = filter (fun kv => float_le kv.2 now = false) l) as Hgen; [|by apply Hgen].
  induction l as [|[k e] l IH]; intros Hsub; [done|].
  assert ((k, e) ∈ bds_entries s) as Hin by (apply Hsub; left).
  assert (k ∈ (filter (fun kv => float_le kv.2 now = true) (bds_entries s)).*1
          <-> float_le e now = true) as Hk.
  { rewrite list_elem_of_fmap. split.
    - intros ([k' e'] & -> & [Hle Hin']%list_elem_of_filter). cbn [fst snd] in *.
      apply (elem_dict_get _ _ _ Hnd) in Hin, Hin'. congruence.
    - intros Hle. exists (k, e). split; [done|]. by apply list_elem_of_filter. }
  assert (l ⊆ bds_entries s) as Hl by (intros x Hx; apply Hsub; by right).
  specialize (IH Hl). destruct (float_le e now) eqn:Hle.
  - rewrite filter_cons_False by (cbn [fst]; tauto). rewrite filter_cons_False by (cbn [snd]; congruence).
    done.
  - rewrite filter_cons_True by (cbn [fst]; intros ?%Hk; done).
    rewrite filter_cons_True by done. by rewrite IH.
Qed.

(** Dropping entries by a sublist keeps a store well formed. *)
Lemma set_entries_wf s es :
  store_wf s -> es `sublist_of` bds_entries s -> store_wf (set_entries es s).
Proof.
  intros [Hc Hr Hk Hs Hcl Ha] Hsub. constructor; cbn; try done.
  - eapply sublist_NoDup; [exact Hk|]. unfold dict_keys. apply sublist_app; [by apply fmap_sublist | done].
  - apply sublist_length in Hsub. lia.
Qed.

Lemma expire_wf now s : store_wf s -> store_wf (expire now s).
Proof. intros Hwf. rewrite expire_spec by done. apply set_entries_wf; [done | apply sublist_filter]. Qed.

Lemma ledger_expire now s :
  store_wf s -> ledger_of (expire now s) = forget_expired now (ledger_of s).
Proof.
  intros Hwf. unfold forget_expired, ledger_of. rewrite list_to_map_filter by by apply rows_nodup.
  rewrite expire_spec by done. f_equal. unfold rows; cbn. rewrite filter_app. f_equal.
  - induction (bds_entries s) as [|[k e] l IH]; [done|]. rewrite fmap_cons.
    destruct (float_le e now) eqn:Hle.
    + rewrite filter_cons_False by (cbn; congruence). rewrite filter_cons_False by (cbn; rewrite Hle; done).
      done.
    + rewrite filter_cons_True by done. rewrite filter_cons_True by (cbn; rewrite Hle; done).
      rewrite fmap_cons. by rewrite IH.
  - symmetry. apply filter_all. apply Forall_fmap, Forall_forall. done.
Qed.

Lemma evict_spec capacity pending es :
  (Z.of_nat pending < capacity)%Z ->
  exists n, evict capacity pending es = Ok (drop n es) /\
    Z.of_nat (length (drop n es)) = Z.min (Z.of_nat (length es)) (capacity - 1 - Z.of_nat pending).
Proof.
  intros Hlt. induction es as [|kv es IH].
  - exists 0%nat. cbn. rewrite (proj2 (Z.leb_gt _ _)) by lia. split; [done | lia].
  - cbn [evict]. destruct (Z.leb_spec capacity (Z.of_nat (length (kv :: es) + pending))) as [Hle|Hgt].
    + destruct IH as (n & He & Hlen). exists (S n). cbn in *. split; [done|]. rewrite Hlen. lia.
    + exists 0%nat. split; [done|]. rewrite drop_0. cbn in *. lia.
Qed.

(** The pending row of a granted claim. *)
Lemma grant_wf s m n :
  store_wf s -> dict_get m (bds_entries s) = None -> dict_get m (bds_pending s) = None ->
  (Z.of_nat (length (drop n (bds_entries s)) + length (bds_pending s)) < bds_capacity s)%Z ->
  store_wf {| bds_capacity := bds_capacity s; bds_retention_seconds := bds_retention_seconds s;
              bds_entries := drop n (bds_entries s);
              bds_pending := dict_set m {| claim_object := bds_allocated s; claim_message_id := m |}
                               (bds_pending s);
              bds_allocated := S (bds_allocated s) |}.
Proof.
  intros Hwf He%dict_get_None Hp%dict_get_None Hlen.
  pose proof (set_entries_wf s _ Hwf (sublist_drop (bds_entries s) n)) as [Hc Hr Hk Hs Hcl Ha].
  cbn in Hc, Hr, Hk, Hs, Hcl, Ha. rewrite dict_set_new by done. constructor; cbn.
  - done.
  - done.
  - unfold dict_keys in *. rewrite fmap_app, app_assoc. apply list.NoDup_app. split_and!; [done| |apply NoDup_singleton].
    intros x Hx ->%list_elem_of_singleton. apply elem_of_app in Hx as [Hx|Hx]; [|done].
    apply He. eapply sublist_subseteq; [|exact Hx]. apply fmap_sublist, sublist_drop.
  - rewrite length_app; cbn. lia.
  - apply Forall_app. split; [done | by repeat constructor].
  - apply Forall_app. split; [|repeat constructor; cbn; lia].
    eapply Forall_impl; [exact Ha|]. cbn. lia.
Qed.

Lemma ledger_grant s m n :
  store_wf s -> dict_get m (bds_entries s) = None -> dict_get m (bds_pending s) = None ->
  ledger_of {| bds_capacity := bds_capacity s; bds_retention_seconds := bds_retention_seconds s;
               bds_entries := drop n (bds_entries s);
               bds_pending := dict_set m {| claim_object := bds_allocated s; claim_message_id := m |}
                                (bds_pending s);
               bds_allocated := S (bds_allocated s) |}
  = <[m := InFlight (bds_allocated s)]> (ledger_of (set_entries (drop n (bds_entries s)) s)).
Proof.
  intros Hwf He%dict_get_None Hp%dict_get_None. unfold ledger_of, rows; cbn.
  rewrite dict_set_new by done. rewrite fmap_app, app_assoc. apply list_to_map_snoc.
  rewrite fmap_app, <- !list_fmap_compose, elem_of_app. intros [Hx|Hx]; [|done].
  apply He. eapply sublist_subseteq; [|exact Hx]. apply fmap_sublist, sublist_drop.
Qed.

Lemma make_room_drop s n :
  store_wf s ->
  Z.of_nat (length (drop n (bds_entries s)))
    = Z.min (Z.of_nat (length (bds_entries s))) (bds_capacity s - 1 - Z.of_nat (length (bds_pending s))) ->
  make_room (bds_capacity s) (ledger_of s) (ledger_of (set_entries (drop n (bds_entries s)) s)).
Proof.
  intros Hwf Hlen. set (s' := set_entries _ s).
  assert (store_wf s') as Hwf' by (apply set_entries_wf; [done | apply sublist_drop]).
  split_and!.
  - apply map_subseteq_spec. intros k p. rewrite !ledger_lookup by done.
    unfold rows; cbn. rewrite !elem_of_app. intros [Hin|Hin]; [left|by right].
    eapply sublist_subseteq; [|exact Hin]. apply fmap_sublist, sublist_drop.
  - intros k p Hk Hnone. apply (ledger_lookup s Hwf) in Hk. unfold rows in Hk.
    apply elem_of_app in Hk as [Hin|Hin].
    + apply list_elem_of_fmap in Hin as ([k' e] & [= -> ->] & _). done.
    + assert (ledger_of s' !! k = Some p) as Hs'; [|congruence].
      apply ledger_lookup; [done|]. unfold rows; cbn. apply elem_of_app. by right.
  - rewrite !ledger_size by done. cbn. lia.
Qed.

Lemma claim_refines m now s :
  store_wf s ->
  let '(a, s') := perform (OpClaim m now) s in
  ledger_step (bds_capacity s) (bds_retention_seconds s) (ledger_of s) (OpClaim m now) a (ledger_of s') /\
  store_wf s'.
Proof.
  intros Hwf. unfold perform, claim. pose proof (expire_wf now s Hwf) as Hwf1.
  pose proof (ledger_expire now s Hwf) as Hl. set (s1 := expire now s) in *.
  assert (bds_capacity s1 = bds_capacity s) as Hcap by done.
  destruct (dict_mem m (bds_entries s1)) eqn:He; cbn [answer_of].
  { apply dict_mem_true in He as [e He]. split; [|done]. rewrite Hl. apply ledger_completed with e.
    rewrite <- Hl. by apply ledger_entry. }
  apply dict_mem_false in He.
  destruct (dict_mem m (bds_pending s1)) eqn:Hp; cbn [answer_of].
  { apply dict_mem_true in Hp as [c Hp]. split; [|done]. rewrite Hl.
    apply ledger_in_flight with (claim_object c). rewrite <- Hl. by apply ledger_pending. }
  apply dict_mem_false in Hp.
  destruct (Z.leb_spec (bds_capacity s1) (Z.of_nat (length (bds_pending s1)))) as [Hfull|Hroom]; cbn [answer_of].
  { split; [|done]. rewrite Hl. apply ledger_exhausted; rewrite <- Hl; [by apply ledger_unknown|].
    rewrite ledger_in_flight_size by done. by rewrite <- Hcap. }
  destruct (evict_spec (bds_capacity s1) _ (bds_entries s1) Hroom) as (n & -> & Hlen).
  cbn [answer_of]. split.
  - rewrite ledger_grant by done. apply (ledger_granted _ _ (ledger_of s)); rewrite <- ?Hl.
    + by apply ledger_unknown.
    + rewrite ledger_in_flight_size by done. by rewrite <- Hcap.
    + rewrite <- Hcap. by apply make_room_drop.
    + done.
    + intros k Hk. apply (ledger_lookup s Hwf) in Hk. unfold rows in Hk.
      apply elem_of_app in Hk as [Hk|Hk]; apply list_elem_of_fmap in Hk as ([k' x] & [= -> Hx] & Hin).
      pose proof (wf_allocated s Hwf) as Ha. rewrite Forall_forall in Ha. apply Ha in Hin; cbn in Hin.
      change (bds_allocated s1) with (bds_allocated s) in Hx. cbn in Hx. lia.
  - apply grant_wf; try done. lia.
Qed.

Lemma held_pending s c :
  holds c s = true -> exists c', dict_get (claim_message_id c) (bds_pending s) = Some c' /\
    claim_object c' = claim_object c.
Proof.
  unfold holds. destruct (dict_get _ _) as [c'|]; [|done].
  intros Hobj%bool_decide_eq_true. eauto.
Qed.

Lemma filter_ne_length {V} k v (d : list (string * V)) :
  dict_wf d -> dict_get k d = Some v -> S (length (filter (fun kv => kv.1 <> k) d)) = length d.
Proof.
  unfold dict_wf, dict_keys. induction d as [|[k' v'] d IH]; [done|].
  rewrite fmap_cons, list.NoDup_cons. intros [Hnot Hnd]. cbn [dict_get fst] in *.
  case_decide as Hk; [subst k'; intros _|intros Hd].
  - rewrite filter_cons_False by (cbn; tauto). cbn. f_equal. rewrite filter_all; [done|].
    apply Forall_forall. intros kv Hkv <-. apply Hnot. by apply list_elem_of_fmap_2.
  - rewrite filter_cons_True by (cbn; congruence). cbn. f_equal. by apply IH.
Qed.

Lemma Forall_of_filter {A} (P Q : A -> Prop) `{!forall x, Decision (P x)} (l : list A) :
  Forall Q l -> Forall Q (filter P l).
Proof. rewrite !Forall_forall. intros HQ x [_ Hx]%list_elem_of_filter. auto. Qed.

(** Taking a held claim out of the store. *)
Lemma drop_pending_wf s c :
  store_wf s -> holds c s = true ->
  let s' := set_pending (dict_del (claim_message_id c) (bds_pending s)) s in
  store_wf s' /\ ledger_of s' = delete (claim_message_id c) (ledger_of s) /\
  S (length (bds_pending s')) = length (bds_pending s).
Proof.
  intros Hwf (c' & Hget & Hobj)%held_pending. cbn zeta.
  pose proof (pending_wf s Hwf) as Hnd. rewrite dict_del_filter by done.
  pose proof (filter_ne_length _ _ _ Hnd Hget) as Hlen.
  set (s' := set_pending _ s).
  assert (store_wf s') as Hwf'.
  { destruct Hwf as [Hc Hr Hk Hs Hcl Ha]. constructor; cbn; try done.
    - eapply sublist_NoDup; [exact Hk|]. apply sublist_app; [done | apply keys_filter_sublist].
    - lia.
    - by apply Forall_of_filter.
    - by apply Forall_of_filter. }
  split_and!; [done| |done].
  apply map_eq. intros k. apply option_eq. intros p. rewrite lookup_delete_Some, !ledger_lookup by done.
  unfold rows; cbn. rewrite !elem_of_app, !list_elem_of_fmap. split.
  - intros [([k' e] & [= -> ->] & Hin)|([k' x] & [= -> ->] & [Hne Hin]%list_elem_of_filter)].
    + split; [|by left; exists (k', e)]. intros <-.
      destruct Hwf as [_ _ Hk _ _ _]. apply list.NoDup_app in Hk as (_ & Hdisj & _).
      apply (Hdisj (claim_message_id c)); [by apply (list_elem_of_fmap_2 fst) in Hin|].
      apply dict_get_Some_keys. by eexists.
    + cbn in Hne. split; [congruence|]. right. by exists (k', x).
  - intros [Hne [?|([k' x] & [= -> ->] & Hin)]]; [by left | right].
    exists (k', x). split; [done|]. apply list_elem_of_filter. cbn. split; [congruence | done].
Qed.

Lemma expiry_ok s now : store_wf s -> exists e, expiry now (bds_retention_seconds s) = Ok e.
Proof.
  intros [_ Hr _ _ _ _]. unfold expiry. destruct (num_to_float _) as [r|]; [|done]. cbn. eauto.
Qed.

Lemma complete_refines c now s :
  store_wf s ->
  let '(a, s') := perform (OpComplete c now) s in
  ledger_step (bds_capacity s) (bds_retention_seconds s) (ledger_of s) (OpComplete c now) a (ledger_of s') /\
  store_wf s'.
Proof.
  intros Hwf. unfold perform, complete. destruct (holds c s) eqn:Hh.
  - destruct (drop_pending_wf s c Hwf Hh) as (Hwf1 & Hl1 & Hlen). set (s1 := set_pending _ s) in *.
    destruct (expiry_ok s now Hwf) as [e He].
    change (bds_retention_seconds s1) with (bds_retention_seconds s). rewrite He. cbn [answer_of].
    assert (ledger_of s1 !! claim_message_id c = None) as Hnone by (rewrite Hl1; apply lookup_delete_eq).
    assert (claim_message_id c ∉ (rows s1).*1) as Hfresh.
    { unfold ledger_of in Hnone. by apply not_elem_of_list_to_map_2 in Hnone. }
    assert ((claim_message_id c ∉ dict_keys (bds_entries s1)) /\
            (claim_message_id c ∉ dict_keys (bds_pending s1)))
      as [Hfe Hfp] by (rewrite rows_keys, elem_of_app in Hfresh; tauto).
    rewrite dict_set_new by done. set (s2 := set_entries _ s1).
    assert (rows s2 ≡ₚ ((claim_message_id c, Remembered e) :: rows s1)) as Hperm.
    { unfold rows; cbn. rewrite fmap_app, <- app_assoc. symmetry. apply Permutation_middle. }
    assert (NoDup (rows s2).*1) as Hnd2.
    { rewrite Hperm. rewrite fmap_cons. constructor; [done | by apply rows_nodup]. }
    split.
    + assert (ledger_of s2 = <[claim_message_id c := Remembered e]> (ledger_of s)) as ->.
      { unfold ledger_of at 1. rewrite (list_to_map_proper _ _ Hnd2 Hperm).
        cbn [list_to_map foldr uncurry fst snd]. fold (list_to_map (M := gmap string phase) (rows s1)).
        fold (ledger_of s1). rewrite Hl1. by rewrite insert_delete_eq. }
      apply ledger_settled; [by apply ledger_holds | done].
    + destruct Hwf1 as [Hc Hr Hk Hs Hcl Ha]. constructor; cbn; try done.
      * rewrite rows_keys in Hnd2. exact Hnd2.
      * rewrite length_app; cbn. pose proof (wf_size s Hwf). cbn in *. lia.
  - split; [|done]. apply ledger_stale_completion. by apply ledger_holds_false.
Qed.

Lemma release_refines c s :
  store_wf s ->
  let '(a, s') := perform (OpRelease c) s in
  ledger_step (bds_capacity s) (bds_retention_seconds s) (ledger_of s) (OpRelease c) a (ledger_of s') /\
  store_wf s'.
Proof.
  intros Hwf. unfold perform, release. destruct (holds c s) eqn:Hh.
  - destruct (drop_pending_wf s c Hwf Hh) as (Hwf1 & Hl1 & Hlen). split; [|done].
    rewrite Hl1. apply ledger_released. by apply ledger_holds.
  - split; [|done]. apply ledger_stale_release. by apply ledger_holds_false.
Qed.

Lemma clear_refines s :
  store_wf s ->
  ledger_step (bds_capacity s) (bds_retention_seconds s) (ledger_of s) OpClear ANone (ledger_of (clear s)) /\
  store_wf (clear s).
Proof.
  intros [Hc Hr Hk Hs Hcl Ha]. split; [apply ledger_cleared|].
  constructor; cbn; try done; [constructor | lia].
Qed.

Lemma perform_frame o s :
  bds_capacity (perform o s).2 = bds_capacity s /\
  bds_retention_seconds (perform o s).2 = bds_retention_seconds s.
Proof.
  destruct o as [m now|c now|c|]; cbn.
  - unfold claim. repeat (case_match; cbn; try done); by simplify_eq/=.
  - unfold complete. repeat (case_match; cbn; try done); by simplify_eq/=.
  - unfold release. by case_match.
  - done.
Qed.

Lemma perform_refines o s :
  store_wf s ->
  let '(a, s') := perform o s in
  ledger_step (bds_capacity s) (bds_retention_seconds s) (ledger_of s) o a (ledger_of s') /\ store_wf s'.
Proof.
  destruct o as [m now|c now|c|].
  - apply claim_refines.
  - apply complete_refines.
  - apply release_refines.
  - apply clear_refines.
Qed.

Lemma perform_all_refines os s :
  store_wf s ->
  let '(l, s') := perform_all os s in
  ledger_history (bds_capacity s) (bds_retention_seconds s) (ledger_of s) os l (ledger_of s') /\ store_wf s'.
Proof.
  revert s; induction os as [|o os IH]; intros s Hwf; cbn; [split; [constructor | done]|].
  pose proof (perform_refines o s Hwf) as Hstep. pose proof (perform_frame o s) as [Hc Hr].
  destruct (perform o s) as [a s1]. destruct Hstep as [Hstep Hwf1].
  specialize (IH s1 Hwf1). destruct (perform_all os s1) as [l s2]. cbn in Hc, Hr.
  rewrite Hc, Hr in IH. destruct IH as [Hh Hwf2]. split; [by econstructor | done].
Qed.

Lemma new_store_wf capacity retention s : new_store capacity retention = Ok s -> store_wf s.
Proof.
  unfold new_store. intros (u & Hcap & (r & Hr & (n & Hn & [= <-])%bind_Ok)%bind_Ok)%bind_Ok.
  destruct u. apply guard_or_Ok, Z.leb_le in Hcap. apply from_option_Ok in Hn. subst r.
  constructor; cbn; try done; [|constructor|lia].
  unfold retention_number in Hr. destruct retention as [|b|z|f|t|l|l|d|d|fs|ty]; try discriminate Hr.
  - apply bind_Ok in Hr as (f & Hf & [= Hn]). destruct (z <=? 0)%Z; [done|].
    injection Hn as <-. cbn. by rewrite Hf.
  - injection Hr as Hn. revert Hn. case_match; [done|]. by intros [= <-].
Qed.

(** ** A completed delivery stays known *)

(** The entry of [m] has at most [b] deliveries in flight or completed later. *)
Definition recalls (m : string) (e : spec_float) (b : nat) (s : BoundedDeduplicationStore) : Prop :=
  exists before after, bds_entries s = before ++ (m, e) :: after /\
    (length after + length (bds_pending s) <= b)%nat.

Lemma recalls_lookup m e b s : store_wf s -> recalls m e b s -> dict_get m (bds_entries s) = Some e.
Proof.
  intros Hwf (before & after & He & _). apply elem_dict_get; [by apply entries_wf|].
  rewrite He. apply elem_of_app; right; left.
Qed.

Lemma recalls_expire m e b now s :
  store_wf s -> float_le e now = false -> recalls m e b s -> recalls m e b (expire now s).
Proof.
  intros Hwf Hnow (before & after & He & Hlen). rewrite expire_spec by done. cbn.
  exists (filter (fun kv => float_le kv.2 now = false) before), (filter (fun kv => float_le kv.2 now = false) after).
  cbn. rewrite He, filter_app, filter_cons_True by done. split; [done|].
  pose proof (sublist_length _ _ (sublist_filter (fun kv => float_le kv.2 now = false) after)). lia.
Qed.

Lemma recalls_claim m e b k now s a s' :
  store_wf s -> float_le e now = false -> recalls m e b s ->
  perform (OpClaim k now) s = (a, s') -> (Z.of_nat (b + granted a) < bds_capacity s)%Z ->
  recalls m e (b + granted a) s'.
Proof.
  intros Hwf Hnow Hr Hp Hb. apply (recalls_expire _ _ _ now _ Hwf Hnow) in Hr.
  pose proof (expire_wf now s Hwf) as Hwf1. cbn in Hp. unfold claim in Hp.
  change (bds_capacity s) with (bds_capacity (expire now s)) in Hb.
  set (s1 := expire now s) in *. clearbody s1.
  destruct (dict_mem k (bds_entries s1)); [injection Hp as <- <-; by rewrite Nat.add_0_r|].
  destruct (dict_mem k (bds_pending s1)) eqn:Hk; [injection Hp as <- <-; by rewrite Nat.add_0_r|].
  destruct (Z.leb_spec (bds_capacity s1) (Z.of_nat (length (bds_pending s1)))) as [|Hroom];
    [injection Hp as <- <-; by rewrite Nat.add_0_r|].
  destruct (evict_spec (bds_capacity s1) _ (bds_entries s1) Hroom) as (n & Hev & Hlen).
  rewrite Hev in Hp. injection Hp as <- <-. cbn [granted answer_of] in *.
  destruct Hr as (before & after & He & Hle). apply dict_mem_false, dict_get_None in Hk.
  exists (drop n before), after; cbn. rewrite dict_set_new by done.
  rewrite He, length_app in *. cbn in *. split; [|lia].
  rewrite drop_app. replace (n - length before)%nat with 0%nat; [done|].
  rewrite length_drop, length_app in Hlen. cbn in Hlen. lia.
Qed.

Lemma recalls_step m e b o s a s' :
  store_wf s -> keeps_until e o = true -> recalls m e b s ->
  perform o s = (a, s') -> (Z.of_nat (b + granted a) < bds_capacity s)%Z ->
  recalls m e (b + granted a) s'.
Proof.
  intros Hwf Hk Hr Hp Hb. pose proof (recalls_lookup _ _ _ _ Hwf Hr) as Hm.
  destruct o as [k now|c now|c|]; cbn in Hk; try done.
  - apply negb_true_iff in Hk. by eapply recalls_claim.
  - cbn in Hp. unfold complete in Hp. destruct (holds c s) eqn:Hh;
      [|injection Hp as <- <-; by rewrite Nat.add_0_r].
    destruct (drop_pending_wf s c Hwf Hh) as (Hwf1 & Hl1 & Hlen). destruct (expiry_ok s now Hwf) as [x Hx].
    set (s1 := set_pending _ s) in *. change (bds_retention_seconds s1) with (bds_retention_seconds s) in Hp.
    rewrite Hx in Hp. injection Hp as <- <-. rewrite Nat.add_0_r.
    destruct Hr as (before & after & He & Hle). exists before, (after ++ [(claim_message_id c, x)]). cbn [bds_entries set_entries].
    change (bds_entries s1) with (bds_entries s). rewrite dict_set_new.
    + rewrite He, <- app_assoc. split; [done|]. cbn in *. rewrite length_app. cbn. lia.
    + apply (ledger_holds s Hwf) in Hh. intros [y Hy]%dict_get_Some_keys.
      by rewrite (ledger_entry s Hwf _ _ Hy) in Hh.
  - cbn in Hp. injection Hp as <- <-. rewrite Nat.add_0_r. unfold release.
    destruct (holds c s) eqn:Hh; [|done]. destruct (drop_pending_wf s c Hwf Hh) as (_ & _ & Hlen).
    destruct Hr as (before & after & He & Hle). exists before, after. cbn in *. split; [done | lia].
Qed.

Lemma recalls_history m e os s b l s' :
  store_wf s -> forallb (keeps_until e) os = true -> recalls m e b s ->
  perform_all os s = (l, s') -> (Z.of_nat (b + sum_list (granted <$> l)) < bds_capacity s)%Z ->
  exists b', recalls m e b' s'.
Proof.
  revert s b l; induction os as [|o os IH]; intros s b l Hwf Hk Hr Hp Hb; cbn in Hp.
  - injection Hp as <- <-. eauto.
  - cbn in Hk. apply andb_prop in Hk as [Hko Hkos].
    pose proof (perform_refines o s Hwf) as Hstep. pose proof (perform_frame o s) as [Hc _].
    destruct (perform o s) as [a s1] eqn:Ho. destruct Hstep as [_ Hwf1]. cbn in Hc.
    destruct (perform_all os s1) as [l1 s2] eqn:Hos. injection Hp as <- <-. cbn in Hb.
    apply (IH s1 (b + granted a)%nat l1 Hwf1 Hkos); [|exact Hos | rewrite Hc; lia].
    apply (recalls_step m e b o s a s1 Hwf Hko Hr Ho). lia.
Qed.

(** ** The store refines its ledger *)

Lemma perform_all_frame os s :
  bds_capacity (perform_all os s).2 = bds_capacity s /\
  bds_retention_seconds (perform_all os s).2 = bds_retention_seconds s.
Proof.
  revert s; induction os as [|o os IH]; intros s; cbn; [done|].
  pose proof (perform_frame o s) as [Hc Hr]. destruct (perform o s) as [a s1].
  specialize (IH s1) as [Hc1 Hr1]. destruct (perform_all os s1) as [l s2]. cbn in *. split; congruence.
Qed.

Lemma new_store_fields capacity retention s :
  new_store capacity retention = Ok s -> bds_capacity s = capacity /\ ledger_of s = ∅.
Proof.
  unfold new_store. by intros (u & _ & (r & _ & (n & _ & [= <-])%bind_Ok)%bind_Ok)%bind_Ok.
Qed.

(** C25: Whatever sequence of calls a new store receives, its answers are those that the
    ledger of deliveries allows from the empty ledger: a message that is in flight or
    remembered is never handed out again, a claim is refused for lack of room only when
    as many deliveries are in flight as the capacity allows, only completed deliveries
    are forgotten, and no more of them than one new delivery needs.  No call raises, and
    the store never holds more deliveries than its capacity. *)
Theorem store_refines_ledger capacity retention s0 os l s :
  new_store capacity retention = Ok s0 -> perform_all os s0 = (l, s) ->
  ledger_history capacity (bds_retention_seconds s0) ∅ os l (ledger_of s) /\
  Forall (fun a => match a with ARaised _ => False | _ => True end) l /\
  (Z.of_nat (size (ledger_of s)) <= capacity)%Z.
Proof.
  intros Hnew Hp. pose proof (new_store_wf _ _ _ Hnew) as Hwf.
  pose proof (perform_all_refines os s0 Hwf) as Hr. pose proof (perform_all_frame os s0) as [Hc _].
  rewrite Hp in Hr, Hc. destruct Hr as [Hh Hwf'].
  destruct (new_store_fields _ _ _ Hnew) as [Hcap Hempty]. rewrite Hcap, Hempty in Hh. cbn in Hc.
  split_and!; [exact Hh| |].
  - clear -Hh. induction Hh as [|L o a L' os l L'' Hs _ IH]; constructor; [by destruct Hs | exact IH].
  - rewrite ledger_size by done. rewrite <- Hcap, <- Hc. apply Hwf'.
Qed.

Definition sample_operations : list operation :=
  [OpClaim "a" (float_of_Z 1); OpClaim "a" (float_of_Z 2); OpClaim "b" (float_of_Z 3);
   OpClaim "c" (float_of_Z 3);
   OpComplete {| claim_object := 0; claim_message_id := "a" |} (float_of_Z 4);
   OpClaim "a" (float_of_Z 5); OpClaim "c" (float_of_Z 6); OpClaim "a" (float_of_Z 7)].

Lemma store_refines_ledger_witness :
  exists s0 s,
    ledger_history 2 (bds_retention_seconds s0) ∅ sample_operations
      [AClaim (inl {| claim_object := 0; claim_message_id := "a" |});
       AClaim (inr IN_FLIGHT);
       AClaim (inl {| claim_object := 1; claim_message_id := "b" |});
       AClaim (inr CAPACITY_EXHAUSTED);
       ANone;
       AClaim (inr COMPLETED);
       AClaim (inl {| claim_object := 2; claim_message_id := "c" |});
       AClaim (inr CAPACITY_EXHAUSTED)] (ledger_of s).
Proof.
  destruct (new_store 2 (RInt 60)) as [s0|e] eqn:H0; [|by vm_compute in H0].
  destruct (perform_all sample_operations s0) as [l s] eqn:H1. exists s0, s.
  destruct (store_refines_ledger _ _ _ _ _ _ H0 H1) as [Hh _].
  vm_compute in H0. injection H0 as <-. vm_compute in H1. injection H1 as <- _. exact Hh.
Defined.

(** C26: A delivery completed under its claim is answered [COMPLETED] from then on, while
    its retention has not ended at the times of the claims, the store is not cleared, and
    the deliveries in flight at the completion together with those granted since stay
    below the capacity: the oldest completed deliveries are forgotten first. *)
Theorem completion_remembered s c t e os l s1 s2 now :
  store_wf s -> holds c s = true -> expiry t (bds_retention_seconds s) = Ok e ->
  perform (OpComplete c t) s = (ANone, s1) -> perform_all os s1 = (l, s2) ->
  forallb (keeps_until e) os = true -> float_le e now = false ->
  (Z.of_nat (length (bds_pending s1) + sum_list (granted <$> l)) < bds_capacity s)%Z ->
  (perform (OpClaim (claim_message_id c) now) s2).1 = AClaim (inr COMPLETED).
Proof.
  intros Hwf Hh He Hc Hos Hk Hnow Hb.
  pose proof (complete_refines c t s Hwf) as Hstep. rewrite Hc in Hstep. destruct Hstep as [_ Hwf1].
  pose proof (perform_frame (OpComplete c t) s) as [Hcap _]. rewrite Hc in Hcap. cbn [snd] in Hcap.
  assert (recalls (claim_message_id c) e (length (bds_pending s1)) s1) as Hr.
  { cbn in Hc. unfold complete in Hc. rewrite Hh in Hc.
    change (bds_retention_seconds (set_pending _ s)) with (bds_retention_seconds s) in Hc.
    rewrite He in Hc. injection Hc as <-. exists (bds_entries s), []. cbn. split; [|lia].
    apply dict_set_new. intros [y Hy]%dict_get_Some_keys. apply (ledger_holds s Hwf) in Hh.
    by rewrite (ledger_entry s Hwf _ _ Hy) in Hh. }
  pose proof (perform_all_refines os s1 Hwf1) as Hwf2. rewrite Hos in Hwf2. destruct Hwf2 as [_ Hwf2].
  rewrite <- Hcap in Hb.
  destruct (recalls_history _ _ _ _ _ _ _ Hwf1 Hk Hr Hos Hb) as [b' Hr2].
  apply (recalls_expire _ _ _ now _ Hwf2 Hnow) in Hr2.
  pose proof (recalls_lookup _ _ _ _ (expire_wf now s2 Hwf2) Hr2) as Hget.
  cbn. unfold claim. rewrite (proj2 (dict_mem_true _ _)); [done | by eexists].
Qed.

Definition sample_store : BoundedDeduplicationStore :=
  {| bds_capacity := 3; bds_retention_seconds := NInt 60; bds_entries := []; bds_pending := [];
     bds_allocated := 0 |}.

Definition sample_claim : DeliveryClaim := {| claim_object := 0; claim_message_id := "a" |}.

Definition sample_history : list operation :=
  [OpClaim "b" (float_of_Z 3); OpClaim "c" (float_of_Z 4)].

Lemma completion_remembered_witness :
  let s := (perform (OpClaim "a" (float_of_Z 1)) sample_store).2 in
  let s1 := (perform (OpComplete sample_claim (float_of_Z 2)) s).2 in
  (perform (OpClaim "a" (float_of_Z 9)) (perform_all sample_history s1).2).1 = AClaim (inr COMPLETED).
Proof.
  intros s s1.
  assert (store_wf s) as Hwf.
  { pose proof (claim_refines "a" (float_of_Z 1) sample_store
      (new_store_wf 3 (RInt 60) sample_store eq_refl)) as Hc.
    unfold s. destruct (perform (OpClaim "a" (float_of_Z 1)) sample_store) as [a s']. apply Hc. }
  apply (completion_remembered s sample_claim (float_of_Z 2) (float_of_Z 62) sample_history
    (perform_all sample_history s1).1 s1 (perform_all sample_history s1).2 (float_of_Z 9) Hwf);
    vm_compute; reflexivity.
Defined.
