(* ===== verification/Relay.v ===== *)
(** The relay of responses and events ([engine/response_relay.py]) over the contract of
    brokers ([brokers/base.py]): the deliveries of a poll run as tasks that interleave at
    their awaits.  What the environment decides is an argument of a step: which task runs
    next, what the clock reads, how a signal ends, whether a task is cancelled. *)

From S2P Require Export Messages Deduplication.

(** ** The contract of brokers *)

Record ReceivedMessage := {
  rm_body : string;
  rm_broker_message_id : string;
  rm_delivery_attempt : Z;
  rm_settlement_token : nat;
}.

(** [ProcessingOutcome] *)
Inductive ProcessingOutcome :=
| Ack
| Retry (reason : string)
| DeadLetter (reason : string).

(** [DeliveryPolicy.__post_init__]; [float_le 0 w] fails on a negative window only. *)
Definition DeliveryPolicy_post_init (max_delivery_attempts : Z) (max_redelivery_window_seconds : spec_float)
  : res unit :=
  if (max_delivery_attempts <? 1)%Z
  then raise ValueError "Maximum delivery attempts must be positive"
  else if float_lt max_redelivery_window_seconds (float_of_Z 0)
  then raise ValueError "Maximum redelivery window must not be negative"
  else Ok tt.

Inductive QueueMetricOutcome := METRIC_ACK | METRIC_RETRY | METRIC_DEAD_LETTER.

(** [_queue_metric_outcome] *)
Definition queue_metric_outcome (o : ProcessingOutcome) : QueueMetricOutcome :=
  match o with Ack => METRIC_ACK | Retry _ => METRIC_RETRY | DeadLetter _ => METRIC_DEAD_LETTER end.

(** ** Reading a message *)

(** [parse_async_envelope(json.loads(body))]: the parser of the interpreter and pydantic's
    choice of a model by [kind], which runs the model's fields and validator. *)
Class EnvelopeParser `{Sha256} := {
  parse_async_envelope : string -> res AsyncEnvelope;
  parse_valid body e : parse_async_envelope body = Ok e -> valid_envelope e = true;
}.

(** [json.JSONDecodeError, ValidationError, LimitExceededError, TypeError] *)
Definition malformed (e : exn) : bool :=
  match exn_cls e with
  | ValidationError | LimitExceededError _ _ _ _ | TypeError => true
  | ExternalError name _ _ _ => bool_decide (name = "JSONDecodeError")
  | _ => false
  end.

Definition relay_envelope : Type := StepResponseEnvelope + EventEnvelope.

Definition relay_common (e : relay_envelope) : CommonEnvelope :=
  match e with inl e => sr_common e | inr e => ee_common e end.

Definition relay_message_id (e : relay_envelope) : string := ce_message_id (relay_common e).

(** A call of [handle.signal]. *)
Record signal_call := {
  sc_workflow_id : string;
  sc_run_id : string;
  sc_signal : string;
  sc_payload : json;
}.

(** How [handle.signal] ends: it returns, or raises [RPCError] with a status, or raises
    another exception. *)
Inductive signal_result := SignalSent | SignalRpcError (status : string) | SignalError.

Section relay.
Context `{EnvelopeParser}.

(** The [try] block of [_process_message]. *)
Definition read_response (scope : RuntimeScope) (limits : RuntimeLimits) (m : ReceivedMessage)
  : res relay_envelope :=
  _ ← enforce_utf8_bytes (rm_body m) "messaging.response.body" (signal_payload_bytes limits);
  envelope ← parse_async_envelope (rm_body m);
  response ←
    match envelope with
    | StepResponseMessage e => Ok (inl e)
    | EventMessage e => Ok (inr e)
    | other => raise TypeError ("Unsupported response kind '" +:+ message_kind other +:+ "'")
    end;
  scoped ←
    (if bool_decide (ce_scope_digest (relay_common response) = Some (digest scope))
     then identity_belongs_to_scope (ce_workflow_id (relay_common response)) "workflow" scope
     else Ok false);
  if negb (legacy_owns (ce_scope_digest (relay_common response)) scope) && negb scoped
  then raise TypeError "Response envelope does not belong to the runtime scope"
  else Ok response.

(** The signal that [_deliver] sends. *)
Definition signal_of (e : relay_envelope) : signal_call :=
  match e with
  | inl e =>
      let '(status, step_response, error) :=
        match sr_body e with
        | StepSuccessBody output => ("success", output, None)
        | StepErrorBody code message retryable =>
            ("error", JNull,
             Some [("code", JStr code); ("message", JStr message); ("retryable", JBool retryable)])
        end in
      {| sc_workflow_id := ce_workflow_id (sr_common e);
         sc_run_id := sr_workflow_run_id e;
         sc_signal := STEP_RESPONSE_SIGNAL;
         sc_payload := SignalPayload_dump (sr_step_invocation_id e) (sr_step_name e) (sr_action e)
                         status step_response error |}
  | inr e =>
      {| sc_workflow_id := ce_workflow_id (ee_common e);
         sc_run_id := ee_workflow_run_id e;
         sc_signal := WORKFLOW_EVENT_SIGNAL;
         sc_payload := EventPayload_dump (ee_event_name e) (ee_payload e) |}
  end.

(** What [_deliver] returns. *)
Definition delivery_outcome (r : signal_result) : ProcessingOutcome :=
  match r with
  | SignalSent => Ack
  | SignalRpcError status =>
      if bool_decide (status = "NOT_FOUND") then DeadLetter "workflow execution not found"
      else Retry "Temporal signal failed"
  | SignalError => Retry "Temporal signal failed"
  end.

(** ** Tasks *)

(** Where [_handle_delivery] stands: at the semaphore, at [claim], at the signal, at
    [complete], at [release] (with what it returns, or nothing when an exception passes
    through), at [settle], ended, or ended by an exception. *)
Inductive task :=
| Queued (m : ReceivedMessage)
| Claiming (m : ReceivedMessage) (e : relay_envelope)
| Delivering (m : ReceivedMessage) (e : relay_envelope) (c : DeliveryClaim)
| Completing (m : ReceivedMessage) (e : relay_envelope) (c : DeliveryClaim)
| Releasing (m : ReceivedMessage) (c : DeliveryClaim) (o : option ProcessingOutcome)
| Settling (m : ReceivedMessage) (o : ProcessingOutcome)
| Settled (m : ReceivedMessage) (o : ProcessingOutcome)
| Failed (m : ReceivedMessage).

(** The task is inside [async with self._message_semaphore]. *)
Definition inside (t : task) : bool :=
  match t with Queued _ | Settled _ _ | Failed _ => false | _ => true end.

Definition finished (t : task) : bool :=
  match t with Settled _ _ | Failed _ => true | _ => false end.

(** [ResponseRelay]: its store, its tasks, and the releases that outlive a cancelled task
    ([asyncio.shield]). *)
Record ResponseRelay := {
  rr_scope : RuntimeScope;
  rr_limits : RuntimeLimits;
  rr_message_concurrency : Z;
  rr_store : BoundedDeduplicationStore;
  rr_tasks : list task;
  rr_releases : list DeliveryClaim;
}.

Definition set_tasks (v : list task) (r : ResponseRelay) : ResponseRelay :=
  {| rr_scope := rr_scope r; rr_limits := rr_limits r;
     rr_message_concurrency := rr_message_concurrency r; rr_store := rr_store r;
     rr_tasks := v; rr_releases := rr_releases r |}.

Definition set_store (v : BoundedDeduplicationStore) (r : ResponseRelay) : ResponseRelay :=
  {| rr_scope := rr_scope r; rr_limits := rr_limits r;
     rr_message_concurrency := rr_message_concurrency r; rr_store := v;
     rr_tasks := rr_tasks r; rr_releases := rr_releases r |}.

Definition set_releases (v : list DeliveryClaim) (r : ResponseRelay) : ResponseRelay :=
  {| rr_scope := rr_scope r; rr_limits := rr_limits r;
     rr_message_concurrency := rr_message_concurrency r; rr_store := rr_store r;
     rr_tasks := rr_tasks r; rr_releases := v |}.

(** [ResponseRelay.__init__] *)
Definition new_relay (scope : RuntimeScope) (limits : RuntimeLimits) (message_concurrency : Z)
    (store : BoundedDeduplicationStore) : res ResponseRelay :=
  if (message_concurrency <? 1)%Z then raise ValueError "Message concurrency must be positive"
  else Ok {| rr_scope := scope; rr_limits := limits; rr_message_concurrency := message_concurrency;
             rr_store := store; rr_tasks := []; rr_releases := [] |}.

(** [_process_message] up to its first await. *)
Definition begin_processing (r : ResponseRelay) (m : ReceivedMessage) : task :=
  match read_response (rr_scope r) (rr_limits r) m with
  | Ok envelope => Claiming m envelope
  | Raise e => if malformed e then Settling m (DeadLetter "malformed response envelope") else Failed m
  end.

(** [_process_message] from the answer of [claim]; the store raises nothing else. *)
Definition after_claim (m : ReceivedMessage) (e : relay_envelope) (a : res (DeliveryClaim + DuplicateState))
  : task :=
  match a with
  | Ok (inr COMPLETED) => Settling m Ack
  | Ok (inr _) => Settling m (Retry "response delivery is in flight or capacity is exhausted")
  | Ok (inl c) => Delivering m e c
  | Raise _ => Failed m
  end.

(** The [finally] of a task that is cancelled, or a release that a cancelled task left. *)
Definition after_cancel (t : task) : task :=
  match t with
  | Delivering m _ c | Completing m _ c => Releasing m c None
  | Queued m | Claiming m _ | Releasing m _ _ | Settling m _ => Failed m
  | t => t
  end.

Inductive action :=
| Receive (ms : list ReceivedMessage)
| Enter (i : nat)
| Claim (i : nat) (now : spec_float)
| Signal (i : nat) (result : signal_result)
| Complete (i : nat) (now : spec_float)
| Release (i : nat)
| Settle (i : nat) (settled : bool)
| CancelTask (i : nat)
| ShieldedRelease (k : nat)
| Stop.

Definition put (i : nat) (t : task) (r : ResponseRelay) : ResponseRelay :=
  set_tasks (<[i := t]> (rr_tasks r)) r.

Definition running_tasks (r : ResponseRelay) : nat := length (filter (fun t => inside t = true) (rr_tasks r)).

(** One step; [None] when the relay cannot take it.  [Receive] is the poll of
    [_poll_once], which starts a task per message; [Stop] is [stop]. *)
Definition relay_step (a : action) (r : ResponseRelay) : option ResponseRelay :=
  match a with
  | Receive ms => Some (set_tasks (rr_tasks r ++ (Queued <$> ms)) r)
  | Enter i =>
      match rr_tasks r !! i with
      | Some (Queued m) =>
          if (Z.of_nat (running_tasks r) <? rr_message_concurrency r)%Z
          then Some (put i (begin_processing r m) r) else None
      | _ => None
      end
  | Claim i now =>
      match rr_tasks r !! i with
      | Some (Claiming m e) =>
          let '(a, s) := claim (relay_message_id e) now (rr_store r) in
          Some (put i (after_claim m e a) (set_store s r))
      | _ => None
      end
  | Signal i result =>
      match rr_tasks r !! i with
      | Some (Delivering m e c) =>
          Some (put i (match delivery_outcome result with
                       | Ack => Completing m e c
                       | o => Releasing m c (Some o)
                       end) r)
      | _ => None
      end
  | Complete i now =>
      match rr_tasks r !! i with
      | Some (Completing m e c) =>
          let '(a, s) := complete c now (rr_store r) in
          Some (put i (Releasing m c (match a with Ok _ => Some Ack | Raise _ => None end)) (set_store s r))
      | _ => None
      end
  | Release i =>
      match rr_tasks r !! i with
      | Some (Releasing m c o) =>
          Some (put i (match o with Some o => Settling m o | None => Failed m end)
                  (set_store (release c (rr_store r)) r))
      | _ => None
      end
  | Settle i settled =>
      match rr_tasks r !! i with
      | Some (Settling m o) => Some (put i (if settled then Settled m o else Failed m) r)
      | _ => None
      end
  | CancelTask i =>
      match rr_tasks r !! i with
      | Some t =>
          if finished t then None
          else
            let r := match t with Releasing _ c _ => set_releases (rr_releases r ++ [c]) r | _ => r end in
            Some (put i (after_cancel t) r)
      | None => None
      end
  | ShieldedRelease k =>
      match rr_releases r !! k with
      | Some c =>
          Some (set_store (release c (rr_store r)) (set_releases (list_delete k (rr_releases r)) r))
      | None => None
      end
  | Stop => Some (set_store (clear (rr_store r)) r)
  end.

Fixpoint relay_exec (l : list action) (r : ResponseRelay) : option ResponseRelay :=
  match l with
  | [] => Some r
  | a :: l => match relay_step a r with Some r' => relay_exec l r' | None => None end
  end.

Inductive relay_run : ResponseRelay -> list action -> ResponseRelay -> Prop :=
| run_nil r : relay_run r [] r
| run_cons r a r' l r'' : relay_step a r = Some r' -> relay_run r' l r'' -> relay_run r (a :: l) r''.
End relay.
