(* ===== verification/RelayFacts.v ===== *)
(** The relay under every interleaving of its deliveries: one delivery of a message at a
    time, no claim is lost, and every delivery ends. *)

From S2P Require Export Relay ScopeFacts DeduplicationFacts.

(** ** Claims and who holds them *)

Definition held_claims (t : task) : list DeliveryClaim :=
  match t with Delivering _ _ c | Completing _ _ c | Releasing _ c _ => [c] | _ => [] end.

(** The claim under which a task signals its workflow. *)
Definition active_claim (t : task) : option (relay_envelope * DeliveryClaim) :=
  match t with Delivering _ e c | Completing _ e c => Some (e, c) | _ => None end.

Definition owners (r : ResponseRelay) : list DeliveryClaim :=
  (rr_tasks r ≫= held_claims) ++ rr_releases r.

(** The claims of the other tasks and of the shielded releases. *)
Definition other_owners (i : nat) (r : ResponseRelay) : list DeliveryClaim :=
  (take i (rr_tasks r) ≫= held_claims) ++ (drop (S i) (rr_tasks r) ≫= held_claims) ++ rr_releases r.

Lemma owners_split i t r :
  rr_tasks r !! i = Some t -> owners r ≡ₚ held_claims t ++ other_owners i r.
Proof.
  intros Hi. unfold owners, other_owners. rewrite <- (take_drop_middle _ _ _ Hi) at 1.
  rewrite bind_app, bind_cons. solve_Permutation.
Qed.

Lemma owners_put i t t' r :
  rr_tasks r !! i = Some t -> owners (put i t' r) ≡ₚ held_claims t' ++ other_owners i r.
Proof.
  intros Hi. pose proof (lookup_lt_Some _ _ _ Hi) as Hlt.
  rewrite (owners_split i t') by (cbn; by apply list_lookup_insert_eq).
  unfold other_owners; cbn. by rewrite take_insert_ge, drop_insert_lt by lia.
Qed.

Lemma other_owners_elem i j t c r :
  i <> j -> rr_tasks r !! j = Some t -> c ∈ held_claims t -> c ∈ other_owners i r.
Proof.
  intros Hne Hj Hc. unfold other_owners. rewrite !elem_of_app, !list_elem_of_bind.
  destruct (decide (j < i)%nat) as [Hlt|Hge].
  - left. exists t. split; [done|]. apply list_elem_of_lookup. exists j. by rewrite lookup_take_lt.
  - right; left. exists t. split; [done|]. apply list_elem_of_lookup. exists (j - S i)%nat.
    rewrite lookup_drop. by replace (S i + (j - S i))%nat with j by lia.
Qed.

(** The claims of a store against those who hold them. *)
Record claims_ok (s : BoundedDeduplicationStore) (os : list DeliveryClaim) : Prop := {
  claims_distinct : NoDup (claim_object <$> os);
  claims_allocated : Forall (fun c => (claim_object c < bds_allocated s)%nat) os;
  claims_owned k c : dict_get k (bds_pending s) = Some c -> c ∈ os;
}.

#[export] Instance claims_ok_proper s : Proper ((≡ₚ) ==> impl) (claims_ok s).
Proof.
  intros os os' Hp [Hd Ha Ho]. constructor.
  - by rewrite <- Hp.
  - by rewrite <- Hp.
  - intros k c Hk. rewrite <- Hp. eauto.
Qed.

(** ** The store seen by a task *)

Lemma claim_frame m now s a s' :
  store_wf s -> claim m now s = (a, s') ->
  match a with
  | Ok (inl c) =>
      claim_object c = bds_allocated s /\ claim_message_id c = m /\ dict_get m (bds_pending s) = None /\
      bds_pending s' = bds_pending s ++ [(m, c)] /\ bds_allocated s' = S (bds_allocated s)
  | Ok (inr _) => bds_pending s' = bds_pending s /\ bds_allocated s' = bds_allocated s
  | Raise _ => False
  end.
Proof.
  intros Hwf Hc. unfold claim in Hc. pose proof (expire_wf now s Hwf) as Hwf1.
  assert (bds_pending (expire now s) = bds_pending s /\ bds_allocated (expire now s) = bds_allocated s)
    as [Hp Ha] by done.
  set (s1 := expire now s) in *. clearbody s1.
  destruct (dict_mem m (bds_entries s1)); [by injection Hc as <- <-|].
  destruct (dict_mem m (bds_pending s1)) eqn:Hm; [by injection Hc as <- <-|].
  destruct (Z.leb_spec (bds_capacity s1) (Z.of_nat (length (bds_pending s1)))) as [|Hroom];
    [by injection Hc as <- <-|].
  destruct (evict_spec (bds_capacity s1) _ (bds_entries s1) Hroom) as (n & Hev & _).
  rewrite Hev in Hc. injection Hc as <- <-. cbn. apply dict_mem_false in Hm.
  rewrite <- Hp, <- Ha. split_and!; try done. by apply dict_set_new, dict_get_None.
Qed.

Lemma release_frame c s :
  store_wf s ->
  bds_allocated (release c s) = bds_allocated s /\
  (forall k c', dict_get k (bds_pending (release c s)) = Some c' ->
     dict_get k (bds_pending s) = Some c' /\ c' <> c) /\
  (forall c', claim_object c' <> claim_object c -> holds c' s = true -> holds c' (release c s) = true).
Proof.
  intros Hwf. unfold release. destruct (holds c s) eqn:Hh; (split; [done|]); split.
  - cbn. intros k c' Hk. destruct (decide (k = claim_message_id c)) as [->|Hne].
    + by rewrite dict_get_del_eq in Hk by by apply pending_wf.
    + rewrite dict_get_del_ne in Hk by done. split; [done|]. intros ->.
      pose proof (wf_claims s Hwf) as Hcl. rewrite Forall_forall in Hcl.
      by apply dict_get_elem, Hcl in Hk.
  - intros c' Hne Hc'. unfold holds in *; cbn.
    destruct (decide (claim_message_id c' = claim_message_id c)) as [Heq|Hne']; [|by rewrite dict_get_del_ne].
    rewrite Heq in Hc'. destruct (dict_get (claim_message_id c) (bds_pending s)); [|done].
    apply bool_decide_eq_true in Hc', Hh. congruence.
  - intros k c' Hk. split; [done|]. intros ->. unfold holds in Hh.
    pose proof (wf_claims s Hwf) as Hcl. rewrite Forall_forall in Hcl.
    assert (claim_message_id c = k) as <- by by apply dict_get_elem, Hcl in Hk.
    rewrite Hk in Hh. by apply bool_decide_eq_false in Hh.
  - done.
Qed.

(** [complete] lets go of the claim as [release] does. *)
Lemma complete_frame c now s a s' :
  store_wf s -> complete c now s = (a, s') ->
  a = Ok tt /\ bds_pending s' = bds_pending (release c s) /\ bds_allocated s' = bds_allocated s.
Proof.
  intros Hwf Hc. unfold complete, release in *. destruct (holds c s); [|by injection Hc as <- <-].
  destruct (expiry_ok s now Hwf) as [e He]. cbn [bds_retention_seconds set_pending] in Hc.
  rewrite He in Hc. by injection Hc as <- <-.
Qed.

(** ** The invariant *)

Definition claim_matches (t : task) : Prop :=
  match active_claim t with Some (e, c) => claim_message_id c = relay_message_id e | None => True end.

Record relay_inv (r : ResponseRelay) : Prop := {
  ri_store : store_wf (rr_store r);
  ri_claims : claims_ok (rr_store r) (owners r);
  ri_concurrency : (1 <= rr_message_concurrency r)%Z;
  ri_inside : (Z.of_nat (running_tasks r) <= rr_message_concurrency r)%Z;
  ri_matches : Forall claim_matches (rr_tasks r);
}.

(** Each task that signals holds the pending claim of its message. *)
Definition active_inv (r : ResponseRelay) : Prop :=
  forall i t e c, rr_tasks r !! i = Some t -> active_claim t = Some (e, c) -> holds c (rr_store r) = true.

Definition bit (b : bool) : nat := if b then 1 else 0.

Lemma running_put i t t' r :
  rr_tasks r !! i = Some t ->
  (running_tasks (put i t' r) + bit (inside t) = running_tasks r + bit (inside t'))%nat.
Proof.
  intros Hi. unfold running_tasks, put; cbn.
  rewrite insert_take_drop by by apply lookup_lt_Some in Hi.
  rewrite <- (take_drop_middle _ _ _ Hi) at 3. rewrite !filter_app, !filter_cons, !length_app.
  destruct (decide (inside t' = true)) as [->|Ht'%not_true_iff_false];
    destruct (decide (inside t = true)) as [->|Ht%not_true_iff_false]; rewrite ?Ht, ?Ht'; cbn; lia.
Qed.

Lemma other_owners_set_store i s r : other_owners i (set_store s r) = other_owners i r.
Proof. done. Qed.

(** A task moves from [t] to [t'] while the store becomes [s']. *)
Lemma move_inv i t t' s' r :
  relay_inv r -> rr_tasks r !! i = Some t -> store_wf s' ->
  claims_ok s' (held_claims t' ++ other_owners i r) -> claim_matches t' ->
  (inside t' = true -> inside t = true \/ (Z.of_nat (running_tasks r) < rr_message_concurrency r)%Z) ->
  relay_inv (put i t' (set_store s' r)).
Proof.
  intros [Hs Hc Hn Hr Hm] Hi Hs' Hc' Hm' Hin. constructor; [done| |done| |].
  - by rewrite (owners_put i t t' (set_store s' r) Hi).
  - pose proof (running_put i t t' (set_store s' r) Hi) as Hrun.
    change (running_tasks (set_store s' r)) with (running_tasks r) in Hrun.
    change (rr_message_concurrency (put i t' (set_store s' r))) with (rr_message_concurrency r).
    unfold bit in Hrun. destruct (inside t'); [|destruct (inside t); lia].
    destruct Hin as [Hin|]; [done|rewrite Hin in Hrun; lia|destruct (inside t); lia].
  - cbn. by apply Forall_insert.
Qed.

Lemma claims_ok_skip s os os' c :
  claims_ok s (os ++ c :: os') -> (forall k c', dict_get k (bds_pending s) = Some c' -> c' <> c) ->
  claims_ok s (os ++ os').
Proof.
  intros [Hd Ha Ho] Hne. rewrite fmap_app, fmap_cons in Hd. rewrite Forall_app, Forall_cons in Ha. constructor.
  - rewrite <- Permutation_middle in Hd. rewrite fmap_app. by apply list.NoDup_cons in Hd as [_ ?].
  - rewrite Forall_app. tauto.
  - intros k c' Hk. pose proof (Ho _ _ Hk) as Hin. specialize (Hne _ _ Hk). set_solver.
Qed.

Lemma claims_ok_same s s' os :
  claims_ok s os -> bds_allocated s' = bds_allocated s ->
  (forall k c, dict_get k (bds_pending s') = Some c -> dict_get k (bds_pending s) = Some c) ->
  claims_ok s' os.
Proof. intros [Hd Ha Ho] Hal Hp. constructor; [done | by rewrite Hal | eauto]. Qed.

Lemma claims_ok_release s c os : store_wf s -> claims_ok s (c :: os) -> claims_ok (release c s) os.
Proof.
  intros Hwf Hok. destruct (release_frame c s Hwf) as (Hal & Hget & _).
  apply (claims_ok_skip _ [] os c).
  - apply (claims_ok_same s); [done | done|]. intros k c' Hk. by apply Hget in Hk as [? _].
  - intros k c' Hk. by apply Hget in Hk as [_ ?].
Qed.

Lemma claims_ok_grant s s' m c os :
  claims_ok s os -> claim_object c = bds_allocated s -> bds_allocated s' = S (bds_allocated s) ->
  dict_get m (bds_pending s) = None -> bds_pending s' = bds_pending s ++ [(m, c)] -> claims_ok s' (c :: os).
Proof.
  intros [Hd Ha Ho] Hc Hal Hm Hp. constructor.
  - rewrite fmap_cons. constructor; [|done]. intros (c' & Hobj & Hin)%list_elem_of_fmap.
    rewrite Forall_forall in Ha. specialize (Ha _ Hin). cbn in Ha. lia.
  - constructor; [lia|]. eapply Forall_impl; [exact Ha|]. cbn. lia.
  - intros k c' Hk. apply dict_get_None in Hm. rewrite Hp, <- (dict_set_new m c _ Hm) in Hk.
    rewrite dict_get_set in Hk. case_decide; [injection Hk as <-; left | right; eauto].
Qed.

Lemma store_wf_claim m now s a s' : store_wf s -> claim m now s = (a, s') -> store_wf s'.
Proof.
  intros Hwf Hc. pose proof (claim_refines m now s Hwf) as H. cbn in H. rewrite Hc in H. apply H.
Qed.

Lemma store_wf_complete c now s a s' : store_wf s -> complete c now s = (a, s') -> store_wf s'.
Proof.
  intros Hwf Hc. pose proof (complete_refines c now s Hwf) as H. cbn in H. rewrite Hc in H. apply H.
Qed.

Lemma store_wf_release c s : store_wf s -> store_wf (release c s).
Proof. intros Hwf. apply (release_refines c s Hwf). Qed.

Lemma set_store_id r : set_store (rr_store r) r = r.
Proof. by destruct r. Qed.

(** ** Every step keeps the invariant *)

Section steps.
Context `{EnvelopeParser}.

Lemma begin_processing_shape r m :
  held_claims (begin_processing r m) = [] /\ active_claim (begin_processing r m) = None.
Proof. unfold begin_processing. by repeat case_match. Qed.

(** The shape of a step that moves one task: where it was and where it goes. *)
Lemma step_inv_receive ms r : relay_inv r -> relay_inv (set_tasks (rr_tasks r ++ (Queued <$> ms)) r).
Proof.
  intros [Hs Hc Hn Hr Hm].
  assert (forall ms, (Queued <$> ms) ≫= held_claims = []) as Hheld
    by (intros l; induction l as [|m l IH]; [done | exact IH]).
  assert (forall ms, filter (fun t => inside t = true) (Queued <$> ms) = []) as Hin
    by (intros l; induction l as [|m l IH]; [done | exact IH]).
  constructor; [done| |done| |].
  - unfold owners; cbn. by rewrite bind_app, Hheld, app_nil_r.
  - unfold running_tasks; cbn. by rewrite filter_app, Hin, app_nil_r.
  - cbn. apply Forall_app. split; [done|]. apply Forall_fmap, Forall_forall. done.
Qed.

Lemma step_inv_enter i m r :
  relay_inv r -> rr_tasks r !! i = Some (Queued m) ->
  (Z.of_nat (running_tasks r) < rr_message_concurrency r)%Z -> relay_inv (put i (begin_processing r m) r).
Proof.
  intros Hinv Hi Hlt. destruct (begin_processing_shape r m) as [Hh Ha].
  rewrite <- (set_store_id r) at 2. apply (move_inv i (Queued m)); try done.
  - apply Hinv.
  - rewrite Hh. change [] with (held_claims (Queued m)). rewrite <- owners_split by done. apply Hinv.
  - unfold claim_matches. by rewrite Ha.
  - by right.
Qed.

Lemma step_inv_claim i m e now a s r :
  relay_inv r -> rr_tasks r !! i = Some (Claiming m e) -> claim (relay_message_id e) now (rr_store r) = (a, s) ->
  relay_inv (put i (after_claim m e a) (set_store s r)).
Proof.
  intros Hinv Hi Hc. pose proof (ri_store r Hinv) as Hwf. pose proof (ri_claims r Hinv) as Hok.
  rewrite (owners_split i _ r Hi) in Hok. cbn [held_claims app] in Hok.
  pose proof (claim_frame _ _ _ _ _ Hwf Hc) as Hf.
  apply (move_inv i (Claiming m e)); try done; [by eapply store_wf_claim| | |by left].
  - destruct a as [[c|d]|x]; [| |done].
    + destruct Hf as (Hobj & Hmid & Hnone & Hp & Hal). cbn [after_claim held_claims app].
      by eapply claims_ok_grant.
    + destruct Hf as [Hp Hal].
      replace (held_claims (after_claim m e (Ok (inr d)))) with (@nil DeliveryClaim) by by destruct d.
      cbn [app]. eapply claims_ok_same; [exact Hok|done|]. by rewrite Hp.
  - destruct a as [[c|d]|x]; [|by destruct d|done].
    destruct Hf as (Hobj & Hmid & _). exact Hmid.
Qed.

Lemma step_inv_keep i t t' r :
  relay_inv r -> rr_tasks r !! i = Some t -> held_claims t' = held_claims t -> claim_matches t' ->
  (inside t' = true -> inside t = true) -> relay_inv (put i t' r).
Proof.
  intros Hinv Hi Hh Hm Hin. rewrite <- (set_store_id r). apply (move_inv i t); try done; [apply Hinv| |auto].
  rewrite Hh, <- owners_split by done. apply Hinv.
Qed.

Lemma step_inv_complete i m e c now a s r :
  relay_inv r -> rr_tasks r !! i = Some (Completing m e c) -> complete c now (rr_store r) = (a, s) ->
  relay_inv (put i (Releasing m c (match a with Ok _ => Some Ack | Raise _ => None end)) (set_store s r)).
Proof.
  intros Hinv Hi Hc. pose proof (ri_store r Hinv) as Hwf. pose proof (ri_claims r Hinv) as Hok.
  rewrite (owners_split i _ r Hi) in Hok.
  destruct (complete_frame _ _ _ _ _ Hwf Hc) as (-> & Hp & Hal).
  destruct (release_frame c (rr_store r) Hwf) as (_ & Hget & _).
  apply (move_inv i (Completing m e c)); try done; [by eapply store_wf_complete| |by left].
  eapply claims_ok_same; [exact Hok|done|]. intros k c' Hk. rewrite Hp in Hk. by apply Hget in Hk as [? _].
Qed.

Lemma step_inv_release i m c o r :
  relay_inv r -> rr_tasks r !! i = Some (Releasing m c o) ->
  relay_inv (put i (match o with Some o => Settling m o | None => Failed m end)
               (set_store (release c (rr_store r)) r)).
Proof.
  intros Hinv Hi. pose proof (ri_store r Hinv) as Hwf. pose proof (ri_claims r Hinv) as Hok.
  rewrite (owners_split i _ r Hi) in Hok.
  apply (move_inv i (Releasing m c o)); try done; [by apply store_wf_release| |by destruct o|by left].
  replace (held_claims _) with (@nil DeliveryClaim) by by destruct o. by apply claims_ok_release.
Qed.

Lemma step_inv_cancel i t r :
  relay_inv r -> rr_tasks r !! i = Some t -> finished t = false ->
  relay_inv (put i (after_cancel t)
    (match t with Releasing _ c _ => set_releases (rr_releases r ++ [c]) r | _ => r end)).
Proof.
  intros Hinv Hi Hf. destruct t as [m|m e|m e c|m e c|m c o|m o|m o|m]; try done;
    try (by apply (step_inv_keep i _ _ r Hinv Hi)).
  pose proof (owners_split i _ r Hi) as Hown. destruct Hinv as [Hs Hc Hn Hr Hm].
  set (r1 := set_releases _ r).
  assert (rr_tasks r1 !! i = Some (Releasing m c o)) as Hi1 by done. constructor; [done| |done| |].
  - rewrite (owners_put i _ (Failed m) r1 Hi1). unfold other_owners, r1; cbn.
    rewrite Hown in Hc. unfold other_owners in Hc. cbn [held_claims] in Hc.
    eapply claims_ok_proper; [|exact Hc]. solve_Permutation.
  - pose proof (running_put i _ (Failed m) r1 Hi1) as Hrun. cbn [inside bit] in Hrun.
    change (running_tasks r1) with (running_tasks r) in Hrun.
    cbn [after_cancel]. change (rr_message_concurrency (put i (Failed m) r1)) with (rr_message_concurrency r).
    unfold bit in Hrun. lia.
  - cbn. by apply Forall_insert.
Qed.

Lemma step_inv_shielded k c r :
  relay_inv r -> rr_releases r !! k = Some c ->
  relay_inv (set_store (release c (rr_store r)) (set_releases (list_delete k (rr_releases r)) r)).
Proof.
  intros [Hs Hc Hn Hr Hm] Hk. constructor; [by apply store_wf_release| |done|done|done].
  cbn. apply claims_ok_release; [done|]. eapply claims_ok_proper; [|exact Hc]. unfold owners; cbn.
  etransitivity; [apply Permutation_app_head, (delete_Permutation _ _ _ Hk)|].
  symmetry. apply Permutation_middle.
Qed.

Lemma step_inv_stop r : relay_inv r -> relay_inv (set_store (clear (rr_store r)) r).
Proof.
  intros [Hs Hc Hn Hr Hm]. constructor; [apply (clear_refines _ Hs)| |done|done|done].
  eapply (claims_ok_same (rr_store r)); [exact Hc | done | done].
Qed.

Lemma relay_step_inv a r r' : relay_inv r -> relay_step a r = Some r' -> relay_inv r'.
Proof.
  intros Hinv Hs. destruct a as [ms|i|i now|i res|i now|i|i b|i|k|]; cbn in Hs.
  - injection Hs as <-. by apply step_inv_receive.
  - repeat case_match; simplify_eq. apply step_inv_enter; [done..|]. by apply Z.ltb_lt.
  - destruct (rr_tasks r !! i) as [[]|] eqn:Hi; simplify_eq.
    destruct (claim _ now (rr_store r)) as [a s] eqn:Hc. injection Hs as <-. by eapply step_inv_claim.
  - destruct (rr_tasks r !! i) as [[]|] eqn:Hi; simplify_eq. apply (step_inv_keep i _ _ r Hinv Hi).
    + by destruct (delivery_outcome res).
    + pose proof (ri_matches r Hinv) as Hm. rewrite Forall_lookup in Hm. specialize (Hm _ _ Hi).
      by destruct (delivery_outcome res).
    + done.
  - destruct (rr_tasks r !! i) as [[]|] eqn:Hi; simplify_eq.
    destruct (complete c now (rr_store r)) as [a s] eqn:Hc. injection Hs as <-. by eapply step_inv_complete.
  - destruct (rr_tasks r !! i) as [[]|] eqn:Hi; simplify_eq. by eapply step_inv_release.
  - destruct (rr_tasks r !! i) as [[]|] eqn:Hi; simplify_eq.
    apply (step_inv_keep i _ _ r Hinv Hi); by destruct b.
  - destruct (rr_tasks r !! i) as [t|] eqn:Hi; [|done]. destruct (finished t) eqn:Hf; [done|].
    injection Hs as <-. by apply step_inv_cancel.
  - destruct (rr_releases r !! k) as [c|] eqn:Hk; [|done]. injection Hs as <-. by apply step_inv_shielded.
  - injection Hs as <-. by apply step_inv_stop.
Qed.
End steps.

(** ** The claims of active tasks stay pending until [stop] *)

Lemma active_held t e c : active_claim t = Some (e, c) -> c ∈ held_claims t.
Proof. destruct t; try done; cbn; intros [= <- <-]; left. Qed.

Lemma move_active i t t' s' r :
  active_inv r -> rr_tasks r !! i = Some t ->
  (forall c, c ∈ other_owners i r -> holds c (rr_store r) = true -> holds c s' = true) ->
  (forall e c, active_claim t' = Some (e, c) -> holds c s' = true) ->
  active_inv (put i t' (set_store s' r)).
Proof.
  intros Hact Hi Hothers Ht' j t2 e c Hj Hc. cbn in Hj |- *.
  destruct (decide (j = i)) as [->|Hne].
  - rewrite list_lookup_insert_eq in Hj by by eapply lookup_lt_Some. injection Hj as <-. by eapply Ht'.
  - rewrite list_lookup_insert_ne in Hj by done. apply Hothers; [|by eapply Hact].
    eapply other_owners_elem; [|exact Hj|by eapply active_held]. done.
Qed.

Lemma keep_active i t t' r :
  active_inv r -> rr_tasks r !! i = Some t ->
  (forall e c, active_claim t' = Some (e, c) -> active_claim t = Some (e, c)) -> active_inv (put i t' r).
Proof.
  intros Hact Hi Ht. rewrite <- (set_store_id r). apply (move_active i t); [done..|].
  intros e c Hc. apply Ht in Hc. by eapply Hact.
Qed.

Lemma distinct_owner i t c c' r :
  relay_inv r -> rr_tasks r !! i = Some t -> c ∈ held_claims t -> c' ∈ other_owners i r ->
  claim_object c' <> claim_object c.
Proof.
  intros Hinv Hi Hc Hc' Heq. pose proof (claims_distinct _ _ (ri_claims r Hinv)) as Hnd.
  rewrite (owners_split i t r Hi), fmap_app, list.NoDup_app in Hnd. destruct Hnd as (_ & Hdisj & _).
  apply (Hdisj (claim_object c)); [by apply list_elem_of_fmap_2|]. rewrite <- Heq. by apply list_elem_of_fmap_2.
Qed.

Lemma holds_same c s s' : bds_pending s' = bds_pending s -> holds c s' = holds c s.
Proof. unfold holds. by intros ->. Qed.

Section steps.
Context `{EnvelopeParser}.

Lemma step_active_claim i m e now a s r :
  relay_inv r -> active_inv r -> rr_tasks r !! i = Some (Claiming m e) ->
  claim (relay_message_id e) now (rr_store r) = (a, s) ->
  active_inv (put i (after_claim m e a) (set_store s r)).
Proof.
  intros Hinv Hact Hi Hc. pose proof (claim_frame _ _ _ _ _ (ri_store r Hinv) Hc) as Hf.
  destruct a as [[c|d]|x]; [| |done].
  - destruct Hf as (Hobj & Hmid & Hnone & Hp & Hal).
    assert (bds_pending s = dict_set (relay_message_id e) c (bds_pending (rr_store r))) as Hset
      by (rewrite dict_set_new by (by apply dict_get_None); done).
    apply (move_active i (Claiming m e)); [done|done| |].
    + intros c' _ Hh. unfold holds in *. rewrite Hset, dict_get_set.
      case_decide as Heq; [by rewrite Heq, Hnone in Hh | done].
    + intros e' c' [= <- <-]. unfold holds. rewrite Hset, <- Hmid, dict_get_set_eq.
      by apply bool_decide_eq_true_2.
  - destruct Hf as [Hp _]. apply (move_active i (Claiming m e)); [done|done| |by destruct d].
    intros c' _ Hh. by rewrite (holds_same c' (rr_store r) s Hp).
Qed.

Lemma relay_step_active a r r' :
  a <> Stop -> relay_inv r -> active_inv r -> relay_step a r = Some r' -> active_inv r'.
Proof.
  intros Hne Hinv Hact Hs. pose proof (ri_store r Hinv) as Hwf.
  destruct a as [ms|i|i now|i res|i now|i|i b|i|k|]; cbn in Hs; [..|done].
  - injection Hs as <-. intros j t e c Hj Hc. cbn in Hj.
    apply lookup_app_Some in Hj as [Hj|[_ Hj]]; [by eapply Hact|].
    rewrite list_lookup_fmap in Hj. destruct (ms !! _) as [m|]; [|done]. by injection Hj as <-.
  - repeat case_match; simplify_eq. destruct (begin_processing_shape r m) as [_ Hb].
    eapply keep_active; [done|done|]. by rewrite Hb.
  - destruct (rr_tasks r !! i) as [[]|] eqn:Hi; simplify_eq.
    destruct (claim _ now (rr_store r)) as [a s] eqn:Hc. injection Hs as <-. by eapply step_active_claim.
  - destruct (rr_tasks r !! i) as [[]|] eqn:Hi; simplify_eq. eapply keep_active; [done|exact Hi|].
    by destruct (delivery_outcome res).
  - destruct (rr_tasks r !! i) as [[]|] eqn:Hi; simplify_eq.
    destruct (complete c now (rr_store r)) as [a s] eqn:Hc. injection Hs as <-.
    destruct (complete_frame _ _ _ _ _ Hwf Hc) as (_ & Hp & _).
    eapply move_active; [done|exact Hi| |done].
    intros c' Hc' Hh. rewrite (holds_same c' (release c (rr_store r)) s Hp).
    apply (release_frame c _ Hwf); [|done]. eapply distinct_owner; [done|exact Hi|left|done].
  - destruct (rr_tasks r !! i) as [[]|] eqn:Hi; simplify_eq.
    eapply move_active; [done|exact Hi| |by destruct o]. intros c' Hc' Hh.
    apply (release_frame c _ Hwf); [|done]. eapply distinct_owner; [done|exact Hi|left|done].
  - destruct (rr_tasks r !! i) as [[]|] eqn:Hi; simplify_eq. eapply keep_active; [done|exact Hi|]. by destruct b.
  - destruct (rr_tasks r !! i) as [t|] eqn:Hi; [|done]. destruct (finished t) eqn:Hf; [done|].
    injection Hs as <-.
    destruct t as [m|m e|m e c|m e c|m c o|m o|m o|m]; try done;
      (eapply keep_active; [|exact Hi|done]); done.
  - destruct (rr_releases r !! k) as [c|] eqn:Hk; [|done]. injection Hs as <-.
    intros j t e c' Hj Hc'. cbn in Hj |- *. apply (release_frame c _ Hwf); [|by eapply Hact].
    pose proof (active_held _ _ _ Hc') as Hheld.
    pose proof (claims_distinct _ _ (ri_claims r Hinv)) as Hnd.
    unfold owners in Hnd. rewrite fmap_app, list.NoDup_app in Hnd. destruct Hnd as (_ & Hdisj & _).
    intros Heq. apply (Hdisj (claim_object c')).
    + apply list_elem_of_fmap_2. apply list_elem_of_bind. exists t. split; [done|]. by eapply list_elem_of_lookup_2.
    + rewrite Heq. apply list_elem_of_fmap_2. by eapply list_elem_of_lookup_2.
Qed.

Lemma relay_run_inv r l r' : relay_inv r -> relay_run r l r' -> relay_inv r'.
Proof. intros Hinv Hr. induction Hr as [|r a r1 l r2 Hs _ IH]; [done|]. apply IH. by eapply relay_step_inv. Qed.

Lemma relay_run_active r l r' :
  Stop ∉ l -> relay_inv r -> active_inv r -> relay_run r l r' -> relay_inv r' /\ active_inv r'.
Proof.
  intros Hns Hinv Hact Hr. revert Hinv Hact. induction Hr as [|r a r1 l r2 Hs _ IH]; [done|].
  intros Hinv Hact. apply not_elem_of_cons in Hns as [Hne Hns].
  apply IH; [done|by eapply relay_step_inv|eapply relay_step_active; [|done..]; congruence].
Qed.

(** ** Every delivery ends *)

(** How many steps a task may still take. *)
Definition task_weight (t : task) : nat :=
  match t with
  | Queued _ => 6 | Claiming _ _ => 5 | Delivering _ _ _ => 4 | Completing _ _ _ => 3
  | Releasing _ _ _ => 2 | Settling _ _ => 1 | Settled _ _ | Failed _ => 0
  end.

Definition relay_measure (r : ResponseRelay) : nat :=
  (sum_list (task_weight <$> rr_tasks r) + length (rr_releases r))%nat.

(** Everything but a new poll and [stop]. *)
Definition settling_action (a : action) : bool :=
  match a with Receive _ | Stop => false | _ => true end.

Lemma measure_put i t t' r :
  rr_tasks r !! i = Some t ->
  (relay_measure (put i t' r) + task_weight t = relay_measure r + task_weight t')%nat.
Proof.
  intros Hi. unfold relay_measure, put; cbn. rewrite insert_take_drop by by apply lookup_lt_Some in Hi.
  rewrite <- (take_drop_middle _ _ _ Hi) at 3. rewrite !fmap_app, !fmap_cons, !sum_list_with_app. cbn. lia.
Qed.

Lemma relay_step_measure a r r' :
  settling_action a = true -> relay_step a r = Some r' -> (relay_measure r' < relay_measure r)%nat.
Proof.
  intros Ha Hs. destruct a as [ms|i|i now|i res|i now|i|i b|i|k|]; cbn in Ha, Hs; try done.
  - destruct (rr_tasks r !! i) as [[]|] eqn:Hi; try done. case_match; [|done]. injection Hs as <-.
    pose proof (measure_put i _ (begin_processing r m) r Hi) as Hm. cbn [task_weight] in Hm.
    assert (task_weight (begin_processing r m) <= 5)%nat
      by (unfold begin_processing; repeat case_match; cbn; lia). lia.
  - destruct (rr_tasks r !! i) as [[]|] eqn:Hi; try done.
    destruct (claim _ now (rr_store r)) as [a s]. injection Hs as <-.
    pose proof (measure_put i _ (after_claim m e a) (set_store s r) Hi) as Hm. cbn [task_weight] in Hm.
    assert (task_weight (after_claim m e a) <= 4)%nat by (destruct a as [[?|[]]|?]; cbn; lia).
    change (relay_measure (set_store s r)) with (relay_measure r) in Hm. lia.
  - destruct (rr_tasks r !! i) as [[]|] eqn:Hi; try done. injection Hs as <-.
    match goal with |- (relay_measure (put i ?t' r) < _)%nat => pose proof (measure_put i _ t' r Hi) as Hm end.
    destruct (delivery_outcome res); cbn [task_weight] in Hm; lia.
  - destruct (rr_tasks r !! i) as [[]|] eqn:Hi; try done.
    destruct (complete c now (rr_store r)) as [a s]. injection Hs as <-.
    match goal with |- (relay_measure (put i ?t' ?r') < _)%nat => pose proof (measure_put i _ t' r' Hi) as Hm end.
    cbn [task_weight] in Hm. change (relay_measure (set_store s r)) with (relay_measure r) in Hm. lia.
  - destruct (rr_tasks r !! i) as [[]|] eqn:Hi; try done. injection Hs as <-.
    match goal with |- (relay_measure (put i ?t' ?r') < _)%nat => pose proof (measure_put i _ t' r' Hi) as Hm end.
    change (relay_measure (set_store _ r)) with (relay_measure r) in Hm.
    destruct o; cbn [task_weight] in Hm; lia.
  - destruct (rr_tasks r !! i) as [[]|] eqn:Hi; try done. injection Hs as <-.
    match goal with |- (relay_measure (put i ?t' ?r') < _)%nat => pose proof (measure_put i _ t' r' Hi) as Hm end.
    destruct b; cbn [task_weight] in Hm; lia.
  - destruct (rr_tasks r !! i) as [t|] eqn:Hi; [|done]. destruct (finished t) eqn:Hf; [done|].
    injection Hs as <-.
    match goal with |- (relay_measure (put i ?t' ?r') < _)%nat => pose proof (measure_put i t t' r') as Hm end.
    destruct t; try done; specialize (Hm Hi); cbn [task_weight after_cancel] in *; try lia.
    unfold relay_measure in *; cbn in *. rewrite !length_app in *. cbn in *. lia.
  - destruct (rr_releases r !! k) as [c|] eqn:Hk; [|done]. injection Hs as <-.
    unfold relay_measure; cbn. pose proof (delete_Permutation _ _ _ Hk) as Hp. apply Permutation_length in Hp.
    cbn in Hp. change (delete k (rr_releases r)) with (list_delete k (rr_releases r)) in Hp. lia.
Qed.

Lemma relay_run_measure l r r' :
  forallb settling_action l = true -> relay_run r l r' -> (length l + relay_measure r' <= relay_measure r)%nat.
Proof.
  intros Hl Hr. induction Hr as [|r a r1 l r2 Hs _ IH]; [cbn; lia|].
  cbn in Hl. apply andb_prop in Hl as [Ha Hl]. apply (relay_step_measure _ _ _ Ha) in Hs.
  specialize (IH Hl). cbn. lia.
Qed.

(** Whatever the environment answers, a relay with an unfinished task can go on. *)
Lemma relay_progress r :
  relay_inv r -> (0 < relay_measure r)%nat ->
  exists a, settling_action a = true /\ is_Some (relay_step a r).
Proof.
  intros Hinv Hm. destruct (rr_releases r) as [|c cs] eqn:Hrel.
  2: { exists (ShieldedRelease 0). cbn. rewrite Hrel. cbn. eauto. }
  destruct (decide (Exists (fun t => inside t = true) (rr_tasks r))) as [Hex|Hnone].
  - apply Exists_exists in Hex as (t & (i & Hi)%list_elem_of_lookup & Hin).
    destruct t as [m|m e|m e c|m e c|m c o|m o|m o|m]; try done.
    + exists (Claim i (float_of_Z 0)). cbn. rewrite Hi.
      destruct (claim _ _ (rr_store r)). eauto.
    + exists (Signal i SignalSent). cbn. rewrite Hi. eauto.
    + exists (Complete i (float_of_Z 0)). cbn. rewrite Hi. destruct (complete c _ (rr_store r)). eauto.
    + exists (Release i). cbn. rewrite Hi. eauto.
    + exists (Settle i true). cbn. rewrite Hi. eauto.
  - apply not_Exists_Forall in Hnone; [|apply _].
    assert (running_tasks r = 0)%nat as Hrun.
    { unfold running_tasks. clear -Hnone. induction Hnone as [|t l Ht _ IH]; [done|].
      by rewrite filter_cons_False. }
    destruct (decide (Exists (fun t => task_weight t <> 0%nat) (rr_tasks r))) as [Hex|Hno].
    + apply Exists_exists in Hex as (t & Ht & Hw). rewrite Forall_forall in Hnone. pose proof (Hnone _ Ht) as Hout.
      apply list_elem_of_lookup in Ht as [i Hi]. cbn in Hout.
      destruct t as [m|m e|m e c|m e c|m c o|m o|m o|m]; try done.
      exists (Enter i). cbn. rewrite Hi, Hrun. pose proof (ri_concurrency r Hinv).
      rewrite (proj2 (Z.ltb_lt _ _)) by lia. eauto.
    + exfalso. apply not_Exists_Forall in Hno; [|apply _]. unfold relay_measure in Hm. rewrite Hrel in Hm. cbn in Hm.
      assert (sum_list (task_weight <$> rr_tasks r) = 0)%nat; [|lia].
      clear -Hno. induction Hno as [|t l Ht _ IH]; [done|]. cbn. apply dec_stable in Ht. lia.
Qed.

Lemma relay_quiet r :
  relay_inv r -> relay_measure r = 0%nat ->
  Forall (fun t => finished t = true) (rr_tasks r) /\ rr_releases r = [] /\ bds_pending (rr_store r) = [].
Proof.
  unfold relay_measure. intros Hinv Hm. assert (rr_releases r = []) as Hrel by (destruct (rr_releases r); [done | cbn in Hm; lia]).
  assert (Forall (fun t => finished t = true) (rr_tasks r)) as Hfin.
  { assert (sum_list (task_weight <$> rr_tasks r) = 0)%nat as Hz by lia. clear -Hz.
    induction (rr_tasks r) as [|t l IH]; [constructor|]. cbn in Hz. constructor; [|apply IH; lia].
    destruct t; cbn in Hz; try lia; done. }
  split_and!; [done|done|]. destruct (bds_pending (rr_store r)) as [|[k c] p] eqn:Hp; [done|exfalso].
  assert (c ∈ owners r) as Hin.
  { apply (claims_owned _ _ (ri_claims r Hinv) k). rewrite Hp. cbn. by rewrite decide_True. }
  unfold owners in Hin. rewrite Hrel, app_nil_r in Hin. apply list_elem_of_bind in Hin as (t & Hc & Ht).
  rewrite Forall_forall in Hfin. specialize (Hfin _ Ht). destruct t; try done; by apply not_elem_of_nil in Hc.
Qed.
End steps.

(** ** Properties *)

Section properties.
Context `{EnvelopeParser}.

Lemma new_relay_inv scope limits n capacity retention s r :
  new_store capacity retention = Ok s -> new_relay scope limits n s = Ok r -> relay_inv r /\ active_inv r.
Proof.
  unfold new_relay. intros Hs Hr. destruct (Z.ltb_spec n 1) as [|Hn]; [done|]. injection Hr as <-.
  split; [|by intros i t e c Hi]. pose proof (new_store_wf _ _ _ Hs) as Hwf.
  constructor; cbn; try done; [|lia].
  assert (bds_pending s = []) as Hp.
  { unfold new_store in Hs. by apply bind_Ok in Hs as (u & _ & (a & _ & (b & _ & [= <-])%bind_Ok)%bind_Ok). }
  constructor; [constructor | constructor | by rewrite Hp].
Qed.

(** C28: However the deliveries of any number of polls interleave, whatever the clock
    reads, however their signals end and wherever they are cancelled, no two tasks of a
    relay that is not stopped signal the same message at the same time, and no more tasks
    are past the semaphore than the configured concurrency allows. *)
Theorem one_delivery_at_a_time scope limits n capacity retention s r0 l r :
  new_store capacity retention = Ok s -> new_relay scope limits n s = Ok r0 ->
  relay_run r0 l r -> Stop ∉ l ->
  (forall i j t t' e e' c c',
     rr_tasks r !! i = Some t -> rr_tasks r !! j = Some t' ->
     active_claim t = Some (e, c) -> active_claim t' = Some (e', c') ->
     relay_message_id e = relay_message_id e' -> i = j) /\
  (Z.of_nat (running_tasks r) <= n)%Z.
Proof.
  intros Hs Hr0 Hrun Hns. destruct (new_relay_inv _ _ _ _ _ _ _ Hs Hr0) as [Hinv0 Hact0].
  destruct (relay_run_active _ _ _ Hns Hinv0 Hact0 Hrun) as [Hinv Hact].
  assert (rr_message_concurrency r = n) as Hn.
  { assert (rr_message_concurrency r0 = n) as <-
      by (unfold new_relay in Hr0; destruct (n <? 1)%Z; [done | by injection Hr0 as <-]).
    clear -Hrun. induction Hrun as [|r a r1 l r2 Hst _ IH]; [done|]. rewrite IH.
    clear -Hst. destruct a; cbn in Hst; repeat case_match; by simplify_eq/=. }
  split; [|rewrite <- Hn; apply Hinv].
  intros i j t t' e e' c c' Hi Hj Hc Hc' Hm. destruct (decide (i = j)) as [|Hne]; [done|exfalso].
  pose proof (Hact _ _ _ _ Hi Hc) as Hh. pose proof (Hact _ _ _ _ Hj Hc') as Hh'.
  pose proof (ri_matches r Hinv) as Hall. rewrite Forall_lookup in Hall.
  pose proof (Hall _ _ Hi) as Hmi. pose proof (Hall _ _ Hj) as Hmj.
  unfold claim_matches in Hmi, Hmj. rewrite Hc in Hmi. rewrite Hc' in Hmj.
  assert (claim_object c' <> claim_object c) as Hobj.
  { eapply distinct_owner; [done|exact Hi|by eapply active_held|].
    eapply other_owners_elem; [exact Hne|exact Hj|by eapply active_held]. }
  unfold holds in Hh, Hh'. rewrite Hmi in Hh. rewrite Hmj, <- Hm in Hh'.
  destruct (dict_get _ _); [|done]. apply bool_decide_eq_true in Hh, Hh'. congruence.
Qed.

(** C29: Every delivery ends, and no claim is lost.  From any state a relay reaches, the
    steps taken without a new poll are bounded, so they end whatever the environment
    does; when no step is left every task has settled its message or failed, no release
    is outstanding and the store holds no claim in flight, [stop] and cancellations
    included. *)
Theorem deliveries_settle scope limits n capacity retention s r0 l r :
  new_store capacity retention = Ok s -> new_relay scope limits n s = Ok r0 -> relay_run r0 l r ->
  (forall l' r', relay_run r l' r' -> forallb settling_action l' = true -> (length l' <= relay_measure r)%nat) /\
  ((forall a, settling_action a = true -> relay_step a r = None) ->
     Forall (fun t => finished t = true) (rr_tasks r) /\ rr_releases r = [] /\ bds_pending (rr_store r) = []).
Proof.
  intros Hs Hr0 Hrun. destruct (new_relay_inv _ _ _ _ _ _ _ Hs Hr0) as [Hinv0 _].
  pose proof (relay_run_inv _ _ _ Hinv0 Hrun) as Hinv. split.
  - intros l' r' Hr' Hl'. pose proof (relay_run_measure _ _ _ Hl' Hr'). lia.
  - intros Hstuck. apply relay_quiet; [done|].
    destruct (decide (relay_measure r = 0)%nat) as [|Hpos]; [done|exfalso].
    destruct (relay_progress r Hinv) as (a & Ha & r' & Hr'); [lia|]. by rewrite Hstuck in Hr'.
Qed.

(** The test of the scope comes down to the owner of the scope digest: an envelope that
    is refused by [owns] has another digest, so the second test is never reached. *)
Lemma scope_test_exact scope e0 e :
  (scoped ←
     (if bool_decide (ce_scope_digest (relay_common e0) = Some (digest scope))
      then identity_belongs_to_scope (ce_workflow_id (relay_common e0)) "workflow" scope
      else Ok false);
   if negb (legacy_owns (ce_scope_digest (relay_common e0)) scope) && negb scoped
   then raise TypeError "Response envelope does not belong to the runtime scope"
   else Ok e0) = Ok e
  <-> e0 = e /\ legacy_owns (ce_scope_digest (relay_common e0)) scope = true.
Proof.
  assert (exists b, identity_belongs_to_scope (ce_workflow_id (relay_common e0)) "workflow" scope = Ok b) as [b Hb].
  { unfold identity_belongs_to_scope, scoped_identity_prefix.
    change (validate_identity_kind "workflow") with (@Ok exn unit ()). cbn. eauto. }
  rewrite Hb. unfold legacy_owns, owns.
  destruct (bool_decide (ce_scope_digest (relay_common e0) = _)); cbn [mbind result_bind negb andb].
  - split; [by intros [= ->] | by intros [-> _]].
  - destruct (_ && _ && _); cbn; (split; [try done; by intros [= ->] | try (by intros [_ ?]); by intros [-> _]]).
Qed.

Lemma reply_names_invocation body e :
  parse_async_envelope body = Ok (StepResponseMessage e) ->
  sr_step_invocation_id e
    = make_step_invocation_id (ce_workflow_id (sr_common e)) (sr_workflow_run_id e) (sr_step_name e).
Proof.
  intros Hv%parse_valid. unfold valid_envelope in Hv. apply andb_prop in Hv as [_ Hv].
  unfold validate_reply_identity in Hv. destruct (bool_decide (sr_step_invocation_id e = _)) eqn:Hid; [|done].
  by apply bool_decide_eq_true in Hid.
Qed.

Lemma signal_addresses e :
  sc_workflow_id (signal_of e) = ce_workflow_id (relay_common e) /\
  sc_run_id (signal_of e) = match e with inl e => sr_workflow_run_id e | inr e => ee_workflow_run_id e end.
Proof. destruct e as [e|e]; [|done]. unfold signal_of. by destruct (sr_body e). Qed.

End properties.

(** ** Samples *)

#[local] Existing Instance sample_sha256.

(** An event of the sample scope that names a workflow of the local scope. *)
Definition sample_event : EventEnvelope := {|
  ee_common := {|
    ce_message_id := "event-1";
    ce_workflow_name := "orders";
    ce_definition_digest := hexdigest "orders";
    ce_workflow_id :=
      match scoped_identity "workflow" LOCAL_RUNTIME_SCOPE ["orders"; "42"] with Ok v => v | Raise _ => "" end;
    ce_correlation_id := "42";
    ce_causation_id := None;
    ce_trace_id := None;
    ce_scope_digest := Some (digest sample_scope);
  |};
  ee_workflow_run_id := "run-1";
  ee_event_name := "paid";
  ee_payload := JInt 7;
|}.

Definition sample_parse (body : string) : res AsyncEnvelope :=
  if String.eqb body "event" then Ok (EventMessage sample_event)
  else raise (ExternalError "JSONDecodeError" None None None) "Expecting value".

Lemma sample_parse_valid body e : sample_parse body = Ok e -> valid_envelope e = true.
Proof.
  unfold sample_parse. destruct (String.eqb body "event"); [|done]. intros [= <-]. vm_compute. reflexivity.
Qed.

#[local] Instance sample_parser : EnvelopeParser :=
  {| parse_async_envelope := sample_parse; parse_valid := sample_parse_valid |}.

Lemma relay_exec_run l r r' : relay_exec l r = Some r' -> relay_run r l r'.
Proof.
  revert r; induction l as [|a l IH]; intros r; cbn; [intros [= ->]; constructor|].
  destruct (relay_step a r) as [r1|] eqn:Hs; [|done]. intros Hl. econstructor; [exact Hs | by apply IH].
Qed.

Definition sample_message (n : nat) : ReceivedMessage :=
  {| rm_body := "event"; rm_broker_message_id := nat_to_string n; rm_delivery_attempt := 1;
     rm_settlement_token := n |}.

Definition sample_relay : ResponseRelay := {|
  rr_scope := sample_scope; rr_limits := DEFAULT_RUNTIME_LIMITS; rr_message_concurrency := 2;
  rr_store := sample_store; rr_tasks := []; rr_releases := [];
|}.

(** Two copies of one message: while the first is signalled the second is put off; the
    first is cancelled, then its claim is released. *)
Definition sample_actions : list action :=
  [Receive [sample_message 0; sample_message 1]; Enter 0; Claim 0 (float_of_Z 1); Enter 1;
   Claim 1 (float_of_Z 2); Settle 1 true].

Definition sample_state : ResponseRelay :=
  match relay_exec sample_actions sample_relay with Some r => r | None => sample_relay end.

Lemma one_delivery_at_a_time_witness :
  rr_tasks sample_state !! 1%nat
    = Some (Settled (sample_message 1) (Retry "response delivery is in flight or capacity is exhausted")) /\
  (Z.of_nat (running_tasks sample_state) <= 2)%Z.
Proof.
  split; [vm_compute; reflexivity|].
  apply (one_delivery_at_a_time sample_scope DEFAULT_RUNTIME_LIMITS 2 3 (RInt 60) sample_store sample_relay
    sample_actions sample_state eq_refl eq_refl).
  - apply relay_exec_run. vm_compute. reflexivity.
  - unfold sample_actions. rewrite !not_elem_of_cons. split_and!; [done..|apply not_elem_of_nil].
Defined.

Definition sample_ending : list action := sample_actions ++ [CancelTask 0; CancelTask 0; ShieldedRelease 0].

Definition sample_end : ResponseRelay :=
  match relay_exec sample_ending sample_relay with Some r => r | None => sample_relay end.

Lemma deliveries_settle_witness :
  Forall (fun t => finished t = true) (rr_tasks sample_end) /\
  rr_releases sample_end = [] /\ bds_pending (rr_store sample_end) = [].
Proof.
  apply (deliveries_settle sample_scope DEFAULT_RUNTIME_LIMITS 2 3 (RInt 60) sample_store sample_relay
    sample_ending sample_end eq_refl eq_refl).
  - apply relay_exec_run. vm_compute. reflexivity.
  - assert (rr_tasks sample_end = [Failed (sample_message 0);
      Settled (sample_message 1) (Retry "response delivery is in flight or capacity is exhausted")]) as Ht
      by (vm_compute; reflexivity).
    assert (rr_releases sample_end = []) as Hr by (vm_compute; reflexivity).
    revert Ht Hr. generalize sample_end. intros r Ht Hr.
    intros [ms|i|i now|i res|i now|i|i b|i|k|]; try done; intros _; cbn; rewrite ?Hr, ?Ht; try done;
      destruct i as [|[|i]]; done.
Defined.

(** The envelope names a workflow outside the scope of the relay, and is relayed. *)
Example foreign_workflow_relayed :
  read_response sample_scope DEFAULT_RUNTIME_LIMITS (sample_message 0) = Ok (inr sample_event) /\
  identity_belongs_to_scope (ce_workflow_id (ee_common sample_event)) "workflow" sample_scope = Ok false.
Proof. split; vm_compute; reflexivity. Qed.

