(* ===== verification/FloatBounds.v ===== *)
(** Rounding of binary64 arithmetic keeps a bound that is a power of two, and products,
    sums and differences of bounded floats stay bounded.  The delays of [Consumer] follow
    from these facts. *)

From S2P Require Export Floats.

Local Open Scope Z_scope.

(** The magnitude [m * 2^e] is at most [2^k]. *)
Definition within (k m e : Z) : Prop := e <= k /\ 0 <= m <= 2 ^ (k - e).

(** ** Rounding *)

(** [m] shifted right by [j] bits, with the record of the bits that were lost. *)
Definition shifted (m j : Z) (r : shr_record) : Prop :=
  0 <= shr_m r /\
  exists rem, m = shr_m r * 2 ^ j + rem /\ 0 <= rem < 2 ^ j /\
    (rem = 0 <-> shr_r r || shr_s r = false).

Lemma shr_1_shifted m j r : 0 <= j -> shifted m j r -> shifted m (j + 1) (shr_1 r).
Proof.
  intros Hj (Hpos & rem & Hm & Hrem & Hex). destruct r as [q rb sb]. cbn in *.
  assert (2 ^ (j + 1) = 2 * 2 ^ j) as Hpow by (rewrite Z.pow_add_r by lia; lia).
  assert (0 < 2 ^ j) as Hj0 by (apply Z.pow_pos_nonneg; lia).
  destruct q as [|[p|p|]|p]; [| | | |lia]; cbn; (split; [cbn; lia|]); cbn.
  - exists rem. rewrite Hpow. split_and!; [lia|lia|lia|done].
  - exists (2 ^ j + rem). rewrite Hpow. split_and!; [lia|lia|lia|]. split; [lia|done].
  - exists rem. rewrite Hpow. split_and!; [lia|lia|lia|done].
  - exists (2 ^ j + rem). rewrite Hpow. split_and!; [lia|lia|lia|]. split; [lia|done].
Qed.

Lemma iter_shr_shifted m p j r :
  0 <= j -> shifted m j r -> shifted m (j + Z.pos p) (SpecFloat.iter_pos shr_1 p r).
Proof.
  revert j r; induction p as [p IH|p IH|]; intros j r Hj Hr; cbn [SpecFloat.iter_pos].
  - replace (j + Z.pos p~1) with (j + 1 + Z.pos p + Z.pos p) by lia.
    apply IH; [lia|]. apply IH; [lia|]. by apply shr_1_shifted.
  - replace (j + Z.pos p~0) with (j + Z.pos p + Z.pos p) by lia. apply IH; [lia|]. by apply IH.
  - by apply shr_1_shifted.
Qed.

Lemma digits2_lower p : 2 ^ (Z.pos (digits2_pos p) - 1) <= Z.pos p.
Proof.
  induction p as [p IH|p IH|]; cbn [digits2_pos]; [| |done];
    replace (Z.pos (Pos.succ (digits2_pos p)) - 1) with (Z.pos (digits2_pos p) - 1 + 1) by lia;
    rewrite Z.pow_add_r by lia; lia.
Qed.

Lemma digits2_upper p : Z.pos p < 2 ^ Z.pos (digits2_pos p).
Proof.
  induction p as [p IH|p IH|]; cbn [digits2_pos]; [| |by vm_compute];
    rewrite Pos2Z.inj_succ, Z.pow_succ_r by lia; lia.
Qed.

Lemma digits2_within k m e : within k m e -> Zdigits2 m + e <= k + 1.
Proof.
  intros (He & Hm & Hle). destruct m as [|p|p]; cbn; [lia| |lia].
  pose proof (digits2_lower p) as Hlow.
  assert (Z.pos (digits2_pos p) - 1 <= k - e); [|lia].
  apply (Z.pow_le_mono_r_iff 2); lia.
Qed.

Abbreviation fexp64 := (fexp 53 1024).

Lemma fexp64_spec x : fexp64 x = Z.max (x - 53) (-1074).
Proof. reflexivity. Qed.

(** Both the truncated and the rounded mantissa stay within the bound. *)
Lemma shr_fexp_within k m e :
  -1074 <= k -> within k m e ->
  let '(r, e') := shr_fexp 53 1024 m e loc_Exact in
  within k (round_nearest_even (shr_m r) (loc_of_shr_record r)) e' /\ within k (shr_m r) e'.
Proof.
  intros Hk Hw. pose proof (digits2_within k m e Hw) as Hd. destruct Hw as (He & Hm & Hle).
  unfold shr_fexp, shr, shr_record_of_loc.
  destruct (fexp64 (Zdigits2 m + e) - e) as [|n|n] eqn:Hn; [by repeat split| |by repeat split].
  assert (shifted m 0 (Build_shr_record m false false)) as H0.
  { split; [done|]. exists 0. cbn. split_and!; lia. }
  apply (iter_shr_shifted _ n) in H0; [|lia]. rewrite Z.add_0_l in H0.
  set (r := SpecFloat.iter_pos shr_1 n _) in *. destruct H0 as (Hpos & rem & Hval & Hrem & Hex).
  assert (e + Z.pos n <= k) as He' by (rewrite fexp64_spec in Hn; lia).
  assert (2 ^ (k - e) = 2 ^ (k - (e + Z.pos n)) * 2 ^ Z.pos n) as Hpow
    by (rewrite <- Z.pow_add_r by lia; f_equal; lia).
  assert (0 < 2 ^ Z.pos n) as Hn0 by (apply Z.pow_pos_nonneg; lia).
  assert (shr_m r <= 2 ^ (k - (e + Z.pos n))) as Htr by (rewrite Hpow in Hle; nia).
  split; [|by repeat split]. split; [done|].
  destruct r as [q rb sb]. cbn [shr_m shr_r shr_s] in *.
  assert (rem <> 0 -> q + 1 <= 2 ^ (k - (e + Z.pos n))) as Hup by (rewrite Hpow in Hle; nia).
  destruct rb, sb; cbn in *; try (destruct (Z.even q)); try lia;
    (assert (rem <> 0) as Hnz by (intros ?%Hex; done)); specialize (Hup Hnz); lia.
Qed.

(** A float of sign [s], or a zero, of magnitude at most [2^k]. *)
Definition bounded_by (k : Z) (s : bool) (f : spec_float) : Prop :=
  match f with
  | S754_zero _ => True
  | S754_finite s' m e => s' = s /\ within k (Z.pos m) e
  | _ => False
  end.

(** A float of sign [s], a zero or an infinity of that sign. *)
Definition signed (s : bool) (f : spec_float) : Prop :=
  match f with
  | S754_zero _ => True
  | S754_finite s' _ _ | S754_infinity s' => s' = s
  | S754_nan => False
  end.

Lemma round_aux_bounded s k m e :
  -1074 <= k <= 971 -> within k m e -> bounded_by k s (binary_round_aux 53 1024 s m e loc_Exact).
Proof.
  intros Hk Hw. unfold binary_round_aux.
  pose proof (shr_fexp_within k m e ltac:(lia) Hw) as H1. destruct (shr_fexp 53 1024 m e loc_Exact) as [r1 e1].
  destruct H1 as [H1 _].
  pose proof (shr_fexp_within k _ e1 ltac:(lia) H1) as H2. destruct (shr_fexp 53 1024 _ e1 loc_Exact) as [r2 e2].
  destruct H2 as [_ H2]. pose proof H2 as (He2 & Hpos & _).
  destruct (shr_m r2) as [|p|p]; [done| |lia].
  rewrite (proj2 (Z.leb_le _ _)) by lia. done.
Qed.

Lemma within_large m e : 0 <= m -> exists k, -1074 <= k /\ within k m e.
Proof.
  intros Hm. exists (Z.max (-1074) (e + m)). split; [lia|]. split; [lia|]. split; [done|].
  transitivity (2 ^ m); [pose proof (Z.pow_gt_lin_r 2 m); lia|]. apply Z.pow_le_mono_r; lia.
Qed.

Lemma round_aux_signed s m e : 0 <= m -> signed s (binary_round_aux 53 1024 s m e loc_Exact).
Proof.
  intros Hm. destruct (within_large m e Hm) as (k & Hk & Hw). unfold binary_round_aux.
  pose proof (shr_fexp_within k m e Hk Hw) as H1. destruct (shr_fexp 53 1024 m e loc_Exact) as [r1 e1].
  destruct H1 as [H1 _].
  pose proof (shr_fexp_within k _ e1 Hk H1) as H2. destruct (shr_fexp 53 1024 _ e1 loc_Exact) as [r2 e2].
  destruct H2 as [_ (_ & Hpos & _)]. destruct (shr_m r2) as [|p|p]; [done| |lia]. by destruct (e2 <=? _).
Qed.

Lemma shl_pos m d : Z.pos (Pos.iter xO m d) = Z.pos m * 2 ^ Z.pos d.
Proof.
  induction d as [|d IH] using Pos.peano_ind; [cbn; lia|].
  rewrite Pos.iter_succ, Pos2Z.inj_succ, Z.pow_succ_r by lia.
  change (Z.pos (Pos.iter xO m d)~0) with (2 * Z.pos (Pos.iter xO m d)). rewrite IH. lia.
Qed.

(** Aligning keeps the value: [m * 2^e = m' * 2^e'] with [e' <= e]. *)
Lemma shl_align_value m e e' :
  let '(m', e'') := shl_align m e e' in e'' <= e /\ Z.pos m' = Z.pos m * 2 ^ (e - e'').
Proof.
  unfold shl_align. destruct (e' - e) as [|d|d] eqn:Hd.
  - split; [lia|]. rewrite Z.sub_diag. cbn. lia.
  - split; [lia|]. rewrite Z.sub_diag. cbn. lia.
  - split; [lia|]. rewrite shl_pos. do 2 f_equal. lia.
Qed.

Lemma round_bounded s k m e :
  -1074 <= k <= 971 -> within k (Z.pos m) e -> bounded_by k s (binary_round 53 1024 s m e).
Proof.
  intros Hk (He & Hm & Hle). unfold binary_round.
  pose proof (shl_align_value m e (fexp64 (Z.pos (digits2_pos m) + e))) as Ha.
  destruct (shl_align m e _) as [m' e']. destruct Ha as [He' Hm']. apply round_aux_bounded; [done|].
  split; [lia|]. split; [lia|]. rewrite Hm'. replace (k - e') with ((k - e) + (e - e')) by lia.
  rewrite Z.pow_add_r by lia. apply Z.mul_le_mono_nonneg_r; [|done]. apply Z.pow_nonneg. lia.
Qed.

Lemma round_signed s m e : signed s (binary_round 53 1024 s m e).
Proof.
  unfold binary_round. destruct (shl_align m e _) as [m' e']. apply round_aux_signed. lia.
Qed.

(** [m] is at most the unit [2^(- e)] below the exponent [e <= 0]. *)
Lemma normalize_nonneg k z e :
  -1074 <= k <= 971 -> within k z e -> bounded_by k false (binary_normalize 53 1024 z e false).
Proof.
  intros Hk Hw. pose proof Hw as (_ & Hz & _). destruct z as [|p|p]; cbn [binary_normalize]; [done| |lia].
  by apply round_bounded.
Qed.

(** ** Arithmetic *)

Lemma shl_align_fst m e e' : e' <= e -> Z.pos (fst (shl_align m e e')) = Z.pos m * 2 ^ (e - e').
Proof.
  intros He. unfold shl_align. destruct (e' - e) as [|d|d] eqn:Hd; cbn [fst]; [|lia|].
  - replace (e - e') with 0 by lia. cbn. lia.
  - rewrite shl_pos. do 2 f_equal. lia.
Qed.

Lemma within_align k m e e' : e' <= e -> within k m e -> m * 2 ^ (e - e') <= 2 ^ (k - e').
Proof.
  intros He' (He & Hm & Hle). replace (k - e') with ((k - e) + (e - e')) by lia.
  rewrite Z.pow_add_r by lia. apply Z.mul_le_mono_nonneg_r; [|done]. apply Z.pow_nonneg. lia.
Qed.

(** [1.0] *)
Lemma float_one : float_of_Z 1 = S754_finite false 4503599627370496 (-52).
Proof. reflexivity. Qed.

Lemma one_align e : e <= -52 -> Z.pos 4503599627370496 * 2 ^ (-52 - e) = 2 ^ (- e).
Proof.
  intros He. change (Z.pos 4503599627370496) with (2 ^ 52). rewrite <- Z.pow_add_r by lia. f_equal. lia.
Qed.

Lemma float_mul_bounded a b s s' f g :
  -1074 <= a + b <= 971 -> bounded_by a s f -> bounded_by b s' g ->
  bounded_by (a + b) (xorb s s') (float_mul f g).
Proof.
  intros Hk Hf Hg. destruct f as [|?| |sf m e], g as [|?| |sg m' e']; try done.
  destruct Hf as (-> & He & _ & Hle), Hg as (-> & He' & _ & Hle').
  apply round_aux_bounded; [done|]. split; [lia|]. split; [lia|].
  replace (a + b - (e + e')) with ((a - e) + (b - e')) by lia.
  rewrite Z.pow_add_r, Pos2Z.inj_mul by lia. apply Z.mul_le_mono_nonneg; lia.
Qed.

Lemma float_mul_signed s s' f g :
  isfinite f = true -> isfinite g = true -> signed s f -> signed s' g -> signed (xorb s s') (float_mul f g).
Proof.
  intros Hf Hg Sf Sg. destruct f as [|?| |sf m e], g as [|?| |sg m' e']; try done.
  cbn in Sf, Sg. subst. apply round_aux_signed. lia.
Qed.

Lemma float_sub_one f :
  bounded_by 1 false f -> exists s, bounded_by 0 s (float_sub f (float_of_Z 1)).
Proof.
  intros Hf. rewrite float_one. destruct f as [sf|?| |sf m e]; try done.
  - exists true. cbn. split; [done|]. split; [lia|]. split; [lia|]. by vm_compute.
  - destruct Hf as [-> Hw]. unfold float_sub, SFsub. cbn [cond_Zopp].
    pose proof (Z.le_min_l e (-52)). pose proof (Z.le_min_r e (-52)).
    set (z := Z.min e (-52)) in *. clearbody z. rewrite !shl_align_fst, one_align by lia.
    pose proof (within_align 1 (Z.pos m) e z ltac:(lia) Hw) as Hx. destruct Hw as (He & Hm & _).
    replace (1 - z) with (Z.succ (- z)) in Hx by lia. rewrite Z.pow_succ_r in Hx by lia.
    assert (0 <= Z.pos m * 2 ^ (e - z)) as Hx0 by (apply Z.mul_nonneg_nonneg; [lia|apply Z.pow_nonneg; lia]).
    destruct (Z.pos m * 2 ^ (e - z) - 2 ^ (- z)) as [|p|p] eqn:Hp; cbn [binary_normalize].
    + by exists false.
    + exists false. apply round_bounded; [lia|]. split; [lia|]. rewrite Z.sub_0_l. lia.
    + exists true. apply round_bounded; [lia|]. split; [lia|]. rewrite Z.sub_0_l. lia.
Qed.

Lemma float_one_add s f :
  bounded_by 0 s f -> bounded_by 1 false (float_add (float_of_Z 1) f).
Proof.
  intros Hf. rewrite float_one. destruct f as [sf|sf| |sf m e]; [|done|done|].
  - change (bounded_by 1 false (S754_finite false 4503599627370496 (-52))). split; [done|]. split; [lia|]. split; [lia|]. by vm_compute.
  - destruct Hf as [-> Hw]. unfold float_add, SFadd. cbn [cond_Zopp].
    pose proof (Z.le_min_l (-52) e). pose proof (Z.le_min_r (-52) e).
    set (z := Z.min (-52) e) in *. clearbody z. rewrite !shl_align_fst, one_align by lia.
    pose proof (within_align 0 (Z.pos m) e z ltac:(lia) Hw) as Hx. rewrite Z.sub_0_l in Hx. destruct Hw as (He & Hm & _).
    assert (0 <= Z.pos m * 2 ^ (e - z)) as Hx0 by (apply Z.mul_nonneg_nonneg; [lia|apply Z.pow_nonneg; lia]).
    apply normalize_nonneg; [lia|]. split; [lia|]. replace (1 - z) with (Z.succ (- z)) by lia.
    rewrite Z.pow_succ_r by lia. destruct s; cbn [cond_Zopp]; lia.
Qed.

(** A float of the interpreter between zero and one. *)
Lemma float_unit f :
  valid_binary 53 1024 f = true -> float_le (float_of_Z 0) f = true -> float_le f (float_of_Z 1) = true ->
  bounded_by 0 false f.
Proof.
  rewrite float_one. change (float_of_Z 0) with (S754_zero false). unfold float_le, SFleb.
  destruct f as [s|s| |s m e]; cbn [SFcompare]; [done|by destruct s|done|].
  intros Hv H0 H1. destruct s; [done|].
  split; [done|]. cbn in Hv. unfold bounded, canonical_mantissa in Hv.
  apply andb_prop in Hv as [Hv%Z.eqb_eq _]. rewrite fexp64_spec in Hv.
  destruct (Z.compare_spec e (-52)) as [->|Hlt|]; [| |done].
  - split; [lia|]. split; [lia|].
    assert (2 ^ (0 - -52) = Z.pos 4503599627370496) as -> by reflexivity.
    revert H1. generalize 4503599627370496%positive. intros b H1.
    destruct (Pos.compare_spec m b) as [->|Hlt|Hgt]; [lia|lia|exfalso].
    apply Pos.compare_gt_iff in Hgt. unfold Pos.compare in Hgt. by rewrite Hgt in H1.
  - split; [lia|]. split; [lia|]. rewrite Z.sub_0_l.
    transitivity (2 ^ Z.pos (digits2_pos m)); [|apply Z.pow_le_mono_r; lia].
    apply Z.lt_le_incl, digits2_upper.
Qed.
