(* ===== verification/Consumer.v ===== *)
(** The polling loop that [engine/response_relay.py] and [engine/trigger_ingress.py]
    share, its readiness, and the reconnect backoff of [engine/consumer_backoff.py]. *)

From S2P Require Export Floats.

(** ** Backoff *)

(** [ConsumerReconnectSettings] *)
Record ConsumerReconnectSettings := {
  initial_delay_seconds : spec_float;
  max_delay_seconds : spec_float;
  multiplier : spec_float;
  jitter_fraction : spec_float;
}.

Definition MAX_CONSUMER_RECONNECT_SECONDS : spec_float := float_of_Z 300.
Definition MAX_CONSUMER_RECONNECT_MULTIPLIER : spec_float := float_of_Z 10.

(** The bounds of the fields and [validate_delay_bounds]. *)
Definition valid_reconnect_settings (p : ConsumerReconnectSettings) : bool :=
  float_lt (float_of_Z 0) (initial_delay_seconds p)
  && float_le (initial_delay_seconds p) MAX_CONSUMER_RECONNECT_SECONDS
  && float_lt (float_of_Z 0) (max_delay_seconds p)
  && float_le (max_delay_seconds p) MAX_CONSUMER_RECONNECT_SECONDS
  && float_lt (float_of_Z 1) (multiplier p)
  && float_le (multiplier p) MAX_CONSUMER_RECONNECT_MULTIPLIER
  && float_le (float_of_Z 0) (jitter_fraction p)
  && float_le (jitter_fraction p) (float_of_Z 1)
  && negb (float_lt (max_delay_seconds p) (initial_delay_seconds p)).

(** [min(a, b)] on floats *)
Definition float_min (a b : spec_float) : spec_float := if float_lt b a then b else a.

(** A float used as a truth value. *)
Definition float_truth (f : spec_float) : bool :=
  match f with S754_zero _ => false | _ => true end.

(** [0.5] *)
Definition float_half : spec_float := S754_finite false 4503599627370496 (-53).

(** [ConsumerReconnectBackoff] *)
Record ConsumerReconnectBackoff := {
  cb_policy : ConsumerReconnectSettings;
  cb_next_base_delay : spec_float;
  cb_failure_count : Z;
}.

(** [ConsumerReconnectBackoff.__init__] *)
Definition new_backoff (policy : ConsumerReconnectSettings) : ConsumerReconnectBackoff :=
  {| cb_policy := policy; cb_next_base_delay := initial_delay_seconds policy; cb_failure_count := 0 |}.

(** [next_delay], with what the jitter source would return. *)
Definition next_delay (jitter : spec_float) (b : ConsumerReconnectBackoff)
  : res (spec_float * ConsumerReconnectBackoff) :=
  let p := cb_policy b in
  let sample := if float_truth (jitter_fraction p) then jitter else float_half in
  if negb (float_le (float_of_Z 0) sample && float_le sample (float_of_Z 1))
  then raise ValueError "Consumer reconnect jitter source must return a value from 0 to 1"
  else
    let jitter_factor :=
      float_add (float_of_Z 1)
        (float_mul (jitter_fraction p) (float_sub (float_mul (float_of_Z 2) sample) (float_of_Z 1))) in
    let delay := float_min (float_mul (cb_next_base_delay b) jitter_factor) (max_delay_seconds p) in
    Ok (delay,
        {| cb_policy := p;
           cb_next_base_delay :=
             float_min (float_mul (cb_next_base_delay b) (multiplier p)) (max_delay_seconds p);
           cb_failure_count := cb_failure_count b + 1 |}).

(** [reset] *)
Definition reset (b : ConsumerReconnectBackoff) : ConsumerReconnectBackoff := new_backoff (cb_policy b).

(** ** The polling loop *)

(** Where [start] stands: not called, awaiting a poll, asleep after a failed one, or over. *)
Inductive loop_phase := Idle | Polling | Sleeping | Over.

(** The fields of the two consumers that the loop uses. *)
Record consumer := {
  cs_running : bool;
  cs_ready : bool;
  cs_reported_ready : bool;
  cs_reconnect_backoff : ConsumerReconnectBackoff;
  cs_phase : loop_phase;
}.

Inductive consumer_effect :=
| ReadinessCallback (ready : bool)
| SleepFor (seconds : spec_float).

(** What happens next: [start] is called (again once it is over), the poll returns or raises, the sleep ends, or
    [stop] is called. *)
Inductive consumer_event :=
| Started
| PollReturned
| PollRaised (jitter : spec_float)
| Woke
| Stopped.

Definition new_consumer (policy : ConsumerReconnectSettings) : consumer :=
  {| cs_running := false; cs_ready := false; cs_reported_ready := false;
     cs_reconnect_backoff := new_backoff policy; cs_phase := Idle |}.

(** [_set_ready] *)
Definition set_ready (ready : bool) (c : consumer) : consumer * list consumer_effect :=
  let c' := {| cs_running := cs_running c; cs_ready := ready; cs_reported_ready := ready;
               cs_reconnect_backoff := cs_reconnect_backoff c; cs_phase := cs_phase c |} in
  (c', if Bool.eqb ready (cs_reported_ready c) then [] else [ReadinessCallback ready]).

Definition set_backoff (b : ConsumerReconnectBackoff) (c : consumer) : consumer :=
  {| cs_running := cs_running c; cs_ready := cs_ready c; cs_reported_ready := cs_reported_ready c;
     cs_reconnect_backoff := b; cs_phase := cs_phase c |}.

Definition set_phase (p : loop_phase) (c : consumer) : consumer :=
  {| cs_running := cs_running c; cs_ready := cs_ready c; cs_reported_ready := cs_reported_ready c;
     cs_reconnect_backoff := cs_reconnect_backoff c; cs_phase := p |}.

Definition set_running (b : bool) (c : consumer) : consumer :=
  {| cs_running := b; cs_ready := cs_ready c; cs_reported_ready := cs_reported_ready c;
     cs_reconnect_backoff := cs_reconnect_backoff c; cs_phase := cs_phase c |}.

(** [while self._running] *)
Definition loop_again (c : consumer) : consumer :=
  set_phase (if cs_running c then Polling else Over) c.

(** One event; [None] when it cannot happen in this phase.  An exception of [next_delay]
    leaves [start]. *)
Definition consumer_step (e : consumer_event) (c : consumer) : option (consumer * list consumer_effect) :=
  match e, cs_phase c with
  | Started, Idle | Started, Over => Some (set_phase Polling (set_running true c), [])
  | PollReturned, Polling =>
      let c := set_backoff (reset (cs_reconnect_backoff c)) c in
      let '(c, effects) := if cs_running c then set_ready true c else (c, []) in
      Some (loop_again c, effects)
  | PollRaised jitter, Polling =>
      let '(c, effects) := set_ready false c in
      match next_delay jitter (cs_reconnect_backoff c) with
      | Ok (retry_delay, b) => Some (set_phase Sleeping (set_backoff b c), effects ++ [SleepFor retry_delay])
      | Raise _ => Some (set_phase Over c, effects)
      end
  | Woke, Sleeping => Some (loop_again c, [])
  | Stopped, _ => Some (set_ready false (set_running false c))
  | _, _ => None
  end.

Inductive consumer_run : consumer -> list consumer_event -> list consumer_effect -> consumer -> Prop :=
| consumer_nil c : consumer_run c [] [] c
| consumer_cons c e c' effects es effects' c'' :
    consumer_step e c = Some (c', effects) -> consumer_run c' es effects' c'' ->
    consumer_run c (e :: es) (effects ++ effects') c''.
