(* ===== verification/ConsumerFacts.v ===== *)
(** The polling loop: its delays are bounded, and the host is told of each change of
    readiness once. *)

From S2P Require Export Consumer FloatBounds.

(** ** Comparisons *)

Lemma SFcompare_opp a b : SFcompare b a = CompOpp <$> SFcompare a b.
Proof.
  destruct a as [sa|sa| |sa ma ea], b as [sb|sb| |sb mb eb]; cbn; try done; try (by destruct sa);
    try (by destruct sb); try (by destruct sa, sb).
  rewrite (Z.compare_antisym ea eb). destruct sa, sb; cbn; try done; destruct (ea ?= eb)%Z; cbn; try done;
    f_equal; fold (Pos.compare mb ma) (Pos.compare ma mb); rewrite (Pos.compare_antisym ma mb); done.
Qed.

Lemma signed_nonneg f : signed false f -> float_le (float_of_Z 0) f = true.
Proof.
  change (float_of_Z 0) with (S754_zero false). destruct f as [s|s| |s m e]; cbn; try done; by intros ->.
Qed.

(** Below a positive finite float [min] keeps a sign and becomes finite. *)
Lemma float_min_bounds d m e :
  let top := S754_finite false m e in
  signed false d ->
  signed false (float_min d top) /\ isfinite (float_min d top) = true /\ float_le (float_min d top) top = true.
Proof.
  intros top Hd. assert (float_le top top = true) as Htop.
  { unfold top, float_le, SFleb. cbn. rewrite Z.compare_refl. fold (Pos.compare m m). by rewrite Pos.compare_refl. }
  unfold float_min, float_lt, SFltb. rewrite (SFcompare_opp d top).
  destruct (SFcompare d top) as [c|] eqn:Hc; cbn [fmap option_fmap option_map].
  - destruct c; cbn [CompOpp]; [| |done]; (split_and!; [done| |unfold float_le, SFleb; by rewrite Hc]);
      destruct d as [s|s| |s m' e']; try done; cbn in Hd; subst; by cbn in Hc.
  - exfalso. destruct d; by cbn in Hc.
Qed.

(** ** Backoff *)

(** The settings as floats of the interpreter. *)
Definition settings_floats (p : ConsumerReconnectSettings) : bool :=
  valid_binary 53 1024 (initial_delay_seconds p) && valid_binary 53 1024 (max_delay_seconds p)
  && valid_binary 53 1024 (multiplier p) && valid_binary 53 1024 (jitter_fraction p).

Record backoff_ok (b : ConsumerReconnectBackoff) : Prop := {
  bo_max : exists m e, max_delay_seconds (cb_policy b) = S754_finite false m e;
  bo_initial : signed false (initial_delay_seconds (cb_policy b)) /\
    isfinite (initial_delay_seconds (cb_policy b)) = true;
  bo_base : signed false (cb_next_base_delay b) /\ isfinite (cb_next_base_delay b) = true;
  bo_multiplier : signed false (multiplier (cb_policy b)) /\ isfinite (multiplier (cb_policy b)) = true;
  bo_jitter : bounded_by 0 false (jitter_fraction (cb_policy b));
}.

Lemma positive_below f g :
  float_lt (float_of_Z 0) f = true -> float_le f g = true -> isfinite g = true ->
  exists m e, f = S754_finite false m e.
Proof.
  change (float_of_Z 0) with (S754_zero false).
  unfold float_lt, float_le, SFltb, SFleb. destruct f as [s|s| |s m e]; cbn; try done.
  - destruct s; [done|]. by destruct g.
  - destruct s; [done|]. eauto.
Qed.

Lemma above_one f g :
  float_lt (float_of_Z 1) f = true -> float_le f g = true -> isfinite g = true ->
  signed false f /\ isfinite f = true.
Proof.
  rewrite float_one. unfold float_lt, float_le, SFltb, SFleb. destruct f as [s|s| |s m e]; cbn [SFcompare]; try done.
  - destruct s; [done|]. by destruct g.
  - by destruct s.
Qed.

Lemma new_backoff_ok p :
  valid_reconnect_settings p = true -> settings_floats p = true -> backoff_ok (new_backoff p).
Proof.
  unfold valid_reconnect_settings, settings_floats. rewrite !andb_true_iff.
  intros ((((((((Hi & Hi') & Hm) & Hm') & Hx) & Hx') & Hj) & Hj') & _) (((_ & _) & _) & Hv).
  destruct (positive_below _ _ Hi Hi' eq_refl) as (mi & ei & Hinit). constructor; cbn.
  - by eapply positive_below.
  - by rewrite Hinit.
  - by rewrite Hinit.
  - by eapply above_one.
  - by apply float_unit.
Qed.

Lemma backoff_factor p sample :
  bounded_by 0 false (jitter_fraction p) -> bounded_by 0 false sample ->
  bounded_by 1 false (float_add (float_of_Z 1)
    (float_mul (jitter_fraction p) (float_sub (float_mul (float_of_Z 2) sample) (float_of_Z 1)))).
Proof.
  intros Hj Hs.
  assert (bounded_by 1 false (float_of_Z 2)) as H2 by (split; [done|]; split; [done|]; by vm_compute).
  destruct (float_sub_one (float_mul (float_of_Z 2) sample)) as [s Hz].
  { by apply (float_mul_bounded 1 0 false false). }
  apply (float_one_add (xorb false s)). by apply (float_mul_bounded 0 0).
Qed.

Lemma bounded_signed k f : bounded_by k false f -> signed false f /\ isfinite f = true.
Proof. destruct f as [s|s| |s m e]; try done. by intros [-> _]. Qed.

Lemma next_delay_ok jitter b d b' :
  backoff_ok b -> valid_binary 53 1024 jitter = true -> next_delay jitter b = Ok (d, b') ->
  backoff_ok b' /\ cb_policy b' = cb_policy b /\ cb_failure_count b' = (cb_failure_count b + 1)%Z /\
  float_le (float_of_Z 0) d = true /\ float_le d (max_delay_seconds (cb_policy b)) = true.
Proof.
  intros [(m & e & Hmax) Hi [Hb Hbf] [Hx Hxf] Hj] Hv Hn. unfold next_delay in Hn.
  set (sample := if float_truth _ then jitter else float_half) in *.
  destruct (negb (float_le (float_of_Z 0) sample && float_le sample (float_of_Z 1))) eqn:Hr; [done|].
  injection Hn as <- <-. apply negb_false_iff, andb_prop in Hr as [Hs0 Hs1].
  assert (bounded_by 0 false sample) as Hs.
  { apply float_unit; [|done|done]. unfold sample. by destruct (float_truth _). }
  destruct (bounded_signed _ _ (backoff_factor _ _ Hj Hs)) as [Hf Hff].
  pose proof (float_mul_signed _ _ _ _ Hbf Hff Hb Hf) as Hd.
  pose proof (float_mul_signed _ _ _ _ Hbf Hxf Hb Hx) as Hbase.
  rewrite Hmax. destruct (float_min_bounds _ m e Hd) as (Hd1 & _ & Hd3).
  destruct (float_min_bounds _ m e Hbase) as (Hb1 & Hb2 & _).
  split_and!; [|done|done|by apply signed_nonneg|done].
  constructor; cbn; rewrite ?Hmax; eauto.
Qed.

Lemma reset_ok b : backoff_ok b -> backoff_ok (reset b).
Proof. by intros [Hm Hi Hb Hx Hj]. Qed.

(** ** Readiness *)

Definition callbacks (effects : list consumer_effect) : list bool :=
  omap (fun e => match e with ReadinessCallback b => Some b | _ => None end) effects.

Definition delays (effects : list consumer_effect) : list spec_float :=
  omap (fun e => match e with SleepFor d => Some d | _ => None end) effects.

(** Each value differs from the one before, the first from [b]. *)
Fixpoint alternates (b : bool) (l : list bool) : Prop :=
  match l with [] => True | x :: l => x = negb b /\ alternates x l end.

(** The samples that the source of jitter returned. *)
Definition event_jitter (e : consumer_event) : bool :=
  match e with PollRaised jitter => valid_binary 53 1024 jitter | _ => true end.

(** What the loop preserves: the event of readiness is what the host was told last, and a
    consumer that is not running is not ready. *)
Definition consumer_ok (c : consumer) : Prop :=
  cs_ready c = cs_reported_ready c /\ (cs_running c = false -> cs_ready c = false) /\
  backoff_ok (cs_reconnect_backoff c).

(** One event against the readiness and the delays that the host sees. *)
Lemma consumer_step_ok e c c' effects :
  consumer_ok c -> event_jitter e = true -> consumer_step e c = Some (c', effects) ->
  consumer_ok c' /\ cb_policy (cs_reconnect_backoff c') = cb_policy (cs_reconnect_backoff c) /\
  alternates (cs_ready c) (callbacks effects) /\ default (cs_ready c) (last (callbacks effects)) = cs_ready c' /\
  Forall (fun d => float_le (float_of_Z 0) d = true /\
                   float_le d (max_delay_seconds (cb_policy (cs_reconnect_backoff c))) = true) (delays effects).
Proof.
  destruct c as [run rdy rep b ph]. intros (Heq & Hrun & Hb) He Hs. cbn in Heq, Hrun, Hb. subst rep.
  pose proof (reset_ok b Hb) as Hb0. unfold consumer_ok.
  destruct e as [| |jitter| |].
  - destruct ph; try done; injection Hs as <- <-; cbn; by split_and!.
  - destruct ph; try done. cbn in Hs. destruct run; cbn in Hs; injection Hs as <- <-; cbn.
    + destruct rdy; cbn; by split_and!.
    + by split_and!.
  - destruct ph; try done. cbn in Hs. destruct (next_delay jitter b) as [[d b']|x] eqn:Hn.
    + destruct (next_delay_ok _ _ _ _ Hb He Hn) as (Hb' & Hp & _ & Hd). injection Hs as <- <-.
      destruct rdy; cbn; split_and!; try done; by constructor.
    + injection Hs as <- <-. destruct rdy; cbn; by split_and!.
  - destruct ph; try done. injection Hs as <- <-. cbn. by split_and!.
  - injection Hs as <- <-. destruct rdy; cbn; by split_and!.
Qed.

Lemma alternates_app b l l' :
  alternates b l -> alternates (default b (last l)) l' -> alternates b (l ++ l').
Proof.
  revert b; induction l as [|x l IH]; intros b; [done|]. cbn [alternates app]. intros [Hx Hl] Hl'.
  split; [done|]. apply IH; [done|]. rewrite last_cons in Hl'. by destruct (last l).
Qed.

Lemma default_last_app (b : bool) l l' : default b (last (l ++ l')) = default (default b (last l)) (last l').
Proof. rewrite last_app. by destruct (last l'). Qed.

Lemma consumer_run_ok c es effects c' :
  consumer_ok c -> forallb event_jitter es = true -> consumer_run c es effects c' ->
  consumer_ok c' /\ alternates (cs_ready c) (callbacks effects) /\
  default (cs_ready c) (last (callbacks effects)) = cs_ready c' /\
  Forall (fun d => float_le (float_of_Z 0) d = true /\
                   float_le d (max_delay_seconds (cb_policy (cs_reconnect_backoff c))) = true) (delays effects).
Proof.
  intros Hok Hes Hr. induction Hr as [c|c e c1 effects es effects' c2 Hs _ IH]; [by split_and!|].
  cbn in Hes. apply andb_prop in Hes as [He Hes].
  destruct (consumer_step_ok _ _ _ _ Hok He Hs) as (Hok1 & Hp & Ha & Hl & Hd).
  destruct (IH Hok1 Hes) as (Hok2 & Ha' & Hl' & Hd'). rewrite Hp in Hd'.
  unfold callbacks, delays in *. rewrite !omap_app. split_and!.
  - done.
  - apply alternates_app; [done|]. by rewrite Hl.
  - rewrite default_last_app. by rewrite Hl.
  - by apply Forall_app.
Qed.

(** ** Properties *)

(** With settings in their bounds, however polls end, sleeps pass and [stop] is
    called: every delay before a poll is repeated lies between zero and the configured
    maximum, for every multiplier and jitter and every number of failures (the arithmetic
    of binary64 included); the host is told of readiness only when it changes, first that
    the consumer is ready, then alternately; what it was told last is the readiness of
    the consumer, and a consumer that is stopped is not ready. *)
Theorem consumer_loop_bounded p es effects c :
  valid_reconnect_settings p = true -> settings_floats p = true -> forallb event_jitter es = true ->
  consumer_run (new_consumer p) es effects c ->
  Forall (fun d => float_le (float_of_Z 0) d = true /\ float_le d (max_delay_seconds p) = true) (delays effects) /\
  alternates false (callbacks effects) /\
  default false (last (callbacks effects)) = cs_ready c /\
  (cs_running c = false -> cs_ready c = false).
Proof.
  intros Hp Hf Hes Hr.
  assert (consumer_ok (new_consumer p)) as Hok by (split_and!; [done..|by apply new_backoff_ok]).
  destruct (consumer_run_ok _ _ _ _ Hok Hes Hr) as ((_ & Hrun & _) & Ha & Hl & Hd). by split_and!.
Qed.

Definition sample_settings : ConsumerReconnectSettings := {|
  initial_delay_seconds := float_half;
  max_delay_seconds := float_of_Z 30;
  multiplier := float_of_Z 2;
  jitter_fraction := float_half;
|}.

Definition sample_effects : list consumer_effect :=
  [ReadinessCallback true; ReadinessCallback false; SleepFor (float_half); SleepFor (float_of_Z 1)].

Lemma consumer_loop_bounded_witness :
  exists c, consumer_run (new_consumer sample_settings)
    [Started; PollReturned; PollRaised float_half; Woke; PollRaised float_half; Stopped] sample_effects c /\
  Forall (fun d => float_le (float_of_Z 0) d = true /\ float_le d (float_of_Z 30) = true) (delays sample_effects).
Proof.
  eexists. refine ((fun H => conj H (proj1 (consumer_loop_bounded sample_settings _ _ _ eq_refl eq_refl _ H))) _).
  - vm_compute. reflexivity.
  - eapply (consumer_cons _ Started _ []); [reflexivity|].
    eapply (consumer_cons _ PollReturned _ [_]); [reflexivity|].
    eapply (consumer_cons _ (PollRaised _) _ [_; _]); [vm_compute; reflexivity|].
    eapply (consumer_cons _ Woke _ []); [reflexivity|].
    eapply (consumer_cons _ (PollRaised _) _ [_]); [vm_compute; reflexivity|].
    eapply (consumer_cons _ Stopped _ []); [reflexivity|]. constructor.
Defined.
