(* ===== verification/Activation.v ===== *)
(** Publications, discards and activations of configurations: their records with their
    validators ([configuration/activation.py], [configuration/lifecycle.py]) and the
    functions that derive the next record ([configuration/activation_store.py]).  A time
    is an instant, since the code handles aware datetimes only. *)

From S2P Require Export Scope.

(** ** Errors *)

Inductive ActivationOutcomeCode :=
| DEFINITIONS_UNAVAILABLE | WORKER_UNAVAILABLE | SCHEDULES_UNAVAILABLE | ROUTING_UNAVAILABLE
| CONFIGURATION_CONFLICT | STALE_PLAN | INTERNAL_ERROR.

#[export] Instance ActivationOutcomeCode_eq_dec : EqDecision ActivationOutcomeCode.
Proof. solve_decision. Defined.

(** The subclasses of [ActivationError]; a conflict names the identity in conflict. *)
Inductive activation_failure :=
| ActivationNotFoundError | ActivationConflictError (identity : string) | ActivationUnavailableError
| ActivationIntegrityError | ActivationLimitError.

(** Exceptions of activation: those of Python and pydantic ([ValueError] and its subclass
    [ValidationError], with the reason as text), [ActivationError] and the controller's
    subclass, [ConfigurationError] and [CatalogError], each a conflict or another. *)
Inductive activation_exn :=
| PyError (e : exn)
| ActivationError (kind : activation_failure) (msg : string)
| ActivationControllerError (code : ActivationOutcomeCode) (msg : string) (retryable : bool)
| ConfigurationError (conflict : bool) (msg : string)
| CatalogError (conflict : bool) (msg : string).

Abbreviation ares := (result activation_exn).

Definition value_error {A} (msg : string) : ares A := Raise (PyError (Exn ValueError msg None)).
Definition validation_error {A} (reason : string) : ares A := Raise (PyError (Exn ValidationError reason None)).

(** An [if not cond: raise ValueError] inside a validator. *)
Definition valid_if (cond : bool) (reason : string) : ares unit :=
  if cond then Ok tt else validation_error reason.

(** [o is not None] *)
Definition is_some {A} (o : option A) : bool := match o with Some _ => true | None => false end.

(** ** Constants and fields *)

Definition MAX_CONTROL_IDENTITY_INPUT_LENGTH : nat := 256.
Definition MAX_ACTIVATION_CHANGES : nat := 1000.
Definition MAX_ACTIVATION_HISTORY : nat := 100.

(** [Digest] *)
Definition digest_field (s : string) : bool := is_scope_digest s.

(** [ProvenanceDigest] *)
Definition provenance_field (s : string) : bool :=
  startswith "sha256:" s && is_scope_digest (String.substring 7 (String.length s - 7) s).

Definition optional {A} (field : A -> bool) (o : option A) : bool :=
  match o with Some a => field a | None => true end.

(** ** Publications *)

Inductive PublicationState := PUBLICATION_PENDING | PUBLICATION_APPLIED | PUBLICATION_FAILED.

Inductive PublicationErrorCode :=
| INVALID_CONFIGURATION | CONFLICT | CATALOG_UNAVAILABLE | STORE_UNAVAILABLE.

#[export] Instance PublicationErrorCode_eq_dec : EqDecision PublicationErrorCode.
Proof. solve_decision. Defined.

Record PublicationRecord := {
  pr_publication_id : string;
  pr_scope_digest : string;
  pr_idempotency_key_digest : string;
  pr_request_digest : string;
  pr_actor_digest : string;
  pr_correlation_digest : string;
  pr_policy_digest : string;
  pr_source_parent_revision_id : option string;
  pr_expected_active_revision_id : option string;
  pr_source_revision_id : option string;
  pr_published_revision_id : option string;
  pr_state : PublicationState;
  pr_error_code : option PublicationErrorCode;
  pr_version : Z;
  pr_created_at : Z;
  pr_updated_at : Z;
}.

(** The constraints of the fields. *)
Definition PublicationRecord_fields (r : PublicationRecord) : bool :=
  digest_field (pr_publication_id r) && digest_field (pr_scope_digest r)
  && digest_field (pr_idempotency_key_digest r) && provenance_field (pr_request_digest r)
  && digest_field (pr_actor_digest r) && digest_field (pr_correlation_digest r)
  && provenance_field (pr_policy_digest r)
  && optional digest_field (pr_source_parent_revision_id r)
  && optional digest_field (pr_expected_active_revision_id r)
  && optional digest_field (pr_source_revision_id r)
  && optional digest_field (pr_published_revision_id r)
  && (1 <=? pr_version r)%Z.

(** [PublicationRecord.validate_outcome] *)
Definition validate_publication (r : PublicationRecord) : ares unit :=
  _ ← match pr_state r with
      | PUBLICATION_APPLIED =>
          if bool_decide (pr_source_revision_id r = None) || bool_decide (pr_published_revision_id r = None)
          then validation_error "Applied publication requires immutable revision identities"
          else valid_if (bool_decide (pr_error_code r = None)) "Applied publication cannot contain an error code"
      | PUBLICATION_FAILED =>
          valid_if (negb (bool_decide (pr_error_code r = None))) "Failed publication requires an error code"
      | PUBLICATION_PENDING =>
          if negb (bool_decide (pr_source_revision_id r = None))
             || negb (bool_decide (pr_published_revision_id r = None))
             || negb (bool_decide (pr_error_code r = None))
          then validation_error "Pending publication cannot contain an outcome"
          else Ok tt
      end;
  valid_if (pr_created_at r <=? pr_updated_at r)%Z "Publication timestamps are inconsistent".

Definition make_publication (r : PublicationRecord) : ares PublicationRecord :=
  _ ← valid_if (PublicationRecord_fields r) "field";
  _ ← validate_publication r;
  Ok r.

(** ** Discards ([configuration/lifecycle.py]) *)

Inductive ConfigurationDiscardState := DISCARD_PENDING | DISCARD_APPLIED | DISCARD_FAILED.

(** [ConfigurationDiscardErrorCode]: one member. *)
Inductive ConfigurationDiscardErrorCode := DISCARD_CONFLICT.

#[export] Instance ConfigurationDiscardErrorCode_eq_dec : EqDecision ConfigurationDiscardErrorCode.
Proof. solve_decision. Defined.

Record ConfigurationDiscardRecord := {
  dr_discard_id : string;
  dr_scope_digest : string;
  dr_idempotency_key_digest : string;
  dr_request_digest : string;
  dr_actor_digest : string;
  dr_correlation_digest : string;
  dr_expected_draft_version : Z;
  dr_expected_active_identity : string;
  dr_active_document_digest : string;
  dr_result_draft_version : option Z;
  dr_definitions_published : option bool;
  dr_state : ConfigurationDiscardState;
  dr_error_code : option ConfigurationDiscardErrorCode;
  dr_version : Z;
  dr_created_at : Z;
  dr_updated_at : Z;
}.

Definition ConfigurationDiscardRecord_fields (r : ConfigurationDiscardRecord) : bool :=
  digest_field (dr_discard_id r) && digest_field (dr_scope_digest r)
  && digest_field (dr_idempotency_key_digest r) && provenance_field (dr_request_digest r)
  && digest_field (dr_actor_digest r) && digest_field (dr_correlation_digest r)
  && (1 <=? dr_expected_draft_version r)%Z && digest_field (dr_expected_active_identity r)
  && provenance_field (dr_active_document_digest r)
  && optional (fun v => 1 <=? v)%Z (dr_result_draft_version r)
  && (1 <=? dr_version r)%Z.

(** [ConfigurationDiscardRecord.validate_outcome] *)
Definition validate_discard (r : ConfigurationDiscardRecord) : ares unit :=
  _ ← match dr_state r with
      | DISCARD_APPLIED =>
          if bool_decide (dr_result_draft_version r = None) || negb (bool_decide (dr_error_code r = None))
          then validation_error "Applied discard requires exactly one draft outcome" else Ok tt
      | DISCARD_FAILED =>
          if bool_decide (dr_error_code r = None)
             || negb (bool_decide (dr_result_draft_version r = None))
             || negb (bool_decide (dr_definitions_published r = None))
          then validation_error "Failed discard requires exactly one error outcome" else Ok tt
      | DISCARD_PENDING =>
          if negb (bool_decide (dr_result_draft_version r = None))
             || negb (bool_decide (dr_error_code r = None))
             || negb (bool_decide (dr_definitions_published r = None))
          then validation_error "Pending discard cannot contain an outcome" else Ok tt
      end;
  valid_if (dr_created_at r <=? dr_updated_at r)%Z "Discard timestamps are inconsistent".

Definition make_discard (r : ConfigurationDiscardRecord) : ares ConfigurationDiscardRecord :=
  _ ← valid_if (ConfigurationDiscardRecord_fields r) "field";
  _ ← validate_discard r;
  Ok r.

(** The functions build the next record from the dump of the current one. *)
Section lifecycle_records.

(** [complete_publication] *)
Definition complete_publication (record : PublicationRecord)
    (source_revision_id published_revision_id : string) (occurred_at : Z) : ares PublicationRecord :=
  make_publication {|
    pr_publication_id := pr_publication_id record; pr_scope_digest := pr_scope_digest record;
    pr_idempotency_key_digest := pr_idempotency_key_digest record;
    pr_request_digest := pr_request_digest record; pr_actor_digest := pr_actor_digest record;
    pr_correlation_digest := pr_correlation_digest record; pr_policy_digest := pr_policy_digest record;
    pr_source_parent_revision_id := pr_source_parent_revision_id record;
    pr_expected_active_revision_id := pr_expected_active_revision_id record;
    pr_source_revision_id := Some source_revision_id;
    pr_published_revision_id := Some published_revision_id;
    pr_state := PUBLICATION_APPLIED; pr_error_code := None;
    pr_version := pr_version record + 1;
    pr_created_at := pr_created_at record; pr_updated_at := occurred_at
  |}%Z.

(** [fail_publication] *)
Definition fail_publication (record : PublicationRecord) (error_code : PublicationErrorCode)
    (occurred_at : Z) : ares PublicationRecord :=
  make_publication {|
    pr_publication_id := pr_publication_id record; pr_scope_digest := pr_scope_digest record;
    pr_idempotency_key_digest := pr_idempotency_key_digest record;
    pr_request_digest := pr_request_digest record; pr_actor_digest := pr_actor_digest record;
    pr_correlation_digest := pr_correlation_digest record; pr_policy_digest := pr_policy_digest record;
    pr_source_parent_revision_id := pr_source_parent_revision_id record;
    pr_expected_active_revision_id := pr_expected_active_revision_id record;
    pr_source_revision_id := pr_source_revision_id record;
    pr_published_revision_id := pr_published_revision_id record;
    pr_state := PUBLICATION_FAILED; pr_error_code := Some error_code;
    pr_version := pr_version record + 1;
    pr_created_at := pr_created_at record; pr_updated_at := occurred_at
  |}%Z.

(** The record of a discard with another outcome. *)
Definition discard_outcome (record : ConfigurationDiscardRecord) (result_draft_version : option Z)
    (definitions_published : option bool) (state : ConfigurationDiscardState)
    (error_code : option ConfigurationDiscardErrorCode) (occurred_at : Z) : ares ConfigurationDiscardRecord :=
  make_discard {|
    dr_discard_id := dr_discard_id record; dr_scope_digest := dr_scope_digest record;
    dr_idempotency_key_digest := dr_idempotency_key_digest record;
    dr_request_digest := dr_request_digest record; dr_actor_digest := dr_actor_digest record;
    dr_correlation_digest := dr_correlation_digest record;
    dr_expected_draft_version := dr_expected_draft_version record;
    dr_expected_active_identity := dr_expected_active_identity record;
    dr_active_document_digest := dr_active_document_digest record;
    dr_result_draft_version := result_draft_version;
    dr_definitions_published := definitions_published;
    dr_state := state; dr_error_code := error_code;
    dr_version := dr_version record + 1;
    dr_created_at := dr_created_at record; dr_updated_at := occurred_at
  |}%Z.

(** [complete_discard] *)
Definition complete_discard (record : ConfigurationDiscardRecord) (result_draft_version : Z)
    (occurred_at : Z) (definitions_published : option bool) : ares ConfigurationDiscardRecord :=
  discard_outcome record (Some result_draft_version) definitions_published DISCARD_APPLIED None occurred_at.

(** [fail_discard] *)
Definition fail_discard (record : ConfigurationDiscardRecord) (error_code : ConfigurationDiscardErrorCode)
    (occurred_at : Z) : ares ConfigurationDiscardRecord :=
  discard_outcome record None None DISCARD_FAILED (Some error_code) occurred_at.
End lifecycle_records.

(** ** Activations *)

Inductive ActivationState :=
| PENDING | RUNNING | WAITING_FOR_READINESS | APPLIED | FAILED | SUPERSEDED | ROLLED_BACK.

#[export] Instance ActivationState_eq_dec : EqDecision ActivationState.
Proof. solve_decision. Defined.

(** [ActivationState.value] *)
Definition state_value (s : ActivationState) : string :=
  match s with
  | PENDING => "pending" | RUNNING => "running" | WAITING_FOR_READINESS => "waiting_for_readiness"
  | APPLIED => "applied" | FAILED => "failed" | SUPERSEDED => "superseded" | ROLLED_BACK => "rolled_back"
  end.

Inductive ActivationChangeKind :=
| CHANGE_WORKFLOW | CHANGE_SERVICE | CHANGE_RESOURCE | CHANGE_POLICY | CHANGE_SCHEDULE | CHANGE_ARTIFACT
| CHANGE_DELETION.

Inductive ActivationSubjectKind :=
| SUBJECT_WORKFLOW | SUBJECT_SERVICE | SUBJECT_RESOURCE | SUBJECT_POLICY | SUBJECT_SCHEDULE
| SUBJECT_ARTIFACT.

Inductive ActivationChangeOperation := OP_CREATE | OP_UPDATE | OP_DELETE.

Inductive WorkerActivationAction := WORKER_NONE | WORKER_ROLLOUT.
Inductive DefinitionActivationAction := DEFINITIONS_NONE | DEFINITIONS_PUBLISH.
Inductive RoutingActivationAction := ROUTING_NONE | ROUTING_SWITCH.
Inductive ScheduleActivationAction := SCHEDULES_NONE | SCHEDULES_RECONCILE.

Inductive ActivationCompatibilityRisk :=
| OPEN_EXECUTION_RETENTION | REPLAY_COMPATIBILITY | COMPONENT_POLICY_CHANGE | EXTERNAL_ROUTING_CHANGE.

Inductive ActivationCheckpointKind :=
| CHECKPOINT_DEFINITIONS | CHECKPOINT_WORKER_ROLLOUT | CHECKPOINT_WORKER_READINESS | CHECKPOINT_SCHEDULES
| CHECKPOINT_CATALOG_ROUTING | CHECKPOINT_WORKER_ROUTING | CHECKPOINT_ACTIVE_POINTER
| CHECKPOINT_RUNTIME_INDEX.

Inductive ActivationExternalOutcome := CONFIRMED | IDEMPOTENT.

#[export] Instance ActivationChangeKind_eq_dec : EqDecision ActivationChangeKind.
Proof. solve_decision. Defined.
#[export] Instance ActivationSubjectKind_eq_dec : EqDecision ActivationSubjectKind.
Proof. solve_decision. Defined.
#[export] Instance ActivationChangeOperation_eq_dec : EqDecision ActivationChangeOperation.
Proof. solve_decision. Defined.
#[export] Instance WorkerActivationAction_eq_dec : EqDecision WorkerActivationAction.
Proof. solve_decision. Defined.
#[export] Instance DefinitionActivationAction_eq_dec : EqDecision DefinitionActivationAction.
Proof. solve_decision. Defined.
#[export] Instance RoutingActivationAction_eq_dec : EqDecision RoutingActivationAction.
Proof. solve_decision. Defined.
#[export] Instance ScheduleActivationAction_eq_dec : EqDecision ScheduleActivationAction.
Proof. solve_decision. Defined.
#[export] Instance ActivationCompatibilityRisk_eq_dec : EqDecision ActivationCompatibilityRisk.
Proof. solve_decision. Defined.
#[export] Instance ActivationCheckpointKind_eq_dec : EqDecision ActivationCheckpointKind.
Proof. solve_decision. Defined.
#[export] Instance ActivationExternalOutcome_eq_dec : EqDecision ActivationExternalOutcome.
Proof. solve_decision. Defined.

(** [WorkerArtifactIdentity] ([provenance.py]) *)
Record WorkerArtifactIdentity := {
  wa_deployment_name : string;
  wa_build_id : string;
  wa_artifact_digest : string;
  wa_package_version : string;
  wa_source_revision : option string;
}.

#[export] Instance WorkerArtifactIdentity_eq_dec : EqDecision WorkerArtifactIdentity.
Proof. solve_decision. Defined.

Definition LOCAL_ARTIFACT_DIGEST : string := "local-development".
Definition MAX_PROVENANCE_IDENTITY_LENGTH : nat := 256.

(** A text whose length is in the bounds of its field. *)
Definition bounded_text (low high : nat) (s : string) : bool :=
  bool_decide (low <= String.length s)%nat && bool_decide (String.length s <= high)%nat.

(** The fields of the identity and [validate_artifact_digest]. *)
Definition valid_artifact (a : WorkerArtifactIdentity) : bool :=
  bounded_text 1 MAX_PROVENANCE_IDENTITY_LENGTH (wa_deployment_name a)
  && bounded_text 1 MAX_PROVENANCE_IDENTITY_LENGTH (wa_build_id a)
  && bounded_text 1 MAX_PROVENANCE_IDENTITY_LENGTH (wa_artifact_digest a)
  && bounded_text 1 MAX_PROVENANCE_IDENTITY_LENGTH (wa_package_version a)
  && optional (bounded_text 1 MAX_PROVENANCE_IDENTITY_LENGTH) (wa_source_revision a)
  && (bool_decide (wa_artifact_digest a = LOCAL_ARTIFACT_DIGEST) || provenance_field (wa_artifact_digest a)).

Record ActivationChange := {
  ac_kind : ActivationChangeKind;
  ac_subject_kind : ActivationSubjectKind;
  ac_operation : ActivationChangeOperation;
  ac_subject_digest : string;
}.

Record ActivationPlan := {
  ap_plan_digest : string;
  ap_scope_digest : string;
  ap_source_revision_id : option string;
  ap_target_revision_id : string;
  ap_expected_active_revision_id : option string;
  ap_expected_active_pointer_version : option Z;
  ap_expected_catalog_alias_version : option string;
  ap_policy_digest : string;
  ap_worker_observation_digest : string;
  ap_schedule_observation_digest : string;
  ap_target_artifact : WorkerArtifactIdentity;
  ap_target_task_queue_identity_digest : string;
  ap_target_worker_registration_digest : string;
  ap_target_definition_digests : list string;
  ap_changes : list ActivationChange;
  ap_compatibility_risks : list ActivationCompatibilityRisk;
  ap_worker_action : WorkerActivationAction;
  ap_definition_action : DefinitionActivationAction;
  ap_routing_action : RoutingActivationAction;
  ap_schedule_action : ScheduleActivationAction;
}.

Record ActivationTransition := {
  at_sequence : Z;
  at_from_state : ActivationState;
  at_to_state : ActivationState;
  at_occurred_at : Z;
  at_outcome_code : option ActivationOutcomeCode;
}.

Record ActivationCheckpoint := {
  ck_sequence : Z;
  ck_kind : ActivationCheckpointKind;
  ck_outcome : ActivationExternalOutcome;
  ck_occurred_at : Z;
  ck_observation_digest : string;
}.

Record WorkerReadinessRegistration := {
  wr_configuration_revision_id : string;
  wr_artifact : WorkerArtifactIdentity;
  wr_definition_digests : list string;
  wr_task_queue_identity_digest : string;
  wr_deployment_registration_digest : string;
  wr_registered_at : Z;
}.

Record ActivationRecord := {
  ar_activation_id : string;
  ar_scope_digest : string;
  ar_idempotency_key_digest : string;
  ar_request_digest : string;
  ar_actor_digest : string;
  ar_correlation_digest : string;
  ar_plan : ActivationPlan;
  ar_state : ActivationState;
  ar_version : Z;
  ar_transitions : list ActivationTransition;
  ar_checkpoints : list ActivationCheckpoint;
  ar_lease_owner_digest : option string;
  ar_lease_expires_at : option Z;
  ar_worker_readiness : option WorkerReadinessRegistration;
  ar_rollback_of_activation_id : option string;
  ar_outcome_code : option ActivationOutcomeCode;
  ar_created_at : Z;
  ar_updated_at : Z;
}.

#[export] Instance ActivationChange_eq_dec : EqDecision ActivationChange.
Proof. solve_decision. Defined.
#[export] Instance ActivationPlan_eq_dec : EqDecision ActivationPlan.
Proof. solve_decision. Defined.
#[export] Instance ActivationTransition_eq_dec : EqDecision ActivationTransition.
Proof. solve_decision. Defined.
#[export] Instance ActivationCheckpoint_eq_dec : EqDecision ActivationCheckpoint.
Proof. solve_decision. Defined.
#[export] Instance WorkerReadinessRegistration_eq_dec : EqDecision WorkerReadinessRegistration.
Proof. solve_decision. Defined.
#[export] Instance ActivationRecord_eq_dec : EqDecision ActivationRecord.
Proof. solve_decision. Defined.

(** *** Validation *)

Definition MAX_EXTERNAL_VERSION_LENGTH : nat := 256.

(** [len(ActivationCheckpointKind)], the bound on the checkpoints. *)
Definition CHECKPOINT_KINDS : nat := 8.

(** The constraints of the fields of a plan. *)
Definition ActivationPlan_fields (p : ActivationPlan) : bool :=
  provenance_field (ap_plan_digest p) && digest_field (ap_scope_digest p)
  && optional digest_field (ap_source_revision_id p) && digest_field (ap_target_revision_id p)
  && optional digest_field (ap_expected_active_revision_id p)
  && optional (fun v => 1 <=? v)%Z (ap_expected_active_pointer_version p)
  && optional (bounded_text 1 MAX_EXTERNAL_VERSION_LENGTH) (ap_expected_catalog_alias_version p)
  && provenance_field (ap_policy_digest p) && provenance_field (ap_worker_observation_digest p)
  && provenance_field (ap_schedule_observation_digest p) && valid_artifact (ap_target_artifact p)
  && provenance_field (ap_target_task_queue_identity_digest p)
  && provenance_field (ap_target_worker_registration_digest p)
  && forallb digest_field (ap_target_definition_digests p)
  && bool_decide (length (ap_target_definition_digests p) <= MAX_ACTIVATION_CHANGES)%nat
  && forallb (fun c => digest_field (ac_subject_digest c)) (ap_changes p)
  && bool_decide (length (ap_changes p) <= MAX_ACTIVATION_CHANGES)%nat
  && bool_decide (length (ap_compatibility_risks p) <= 4)%nat.

Definition ActivationTransition_fields (t : ActivationTransition) : bool :=
  (1 <=? at_sequence t)%Z && (at_sequence t <=? Z.of_nat MAX_ACTIVATION_HISTORY)%Z.

Definition ActivationCheckpoint_fields (c : ActivationCheckpoint) : bool :=
  (1 <=? ck_sequence c)%Z && (ck_sequence c <=? Z.of_nat CHECKPOINT_KINDS)%Z
  && provenance_field (ck_observation_digest c).

Definition WorkerReadinessRegistration_fields (w : WorkerReadinessRegistration) : bool :=
  digest_field (wr_configuration_revision_id w) && valid_artifact (wr_artifact w)
  && forallb digest_field (wr_definition_digests w)
  && bool_decide (length (wr_definition_digests w) <= MAX_ACTIVATION_CHANGES)%nat
  && provenance_field (wr_task_queue_identity_digest w)
  && provenance_field (wr_deployment_registration_digest w).

Definition ActivationRecord_fields (r : ActivationRecord) : bool :=
  digest_field (ar_activation_id r) && digest_field (ar_scope_digest r)
  && digest_field (ar_idempotency_key_digest r) && provenance_field (ar_request_digest r)
  && digest_field (ar_actor_digest r) && digest_field (ar_correlation_digest r)
  && ActivationPlan_fields (ar_plan r) && (1 <=? ar_version r)%Z
  && forallb ActivationTransition_fields (ar_transitions r)
  && bool_decide (length (ar_transitions r) <= MAX_ACTIVATION_HISTORY)%nat
  && forallb ActivationCheckpoint_fields (ar_checkpoints r)
  && bool_decide (length (ar_checkpoints r) <= CHECKPOINT_KINDS)%nat
  && optional digest_field (ar_lease_owner_digest r)
  && optional WorkerReadinessRegistration_fields (ar_worker_readiness r)
  && optional digest_field (ar_rollback_of_activation_id r).

(** [for index, transition in enumerate(self.transitions, start=1)], where [before] is the
    transition at the index before. *)
Fixpoint validate_transitions (index : Z) (before : option ActivationTransition)
    (ts : list ActivationTransition) : ares unit :=
  match ts with
  | [] => Ok tt
  | t :: ts =>
      if negb (bool_decide (at_sequence t = index))
      then validation_error "Activation transition sequence is not contiguous"
      else if match before with Some b => negb (bool_decide (at_to_state b = at_from_state t)) | None => false end
      then validation_error "Activation transition history is discontinuous"
      else validate_transitions (index + 1) (Some t) ts
  end.

Fixpoint validate_checkpoints (index : Z) (cs : list ActivationCheckpoint) : ares unit :=
  match cs with
  | [] => Ok tt
  | c :: cs =>
      if negb (bool_decide (ck_sequence c = index))
      then validation_error "Activation checkpoint sequence is not contiguous"
      else validate_checkpoints (index + 1) cs
  end.

(** [state in {FAILED, SUPERSEDED}] *)
Definition terminal_failure (s : ActivationState) : bool :=
  bool_decide (s = FAILED) || bool_decide (s = SUPERSEDED).

(** [ActivationRecord.validate_state] *)
Definition validate_state (r : ActivationRecord) : ares unit :=
  _ ← valid_if (bool_decide (ap_scope_digest (ar_plan r) = ar_scope_digest r))
        "Activation plan belongs to another runtime scope";
  _ ← valid_if (Bool.eqb (is_some (ar_lease_owner_digest r)) (is_some (ar_lease_expires_at r)))
        "Activation lease owner and expiry must be recorded together";
  _ ← valid_if (ar_created_at r <=? ar_updated_at r)%Z "Activation timestamps are inconsistent";
  _ ← match last (ar_transitions r) with
      | Some t =>
          if negb (bool_decide (at_to_state t = ar_state r))
          then validation_error "Activation transition history disagrees with current state"
          else validate_transitions 1 None (ar_transitions r)
      | None =>
          valid_if (bool_decide (ar_state r = PENDING)) "Non-pending activation requires transition history"
      end;
  _ ← valid_if (bool_decide (NoDup (ck_kind <$> ar_checkpoints r)))
        "Activation checkpoint kinds must be unique";
  _ ← validate_checkpoints 1 (ar_checkpoints r);
  if terminal_failure (ar_state r)
  then valid_if (is_some (ar_outcome_code r)) "Failed or superseded activation requires an outcome code"
  else valid_if (negb (is_some (ar_outcome_code r)))
         "Successful or pending activation cannot contain an outcome code".

(** [ActivationRecord(...)] and [ActivationRecord.model_validate] *)
Definition make_activation (r : ActivationRecord) : ares ActivationRecord :=
  _ ← valid_if (ActivationRecord_fields r) "field";
  _ ← validate_state r;
  Ok r.

(** *** The next record ([configuration/activation_store.py]) *)

(** [_ALLOWED_ACTIVATION_TRANSITIONS] *)
Definition allowed_transitions (s : ActivationState) : list ActivationState :=
  match s with
  | PENDING => [RUNNING; SUPERSEDED]
  | RUNNING => [WAITING_FOR_READINESS; APPLIED; FAILED; SUPERSEDED; ROLLED_BACK]
  | WAITING_FOR_READINESS => [RUNNING; FAILED; SUPERSEDED]
  | FAILED => [RUNNING; SUPERSEDED]
  | APPLIED => [ROLLED_BACK]
  | SUPERSEDED | ROLLED_BACK => []
  end.

(** The record with the fields that the functions below change. *)
Definition with_changes (r : ActivationRecord) (state : ActivationState)
    (transitions : list ActivationTransition) (checkpoints : list ActivationCheckpoint)
    (lease_owner_digest : option string) (lease_expires_at : option Z)
    (worker_readiness : option WorkerReadinessRegistration)
    (outcome_code : option ActivationOutcomeCode) (updated_at : Z) : ActivationRecord :=
  {| ar_activation_id := ar_activation_id r; ar_scope_digest := ar_scope_digest r;
     ar_idempotency_key_digest := ar_idempotency_key_digest r; ar_request_digest := ar_request_digest r;
     ar_actor_digest := ar_actor_digest r; ar_correlation_digest := ar_correlation_digest r;
     ar_plan := ar_plan r; ar_state := state; ar_version := ar_version r + 1;
     ar_transitions := transitions; ar_checkpoints := checkpoints;
     ar_lease_owner_digest := lease_owner_digest; ar_lease_expires_at := lease_expires_at;
     ar_worker_readiness := worker_readiness;
     ar_rollback_of_activation_id := ar_rollback_of_activation_id r;
     ar_outcome_code := outcome_code; ar_created_at := ar_created_at r; ar_updated_at := updated_at |}%Z.

(** [transition_activation]; the constructor of the transition checks what the record checks. *)
Definition transition_activation (record : ActivationRecord) (to_state : ActivationState)
    (occurred_at : Z) (outcome_code : option ActivationOutcomeCode) (release_lease : bool)
  : ares ActivationRecord :=
  if negb (bool_decide (to_state ∈ allowed_transitions (ar_state record)))
  then value_error ("Activation cannot transition from '" +:+ state_value (ar_state record)
                    +:+ "' to '" +:+ state_value to_state +:+ "'")
  else if bool_decide (MAX_ACTIVATION_HISTORY <= length (ar_transitions record))%nat
  then value_error "Activation transition history exceeds its bound"
  else if negb (Bool.eqb (terminal_failure to_state) (is_some outcome_code))
  then value_error "Activation transition outcome does not match its state"
  else
    let transition :=
      {| at_sequence := Z.of_nat (length (ar_transitions record)) + 1; at_from_state := ar_state record;
         at_to_state := to_state; at_occurred_at := occurred_at; at_outcome_code := outcome_code |}%Z in
    make_activation
      (with_changes record to_state (ar_transitions record ++ [transition]) (ar_checkpoints record)
         (if release_lease then None else ar_lease_owner_digest record)
         (if release_lease then None else ar_lease_expires_at record)
         (ar_worker_readiness record) outcome_code occurred_at).

(** [record_activation_checkpoint]; the constructor of the checkpoint checks its fields,
    as the record does. *)
Definition record_activation_checkpoint (record : ActivationRecord) (kind : ActivationCheckpointKind)
    (outcome : ActivationExternalOutcome) (observation_digest : string) (occurred_at : Z)
  : ares ActivationRecord :=
  match list_find (fun c => ck_kind c = kind) (ar_checkpoints record) with
  | Some (_, existing) =>
      if bool_decide (ck_outcome existing = outcome)
         && bool_decide (ck_observation_digest existing = observation_digest)
      then Ok record
      else value_error "Activation checkpoint already has a different outcome"
  | None =>
      let checkpoint :=
        {| ck_sequence := Z.of_nat (length (ar_checkpoints record)) + 1; ck_kind := kind;
           ck_outcome := outcome; ck_occurred_at := occurred_at;
           ck_observation_digest := observation_digest |}%Z in
      _ ← valid_if (ActivationCheckpoint_fields checkpoint) "field";
      make_activation
        (with_changes record (ar_state record) (ar_transitions record) (ar_checkpoints record ++ [checkpoint])
           (ar_lease_owner_digest record) (ar_lease_expires_at record) (ar_worker_readiness record)
           (ar_outcome_code record) occurred_at)
  end.

(** The record holds an unexpired lease of another controller. *)
Definition lease_held_by_another (record : ActivationRecord) (owner_digest : string) (acquired_at : Z) : bool :=
  match ar_lease_owner_digest record, ar_lease_expires_at record with
  | Some owner, Some expires_at => negb (bool_decide (owner = owner_digest)) && (acquired_at <? expires_at)%Z
  | _, _ => false
  end.

(** [acquire_activation_lease] *)
Definition acquire_activation_lease (record : ActivationRecord) (owner_digest : string)
    (acquired_at expires_at : Z) : ares ActivationRecord :=
  if (expires_at <=? acquired_at)%Z then value_error "Activation lease expiry must follow acquisition"
  else if lease_held_by_another record owner_digest acquired_at
  then value_error "Activation lease is held by another controller"
  else
    make_activation
      (with_changes record (ar_state record) (ar_transitions record) (ar_checkpoints record)
         (Some owner_digest) (Some expires_at) (ar_worker_readiness record)
         (ar_outcome_code record) acquired_at).

(** [release_activation_lease] *)
Definition release_activation_lease (record : ActivationRecord) (owner_digest : string) (released_at : Z)
  : ares ActivationRecord :=
  if negb (bool_decide (ar_lease_owner_digest record = Some owner_digest))
  then value_error "Activation lease is not owned by this controller"
  else
    make_activation
      (with_changes record (ar_state record) (ar_transitions record) (ar_checkpoints record)
         None None (ar_worker_readiness record) (ar_outcome_code record) released_at).

(** [sorted(l)] on texts *)
Definition sorted_strings (l : list string) : list string :=
  dict_keys (sort_keys (map (fun s => (s, tt)) l)).

(** [register_worker_readiness] *)
Definition register_worker_readiness (record : ActivationRecord)
    (registration : WorkerReadinessRegistration) (occurred_at : Z) : ares ActivationRecord :=
  let plan := ar_plan record in
  if negb (bool_decide (wr_configuration_revision_id registration = ap_target_revision_id plan))
  then value_error "Worker readiness targets another configuration revision"
  else if negb (bool_decide (wr_artifact registration = ap_target_artifact plan))
  then value_error "Worker readiness targets another artifact"
  else if negb (bool_decide (wr_deployment_registration_digest registration
                             = ap_target_worker_registration_digest plan))
  then value_error "Worker readiness targets another deployment registration"
  else if negb (bool_decide (sorted_strings (wr_definition_digests registration)
                             = sorted_strings (ap_target_definition_digests plan)))
  then value_error "Worker readiness does not cover the planned definition set"
  else
    match ar_worker_readiness record with
    | Some existing =>
        if bool_decide (existing = registration) then Ok record
        else value_error "Worker readiness was already registered with different content"
    | None =>
        make_activation
          (with_changes record (ar_state record) (ar_transitions record) (ar_checkpoints record)
             (ar_lease_owner_digest record) (ar_lease_expires_at record) (Some registration)
             (ar_outcome_code record) occurred_at)
    end.
