(* ===== verification/ActivationFacts.v ===== *)
(** Records of activations: every function that derives the next record keeps records
    valid, and the history of a record is a path of the state machine. *)

From S2P Require Export Activation.

(** ** Validity *)

Definition valid_activation (r : ActivationRecord) : Prop := make_activation r = Ok r.

(** Transitions in sequence, each from the state that the one before leads to. *)
Definition linked (ts : list ActivationTransition) : Prop :=
  forall i t, ts !! i = Some t ->
    at_sequence t = (Z.of_nat i + 1)%Z /\
    match i with
    | 0 => True
    | S j => exists b, ts !! j = Some b /\ at_to_state b = at_from_state t
    end.

(** What [validate_state] checks. *)
Record activation_wf (r : ActivationRecord) : Prop := {
  wf_scope : ap_scope_digest (ar_plan r) = ar_scope_digest r;
  wf_lease : is_some (ar_lease_owner_digest r) = is_some (ar_lease_expires_at r);
  wf_times : (ar_created_at r <= ar_updated_at r)%Z;
  wf_state : ar_state r = default PENDING (at_to_state <$> last (ar_transitions r));
  wf_linked : linked (ar_transitions r);
  wf_kinds : NoDup (ck_kind <$> ar_checkpoints r);
  wf_checkpoints i c : ar_checkpoints r !! i = Some c -> ck_sequence c = (Z.of_nat i + 1)%Z;
  wf_outcome : terminal_failure (ar_state r) = is_some (ar_outcome_code r);
}.

Lemma valid_if_Ok b reason : valid_if b reason = Ok tt <-> b = true.
Proof. by destruct b. Qed.

Lemma valid_if_bind {A} b reason (m : ares A) a :
  (valid_if b reason ≫= fun _ => m) = Ok a <-> b = true /\ m = Ok a.
Proof. destruct b; naive_solver. Qed.

Lemma seq_Ok {E A} (m : result E unit) (k : result E A) a :
  (m ≫= fun _ => k) = Ok a <-> m = Ok tt /\ k = Ok a.
Proof. destruct m as [[]|e]; naive_solver. Qed.

Lemma validate_transitions_spec ts : forall index before,
  validate_transitions index before ts = Ok tt <->
  forall i t, ts !! i = Some t ->
    at_sequence t = (Z.of_nat i + index)%Z /\
    match i with
    | 0 => match before with Some b => at_to_state b = at_from_state t | None => True end
    | S j => exists b, ts !! j = Some b /\ at_to_state b = at_from_state t
    end.
Proof.
  induction ts as [|t ts IH]; intros index before; cbn [validate_transitions]; [done|].
  destruct (decide (at_sequence t = index)) as [Hseq|Hseq].
  2:{ rewrite bool_decide_false by done. cbn. split; [done|]. intros Hall. destruct (Hall 0 t eq_refl). lia. }
  rewrite bool_decide_true by done. cbn [negb].
  destruct (match before with Some b => negb (bool_decide (at_to_state b = at_from_state t)) | None => false end) eqn:Hb.
  { split; [done|]. intros Hall. destruct (Hall 0 t eq_refl) as [_ Hf]. destruct before as [b|]; [|done].
    apply negb_true_iff, bool_decide_eq_false in Hb. done. }
  rewrite IH. split; intros Hall.
  - intros [|[|i]] t' Ht'; cbn in Ht'.
    + simplify_eq. split; [lia|]. destruct before as [b|]; [|done].
      by apply negb_false_iff, bool_decide_eq_true in Hb.
    + destruct (Hall 0 t' Ht') as [Hs Hl]. split; [lia|]. by exists t.
    + destruct (Hall (S i) t' Ht') as [Hs (b & Hb' & Hl)]. split; [lia|]. by exists b.
  - intros i t' Ht'. destruct (Hall (S i) t' Ht') as [Hs (b & Hb' & Hl)]. split; [lia|].
    destruct i as [|i]; cbn in Hb'; [by simplify_eq|by exists b].
Qed.

Lemma validate_checkpoints_spec cs : forall index,
  validate_checkpoints index cs = Ok tt <->
  forall i c, cs !! i = Some c -> ck_sequence c = (Z.of_nat i + index)%Z.
Proof.
  induction cs as [|c cs IH]; intros index; cbn [validate_checkpoints]; [done|].
  case_bool_decide as Hc; cbn [negb].
  - rewrite IH. split; intros Hall.
    + intros [|i] c' Hc'; cbn in Hc'; [simplify_eq; lia|]. rewrite (Hall i c' Hc'). lia.
    + intros i c' Hc'. rewrite (Hall (S i) c' Hc'). lia.
  - split; [done|]. intros Hall. specialize (Hall 0 c eq_refl). cbn in Hall. lia.
Qed.

Lemma validate_state_spec r : validate_state r = Ok tt <-> activation_wf r.
Proof.
  unfold validate_state. rewrite !valid_if_bind.
  assert (forall b reason, (match last (ar_transitions r) with
      | Some t =>
          if negb (bool_decide (at_to_state t = ar_state r))
          then validation_error reason
          else validate_transitions 1 None (ar_transitions r)
      | None => valid_if (bool_decide (ar_state r = PENDING)) b
      end) = Ok tt <->
      ar_state r = default PENDING (at_to_state <$> last (ar_transitions r)) /\ linked (ar_transitions r)) as Hh.
  { intros b reason. destruct (last (ar_transitions r)) as [t|] eqn:Hl; cbn.
    - case_bool_decide as Hs; cbn [negb].
      + rewrite validate_transitions_spec. unfold linked. naive_solver.
      + split; [done|]. by intros [? _].
    - apply last_None in Hl. rewrite Hl, valid_if_Ok, bool_decide_eq_true. unfold linked.
      split; [intros ->; split; [done|]; intros i t Hi; by rewrite lookup_nil in Hi|naive_solver]. }
  split.
  - intros (Hs & Hle & Ht & Hrest). apply bind_Ok in Hrest as ([] & Hhist & Hrest).
    apply Hh in Hhist as [Hst Hli]. rewrite valid_if_bind in Hrest. destruct Hrest as [Hk Hrest].
    apply bind_Ok in Hrest as ([] & Hc & Ho). pose proof (proj1 (validate_checkpoints_spec _ _) Hc) as Hc'.
    constructor; try done.
    + by apply bool_decide_eq_true in Hs.
    + by apply Bool.eqb_prop in Hle.
    + lia.
    + by apply bool_decide_eq_true in Hk.
    + destruct (terminal_failure (ar_state r)); apply valid_if_Ok in Ho; destruct (is_some (ar_outcome_code r)); done.
  - intros [Hs Hle Ht Hst Hli Hk Hc Ho]. split_and!.
    + by apply bool_decide_eq_true.
    + rewrite Hle. apply eqb_reflx.
    + lia.
    + rewrite seq_Ok. split; [by apply Hh|]. rewrite valid_if_bind. split; [by apply bool_decide_eq_true|].
      rewrite seq_Ok. split; [by apply validate_checkpoints_spec|].
      rewrite Ho. by destruct (is_some (ar_outcome_code r)).
Qed.

Lemma make_activation_Ok r r' :
  make_activation r = Ok r' <-> r' = r /\ ActivationRecord_fields r = true /\ activation_wf r.
Proof.
  unfold make_activation. rewrite valid_if_bind. rewrite <- validate_state_spec. split.
  - intros [Hf ([] & Hs & [= <-])%bind_Ok]. done.
  - intros (-> & Hf & Hs). split; [done|]. by rewrite Hs.
Qed.

Lemma valid_activation_spec r : valid_activation r <-> ActivationRecord_fields r = true /\ activation_wf r.
Proof. unfold valid_activation. rewrite make_activation_Ok. naive_solver. Qed.

(** ** Operations on records *)

Inductive record_operation :=
| Transition (to_state : ActivationState) (occurred_at : Z) (outcome_code : option ActivationOutcomeCode)
    (release_lease : bool)
| Checkpoint (kind : ActivationCheckpointKind) (outcome : ActivationExternalOutcome)
    (observation_digest : string) (occurred_at : Z)
| Acquire (owner_digest : string) (acquired_at expires_at : Z)
| ReleaseLease (owner_digest : string) (released_at : Z)
| RegisterReadiness (registration : WorkerReadinessRegistration) (occurred_at : Z).

Definition derive (op : record_operation) (r : ActivationRecord) : ares ActivationRecord :=
  match op with
  | Transition s t o release => transition_activation r s t o release
  | Checkpoint k o d t => record_activation_checkpoint r k o d t
  | Acquire o t e => acquire_activation_lease r o t e
  | ReleaseLease o t => release_activation_lease r o t
  | RegisterReadiness w t => register_worker_readiness r w t
  end.

Definition operation_time (op : record_operation) : Z :=
  match op with
  | Transition _ t _ _ | Checkpoint _ _ _ t | Acquire _ t _ | ReleaseLease _ t | RegisterReadiness _ t => t
  end.

(** The arguments satisfy the types of their fields. *)
Definition operation_fields (op : record_operation) : bool :=
  match op with
  | Checkpoint _ _ d _ => provenance_field d
  | Acquire o _ _ => digest_field o
  | RegisterReadiness w _ => WorkerReadinessRegistration_fields w
  | _ => true
  end.

(** The registration is the one that the plan asks for. *)
Definition planned_registration (p : ActivationPlan) (w : WorkerReadinessRegistration) : bool :=
  bool_decide (wr_configuration_revision_id w = ap_target_revision_id p)
  && bool_decide (wr_artifact w = ap_target_artifact p)
  && bool_decide (wr_deployment_registration_digest w = ap_target_worker_registration_digest p)
  && bool_decide (sorted_strings (wr_definition_digests w) = sorted_strings (ap_target_definition_digests p)).

(** When an operation applies. *)
Definition accepts (op : record_operation) (r : ActivationRecord) : bool :=
  match op with
  | Transition s _ o _ =>
      bool_decide (s ∈ allowed_transitions (ar_state r))
      && bool_decide (length (ar_transitions r) < MAX_ACTIVATION_HISTORY)%nat
      && Bool.eqb (terminal_failure s) (is_some o)
  | Checkpoint k o d _ =>
      match list_find (fun c => ck_kind c = k) (ar_checkpoints r) with
      | Some (_, c) => bool_decide (ck_outcome c = o) && bool_decide (ck_observation_digest c = d)
      | None => true
      end
  | Acquire o t e => (t <? e)%Z && negb (lease_held_by_another r o t)
  | ReleaseLease o _ => bool_decide (ar_lease_owner_digest r = Some o)
  | RegisterReadiness w _ =>
      planned_registration (ar_plan r) w
      && match ar_worker_readiness r with Some w' => bool_decide (w' = w) | None => true end
  end.

(** What no operation changes. *)
Definition same_subject (r r' : ActivationRecord) : Prop :=
  ar_activation_id r' = ar_activation_id r /\ ar_scope_digest r' = ar_scope_digest r /\
  ar_idempotency_key_digest r' = ar_idempotency_key_digest r /\ ar_request_digest r' = ar_request_digest r /\
  ar_actor_digest r' = ar_actor_digest r /\ ar_plan r' = ar_plan r /\
  ar_rollback_of_activation_id r' = ar_rollback_of_activation_id r /\ ar_created_at r' = ar_created_at r.

Lemma same_subject_refl r : same_subject r r.
Proof. by split_and!. Qed.

Lemma with_changes_subject r s ts cs o e w oc t : same_subject r (with_changes r s ts cs o e w oc t).
Proof. by split_and!. Qed.

(** The new parts are valid. *)
Record valid_parts (r : ActivationRecord) (s : ActivationState) (ts : list ActivationTransition)
    (cs : list ActivationCheckpoint) (owner : option string) (expires : option Z)
    (w : option WorkerReadinessRegistration) (oc : option ActivationOutcomeCode) (t : Z) : Prop := {
  vp_transitions : forallb ActivationTransition_fields ts = true;
  vp_history : (length ts <= MAX_ACTIVATION_HISTORY)%nat;
  vp_checkpoint_fields : forallb ActivationCheckpoint_fields cs = true;
  vp_checkpoint_count : (length cs <= CHECKPOINT_KINDS)%nat;
  vp_owner : optional digest_field owner = true;
  vp_readiness : optional WorkerReadinessRegistration_fields w = true;
  vp_lease : is_some owner = is_some expires;
  vp_time : (ar_created_at r <= t)%Z;
  vp_state : s = default PENDING (at_to_state <$> last ts);
  vp_linked : linked ts;
  vp_kinds : NoDup (ck_kind <$> cs);
  vp_checkpoints i c : cs !! i = Some c -> ck_sequence c = (Z.of_nat i + 1)%Z;
  vp_outcome : terminal_failure s = is_some oc;
}.

Lemma valid_parts_self r :
  valid_activation r ->
  valid_parts r (ar_state r) (ar_transitions r) (ar_checkpoints r) (ar_lease_owner_digest r)
    (ar_lease_expires_at r) (ar_worker_readiness r) (ar_outcome_code r) (ar_updated_at r).
Proof.
  intros [Hf [? ? ? ? ? ? ? ?]]%valid_activation_spec. unfold ActivationRecord_fields in Hf.
  rewrite !andb_true_iff, !bool_decide_eq_true in Hf. constructor; try done; by apply Hf.
Qed.

Lemma with_changes_valid r s ts cs o e w oc t :
  valid_activation r -> valid_parts r s ts cs o e w oc t ->
  make_activation (with_changes r s ts cs o e w oc t) = Ok (with_changes r s ts cs o e w oc t).
Proof.
  intros [Hf Hw]%valid_activation_spec [? ? ? ? ? ? ? ? ? ? ? ? ?]. apply valid_activation_spec. split.
  - unfold ActivationRecord_fields in *. rewrite !andb_true_iff, !bool_decide_eq_true in *. cbn.
    split_and!; try done; try apply Hf. destruct Hf as [[[[[[[[_ Hv] _] _] _] _] _] _] _]. lia.
  - destruct Hw. by constructor.
Qed.

(** ** Valid operations *)

Definition same_finite_kinds : list ActivationCheckpointKind :=
  [CHECKPOINT_DEFINITIONS; CHECKPOINT_WORKER_ROLLOUT; CHECKPOINT_WORKER_READINESS; CHECKPOINT_SCHEDULES;
   CHECKPOINT_CATALOG_ROUTING; CHECKPOINT_WORKER_ROUTING; CHECKPOINT_ACTIVE_POINTER; CHECKPOINT_RUNTIME_INDEX].

(** Distinct kinds fit in the bound on checkpoints. *)
Lemma kinds_bounded (l : list ActivationCheckpointKind) : NoDup l -> (length l <= CHECKPOINT_KINDS)%nat.
Proof.
  intros Hl. change CHECKPOINT_KINDS with (length same_finite_kinds). apply submseteq_length, NoDup_submseteq; [done|].
  intros k _. unfold same_finite_kinds. destruct k; set_solver.
Qed.

Lemma lookup_snoc {A} (l : list A) x i y :
  (l ++ [x]) !! i = Some y <-> l !! i = Some y \/ i = length l /\ y = x.
Proof.
  rewrite lookup_app_Some. split.
  - intros [?|[Hle Hx]]; [by left|right]. apply list_lookup_singleton_Some in Hx as [? ->]. split; [lia|done].
  - intros [?|[-> ->]]; [by left|right]. split; [lia|]. by rewrite Nat.sub_diag.
Qed.

Lemma last_lookup_length {A} (l : list A) n : length l = S n -> last l = l !! n.
Proof. intros Hl. rewrite last_lookup. by rewrite Hl. Qed.

Lemma linked_snoc ts t s :
  linked ts -> s = default PENDING (at_to_state <$> last ts) ->
  at_sequence t = (Z.of_nat (length ts) + 1)%Z -> at_from_state t = s -> linked (ts ++ [t]).
Proof.
  intros Hts Hs Hseq Hfrom i t' [Hi|[-> ->]]%lookup_snoc.
  - destruct (Hts i t' Hi) as [? Hb]. split; [done|]. destruct i as [|j]; [done|].
    destruct Hb as (b & Hb & ?). exists b. split; [|done]. apply lookup_snoc. by left.
  - split; [done|]. destruct (length ts) as [|n] eqn:Hn; [done|].
    rewrite (last_lookup_length _ _ Hn) in Hs. destruct (lookup_lt_is_Some_2 ts n) as [b Hb]; [lia|].
    rewrite Hb in Hs. exists b. split; [apply lookup_snoc; by left|]. cbn in Hs. congruence.
Qed.

Lemma transition_valid r s t oc (release : bool) :
  valid_activation r -> (ar_created_at r <= t)%Z -> (length (ar_transitions r) < MAX_ACTIVATION_HISTORY)%nat ->
  terminal_failure s = is_some oc ->
  let tr := {| at_sequence := Z.of_nat (length (ar_transitions r)) + 1; at_from_state := ar_state r;
               at_to_state := s; at_occurred_at := t; at_outcome_code := oc |}%Z in
  valid_parts r s (ar_transitions r ++ [tr]) (ar_checkpoints r)
    (if release then None else ar_lease_owner_digest r) (if release then None else ar_lease_expires_at r)
    (ar_worker_readiness r) oc t.
Proof.
  intros Hv Ht Hlen Hoc tr. pose proof (valid_parts_self r Hv) as [? ? ? ? ? ? ? ? ? ? ? ? ?].
  constructor; try done.
  - rewrite forallb_app. apply andb_true_iff. split; [done|]. unfold ActivationTransition_fields. cbn. lia.
  - rewrite length_app. cbn. lia.
  - by destruct release.
  - by destruct release.
  - by rewrite last_snoc.
  - by eapply linked_snoc.
Qed.

Lemma find_kind_None k cs :
  list_find (fun c => ck_kind c = k) cs = None -> k ∉ ck_kind <$> cs.
Proof.
  intros Hn%list_find_None Hk. apply list_elem_of_fmap in Hk as (c & -> & Hc).
  rewrite Forall_forall in Hn. by apply (Hn c Hc).
Qed.

Lemma checkpoint_valid r k o d t :
  valid_activation r -> (ar_created_at r <= t)%Z -> provenance_field d = true -> k ∉ ck_kind <$> ar_checkpoints r ->
  let c := {| ck_sequence := Z.of_nat (length (ar_checkpoints r)) + 1; ck_kind := k; ck_outcome := o;
              ck_occurred_at := t; ck_observation_digest := d |}%Z in
  ActivationCheckpoint_fields c = true /\
  valid_parts r (ar_state r) (ar_transitions r) (ar_checkpoints r ++ [c]) (ar_lease_owner_digest r)
    (ar_lease_expires_at r) (ar_worker_readiness r) (ar_outcome_code r) t.
Proof.
  intros Hv Ht Hd Hk c. pose proof (valid_parts_self r Hv) as [? ? ? ? ? ? ? ? ? ? ? Hc ?].
  assert (NoDup (ck_kind <$> (ar_checkpoints r ++ [c]))) as Hnd.
  { rewrite fmap_app. apply NoDup_app. split_and!; [done| |apply NoDup_singleton]. set_solver. }
  pose proof (kinds_bounded _ Hnd) as Hlen. rewrite length_fmap, length_app in Hlen. cbn in Hlen.
  assert (ActivationCheckpoint_fields c = true) as Hf.
  { unfold ActivationCheckpoint_fields. cbn. rewrite Hd. rewrite !andb_true_iff. lia. }
  split; [done|]. constructor; try done.
  - rewrite forallb_app. apply andb_true_iff. split; [done|]. cbn. by rewrite Hf.
  - by rewrite length_app.
  - intros i c' [Hi|[-> ->]]%lookup_snoc; [by apply Hc|done].
Qed.

(** The result of an operation: valid, of the same subject, and a new version unless the
    record already says what the operation would say. *)
Definition derived (op : record_operation) (r r' : ActivationRecord) : Prop :=
  valid_activation r' /\ same_subject r r' /\
  (r' = r \/ ar_version r' = (ar_version r + 1)%Z /\ ar_updated_at r' = operation_time op).

(** A refusal of the operation itself, not of the validation of its result. *)
Definition refused (e : activation_exn) : Prop := exists msg, e = PyError (Exn ValueError msg None).

Definition derives (op : record_operation) (r : ActivationRecord) : Prop :=
  match derive op r with
  | Ok r' => accepts op r = true /\ derived op r r'
  | Raise e => accepts op r = false /\ refused e
  end.

Lemma derived_changes op r s ts cs o e w oc :
  valid_activation r -> valid_parts r s ts cs o e w oc (operation_time op) -> accepts op r = true ->
  match make_activation (with_changes r s ts cs o e w oc (operation_time op)) with
  | Ok r' => accepts op r = true /\ derived op r r'
  | Raise e => accepts op r = false /\ refused e
  end.
Proof.
  intros Hv Hp Ha. pose proof (with_changes_valid r _ _ _ _ _ _ _ _ Hv Hp) as Hm. rewrite Hm. split; [done|].
  split_and!; [exact Hm|apply with_changes_subject|by right].
Qed.

Lemma derived_self op r : valid_activation r -> derived op r r.
Proof. intros Hv. split_and!; [done|apply same_subject_refl|by left]. Qed.

Lemma derives_transition r s t oc release :
  valid_activation r -> (ar_created_at r <= t)%Z -> derives (Transition s t oc release) r.
Proof.
  intros Hv Ht. unfold derives. cbn. unfold transition_activation.
  destruct (decide (s ∈ allowed_transitions (ar_state r))) as [Hs|Hs].
  2:{ rewrite bool_decide_false by done. cbn. split; [done|by eexists]. }
  rewrite bool_decide_true by done. cbn [negb andb].
  destruct (decide (MAX_ACTIVATION_HISTORY <= length (ar_transitions r))%nat) as [Hl|Hl].
  { rewrite (bool_decide_true (_ <= _)%nat), (bool_decide_false (_ < _)%nat) by lia. split; [done|by eexists]. }
  rewrite (bool_decide_false (_ <= _)%nat) by lia.
  destruct (Bool.eqb (terminal_failure s) (is_some oc)) eqn:Ho; cbn [negb].
  2:{ split; [by rewrite andb_false_r|by eexists]. }
  pose proof (derived_changes (Transition s t oc release) r) as Hd. cbn [operation_time] in Hd.
  rewrite (bool_decide_true (_ < _)%nat) by lia. cbn [andb].
  assert (accepts (Transition s t oc release) r = true) as Ha
    by (cbn; rewrite !bool_decide_true by (done || lia); by rewrite Ho).
  rewrite Ha in Hd. apply Hd; [done| |done]. apply transition_valid; [done|done|lia|by apply Bool.eqb_prop].
Qed.

Lemma derives_checkpoint r k o d t :
  valid_activation r -> (ar_created_at r <= t)%Z -> provenance_field d = true -> derives (Checkpoint k o d t) r.
Proof.
  intros Hv Ht Hf. pose proof (derived_changes (Checkpoint k o d t) r) as Hd. unfold derives.
  cbn [derive accepts operation_time] in *. unfold record_activation_checkpoint.
  destruct (list_find _ _) as [[i c]|] eqn:Hfind.
  - destruct (bool_decide _ && bool_decide _) eqn:Hsame; [|split; [done|by eexists]].
    split; [done|by apply derived_self].
  - apply find_kind_None in Hfind. destruct (checkpoint_valid r k o d t Hv Ht Hf Hfind) as [Hc Hp].
    rewrite Hc. cbn [valid_if]. by apply Hd.
Qed.

(** An operation that changes the lease or the readiness. *)
Lemma lease_parts r o e w t :
  valid_activation r -> (ar_created_at r <= t)%Z -> optional digest_field o = true -> is_some o = is_some e ->
  optional WorkerReadinessRegistration_fields w = true ->
  valid_parts r (ar_state r) (ar_transitions r) (ar_checkpoints r) o e w (ar_outcome_code r) t.
Proof.
  intros Hv Ht Ho He Hw. pose proof (valid_parts_self r Hv) as [? ? ? ? ? ? ? ? ? ? ? ? ?]. by constructor.
Qed.

Lemma derives_acquire r o t e :
  valid_activation r -> (ar_created_at r <= t)%Z -> digest_field o = true -> derives (Acquire o t e) r.
Proof.
  intros Hv Ht Ho. pose proof (derived_changes (Acquire o t e) r) as Hd. unfold derives.
  cbn [derive accepts operation_time] in *. unfold acquire_activation_lease.
  destruct (Z.leb_spec e t) as [Hle|Hlt].
  { rewrite (proj2 (Z.ltb_ge _ _)) by done. split; [done|by eexists]. }
  rewrite (proj2 (Z.ltb_lt _ _)) in * by done.
  destruct (lease_held_by_another r o t) eqn:Hheld; [split; [done|by eexists]|].
  apply Hd; [done| |done]. apply lease_parts; try done.
  by destruct (valid_parts_self r Hv).
Qed.

Lemma derives_release r o t :
  valid_activation r -> (ar_created_at r <= t)%Z -> derives (ReleaseLease o t) r.
Proof.
  intros Hv Ht. pose proof (derived_changes (ReleaseLease o t) r) as Hd. unfold derives.
  cbn [derive accepts operation_time] in *. unfold release_activation_lease.
  destruct (bool_decide (ar_lease_owner_digest r = Some o)) eqn:Ho; cbn [negb]; [|split; [done|by eexists]].
  apply Hd; [done| |done]. apply lease_parts; try done. by destruct (valid_parts_self r Hv).
Qed.

Lemma derives_readiness r w t :
  valid_activation r -> (ar_created_at r <= t)%Z -> WorkerReadinessRegistration_fields w = true ->
  derives (RegisterReadiness w t) r.
Proof.
  intros Hv Ht Hw. pose proof (derived_changes (RegisterReadiness w t) r) as Hd. unfold derives.
  cbn [derive accepts operation_time] in *. unfold register_worker_readiness, planned_registration in *.
  repeat (match goal with |- context [if negb ?b then _ else _] => destruct b end; cbn [negb andb] in *;
          [|split; [done|by eexists]]).
  destruct (ar_worker_readiness r) as [w'|].
  - destruct (bool_decide (w' = w)); [split; [done|by apply derived_self]|split; [done|by eexists]].
  - apply Hd; [done| |done]. pose proof (valid_parts_self r Hv) as [? ? ? ? ? ? ? ? ? ? ? ? ?].
    by apply lease_parts.
Qed.

Lemma derives_valid op r :
  valid_activation r -> (ar_created_at r <= operation_time op)%Z -> operation_fields op = true -> derives op r.
Proof.
  intros Hv Ht Hf. destruct op; cbn in Ht, Hf.
  - by apply derives_transition.
  - by apply derives_checkpoint.
  - by apply derives_acquire.
  - by apply derives_release.
  - by apply derives_readiness.
Qed.


(** ** Histories *)

(** The records that the functions lead to, from a new one. *)
Inductive reachable_record : ActivationRecord -> Prop :=
| reachable_new r : valid_activation r -> ar_transitions r = [] -> reachable_record r
| reachable_derived op r r' :
    reachable_record r -> (ar_created_at r <= operation_time op)%Z -> operation_fields op = true ->
    derive op r = Ok r' -> reachable_record r'.

(** How an operation changes the state and the histories. *)
Definition history_step (r r' : ActivationRecord) : Prop :=
  (ar_state r' = ar_state r /\ ar_transitions r' = ar_transitions r /\
     ar_checkpoints r `prefix_of` ar_checkpoints r') \/
  (exists t, at_from_state t = ar_state r /\ at_to_state t = ar_state r' /\
     at_to_state t ∈ allowed_transitions (at_from_state t) /\
     ar_transitions r' = ar_transitions r ++ [t] /\ ar_checkpoints r' = ar_checkpoints r).

Lemma make_activation_eq r r' : make_activation r = Ok r' -> r' = r.
Proof. by intros [-> _]%make_activation_Ok. Qed.

(** Goes down a chain of guards to the record that is made. *)
Ltac made :=
  repeat match goal with
  | |- (if ?b then _ else _) = Ok _ -> _ => destruct b eqn:?; cbn [negb]
  | |- value_error _ = Ok _ -> _ => intros Hd; discriminate Hd
  | |- make_activation _ = Ok _ -> _ => intros ->%make_activation_eq
  | |- Ok _ = Ok _ -> _ => intros [= <-]
  end.

Lemma derive_history op r r' : derive op r = Ok r' -> history_step r r'.
Proof.
  assert (history_step r r) as Hself by by left.
  destruct op; cbn [derive].
  - unfold transition_activation. made. right.
    refine (ex_intro _ _ (conj _ (conj _ (conj _ (conj eq_refl eq_refl))))); [done|done|].
    cbn. match goal with H : negb (bool_decide _) = false |- _ => by apply negb_false_iff, bool_decide_eq_true in H end.
  - unfold record_activation_checkpoint. destruct (list_find _ _) as [[i c]|]; [by made|].
    destruct (ActivationCheckpoint_fields _); [|done]. cbn [valid_if mbind result_bind].
    made. left. split_and!; [done|done|by eexists].
  - unfold acquire_activation_lease. made. by left.
  - unfold release_activation_lease. made. by left.
  - unfold register_worker_readiness. destruct (ar_worker_readiness r) as [w|]; [made; done|made; by left].
Qed.

(** No transition goes from [WAITING_FOR_READINESS] to [FAILED]. *)
Definition fails_running (t : ActivationTransition) : Prop :=
  at_from_state t = WAITING_FOR_READINESS -> at_to_state t <> FAILED.

(** The states that a record which fails only while it runs has after an even number of
    transitions. *)
Definition even_state (s : ActivationState) : bool :=
  match s with PENDING | WAITING_FOR_READINESS | FAILED | APPLIED => true | _ => false end.

Record good_history (r : ActivationRecord) : Prop := {
  gh_valid : valid_activation r;
  gh_allowed i t : ar_transitions r !! i = Some t -> at_to_state t ∈ allowed_transitions (at_from_state t);
  gh_first t : ar_transitions r !! 0 = Some t -> at_from_state t = PENDING;
  gh_running : Forall fails_running (ar_transitions r) -> ar_state r = RUNNING -> Nat.Odd (length (ar_transitions r));
  gh_resting : Forall fails_running (ar_transitions r) -> even_state (ar_state r) = true ->
    Nat.Even (length (ar_transitions r));
}.

Lemma allowed_parity s s' :
  s' ∈ allowed_transitions s -> (s = WAITING_FOR_READINESS -> s' <> FAILED) ->
  (s' = RUNNING -> even_state s = true) /\ (even_state s' = true -> s = RUNNING).
Proof.
  intros Hin. apply (bool_decide_eq_true_2 _) in Hin. destruct s, s'; vm_compute in Hin; try discriminate Hin; cbn; intros Hw;
    try specialize (Hw eq_refl); split; congruence.
Qed.

Lemma even_succ n : Nat.Even (S n) <-> Nat.Odd n.
Proof. apply Nat.Even_succ. Qed.

Lemma odd_succ n : Nat.Odd (S n) <-> Nat.Even n.
Proof. apply Nat.Odd_succ. Qed.

Lemma history_step_good r r' :
  good_history r -> valid_activation r' -> history_step r r' -> good_history r'.
Proof.
  intros [Hv Ha Hf Hr He] Hv' [(Hs & Ht & _)|(t & Hfrom & Hto & Hin & Ht & _)].
  { constructor; rewrite ?Hs, ?Ht; done. }
  assert (ar_transitions r = [] -> ar_state r = PENDING) as Hnew.
  { intros Hnil. apply valid_activation_spec in Hv as [_ Hwf]. by rewrite (wf_state r Hwf), Hnil. }
  assert (Forall fails_running (ar_transitions r ++ [t]) ->
    Forall fails_running (ar_transitions r) /\
    (ar_state r' = RUNNING -> even_state (ar_state r) = true) /\
    (even_state (ar_state r') = true -> ar_state r = RUNNING)) as Hpar.
  { intros [Hall Ht1]%Forall_app. apply Forall_inv in Ht1. split; [done|].
    rewrite <- Hfrom, <- Hto. apply allowed_parity; [done|exact Ht1]. }
  constructor; rewrite ?Ht, ?length_app; cbn [length]; rewrite ?Nat.add_1_r.
  - done.
  - intros i t' [Hi|[_ ->]]%lookup_snoc; [by eapply Ha|done].
  - intros t' [Hi|[Hi ->]]%lookup_snoc; [by apply Hf|]. rewrite Hfrom. apply Hnew.
    by destruct (ar_transitions r).
  - intros (Hall & Hrun & _)%Hpar Hst. by apply odd_succ, He, Hrun.
  - intros (Hall & _ & Heven)%Hpar Hst. by apply even_succ, Hr, Heven.
Qed.

Lemma reachable_good r : reachable_record r -> good_history r.
Proof.
  induction 1 as [r Hv Hn|op r r' Hr IH Ht Hf Hd].
  - apply valid_activation_spec in Hv as Hv'. destruct Hv' as [_ Hwf]. pose proof (wf_state r Hwf) as Hs.
    rewrite Hn in Hs. cbn in Hs. constructor; rewrite ?Hn, ?Hs; try done. intros _ _. by exists 0.
  - pose proof (derives_valid op r (gh_valid r IH) Ht Hf) as Hres. unfold derives in Hres. rewrite Hd in Hres.
    eapply history_step_good; [exact IH|apply Hres|by eapply derive_history].
Qed.


(** ** Leases *)

Fixpoint derive_all (ops : list record_operation) (r : ActivationRecord) : ares ActivationRecord :=
  match ops with
  | [] => Ok r
  | op :: ops => r' ← derive op r; derive_all ops r'
  end.

(** The operation neither releases the lease of [owner] nor shortens it, and when it would
    take it over it does so before [expires]. *)
Definition respects_lease (owner : string) (expires : Z) (op : record_operation) : Prop :=
  match op with
  | Transition _ _ _ release => release = false
  | ReleaseLease o _ => o <> owner
  | Acquire o t e => if decide (o = owner) then (expires <= e)%Z else (t < expires)%Z
  | _ => True
  end.

(** The record is leased to [owner] until [expires] at least. *)
Definition leased_until (owner : string) (expires : Z) (r : ActivationRecord) : Prop :=
  ar_lease_owner_digest r = Some owner /\ exists e, ar_lease_expires_at r = Some e /\ (expires <= e)%Z.

Lemma respects_lease_step owner expires op r r' :
  leased_until owner expires r -> respects_lease owner expires op -> derive op r = Ok r' ->
  leased_until owner expires r'.
Proof.
  intros Hl Hop. pose proof Hl as [Ho (e & He & Hle)]. destruct op; cbn [derive respects_lease] in *.
  - subst. unfold transition_activation. by made.
  - unfold record_activation_checkpoint. destruct (list_find _ _) as [[i c]|]; [by made|].
    destruct (ActivationCheckpoint_fields _); [|done]. cbn [valid_if mbind result_bind]. by made.
  - unfold acquire_activation_lease. destruct (_ <=? _)%Z; [by made|].
    unfold lease_held_by_another. rewrite Ho, He. destruct (decide (owner_digest = owner)) as [->|Hne].
    + rewrite bool_decide_true by done. cbn [negb andb]. made. split; [done|]. by eexists.
    + rewrite (bool_decide_false (owner = owner_digest)) by congruence. cbn [negb andb].
      rewrite (proj2 (Z.ltb_lt _ _)) by lia. by made.
  - unfold release_activation_lease. rewrite Ho, (bool_decide_false (Some owner = Some owner_digest)) by congruence.
    by made.
  - unfold register_worker_readiness. destruct (ar_worker_readiness r) as [w|]; made; done.
Qed.

(** C34: A lease excludes every other controller until it expires.  Once a controller has
    acquired it, and while nobody releases it for it or lets it be taken over after its
    expiry, no sequence of operations, whoever performs them, lets another controller
    acquire the lease before its expiry. *)
Theorem lease_excludes_others owner t expires r r1 ops r2 other t' e' :
  derive (Acquire owner t expires) r = Ok r1 ->
  Forall (respects_lease owner expires) ops -> derive_all ops r1 = Ok r2 ->
  other <> owner -> (t' < expires)%Z ->
  is_ok (derive (Acquire other t' e') r2) = false.
Proof.
  intros Ha Hops Hall Hne Ht.
  assert (leased_until owner expires r1) as Hl.
  { revert Ha. cbn. unfold acquire_activation_lease. made. split; [done|]. by eexists. }
  assert (leased_until owner expires r2) as [Ho (e & He & Hle)].
  { clear Ha. revert r1 Hl Hall. induction Hops as [|op ops Hop _ IH]; intros r1 Hl Hall; cbn in Hall.
    - by injection Hall as <-.
    - apply bind_Ok in Hall as (r1' & Hd & Hall). eapply IH; [|done]. by eapply respects_lease_step. }
  cbn. unfold acquire_activation_lease. destruct (_ <=? _)%Z; [done|].
  unfold lease_held_by_another. rewrite Ho, He, (bool_decide_false (owner = other)) by congruence.
  by rewrite (proj2 (Z.ltb_lt t' e)) by lia.
Qed.

(** ** Samples *)

Fixpoint zeros (n : nat) : string := match n with 0 => "" | S n => String "0" (zeros n) end.

Definition sample_digest (c : Ascii.ascii) : string := String c (zeros 63).
Definition sample_provenance (c : Ascii.ascii) : string := "sha256:" +:+ sample_digest c.

Definition sample_artifact : WorkerArtifactIdentity := {|
  wa_deployment_name := "orders"; wa_build_id := "1"; wa_artifact_digest := LOCAL_ARTIFACT_DIGEST;
  wa_package_version := "1.0"; wa_source_revision := None |}.

Definition sample_plan : ActivationPlan := {|
  ap_plan_digest := sample_provenance "1"; ap_scope_digest := sample_digest "2";
  ap_source_revision_id := None; ap_target_revision_id := sample_digest "3";
  ap_expected_active_revision_id := None; ap_expected_active_pointer_version := None;
  ap_expected_catalog_alias_version := None; ap_policy_digest := sample_provenance "4";
  ap_worker_observation_digest := sample_provenance "5"; ap_schedule_observation_digest := sample_provenance "6";
  ap_target_artifact := sample_artifact; ap_target_task_queue_identity_digest := sample_provenance "7";
  ap_target_worker_registration_digest := sample_provenance "8"; ap_target_definition_digests := [];
  ap_changes := []; ap_compatibility_risks := []; ap_worker_action := WORKER_ROLLOUT;
  ap_definition_action := DEFINITIONS_NONE; ap_routing_action := ROUTING_SWITCH;
  ap_schedule_action := SCHEDULES_NONE |}.

Definition sample_record : ActivationRecord := {|
  ar_activation_id := sample_digest "a"; ar_scope_digest := sample_digest "2";
  ar_idempotency_key_digest := sample_digest "b"; ar_request_digest := sample_provenance "c";
  ar_actor_digest := sample_digest "d"; ar_correlation_digest := sample_digest "e";
  ar_plan := sample_plan; ar_state := PENDING; ar_version := 1; ar_transitions := []; ar_checkpoints := [];
  ar_lease_owner_digest := None; ar_lease_expires_at := None; ar_worker_readiness := None;
  ar_rollback_of_activation_id := None; ar_outcome_code := None; ar_created_at := 0; ar_updated_at := 0 |}.

Definition record_of (r : ares ActivationRecord) : ActivationRecord :=
  match r with Ok r => r | Raise _ => sample_record end.

Definition sample_running : ActivationRecord := record_of (derive (Transition RUNNING 1 None false) sample_record).

Lemma sample_valid : valid_activation sample_record.
Proof. by vm_compute. Qed.


Lemma reachable_running : reachable_record sample_running.
Proof.
  apply (reachable_derived (Transition RUNNING 1 None false) sample_record);
    [apply reachable_new; [apply sample_valid|done]|done|done|by vm_compute].
Qed.


Definition sample_leased : ActivationRecord := record_of (derive (Acquire (sample_digest "1") 2 32) sample_running).

Lemma lease_excludes_others_witness :
  is_ok (derive (Acquire (sample_digest "2") 31 90)
           (record_of (derive_all [Checkpoint CHECKPOINT_DEFINITIONS CONFIRMED (sample_provenance "1") 3] sample_leased)))
  = false.
Proof.
  apply (lease_excludes_others (sample_digest "1") 2 32 sample_running sample_leased
           [Checkpoint CHECKPOINT_DEFINITIONS CONFIRMED (sample_provenance "1") 3]).
  - vm_compute; reflexivity.
  - repeat constructor.
  - vm_compute; reflexivity.
  - vm_compute; discriminate.
  - lia.
Defined.

(** The bound can stop a running activation that failed once while it waited: a path with
    a hundred transitions that ends in [RUNNING], after which nothing is accepted. *)
Definition stranding_path : list record_operation :=
  [Transition RUNNING 1 None false; Transition WAITING_FOR_READINESS 2 None true;
   Transition FAILED 3 (Some WORKER_UNAVAILABLE) true]
  ++ concat (repeat [Transition RUNNING 4 None false; Transition FAILED 5 (Some WORKER_UNAVAILABLE) true] 48)
  ++ [Transition RUNNING 6 None false].

Example stranded_running :
  let r := record_of (derive_all stranding_path sample_record) in
  ar_state r = RUNNING /\ length (ar_transitions r) = 100 /\
  is_ok (derive (Transition APPLIED 7 None true) r) = false /\
  is_ok (derive (Transition FAILED 7 (Some INTERNAL_ERROR) true) r) = false.
Proof. vm_compute. by split_and!. Qed.
