(* ===== verification/ActivationPlanning.v ===== *)
(** The plan of an activation: what changes between two configuration bundles and which
    actions the change calls for ([configuration/activation.py]), over the declarations of
    triggers ([config/triggers.py]). *)

From stdpp Require Export gmap sorting.
From S2P Require Export Canonical Activation.

(** [provenance_digest]: the values below hold texts and whole numbers only, which JSON
    can always write. *)
Definition provenance_digest `{Sha256, FloatRepr} (value : json) : string :=
  "sha256:" +:+ hexdigest (dumps_strict_json value).

(** A call that raises a Python exception. *)
Definition lift_py {A} (r : res A) : ares A :=
  match r with Ok a => Ok a | Raise e => Raise (PyError e) end.

Definition opt_json (o : option string) : json := match o with Some s => JStr s | None => JNull end.

(** ** Triggers *)

(** [TriggerDeclaration]; [rest] holds the fields of a schedule that nothing here reads. *)
Inductive TriggerDeclaration :=
| ApiTriggerDeclaration (workflow : string) (paused : bool)
| ScheduleTriggerDeclaration (workflow : string) (paused : bool) (rest : list (string * json))
| WebhookTriggerDeclaration (workflow : string) (paused : bool) (source : string)
| EventTriggerDeclaration (workflow : string) (paused : bool) (mapping : string)
| BrokerTriggerDeclaration (workflow : string) (paused : bool) (broker : string)
| HostTriggerDeclaration (workflow : string) (paused : bool) (adapter : string).

Definition td_workflow (d : TriggerDeclaration) : string :=
  match d with
  | ApiTriggerDeclaration w _ | ScheduleTriggerDeclaration w _ _ | WebhookTriggerDeclaration w _ _
  | EventTriggerDeclaration w _ _ | BrokerTriggerDeclaration w _ _ | HostTriggerDeclaration w _ _ => w
  end.

Definition td_paused (d : TriggerDeclaration) : bool :=
  match d with
  | ApiTriggerDeclaration _ p | ScheduleTriggerDeclaration _ p _ | WebhookTriggerDeclaration _ p _
  | EventTriggerDeclaration _ p _ | BrokerTriggerDeclaration _ p _ | HostTriggerDeclaration _ p _ => p
  end.

(** [TriggerKind.value] *)
Definition td_kind (d : TriggerDeclaration) : string :=
  match d with
  | ApiTriggerDeclaration _ _ => "api" | ScheduleTriggerDeclaration _ _ _ => "schedule"
  | WebhookTriggerDeclaration _ _ _ => "webhook" | EventTriggerDeclaration _ _ _ => "event"
  | BrokerTriggerDeclaration _ _ _ => "broker" | HostTriggerDeclaration _ _ _ => "host"
  end.

(** [_source_binding] *)
Definition source_binding (d : TriggerDeclaration) : option string :=
  match d with
  | WebhookTriggerDeclaration _ _ s | EventTriggerDeclaration _ _ s
  | BrokerTriggerDeclaration _ _ s | HostTriggerDeclaration _ _ s => Some s
  | _ => None
  end.

(** [model_dump(mode="json", by_alias=True)] of a declaration *)
Definition trigger_dump (d : TriggerDeclaration) : json :=
  JDict ([("workflow", JStr (td_workflow d)); ("paused", JBool (td_paused d)); ("kind", JStr (td_kind d))]
         ++ match d with
            | ApiTriggerDeclaration _ _ => []
            | ScheduleTriggerDeclaration _ _ rest => rest
            | WebhookTriggerDeclaration _ _ s => [("source", JStr s)]
            | EventTriggerDeclaration _ _ s => [("mapping", JStr s)]
            | BrokerTriggerDeclaration _ _ s => [("broker", JStr s)]
            | HostTriggerDeclaration _ _ s => [("adapter", JStr s)]
            end).

Definition is_api (d : TriggerDeclaration) : bool :=
  match d with ApiTriggerDeclaration _ _ => true | _ => false end.
Definition is_schedule (d : TriggerDeclaration) : bool :=
  match d with ScheduleTriggerDeclaration _ _ _ => true | _ => false end.

(** [TriggersConfig.triggers] *)
Abbreviation TriggersConfig := (list (string * TriggerDeclaration)).

Definition source_bindings (triggers : TriggersConfig) : list (string * string * string) :=
  omap (fun kv => binding ← source_binding kv.2; Some (td_workflow kv.2, td_kind kv.2, binding)) triggers.

(** [TriggersConfig.validate_api_uniqueness] *)
Definition validate_api_uniqueness (triggers : TriggersConfig) : ares unit :=
  if negb (bool_decide (NoDup (td_workflow <$> filter (fun d => is_api d = true) (snd <$> triggers))))
  then validation_error "a workflow may declare at most one api trigger"
  else if negb (bool_decide (NoDup (source_bindings triggers)))
  then validation_error "a workflow trigger source binding must be unique"
  else Ok tt.

(** [TriggersConfig.schedules] *)
Definition schedules (triggers : TriggersConfig) : TriggersConfig :=
  filter (fun kv => is_schedule kv.2 = true) triggers.

(** ** Bundles *)

(** [ConfigurationBundle]: the dumps of its declarations, and the revision of the tenant
    configuration it was resolved from. *)
Record ConfigurationBundle := {
  bu_resources : list (string * json);
  bu_services : list (string * json);
  bu_workflows : list (string * json);
  bu_triggers : TriggersConfig;
  bu_tenant_configuration_revision_id : option string;
}.

Definition empty_bundle : ConfigurationBundle :=
  {| bu_resources := []; bu_services := []; bu_workflows := []; bu_triggers := [];
     bu_tenant_configuration_revision_id := None |}.

(** [ActivationObservations] *)
Record ActivationObservations := {
  ob_active_pointer_version : option Z;
  ob_catalog_alias_version : option string;
  ob_policy_digest : string;
  ob_worker_observation_digest : string;
  ob_schedule_observation_digest : string;
  ob_registered_definition_digests : gset string;
}.

(** The constraints of the fields. *)
Definition ActivationObservations_fields (o : ActivationObservations) : bool :=
  optional (fun v => 1 <=? v)%Z (ob_active_pointer_version o)
  && optional (bounded_text 1 MAX_EXTERNAL_VERSION_LENGTH) (ob_catalog_alias_version o)
  && provenance_field (ob_policy_digest o) && provenance_field (ob_worker_observation_digest o)
  && provenance_field (ob_schedule_observation_digest o)
  && forallb digest_field (elements (ob_registered_definition_digests o))
  && bool_decide (size (ob_registered_definition_digests o) <= MAX_ACTIVATION_CHANGES)%nat.

(** ** Values of the enumerations *)

Definition change_kind_value (k : ActivationChangeKind) : string :=
  match k with
  | CHANGE_WORKFLOW => "workflow" | CHANGE_SERVICE => "service" | CHANGE_RESOURCE => "resource"
  | CHANGE_POLICY => "policy" | CHANGE_SCHEDULE => "schedule" | CHANGE_ARTIFACT => "artifact"
  | CHANGE_DELETION => "deletion"
  end.

Definition subject_kind_value (k : ActivationSubjectKind) : string :=
  match k with
  | SUBJECT_WORKFLOW => "workflow" | SUBJECT_SERVICE => "service" | SUBJECT_RESOURCE => "resource"
  | SUBJECT_POLICY => "policy" | SUBJECT_SCHEDULE => "schedule" | SUBJECT_ARTIFACT => "artifact"
  end.

Definition operation_value (o : ActivationChangeOperation) : string :=
  match o with OP_CREATE => "create" | OP_UPDATE => "update" | OP_DELETE => "delete" end.

Definition risk_value (r : ActivationCompatibilityRisk) : string :=
  match r with
  | OPEN_EXECUTION_RETENTION => "open_execution_retention" | REPLAY_COMPATIBILITY => "replay_compatibility"
  | COMPONENT_POLICY_CHANGE => "component_policy_change" | EXTERNAL_ROUTING_CHANGE => "external_routing_change"
  end.

Definition worker_action_value (a : WorkerActivationAction) : string :=
  match a with WORKER_NONE => "none" | WORKER_ROLLOUT => "rollout" end.
Definition definition_action_value (a : DefinitionActivationAction) : string :=
  match a with DEFINITIONS_NONE => "none" | DEFINITIONS_PUBLISH => "publish" end.
Definition routing_action_value (a : RoutingActivationAction) : string :=
  match a with ROUTING_NONE => "none" | ROUTING_SWITCH => "switch" end.
Definition schedule_action_value (a : ScheduleActivationAction) : string :=
  match a with SCHEDULES_NONE => "none" | SCHEDULES_RECONCILE => "reconcile" end.

(** [WorkerArtifactIdentity.model_dump(mode="json")] *)
Definition artifact_dump (a : WorkerArtifactIdentity) : json :=
  JDict [("deployment_name", JStr (wa_deployment_name a)); ("build_id", JStr (wa_build_id a));
         ("artifact_digest", JStr (wa_artifact_digest a)); ("package_version", JStr (wa_package_version a));
         ("source_revision", opt_json (wa_source_revision a))].

(** [ActivationChange.model_dump(mode="json")] *)
Definition change_dump (c : ActivationChange) : json :=
  JDict [("kind", JStr (change_kind_value (ac_kind c)));
         ("subject_kind", JStr (subject_kind_value (ac_subject_kind c)));
         ("operation", JStr (operation_value (ac_operation c)));
         ("subject_digest", JStr (ac_subject_digest c))].

Section planning.
Context `{Sha256, FloatRepr}.

(** ** Changes *)

(** [_singleton_change] *)
Definition singleton_change (scope_digest : string) (kind : ActivationChangeKind)
    (subject_kind : ActivationSubjectKind) (operation : ActivationChangeOperation) (identity : string)
  : ares ActivationChange :=
  subject_digest ← lift_py (safe_identity_digest "activation-change"
    (scope_digest +:+ ":" +:+ subject_kind_value subject_kind +:+ ":" +:+ identity));
  Ok {| ac_kind := kind; ac_subject_kind := subject_kind; ac_operation := operation;
        ac_subject_digest := subject_digest |}.

(** [_canonical_value] of a dump; [allow_nan=False] refuses numbers that are not finite. *)
Definition canonical_value (value : json) : ares string :=
  match validate_json_value "$" value with
  | Ok _ => Ok (dumps_strict_json value)
  | Raise _ => value_error "Out of range float values are not JSON compliant"
  end.

(** The body of the loop of [_mapping_changes]: the change of one name, if any. *)
Definition name_change (scope_digest : string) (kind : ActivationChangeKind)
    (subject_kind : ActivationSubjectKind) (target active : list (string * json)) (name : string)
  : ares (option ActivationChange) :=
  match dict_get name target with
  | None => Some <$> singleton_change scope_digest CHANGE_DELETION subject_kind OP_DELETE name
  | Some wanted =>
      match dict_get name active with
      | None => Some <$> singleton_change scope_digest kind subject_kind OP_CREATE name
      | Some current =>
          w ← canonical_value wanted;
          c ← canonical_value current;
          if bool_decide (w = c) then Ok None
          else Some <$> singleton_change scope_digest kind subject_kind OP_UPDATE name
      end
  end.

(** [sorted(set(target) | set(active))] *)
Definition union_names {A B} (target : list (string * A)) (active : list (string * B)) : list string :=
  sorted_strings (elements (list_to_set (dict_keys target) ∪ list_to_set (dict_keys active) : gset string)).

(** [_mapping_changes] *)
Definition mapping_changes (scope_digest : string) (kind : ActivationChangeKind)
    (subject_kind : ActivationSubjectKind) (target active : list (string * json))
  : ares (list ActivationChange) :=
  (fun changes : list (option ActivationChange) => omap id changes)
    <$> traverse (name_change scope_digest kind subject_kind target active) (union_names target active).

(** The key by which changes are sorted. *)
Definition change_key (c : ActivationChange) : string * string * string * string :=
  (change_kind_value (ac_kind c), subject_kind_value (ac_subject_kind c), operation_value (ac_operation c),
   ac_subject_digest c).

(** [<=] on tuples of texts *)
Definition key_le (a b : string * string * string * string) : bool :=
  let '(a1, a2, a3, a4) := a in
  let '(b1, b2, b3, b4) := b in
  if negb (bool_decide (a1 = b1)) then String.leb a1 b1
  else if negb (bool_decide (a2 = b2)) then String.leb a2 b2
  else if negb (bool_decide (a3 = b3)) then String.leb a3 b3
  else String.leb a4 b4.

Definition change_le (a b : ActivationChange) : Prop := key_le (change_key a) (change_key b) = true.

#[export] Instance change_le_dec a b : Decision (change_le a b).
Proof. unfold change_le. apply _. Defined.

(** The change of the policy. *)
Definition policy_changes (scope_digest target_policy_digest : string) (active_policy_digest : option string)
  : ares (list ActivationChange) :=
  if bool_decide (active_policy_digest = Some target_policy_digest) then Ok []
  else
    c ← singleton_change scope_digest CHANGE_POLICY SUBJECT_POLICY
          (match active_policy_digest with None => OP_CREATE | Some _ => OP_UPDATE end) target_policy_digest;
    Ok [c].

(** The change of the artifact. *)
Definition artifact_changes (scope_digest : string) (target_artifact : WorkerArtifactIdentity)
    (active_artifact : option WorkerArtifactIdentity) : ares (list ActivationChange) :=
  if bool_decide (active_artifact = Some target_artifact) then Ok []
  else
    c ← singleton_change scope_digest CHANGE_ARTIFACT SUBJECT_ARTIFACT
          (match active_artifact with None => OP_CREATE | Some _ => OP_UPDATE end)
          (provenance_digest (artifact_dump target_artifact));
    Ok [c].

(** [_configuration_changes] *)
Definition configuration_changes (scope_digest : string) (target : ConfigurationBundle)
    (active : option ConfigurationBundle) (target_artifact : WorkerArtifactIdentity)
    (active_artifact : option WorkerArtifactIdentity) (target_policy_digest : string)
    (active_policy_digest : option string) : ares (list ActivationChange) :=
  let active_bundle := default empty_bundle active in
  workflows ← mapping_changes scope_digest CHANGE_WORKFLOW SUBJECT_WORKFLOW
                (bu_workflows target) (bu_workflows active_bundle);
  services ← mapping_changes scope_digest CHANGE_SERVICE SUBJECT_SERVICE
               (bu_services target) (bu_services active_bundle);
  resources ← mapping_changes scope_digest CHANGE_RESOURCE SUBJECT_RESOURCE
                (bu_resources target) (bu_resources active_bundle);
  triggers ← mapping_changes scope_digest CHANGE_SCHEDULE SUBJECT_SCHEDULE
               (map (prod_map id trigger_dump) (bu_triggers target))
               (map (prod_map id trigger_dump) (bu_triggers active_bundle));
  policy ← policy_changes scope_digest target_policy_digest active_policy_digest;
  artifact ← artifact_changes scope_digest target_artifact active_artifact;
  Ok (merge_sort change_le (workflows ++ services ++ resources ++ triggers ++ policy ++ artifact)).

(** ** Plans *)

(** The value whose digest is the identity of the plan. *)
Definition plan_value (scope_digest : string) (source_revision_id : option string)
    (target_revision_id : string) (expected_active_revision_id : option string)
    (observations : ActivationObservations) (target_artifact : WorkerArtifactIdentity)
    (target_task_queue_identity_digest target_worker_registration_digest : string)
    (target_definition_digests : list string) (changes : list ActivationChange)
    (compatibility_risks : list ActivationCompatibilityRisk) (worker_action : WorkerActivationAction)
    (definition_action : DefinitionActivationAction) (routing_action : RoutingActivationAction)
    (schedule_action : ScheduleActivationAction) : json :=
  JDict [
    ("scope_digest", JStr scope_digest);
    ("source_revision_id", opt_json source_revision_id);
    ("target_revision_id", JStr target_revision_id);
    ("expected_active_revision_id", opt_json expected_active_revision_id);
    ("expected_active_pointer_version",
      match ob_active_pointer_version observations with Some v => JInt v | None => JNull end);
    ("expected_catalog_alias_version", opt_json (ob_catalog_alias_version observations));
    ("policy_digest", JStr (ob_policy_digest observations));
    ("worker_observation_digest", JStr (ob_worker_observation_digest observations));
    ("schedule_observation_digest", JStr (ob_schedule_observation_digest observations));
    ("target_artifact", artifact_dump target_artifact);
    ("target_task_queue_identity_digest", JStr target_task_queue_identity_digest);
    ("target_worker_registration_digest", JStr target_worker_registration_digest);
    ("target_definition_digests", JList (map JStr target_definition_digests));
    ("changes", JList (map change_dump changes));
    ("compatibility_risks", JList (map (fun r => JStr (risk_value r)) compatibility_risks));
    ("worker_action", JStr (worker_action_value worker_action));
    ("definition_action", JStr (definition_action_value definition_action));
    ("routing_action", JStr (routing_action_value routing_action));
    ("schedule_action", JStr (schedule_action_value schedule_action))].

(** [ActivationPlan.create] *)
Definition create_plan (scope_digest : string) (source_revision_id : option string)
    (target_revision_id : string) (expected_active_revision_id : option string)
    (observations : ActivationObservations) (target_artifact : WorkerArtifactIdentity)
    (target_task_queue_identity_digest target_worker_registration_digest : string)
    (target_definition_digests : list string) (changes : list ActivationChange)
    (compatibility_risks : list ActivationCompatibilityRisk) (worker_action : WorkerActivationAction)
    (definition_action : DefinitionActivationAction) (routing_action : RoutingActivationAction)
    (schedule_action : ScheduleActivationAction) : ares ActivationPlan :=
  let plan := {|
    ap_plan_digest := provenance_digest
      (plan_value scope_digest source_revision_id target_revision_id expected_active_revision_id
         observations target_artifact target_task_queue_identity_digest
         target_worker_registration_digest target_definition_digests changes compatibility_risks
         worker_action definition_action routing_action schedule_action);
    ap_scope_digest := scope_digest;
    ap_source_revision_id := source_revision_id;
    ap_target_revision_id := target_revision_id;
    ap_expected_active_revision_id := expected_active_revision_id;
    ap_expected_active_pointer_version := ob_active_pointer_version observations;
    ap_expected_catalog_alias_version := ob_catalog_alias_version observations;
    ap_policy_digest := ob_policy_digest observations;
    ap_worker_observation_digest := ob_worker_observation_digest observations;
    ap_schedule_observation_digest := ob_schedule_observation_digest observations;
    ap_target_artifact := target_artifact;
    ap_target_task_queue_identity_digest := target_task_queue_identity_digest;
    ap_target_worker_registration_digest := target_worker_registration_digest;
    ap_target_definition_digests := target_definition_digests;
    ap_changes := changes;
    ap_compatibility_risks := compatibility_risks;
    ap_worker_action := worker_action;
    ap_definition_action := definition_action;
    ap_routing_action := routing_action;
    ap_schedule_action := schedule_action
  |} in
  _ ← valid_if (ActivationPlan_fields plan) "field";
  Ok plan.

(** [change.kind in _WORKER_CHANGE_KINDS or (a deletion of something but a schedule)] *)
Definition worker_change (c : ActivationChange) : bool :=
  match ac_kind c with
  | CHANGE_WORKFLOW | CHANGE_SERVICE | CHANGE_RESOURCE | CHANGE_POLICY | CHANGE_ARTIFACT => true
  | CHANGE_DELETION => negb (bool_decide (ac_subject_kind c = SUBJECT_SCHEDULE))
  | CHANGE_SCHEDULE => false
  end.

(** The compatibility risks, in the order in which they are appended. *)
Definition plan_risks (changes : list ActivationChange) (worker_action : WorkerActivationAction)
    (routing_action : RoutingActivationAction) : list ActivationCompatibilityRisk :=
  (if existsb (fun c => bool_decide (ac_kind c = CHANGE_DELETION)
                        && bool_decide (ac_subject_kind c = SUBJECT_WORKFLOW)) changes
   then [OPEN_EXECUTION_RETENTION] else [])
  ++ (if bool_decide (worker_action = WORKER_ROLLOUT) then [REPLAY_COMPATIBILITY] else [])
  ++ (if existsb (fun c => bool_decide (ac_kind c = CHANGE_POLICY)) changes
      then [COMPONENT_POLICY_CHANGE] else [])
  ++ (if bool_decide (routing_action = ROUTING_SWITCH) then [EXTERNAL_ROUTING_CHANGE] else []).

(** [plan_configuration_activation] *)
Definition plan_configuration_activation (scope_digest target_revision_id : string)
    (target : ConfigurationBundle) (target_artifact : WorkerArtifactIdentity)
    (target_task_queue_identity_digest target_worker_registration_digest : string)
    (target_definition_digests : list (string * string)) (observations : ActivationObservations)
    (active_revision_id : option string) (active : option ConfigurationBundle)
    (active_artifact : option WorkerArtifactIdentity) (active_policy_digest : option string)
  : ares ActivationPlan :=
  changes ← configuration_changes scope_digest target active target_artifact active_artifact
              (ob_policy_digest observations) active_policy_digest;
  if bool_decide (MAX_ACTIVATION_CHANGES < length changes)%nat
  then value_error "Activation plan exceeds its change count limit"
  else
    let target_set : gset string := list_to_set (snd <$> target_definition_digests) in
    let target_digests := sorted_strings (elements target_set) in
    let registered := bool_decide (target_set ⊆ ob_registered_definition_digests observations) in
    let worker_action :=
      if existsb worker_change changes || negb registered then WORKER_ROLLOUT else WORKER_NONE in
    let definition_action :=
      if negb registered
         || existsb (fun c => bool_decide (ac_subject_kind c = SUBJECT_WORKFLOW)) changes
      then DEFINITIONS_PUBLISH else DEFINITIONS_NONE in
    let schedule_action :=
      if existsb (fun c => bool_decide (ac_subject_kind c = SUBJECT_SCHEDULE)) changes
      then SCHEDULES_RECONCILE else SCHEDULES_NONE in
    let routing_action :=
      if bool_decide (active_revision_id = Some target_revision_id) then ROUTING_NONE else ROUTING_SWITCH in
    create_plan scope_digest (bu_tenant_configuration_revision_id target) target_revision_id
      active_revision_id observations target_artifact target_task_queue_identity_digest
      target_worker_registration_digest target_digests changes
      (plan_risks changes worker_action routing_action)
      worker_action definition_action routing_action schedule_action.

(** ** Control identities *)

(** [_validate_control_identity_input]; the text names the input, capitalised. *)
Definition validate_control_identity_input (value : string) (kind : string) : ares unit :=
  if bool_decide (value = "") || bool_decide (MAX_CONTROL_IDENTITY_INPUT_LENGTH < String.length value)%nat
  then value_error (kind +:+ " is invalid")
  else Ok tt.

Definition publication_identity (scope_digest idempotency_key : string) : ares string :=
  _ ← validate_control_identity_input idempotency_key "Publication idempotency key";
  lift_py (safe_identity_digest "publication" (scope_digest +:+ ":" +:+ idempotency_key)).

Definition activation_identity (scope_digest idempotency_key : string) : ares string :=
  _ ← validate_control_identity_input idempotency_key "Activation idempotency key";
  lift_py (safe_identity_digest "activation" (scope_digest +:+ ":" +:+ idempotency_key)).

(** [kind.capitalize()] on kinds in lower case *)
Definition capitalize (s : string) : string :=
  match s with
  | String c s =>
      let n := Ascii.N_of_ascii c in
      String (if (97 <=? n)%N && (n <=? 122)%N then Ascii.ascii_of_N (n - 32) else c) s
  | EmptyString => EmptyString
  end.

Definition control_identity_digest (kind value : string) : ares string :=
  _ ← validate_control_identity_input value (capitalize kind);
  lift_py (safe_identity_digest kind value).

Definition activation_request_digest (plan : ActivationPlan) : string :=
  provenance_digest (JDict [
    ("plan_digest", JStr (ap_plan_digest plan));
    ("scope_digest", JStr (ap_scope_digest plan));
    ("target_revision_id", JStr (ap_target_revision_id plan))]).

(** [publication_request_digest], with the text of the document. *)
Definition publication_request_digest (scope_digest : string) (draft_version : Z) (document : string)
  : string :=
  provenance_digest (JDict [
    ("document_digest", JStr (hexdigest document));
    ("draft_version", JInt draft_version);
    ("scope_digest", JStr scope_digest)]).
End planning.
