(* ===== verification/Routing.v ===== *)
(** Targets of workflow starts and the choice of a worker deployment
    ([definitions/routing.py]), over the identities of [provenance.py] and
    [definitions/manifest.py]. *)

From S2P Require Export ActivationPlanning Processes.

(** ** Identities *)

(** [DefinitionManifest]: the fields read here, and the canonical text of its content. *)
Record DefinitionManifest := {
  mf_logical_name : string;
  mf_definition_digest : string;
  mf_required_engine_workflow_abi : string;
  mf_input_schema : option string;
  mf_content : string;
}.

#[export] Instance DefinitionManifest_eq_dec : EqDecision DefinitionManifest.
Proof. solve_decision. Defined.

(** [ExecutionConfigurationIdentity] *)
Record ExecutionConfigurationIdentity := {
  ec_configuration_revision_id : string;
  ec_tenant_configuration_revision_id : option string;
  ec_component_catalog_revision : option string;
  ec_component_identity_digest : option string;
  ec_resolution_digest : string;
}.

#[export] Instance ExecutionConfigurationIdentity_eq_dec : EqDecision ExecutionConfigurationIdentity.
Proof. solve_decision. Defined.

(** The constraints of the fields and [validate_tenant_resolution]. *)
Definition valid_execution_configuration (c : ExecutionConfigurationIdentity) : bool :=
  digest_field (ec_configuration_revision_id c)
  && optional digest_field (ec_tenant_configuration_revision_id c)
  && optional digest_field (ec_component_catalog_revision c)
  && optional provenance_field (ec_component_identity_digest c)
  && provenance_field (ec_resolution_digest c)
  && (let missing := [bool_decide (ec_tenant_configuration_revision_id c = None);
                      bool_decide (ec_component_catalog_revision c = None);
                      bool_decide (ec_component_identity_digest c = None)] in
      negb (existsb id missing && existsb negb missing)).

(** [model_dump(mode="json", exclude_none=exclude_none)] of fields *)
Definition dump_fields (exclude_none : bool) (fields : list (string * option json)) : list (string * json) :=
  if exclude_none then omap (fun kv => v ← kv.2; Some (kv.1, v)) fields
  else map (fun kv => (kv.1, default JNull kv.2)) fields.

Definition execution_configuration_dump (exclude_none : bool) (c : ExecutionConfigurationIdentity) : json :=
  JDict (dump_fields exclude_none (map (prod_map id (fmap JStr)) [
    ("configuration_revision_id", Some (ec_configuration_revision_id c));
    ("tenant_configuration_revision_id", ec_tenant_configuration_revision_id c);
    ("component_catalog_revision", ec_component_catalog_revision c);
    ("component_identity_digest", ec_component_identity_digest c);
    ("resolution_digest", Some (ec_resolution_digest c))])).

(** [ExecutionEnvironmentSnapshot]: the fields read here and the canonical text. *)
Record ExecutionEnvironmentSnapshot := {
  es_snapshot_digest : string;
  es_scope_digest : option string;
  es_content : string;
}.

#[export] Instance ExecutionEnvironmentSnapshot_eq_dec : EqDecision ExecutionEnvironmentSnapshot.
Proof. solve_decision. Defined.

Definition routing_error {A} (msg : string) : res A :=
  raise (ExternalError "DeploymentRoutingError" None None None) msg.

(** ** Worker deployments *)

Definition MAX_DEPLOYMENT_IDENTITY_LENGTH : nat := 128.

(** [DEPLOYMENT_IDENTITY_PATTERN] *)
Definition deployment_identity (s : string) : bool :=
  is_scope_component s && (String.length s <=? MAX_DEPLOYMENT_IDENTITY_LENGTH)%nat.

(** [WorkerDeployment] *)
Record WorkerDeployment := {
  wd_artifact_identity : WorkerArtifactIdentity;
  wd_compatible_engine_workflow_abis : gset string;
}.

#[export] Instance WorkerDeployment_eq_dec : EqDecision WorkerDeployment.
Proof. solve_decision. Defined.

Definition wd_name (d : WorkerDeployment) : string := wa_deployment_name (wd_artifact_identity d).
Definition wd_build_id (d : WorkerDeployment) : string := wa_build_id (wd_artifact_identity d).

Definition canonical_name (d : WorkerDeployment) : string := wd_name d +:+ "." +:+ wd_build_id d.

(** [WorkerDeployment.__post_init__] *)
Definition new_worker_deployment (artifact : WorkerArtifactIdentity) (abis : gset string) : res WorkerDeployment :=
  let d := {| wd_artifact_identity := artifact; wd_compatible_engine_workflow_abis := abis |} in
  if negb (deployment_identity (wd_name d))
  then routing_error ("Invalid worker deployment name '" +:+ wd_name d +:+ "'")
  else if negb (deployment_identity (wd_build_id d))
  then routing_error ("Invalid worker build id '" +:+ wd_build_id d +:+ "'")
  else if bool_decide (abis = ∅)
  then routing_error ("Worker deployment '" +:+ canonical_name d +:+ "' has no compatible workflow ABI")
  else Ok d.

(** [WorkerDeployment.supports] *)
Definition supports (d : WorkerDeployment) (m : DefinitionManifest) : bool :=
  bool_decide (mf_required_engine_workflow_abi m ∈ wd_compatible_engine_workflow_abis d).

(** [WorkerDeploymentRouter] *)
Record WorkerDeploymentRouter := {
  rt_deployments : list (string * WorkerDeployment);
  rt_active_deployment : string;
}.

(** [WorkerDeploymentRouter.__init__] *)
Definition index_deployment (indexed : res (list (string * WorkerDeployment))) (d : WorkerDeployment)
  : res (list (string * WorkerDeployment)) :=
  indexed ← indexed;
  if dict_mem (canonical_name d) indexed
  then routing_error ("Worker deployment '" +:+ canonical_name d +:+ "' is duplicated")
  else Ok (dict_set (canonical_name d) d indexed).

Definition new_router (deployments : list WorkerDeployment) (active_deployment : string)
  : res WorkerDeploymentRouter :=
  indexed ← fold_left index_deployment deployments (Ok []);
  if negb (dict_mem active_deployment indexed)
  then routing_error ("Active worker deployment '" +:+ active_deployment +:+ "' is not registered")
  else Ok {| rt_deployments := indexed; rt_active_deployment := active_deployment |}.

(** [WorkerDeploymentRouter.for_deployment] *)
Definition for_deployment (d : WorkerDeployment) : res WorkerDeploymentRouter :=
  new_router [d] (canonical_name d).

(** [WorkerDeploymentRouter.active] *)
Definition active_deployment (r : WorkerDeploymentRouter) : res WorkerDeployment :=
  from_option (dict_get (rt_active_deployment r) (rt_deployments r))
    (Exn KeyError ("'" +:+ rt_active_deployment r +:+ "'") None).

(** [WorkerDeploymentRouter.select] *)
Definition select_deployment (r : WorkerDeploymentRouter) (m : DefinitionManifest) : res WorkerDeployment :=
  d ← active_deployment r;
  if supports d m then Ok d
  else routing_error ("Active worker deployment '" +:+ canonical_name d +:+ "' does not support workflow ABI '"
         +:+ mf_required_engine_workflow_abi m +:+ "' required by '" +:+ mf_logical_name m +:+ "@"
         +:+ mf_definition_digest m +:+ "'").

(** ** Start targets *)

(** [WorkflowStartTarget] *)
Record WorkflowStartTarget := {
  wt_manifest : DefinitionManifest;
  wt_deployment : WorkerDeployment;
  wt_environment_snapshot_digest : string;
  wt_scope_digest : option string;
  wt_execution_configuration : option ExecutionConfigurationIdentity;
}.

#[export] Instance WorkflowStartTarget_eq_dec : EqDecision WorkflowStartTarget.
Proof. solve_decision. Defined.

(** [WorkflowStartTarget.__post_init__] *)
Definition WorkflowStartTarget_post_init (t : WorkflowStartTarget) : res unit :=
  if negb (is_scope_digest (wt_environment_snapshot_digest t))
  then routing_error "Invalid execution environment snapshot digest"
  else
    match wt_scope_digest t with
    | Some d => _ ← validate_scope_digest d; Ok tt
    | None => Ok tt
    end.

Section targets.
Context `{Sha256}.

(** [workflow_type_name] *)
Definition workflow_type_name (logical_name digest : string) : ares string :=
  if is_scope_digest digest then Ok (logical_name +:+ "__" +:+ digest)
  else Raise (PyError (Exn (ExternalError "DefinitionManifestError" None None None)
                 "Workflow type requires a full SHA-256 definition digest" None)).

(** [runtime_workflow_type_name] *)
Definition runtime_workflow_type_name (logical_name definition_digest : string)
    (scope_digest : option string) : ares string :=
  match scope_digest with
  | None => workflow_type_name logical_name definition_digest
  | Some d =>
      if bool_decide (d = digest LOCAL_RUNTIME_SCOPE) then workflow_type_name logical_name definition_digest
      else lift_py (scoped_identity_from_digest "workflow-type" d [logical_name; definition_digest])
  end.

(** [WorkflowStartTarget.workflow_type] *)
Definition workflow_type (t : WorkflowStartTarget) : ares string :=
  runtime_workflow_type_name (mf_logical_name (wt_manifest t)) (mf_definition_digest (wt_manifest t))
    (wt_scope_digest t).
End targets.

(** ** The memo of an execution *)

Definition MEMO_SCOPE_DIGEST : string := "justflow.scope_digest".

Definition maybe_set (key : string) (value : option string) (memo : list (string * string))
  : list (string * string) :=
  match value with Some v => dict_set key v memo | None => memo end.

(** [execution_identity_memo] *)
Definition execution_identity_memo (logical_name definition_digest : string) (artifact : WorkerArtifactIdentity)
    (environment_snapshot_digest scope_digest : option string)
    (execution_configuration : option ExecutionConfigurationIdentity) : list (string * string) :=
  let memo := [("justflow.logical_workflow", logical_name);
               ("justflow.definition_digest", definition_digest);
               ("justflow.worker_deployment", wa_deployment_name artifact);
               ("justflow.worker_build_id", wa_build_id artifact);
               ("justflow.worker_artifact_digest", wa_artifact_digest artifact);
               ("justflow.worker_package_version", wa_package_version artifact)] in
  let memo := maybe_set "justflow.environment_snapshot_digest" environment_snapshot_digest memo in
  let memo := maybe_set MEMO_SCOPE_DIGEST scope_digest memo in
  let memo :=
    match execution_configuration with
    | None => memo
    | Some c =>
        let memo := dict_set "justflow.configuration_revision" (ec_configuration_revision_id c) memo in
        let memo := dict_set "justflow.configuration_resolution_digest" (ec_resolution_digest c) memo in
        let memo := maybe_set "justflow.tenant_configuration_revision" (ec_tenant_configuration_revision_id c) memo in
        let memo := maybe_set "justflow.component_catalog_revision" (ec_component_catalog_revision c) memo in
        maybe_set "justflow.component_identity_digest" (ec_component_identity_digest c) memo
    end in
  maybe_set "justflow.worker_source_revision" (wa_source_revision artifact) memo.

(** [execution_memo] *)
Definition execution_memo (m : DefinitionManifest) (d : WorkerDeployment) (environment_snapshot_digest : string)
    (execution_configuration : option ExecutionConfigurationIdentity) : list (string * string) :=
  execution_identity_memo (mf_logical_name m) (mf_definition_digest m) (wd_artifact_identity d)
    (Some environment_snapshot_digest) None execution_configuration.

(** [WorkflowStartTarget.memo] *)
Definition target_memo (t : WorkflowStartTarget) : list (string * string) :=
  execution_memo (wt_manifest t) (wt_deployment t) (wt_environment_snapshot_digest t)
    (wt_execution_configuration t).

(** ** Open executions and retirement *)

(** [RetirementBlocker] *)
Inductive RetirementBlocker :=
| APPROVAL_REQUIRED | ACTIVE_ALIAS | OPEN_EXECUTIONS | REPLAY_FIXTURE_REQUIRED | ACTIVE_DEPLOYMENT
| ACTIVE_SCHEDULES.

#[export] Instance RetirementBlocker_eq_dec : EqDecision RetirementBlocker.
Proof. solve_decision. Defined.

(** [OpenExecutionDependency] *)
Record OpenExecutionDependency := {
  oe_workflow_id : string;
  oe_run_id : string;
  oe_logical_workflow : string;
  oe_definition_digest : string;
  oe_worker_deployment : string;
  oe_worker_build_id : string;
  oe_worker_artifact_digest : option string;
  oe_worker_package_version : option string;
  oe_worker_source_revision : option string;
  oe_environment_snapshot_digest : option string;
}.

Definition invalid_metadata {A} (workflow_id run_id key : string) : res A :=
  routing_error ("Open execution '" +:+ workflow_id +:+ "/" +:+ run_id +:+ "' has invalid metadata '" +:+ key +:+ "'").

(** A required value of a memo, whose values are JSON. *)
Definition memo_value (memo : list (string * json)) (workflow_id run_id key : string) : res string :=
  match dict_get key memo with
  | Some (JStr v) => if bool_decide (v = EmptyString) then invalid_metadata workflow_id run_id key else Ok v
  | _ => invalid_metadata workflow_id run_id key
  end.

(** [_optional_memo_value] *)
Definition optional_memo_value (memo : list (string * json)) (workflow_id run_id key : string)
  : res (option string) :=
  match dict_get key memo with
  | None | Some JNull => Ok None
  | Some (JStr v) => if bool_decide (v = EmptyString) then invalid_metadata workflow_id run_id key else Ok (Some v)
  | Some _ => invalid_metadata workflow_id run_id key
  end.

(** [_dependency_from_memo] *)
Definition dependency_from_memo (workflow_id run_id : string) (memo : list (string * json))
  : res OpenExecutionDependency :=
  logical_workflow ← memo_value memo workflow_id run_id "justflow.logical_workflow";
  definition_digest ← memo_value memo workflow_id run_id "justflow.definition_digest";
  worker_deployment ← memo_value memo workflow_id run_id "justflow.worker_deployment";
  worker_build_id ← memo_value memo workflow_id run_id "justflow.worker_build_id";
  artifact_digest ← optional_memo_value memo workflow_id run_id "justflow.worker_artifact_digest";
  package_version ← optional_memo_value memo workflow_id run_id "justflow.worker_package_version";
  source_revision ← optional_memo_value memo workflow_id run_id "justflow.worker_source_revision";
  snapshot_digest ← optional_memo_value memo workflow_id run_id "justflow.environment_snapshot_digest";
  Ok {| oe_workflow_id := workflow_id; oe_run_id := run_id; oe_logical_workflow := logical_workflow;
        oe_definition_digest := definition_digest; oe_worker_deployment := worker_deployment;
        oe_worker_build_id := worker_build_id; oe_worker_artifact_digest := artifact_digest;
        oe_worker_package_version := package_version; oe_worker_source_revision := source_revision;
        oe_environment_snapshot_digest := snapshot_digest |}.

Definition when (cond : bool) (b : RetirementBlocker) : list RetirementBlocker := if cond then [b] else [].

(** [assess_worker_retirement]: the blockers, in the order in which they are added. *)
Definition assess_worker_retirement (r : WorkerDeploymentRouter) (d : WorkerDeployment)
    (open_executions : list OpenExecutionDependency) (replay_fixture_deployments : list (string * string))
    (scheduled_worker_deployments : list (string * string)) (approved : bool) : res (list RetirementBlocker) :=
  if negb (bool_decide (dict_get (canonical_name d) (rt_deployments r) = Some d))
  then routing_error ("Worker deployment '" +:+ canonical_name d +:+ "' is not registered")
  else
    active ← active_deployment r;
    Ok (when (negb approved) APPROVAL_REQUIRED
        ++ when (bool_decide (active = d)) ACTIVE_DEPLOYMENT
        ++ when (existsb (fun e => bool_decide (oe_worker_deployment e = wd_name d)
                                   && bool_decide (oe_worker_build_id e = wd_build_id d)) open_executions)
             OPEN_EXECUTIONS
        ++ when (negb (bool_decide ((wd_name d, wd_build_id d) ∈ replay_fixture_deployments)))
             REPLAY_FIXTURE_REQUIRED
        ++ when (bool_decide ((wd_name d, wd_build_id d) ∈ scheduled_worker_deployments)) ACTIVE_SCHEDULES).

(** ** Waiting for Temporal

    A call of the client may raise [RPCError], one of its own exceptions or anything else. *)

Inductive temporal_exn :=
| RPCError (status message : string)
| WorkflowAlreadyStartedError (run_id : option string)
| AlreadyRunningError
| OtherError (e : exn).

Section waiting.
Context `{Calls} (sleep : xprog temporal_exn unit).

(** [_is_missing_pinned_version_rejection] *)
Definition is_missing_pinned_version_rejection (d : WorkerDeployment) (task_queue status message : string) : bool :=
  bool_decide (status = "FAILED_PRECONDITION")
  && bool_decide (message = "Pinned version '" +:+ wd_name d +:+ ":" +:+ wd_build_id d
       +:+ "' is not present in task queue '" +:+ task_queue +:+ "' of type 'Workflow'").

Fixpoint retry_start {A} (start : xprog temporal_exn A) (d : WorkerDeployment) (task_queue : string) (retries : nat)
  : xprog temporal_exn A :=
  xcatch start (fun e =>
    match e with
    | RPCError status message =>
        if is_missing_pinned_version_rejection d task_queue status message then
          match retries with
          | O => xraise e
          | S retries => _ ← sleep; retry_start start d task_queue retries
          end
        else xraise e
    | _ => xraise e
    end).

(** [retry_pinned_workflow_start] *)
Definition retry_pinned_workflow_start {A} (start : xprog temporal_exn A) (d : WorkerDeployment) (task_queue : string)
    (attempts : Z) : xprog temporal_exn A :=
  if (attempts <? 1)%Z
  then xraise (OtherError (Exn ValueError "Pinned workflow start attempts must be positive" None))
  else retry_start start d task_queue (Z.to_nat (attempts - 1)).

Definition unavailable {A} (msg : string) : xprog temporal_exn A :=
  xraise (OtherError (Exn (ExternalError "DeploymentUnavailableError" None None None) msg None)).

(** One inspection: the route is there, or not yet. *)
Definition route_registered (describe : xprog temporal_exn (list (string * bool))) (d : WorkerDeployment)
    (task_queue : string) : xprog temporal_exn bool :=
  xcatch (queues ← describe; mret (bool_decide ((task_queue, true) ∈ queues))) (fun e =>
    match e with
    | RPCError status message =>
        if bool_decide (status = "NOT_FOUND") || bool_decide (status = "FAILED_PRECONDITION") then mret false
        else unavailable ("Cannot inspect worker deployment '" +:+ canonical_name d +:+ "': " +:+ message)
    | _ => xraise e
    end).

Fixpoint wait_for_route (describe : xprog temporal_exn (list (string * bool))) (d : WorkerDeployment)
    (task_queue : string) (attempts : nat) : xprog temporal_exn bool :=
  match attempts with
  | O => mret false
  | S attempts =>
      found ← route_registered describe d task_queue;
      if (found : bool) then mret true
      else
        _ ← (match attempts with O => mret tt | S _ => sleep end);
        wait_for_route describe d task_queue attempts
  end.

(** [wait_for_worker_deployment]: [describe] answers with the task queues of the version,
    each with whether it is a queue of workflows. *)
Definition wait_for_worker_deployment (describe : xprog temporal_exn (list (string * bool))) (d : WorkerDeployment)
    (task_queue : string) (attempts : Z) : xprog temporal_exn unit :=
  if (attempts <? 1)%Z
  then xraise (OtherError (Exn ValueError "Deployment registration attempts must be positive" None))
  else
    found ← wait_for_route describe d task_queue (Z.to_nat attempts);
    if (found : bool) then mret tt
    else unavailable ("Worker deployment route '" +:+ canonical_name d
           +:+ "' was not registered for workflow task queue '" +:+ task_queue +:+ "' after "
           +:+ Z_to_string attempts +:+ " checks").
End waiting.
