(* ===== verification/ScheduleSpecs.v ===== *)
(** Declarations of schedules ([config/schedules.py]): cron expressions, intervals and
    calendars with their checks, and the trigger that carries them
    ([config/triggers.py]). *)

From S2P Require Export AuditCapture Routing.

(** ** Bounds *)

Definition MAX_CRON_EXPRESSIONS : nat := 10.
Definition MAX_CRON_EXPRESSION_LENGTH : Z := 512.
Definition MAX_CRON_LIST_ITEMS : nat := 64.
Definition MAX_CALENDAR_RANGES : nat := 10.
Definition MIN_SCHEDULE_YEAR : Z := 2000.
Definition MAX_SCHEDULE_YEAR : Z := 2100.
Definition MAX_INTERVAL_SECONDS : Z := 31536000.
Definition MAX_BACKFILL_WINDOW_SECONDS : Z := 31536000.
Definition MAX_BACKFILL_ACTIONS : Z := 10000.
Definition MIN_CATCH_UP_WINDOW_SECONDS : Z := 10.
Definition MAX_CATCH_UP_WINDOW_SECONDS : Z := 31536000.
Definition UTC_TIMEZONE : string := "UTC".

Definition CRON_FIELD_BOUNDS : list (string * Z * Z) :=
  [("minute", 0, 59); ("hour", 0, 23); ("day of month", 1, 31); ("month", 1, 12); ("day of week", 0, 6)]%Z.

(** [ScheduleOverlapPolicy] *)
Inductive ScheduleOverlapPolicy := SKIP | BUFFER_ONE | BUFFER_ALL | CANCEL_OTHER | TERMINATE_OTHER | ALLOW_ALL.

Definition overlap_value (p : ScheduleOverlapPolicy) : string :=
  match p with
  | SKIP => "skip" | BUFFER_ONE => "buffer_one" | BUFFER_ALL => "buffer_all" | CANCEL_OTHER => "cancel_other"
  | TERMINATE_OTHER => "terminate_other" | ALLOW_ALL => "allow_all"
  end.

(** [Field(ge=low, le=high)] *)
Definition within (low high z : Z) : bool := (low <=? z)%Z && (z <=? high)%Z.

Definition invalid {A} (msg : string) : res A := raise ValueError msg.

(** The constraints of fields, which pydantic checks first. *)
Definition field_check (b : bool) : res unit := guard_or b (Exn ValueError "field" None).

(** ** Calendars *)

(** [CalendarRange] *)
Record CalendarRange := {
  cr_start : Z;
  cr_end : option Z;
  cr_step : Z;
}.

(** [CalendarRange.validate_order], after the constraint on [step]. *)
Definition validate_range (r : CalendarRange) : res unit :=
  _ ← field_check (1 <=? cr_step r)%Z;
  match cr_end r with
  | Some e => if (e <? cr_start r)%Z then invalid "calendar range end cannot be less than start" else Ok tt
  | None => if bool_decide (cr_step r = 1%Z) then Ok tt
            else invalid "calendar range step requires an explicit end"
  end.

Definition range_end (r : CalendarRange) : Z := default (cr_start r) (cr_end r).

(** [range(start, end + 1, step)] *)
Definition range_values (r : CalendarRange) : list Z :=
  (fun i : nat => (cr_start r + Z.of_nat i * cr_step r)%Z)
    <$> seq 0 (Z.to_nat ((range_end r - cr_start r) / cr_step r + 1)).

(** [CalendarScheduleSpec] *)
Record CalendarScheduleSpec := {
  cal_second : list CalendarRange;
  cal_minute : list CalendarRange;
  cal_hour : list CalendarRange;
  cal_day_of_month : list CalendarRange;
  cal_month : list CalendarRange;
  cal_year : list CalendarRange;
  cal_day_of_week : list CalendarRange;
}.

(** The ranges of one field: within the bounds and disjoint. *)
Fixpoint validate_ranges (field_name : string) (minimum maximum : Z) (seen : gset Z) (ranges : list CalendarRange)
  : res unit :=
  match ranges with
  | [] => Ok tt
  | r :: ranges =>
      if (cr_start r <? minimum)%Z || (maximum <? range_end r)%Z
      then invalid ("calendar " +:+ field_name +:+ " ranges must be within " +:+ Z_to_string minimum +:+ ".."
             +:+ Z_to_string maximum)
      else
        let values : gset Z := list_to_set (range_values r) in
        if negb (bool_decide (seen ∩ values = ∅))
        then invalid ("calendar " +:+ field_name +:+ " ranges cannot overlap")
        else validate_ranges field_name minimum maximum (seen ∪ values) ranges
  end.

(** The items of [bounds], with the ranges of each field. *)
Definition calendar_fields (c : CalendarScheduleSpec) : list (string * Z * Z * list CalendarRange) :=
  [("second", 0%Z, 59%Z, cal_second c); ("minute", 0%Z, 59%Z, cal_minute c); ("hour", 0%Z, 23%Z, cal_hour c);
   ("day_of_month", 1%Z, 31%Z, cal_day_of_month c); ("month", 1%Z, 12%Z, cal_month c);
   ("year", MIN_SCHEDULE_YEAR, MAX_SCHEDULE_YEAR, cal_year c);
   ("day_of_week", 0%Z, 6%Z, cal_day_of_week c)].

(** [CalendarRanges]: at least one range, but for [year]. *)
Definition ranges_field (least : nat) (ranges : list CalendarRange) : res unit :=
  _ ← field_check ((least <=? length ranges)%nat && (length ranges <=? MAX_CALENDAR_RANGES)%nat);
  _ ← traverse validate_range ranges; Ok tt.

(** [CalendarScheduleSpec.validate_field_bounds], after the fields. *)
Definition validate_calendar (c : CalendarScheduleSpec) : res unit :=
  _ ← ranges_field 1 (cal_second c); _ ← ranges_field 1 (cal_minute c); _ ← ranges_field 1 (cal_hour c);
  _ ← ranges_field 1 (cal_day_of_month c); _ ← ranges_field 1 (cal_month c); _ ← ranges_field 0 (cal_year c);
  _ ← ranges_field 1 (cal_day_of_week c);
  _ ← traverse (fun '(field_name, minimum, maximum, ranges) => validate_ranges field_name minimum maximum ∅ ranges)
        (calendar_fields c);
  Ok tt.

(** [_calendar_value_count] *)
Definition calendar_value_count (ranges : list CalendarRange) : Z :=
  foldr Z.add 0%Z ((fun r => (range_end r - cr_start r) / cr_step r + 1)%Z <$> ranges).

(** [CalendarScheduleSpec.maximum_daily_actions] *)
Definition maximum_daily_actions (c : CalendarScheduleSpec) : Z :=
  (calendar_value_count (cal_second c) * calendar_value_count (cal_minute c) * calendar_value_count (cal_hour c))%Z.

(** ** Cron expressions *)

(** The longest prefix of digits, and the rest. *)
Fixpoint take_digits (s : string) : string * string :=
  match s with
  | String c rest =>
      if is_digit c then let '(d, r) := take_digits rest in (String c d, r) else (EmptyString, s)
  | EmptyString => (EmptyString, EmptyString)
  end.

(** An optional group: a separator and digits. *)
Definition optional_group (sep : Ascii.ascii) (s : string) : option (option string * string) :=
  match s with
  | String c rest =>
      if decide (c = sep) then
        match take_digits rest with
        | (EmptyString, _) => None
        | (d, r) => Some (Some d, r)
        end
      else Some (None, s)
  | EmptyString => Some (None, s)
  end.

(** [CRON_ATOM_PATTERN.fullmatch]: the groups [start], [end] and [step]; [None] in the
    place of [start] is the wild card. *)
Definition cron_atom (s : string) : option (option string * option string * option string) :=
  start ← match s with
          | String c rest =>
              if decide (c = "*"%char) then Some (None, rest)
              else match take_digits s with (EmptyString, _) => None | (d, r) => Some (Some d, r) end
          | EmptyString => None
          end;
  e ← optional_group "-"%char start.2;
  step ← optional_group "/"%char e.2;
  match step.2 with EmptyString => Some (start.1, e.1, step.1) | _ => None end.

(** One item of a field of an expression. *)
Definition validate_cron_atom (field_name : string) (minimum maximum : Z) (atom : string) : res unit :=
  match cron_atom atom with
  | None => invalid ("cron " +:+ field_name +:+ " contains unsupported syntax")
  | Some (start, e, step) =>
      _ ← match start with
          | None =>
              match e with
              | Some _ => invalid ("cron " +:+ field_name +:+ " wildcard cannot start a range")
              | None => Ok tt
              end
          | Some start =>
              let start := Z_of_digits start in
              let e := match e with Some e => Z_of_digits e | None => start end in
              if (start <? minimum)%Z || (maximum <? e)%Z || (e <? start)%Z
              then invalid ("cron " +:+ field_name +:+ " values must be ordered within " +:+ Z_to_string minimum
                     +:+ ".." +:+ Z_to_string maximum)
              else Ok tt
          end;
      match step with
      | Some step =>
          let step := Z_of_digits step in
          if (step <? 1)%Z || (maximum - minimum + 1 <? step)%Z
          then invalid ("cron " +:+ field_name +:+ " step is outside its supported bound")
          else Ok tt
      | None => Ok tt
      end
  end.

(** [_validate_cron_field] *)
Definition validate_cron_field (value field_name : string) (minimum maximum : Z) : res unit :=
  let atoms := string_split ","%char value in
  if (MAX_CRON_LIST_ITEMS <? length atoms)%nat
  then invalid ("cron " +:+ field_name +:+ " has too many list items")
  else _ ← traverse (validate_cron_atom field_name minimum maximum) atoms; Ok tt.

(** [s.split()]: the words between white space; [word] is the one being read. *)
Fixpoint split_words (word s : string) : list string :=
  match s with
  | EmptyString => match word with EmptyString => [] | _ => [string_rev word EmptyString] end
  | String c s =>
      if int_space c
      then match word with EmptyString => split_words EmptyString s
           | _ => string_rev word EmptyString :: split_words EmptyString s end
      else split_words (String c word) s
  end.

(** [_validate_cron_expression] *)
Definition validate_cron_expression (expression : string) : res unit :=
  let fields := split_words EmptyString expression in
  if negb (bool_decide (length fields = length CRON_FIELD_BOUNDS))
  then invalid "cron expressions must contain exactly five numeric fields"
  else
    _ ← traverse (fun '(value, (field_name, minimum, maximum)) => validate_cron_field value field_name minimum maximum)
          (zip fields CRON_FIELD_BOUNDS);
    if negb (bool_decide (fields !! 2 = Some "*")) && negb (bool_decide (fields !! 4 = Some "*"))
    then invalid "cron day-of-month and day-of-week cannot both be constrained"
    else Ok tt.

(** The checks of one expression. *)
Definition validate_expression (expression : string) : res unit :=
  if bool_decide (expression = EmptyString) || (MAX_CRON_EXPRESSION_LENGTH <? utf8_length expression)%Z
  then invalid "cron expressions must be non-empty and byte-bounded"
  else if negb (bool_decide (expression = strip expression))
  then invalid "cron expressions cannot contain surrounding whitespace"
  else if startswith "TZ=" expression || startswith "CRON_TZ=" expression
  then invalid "cron timezone must use the schedule timezone field"
  else validate_cron_expression expression.

(** [CronScheduleSpec.validate_expressions], after the constraint on the field. *)
Definition validate_expressions (expressions : list string) : res unit :=
  _ ← field_check ((1 <=? length expressions)%nat && (length expressions <=? MAX_CRON_EXPRESSIONS)%nat);
  if negb (bool_decide (NoDup expressions)) then invalid "cron expressions must be unique"
  else _ ← traverse validate_expression expressions; Ok tt.

(** ** Intervals *)

(** [IntervalScheduleSpec] *)
Record IntervalScheduleSpec := {
  is_every_seconds : Z;
  is_offset_seconds : Z;
}.

(** [IntervalScheduleSpec.validate_offset], after the fields. *)
Definition validate_interval (i : IntervalScheduleSpec) : res unit :=
  _ ← field_check (within 1 MAX_INTERVAL_SECONDS (is_every_seconds i)
                   && within 0 MAX_INTERVAL_SECONDS (is_offset_seconds i));
  if (is_every_seconds i <=? is_offset_seconds i)%Z
  then invalid "interval offset must be less than its interval" else Ok tt.

(** [ScheduleSpec] *)
Inductive ScheduleSpec :=
| CronSpec (expressions : list string)
| IntervalSpec (i : IntervalScheduleSpec)
| CalendarSpec (c : CalendarScheduleSpec).

Definition validate_spec (s : ScheduleSpec) : res unit :=
  match s with
  | CronSpec expressions => validate_expressions expressions
  | IntervalSpec i => validate_interval i
  | CalendarSpec c => validate_calendar c
  end.

Definition one_range (start : Z) (e : option Z) : list CalendarRange :=
  [{| cr_start := start; cr_end := e; cr_step := 1 |}].

(** The defaults of the fields of [CalendarScheduleSpec]. *)
Definition default_calendar : CalendarScheduleSpec := {|
  cal_second := one_range 0 None; cal_minute := one_range 0 None; cal_hour := one_range 0 None;
  cal_day_of_month := one_range 1 (Some 31%Z); cal_month := one_range 1 (Some 12%Z); cal_year := [];
  cal_day_of_week := one_range 0 (Some 6%Z) |}.

(** ** The trigger of a schedule *)

(** [BackfillPolicy] *)
Record BackfillPolicy := {
  bf_enabled : bool;
  bf_max_window_seconds : Z;
  bf_max_actions : Z;
}.

Definition backfill_fields (b : BackfillPolicy) : bool :=
  within 1 MAX_BACKFILL_WINDOW_SECONDS (bf_max_window_seconds b) && within 1 MAX_BACKFILL_ACTIONS (bf_max_actions b).

(** [ScheduleTriggerDeclaration]; the input is JSON as it was authored. *)
Record ScheduleTrigger := {
  st_workflow : string;
  st_paused : bool;
  st_definition_digest : option string;
  st_input : list (string * json);
  st_spec : ScheduleSpec;
  st_timezone : string;
  st_overlap_policy : ScheduleOverlapPolicy;
  st_catch_up_window_seconds : Z;
  st_backfill : BackfillPolicy;
}.

(** [ZoneInfo(key)] succeeds: the time zone is installed. *)
Class TimeZones := { installed_timezone : string -> bool }.

Definition is_interval (s : ScheduleSpec) : bool := match s with IntervalSpec _ => true | _ => false end.

(** [ScheduleTriggerDeclaration.validate_timezone_semantics], after the fields. *)
Definition validate_schedule_trigger `{TimeZones} (t : ScheduleTrigger) : res unit :=
  _ ← field_check (optional digest_field (st_definition_digest t)
                   && bounded_text 1 128 (st_timezone t)
                   && within MIN_CATCH_UP_WINDOW_SECONDS MAX_CATCH_UP_WINDOW_SECONDS (st_catch_up_window_seconds t)
                   && backfill_fields (st_backfill t));
  _ ← validate_spec (st_spec t);
  if negb (installed_timezone (st_timezone t))
  then invalid "schedule timezone must be an installed IANA timezone"
  else if is_interval (st_spec t) && negb (bool_decide (st_timezone t = UTC_TIMEZONE))
  then invalid "interval schedules use absolute time and require timezone 'UTC'"
  else Ok tt.

(** [model_dump(mode="json")] *)
Definition opt_int (z : option Z) : json := match z with Some z => JInt z | None => JNull end.

Definition range_dump (r : CalendarRange) : json :=
  JDict [("start", JInt (cr_start r)); ("end", opt_int (cr_end r)); ("step", JInt (cr_step r))].

Definition spec_dump (s : ScheduleSpec) : json :=
  match s with
  | CronSpec expressions => JDict [("kind", JStr "cron"); ("expressions", JList (JStr <$> expressions))]
  | IntervalSpec i =>
      JDict [("kind", JStr "interval"); ("every_seconds", JInt (is_every_seconds i));
             ("offset_seconds", JInt (is_offset_seconds i))]
  | CalendarSpec c =>
      JDict (("kind", JStr "calendar")
             :: ((fun '(field_name, _, _, ranges) => (field_name, JList (range_dump <$> ranges)))
                   <$> calendar_fields c))
  end.

Definition backfill_dump (b : BackfillPolicy) : json :=
  JDict [("enabled", JBool (bf_enabled b)); ("max_window_seconds", JInt (bf_max_window_seconds b));
         ("max_actions", JInt (bf_max_actions b))].

Definition schedule_trigger_dump (t : ScheduleTrigger) : json :=
  JDict [("workflow", JStr (st_workflow t)); ("paused", JBool (st_paused t)); ("kind", JStr "schedule");
         ("definition_digest", opt_json (st_definition_digest t)); ("input", JDict (st_input t));
         ("spec", spec_dump (st_spec t)); ("timezone", JStr (st_timezone t));
         ("overlap_policy", JStr (overlap_value (st_overlap_policy t)));
         ("catch_up_window_seconds", JInt (st_catch_up_window_seconds t));
         ("backfill", backfill_dump (st_backfill t))].

(** ** What the checks give *)

Definition field_values (ranges : list CalendarRange) : gset Z := list_to_set (ranges ≫= range_values).

Lemma valid_range r : is_ok (validate_range r) = true -> (1 <= cr_step r)%Z /\ (cr_start r <= range_end r)%Z.
Proof.
  unfold validate_range, field_check, guard_or, range_end. destruct (1 <=? cr_step r)%Z eqn:Hs; cbn; [|done].
  intros H. split; [lia|]. destruct (cr_end r) as [e|]; cbn; [|lia]. destruct (e <? cr_start r)%Z eqn:He; [done|lia].
Qed.

Lemma range_values_length r :
  is_ok (validate_range r) = true -> Z.of_nat (length (range_values r)) = ((range_end r - cr_start r) / cr_step r + 1)%Z.
Proof.
  intros [Hs He]%valid_range. unfold range_values. rewrite length_fmap, length_seq.
  assert (0 <= (range_end r - cr_start r) / cr_step r)%Z by (apply Z.div_pos; lia). lia.
Qed.

Lemma range_values_NoDup r : (1 <= cr_step r)%Z -> NoDup (range_values r).
Proof.
  intros Hs. apply NoDup_fmap_2_strong; [|apply NoDup_seq].
  intros i j _ _ Heq. nia.
Qed.

Lemma elem_of_range_values r z :
  z ∈ range_values r -> (1 <= cr_step r)%Z -> (cr_start r <= range_end r)%Z -> (cr_start r <= z <= range_end r)%Z.
Proof.
  unfold range_values. intros (i & -> & Hi)%list_elem_of_fmap Hs He. apply elem_of_seq in Hi.
  assert (Hd : (cr_step r * ((range_end r - cr_start r) / cr_step r) <= range_end r - cr_start r)%Z)
    by (apply Z.mul_div_le; lia).
  nia.
Qed.

(** The ranges of a field that passes the checks do not overlap, and lie in its bounds. *)
Lemma validate_ranges_exact field_name minimum maximum seen ranges :
  Forall (fun r => is_ok (validate_range r) = true) ranges ->
  validate_ranges field_name minimum maximum seen ranges = Ok tt ->
  NoDup (ranges ≫= range_values) /\ seen ## field_values ranges /\
  (forall z, z ∈ field_values ranges -> minimum <= z <= maximum)%Z.
Proof.
  unfold field_values. revert seen. induction ranges as [|r ranges IH]; intros seen Hr; cbn.
  - intros _. split_and!; [constructor|set_solver|set_solver].
  - apply Forall_cons in Hr as [Hr Hrs].
    destruct (_ || _) eqn:Hb; [done|]. apply orb_false_iff in Hb as [Hlo Hhi].
    apply Z.ltb_ge in Hlo, Hhi.
    case_bool_decide as Hd; cbn; [|done]. intros (Hn & Hs & Hz)%IH; [|done].
    apply valid_range in Hr as [Hstep Hend].
    split_and!.
    + apply NoDup_app. split_and!; [by apply range_values_NoDup| |done]. intros z Hin Hin'. set_solver.
    + set_solver.
    + intros z. rewrite list_to_set_app, elem_of_union, elem_of_list_to_set. intros [Hin|Hin]; [|by apply Hz].
      apply elem_of_range_values in Hin; [|done..]. lia.
Qed.

Lemma calendar_value_count_exact ranges :
  Forall (fun r => is_ok (validate_range r) = true) ranges ->
  calendar_value_count ranges = Z.of_nat (length (ranges ≫= range_values)).
Proof.
  induction 1 as [|r ranges Hr _ IH]; cbn; [done|].
  rewrite length_app, Nat2Z.inj_add, range_values_length by done. fold (calendar_value_count ranges). lia.
Qed.

Lemma field_values_size ranges : NoDup (ranges ≫= range_values) -> size (field_values ranges) = length (ranges ≫= range_values).
Proof. apply size_list_to_set. Qed.

Lemma field_check_Ok b : field_check b = Ok tt -> b = true.
Proof. unfold field_check, guard_or. by destruct b. Qed.

Lemma ranges_field_Ok n ranges :
  ranges_field n ranges = Ok tt ->
  (n <= length ranges <= MAX_CALENDAR_RANGES)%nat /\ Forall (fun r => is_ok (validate_range r) = true) ranges.
Proof.
  unfold ranges_field. intros H. apply bind_Ok in H as ([] & Hf & H).
  apply field_check_Ok, andb_true_iff in Hf as [?%Nat.leb_le ?%Nat.leb_le].
  apply bind_Ok in H as (us & Ht & _). split; [done|]. apply traverse_Ok in Ht.
  clear -Ht. induction Ht as [|r u ranges us Hr _ IH]; [constructor|].
  apply Forall_cons. split; [by rewrite Hr|done].
Qed.
