(* ===== verification/StartRequests.v ===== *)
(** Requests to start workflows: the pure part of [runtime/starter.py] - sources and their
    bindings, the triggers they match, the check of the input, and the registrations that
    the resolver keeps by scope. *)

From S2P Require Export Messages ScheduleSpecs.

(** ** Errors *)

(** [StartErrorCode] *)
Inductive StartErrorCode :=
| INVALID_REQUEST | UNKNOWN_WORKFLOW | DEFINITION_UNAVAILABLE | INCOMPATIBLE_WORKER | INPUT_REJECTED
| CONFIGURATION_ERROR | TRIGGER_PAUSED | TRIGGER_UNAVAILABLE | START_TEMPORAL_UNAVAILABLE.

#[export] Instance StartErrorCode_eq_dec : EqDecision StartErrorCode.
Proof. solve_decision. Defined.

(** [StartRequestCertainty] *)
Inductive StartRequestCertainty := AUTHORITATIVE_REJECTION | AMBIGUOUS.

#[export] Instance StartRequestCertainty_eq_dec : EqDecision StartRequestCertainty.
Proof. solve_decision. Defined.

(** An exception of the starter: [WorkflowStartError], or one that it lets through. *)
Inductive start_exn :=
| WorkflowStartError (code : StartErrorCode) (msg : string) (retryable : bool) (certainty : StartRequestCertainty)
| StartPyError (e : exn).

Abbreviation stres := (result start_exn).

Definition start_py {A} (r : res A) : stres A :=
  match r with Ok a => Ok a | Raise e => Raise (StartPyError e) end.

(** [WorkflowStartError(code, msg, retryable=False)] *)
Definition start_rejected (code : StartErrorCode) (msg : string) : start_exn :=
  WorkflowStartError code msg false AUTHORITATIVE_REJECTION.

(** ** Sources *)

(** [SourceIdentity] *)
Inductive SourceIdentity :=
| BrokerSourceIdentity (broker message_id : string)
| ControlApiSourceIdentity (request_id : string)
| WebhookSourceIdentity (provider event_id : string)
| HostSourceIdentity (adapter event_id : string)
| ScheduleSourceIdentity (schedule occurrence_id : string)
| CloudEventSourceIdentity (mapping event_id : string).

#[export] Instance SourceIdentity_eq_dec : EqDecision SourceIdentity.
Proof. solve_decision. Defined.

(** [TriggerSource.value] of the source *)
Definition source_value (s : SourceIdentity) : string :=
  match s with
  | BrokerSourceIdentity _ _ => "broker" | ControlApiSourceIdentity _ => "control_api"
  | WebhookSourceIdentity _ _ => "webhook" | HostSourceIdentity _ _ => "host"
  | ScheduleSourceIdentity _ _ => "schedule" | CloudEventSourceIdentity _ _ => "cloud_event"
  end.

(** [model_dump(mode="json", exclude_none=True)] of a source *)
Definition source_dump (s : SourceIdentity) : json :=
  JDict (("source", JStr (source_value s)) ::
         match s with
         | BrokerSourceIdentity b m => [("broker", JStr b); ("message_id", JStr m)]
         | ControlApiSourceIdentity r => [("request_id", JStr r)]
         | WebhookSourceIdentity p e => [("provider", JStr p); ("event_id", JStr e)]
         | HostSourceIdentity a e => [("adapter", JStr a); ("event_id", JStr e)]
         | ScheduleSourceIdentity n o => [("schedule", JStr n); ("occurrence_id", JStr o)]
         | CloudEventSourceIdentity m e => [("mapping", JStr m); ("event_id", JStr e)]
         end).

(** [_source_binding_id] *)
Definition source_binding_id (s : SourceIdentity) : option string :=
  match s with
  | BrokerSourceIdentity b _ => Some b
  | WebhookSourceIdentity p _ => Some p
  | HostSourceIdentity a _ => Some a
  | ScheduleSourceIdentity n _ => Some n
  | CloudEventSourceIdentity m _ => Some m
  | ControlApiSourceIdentity _ => None
  end.

(** [_scope_binding_kind] *)
Definition scope_binding_kind (s : SourceIdentity) : ScopeBindingKind :=
  match s with
  | BrokerSourceIdentity _ _ => BROKER
  | ControlApiSourceIdentity _ => API
  | WebhookSourceIdentity _ _ => WEBHOOK
  | ScheduleSourceIdentity _ _ => SCHEDULE
  | CloudEventSourceIdentity _ _ => CLOUD_EVENT
  | HostSourceIdentity _ _ => HOST
  end.

(** [_source_provider] *)
Definition source_provider (s : SourceIdentity) : option string :=
  match s with
  | BrokerSourceIdentity b _ => Some b
  | WebhookSourceIdentity p _ => Some p
  | HostSourceIdentity a _ => Some a
  | CloudEventSourceIdentity m _ => Some m
  | ControlApiSourceIdentity _ | ScheduleSourceIdentity _ _ => None
  end.

(** [_validate_source_binding] *)
Definition validate_source_binding (source : SourceIdentity) (binding : TrustedScopeBinding) : stres unit :=
  match source_binding_id source with
  | Some expected =>
      guard_or (bool_decide (tsb_binding_id binding = expected))
        (start_rejected INVALID_REQUEST "Workflow start source does not match its trusted binding identity")
  | None => Ok tt
  end.

(** ** Requests *)

(** [StartWorkflowRequest]; the validator has set the identity of the correlation. *)
Record StartWorkflowRequest := {
  sr_workflow_name : string;
  sr_business_request_id : string;
  sr_input : list (string * json);
  sr_source : SourceIdentity;
  sr_definition_digest : option string;
  sr_correlation_id : string;
  sr_trace_id : option string;
}.

(** [default_correlation_identity] *)
Definition new_start_request (workflow_name business_request_id : string) (input : list (string * json))
    (source : SourceIdentity) (definition_digest correlation_id trace_id : option string) : StartWorkflowRequest :=
  {| sr_workflow_name := workflow_name; sr_business_request_id := business_request_id; sr_input := input;
     sr_source := source; sr_definition_digest := definition_digest;
     sr_correlation_id := default business_request_id correlation_id; sr_trace_id := trace_id |}.

(** The bound scope of a request: the first lines of [prepare] and [_start]. *)
Definition bound_scope (source : SourceIdentity) (binding : TrustedScopeBinding) : stres RuntimeScope :=
  match require_bound_scope binding (scope_binding_kind source) (tsb_scope binding) with
  | Ok scope => Ok scope
  | Raise _ =>
      Raise (start_rejected INVALID_REQUEST "Workflow start source does not match its trusted scope binding")
  end.

(** ** Triggers *)

(** [MatchedTrigger]; its kind is a [TriggerKind.value]. *)
Record MatchedTrigger := { mt_name : string; mt_kind : string }.

(** [_trigger_matches_source] *)
Definition trigger_matches_source (name : string) (d : TriggerDeclaration) (s : SourceIdentity) : bool :=
  match d, s with
  | ApiTriggerDeclaration _ _, ControlApiSourceIdentity _ => true
  | ScheduleTriggerDeclaration _ _ _, ScheduleSourceIdentity schedule _ => bool_decide (schedule = name)
  | WebhookTriggerDeclaration _ _ source, WebhookSourceIdentity provider _ => bool_decide (provider = source)
  | EventTriggerDeclaration _ _ mapping, CloudEventSourceIdentity m _ => bool_decide (m = mapping)
  | BrokerTriggerDeclaration _ _ broker, BrokerSourceIdentity b _ => bool_decide (b = broker)
  | HostTriggerDeclaration _ _ adapter, HostSourceIdentity a _ => bool_decide (a = adapter)
  | _, _ => false
  end.

(** The loop of [_match_trigger] *)
Fixpoint match_declarations (declarations : TriggersConfig) (source : SourceIdentity) : stres MatchedTrigger :=
  match declarations with
  | [] => Raise (start_rejected TRIGGER_UNAVAILABLE "No active workflow trigger matches the trusted ingress source")
  | (name, d) :: declarations =>
      if negb (trigger_matches_source name d source) then match_declarations declarations source
      else if td_paused d then Raise (start_rejected TRIGGER_PAUSED "The matching workflow trigger is paused")
      else Ok {| mt_name := name; mt_kind := td_kind d |}
  end.

(** [_match_trigger] *)
Definition match_trigger (declarations : TriggersConfig) (source : SourceIdentity) (binding : TrustedScopeBinding)
  : stres MatchedTrigger :=
  _ ← validate_source_binding source binding;
  match_declarations (sort_keys declarations) source.

(** [_triggers_for_workflow] *)
Definition triggers_for_workflow (declarations : TriggersConfig) (workflow_name : string) : TriggersConfig :=
  filter (fun kv => td_workflow kv.2 = workflow_name) declarations.

(** ** Registrations *)

(** [WorkflowStartRegistration] *)
Record WorkflowStartRegistration := {
  wr_target : WorkflowStartTarget;
  wr_triggers : TriggersConfig;
}.

(** [WorkflowStartRegistration.__post_init__] *)
Definition new_registration (target : WorkflowStartTarget) (triggers : TriggersConfig) : res WorkflowStartRegistration :=
  if existsb (fun kv => negb (bool_decide (td_workflow kv.2 = mf_logical_name (wt_manifest target)))) triggers
  then raise ValueError "Workflow start registration contains a trigger for another workflow"
  else Ok {| wr_target := target; wr_triggers := triggers |}.

(** [PreparedWorkflowStart] *)
Record PreparedWorkflowStart := {
  pw_target : WorkflowStartTarget;
  pw_trigger : MatchedTrigger;
  pw_normalized_input : list (string * json);
}.

(** [ScopedWorkflowTargetResolver]: by digest of a scope, the scope and its registrations. *)
Abbreviation ScopedTargets := (list (string * (RuntimeScope * list (string * WorkflowStartRegistration)))).

(** Behind [validate_payload]: jsonschema's answer on the canonical text of a schema. *)
Inductive PayloadCheck := Satisfied | ContractViolation | ContractUnavailable.

Class PayloadContracts := { check_payload : string -> list (string * json) -> PayloadCheck }.

Section starts.
Context `{Sha256, FloatRepr, PayloadContracts}.

(** One scope of [ScopedWorkflowTargetResolver.__init__]. *)
Definition index_scope (triggers_by_scope : list (RuntimeScope * TriggersConfig)) (indexed : res ScopedTargets)
    (entry : RuntimeScope * list (string * WorkflowStartTarget)) : res ScopedTargets :=
  indexed ← indexed;
  let '(scope, targets) := entry in
  if dict_mem (digest scope) indexed
  then raise ValueError "Workflow target resolver contains a duplicate runtime scope"
  else
    _ ← traverse (fun kv =>
      if negb (bool_decide (kv.1 = mf_logical_name (wt_manifest kv.2)))
      then raise ValueError "Workflow target key does not match its logical name"
      else if negb (legacy_owns (wt_scope_digest kv.2) scope)
      then raise ValueError "Workflow target does not belong to its runtime scope"
      else Ok tt) targets;
    declarations ← from_option (dict_get scope triggers_by_scope) (Exn KeyError "scope" None);
    registrations ← traverse_dict (fun name target =>
      new_registration target (triggers_for_workflow declarations name)) targets;
    Ok (dict_set (digest scope) (scope, registrations) indexed).

(** [ScopedWorkflowTargetResolver.__init__] *)
Definition new_resolver (targets_by_scope : list (RuntimeScope * list (string * WorkflowStartTarget)))
    (triggers_by_scope : list (RuntimeScope * TriggersConfig)) : res ScopedTargets :=
  if negb (forallb (fun s => bool_decide (s ∈ dict_keys triggers_by_scope)) (dict_keys targets_by_scope)
           && forallb (fun s => bool_decide (s ∈ dict_keys targets_by_scope)) (dict_keys triggers_by_scope))
  then raise ValueError "Workflow targets and trigger declarations cover different scopes"
  else fold_left (index_scope triggers_by_scope) targets_by_scope (Ok []).

(** [ScopedWorkflowTargetResolver.resolve] *)
Definition resolve_scoped (targets : ScopedTargets) (scope : RuntimeScope) (workflow_name : string)
  : option WorkflowStartRegistration :=
  match dict_get (digest scope) targets with
  | Some (registered, entries) => if decide (registered = scope) then dict_get workflow_name entries else None
  | None => None
  end.

(** [identity_digest], [identity_log_digest] *)
Definition identity_digest (value : string) : string := hexdigest value.

(** [source_identity_digest] *)
Definition source_identity_digest (source : SourceIdentity) (scope : RuntimeScope) : string :=
  identity_digest (dumps_strict_json (JDict [("scope_digest", JStr (digest scope)); ("source", source_dump source)])).

(** The exceptions that [validate_workflow_start_input] catches. *)
Definition start_input_error (e : exn) : bool :=
  match exn_cls e with
  | DataNormalizationError _ | LimitExceededError _ _ _ _ | PayloadSerializationError _ | ValueError | TypeError
  | ValidationError | StrictJsonError => true
  | _ => false
  end.

(** [validate_workflow_start_input] *)
Definition validate_workflow_start_input (input : list (string * json)) (target : WorkflowStartTarget)
    (limits : RuntimeLimits) : stres (list (string * json)) :=
  match
    (normalized ← normalize_json_object "start.input" (collection_items limits) (json_raw (JDict input));
     _ ← enforce_payload_bytes (JDict normalized) "start.input" (trigger_payload_bytes limits);
     Ok normalized)
  with
  | Raise e =>
      if start_input_error e
      then Raise (start_rejected INVALID_REQUEST "Workflow input is not valid bounded JSON")
      else Raise (StartPyError e)
  | Ok normalized =>
      match mf_input_schema (wt_manifest target) with
      | None => Ok normalized
      | Some schema =>
          match check_payload schema normalized with
          | Satisfied => Ok normalized
          | ContractViolation => Raise (start_rejected INPUT_REJECTED "Workflow input does not satisfy its contract")
          | ContractUnavailable =>
              Raise (start_rejected CONFIGURATION_ERROR "Workflow input contract is unavailable")
          end
      end
  end.

(** [WorkflowStarter._validate_resolved_target] *)
Definition validate_resolved_target (scope : RuntimeScope) (request : StartWorkflowRequest)
    (target : WorkflowStartTarget) : stres unit :=
  if negb (bool_decide (sr_workflow_name request = mf_logical_name (wt_manifest target)))
  then Raise (start_rejected DEFINITION_UNAVAILABLE "The resolved workflow target does not match the request")
  else if negb (supports (wt_deployment target) (wt_manifest target))
  then Raise (start_rejected INCOMPATIBLE_WORKER "The resolved workflow definition has no compatible worker")
  else if negb (legacy_owns (wt_scope_digest target) scope)
  then Raise (start_rejected DEFINITION_UNAVAILABLE
                "The resolved workflow target does not belong to the runtime scope")
  else
    match sr_definition_digest request with
    | Some d =>
        guard_or (bool_decide (d = mf_definition_digest (wt_manifest target)))
          (start_rejected DEFINITION_UNAVAILABLE "The resolved workflow definition does not match the request")
    | None => Ok tt
    end.
End starts.
