(* ===== verification/Schedules.v ===== *)
(** Compilation of schedules and the plan that reconciles them with what Temporal holds
    ([runtime/schedules.py]). *)

From S2P Require Export StartRequests.

Definition SCHEDULE_OWNER : string := "justflow".
Definition SCHEDULE_ID_PREFIX : string := "justflow.schedule.".
Definition SCHEDULE_DISPATCH_WORKFLOW_ID_PREFIX : string := "justflow.schedule-dispatch.".
Definition SCHEDULE_DISPATCH_WORKFLOW_TYPE : string := "justflow.schedule-dispatch.v1".
Definition SCHEDULE_DISPATCH_FORMAT_VERSION : Z := 1.
Definition MEMO_SCHEDULE_OWNER : string := "justflow.schedule_owner".
Definition MEMO_SCHEDULE_NAME : string := "justflow.schedule_name".
Definition MEMO_SCHEDULE_DESIRED_DIGEST : string := "justflow.schedule_desired_digest".
Definition MEMO_SCHEDULE_FORMAT_VERSION : string := "justflow.schedule_format_version".

(** ** Errors *)

(** [ScheduleReconciliationErrorCode] *)
Inductive ScheduleReconciliationErrorCode :=
| RECONCILE_CATALOG_UNAVAILABLE | COLLECTION_LIMIT | CONFIRMATION_REQUIRED | PLAN_CONFLICT
| TEMPORAL_UNAVAILABLE.

(** [ScheduleApplyErrorCode] *)
Inductive ScheduleApplyErrorCode := OWNERSHIP_CHANGED | APPLY_TEMPORAL_UNAVAILABLE.

#[export] Instance ScheduleApplyErrorCode_eq_dec : EqDecision ScheduleApplyErrorCode.
Proof. solve_decision. Defined.

Inductive schedule_exn :=
| ScheduleConfigurationError (msg : string)
| ScheduleStartError (e : start_exn)
| ScheduleReconciliationError (code : ScheduleReconciliationErrorCode) (msg : string)
| ScheduleMutationError (code : ScheduleApplyErrorCode)
| ScheduleAlreadyRunningError
| ScheduleRPCError (status : string)
| SchedulePyError (e : exn).

Abbreviation sres := (result schedule_exn).

Definition lift_res {A} (r : res A) : sres A :=
  match r with Ok a => Ok a | Raise e => Raise (SchedulePyError e) end.

Definition lift_start {A} (r : stres A) : sres A :=
  match r with Ok a => Ok a | Raise e => Raise (ScheduleStartError e) end.

Definition configuration_error {A} (msg : string) : sres A := Raise (ScheduleConfigurationError msg).

(** ** Desired schedules *)

(** [ScheduleTargetIdentity] *)
Record ScheduleTargetIdentity := {
  sti_scope_digest : option string;
  sti_workflow_name : string;
  sti_definition_digest : string;
  sti_artifact_identity : WorkerArtifactIdentity;
  sti_environment_snapshot_digest : string;
  sti_execution_configuration : option ExecutionConfigurationIdentity;
}.

(** [ScheduleRange], [ScheduleSpec] of the Temporal client. *)
Record TemporalRange := { tr_start : Z; tr_end : Z; tr_step : Z }.

Inductive TemporalSpec :=
| TemporalCron (cron_expressions : list string)
| TemporalInterval (every offset : Z)
| TemporalCalendar (second minute hour day_of_month month year day_of_week : list TemporalRange).

(** [Schedule] with a [ScheduleActionStartWorkflow]. *)
Record TemporalSchedule := {
  ts_workflow : string;
  ts_argument : json;
  ts_workflow_id : string;
  ts_task_queue : string;
  ts_memo : list (string * string);
  ts_spec : TemporalSpec;
  ts_time_zone_name : string;
  ts_overlap : ScheduleOverlapPolicy;
  ts_catchup_window_seconds : Z;
  ts_paused : bool;
}.

(** [DesiredSchedule] *)
Record DesiredSchedule := {
  ds_schedule_name : string;
  ds_schedule_id : string;
  ds_desired_digest : string;
  ds_target : ScheduleTargetIdentity;
  ds_schedule : TemporalSchedule;
  ds_memo : list (string * string);
}.

Definition ds_scope_digest (d : DesiredSchedule) : option string := sti_scope_digest (ds_target d).

(** [_temporal_ranges] *)
Definition temporal_ranges (ranges : list CalendarRange) : list TemporalRange :=
  (fun r => {| tr_start := cr_start r; tr_end := range_end r; tr_step := cr_step r |}) <$> ranges.

(** [_temporal_schedule_spec] *)
Definition temporal_schedule_spec (s : ScheduleSpec) : TemporalSpec :=
  match s with
  | CronSpec expressions => TemporalCron expressions
  | IntervalSpec i => TemporalInterval (is_every_seconds i) (is_offset_seconds i)
  | CalendarSpec c =>
      TemporalCalendar (temporal_ranges (cal_second c)) (temporal_ranges (cal_minute c))
        (temporal_ranges (cal_hour c)) (temporal_ranges (cal_day_of_month c)) (temporal_ranges (cal_month c))
        (temporal_ranges (cal_year c)) (temporal_ranges (cal_day_of_week c))
  end.

Section compile.
Context `{Sha256, FloatRepr, PayloadContracts}.

(** [make_schedule_id] *)
Definition make_schedule_id (schedule_name : string) (scope : RuntimeScope) : res string :=
  scoped_identity "schedule" scope [schedule_name].

Definition make_unscoped_schedule_id (schedule_name : string) : string := SCHEDULE_ID_PREFIX +:+ schedule_name.

(** [make_schedule_dispatch_workflow_id] *)
Definition make_schedule_dispatch_workflow_id (schedule_name : string) (scope : RuntimeScope) : res string :=
  scoped_identity "schedule-dispatch" scope [schedule_name].

(** [make_schedule_run_now_workflow_id] *)
Definition make_schedule_run_now_workflow_id (schedule_name request_identity_digest : string)
    (scope : RuntimeScope) : res string :=
  scoped_identity "schedule-run-now" scope [schedule_name; request_identity_digest].

Definition make_unscoped_schedule_dispatch_workflow_id (schedule_name : string) : string :=
  SCHEDULE_DISPATCH_WORKFLOW_ID_PREFIX +:+ schedule_name.

(** [make_schedule_occurrence_id] *)
Definition make_schedule_occurrence_id (schedule_name dispatch_workflow_id : string)
    (scope_digest : option string) : res string :=
  let occurrence_digest := hexdigest (dumps_strings ["schedule_occurrence"; schedule_name; dispatch_workflow_id]) in
  match scope_digest with
  | None => Ok occurrence_digest
  | Some d => scoped_identity_from_digest "schedule-occurrence" d [schedule_name; occurrence_digest]
  end.

(** [ScheduleTargetIdentity.from_target], with the constraints of its fields. *)
Definition target_identity (target : WorkflowStartTarget) (scope : RuntimeScope) : sres ScheduleTargetIdentity :=
  let i := {| sti_scope_digest := Some (digest scope);
              sti_workflow_name := mf_logical_name (wt_manifest target);
              sti_definition_digest := mf_definition_digest (wt_manifest target);
              sti_artifact_identity := wd_artifact_identity (wt_deployment target);
              sti_environment_snapshot_digest := wt_environment_snapshot_digest target;
              sti_execution_configuration := wt_execution_configuration target |} in
  if is_identifier (sti_workflow_name i) && (String.length (sti_workflow_name i) <=? 128)%nat
     && digest_field (sti_definition_digest i) && digest_field (sti_environment_snapshot_digest i)
  then Ok i else Raise (SchedulePyError (Exn ValidationError "ScheduleTargetIdentity" None)).

(** [model_dump(mode="json", exclude_none=exclude_none)] of the target identity *)
Definition artifact_fields (exclude_none : bool) (a : WorkerArtifactIdentity) : json :=
  JDict (dump_fields exclude_none (map (prod_map id (fmap JStr)) [
    ("deployment_name", Some (wa_deployment_name a)); ("build_id", Some (wa_build_id a));
    ("artifact_digest", Some (wa_artifact_digest a)); ("package_version", Some (wa_package_version a));
    ("source_revision", wa_source_revision a)])).

Definition target_identity_dump (exclude_none : bool) (i : ScheduleTargetIdentity) : json :=
  JDict (dump_fields exclude_none [
    ("scope_digest", JStr <$> sti_scope_digest i);
    ("workflow_name", Some (JStr (sti_workflow_name i)));
    ("definition_digest", Some (JStr (sti_definition_digest i)));
    ("artifact_identity", Some (artifact_fields exclude_none (sti_artifact_identity i)));
    ("environment_snapshot_digest", Some (JStr (sti_environment_snapshot_digest i)));
    ("execution_configuration",
      execution_configuration_dump exclude_none <$> sti_execution_configuration i)]).

(** [ScheduleDispatchPlan] *)
Record ScheduleDispatchPlan := {
  dp_schedule_name : string;
  dp_target : ScheduleTargetIdentity;
  dp_input : list (string * json);
  dp_dispatch_timeout_seconds : Z;
  dp_dispatch_attempts : Z;
}.

Definition dispatch_plan (schedule_name : string) (target : ScheduleTargetIdentity) (input : list (string * json))
    (dispatch_timeout_seconds dispatch_attempts : Z) : sres ScheduleDispatchPlan :=
  if is_identifier schedule_name && (String.length schedule_name <=? 128)%nat
     && within 1 300 dispatch_timeout_seconds && within 1 100 dispatch_attempts
  then Ok {| dp_schedule_name := schedule_name; dp_target := target; dp_input := input;
             dp_dispatch_timeout_seconds := dispatch_timeout_seconds; dp_dispatch_attempts := dispatch_attempts |}
  else Raise (SchedulePyError (Exn ValidationError "ScheduleDispatchPlan" None)).

Definition dispatch_plan_dump (p : ScheduleDispatchPlan) : json :=
  JDict [("format_version", JInt SCHEDULE_DISPATCH_FORMAT_VERSION);
         ("schedule_name", JStr (dp_schedule_name p)); ("target", target_identity_dump false (dp_target p));
         ("input", JDict (dp_input p)); ("dispatch_timeout_seconds", JInt (dp_dispatch_timeout_seconds p));
         ("dispatch_attempts", JInt (dp_dispatch_attempts p))].

(** The value whose digest identifies the desired schedule. *)
Definition desired_identity (schedule_name : string) (declaration : ScheduleTrigger) (scope : RuntimeScope)
    (i : ScheduleTargetIdentity) (task_queue dispatch_task_queue : string) (p : ScheduleDispatchPlan) : json :=
  JDict [("format_version", JInt SCHEDULE_DISPATCH_FORMAT_VERSION);
         ("scope_digest", JStr (digest scope));
         ("schedule_name", JStr schedule_name);
         ("declaration", schedule_trigger_dump declaration);
         ("target", target_identity_dump true i);
         ("task_queue_identity", JStr (provenance_digest (JDict [("task_queue", JStr task_queue)])));
         ("dispatch_task_queue_identity",
           JStr (provenance_digest (JDict [("task_queue", JStr dispatch_task_queue)])));
         ("dispatch_timeout_seconds", JInt (dp_dispatch_timeout_seconds p));
         ("dispatch_attempts", JInt (dp_dispatch_attempts p))].

Definition schedule_memo (target : WorkflowStartTarget) (schedule_name desired_digest : string) (scope : RuntimeScope)
  : list (string * string) :=
  dict_update (target_memo target)
    [(MEMO_SCHEDULE_OWNER, SCHEDULE_OWNER); (MEMO_SCHEDULE_NAME, schedule_name);
     (MEMO_SCHEDULE_DESIRED_DIGEST, desired_digest);
     (MEMO_SCHEDULE_FORMAT_VERSION, Z_to_string SCHEDULE_DISPATCH_FORMAT_VERSION);
     (MEMO_SCOPE_DIGEST, digest scope)].

(** [compile_schedule] *)
Definition compile_schedule (schedule_name : string) (declaration : ScheduleTrigger) (target : WorkflowStartTarget)
    (task_queue : string) (dispatch_task_queue : option string) (scope : RuntimeScope) (limits : RuntimeLimits)
    (dispatch_timeout_seconds dispatch_attempts : Z) : sres DesiredSchedule :=
  if bool_decide (task_queue = EmptyString) then configuration_error "Schedule task queue must not be empty"
  else
    let resolved := match dispatch_task_queue with
                    | Some q => if bool_decide (q = EmptyString) then task_queue else q
                    | None => task_queue
                    end in
    if negb (bool_decide (st_workflow declaration = mf_logical_name (wt_manifest target)))
    then configuration_error ("Schedule '" +:+ schedule_name +:+ "' resolved to the wrong workflow target")
    else if match st_definition_digest declaration with
            | Some d => negb (bool_decide (d = mf_definition_digest (wt_manifest target)))
            | None => false
            end
    then configuration_error ("Schedule '" +:+ schedule_name +:+ "' resolved to the wrong definition target")
    else
      normalized_input ← lift_start (validate_workflow_start_input (st_input declaration) target limits);
      i ← target_identity target scope;
      p ← dispatch_plan schedule_name i normalized_input dispatch_timeout_seconds dispatch_attempts;
      let desired_digest :=
        provenance_digest (desired_identity schedule_name declaration scope i task_queue resolved p) in
      schedule_id ← lift_res (make_schedule_id schedule_name scope);
      let memo := schedule_memo target schedule_name desired_digest scope in
      workflow_id ← lift_res (make_schedule_dispatch_workflow_id schedule_name scope);
      Ok {| ds_schedule_name := schedule_name; ds_schedule_id := schedule_id; ds_desired_digest := desired_digest;
            ds_target := i;
            ds_schedule := {|
              ts_workflow := SCHEDULE_DISPATCH_WORKFLOW_TYPE; ts_argument := dispatch_plan_dump p;
              ts_workflow_id := workflow_id; ts_task_queue := resolved; ts_memo := memo;
              ts_spec := temporal_schedule_spec (st_spec declaration);
              ts_time_zone_name := st_timezone declaration; ts_overlap := st_overlap_policy declaration;
              ts_catchup_window_seconds := st_catch_up_window_seconds declaration;
              ts_paused := st_paused declaration |};
            ds_memo := memo |}.
End compile.

(** ** Observed schedules *)

(** [ObservedSchedule] *)
Record ObservedSchedule := {
  os_schedule_id : string;
  os_owner : option string;
  os_schedule_name : option string;
  os_desired_digest : option string;
  os_scope_digest : option string;
  os_action_valid : bool;
  os_corrupt_metadata_keys : list string;
}.

#[export] Instance ObservedSchedule_eq_dec : EqDecision ObservedSchedule.
Proof. solve_decision. Defined.

(** [ObservedSchedule.managed] *)
Definition managed (o : ObservedSchedule) : bool := bool_decide (os_owner o = Some SCHEDULE_OWNER).

(** [bool(corrupt_metadata_keys)] *)
Definition corrupt (o : ObservedSchedule) : bool := negb (bool_decide (os_corrupt_metadata_keys o = [])).

(** [ObservedSchedule.valid_managed_identity] *)
Definition valid_managed_identity (o : ObservedSchedule) : bool :=
  negb (corrupt o) && managed o && is_some (os_schedule_name o) && is_some (os_desired_digest o)
  && os_action_valid o.

(** ** The plan *)

(** [ScheduleChangeKind], [UnscopedScheduleDecision] *)
Inductive ScheduleChangeKind := CHANGE_CREATE | CHANGE_UPDATE | CHANGE_DELETE | CHANGE_CONFLICT.

#[export] Instance ScheduleChangeKind_eq_dec : EqDecision ScheduleChangeKind.
Proof. solve_decision. Defined.

Inductive UnscopedScheduleDecision := REQUIRE_EXPLICIT | MIGRATE | RETAIN.

#[export] Instance UnscopedScheduleDecision_eq_dec : EqDecision UnscopedScheduleDecision.
Proof. solve_decision. Defined.

Definition change_value (k : ScheduleChangeKind) : string :=
  match k with
  | CHANGE_CREATE => "create" | CHANGE_UPDATE => "update" | CHANGE_DELETE => "delete"
  | CHANGE_CONFLICT => "conflict"
  end.

Definition decision_value (d : UnscopedScheduleDecision) : string :=
  match d with REQUIRE_EXPLICIT => "require_explicit" | MIGRATE => "migrate" | RETAIN => "retain" end.

(** [ScheduleChange] *)
Record ScheduleChange := {
  sc_kind : ScheduleChangeKind;
  sc_schedule_id : string;
  sc_schedule_name : option string;
  sc_reason : string;
}.

(** [SchedulePlan] *)
Record SchedulePlan := {
  sp_desired : list (string * DesiredSchedule);
  sp_observed : list (string * ObservedSchedule);
  sp_changes : list ScheduleChange;
  sp_plan_digest : string;
  sp_unscoped_decision : UnscopedScheduleDecision;
}.

Definition is_conflict (c : ScheduleChange) : bool := bool_decide (sc_kind c = CHANGE_CONFLICT).

(** [SchedulePlan.has_conflicts], [SchedulePlan.mutation_count] *)
Definition has_conflicts (p : SchedulePlan) : bool := existsb is_conflict (sp_changes p).

Definition mutation_count (p : SchedulePlan) : nat := length (filter (fun c => is_conflict c = false) (sp_changes p)).

(** [_SCHEDULE_CHANGE_ORDER] *)
Definition change_order (k : ScheduleChangeKind) : nat :=
  match k with CHANGE_CREATE => 0 | CHANGE_UPDATE => 1 | CHANGE_CONFLICT => 2 | CHANGE_DELETE => 3 end.

(** [_validate_schedule_mapping] *)
Definition validate_schedule_mapping {A} (mapping_name : string) (identity : A -> string) (d : list (string * A))
  : sres unit :=
  _ ← traverse (fun kv =>
        if bool_decide (kv.1 = identity kv.2) then Ok tt
        else configuration_error (mapping_name +:+ " schedule mapping key does not match its identity")) d;
  Ok tt.

(** The names of managed schedules without a scope, one for each such schedule. *)
Definition unscoped_names (observed : list (string * ObservedSchedule)) : list string :=
  omap (fun kv : string * ObservedSchedule =>
          if managed kv.2 && bool_decide (os_scope_digest kv.2 = None) then os_schedule_name kv.2 else None) observed.

(** [schedule_name in unscoped_by_name] and [schedule_name in ambiguous_names] *)
Definition occurrences (name : string) (names : list string) : nat := length (filter (fun n => n = name) names).

Definition ambiguous (observed : list (string * ObservedSchedule)) (name : string) : bool :=
  (1 <? occurrences name (unscoped_names observed))%nat.

(** A schedule is retained in its place: it is left out of the desired ones. *)
Definition retained (decision : UnscopedScheduleDecision) (observed : list (string * ObservedSchedule))
    (name : string) : bool :=
  bool_decide (decision = RETAIN) && bool_decide (name ∈ unscoped_names observed)
  && negb (ambiguous observed name).

(** [effective_desired] *)
Definition effective_desired (decision : UnscopedScheduleDecision) (observed : list (string * ObservedSchedule))
    (desired : list (string * DesiredSchedule)) : list (string * DesiredSchedule) :=
  filter (fun kv => retained decision observed (ds_schedule_name kv.2) = false) desired.

Definition change (kind : ScheduleChangeKind) (schedule_id : string) (name : option string) (reason : string)
  : option ScheduleChange :=
  Some {| sc_kind := kind; sc_schedule_id := schedule_id; sc_schedule_name := name; sc_reason := reason |}.

(** The first loop: what one desired schedule calls for. *)
Definition desired_change (observed : list (string * ObservedSchedule)) (kv : string * DesiredSchedule)
  : option ScheduleChange :=
  let '(schedule_id, wanted) := kv in
  let name := Some (ds_schedule_name wanted) in
  match dict_get schedule_id observed with
  | None => change CHANGE_CREATE schedule_id name "managed schedule is absent"
  | Some actual =>
      if corrupt actual then change CHANGE_CONFLICT schedule_id name "schedule metadata is corrupt"
      else if negb (managed actual)
      then change CHANGE_CONFLICT schedule_id name "schedule identity is occupied by an unmanaged schedule"
      else if negb (valid_managed_identity actual) || negb (bool_decide (os_schedule_name actual = name))
      then change CHANGE_CONFLICT schedule_id name "managed schedule identity metadata is invalid"
      else if negb (bool_decide (os_scope_digest actual = ds_scope_digest wanted))
      then change CHANGE_CONFLICT schedule_id name "managed schedule belongs to a different scope"
      else if negb (bool_decide (os_desired_digest actual = Some (ds_desired_digest wanted)))
      then change CHANGE_UPDATE schedule_id name "managed schedule differs from desired state"
      else None
  end.

(** The second loop: what one schedule that is observed and not desired calls for. *)
Definition orphan_change (decision : UnscopedScheduleDecision) (desired : list (string * DesiredSchedule))
    (observed : list (string * ObservedSchedule)) (kv : string * ObservedSchedule) : option ScheduleChange :=
  let '(schedule_id, actual) := kv in
  let name := os_schedule_name actual in
  let unambiguous := match name with Some n => negb (ambiguous observed n) | None => true end in
  if dict_mem schedule_id (effective_desired decision observed desired) then None
  else if corrupt actual
  then change CHANGE_CONFLICT schedule_id name "orphaned schedule metadata is corrupt"
  else if negb (managed actual) then None
  else if bool_decide (os_scope_digest actual = None) then
    if valid_managed_identity actual && unambiguous && bool_decide (decision = RETAIN) then None
    else if valid_managed_identity actual
            && match name with
               | Some n => bool_decide (n ∈ (fun kv => ds_schedule_name kv.2) <$> desired)
               | None => false
               end
            && unambiguous && bool_decide (decision = MIGRATE)
    then change CHANGE_DELETE schedule_id name "unscoped managed schedule is replaced by scoped desired state"
    else change CHANGE_CONFLICT schedule_id name "unscoped managed schedule requires an explicit migration decision"
  else if negb (valid_managed_identity actual)
  then change CHANGE_CONFLICT schedule_id name "orphaned managed schedule has invalid identity metadata"
  else change CHANGE_DELETE schedule_id name "managed schedule is absent from desired state".

(** The key by which changes are sorted. *)
Definition schedule_change_leb (a b : ScheduleChange) : bool :=
  if bool_decide (change_order (sc_kind a) = change_order (sc_kind b))
  then String.leb (sc_schedule_id a) (sc_schedule_id b)
  else (change_order (sc_kind a) <? change_order (sc_kind b))%nat.

Definition schedule_change_le (a b : ScheduleChange) : Prop := schedule_change_leb a b = true.

#[export] Instance schedule_change_le_dec a b : Decision (schedule_change_le a b).
Proof. unfold schedule_change_le. apply _. Defined.

Definition reconcile_changes (decision : UnscopedScheduleDecision) (desired : list (string * DesiredSchedule))
    (observed : list (string * ObservedSchedule)) : list ScheduleChange :=
  omap (desired_change observed) (sort_keys (effective_desired decision observed desired))
  ++ omap (orphan_change decision desired observed) (sort_keys observed).

Definition desired_row (kv : string * DesiredSchedule) : json :=
  JDict [("schedule_id", JStr kv.1); ("schedule_name", JStr (ds_schedule_name kv.2));
         ("desired_digest", JStr (ds_desired_digest kv.2)); ("scope_digest", opt_json (ds_scope_digest kv.2))].

Definition observed_row (kv : string * ObservedSchedule) : json :=
  JDict [("schedule_id", JStr kv.1); ("owner", opt_json (os_owner kv.2));
         ("schedule_name", opt_json (os_schedule_name kv.2)); ("desired_digest", opt_json (os_desired_digest kv.2));
         ("action_valid", JBool (os_action_valid kv.2)); ("scope_digest", opt_json (os_scope_digest kv.2));
         ("corrupt_metadata_keys", JList (JStr <$> os_corrupt_metadata_keys kv.2))].

Definition change_row (c : ScheduleChange) : json :=
  JDict [("kind", JStr (change_value (sc_kind c))); ("schedule_id", JStr (sc_schedule_id c));
         ("schedule_name", opt_json (sc_schedule_name c))].

(** [plan_schedule_reconciliation] *)
Definition plan_schedule_reconciliation `{Sha256, FloatRepr} (desired : list (string * DesiredSchedule))
    (observed : list (string * ObservedSchedule)) (decision : UnscopedScheduleDecision) : sres SchedulePlan :=
  _ ← validate_schedule_mapping "Desired" ds_schedule_id desired;
  _ ← validate_schedule_mapping "Observed" os_schedule_id observed;
  let changes := merge_sort schedule_change_le (reconcile_changes decision desired observed) in
  Ok {| sp_desired := effective_desired decision observed desired; sp_observed := observed;
        sp_changes := changes;
        sp_plan_digest := provenance_digest (JDict [
          ("desired", JList (desired_row <$> sort_keys desired));
          ("observed", JList (observed_row <$> sort_keys observed));
          ("changes", JList (change_row <$> changes));
          ("unscoped_decision", JStr (decision_value decision))]);
        sp_unscoped_decision := decision |}.
