(* ===== verification/RuntimeIndex.v ===== *)
(** What a runtime is prepared to run: the prepared activation and worker deployment, and
    the index of prepared runtimes ([runtime/configuration_activation.py]). *)

From S2P Require Export Schedules.

(** ** Revisions *)

(** [ConfigurationDocument] *)
Inductive ConfigurationDocument :=
| ResolvedBundle (b : ConfigurationBundle)
| TenantConfiguration.

(** [RevisionRecord] *)
Record RevisionRecord := {
  rv_scope_digest : string;
  rv_revision_id : string;
  rv_bundle : ConfigurationDocument;
}.

(** [ActivePointer] *)
Record ActivePointer := {
  ptr_scope_digest : string;
  ptr_revision_id : string;
  ptr_version : Z;
}.

Section runtime.
Context `{Sha256, FloatRepr}.

(** ** The prepared activation *)

(** [PreparedActivation] *)
Record PreparedActivation := {
  pa_scope : RuntimeScope;
  pa_revision : RevisionRecord;
  pa_policy_digest : string;
  pa_artifact : WorkerArtifactIdentity;
  pa_task_queue_identity_digest : string;
  pa_manifests : list (string * DefinitionManifest);
  pa_environment_snapshots : list (string * ExecutionEnvironmentSnapshot);
  pa_start_targets : list (string * WorkflowStartTarget);
  pa_desired_schedules : list (string * DesiredSchedule);
}.

(** [set(a) == set(b)] *)
Definition same_names (a b : list string) : bool :=
  bool_decide (list_to_set a =@{gset string} list_to_set b).

(** The checks of one start target. *)
Definition check_start_target (p : PreparedActivation) (name : string) (target : WorkflowStartTarget)
  : ares unit :=
  match dict_get name (pa_manifests p) with
  | None => Raise (PyError (Exn KeyError ("'" +:+ name +:+ "'") None))
  | Some manifest =>
      if negb (bool_decide (wt_manifest target = manifest)
               && bool_decide (wt_scope_digest target = Some (digest (pa_scope p))))
      then value_error "Prepared workflow target does not match its runtime scope"
      else if negb (bool_decide (wd_artifact_identity (wt_deployment target) = pa_artifact p))
      then value_error "Prepared workflow target uses another worker artifact"
      else if negb (dict_mem (wt_environment_snapshot_digest target) (pa_environment_snapshots p))
      then value_error "Prepared workflow target has no retained environment snapshot"
      else Ok tt
  end.

Definition check_snapshot (p : PreparedActivation) (d : string) (snapshot : ExecutionEnvironmentSnapshot)
  : ares unit :=
  if bool_decide (d = es_snapshot_digest snapshot)
     && bool_decide (es_scope_digest snapshot = Some (digest (pa_scope p)))
  then Ok tt else value_error "Prepared environment snapshot identity is inconsistent".

(** [manifest_digests] *)
Definition manifest_digests (p : PreparedActivation) : gset string :=
  list_to_set (mf_definition_digest <$> (snd <$> pa_manifests p)).

Definition check_schedule (p : PreparedActivation) (s : DesiredSchedule) : ares unit :=
  if negb (bool_decide (sti_definition_digest (ds_target s) ∈ manifest_digests p))
  then value_error "Prepared schedule targets an unavailable definition"
  else if negb (bool_decide (ds_scope_digest s = Some (digest (pa_scope p))))
  then value_error "Prepared schedule belongs to another runtime scope"
  else Ok tt.

(** [PreparedActivation.__post_init__] *)
Definition PreparedActivation_post_init (p : PreparedActivation) : ares unit :=
  _ ← valid_if (provenance_field (pa_policy_digest p)) "policy_digest";
  _ ← valid_if (provenance_field (pa_task_queue_identity_digest p)) "task_queue_identity_digest";
  if negb (bool_decide (rv_scope_digest (pa_revision p) = digest (pa_scope p)))
  then value_error "Prepared configuration belongs to another runtime scope"
  else
    match rv_bundle (pa_revision p) with
    | TenantConfiguration =>
        Raise (PyError (Exn TypeError "Activation requires a resolved configuration bundle" None))
    | ResolvedBundle bundle =>
        if bool_decide (MAX_ACTIVATION_CHANGES < length (pa_manifests p))%nat
        then value_error "Prepared definition collection exceeds its bound"
        else if negb (same_names (dict_keys (bu_workflows bundle)) (dict_keys (pa_manifests p)))
        then value_error "Prepared definitions do not match configured workflows"
        else if negb (same_names (dict_keys (pa_manifests p)) (dict_keys (pa_start_targets p)))
        then value_error "Prepared workflow targets do not match definition manifests"
        else
          _ ← traverse (fun kv => check_start_target p kv.1 kv.2) (pa_start_targets p);
          _ ← traverse (fun kv => check_snapshot p kv.1 kv.2) (pa_environment_snapshots p);
          _ ← traverse (fun kv => check_schedule p kv.2) (pa_desired_schedules p);
          if same_names (dict_keys (schedules (bu_triggers bundle)))
               (ds_schedule_name <$> (snd <$> pa_desired_schedules p))
          then Ok tt
          else value_error "Prepared schedules do not match configured schedules"
    end.

(** [PreparedActivation.bundle] *)
Definition pa_bundle (p : PreparedActivation) : ares ConfigurationBundle :=
  match rv_bundle (pa_revision p) with
  | ResolvedBundle b => Ok b
  | TenantConfiguration =>
      Raise (PyError (Exn TypeError "Prepared activation lost its resolved bundle" None))
  end.

(** [PreparedActivation.definition_digests] *)
Definition pa_definition_digests (p : PreparedActivation) : list string :=
  sorted_strings (elements (manifest_digests p)).

(** ** The prepared worker deployment *)

(** [PreparedWorkerDeployment] *)
Record PreparedWorkerDeployment := {
  pd_target : PreparedActivation;
  pd_assignments : list PreparedActivation;
}.

(** [PreparedWorkerDeployment.definition_digests] *)
Definition pd_definition_digests (d : PreparedWorkerDeployment) : list string :=
  sorted_strings (elements (list_to_set (pd_assignments d ≫= pa_definition_digests) : gset string)).

(** [PreparedWorkerDeployment.registration_digest] *)
Definition registration_digest (d : PreparedWorkerDeployment) : ares string :=
  assignments ←
    traverse (fun a : PreparedActivation =>
      types ← traverse (fun kv : string * WorkflowStartTarget => workflow_type kv.2) (pa_start_targets a);
      Ok (JDict [
        ("configuration_revision_id", JStr (rv_revision_id (pa_revision a)));
        ("scope_digest", JStr (digest (pa_scope a)));
        ("task_queue_identity_digest", JStr (pa_task_queue_identity_digest a));
        ("workflow_types", JList (map JStr (sorted_strings types)))]))
      (pd_assignments d);
  Ok (provenance_digest (JDict [
    ("artifact", artifact_dump (pa_artifact (pd_target d)));
    ("assignments", JList assignments)])).

(** ** The index of prepared runtimes *)

(** [RuntimeIndexSnapshot] *)
Record RuntimeIndexSnapshot := {
  ri_revision_id : string;
  ri_policy_digest : string;
  ri_artifact : WorkerArtifactIdentity;
  ri_targets : list (string * WorkflowStartTarget);
  ri_triggers : TriggersConfig;
}.

(** [PreparedRuntimeIndex]; entries are kept under the digest of their scope. *)
Record PreparedRuntimeIndex := {
  ix_max_scopes : Z;
  ix_max_targets_per_scope : Z;
  ix_entries : list (string * (RuntimeScope * RuntimeIndexSnapshot));
}.

Definition MAX_ACTIVATION_SCOPE_LIMIT : Z := 10000.
Definition MAX_ACTIVATION_TARGET_LIMIT : Z := 10000.

(** [PreparedRuntimeIndex.__init__] *)
Definition new_runtime_index (max_scopes max_targets_per_scope : Z) : ares PreparedRuntimeIndex :=
  if negb ((1 <=? max_scopes)%Z && (max_scopes <=? MAX_ACTIVATION_SCOPE_LIMIT)%Z)
  then value_error "Runtime index scope limit is invalid"
  else if negb ((1 <=? max_targets_per_scope)%Z && (max_targets_per_scope <=? MAX_ACTIVATION_TARGET_LIMIT)%Z)
  then value_error "Runtime index target limit is invalid"
  else Ok {| ix_max_scopes := max_scopes; ix_max_targets_per_scope := max_targets_per_scope;
             ix_entries := [] |}.

Definition check_index_target (scope : RuntimeScope) (artifact : WorkerArtifactIdentity) (name : string)
    (target : WorkflowStartTarget) : ares unit :=
  if negb (bool_decide (name = mf_logical_name (wt_manifest target))
           && bool_decide (wt_scope_digest target = Some (digest scope)))
  then Raise (ActivationError ActivationIntegrityError
                "Runtime index target does not belong to its trusted scope")
  else if negb (bool_decide (wd_artifact_identity (wt_deployment target) = artifact))
  then Raise (ActivationError ActivationIntegrityError "Runtime index target artifact is inconsistent")
  else Ok tt.

(** [PreparedRuntimeIndex.replace] *)
Definition replace (scope : RuntimeScope) (revision_id policy_digest : string)
    (artifact : WorkerArtifactIdentity) (targets : list (string * WorkflowStartTarget))
    (triggers : TriggersConfig) (index : PreparedRuntimeIndex) : ares PreparedRuntimeIndex :=
  _ ← valid_if (provenance_field policy_digest) "policy_digest";
  if (ix_max_targets_per_scope index <? Z.of_nat (length targets))%Z
  then Raise (ActivationError ActivationLimitError "Runtime index workflow collection exceeds its bound")
  else
    _ ← traverse (fun kv => check_index_target scope artifact kv.1 kv.2) targets;
    _ ← validate_api_uniqueness triggers;
    if existsb (fun kv => negb (dict_mem (td_workflow kv.2) targets)) triggers
    then Raise (ActivationError ActivationIntegrityError "Runtime index trigger targets an unavailable workflow")
    else if negb (dict_mem (digest scope) (ix_entries index))
            && (ix_max_scopes index <=? Z.of_nat (length (ix_entries index)))%Z
    then Raise (ActivationError ActivationLimitError "Runtime index scope collection exceeds its bound")
    else
      Ok {| ix_max_scopes := ix_max_scopes index; ix_max_targets_per_scope := ix_max_targets_per_scope index;
            ix_entries :=
              dict_set (digest scope)
                (scope, {| ri_revision_id := revision_id; ri_policy_digest := policy_digest;
                           ri_artifact := artifact; ri_targets := targets; ri_triggers := triggers |})
                (ix_entries index) |}.

(** [PreparedRuntimeIndex.snapshot] *)
Definition snapshot (scope : RuntimeScope) (index : PreparedRuntimeIndex) : option RuntimeIndexSnapshot :=
  match dict_get (digest scope) (ix_entries index) with
  | Some (s, entry) => if bool_decide (s = scope) then Some entry else None
  | None => None
  end.

(** [PreparedRuntimeIndex.resolve]: the target and the triggers of one workflow. *)
Definition resolve (scope : RuntimeScope) (workflow_name : string) (index : PreparedRuntimeIndex)
  : option (WorkflowStartTarget * TriggersConfig) :=
  entry ← snapshot scope index;
  target ← dict_get workflow_name (ri_targets entry);
  Some (target, filter (fun kv => td_workflow kv.2 = workflow_name) (ri_triggers entry)).
End runtime.
