(* ===== verification/ActivationStore.v ===== *)
(** The SQLite store of activations, publications and discards
    ([configuration/activation_sqlite.py]): three tables of versioned records with the same
    operations, written once over the kind of record.  Columns that only the listing reads
    are left out; whether SQLite itself fails is an argument of each call. *)

From stdpp Require Export gmap.
From S2P Require Export ScopeFacts ActivationFacts.

(** ** Records and rows *)

(** What the store reads of a kind of record, and the texts of its errors. *)
Record record_kind (R : Type) := {
  rk_identity : R -> string;
  rk_scope_digest : R -> string;
  rk_idempotency_key_digest : R -> string;
  rk_request_digest : R -> string;
  rk_version : R -> Z;
  rk_name : string;
  rk_title : string;
}.

Arguments rk_identity {R} _ _.
Arguments rk_scope_digest {R} _ _.
Arguments rk_idempotency_key_digest {R} _ _.
Arguments rk_request_digest {R} _ _.
Arguments rk_version {R} _ _.
Arguments rk_name {R} _.
Arguments rk_title {R} _.

Definition activation_kind : record_kind ActivationRecord := {|
  rk_identity := ar_activation_id; rk_scope_digest := ar_scope_digest;
  rk_idempotency_key_digest := ar_idempotency_key_digest; rk_request_digest := ar_request_digest;
  rk_version := ar_version; rk_name := "activation"; rk_title := "Activation" |}.

Definition publication_kind : record_kind PublicationRecord := {|
  rk_identity := pr_publication_id; rk_scope_digest := pr_scope_digest;
  rk_idempotency_key_digest := pr_idempotency_key_digest; rk_request_digest := pr_request_digest;
  rk_version := pr_version; rk_name := "publication"; rk_title := "Publication" |}.

Definition discard_kind : record_kind ConfigurationDiscardRecord := {|
  rk_identity := dr_discard_id; rk_scope_digest := dr_scope_digest;
  rk_idempotency_key_digest := dr_idempotency_key_digest; rk_request_digest := dr_request_digest;
  rk_version := dr_version; rk_name := "discard"; rk_title := "Discard" |}.

(** [model_dump(mode="json")] as JSON text, and [model_validate_json]: pydantic reads back
    the record that it wrote. *)
Class RecordCodec (R : Type) := {
  encode : R -> string;
  decode : string -> option R;
  decode_encode r : decode (encode r) = Some r;
}.

Record row := { row_version : Z; row_payload : string }.

(** A table, by scope digest and identity: its primary key. *)
Abbreviation table := (gmap (string * string) row).

Definition MAX_ACTIVATION_RECORD_BYTES : Z := 350000.

Definition activation_error {A} (kind : activation_failure) (msg : string) : ares A :=
  Raise (ActivationError kind msg).

Definition conflict_error {A} (identity : string) : ares A :=
  activation_error (ActivationConflictError identity) "Activation state changed concurrently".

Section store.
Context `{Sha256} {R : Type} `{RecordCodec R} (kind : record_kind R).

(** [_record_bytes] *)
Definition record_bytes (r : R) : ares string :=
  if (MAX_ACTIVATION_RECORD_BYTES <? utf8_length (encode r))%Z
  then activation_error ActivationLimitError "Activation record exceeds its byte limit"
  else Ok (encode r).

(** [_require_scope] *)
Definition require_scope (scope : RuntimeScope) (scope_digest : string) : ares unit :=
  if bool_decide (scope_digest = digest scope) then Ok tt
  else activation_error ActivationIntegrityError "Activation record belongs to another runtime scope".

(** [_activation], [_publication] and [_discard] *)
Definition stored_record (value : string) (scope : RuntimeScope) : ares R :=
  match decode value with
  | None => activation_error ActivationIntegrityError ("Stored " +:+ rk_name kind +:+ " record is invalid")
  | Some r =>
      let inconsistent :=
        activation_error ActivationIntegrityError ("Stored " +:+ rk_name kind +:+ " record is inconsistent") in
      if negb (bool_decide (rk_scope_digest kind r = digest scope)) then inconsistent
      else
        bytes ← record_bytes r;
        if bool_decide (value = bytes) then Ok r else inconsistent
  end.

(** [create_activation], [create_publication] and [create_discard] *)
Definition create_record (sqlite : bool) (scope : RuntimeScope) (r : R) (t : table) : ares R * table :=
  match
    (_ ← require_scope scope (rk_scope_digest kind r); record_bytes r)
  with
  | Raise e => (Raise e, t)
  | Ok payload =>
      if negb sqlite
      then (activation_error ActivationUnavailableError ("Cannot create the SQLite " +:+ rk_name kind +:+ " record"), t)
      else
        let key := (digest scope, rk_identity kind r) in
        match t !! key with
        | Some row =>
            (existing ← stored_record (row_payload row) scope;
             if negb (bool_decide (rk_request_digest kind existing = rk_request_digest kind r))
                || negb (bool_decide (rk_idempotency_key_digest kind existing = rk_idempotency_key_digest kind r))
             then conflict_error (rk_identity kind r)
             else Ok existing, t)
        | None => (Ok r, <[key := {| row_version := rk_version kind r; row_payload := payload |}]> t)
        end
  end.

(** [read_activation], [read_publication] and [read_discard] *)
Definition read_record (sqlite : bool) (scope : RuntimeScope) (identity : string) (t : table) : ares R :=
  if negb sqlite then activation_error ActivationUnavailableError "Cannot read SQLite activation state"
  else
    match t !! (digest scope, identity) with
    | None => activation_error ActivationNotFoundError ("Configuration " +:+ rk_name kind +:+ " was not found")
    | Some row =>
        r ← stored_record (row_payload row) scope;
        if bool_decide (rk_identity kind r = identity) then Ok r
        else activation_error ActivationIntegrityError ("Stored " +:+ rk_name kind +:+ " identity disagrees")
    end.

(** [update_activation], [update_publication] and [update_discard] *)
Definition update_record (sqlite : bool) (scope : RuntimeScope) (r : R) (expected_version : Z) (t : table)
  : ares R * table :=
  match
    (_ ← require_scope scope (rk_scope_digest kind r);
     if negb (bool_decide (rk_version kind r = expected_version + 1)%Z)
     then activation_error ActivationIntegrityError (rk_title kind +:+ " version transition is invalid")
     else record_bytes r)
  with
  | Raise e => (Raise e, t)
  | Ok payload =>
      if negb sqlite
      then (activation_error ActivationUnavailableError ("Cannot update the SQLite " +:+ rk_name kind +:+ " record"), t)
      else
        let key := (digest scope, rk_identity kind r) in
        match t !! key with
        | Some row =>
            if bool_decide (row_version row = expected_version)
            then (Ok r, <[key := {| row_version := rk_version kind r; row_payload := payload |}]> t)
            else (conflict_error (rk_identity kind r), t)
        | None => (conflict_error (rk_identity kind r), t)
        end
  end.

(** ** Histories *)

Inductive store_call :=
| CallCreate (scope : RuntimeScope) (r : R)
| CallRead (scope : RuntimeScope) (identity : string)
| CallUpdate (scope : RuntimeScope) (r : R) (expected_version : Z).

Definition store_perform (c : store_call) (sqlite : bool) (t : table) : ares R * table :=
  match c with
  | CallCreate scope r => create_record sqlite scope r t
  | CallRead scope identity => (read_record sqlite scope identity t, t)
  | CallUpdate scope r v => update_record sqlite scope r v t
  end.

Fixpoint store_run (cs : list (store_call * bool)) (t : table) : list (ares R) * table :=
  match cs with
  | [] => ([], t)
  | (c, sqlite) :: cs =>
      let '(a, t1) := store_perform c sqlite t in
      let '(l, t2) := store_run cs t1 in
      (a :: l, t2)
  end.

(** ** The specification: a versioned register per record *)

Abbreviation registers := (gmap (string * string) R).

(** The call is for the scope of its record, the record fits, and an update is to the next
    version. *)
Definition well_addressed (c : store_call) : bool :=
  match c with
  | CallCreate scope r =>
      bool_decide (rk_scope_digest kind r = digest scope)
      && (utf8_length (encode r) <=? MAX_ACTIVATION_RECORD_BYTES)%Z
  | CallRead _ _ => true
  | CallUpdate scope r v =>
      bool_decide (rk_scope_digest kind r = digest scope)
      && bool_decide (rk_version kind r = v + 1)%Z
      && (utf8_length (encode r) <=? MAX_ACTIVATION_RECORD_BYTES)%Z
  end.

(** The answer of a register to a call that is well addressed, and what it holds then. *)
Definition register_answer (c : store_call) (g : registers) : option R * registers :=
  match c with
  | CallCreate scope r =>
      match g !! (digest scope, rk_identity kind r) with
      | None => (Some r, <[(digest scope, rk_identity kind r) := r]> g)
      | Some r0 =>
          (if bool_decide (rk_request_digest kind r0 = rk_request_digest kind r)
              && bool_decide (rk_idempotency_key_digest kind r0 = rk_idempotency_key_digest kind r)
           then Some r0 else None, g)
      end
  | CallRead scope identity => (g !! (digest scope, identity), g)
  | CallUpdate scope r v =>
      match g !! (digest scope, rk_identity kind r) with
      | Some r0 =>
          if bool_decide (rk_version kind r0 = v)
          then (Some r, <[(digest scope, rk_identity kind r) := r]> g) else (None, g)
      | None => (None, g)
      end
  end.

(** A history of registers: a call that is refused or meets a failure changes nothing. *)
Fixpoint register_run (cs : list (store_call * bool)) (g : registers) : list (option R) * registers :=
  match cs with
  | [] => ([], g)
  | (c, sqlite) :: cs =>
      let '(a, g1) := if well_addressed c && sqlite then register_answer c g else (None, g) in
      let '(l, g2) := register_run cs g1 in
      (a :: l, g2)
  end.
End store.

(** The methods of the store: one per kind of record. *)
Section methods.
Context `{Sha256} `{RecordCodec ActivationRecord} `{RecordCodec PublicationRecord}
  `{RecordCodec ConfigurationDiscardRecord}.

Definition sqlite_create_discard := create_record discard_kind.
Definition sqlite_read_discard := read_record discard_kind.
Definition sqlite_update_discard := update_record discard_kind.
Definition sqlite_create_publication := create_record publication_kind.
Definition sqlite_read_publication := read_record publication_kind.
Definition sqlite_update_publication := update_record publication_kind.
Definition sqlite_create_activation := create_record activation_kind.
Definition sqlite_read_activation := read_record activation_kind.
Definition sqlite_update_activation := update_record activation_kind.
End methods.

(** ** Refinement *)

Section refinement.
Context `{Sha256} {R : Type} `{RecordCodec R} (kind : record_kind R).

(** A row holds the payload of a record of its key, and the version of that record. *)
Definition row_of (r : R) : row := {| row_version := rk_version kind r; row_payload := encode r |}.

Definition stores (t : table) (g : gmap (string * string) R) : Prop :=
  t = row_of <$> g /\
  map_Forall (fun k r => k = (rk_scope_digest kind r, rk_identity kind r) /\
                         (utf8_length (encode r) <= MAX_ACTIVATION_RECORD_BYTES)%Z) g.

Lemma stores_lookup t g k :
  stores t g -> t !! k = row_of <$> g !! k.
Proof. intros [-> _]. apply lookup_fmap. Qed.

Lemma stores_insert t g r :
  stores t g -> (utf8_length (encode r) <= MAX_ACTIVATION_RECORD_BYTES)%Z ->
  stores (<[(rk_scope_digest kind r, rk_identity kind r) := row_of r]> t)
         (<[(rk_scope_digest kind r, rk_identity kind r) := r]> g).
Proof.
  intros [-> Hall] Hr. split; [by rewrite fmap_insert|]. by apply map_Forall_insert_2.
Qed.

Lemma record_bytes_fits r :
  record_bytes r = if (utf8_length (encode r) <=? MAX_ACTIVATION_RECORD_BYTES)%Z then Ok (encode r)
                   else activation_error ActivationLimitError "Activation record exceeds its byte limit".
Proof.
  unfold record_bytes. destruct (Z.ltb_spec MAX_ACTIVATION_RECORD_BYTES (utf8_length (encode r))).
  - by rewrite (proj2 (Z.leb_gt _ _)) by lia.
  - by rewrite (proj2 (Z.leb_le _ _)) by lia.
Qed.

(** A record that was stored is read back. *)
Lemma stored_record_row scope r :
  rk_scope_digest kind r = digest scope -> (utf8_length (encode r) <= MAX_ACTIVATION_RECORD_BYTES)%Z ->
  stored_record kind (row_payload (row_of r)) scope = Ok r.
Proof.
  intros Hs Hr. unfold stored_record. cbn. rewrite decode_encode, bool_decide_true by done. cbn [negb].
  rewrite record_bytes_fits, (proj2 (Z.leb_le _ _)) by done. cbn. by rewrite bool_decide_true.
Qed.

(** One call: the answer of the store is that of the register, and an exception where the
    register gives none. *)
Definition answers (a : ares R) (o : option R) : Prop :=
  match a, o with Ok r, Some r' => r = r' | Raise _, None => True | _, _ => False end.

Lemma store_perform_refines c sqlite t g :
  stores t g ->
  let '(a, t') := store_perform kind c sqlite t in
  let '(o, g') := if well_addressed kind c && sqlite then register_answer kind c g else (None, g) in
  answers a o /\ stores t' g'.
Proof.
  intros Hst. pose proof (stores_lookup t g) as Hl. destruct c as [scope r|scope i|scope r v]; cbn.
  - unfold create_record, require_scope. rewrite record_bytes_fits.
    destruct (decide (rk_scope_digest kind r = digest scope)) as [Hs|Hs].
    2:{ by rewrite !(bool_decide_false (rk_scope_digest kind r = _)) by done. }
    rewrite !(bool_decide_true (rk_scope_digest kind r = _)) by done. cbn [andb mbind result_bind].
    destruct (Z.leb_spec (utf8_length (encode r)) MAX_ACTIVATION_RECORD_BYTES) as [Hr|Hr]; [|done].
    destruct sqlite; cbn [negb andb]; [|done]. rewrite (Hl _ Hst). rewrite <- Hs.
    destruct (g !! (rk_scope_digest kind r, rk_identity kind r)) as [r0|] eqn:Hg; cbn [fmap option_fmap option_map].
    + destruct Hst as [Ht Hall]. destruct (Hall _ _ Hg) as [[= Hk1 Hk2] Hsize].
      rewrite stored_record_row by congruence. cbn [mbind result_bind].
      destruct (bool_decide (rk_request_digest kind r0 = _)), (bool_decide (rk_idempotency_key_digest kind r0 = _));
        by split.
    + split; [done|]. by apply stores_insert.
  - unfold read_record. destruct sqlite; cbn [negb]; [|done]. rewrite (Hl _ Hst).
    destruct (g !! (digest scope, i)) as [r0|] eqn:Hg; cbn [fmap option_fmap option_map]; [|done].
    destruct (proj2 Hst _ _ Hg) as [[= Hk1 Hk2] Hsize]. rewrite stored_record_row by done. cbn [mbind result_bind].
    by rewrite bool_decide_true.
  - unfold update_record, require_scope. rewrite record_bytes_fits.
    destruct (decide (rk_scope_digest kind r = digest scope)) as [Hs|Hs].
    2:{ by rewrite !(bool_decide_false (rk_scope_digest kind r = _)) by done. }
    rewrite !(bool_decide_true (rk_scope_digest kind r = _)) by done. cbn [andb mbind result_bind].
    destruct (decide (rk_version kind r = v + 1)%Z) as [Hv|Hv].
    2:{ by rewrite !(bool_decide_false (rk_version kind r = _)) by done. }
    rewrite !(bool_decide_true (rk_version kind r = _)) by done. cbn [negb andb].
    destruct (Z.leb_spec (utf8_length (encode r)) MAX_ACTIVATION_RECORD_BYTES) as [Hr|Hr]; [|done].
    destruct sqlite; cbn [negb andb]; [|done]. rewrite (Hl _ Hst), <- Hs.
    destruct (g !! (rk_scope_digest kind r, rk_identity kind r)) as [r0|] eqn:Hg; cbn [fmap option_fmap option_map]; [|done].
    cbn [row_version row_of]. destruct (bool_decide _); [|done]. split; [done|]. by apply stores_insert.
Qed.
End refinement.

Section histories.
Context `{Sha256} {R : Type} `{RecordCodec R} (kind : record_kind R).

Lemma store_run_refines cs : forall t g,
  stores kind t g ->
  Forall2 answers (store_run kind cs t).1 (register_run kind cs g).1 /\
  stores kind (store_run kind cs t).2 (register_run kind cs g).2.
Proof.
  induction cs as [|[c sqlite] cs IH]; intros t g Hst; [by split|]. cbn [store_run register_run].
  pose proof (store_perform_refines kind c sqlite t g Hst) as Hp.
  destruct (store_perform kind c sqlite t) as [a t1].
  destruct (if well_addressed kind c && sqlite then register_answer kind c g else (None, g)) as [o g1].
  destruct Hp as [Ha Hst1]. pose proof (IH t1 g1 Hst1) as [Has Hst2].
  destruct (store_run kind cs t1) as [l t2], (register_run kind cs g1) as [l' g2]. cbn in *.
  split; [by constructor|done].
Qed.

(** The calls that updated the record of [k]. *)
Definition updated (k : string * string) (c : store_call) (a : ares R) : bool :=
  match c, a with
  | CallUpdate scope r _, Ok _ => bool_decide ((digest scope, rk_identity kind r) = k)
  | _, _ => false
  end.

Definition count_updates (k : string * string) (cs : list (store_call * bool)) (l : list (ares R)) : nat :=
  length (filter (fun ca => updated k ca.1.1 ca.2 = true) (zip cs l)).

Lemma register_version c sqlite a g k r0 :
  let '(o, g1) := if well_addressed kind c && sqlite then register_answer kind c g else (None, g) in
  answers a o -> g !! k = Some r0 ->
  exists r1, g1 !! k = Some r1 /\
    rk_version kind r1 = (rk_version kind r0 + if updated k c a then 1 else 0)%Z.
Proof.
  assert (forall b, answers a None -> g !! k = Some r0 -> b = updated k c a ->
    exists r1, g !! k = Some r1 /\ rk_version kind r1 = (rk_version kind r0 + if b then 1 else 0)%Z) as Hsame.
  { intros b Ha Hg ->. exists r0. split; [done|]. destruct a; [done|]. destruct c; cbn; lia. }
  destruct (well_addressed kind c && sqlite) eqn:Hw; [|intros; by eapply Hsame].
  apply andb_true_iff in Hw as [Hw _]. destruct c as [scope r|scope i|scope r v]; cbn [register_answer].
  - destruct (g !! (digest scope, rk_identity kind r)) as [r2|] eqn:Hg2.
    + intros _ Hg. exists r0. split; [done|]. cbn. lia.
    + intros _ Hg. exists r0. rewrite lookup_insert_ne by congruence. split; [done|]. cbn. lia.
  - intros _ Hg. exists r0. split; [done|]. cbn. lia.
  - destruct (g !! (digest scope, rk_identity kind r)) as [r2|] eqn:Hg2; [|intros; by eapply Hsame].
    destruct (bool_decide (rk_version kind r2 = v)) eqn:Hv; [|intros; by eapply Hsame].
    apply bool_decide_eq_true in Hv. cbn [well_addressed] in Hw.
    apply andb_true_iff in Hw as [Hw _]. apply andb_true_iff in Hw as [_ Hw]. apply bool_decide_eq_true in Hw.
    intros Ha Hg. destruct a as [r'|]; [|done]. cbn [updated].
    destruct (decide ((digest scope, rk_identity kind r) = k)) as [<-|Hne].
    + rewrite bool_decide_true, lookup_insert_eq by done. exists r. split; [done|]. simplify_eq. lia.
    + rewrite bool_decide_false, lookup_insert_ne by done. exists r0. split; [done|]. lia.
Qed.

Lemma register_versions cs : forall g l k r0,
  Forall2 answers l (register_run kind cs g).1 -> g !! k = Some r0 ->
  exists r1, (register_run kind cs g).2 !! k = Some r1 /\
    rk_version kind r1 = (rk_version kind r0 + Z.of_nat (count_updates k cs l))%Z.
Proof.
  induction cs as [|[c sqlite] cs IH]; intros g l k r0 Hl Hg; cbn [register_run] in *.
  { exists r0. split; [done|]. cbn in Hl. apply Forall2_nil_inv_r in Hl as ->. cbn. lia. }
  pose proof (fun a => register_version c sqlite a g k r0) as Hv.
  destruct (if well_addressed kind c && sqlite then register_answer kind c g else (None, g)) as [o g1].
  destruct (register_run kind cs g1) as [l' g2] eqn:Hrun. cbn [fst snd] in *.
  apply Forall2_cons_inv_r in Hl as (a & l0 & Ha & Hl0 & ->).
  destruct (Hv a Ha Hg) as (r1 & Hg1 & Hv1). specialize (IH g1 l0 k r1). rewrite Hrun in IH. cbn [fst snd] in IH.
  destruct (IH Hl0 Hg1) as (r2 & Hg2 & Hv2). exists r2. split; [done|].
  unfold count_updates in *. cbn [zip zip_with]. rewrite Hv2, Hv1. rewrite filter_cons. cbn [fst snd].
  destruct (updated k c a); cbn; [rewrite decide_True by done; cbn; lia|].
  rewrite decide_False by done. lia.
Qed.

End histories.

(** ** Answers of single calls *)

Section answers.
Context `{Sha256} {R : Type} `{RecordCodec R} (kind : record_kind R).

(** An error of the store. *)
Definition store_error (e : activation_exn) : Prop := exists k msg, e = ActivationError k msg.

Lemma record_bytes_answers r : match record_bytes r with Ok b => b = encode r | Raise e => store_error e end.
Proof. rewrite record_bytes_fits. destruct (_ <=? _)%Z; [done|]. do 2 eexists; reflexivity. Qed.

Lemma stored_record_answers value scope e : stored_record kind value scope = Raise e -> store_error e.
Proof.
  unfold stored_record. destruct (decode value) as [r|]; [|intros [= <-]; do 2 eexists; reflexivity].
  destruct (negb _); [intros [= <-]; do 2 eexists; reflexivity|].
  pose proof (record_bytes_answers r) as Hr. destruct (record_bytes r) as [b|x]; cbn; [|by intros [= <-]].
  destruct (bool_decide _); [done|]. intros [= <-]. do 2 eexists; reflexivity.
Qed.

Lemma read_record_answers sqlite scope identity t :
  match read_record kind sqlite scope identity t with Ok _ => True | Raise e => store_error e end.
Proof.
  unfold read_record. destruct (negb sqlite); [do 2 eexists; reflexivity|].
  destruct (t !! _) as [row|]; [|do 2 eexists; reflexivity].
  destruct (stored_record kind (row_payload row) scope) as [r|e] eqn:Hr; cbn; [|by eapply stored_record_answers].
  destruct (bool_decide _); [done|]. do 2 eexists; reflexivity.
Qed.

(** An update that is answered returns the record it was given. *)
Lemma update_record_answers sqlite scope r v t :
  match (update_record kind sqlite scope r v t).1 with Ok r' => r' = r | Raise e => store_error e end.
Proof.
  unfold update_record, require_scope. destruct (bool_decide (rk_scope_digest kind r = _)); cbn [mbind result_bind];
    [|do 2 eexists; reflexivity].
  destruct (negb _); [do 2 eexists; reflexivity|].
  pose proof (record_bytes_answers r) as Hr. destruct (record_bytes r) as [b|x]; [|done].
  destruct (negb sqlite); [do 2 eexists; reflexivity|]. destruct (t !! _) as [row|]; [|do 2 eexists; reflexivity].
  destruct (bool_decide _); [done|]. do 2 eexists; reflexivity.
Qed.
End answers.

(** ** Samples *)

#[export] Instance PublicationState_eq_dec : EqDecision PublicationState.
Proof. solve_decision. Defined.
#[export] Instance PublicationRecord_eq_dec : EqDecision PublicationRecord.
Proof. solve_decision. Defined.

Definition state_code (s : PublicationState) : nat :=
  match s with PUBLICATION_PENDING => 0 | PUBLICATION_APPLIED => 1 | PUBLICATION_FAILED => 2 end.

Definition code_state (n : nat) : PublicationState :=
  match n with 0 => PUBLICATION_PENDING | 1 => PUBLICATION_APPLIED | _ => PUBLICATION_FAILED end.

Definition error_code (c : PublicationErrorCode) : nat :=
  match c with INVALID_CONFIGURATION => 0 | CONFLICT => 1 | CATALOG_UNAVAILABLE => 2 | STORE_UNAVAILABLE => 3 end.

Definition code_error (n : nat) : PublicationErrorCode :=
  match n with 0 => INVALID_CONFIGURATION | 1 => CONFLICT | 2 => CATALOG_UNAVAILABLE | _ => STORE_UNAVAILABLE end.

Definition publication_fields (r : PublicationRecord) :=
  ((pr_publication_id r, pr_scope_digest r, pr_idempotency_key_digest r, pr_request_digest r),
   (pr_actor_digest r, pr_correlation_digest r, pr_policy_digest r, pr_source_parent_revision_id r),
   (pr_expected_active_revision_id r, pr_source_revision_id r, pr_published_revision_id r),
   (state_code (pr_state r), error_code <$> pr_error_code r, pr_version r, pr_created_at r, pr_updated_at r)).

Definition fields_publication (f : _) : PublicationRecord :=
  let '((a, b, c, d), (e, g, h, i), (j, k, l), (m, n, o, p, q)) := f in
  {| pr_publication_id := a; pr_scope_digest := b; pr_idempotency_key_digest := c; pr_request_digest := d;
     pr_actor_digest := e; pr_correlation_digest := g; pr_policy_digest := h; pr_source_parent_revision_id := i;
     pr_expected_active_revision_id := j; pr_source_revision_id := k; pr_published_revision_id := l;
     pr_state := code_state m; pr_error_code := code_error <$> n; pr_version := o; pr_created_at := p;
     pr_updated_at := q |}.

#[export] Instance PublicationRecord_countable : Countable PublicationRecord.
Proof.
  refine (inj_countable' publication_fields fields_publication _).
  intros [? ? ? ? ? ? ? ? ? ? ? [] [[]|] ? ? ?]; reflexivity.
Defined.

(** A codec for concrete runs: the binary digits of the number of the record. *)
Fixpoint binary_text (p : positive) : string :=
  match p with xH => "" | xO p => String "0" (binary_text p) | xI p => String "1" (binary_text p) end.

Fixpoint text_binary (s : string) : positive :=
  match s with
  | EmptyString => xH
  | String c s => if bool_decide (c = "0"%char) then xO (text_binary s) else xI (text_binary s)
  end.

Lemma text_binary_text p : text_binary (binary_text p) = p.
Proof. induction p as [p IH|p IH|]; cbn; by rewrite ?IH. Qed.

Definition sample_encode (r : PublicationRecord) : string := binary_text (countable.encode r).
Definition sample_decode (s : string) : option PublicationRecord := countable.decode (text_binary s).

#[export] Instance sample_codec : RecordCodec PublicationRecord.
Proof.
  refine {| encode := sample_encode; decode := sample_decode |}. intros r. unfold sample_decode, sample_encode.
  rewrite text_binary_text. apply countable.decode_encode.
Defined.

#[local] Existing Instance sample_sha256.

Definition sample_publication (version : Z) : PublicationRecord := {|
  pr_publication_id := "p"; pr_scope_digest := digest sample_scope; pr_idempotency_key_digest := "k";
  pr_request_digest := "r"; pr_actor_digest := "a"; pr_correlation_digest := "c"; pr_policy_digest := "q";
  pr_source_parent_revision_id := None; pr_expected_active_revision_id := None; pr_source_revision_id := None;
  pr_published_revision_id := None; pr_state := PUBLICATION_PENDING; pr_error_code := None;
  pr_version := version; pr_created_at := 0; pr_updated_at := 0 |}.

Definition sample_updates : list (store_call * bool) :=
  [(CallUpdate sample_scope (sample_publication 2) 1, true);
   (CallUpdate sample_scope (sample_publication 2) 1, true);
   (CallUpdate sample_scope (sample_publication 3) 2, true)].

