(* ===== verification/ActivationController.v ===== *)
(** The controller of activations ([runtime/configuration_activation.py]): one method per
    definition, over an environment that holds the stores, the catalog, the bindings to
    workers and schedules and the clock.  The world [W] is whatever the environment and
    other controllers change between two calls. *)

From S2P Require Export RuntimeIndex.

(** ** Computations over the world *)

(** A call: it may raise, and keeps what it changed. *)
Definition CM (W A : Type) : Type := W -> ares A * W.

#[export] Instance CM_ret W : MRet (CM W) := fun A a w => (Ok a, w).

#[export] Instance CM_bind W : MBind (CM W) :=
  fun A B f m w => match m w with (Ok a, w') => f a w' | (Raise e, w') => (Raise e, w') end.

Definition raise_exn {W A} (e : activation_exn) : CM W A := fun w => (Raise e, w).

(** A function that reads nothing of the world. *)
Definition lift {W A} (r : ares A) : CM W A := fun w => (r, w).

(** [try: m; except: h] *)
Definition catch_exn {W A} (m : CM W A) (h : activation_exn -> CM W A) : CM W A :=
  fun w => match m w with (Raise e, w') => h e w' | r => r end.

(** The exception is an [Exception]: a cancellation is not. *)
Definition catchable (e : activation_exn) : bool :=
  match e with
  | PyError e => match exn_cls e with AsyncioCancelledError => false | _ => true end
  | _ => true
  end.

Definition controller_error {W A} (code : ActivationOutcomeCode) (msg : string) (retryable : bool) : CM W A :=
  raise_exn (ActivationControllerError code msg retryable).

(** ** The environment *)

(** [ExternalOperationConfirmation] *)
Record ExternalOperationConfirmation := {
  cf_outcome : ActivationExternalOutcome;
  cf_observation_digest : string;
}.

(** [WorkerDeploymentObservation] *)
Record WorkerDeploymentObservation := {
  wo_observation_digest : string;
  wo_registered_definition_digests : gset string;
  wo_active_artifact : option WorkerArtifactIdentity;
}.

(** [CatalogState]: the aliases of the catalog and their version. *)
Record CatalogState := {
  cs_aliases : list (string * string);
  cs_alias_version : option string;
}.

(** [WorkerDeploymentBinding] *)
Record WorkerDeploymentBinding (W : Type) := {
  wb_observe : RuntimeScope -> CM W WorkerDeploymentObservation;
  wb_rollout : PreparedWorkerDeployment -> string -> CM W ExternalOperationConfirmation;
  wb_readiness : PreparedWorkerDeployment -> CM W (option WorkerReadinessRegistration);
  wb_route : PreparedActivation -> string -> CM W ExternalOperationConfirmation;
}.

Arguments wb_observe {W} _ _.
Arguments wb_rollout {W} _ _ _.
Arguments wb_readiness {W} _ _.
Arguments wb_route {W} _ _ _.

(** [ScheduleActivationBinding] *)
Record ScheduleActivationBinding (W : Type) := {
  sb_observe : RuntimeScope -> CM W string;
  sb_reconcile : PreparedActivation -> CM W ExternalOperationConfirmation;
}.

Arguments sb_observe {W} _ _.
Arguments sb_reconcile {W} _ _.

(** What the controller is given. *)
Class ActivationEnvironment (W : Type) := {
  (** the admission of [run_blocking], which may refuse *)
  take_slot : CM W unit;
  (** the clock; [None] is a time without a zone *)
  clock : CM W (option Z);
  timestamp_text : Z -> string;
  (** [ActivationStore] *)
  read_activation : RuntimeScope -> string -> CM W ActivationRecord;
  create_activation : RuntimeScope -> ActivationRecord -> CM W ActivationRecord;
  update_activation : RuntimeScope -> ActivationRecord -> Z -> CM W ActivationRecord;
  (** [ConfigurationStore] *)
  read_revision : RuntimeScope -> string -> CM W RevisionRecord;
  read_active : RuntimeScope -> CM W (option ActivePointer);
  compare_and_swap_active : RuntimeScope -> string -> option string -> option Z -> CM W ActivePointer;
  (** [ActivationPreparationSource] *)
  prepare : RuntimeScope -> RevisionRecord -> CM W PreparedActivation;
  prepare_worker_deployment : PreparedActivation -> CM W PreparedWorkerDeployment;
  (** [DefinitionCatalogSource] and [DefinitionCatalogStore] *)
  Catalog : Type;
  read_catalog : RuntimeScope -> CM W Catalog;
  inspect : Catalog -> CM W CatalogState;
  store_definition_manifest : Catalog -> DefinitionManifest -> CM W unit;
  store_environment_snapshot : Catalog -> ExecutionEnvironmentSnapshot -> CM W unit;
  replace_aliases : Catalog -> list (string * string) -> option string -> CM W string;
  worker_binding : option (WorkerDeploymentBinding W);
  schedule_binding : option (ScheduleActivationBinding W);
  (** [PreparedRuntimeIndex], shared with the rest of the process *)
  get_runtime_index : W -> PreparedRuntimeIndex;
  set_runtime_index : PreparedRuntimeIndex -> W -> W;
}.

Definition run_blocking `{ActivationEnvironment W} {A} (m : CM W A) : CM W A := _ ← take_slot; m.

(** [for a in l: f(a)] *)
Fixpoint each {W A} (f : A -> CM W unit) (l : list A) : CM W unit :=
  match l with [] => mret tt | a :: l => _ ← f a; each f l end.

(** A call of a binding: what is not the controller's own error becomes one. *)
Definition binding_call {W A} (code : ActivationOutcomeCode) (msg : string) (m : CM W A) : CM W A :=
  catch_exn m (fun e =>
    match e with
    | ActivationControllerError _ _ _ => raise_exn e
    | _ => if catchable e then controller_error code msg true else raise_exn e
    end).

(** [_has_checkpoint] *)
Definition has_checkpoint (record : ActivationRecord) (kind : ActivationCheckpointKind) : bool :=
  existsb (fun c => bool_decide (ck_kind c = kind)) (ar_checkpoints record).

(** [_resolved_bundle] *)
Definition resolved_bundle (record : RevisionRecord) : ares ConfigurationBundle :=
  match rv_bundle record with
  | ResolvedBundle b => Ok b
  | TenantConfiguration =>
      Raise (ActivationError ActivationIntegrityError
               "Activation revision is not a resolved configuration bundle")
  end.

(** [_validate_worker_readiness] *)
Definition validate_worker_readiness (record : ActivationRecord) (prepared : PreparedActivation) : ares unit :=
  match ar_worker_readiness record with
  | None => Raise (ActivationError ActivationIntegrityError "Worker readiness was not registered")
  | Some readiness =>
      if bool_decide (wr_task_queue_identity_digest readiness = pa_task_queue_identity_digest prepared)
      then Ok tt
      else Raise (ActivationControllerError WORKER_UNAVAILABLE
                    "Worker readiness targets an incompatible task queue" false)
  end.

(** [ActivePointer.model_dump(mode="json")] *)
Definition pointer_dump (p : ActivePointer) : json :=
  JDict [("scope_digest", JStr (ptr_scope_digest p)); ("revision_id", JStr (ptr_revision_id p));
         ("version", JInt (ptr_version p))].

Section controller.
Context `{Sha256, FloatRepr} {W : Type} `{ActivationEnvironment W}.

(** [self._controller_digest] and [self._lease_duration] *)
Context (controller_digest : string) (lease_duration : Z).

(** [WorkerReadinessRegistration.model_dump(mode="json")] *)
Definition readiness_dump (r : WorkerReadinessRegistration) : json :=
  JDict [("configuration_revision_id", JStr (wr_configuration_revision_id r));
         ("artifact", artifact_dump (wr_artifact r));
         ("definition_digests", JList (map JStr (wr_definition_digests r)));
         ("task_queue_identity_digest", JStr (wr_task_queue_identity_digest r));
         ("deployment_registration_digest", JStr (wr_deployment_registration_digest r));
         ("registered_at", JStr (timestamp_text (wr_registered_at r)))].

(** ** Records *)

(** [_now] *)
Definition now : CM W Z :=
  value ← clock;
  match value with
  | Some t => mret t
  | None => raise_exn (ActivationError ActivationUnavailableError "Activation clock must be timezone-aware")
  end.

(** [_acquire] *)
Definition acquire (scope : RuntimeScope) (record : ActivationRecord) : CM W ActivationRecord :=
  t ← now;
  leased ←
    lift (match acquire_activation_lease record controller_digest t (t + lease_duration) with
          | Raise (PyError _) =>
              Raise (ActivationError (ActivationConflictError (ar_activation_id record))
                       "Activation state changed concurrently")
          | r => r
          end);
  update_activation scope leased (ar_version record).

(** [_release] *)
Definition release_lease (scope : RuntimeScope) (record : ActivationRecord) : CM W ActivationRecord :=
  match ar_lease_owner_digest record with
  | None => mret record
  | Some _ =>
      t ← now;
      released ← lift (release_activation_lease record controller_digest t);
      update_activation scope released (ar_version record)
  end.

(** [_transition] *)
Definition transition (scope : RuntimeScope) (record : ActivationRecord) (state : ActivationState)
    (outcome : option ActivationOutcomeCode) (release : bool) : CM W ActivationRecord :=
  t ← now;
  updated ← lift (transition_activation record state t outcome release);
  update_activation scope updated (ar_version record).

(** [_checkpoint] *)
Definition checkpoint (scope : RuntimeScope) (record : ActivationRecord) (kind : ActivationCheckpointKind)
    (confirmation : ExternalOperationConfirmation) : CM W ActivationRecord :=
  t ← now;
  updated ← lift (record_activation_checkpoint record kind (cf_outcome confirmation)
                    (cf_observation_digest confirmation) t);
  if bool_decide (updated = record) then mret record
  else update_activation scope updated (ar_version record).

(** [_register_readiness] *)
Definition register_readiness_record (scope : RuntimeScope) (record : ActivationRecord)
    (readiness : WorkerReadinessRegistration) : CM W ActivationRecord :=
  t ← now;
  updated ← lift (register_worker_readiness record readiness t);
  if bool_decide (updated = record) then mret record
  else update_activation scope updated (ar_version record).

(** [_start_or_resume] *)
Definition start_or_resume (scope : RuntimeScope) (record : ActivationRecord) : CM W ActivationRecord :=
  if bool_decide (ar_state record = PENDING) || bool_decide (ar_state record = FAILED)
  then transition scope record RUNNING None false
  else mret record.

(** [_waiting] *)
Definition waiting (scope : RuntimeScope) (record : ActivationRecord) : CM W ActivationRecord :=
  if bool_decide (ar_state record = WAITING_FOR_READINESS) then release_lease scope record
  else transition scope record WAITING_FOR_READINESS None true.

(** [state in {APPLIED, SUPERSEDED, ROLLED_BACK}] *)
Definition is_settled (s : ActivationState) : bool :=
  bool_decide (s = APPLIED) || bool_decide (s = SUPERSEDED) || bool_decide (s = ROLLED_BACK).

(** [_terminal]; only the identity of the record is read. *)
Definition terminal (scope : RuntimeScope) (activation_id : string) (state : ActivationState)
    (outcome : ActivationOutcomeCode) : CM W ActivationRecord :=
  current ← read_activation scope activation_id;
  if is_settled (ar_state current) then mret current
  else transition scope current state (Some outcome) true.

(** ** Observations and plans *)

(** [ExternalOperationConfirmation(...)] with a digest that the engine computed *)
Definition confirmation (outcome : ActivationExternalOutcome) (observation_digest : string)
  : ExternalOperationConfirmation :=
  {| cf_outcome := outcome; cf_observation_digest := observation_digest |}.

(** [_worker_observation] *)
Definition worker_observation (scope : RuntimeScope) : CM W WorkerDeploymentObservation :=
  match worker_binding with
  | Some binding =>
      binding_call WORKER_UNAVAILABLE "Worker deployment observation is unavailable"
        (wb_observe binding scope)
  | None => fun w =>
      let indexed := snapshot scope (get_runtime_index w) in
      let definitions : gset string :=
        match indexed with
        | Some s => list_to_set ((fun kv => mf_definition_digest (wt_manifest kv.2)) <$> ri_targets s)
        | None => ∅
        end in
      (Ok {| wo_observation_digest := provenance_digest (JDict [
               ("artifact", match indexed with Some s => artifact_dump (ri_artifact s) | None => JNull end);
               ("definitions", JList (map JStr (sorted_strings (elements definitions))));
               ("scope_digest", JStr (digest scope))]);
             wo_registered_definition_digests := definitions;
             wo_active_artifact := ri_artifact <$> indexed |}, w)
  end.

(** [_schedule_observation] *)
Definition schedule_observation (scope : RuntimeScope) : CM W string :=
  match schedule_binding with
  | None => mret (provenance_digest (JDict [("binding", JStr "unavailable"); ("scope_digest", JStr (digest scope))]))
  | Some binding =>
      binding_call SCHEDULES_UNAVAILABLE "Schedule observation is unavailable"
        (observed ← sb_observe binding scope;
         _ ← lift (valid_if (provenance_field observed) "observation");
         mret observed)
  end.

(** [_read_worker_readiness]; the prepared deployment is made when it is not given. *)
Definition read_worker_readiness (scope : RuntimeScope) (record : ActivationRecord)
    (prepared : CM W PreparedWorkerDeployment) : CM W (option WorkerReadinessRegistration) :=
  match ar_worker_readiness record with
  | Some readiness => mret (Some readiness)
  | None =>
      match worker_binding with
      | None => mret None
      | Some binding =>
          materialized ← prepared;
          binding_call WORKER_UNAVAILABLE "Worker readiness observation is unavailable"
            (wb_readiness binding materialized)
      end
  end.

(** The end of [plan]: the observations and the plan made of them. *)
Definition plan_from (scope : RuntimeScope) (target_revision_id : string) (prepared : PreparedActivation)
    (worker_deployment : PreparedWorkerDeployment) (active_pointer : option ActivePointer)
    (active_bundle : option ConfigurationBundle) (catalog : CatalogState)
    (worker : WorkerDeploymentObservation) (schedule_digest : string) (index : PreparedRuntimeIndex)
  : ares ActivationPlan :=
  let indexed :=
    match snapshot scope index, active_pointer with
    | Some s, Some pointer => if bool_decide (ri_revision_id s = ptr_revision_id pointer) then Some s else None
    | _, _ => None
    end in
  let active_artifact :=
    match indexed with Some s => Some (ri_artifact s) | None => wo_active_artifact worker end in
  let observations := {|
    ob_active_pointer_version := ptr_version <$> active_pointer;
    ob_catalog_alias_version := cs_alias_version catalog;
    ob_policy_digest := pa_policy_digest prepared;
    ob_worker_observation_digest := wo_observation_digest worker;
    ob_schedule_observation_digest := schedule_digest;
    ob_registered_definition_digests := wo_registered_definition_digests worker |} in
  _ ← valid_if (ActivationObservations_fields observations) "field";
  bundle ← pa_bundle prepared;
  registration ← registration_digest worker_deployment;
  plan_configuration_activation (digest scope) target_revision_id bundle (pa_artifact prepared)
    (pa_task_queue_identity_digest prepared) registration
    (fold_left (fun d kv => dict_set kv.1 kv.2 d)
       (pd_assignments worker_deployment ≫= fun assignment =>
          (fun kv => (digest (pa_scope assignment) +:+ ":" +:+ kv.1, mf_definition_digest kv.2))
            <$> pa_manifests assignment) [])
    observations (ptr_revision_id <$> active_pointer) active_bundle active_artifact
    (ri_policy_digest <$> indexed).

(** The index, as it is when it is read. *)
Definition read_index : CM W PreparedRuntimeIndex := fun w => (Ok (get_runtime_index w), w).

(** [plan] *)
Definition plan (scope : RuntimeScope) (target_revision_id : string) : CM W ActivationPlan :=
  target ← run_blocking (read_revision scope target_revision_id);
  prepared ← run_blocking (prepare scope target);
  worker_deployment ← run_blocking (prepare_worker_deployment prepared);
  active_pointer ← run_blocking (read_active scope);
  active_bundle ←
    match active_pointer with
    | Some pointer =>
        active_revision ← run_blocking (read_revision scope (ptr_revision_id pointer));
        b ← lift (resolved_bundle active_revision);
        mret (Some b)
    | None => mret None
    end;
  catalog ← run_blocking (c ← read_catalog scope; inspect c);
  worker ← worker_observation scope;
  schedule_digest ← schedule_observation scope;
  index ← read_index;
  lift (plan_from scope target_revision_id prepared worker_deployment active_pointer active_bundle
          catalog worker schedule_digest index).

(** [_prepare_record] *)
Definition prepare_record (scope : RuntimeScope) (record : ActivationRecord)
  : CM W (PreparedActivation * PreparedWorkerDeployment) :=
  revision ← read_revision scope (ap_target_revision_id (ar_plan record));
  prepared ← prepare scope revision;
  worker_deployment ← prepare_worker_deployment prepared;
  let p := ar_plan record in
  let stale := controller_error STALE_PLAN "Prepared runtime inputs no longer match the activation plan" false in
  if negb (bool_decide (pa_policy_digest prepared = ap_policy_digest p)
           && bool_decide (pa_artifact prepared = ap_target_artifact p)
           && bool_decide (pa_task_queue_identity_digest prepared = ap_target_task_queue_identity_digest p))
  then stale
  else
    registration ← lift (registration_digest worker_deployment);
    if negb (bool_decide (registration = ap_target_worker_registration_digest p)
             && bool_decide (pd_definition_digests worker_deployment = ap_target_definition_digests p))
    then stale
    else mret (prepared, worker_deployment).

(** ** The stages of an activation *)

(** [_store_definition_objects] *)
Definition store_definition_objects (scope : RuntimeScope) (record : ActivationRecord)
    (prepared : PreparedWorkerDeployment) : CM W ActivationRecord :=
  if has_checkpoint record CHECKPOINT_DEFINITIONS then mret record
  else
    _ ← each (fun assignment =>
           catalog ← read_catalog (pa_scope assignment);
           _ ← each (fun kv => store_definition_manifest catalog kv.2) (pa_manifests assignment);
           each (fun kv => store_environment_snapshot catalog kv.2) (pa_environment_snapshots assignment))
         (pd_assignments prepared);
    registration ← lift (registration_digest prepared);
    checkpoint scope record CHECKPOINT_DEFINITIONS
      (confirmation CONFIRMED (provenance_digest (JDict [
         ("definitions", JList (map JStr (pd_definition_digests prepared)));
         ("registrations", JStr registration)]))).

(** The end of [_ensure_worker_ready], once the record holds the readiness. *)
Definition confirm_worker_ready (scope : RuntimeScope) (record : ActivationRecord)
    (prepared : PreparedActivation) : CM W ActivationRecord :=
  _ ← lift (validate_worker_readiness record prepared);
  if has_checkpoint record CHECKPOINT_WORKER_READINESS then mret record
  else
    run_blocking (checkpoint scope record CHECKPOINT_WORKER_READINESS
      (confirmation CONFIRMED (provenance_digest
         match ar_worker_readiness record with Some r => readiness_dump r | None => JDict [] end))).

(** [_ensure_worker_ready] from the readiness of the record. *)
Definition await_worker_ready (scope : RuntimeScope) (record : ActivationRecord)
    (prepared : PreparedActivation) (worker_deployment : PreparedWorkerDeployment) : CM W ActivationRecord :=
  match ar_worker_readiness record with
  | Some _ => confirm_worker_ready scope record prepared
  | None =>
      readiness ← read_worker_readiness scope record (mret worker_deployment);
      match readiness with
      | None => run_blocking (waiting scope record)
      | Some readiness =>
          record ← run_blocking (register_readiness_record scope record readiness);
          confirm_worker_ready scope record prepared
      end
  end.

(** [_ensure_worker_ready] *)
Definition ensure_worker_ready (scope : RuntimeScope) (record : ActivationRecord)
    (prepared : PreparedActivation) (worker_deployment : PreparedWorkerDeployment) : CM W ActivationRecord :=
  match ap_worker_action (ar_plan record) with
  | WORKER_NONE =>
      if has_checkpoint record CHECKPOINT_WORKER_READINESS then mret record
      else
        run_blocking (checkpoint scope record CHECKPOINT_WORKER_READINESS
          (confirmation IDEMPOTENT (ap_worker_observation_digest (ar_plan record))))
  | WORKER_ROLLOUT =>
      if negb (is_some (ar_worker_readiness record)) && negb (has_checkpoint record CHECKPOINT_WORKER_ROLLOUT)
      then
        match worker_binding with
        | None => run_blocking (waiting scope record)
        | Some binding =>
            confirmed ←
              binding_call WORKER_UNAVAILABLE "Worker rollout binding is unavailable"
                (wb_rollout binding worker_deployment (ap_plan_digest (ar_plan record)));
            record ← run_blocking (checkpoint scope record CHECKPOINT_WORKER_ROLLOUT confirmed);
            await_worker_ready scope record prepared worker_deployment
        end
      else await_worker_ready scope record prepared worker_deployment
  end.

(** [_reconcile_schedules] *)
Definition reconcile_schedules (scope : RuntimeScope) (record : ActivationRecord)
    (prepared : PreparedActivation) : CM W ActivationRecord :=
  if bool_decide (ap_schedule_action (ar_plan record) = SCHEDULES_NONE)
     || has_checkpoint record CHECKPOINT_SCHEDULES
  then mret record
  else
    match schedule_binding with
    | None =>
        controller_error SCHEDULES_UNAVAILABLE
          "Schedule reconciliation is unavailable for this runtime scope" true
    | Some binding =>
        confirmed ←
          binding_call SCHEDULES_UNAVAILABLE "Schedule reconciliation binding is unavailable"
            (sb_reconcile binding prepared);
        run_blocking (checkpoint scope record CHECKPOINT_SCHEDULES confirmed)
    end.

(** [d == e] on dicts of texts *)
Definition same_aliases (d e : list (string * string)) : bool :=
  bool_decide (list_to_map d =@{gmap string string} list_to_map e).

(** [_switch_catalog] *)
Definition switch_catalog (scope : RuntimeScope) (record : ActivationRecord)
    (prepared : PreparedActivation) : CM W ActivationRecord :=
  if bool_decide (ap_definition_action (ar_plan record) = DEFINITIONS_NONE)
     || has_checkpoint record CHECKPOINT_CATALOG_ROUTING
  then mret record
  else
    let aliases := map (fun kv => (kv.1, mf_definition_digest kv.2)) (pa_manifests prepared) in
    catalog ← read_catalog scope;
    inspected ← inspect catalog;
    ov ←
      (if same_aliases (cs_aliases inspected) aliases
       then mret (IDEMPOTENT, cs_alias_version inspected)
       else if negb (bool_decide (cs_alias_version inspected = ap_expected_catalog_alias_version (ar_plan record)))
       then raise_exn (CatalogError true "Definition catalog aliases changed after planning")
       else
         version ← replace_aliases catalog aliases (ap_expected_catalog_alias_version (ar_plan record));
         mret (CONFIRMED, Some version));
    checkpoint scope record CHECKPOINT_CATALOG_ROUTING
      (confirmation ov.1 (provenance_digest (JDict [
         ("aliases", JDict (map (fun kv => (kv.1, JStr kv.2)) aliases));
         ("version", opt_json ov.2)]))).

(** [_switch_worker_routing] *)
Definition switch_worker_routing (scope : RuntimeScope) (record : ActivationRecord)
    (prepared : PreparedActivation) : CM W ActivationRecord :=
  if bool_decide (ap_routing_action (ar_plan record) = ROUTING_NONE)
     || has_checkpoint record CHECKPOINT_WORKER_ROUTING
  then mret record
  else
    confirmed ←
      match worker_binding with
      | None =>
          mret (confirmation IDEMPOTENT
                  match ar_worker_readiness record with
                  | Some r => provenance_digest (readiness_dump r)
                  | None => ap_worker_observation_digest (ar_plan record)
                  end)
      | Some binding =>
          binding_call ROUTING_UNAVAILABLE "Worker routing binding is unavailable"
            (wb_route binding prepared (ap_plan_digest (ar_plan record)))
      end;
    run_blocking (checkpoint scope record CHECKPOINT_WORKER_ROUTING confirmed).

(** The pointer is already the one that the plan leads to. *)
Definition already_advanced (p : ActivationPlan) (current : option ActivePointer) : bool :=
  match current with
  | Some c =>
      bool_decide (ptr_revision_id c = ap_target_revision_id p)
      && bool_decide (ptr_version c
           = match ap_expected_active_pointer_version p with None => 1 | Some v => v + 1 end)%Z
  | None => false
  end.

(** [_advance_active_pointer] *)
Definition advance_active_pointer (scope : RuntimeScope) (record : ActivationRecord) : CM W ActivationRecord :=
  if has_checkpoint record CHECKPOINT_ACTIVE_POINTER then mret record
  else
    let p := ar_plan record in
    current ← read_active scope;
    op ←
      match current with
      | Some c =>
          if already_advanced p current then mret (IDEMPOTENT, c)
          else
            pointer ← compare_and_swap_active scope (ap_target_revision_id p)
                        (ap_expected_active_revision_id p) (ap_expected_active_pointer_version p);
            mret (CONFIRMED, pointer)
      | None =>
          pointer ← compare_and_swap_active scope (ap_target_revision_id p)
                      (ap_expected_active_revision_id p) (ap_expected_active_pointer_version p);
          mret (CONFIRMED, pointer)
      end;
    checkpoint scope record CHECKPOINT_ACTIVE_POINTER
      (confirmation op.1 (provenance_digest (pointer_dump op.2))).

(** The call of [replace] on the shared index. *)
Definition replace_index (scope : RuntimeScope) (prepared : PreparedActivation) (bundle : ConfigurationBundle)
  : CM W unit := fun w =>
  match replace scope (rv_revision_id (pa_revision prepared)) (pa_policy_digest prepared)
          (pa_artifact prepared) (pa_start_targets prepared) (bu_triggers bundle) (get_runtime_index w) with
  | Ok index => (Ok tt, set_runtime_index index w)
  | Raise e => (Raise e, w)
  end.

(** [_replace_runtime_index] *)
Definition replace_runtime_index (scope : RuntimeScope) (record : ActivationRecord)
    (prepared : PreparedActivation) : CM W ActivationRecord :=
  if has_checkpoint record CHECKPOINT_RUNTIME_INDEX then mret record
  else
    bundle ← lift (pa_bundle prepared);
    _ ← replace_index scope prepared bundle;
    checkpoint scope record CHECKPOINT_RUNTIME_INDEX
      (confirmation CONFIRMED (provenance_digest (JDict [
         ("definitions", JList (map JStr (pa_definition_digests prepared)));
         ("revision_id", JStr (rv_revision_id (pa_revision prepared)));
         ("scope_digest", JStr (digest scope))]))).

(** ** The methods *)

(** The second half of the [try] block of [resume], where the record is running. *)
Definition run_stages (scope : RuntimeScope) (record : ActivationRecord) : CM W ActivationRecord :=
  pw ← run_blocking (prepare_record scope record);
  let '(prepared, worker_deployment) := pw in
  record ← run_blocking (store_definition_objects scope record worker_deployment);
  record ← ensure_worker_ready scope record prepared worker_deployment;
  if bool_decide (ar_state record = WAITING_FOR_READINESS) then mret record
  else
    record ← reconcile_schedules scope record prepared;
    record ← run_blocking (switch_catalog scope record prepared);
    record ← switch_worker_routing scope record prepared;
    record ← run_blocking (advance_active_pointer scope record);
    record ← run_blocking (replace_runtime_index scope record prepared);
    run_blocking (transition scope record APPLIED None true).

(** The [try] block of [resume]. *)
Definition run_activation (scope : RuntimeScope) (record : ActivationRecord) : CM W ActivationRecord :=
  record ← run_blocking (start_or_resume scope record);
  if bool_decide (ar_state record = WAITING_FOR_READINESS) then
    match ar_worker_readiness record with
    | Some _ =>
        record ← run_blocking (transition scope record RUNNING None false);
        run_stages scope record
    | None =>
        readiness ← read_worker_readiness scope record
                      (pw ← run_blocking (prepare_record scope record); mret pw.2);
        match readiness with
        | None => run_blocking (release_lease scope record)
        | Some readiness =>
            record ← run_blocking (register_readiness_record scope record readiness);
            record ← run_blocking (transition scope record RUNNING None false);
            run_stages scope record
        end
    end
  else run_stages scope record.

(** The [except] clauses of [resume]. *)
Definition settle_failure (scope : RuntimeScope) (activation_id : string) (e : activation_exn)
  : CM W ActivationRecord :=
  match e with
  | ConfigurationError true _ =>
      run_blocking (terminal scope activation_id SUPERSEDED CONFIGURATION_CONFLICT)
  | CatalogError true _ => run_blocking (terminal scope activation_id SUPERSEDED STALE_PLAN)
  | ActivationControllerError code _ _ =>
      _ ← run_blocking (terminal scope activation_id FAILED code);
      raise_exn e
  | CatalogError false _ =>
      _ ← run_blocking (terminal scope activation_id FAILED DEFINITIONS_UNAVAILABLE);
      controller_error DEFINITIONS_UNAVAILABLE "Definition catalog could not complete activation" true
  | ConfigurationError false _ =>
      _ ← run_blocking (terminal scope activation_id FAILED INTERNAL_ERROR);
      controller_error INTERNAL_ERROR "Resolved configuration could not be activated" false
  | _ => raise_exn e
  end.

(** [resume] *)
Definition resume (scope : RuntimeScope) (activation_id : string) : CM W ActivationRecord :=
  record ← run_blocking (read_activation scope activation_id);
  if is_settled (ar_state record) then mret record
  else
    record ← run_blocking (acquire scope record);
    catch_exn (run_activation scope record) (settle_failure scope (ar_activation_id record)).

(** The new record of [activate]. *)
Definition pending_activation (scope : RuntimeScope) (identity idempotency_key actor_identity
    correlation_identity : string) (rollback_of_activation_id : option string) (planned : ActivationPlan)
    (request_digest : string) (t : Z) : ares ActivationRecord :=
  key_digest ← control_identity_digest "activation-key" idempotency_key;
  actor_digest ← control_identity_digest "activation-actor" actor_identity;
  correlation_digest ← control_identity_digest "activation-correlation" correlation_identity;
  make_activation {|
    ar_activation_id := identity; ar_scope_digest := digest scope;
    ar_idempotency_key_digest := key_digest; ar_request_digest := request_digest;
    ar_actor_digest := actor_digest; ar_correlation_digest := correlation_digest;
    ar_plan := planned; ar_state := PENDING; ar_version := 1; ar_transitions := []; ar_checkpoints := [];
    ar_lease_owner_digest := None; ar_lease_expires_at := None; ar_worker_readiness := None;
    ar_rollback_of_activation_id := rollback_of_activation_id; ar_outcome_code := None;
    ar_created_at := t; ar_updated_at := t |}.

(** The digest of the request of [activate]. *)
Definition activate_request_digest (planned : ActivationPlan) (rollback_of_activation_id : option string)
  : string :=
  provenance_digest (JDict [
    ("activation", JStr (activation_request_digest planned));
    ("rollback_of_activation_id", opt_json rollback_of_activation_id)]).

Definition conflict {A} (identity : string) : CM W A :=
  raise_exn (ActivationError (ActivationConflictError identity) "Activation state changed concurrently").

(** [activate] *)
Definition activate (scope : RuntimeScope) (target_revision_id plan_digest idempotency_key actor_identity
    correlation_identity : string) (rollback_of_activation_id : option string) : CM W ActivationRecord :=
  identity ← lift (activation_identity (digest scope) idempotency_key);
  actor_digest ← lift (control_identity_digest "activation-actor" actor_identity);
  existing ←
    catch_exn (r ← run_blocking (read_activation scope identity); mret (Some r))
      (fun e => match e with ActivationError ActivationNotFoundError _ => mret None | _ => raise_exn e end);
  match existing with
  | Some existing =>
      if negb (bool_decide (ap_plan_digest (ar_plan existing) = plan_digest)
               && bool_decide (ap_target_revision_id (ar_plan existing) = target_revision_id)
               && bool_decide (ar_rollback_of_activation_id existing = rollback_of_activation_id)
               && bool_decide (ar_actor_digest existing = actor_digest))
      then conflict identity
      else resume scope identity
  | None =>
      planned ← plan scope target_revision_id;
      if negb (bool_decide (ap_plan_digest planned = plan_digest))
      then controller_error STALE_PLAN "Activation plan no longer matches current runtime observations" false
      else
        t ← now;
        let request_digest := activate_request_digest planned rollback_of_activation_id in
        pending ← lift (pending_activation scope identity idempotency_key actor_identity
                          correlation_identity rollback_of_activation_id planned request_digest t);
        record ← run_blocking (create_activation scope pending);
        if negb (bool_decide (ar_request_digest record = request_digest))
        then conflict (ar_activation_id record)
        else resume scope (ar_activation_id record)
  end.

(** [register_readiness] *)
Definition register_readiness (scope : RuntimeScope) (activation_id : string)
    (registration : WorkerReadinessRegistration) : CM W ActivationRecord :=
  record ← run_blocking (read_activation scope activation_id);
  t ← now;
  updated ← lift (register_worker_readiness record registration t);
  _ ← (if bool_decide (updated = record) then mret record
       else run_blocking (update_activation scope updated (ar_version record)));
  resume scope activation_id.

(** [rollback] *)
Definition rollback (scope : RuntimeScope) (activation_id plan_digest idempotency_key actor_identity
    correlation_identity : string) : CM W ActivationRecord :=
  original ← run_blocking (read_activation scope activation_id);
  if negb (bool_decide (ar_state original = APPLIED) || bool_decide (ar_state original = ROLLED_BACK))
  then conflict (ar_activation_id original)
  else
    match ap_expected_active_revision_id (ar_plan original) with
    | None =>
        controller_error CONFIGURATION_CONFLICT "Activation has no retained predecessor revision" false
    | Some target_revision_id =>
        rolled ← activate scope target_revision_id plan_digest idempotency_key actor_identity
                   correlation_identity (Some (ar_activation_id original));
        if bool_decide (ar_state rolled = APPLIED) && bool_decide (ar_state original = APPLIED) then
          t ← now;
          updated ← lift (transition_activation original ROLLED_BACK t None false);
          _ ← catch_exn (run_blocking (update_activation scope updated (ar_version original)))
                (fun e =>
                   match e with
                   | ActivationError (ActivationConflictError _) _ =>
                       current ← run_blocking (read_activation scope (ar_activation_id original));
                       if bool_decide (ar_state current = ROLLED_BACK) then mret current else raise_exn e
                   | _ => raise_exn e
                   end);
          mret rolled
        else mret rolled
    end.
End controller.

(** [ConfigurationActivationController.__init__]: the digest of the controller and the
    duration of its leases. *)
Definition new_controller `{Sha256} (controller_identity : string) (lease_duration : Z) : ares (string * Z) :=
  if (lease_duration <=? 0)%Z then value_error "Activation lease duration must be positive"
  else
    d ← control_identity_digest "activation-controller" controller_identity;
    Ok (d, lease_duration).
