(* ===== verification/ActivationControllerFacts.v ===== *)
(** The controller of activations does things in order.  Its calls are observed through
    an environment that logs them, whatever the environment underneath does. *)

From S2P Require Export ActivationController ActivationStore.

(** ** Observed environments *)

(** What is observed: a record that the store returned, a record that the store is asked
    to write, and the calls that change something outside. *)
Inductive event :=
| Held (r : ActivationRecord)
| Writing (r : ActivationRecord)
| Storing
| RollingOut (d : PreparedWorkerDeployment) (plan_digest : string)
| Reconciling (p : PreparedActivation)
| ReplacingAliases (expected_version : option string)
| Routing (p : PreparedActivation) (plan_digest : string)
| Advancing (target : string) (expected : option string) (expected_version : option Z)
| Indexing.

(** The latest event is first. *)
Abbreviation log := (list event).

(** [m] on the world below. *)
Definition below {W A} (m : CM W A) : CM (W * log) A :=
  fun '(w, l) => let '(r, w') := m w in (r, (w', l)).

(** Logs an event. *)
Definition say {W} (e : event) : CM (W * log) unit := fun '(w, l) => (Ok tt, (w, e :: l)).

Definition announced {W A} (e : event) (m : CM W A) : CM (W * log) A := _ ← say e; below m.

Definition holding {W} (m : CM (W * log) ActivationRecord) : CM (W * log) ActivationRecord :=
  r ← m; _ ← say (Held r); mret r.

(** The environment with its calls logged. *)
Definition observed {W} (E : ActivationEnvironment W) : ActivationEnvironment (W * log) := {|
  take_slot := below take_slot;
  clock := below clock;
  timestamp_text := timestamp_text;
  read_activation scope i := holding (below (read_activation scope i));
  create_activation scope r := holding (announced (Writing r) (create_activation scope r));
  update_activation scope r v := holding (announced (Writing r) (update_activation scope r v));
  read_revision scope i := below (read_revision scope i);
  read_active scope := below (read_active scope);
  compare_and_swap_active scope i e v := announced (Advancing i e v) (compare_and_swap_active scope i e v);
  prepare scope r := below (prepare scope r);
  prepare_worker_deployment p := below (prepare_worker_deployment p);
  Catalog := @Catalog W E;
  read_catalog scope := below (read_catalog scope);
  inspect c := below (inspect c);
  store_definition_manifest c m := announced Storing (store_definition_manifest c m);
  store_environment_snapshot c s := announced Storing (store_environment_snapshot c s);
  replace_aliases c a v := announced (ReplacingAliases v) (replace_aliases c a v);
  worker_binding :=
    (fun b => {| wb_observe scope := below (wb_observe b scope);
                 wb_rollout d p := announced (RollingOut d p) (wb_rollout b d p);
                 wb_readiness d := below (wb_readiness b d);
                 wb_route a p := announced (Routing a p) (wb_route b a p) |}) <$> worker_binding;
  schedule_binding :=
    (fun b => {| sb_observe scope := below (sb_observe b scope);
                 sb_reconcile p := announced (Reconciling p) (sb_reconcile b p) |}) <$> schedule_binding;
  get_runtime_index w := get_runtime_index w.1;
  set_runtime_index i w := (set_runtime_index i w.1, Indexing :: w.2);
|}.

Definition is_controller_error (e : activation_exn) : bool :=
  match e with ActivationControllerError _ _ _ => true | _ => false end.

(** [m] raises no error of the controller. *)
Definition foreign_errors {W A} (m : CM W A) : Prop :=
  forall w e w', m w = (Raise e, w') -> is_controller_error e = false.

(** The contract that the controller relies on: a write returns the record written, and
    the store, the clock and the admission raise errors of their own. *)
Class ActivationStoreLaws {W} (E : ActivationEnvironment W) : Prop := {
  update_returns scope r v w r' w' : update_activation scope r v w = (Ok r', w') -> r' = r;
  update_errors scope r v : foreign_errors (update_activation scope r v);
  read_errors scope i : foreign_errors (read_activation scope i);
  clock_errors : foreign_errors clock;
  slot_errors : foreign_errors take_slot;
}.

(** ** The order of an activation *)

(** The checkpoints that a plan needs, in their order. *)
Definition needed (p : ActivationPlan) (k : ActivationCheckpointKind) : bool :=
  match k with
  | CHECKPOINT_WORKER_ROLLOUT => false
  | CHECKPOINT_SCHEDULES => bool_decide (ap_schedule_action p = SCHEDULES_RECONCILE)
  | CHECKPOINT_CATALOG_ROUTING => bool_decide (ap_definition_action p = DEFINITIONS_PUBLISH)
  | CHECKPOINT_WORKER_ROUTING => bool_decide (ap_routing_action p = ROUTING_SWITCH)
  | _ => true
  end.

Definition stage_order : list ActivationCheckpointKind :=
  [CHECKPOINT_DEFINITIONS; CHECKPOINT_WORKER_READINESS; CHECKPOINT_SCHEDULES; CHECKPOINT_CATALOG_ROUTING;
   CHECKPOINT_WORKER_ROUTING; CHECKPOINT_ACTIVE_POINTER; CHECKPOINT_RUNTIME_INDEX].

(** The first [n] stages are recorded, as far as the plan needs them. *)
Definition stages_done (n : nat) (r : ActivationRecord) : Prop :=
  Forall (fun k => needed (ar_plan r) k = true -> has_checkpoint r k = true) (take n stage_order).

(** The plan is about what was prepared. *)
Definition prepared_for `{Sha256, FloatRepr} (r : ActivationRecord) (p : PreparedActivation) : Prop :=
  pa_policy_digest p = ap_policy_digest (ar_plan r) /\ pa_artifact p = ap_target_artifact (ar_plan r) /\
  pa_task_queue_identity_digest p = ap_target_task_queue_identity_digest (ar_plan r).

Definition deployment_for `{Sha256, FloatRepr} (r : ActivationRecord) (d : PreparedWorkerDeployment) : Prop :=
  registration_digest d = Ok (ap_target_worker_registration_digest (ar_plan r)) /\
  pd_definition_digests d = ap_target_definition_digests (ar_plan r).

Section discipline.
Context `{Sha256, FloatRepr} (me : string).

(** The controller runs the activation under its lease. *)
Definition in_charge (r : ActivationRecord) : Prop :=
  ar_state r = RUNNING /\ ar_lease_owner_digest r = Some me.

(** Stage [n] may be worked on: the ones before are recorded and it is not. *)
Definition stage_open (n : nat) (r : ActivationRecord) : Prop :=
  in_charge r /\ stages_done n r /\
  match stage_order !! n with
  | Some k => needed (ar_plan r) k = true /\ has_checkpoint r k = false
  | None => False
  end.

(** What the latest record says allows the event. *)
Definition allowed_after (latest : option ActivationRecord) (e : event) : Prop :=
  match e, latest with
  | Held _, _ => True
  | Writing r', _ =>
      ar_state r' = APPLIED -> stages_done 7 r' \/ exists r, latest = Some r /\ ar_state r = APPLIED
  | Storing, Some r => stage_open 0 r
  | RollingOut d digest, Some r =>
      in_charge r /\ stages_done 1 r /\ ap_worker_action (ar_plan r) = WORKER_ROLLOUT /\
      ar_worker_readiness r = None /\ has_checkpoint r CHECKPOINT_WORKER_ROLLOUT = false /\
      deployment_for r d /\ digest = ap_plan_digest (ar_plan r)
  | Reconciling p, Some r => stage_open 2 r /\ prepared_for r p
  | ReplacingAliases v, Some r => stage_open 3 r /\ v = ap_expected_catalog_alias_version (ar_plan r)
  | Routing p digest, Some r => stage_open 4 r /\ prepared_for r p /\ digest = ap_plan_digest (ar_plan r)
  | Advancing target expected version, Some r =>
      stage_open 5 r /\ target = ap_target_revision_id (ar_plan r) /\
      expected = ap_expected_active_revision_id (ar_plan r) /\
      version = ap_expected_active_pointer_version (ar_plan r)
  | Indexing, Some r => stage_open 6 r
  | _, None => False
  end.

Fixpoint latest (l : log) : option ActivationRecord :=
  match l with
  | [] => None
  | Held r :: _ => Some r
  | _ :: l => latest l
  end.

(** Every event was allowed when it happened. *)
Fixpoint disciplined (l : log) : Prop :=
  match l with
  | [] => True
  | e :: l => allowed_after (latest l) e /\ disciplined l
  end.
End discipline.

(** ** Reasoning about calls *)

Section triples.
Context {W : Type}.

(** From logs in [P], [m] ends in [Q] when it returns and in [X] when it raises. *)
Definition triple {A} (P : log -> Prop) (m : CM (W * log) A) (Q : A -> log -> Prop)
    (X : activation_exn -> log -> Prop) : Prop :=
  forall w l, P l ->
    match m (w, l) with (Ok a, (_, l')) => Q a l' | (Raise e, (_, l')) => X e l' end.

Lemma triple_ret {A} (P : log -> Prop) (a : A) (Q : A -> log -> Prop) X :
  (forall l, P l -> Q a l) -> triple P (mret a) Q X.
Proof. intros HQ w l Hl. by apply HQ. Qed.

Lemma triple_bind {A B} P (m : CM (W * log) A) R (f : A -> CM (W * log) B) Q X :
  triple P m R X -> (forall a, triple (R a) (f a) Q X) -> triple P (m ≫= f) Q X.
Proof.
  intros Hm Hf w l Hl. specialize (Hm w l Hl). unfold mbind, CM_bind.
  destruct (m (w, l)) as [[a|e] [w' l']]; [by apply Hf|done].
Qed.

Lemma triple_weaken {A} (P P' : log -> Prop) (m : CM (W * log) A) (Q Q' : A -> log -> Prop)
    (X X' : activation_exn -> log -> Prop) :
  triple P' m Q' X' -> (forall l, P l -> P' l) -> (forall a l, Q' a l -> Q a l) ->
  (forall e l, X' e l -> X e l) -> triple P m Q X.
Proof.
  intros Hm HP HQ HX w l Hl. specialize (Hm w l (HP l Hl)).
  destruct (m (w, l)) as [[a|e] [w' l']]; [by apply HQ|by apply HX].
Qed.

Lemma triple_catch {A} P (m : CM (W * log) A) h Q Y X :
  triple P m Q Y -> (forall e, triple (Y e) (h e) Q X) -> triple P (catch_exn m h) Q X.
Proof.
  intros Hm Hh w l Hl. specialize (Hm w l Hl). unfold catch_exn.
  destruct (m (w, l)) as [[a|e] [w' l']]; [done|by apply Hh].
Qed.

Lemma triple_raise {A} (P : log -> Prop) e (Q : A -> log -> Prop) X :
  (forall l, P l -> X e l) -> triple P (raise_exn e) Q X.
Proof. intros HX w l Hl. by apply HX. Qed.

Lemma triple_lift {A} (P : log -> Prop) (r : ares A) (Q : A -> log -> Prop) X :
  (forall a l, r = Ok a -> P l -> Q a l) -> (forall e l, r = Raise e -> P l -> X e l) ->
  triple P (lift r) Q X.
Proof. intros HQ HX w l Hl. unfold lift. destruct r as [a|e]; [by apply HQ|by apply HX]. Qed.

Lemma triple_below {A} (P : log -> Prop) (m : CM W A) (Q : A -> log -> Prop) X :
  (forall a l w w', m w = (Ok a, w') -> P l -> Q a l) ->
  (forall e l w w', m w = (Raise e, w') -> P l -> X e l) -> triple P (below m) Q X.
Proof.
  intros HQ HX w l Hl. unfold below. destruct (m w) as [[a|e] w'] eqn:Hm; [by eapply HQ|by eapply HX].
Qed.

Lemma triple_say (P : log -> Prop) e (Q : unit -> log -> Prop) X :
  (forall l, P l -> Q tt (e :: l)) -> triple P (say e) Q X.
Proof. intros HQ w l Hl. by apply HQ. Qed.

Lemma triple_announced {A} (P : log -> Prop) ev (m : CM W A) (Q : A -> log -> Prop) X :
  (forall a l w w', m w = (Ok a, w') -> P l -> Q a (ev :: l)) ->
  (forall e l w w', m w = (Raise e, w') -> P l -> X e (ev :: l)) -> triple P (announced ev m) Q X.
Proof.
  intros HQ HX. apply (triple_bind _ _ (fun _ l => exists l0, l = ev :: l0 /\ P l0)).
  - apply triple_say. eauto.
  - intros []. apply triple_below.
    + intros a l w w' Hm (l0 & -> & Hl). by eapply HQ.
    + intros e l w w' Hm (l0 & -> & Hl). by eapply HX.
Qed.

Lemma triple_pure {A} (phi : Prop) P (m : CM (W * log) A) Q X :
  (phi -> triple P m Q X) -> triple (fun l => phi /\ P l) m Q X.
Proof. intros Hm w l [Hphi Hl]. by apply Hm. Qed.

Lemma triple_each {A} (P : log -> Prop) (f : A -> CM (W * log) unit) l X :
  (forall a, triple P (f a) (fun _ => P) X) -> triple P (each f l) (fun _ => P) X.
Proof.
  intros Hf. induction l as [|a l IH]; [by apply triple_ret|].
  eapply triple_bind; [apply Hf|]. by intros [].
Qed.
End triples.

(** ** Records under the controller *)

(** The outcomes of the functions that change a record. *)
Definition same_work (r r' : ActivationRecord) : Prop :=
  ar_plan r' = ar_plan r /\ ar_state r' = ar_state r /\
  ar_lease_owner_digest r' = ar_lease_owner_digest r /\
  (forall k, has_checkpoint r k = true -> has_checkpoint r' k = true).

Lemma same_work_refl r : same_work r r.
Proof. by split_and!. Qed.

Lemma has_checkpoint_app r cs k :
  has_checkpoint r k = true -> existsb (fun c => bool_decide (ck_kind c = k)) (ar_checkpoints r ++ cs) = true.
Proof. unfold has_checkpoint. intros Hk. rewrite existsb_app. by rewrite Hk. Qed.

Lemma has_checkpoint_found r k i c :
  list_find (fun c => ck_kind c = k) (ar_checkpoints r) = Some (i, c) -> has_checkpoint r k = true.
Proof.
  intros (Hl & Hk & _)%list_find_Some. unfold has_checkpoint. apply existsb_exists. exists c. split.
  - apply list_elem_of_In. by eapply list_elem_of_lookup_2.
  - by apply bool_decide_eq_true.
Qed.

Lemma checkpoint_record r k o d t r' :
  record_activation_checkpoint r k o d t = Ok r' ->
  same_work r r' /\ has_checkpoint r' k = true /\ ar_worker_readiness r' = ar_worker_readiness r.
Proof.
  unfold record_activation_checkpoint. destruct (list_find _ _) as [[i c]|] eqn:Hf.
  - apply has_checkpoint_found in Hf. made. by split_and!.
  - destruct (ActivationCheckpoint_fields _); [|done]. cbn [valid_if mbind result_bind]. made.
    split_and!; [split_and!; [done..|]| |done].
    + intros k' Hk'. by apply has_checkpoint_app.
    + unfold has_checkpoint. cbn. rewrite existsb_app. cbn. rewrite bool_decide_true by done. by rewrite orb_true_r.
Qed.

Lemma transition_record r s t oc (release : bool) r' :
  transition_activation r s t oc release = Ok r' ->
  ar_plan r' = ar_plan r /\ ar_state r' = s /\ ar_checkpoints r' = ar_checkpoints r /\
  ar_worker_readiness r' = ar_worker_readiness r /\ ar_outcome_code r' = oc /\
  ar_lease_owner_digest r' = (if release then None else ar_lease_owner_digest r).
Proof. unfold transition_activation. made. by split_and!. Qed.

Lemma readiness_record r w t r' :
  register_worker_readiness r w t = Ok r' -> same_work r r' /\ is_Some (ar_worker_readiness r').
Proof.
  unfold register_worker_readiness. destruct (ar_worker_readiness r) as [w'|] eqn:Hw; made.
  - split; [apply same_work_refl|by eexists].
  - split; [by split_and!|by eexists].
Qed.

(** [m] raises nothing but exceptions of Python and pydantic. *)
Definition py_errors {A} (m : ares A) : Prop := forall e, m = Raise e -> exists x, e = PyError x.

Lemma py_ok {A} (a : A) : py_errors (Ok a).
Proof. by intros e [=]. Qed.

Lemma py_value_error {A} msg : py_errors (@value_error A msg).
Proof. intros e [= <-]. by eexists. Qed.

Lemma py_valid_if b reason : py_errors (valid_if b reason).
Proof. destruct b; [apply py_ok|]. intros e [= <-]. by eexists. Qed.

Lemma py_bind {A B} (m : ares A) (f : A -> ares B) :
  py_errors m -> (forall a, py_errors (f a)) -> py_errors (m ≫= f).
Proof. intros Hm Hf e [He|(a & _ & He)]%bind_Raise; [by apply Hm|by eapply Hf]. Qed.

Create HintDb py_errors.
#[export] Hint Resolve py_ok py_value_error py_valid_if py_bind : py_errors.

Lemma py_transitions ts : forall i b, py_errors (validate_transitions i b ts).
Proof.
  induction ts as [|t ts IH]; intros i b; cbn; [apply py_ok|].
  destruct (negb _); [apply (py_valid_if false)|]. destruct (match b with Some _ => _ | None => _ end);
    [apply (py_valid_if false)|apply IH].
Qed.

Lemma py_checkpoints cs : forall i, py_errors (validate_checkpoints i cs).
Proof.
  induction cs as [|c cs IH]; intros i; cbn; [apply py_ok|]. destruct (negb _); [apply (py_valid_if false)|apply IH].
Qed.

Lemma py_make_activation r : py_errors (make_activation r).
Proof.
  unfold make_activation, validate_state. apply py_bind; [apply py_valid_if|intros _].
  apply py_bind; [|intros _; apply py_ok]. do 3 (apply py_bind; [apply py_valid_if|intros _]).
  apply py_bind; [|intros _].
  - destruct (last _); [|apply py_valid_if]. destruct (negb _); [apply (py_valid_if false)|apply py_transitions].
  - apply py_bind; [apply py_valid_if|intros _]. apply py_bind; [apply py_checkpoints|intros _].
    destruct (terminal_failure _); apply py_valid_if.
Qed.
#[export] Hint Resolve py_make_activation : py_errors.

Lemma py_derive op r : py_errors (derive op r).
Proof.
  destruct op; cbn [derive].
  - unfold transition_activation. repeat case_match; auto with py_errors.
  - unfold record_activation_checkpoint. repeat case_match; auto with py_errors.
  - unfold acquire_activation_lease. repeat case_match; auto with py_errors.
  - unfold release_activation_lease. repeat case_match; auto with py_errors.
  - unfold register_worker_readiness. repeat case_match; auto with py_errors.
Qed.

Lemma derive_foreign op r e : derive op r = Raise e -> is_controller_error e = false.
Proof. by intros [x ->]%py_derive. Qed.

Section stages.
Context `{Sha256, FloatRepr} (me : string).

Lemma stages_done_keep n r r' :
  ar_plan r' = ar_plan r -> (forall k, has_checkpoint r k = true -> has_checkpoint r' k = true) ->
  stages_done n r -> stages_done n r'.
Proof.
  intros Hp Hk Hd. unfold stages_done in *. rewrite Hp. eapply Forall_impl; [exact Hd|]. cbn. auto.
Qed.

Lemma stages_done_next n r k :
  stage_order !! n = Some k -> stages_done n r -> (needed (ar_plan r) k = true -> has_checkpoint r k = true) ->
  stages_done (S n) r.
Proof.
  intros Hn Hd Hk. unfold stages_done. rewrite (take_S_r _ _ _ Hn). apply Forall_app. split; [done|].
  by constructor.
Qed.

Lemma stages_done_0 r : stages_done 0 r.
Proof. unfold stages_done. cbn. constructor. Qed.

Lemma in_charge_same r r' : same_work r r' -> in_charge me r -> in_charge me r'.
Proof. intros (_ & Hs & Hl & _) [? ?]. split; congruence. Qed.

Lemma stages_done_same n r r' : same_work r r' -> stages_done n r -> stages_done n r'.
Proof. intros (Hp & _ & _ & Hk). by apply stages_done_keep. Qed.
End stages.

Section records.
Context `{HS : Sha256, HF : FloatRepr} {W : Type} (E : ActivationEnvironment W) `{!ActivationStoreLaws E}.
Context (me : string) (lease_duration : Z).

#[local] Instance observed_environment : ActivationEnvironment (W * log) := observed E.

(** The latest record of a disciplined log. *)
Definition knows (r : ActivationRecord) (l : log) : Prop := disciplined me l /\ latest l = Some r.

(** What is known after an exception. *)
Definition orderly (_ : activation_exn) (l : log) : Prop := disciplined me l.
Definition orderly_foreign (e : activation_exn) (l : log) : Prop :=
  is_controller_error e = false /\ disciplined me l.

Lemma triple_plain {A} (P : log -> Prop) (m : CM W A) :
  foreign_errors m -> (forall l, P l -> disciplined me l) ->
  triple P (below m) (fun _ => P) orderly_foreign.
Proof. intros Hm HP. apply triple_below; [done|]. intros e l w w' He Hl. split; [by eapply Hm|by apply HP]. Qed.

Lemma triple_silent {A} (P : log -> Prop) (m : CM W A) :
  (forall l, P l -> disciplined me l) -> triple P (below m) (fun _ => P) orderly.
Proof. intros HP. apply triple_below; [done|]. intros e l w w' _ Hl. by apply HP. Qed.

Lemma triple_blocking {A} P (m : CM (W * log) A) Q (X : activation_exn -> log -> Prop) :
  (forall l, P l -> disciplined me l) -> (forall e l, orderly_foreign e l -> X e l) ->
  triple P m Q X -> triple P (run_blocking m) Q X.
Proof.
  intros HP HX Hm. eapply (triple_bind _ _ (fun _ => P)); [|by intros _].
  eapply triple_weaken; [exact (triple_plain P take_slot slot_errors HP)|done..].
Qed.

Lemma knows_disciplined r l : knows r l -> disciplined me l.
Proof. by intros []. Qed.

Lemma triple_read scope i :
  triple (disciplined me) (read_activation scope i) (fun r => knows r) orderly_foreign.
Proof.
  eapply triple_bind; [exact (triple_plain _ _ (read_errors scope i) (fun l Hl => Hl))|].
  intros r. apply (triple_bind _ _ (fun _ => knows r)); [|intros []; by apply triple_ret].
  apply triple_say. intros l Hl. by split_and!.
Qed.

Lemma triple_update (P : log -> Prop) scope r v :
  (forall l, P l -> disciplined me l /\ allowed_after me (latest l) (Writing r)) ->
  triple P (update_activation scope r v) (fun r' l => r' = r /\ knows r l) orderly_foreign.
Proof.
  intros HP. eapply (triple_bind _ _ (fun r' l => r' = r /\ disciplined me l)).
  - apply triple_announced.
    + intros r' l w w' Hu Hl. split; [by eapply update_returns|]. apply HP in Hl as [? ?]. by split.
    + intros e l w w' Hu Hl. split; [by eapply update_errors|]. apply HP in Hl as [? ?]. by split.
  - intros r'. apply (triple_bind _ _ (fun _ l => r' = r /\ knows r l)); [|intros []; by apply triple_ret].
    apply triple_say. intros l [-> Hl]. by split_and!.
Qed.

(** A record derived from the latest may be written, if it is not newly applied or the
    stages are done. *)
Lemma writing_allowed r r' l :
  knows r l -> (ar_state r' = APPLIED -> stages_done 7 r' \/ ar_state r = APPLIED) ->
  disciplined me l /\ allowed_after me (latest l) (Writing r').
Proof. intros [Hd Hl] Ha. split; [done|]. cbn. rewrite Hl. intros Hs. destruct (Ha Hs); [by left|right; eauto]. Qed.

Lemma triple_now (P : log -> Prop) :
  (forall l, P l -> disciplined me l) -> triple P now (fun _ => P) orderly_foreign.
Proof.
  intros HP. eapply triple_bind; [exact (triple_plain P clock clock_errors HP)|].
  intros [t|]; [by apply triple_ret|]. apply triple_raise. intros l Hl. split; [done|by apply HP].
Qed.

(** A write of a record derived at the current time. *)
Lemma triple_derived scope r (f : Z -> ares ActivationRecord) (R : ActivationRecord -> Prop) :
  (forall t e, f t = Raise e -> is_controller_error e = false) ->
  (forall t r', f t = Ok r' -> R r' /\ (ar_state r' = APPLIED -> stages_done 7 r' \/ ar_state r = APPLIED)) ->
  triple (knows r)
    (t ← now; updated ← lift (f t); update_activation scope updated (ar_version r))
    (fun r' l => R r' /\ knows r' l) orderly_foreign.
Proof.
  intros He Hr. eapply triple_bind; [apply triple_now; by intros l []|]. intros t. cbn.
  eapply (triple_bind _ _ (fun r' l => f t = Ok r' /\ knows r l)).
  { apply triple_lift; [by intros r' l Hf|]. intros e l Hf []. split; [by eapply He|done]. }
  intros r'. apply triple_pure. intros Hf. destruct (Hr t r' Hf) as [HR Ha].
  eapply triple_weaken; [apply triple_update; intros l Hl; by eapply writing_allowed|done|by intros a l [-> ?]|done].
Qed.

(** The same, where nothing is written if the record does not change. *)
Lemma triple_derived_self scope r (f : Z -> ares ActivationRecord) (R : ActivationRecord -> Prop) :
  (forall t e, f t = Raise e -> is_controller_error e = false) ->
  (forall t r', f t = Ok r' -> R r' /\ (ar_state r' = APPLIED -> stages_done 7 r' \/ ar_state r = APPLIED)) ->
  triple (knows r)
    (t ← now; updated ← lift (f t);
     if bool_decide (updated = r) then mret r else update_activation scope updated (ar_version r))
    (fun r' l => R r' /\ knows r' l) orderly_foreign.
Proof.
  intros He Hr. eapply triple_bind; [apply triple_now; by intros l []|]. intros t. cbn.
  eapply (triple_bind _ _ (fun r' l => f t = Ok r' /\ knows r l)).
  { apply triple_lift; [by intros r' l Hf|]. intros e l Hf []. split; [by eapply He|done]. }
  intros r'. apply triple_pure. intros Hf. destruct (Hr t r' Hf) as [HR Ha]. case_bool_decide as Heq.
  - subst. apply triple_ret. by intros l.
  - eapply triple_weaken; [apply triple_update; intros l Hl; by eapply writing_allowed|done|by intros a l [-> ?]|done].
Qed.

Lemma triple_transition scope r s oc release :
  (s = APPLIED -> stages_done 7 r) ->
  triple (knows r) (transition scope r s oc release)
    (fun r' l => (ar_plan r' = ar_plan r /\ ar_state r' = s /\ ar_checkpoints r' = ar_checkpoints r /\
        ar_worker_readiness r' = ar_worker_readiness r /\ ar_outcome_code r' = oc /\
        ar_lease_owner_digest r' = (if release then None else ar_lease_owner_digest r)) /\ knows r' l)
    orderly_foreign.
Proof.
  intros Hs. apply triple_derived.
  - intros t e. apply (derive_foreign (Transition s t oc release)).
  - intros t r' Hr. apply transition_record in Hr. split; [done|].
    destruct Hr as (Hp & -> & Hc & _). intros Ha. left. eapply stages_done_keep; [exact Hp| |by apply Hs].
    intros k. unfold has_checkpoint. by rewrite Hc.
Qed.

Lemma triple_checkpoint scope r k conf :
  triple (knows r) (checkpoint scope r k conf)
    (fun r' l => (same_work r r' /\ has_checkpoint r' k = true /\ ar_worker_readiness r' = ar_worker_readiness r)
                 /\ knows r' l) orderly_foreign.
Proof.
  apply triple_derived_self.
  - intros t e. apply (derive_foreign (Checkpoint k (cf_outcome conf) (cf_observation_digest conf) t)).
  - intros t r' Hr%checkpoint_record. split; [done|]. destruct Hr as [(_ & Hst & _) _]. rewrite Hst. by right.
Qed.

Lemma triple_register scope r w :
  triple (knows r) (register_readiness_record scope r w)
    (fun r' l => (same_work r r' /\ is_Some (ar_worker_readiness r')) /\ knows r' l) orderly_foreign.
Proof.
  apply triple_derived_self.
  - intros t e. apply (derive_foreign (RegisterReadiness w t)).
  - intros t r' Hr%readiness_record. split; [done|]. destruct Hr as [(_ & Hst & _) _]. rewrite Hst. by right.
Qed.

Lemma triple_orderly {A} P (m : CM (W * log) A) Q :
  triple P m Q orderly_foreign -> triple P m Q orderly.
Proof. intros Hm. eapply triple_weaken; [exact Hm|done|done|]. by intros e l []. Qed.

Lemma triple_blocked {A} P (m : CM (W * log) A) Q :
  (forall l, P l -> disciplined me l) -> triple P m Q orderly -> triple P (run_blocking m) Q orderly.
Proof. intros HP Hm. apply triple_blocking; [done| |done]. by intros e l []. Qed.

Lemma triple_binding {A} P code msg (m : CM (W * log) A) Q :
  triple P m Q orderly -> triple P (binding_call code msg m) Q orderly.
Proof.
  intros Hm. eapply triple_catch; [exact Hm|]. intros e. destruct e as [x| | | |].
  { destruct (catchable (PyError x)); by apply triple_raise. }
  all: by apply triple_raise.
Qed.

(** A call that the record allows. *)
Lemma triple_effect {A} r ev (m : CM W A) :
  allowed_after me (Some r) ev -> (forall l, latest (ev :: l) = latest l) ->
  triple (knows r) (announced ev m) (fun _ => knows r) orderly.
Proof.
  intros Hev Hl.
  assert (forall l, knows r l -> knows r (ev :: l)) as Hk.
  { intros l [Hd Hr]. split; [|by rewrite Hl]. cbn. by rewrite Hr. }
  apply triple_announced; [intros a l w w' _; apply Hk|]. intros e l w w' _ Hr. by apply Hk in Hr as [? _].
Qed.

(** What a stage leaves to the next one. *)
Definition stage_result (n : nat) (r r' : ActivationRecord) : Prop :=
  in_charge me r' /\ stages_done n r' /\ ar_plan r' = ar_plan r.

Lemma stage_result_trans n m r r1 r2 : stage_result n r r1 -> stage_result m r1 r2 -> stage_result m r r2.
Proof. intros (_ & _ & ?) (? & ? & ?). split_and!; [done|done|congruence]. Qed.

Lemma stage_checkpoint scope r n k conf :
  stage_order !! n = Some k -> in_charge me r -> stages_done n r ->
  triple (knows r) (checkpoint scope r k conf) (fun r' l => stage_result (S n) r r' /\ knows r' l) orderly.
Proof.
  intros Hk Hc Hd. apply triple_orderly. eapply triple_weaken;
    [apply triple_checkpoint|done| |done].
  intros r' l [(Hs & Hh & _) Hkn]. split; [|done]. split_and!; [by eapply in_charge_same| |apply Hs].
  eapply stages_done_next; [done|by eapply stages_done_same|done].
Qed.

Lemma stage_skip n k r :
  stage_order !! n = Some k -> in_charge me r -> stages_done n r ->
  negb (needed (ar_plan r) k) || has_checkpoint r k = true ->
  triple (knows r) (mret r : CM (W * log) ActivationRecord) (fun r' l => stage_result (S n) r r' /\ knows r' l) orderly.
Proof.
  intros Hk Hc Hd Hs. apply triple_ret. intros l Hl. split; [|done]. split_and!; [done| |done].
  eapply stages_done_next; [done|done|]. intros Hn. rewrite Hn in Hs. exact Hs.
Qed.

Lemma stage_definitions scope r d :
  in_charge me r ->
  triple (knows r) (store_definition_objects scope r d)
    (fun r' l => stage_result 1 r r' /\ knows r' l) orderly.
Proof.
  intros Hc. unfold store_definition_objects. destruct (has_checkpoint r CHECKPOINT_DEFINITIONS) eqn:Hh.
  { apply (stage_skip 0 CHECKPOINT_DEFINITIONS); [done|done|apply stages_done_0|]. by rewrite Hh, orb_true_r. }
  assert (allowed_after me (Some r) Storing) as Hev by (split; [done|split; [apply stages_done_0|done]]).
  apply (triple_bind _ _ (fun _ => knows r)); [|intros []].
  - apply triple_each. intros a. apply (triple_bind _ _ (fun _ => knows r)).
    { apply triple_silent. by intros l []. }
    intros c. apply (triple_bind _ _ (fun _ => knows r)).
    + apply triple_each. intros kv. by apply triple_effect.
    + intros []. apply triple_each. intros kv. by apply triple_effect.
  - apply (triple_bind _ _ (fun _ => knows r)); [|intros registration; apply stage_checkpoint; [done|done|apply stages_done_0]].
    apply triple_lift; [done|]. by intros e l _ [].
Qed.

(** The prepared values are those of the plan. *)
Lemma triple_prepare_record scope r :
  triple (knows r) (prepare_record scope r)
    (fun pw l => (prepared_for r pw.1 /\ deployment_for r pw.2) /\ knows r l) orderly.
Proof.
  assert (forall l, knows r l -> disciplined me l) as Hd by (by intros l []).
  unfold prepare_record. apply (triple_bind _ _ (fun _ => knows r)); [by apply triple_silent|intros revision].
  apply (triple_bind _ _ (fun _ => knows r)); [by apply triple_silent|intros p].
  apply (triple_bind _ _ (fun _ => knows r)); [by apply triple_silent|intros d].
  destruct (bool_decide (pa_policy_digest p = _)) eqn:H1; [|by apply triple_raise].
  destruct (bool_decide (pa_artifact p = _)) eqn:H2; [|by apply triple_raise].
  destruct (bool_decide (pa_task_queue_identity_digest p = _)) eqn:H3; [|by apply triple_raise].
  apply (triple_bind _ _ (fun g l => registration_digest d = Ok g /\ knows r l)).
  { apply triple_lift; [done|]. by intros e l _ []. }
  intros g. apply triple_pure. intros Hg. destruct (negb _) eqn:H4; [by apply triple_raise|].
  apply triple_ret. intros l Hl. split; [|done]. apply negb_false_iff, andb_true_iff in H4 as [H4 H5].
  apply bool_decide_eq_true in H1, H2, H3, H4, H5. subst g. by split_and!.
Qed.

(** The record waits and is not leased. *)
Definition parked (r : ActivationRecord) : Prop :=
  ar_state r = WAITING_FOR_READINESS /\ ar_lease_owner_digest r = None.

Lemma triple_waiting scope r :
  in_charge me r ->
  triple (knows r) (waiting me scope r) (fun r' l => parked r' /\ knows r' l) orderly.
Proof.
  intros [Hs _]. unfold waiting. rewrite Hs, bool_decide_false by done. apply triple_orderly.
  eapply triple_weaken; [by apply triple_transition|done| |done].
  intros r' l [(_ & Hst & _ & _ & _ & Hl) Hk]. by split_and!.
Qed.

Lemma stage_confirm scope r p :
  in_charge me r -> stages_done 1 r ->
  triple (knows r) (confirm_worker_ready scope r p) (fun r' l => stage_result 2 r r' /\ knows r' l) orderly.
Proof.
  intros Hc Hd. apply (triple_bind _ _ (fun _ => knows r)); [|intros []].
  - apply triple_lift; [done|]. by intros e l _ [].
  - destruct (has_checkpoint r CHECKPOINT_WORKER_READINESS) eqn:Hh.
    + apply (stage_skip 1 CHECKPOINT_WORKER_READINESS); [done|done|done|]. by rewrite Hh, orb_true_r.
    + apply triple_blocked; [by intros l []|]. by apply stage_checkpoint.
Qed.

Definition ready_or_parked (r r' : ActivationRecord) : Prop := stage_result 2 r r' \/ parked r'.

Lemma triple_wait_or_stop scope r0 r :
  in_charge me r ->
  triple (knows r) (run_blocking (waiting me scope r)) (fun r' l => ready_or_parked r0 r' /\ knows r' l) orderly.
Proof.
  intros Hc. apply triple_blocked; [by intros l []|].
  eapply triple_weaken; [by apply triple_waiting|done| |done]. intros r' l [Hp Hk]. split; [by right|done].
Qed.

Lemma stage_await scope r p d :
  in_charge me r -> stages_done 1 r ->
  triple (knows r) (await_worker_ready me scope r p d) (fun r' l => ready_or_parked r r' /\ knows r' l) orderly.
Proof.
  intros Hc Hd. unfold await_worker_ready. destruct (ar_worker_readiness r) as [w|] eqn:Hw.
  { eapply triple_weaken; [by apply stage_confirm|done| |done]. intros r' l [Hs Hk]. split; [by left|done]. }
  apply (triple_bind _ _ (fun _ => knows r)).
  - unfold read_worker_readiness. rewrite Hw. destruct worker_binding as [b|] eqn:Hb; [|by apply triple_ret].
    apply fmap_Some in Hb as (b0 & _ & ->). apply (triple_bind _ _ (fun _ => knows r)); [by apply triple_ret|].
    intros d'. apply triple_binding, triple_silent. by intros l [].
  - intros [w|]; [|by apply triple_wait_or_stop].
    apply (triple_bind _ _ (fun r' l => (same_work r r' /\ is_Some (ar_worker_readiness r')) /\ knows r' l)).
    + apply triple_blocked; [by intros l []|].
      apply triple_orderly, triple_register.
    + intros r'. apply triple_pure. intros [Hs _]. eapply triple_weaken; [apply stage_confirm|done| |done].
      * by eapply in_charge_same.
      * by eapply stages_done_same.
      * intros r2 l [(Hc2 & Hd2 & Hp2) Hk]. split; [left; split_and!; try done|done].
        rewrite Hp2. apply Hs.
Qed.

Lemma stage_worker scope r p d :
  in_charge me r -> stages_done 1 r -> deployment_for r d ->
  triple (knows r) (ensure_worker_ready me scope r p d) (fun r' l => ready_or_parked r r' /\ knows r' l) orderly.
Proof.
  intros Hc Hd Hdep. unfold ensure_worker_ready. destruct (ap_worker_action (ar_plan r)) eqn:Ha.
  { eapply (triple_weaken _ (knows r) _ _ (fun r' l => stage_result 2 r r' /\ knows r' l)); [|done| |done].
    - destruct (has_checkpoint r CHECKPOINT_WORKER_READINESS) eqn:Hh.
      + apply (stage_skip 1 CHECKPOINT_WORKER_READINESS); [done|done|done|]. by rewrite Hh, orb_true_r.
      + apply triple_blocked; [by intros l []|]. by apply stage_checkpoint.
    - intros r' l [Hs Hk]. split; [by left|done]. }
  destruct (ar_worker_readiness r) as [w|] eqn:Hw; [by apply stage_await|].
  destruct (has_checkpoint r CHECKPOINT_WORKER_ROLLOUT) eqn:Hh; [by apply stage_await|]. cbn [is_some negb andb].
  destruct worker_binding as [b|] eqn:Hb; [|by apply triple_wait_or_stop].
  apply fmap_Some in Hb as (b0 & _ & ->).
  apply (triple_bind _ _ (fun _ => knows r)).
  - apply triple_binding, triple_effect; [|done]. by split_and!.
  - intros conf. apply (triple_bind _ _ (fun r' l => same_work r r' /\ knows r' l)).
    + apply triple_blocked; [by intros l []|]. apply triple_orderly.
      eapply triple_weaken; [apply triple_checkpoint|done| |done].
      by intros r' l [[? _] ?].
    + intros r'. apply triple_pure. intros Hs. eapply triple_weaken; [apply stage_await|done| |done].
      * by eapply in_charge_same.
      * by eapply stages_done_same.
      * intros r2 l [[(Hc2 & Hd2 & Hp2)|Hpk] Hk]; (split; [|done]); [left|by right].
        split_and!; [done|done|]. rewrite Hp2. apply Hs.
Qed.

(** A stage whose action may be skipped: it is not needed or already recorded. *)
Lemma skip_or_open n k r :
  stage_order !! n = Some k -> in_charge me r -> stages_done n r ->
  negb (needed (ar_plan r) k) || has_checkpoint r k = false -> stage_open me n r.
Proof.
  intros Hk Hc Hd [Hn Hh]%orb_false_iff. split; [done|split; [done|]]. rewrite Hk. split; [by apply negb_false_iff|done].
Qed.

Lemma stage_schedules scope r p :
  in_charge me r -> stages_done 2 r -> prepared_for r p ->
  triple (knows r) (reconcile_schedules scope r p) (fun r' l => stage_result 3 r r' /\ knows r' l) orderly.
Proof.
  intros Hc Hd Hp. unfold reconcile_schedules.
  assert (bool_decide (ap_schedule_action (ar_plan r) = SCHEDULES_NONE)
          = negb (needed (ar_plan r) CHECKPOINT_SCHEDULES)) as -> by (cbn; by destruct (ap_schedule_action _)).
  destruct (negb _ || has_checkpoint r CHECKPOINT_SCHEDULES) eqn:Hs.
  { by apply (stage_skip 2 CHECKPOINT_SCHEDULES). }
  destruct schedule_binding as [b|] eqn:Hb; [|apply triple_raise; by intros l []].
  apply fmap_Some in Hb as (b0 & _ & ->). apply (triple_bind _ _ (fun _ => knows r)).
  - apply triple_binding, triple_effect; [|done]. split; [by apply (skip_or_open 2 CHECKPOINT_SCHEDULES)|done].
  - intros conf. apply triple_blocked; [by intros l []|]. by apply stage_checkpoint.
Qed.

Lemma stage_catalog scope r p :
  in_charge me r -> stages_done 3 r ->
  triple (knows r) (switch_catalog scope r p) (fun r' l => stage_result 4 r r' /\ knows r' l) orderly.
Proof.
  intros Hc Hd. unfold switch_catalog.
  assert (bool_decide (ap_definition_action (ar_plan r) = DEFINITIONS_NONE)
          = negb (needed (ar_plan r) CHECKPOINT_CATALOG_ROUTING)) as -> by (cbn; by destruct (ap_definition_action _)).
  destruct (negb _ || has_checkpoint r CHECKPOINT_CATALOG_ROUTING) eqn:Hs.
  { by apply (stage_skip 3 CHECKPOINT_CATALOG_ROUTING). }
  apply (triple_bind _ _ (fun _ => knows r)); [apply triple_silent; by intros l []|intros c].
  apply (triple_bind _ _ (fun _ => knows r)); [apply triple_silent; by intros l []|intros st].
  apply (triple_bind _ _ (fun _ => knows r)); [|intros ov; by apply stage_checkpoint].
  destruct (same_aliases _ _); [by apply triple_ret|].
  destruct (bool_decide (cs_alias_version st = _)); cbn [negb]; [|apply triple_raise; by intros l []].
  apply (triple_bind _ _ (fun _ => knows r)); [|intros v; by apply triple_ret].
  apply triple_effect; [|done]. split; [by apply (skip_or_open 3 CHECKPOINT_CATALOG_ROUTING)|done].
Qed.

Lemma stage_routing scope r p :
  in_charge me r -> stages_done 4 r -> prepared_for r p ->
  triple (knows r) (switch_worker_routing scope r p) (fun r' l => stage_result 5 r r' /\ knows r' l) orderly.
Proof.
  intros Hc Hd Hp. unfold switch_worker_routing.
  assert (bool_decide (ap_routing_action (ar_plan r) = ROUTING_NONE)
          = negb (needed (ar_plan r) CHECKPOINT_WORKER_ROUTING)) as -> by (cbn; by destruct (ap_routing_action _)).
  destruct (negb _ || has_checkpoint r CHECKPOINT_WORKER_ROUTING) eqn:Hs.
  { by apply (stage_skip 4 CHECKPOINT_WORKER_ROUTING). }
  apply (triple_bind _ _ (fun _ => knows r)).
  - destruct worker_binding as [b|] eqn:Hb; [|by apply triple_ret]. apply fmap_Some in Hb as (b0 & _ & ->).
    apply triple_binding, triple_effect; [|done].
    split; [by apply (skip_or_open 4 CHECKPOINT_WORKER_ROUTING)|done].
  - intros conf. apply triple_blocked; [by intros l []|]. by apply stage_checkpoint.
Qed.

Lemma stage_pointer scope r :
  in_charge me r -> stages_done 5 r ->
  triple (knows r) (advance_active_pointer scope r) (fun r' l => stage_result 6 r r' /\ knows r' l) orderly.
Proof.
  intros Hc Hd. unfold advance_active_pointer. destruct (has_checkpoint r CHECKPOINT_ACTIVE_POINTER) eqn:Hh.
  { apply (stage_skip 5 CHECKPOINT_ACTIVE_POINTER); [done|done|done|]. by rewrite Hh, orb_true_r. }
  apply (triple_bind _ _ (fun _ => knows r)); [apply triple_silent; by intros l []|intros current].
  apply (triple_bind _ _ (fun _ => knows r)); [|intros op; by apply stage_checkpoint].
  assert (triple (knows r)
    (compare_and_swap_active scope (ap_target_revision_id (ar_plan r))
       (ap_expected_active_revision_id (ar_plan r)) (ap_expected_active_pointer_version (ar_plan r)))
    (fun _ => knows r) orderly) as Hcas.
  { apply triple_effect; [|done]. split_and!; [|done..].
    apply (skip_or_open 5 CHECKPOINT_ACTIVE_POINTER); [done|done|done|]. by rewrite Hh. }
  destruct current as [c|]; [destruct (already_advanced _ _); [by apply triple_ret|]|];
    (apply (triple_bind _ _ (fun _ => knows r)); [exact Hcas|intros v; by apply triple_ret]).
Qed.

Lemma stage_index scope r p :
  in_charge me r -> stages_done 6 r ->
  triple (knows r) (replace_runtime_index scope r p) (fun r' l => stage_result 7 r r' /\ knows r' l) orderly.
Proof.
  intros Hc Hd. unfold replace_runtime_index. destruct (has_checkpoint r CHECKPOINT_RUNTIME_INDEX) eqn:Hh.
  { apply (stage_skip 6 CHECKPOINT_RUNTIME_INDEX); [done|done|done|]. by rewrite Hh, orb_true_r. }
  apply (triple_bind _ _ (fun _ => knows r)); [|intros b].
  { apply triple_lift; [done|]. by intros e l _ []. }
  apply (triple_bind _ _ (fun _ => knows r)); [|intros []; by apply stage_checkpoint].
  intros w l [Hl Hk]. unfold replace_index. destruct (replace _ _ _ _ _ _ _) as [i|e]; [|done]. cbn.
  split; [|done]. cbn. rewrite Hk. split; [|done].
  apply (skip_or_open 6 CHECKPOINT_RUNTIME_INDEX); [done|done|done|]. by rewrite Hh.
Qed.

(** Passes from one stage to the next. *)
Lemma triple_next {n r} {m : CM (W * log) ActivationRecord} {g : ActivationRecord -> CM (W * log) ActivationRecord}
    {Q : ActivationRecord -> log -> Prop} :
  triple (knows r) m (fun r' l => stage_result n r r' /\ knows r' l) orderly ->
  (forall r', stage_result n r r' -> triple (knows r') (g r') Q orderly) ->
  triple (knows r) (m ≫= g) Q orderly.
Proof. intros Hf Hg. eapply triple_bind; [exact Hf|]. intros r'. apply triple_pure. intros Hr. by apply Hg. Qed.

(** How the methods end: with a settled record, or with one that waits without a lease. *)
Definition ended (r : ActivationRecord) : Prop := is_settled (ar_state r) = true \/ parked r.

Lemma run_stages_ends scope r :
  in_charge me r -> triple (knows r) (run_stages me scope r) (fun r' l => ended r' /\ knows r' l) orderly.
Proof.
  intros Hc. unfold run_stages.
  assert (forall r' (A : Type) (m : CM (W * log) A) Q,
    triple (knows r') m Q orderly -> triple (knows r') (run_blocking m) Q orderly) as Hblock.
  { intros r' A m Q. apply triple_blocked. by intros l []. }
  eapply triple_bind; [apply Hblock, triple_prepare_record|]. intros [p d]. apply triple_pure. cbn [fst snd].
  intros [Hp Hd].
  apply (triple_next (n := 1)); [by apply Hblock, stage_definitions|]. intros r1 (Hc1 & Hd1 & Hp1).
  assert (deployment_for r1 d) as Hdep by (unfold deployment_for; by rewrite Hp1).
  eapply triple_bind; [by apply stage_worker|]. intros r2. apply triple_pure. intros [(Hc2 & Hd2 & Hp2)|Hpark].
  2:{ rewrite bool_decide_true by apply Hpark. apply triple_ret. intros l Hk. split; [by right|done]. }
  rewrite bool_decide_false by (by rewrite (proj1 Hc2)).
  assert (prepared_for r2 p) as Hp2' by (unfold prepared_for; by rewrite Hp2, Hp1).
  apply (triple_next (n := 3)); [by apply stage_schedules|]. intros r3 (Hc3 & Hd3 & Hp3).
  apply (triple_next (n := 4)); [by apply Hblock, stage_catalog|]. intros r4 (Hc4 & Hd4 & Hp4).
  apply (triple_next (n := 5)); [apply stage_routing; [done|done|]|].
  { unfold prepared_for. by rewrite Hp4, Hp3. }
  intros r5 (Hc5 & Hd5 & Hp5).
  apply (triple_next (n := 6)); [by apply Hblock, stage_pointer|]. intros r6 (Hc6 & Hd6 & Hp6).
  apply (triple_next (n := 7)); [by apply Hblock, stage_index|]. intros r7 (Hc7 & Hd7 & Hp7).
  apply Hblock, triple_orderly. eapply triple_weaken; [by apply triple_transition|done| |done].
  intros r' l [(_ & Hs & _) Hk]. split; [left; by rewrite Hs|done].
Qed.

Lemma triple_release scope r :
  triple (knows r) (release_lease me scope r)
    (fun r' l => (ar_state r' = ar_state r /\ ar_lease_owner_digest r' = None) /\ knows r' l) orderly_foreign.
Proof.
  unfold release_lease. destruct (ar_lease_owner_digest r) as [o|] eqn:Ho; [|by apply triple_ret].
  apply triple_derived.
  - intros t e. apply (derive_foreign (ReleaseLease me t)).
  - intros t r'. unfold release_activation_lease. made. split; [done|by right].
Qed.

(** The transition to [RUNNING] keeps the lease. *)
Lemma triple_start scope r :
  ar_lease_owner_digest r = Some me ->
  triple (knows r) (transition scope r RUNNING None false) (fun r' l => in_charge me r' /\ knows r' l) orderly.
Proof.
  intros Ho. apply triple_orderly. eapply triple_weaken; [by apply triple_transition|done| |done].
  intros r' l [(_ & Hs & _ & _ & _ & Hl) Hk]. split; [|done]. split; [done|congruence].
Qed.

Lemma start_and_run scope r :
  ar_lease_owner_digest r = Some me ->
  triple (knows r) (r' ← run_blocking (transition scope r RUNNING None false); run_stages me scope r')
    (fun r' l => ended r' /\ knows r' l) orderly.
Proof.
  intros Ho. eapply triple_bind.
  - apply triple_blocked; [by intros l []|]. by apply triple_start.
  - intros r'. apply triple_pure. apply run_stages_ends.
Qed.

Lemma triple_start_or_resume scope r :
  ar_lease_owner_digest r = Some me -> is_settled (ar_state r) = false ->
  triple (knows r) (start_or_resume scope r)
    (fun r' l => (ar_lease_owner_digest r' = Some me /\ (ar_state r' = RUNNING \/ ar_state r' = WAITING_FOR_READINESS))
                 /\ knows r' l) orderly.
Proof.
  intros Ho Hs. unfold start_or_resume. destruct (ar_state r) eqn:Hst; try discriminate Hs; cbn [bool_decide];
    rewrite ?(bool_decide_true (PENDING = PENDING)), ?(bool_decide_true (FAILED = FAILED)) by done.
  - eapply triple_weaken; [by apply triple_start|done| |done]. intros r' l [[? ?] ?]. naive_solver.
  - apply triple_ret. intros l Hl. rewrite Hst. naive_solver.
  - apply triple_ret. intros l Hl. rewrite Hst. naive_solver.
  - rewrite orb_true_r. eapply triple_weaken; [by apply triple_start|done| |done]. intros r' l [[? ?] ?]. naive_solver.
Qed.

Lemma run_activation_ends scope r :
  ar_lease_owner_digest r = Some me -> is_settled (ar_state r) = false ->
  triple (knows r) (run_activation me scope r) (fun r' l => ended r' /\ knows r' l) orderly.
Proof.
  intros Ho Hs. unfold run_activation. eapply triple_bind.
  { apply triple_blocked; [by intros l []|]. by apply triple_start_or_resume. }
  intros r1. apply triple_pure. intros [Ho1 [Hs1|Hs1]].
  { rewrite Hs1, bool_decide_false by done. by apply run_stages_ends. }
  rewrite Hs1, bool_decide_true by done.
  destruct (ar_worker_readiness r1) as [wr|] eqn:Hw; [by apply start_and_run|].
  apply (triple_bind _ _ (fun _ => knows r1)).
  - unfold read_worker_readiness. rewrite Hw. destruct worker_binding as [b|] eqn:Hb; [|by apply triple_ret].
    apply fmap_Some in Hb as (b0 & _ & ->). apply (triple_bind _ _ (fun _ => knows r1)).
    + apply (triple_bind _ _ (fun _ => knows r1)); [|intros pw; by apply triple_ret].
      apply triple_blocked; [by intros l []|].
      eapply triple_weaken; [apply triple_prepare_record|done|by intros a l [_ ?]|done].
    + intros d. apply triple_binding, triple_silent. by intros l [].
  - intros [wr|].
    + eapply triple_bind.
      { apply triple_blocked; [by intros l []|]. apply triple_orderly, triple_register. }
      intros r2. apply triple_pure. intros [(_ & Hs2 & Ho2 & _) _]. apply start_and_run. congruence.
    + apply triple_blocked; [by intros l []|]. apply triple_orderly.
      eapply triple_weaken; [apply triple_release|done| |done].
      intros r' l [[Hs' Hl'] Hk]. split; [right; split; congruence|done].
Qed.

(** A lease is taken over in the same state. *)
Lemma triple_acquire scope r :
  triple (knows r) (acquire me lease_duration scope r)
    (fun r' l => (ar_state r' = ar_state r /\ ar_lease_owner_digest r' = Some me) /\ knows r' l) orderly_foreign.
Proof.
  apply triple_derived.
  - intros t e He. destruct (acquire_activation_lease r me t (t + lease_duration)) as [r'|x] eqn:Ha; [done|].
    destruct (py_derive (Acquire me t (t + lease_duration)) r x Ha) as [y ->]. by injection He as <-.
  - intros t r' Hr. assert (acquire_activation_lease r me t (t + lease_duration) = Ok r') as Ha.
    { destruct (acquire_activation_lease r me t (t + lease_duration)) as [r0|x] eqn:Hacq; [congruence|].
      by destruct x. }
    revert Ha. unfold acquire_activation_lease. made. split; [done|by right].
Qed.

(** What a record says after an attempt to settle it. *)
Definition settled_as (s : ActivationState) (oc : ActivationOutcomeCode) (r : ActivationRecord) : Prop :=
  is_settled (ar_state r) = true \/
  (ar_state r = s /\ ar_outcome_code r = Some oc /\ ar_lease_owner_digest r = None).

Lemma triple_terminal scope i s oc :
  s <> APPLIED ->
  triple (disciplined me) (terminal scope i s oc) (fun r l => settled_as s oc r /\ knows r l) orderly_foreign.
Proof.
  intros Hs. eapply triple_bind; [apply triple_read|]. intros r. destruct (is_settled (ar_state r)) eqn:Hr.
  - apply triple_ret. intros l Hl. split; [by left|done].
  - eapply triple_weaken; [by apply triple_transition|done| |done].
    intros r' l [(_ & Hst & _ & _ & Hoc & Hl) Hk]. split; [by right|done].
Qed.

(** An error of the controller is on record: the latest record is settled, or it has failed
    with the code of the error and is not leased. *)
Definition reported (e : activation_exn) (l : log) : Prop :=
  disciplined me l /\
  forall code msg retryable, e = ActivationControllerError code msg retryable ->
    exists r, latest l = Some r /\ settled_as FAILED code r.

Lemma foreign_reported e l : orderly_foreign e l -> reported e l.
Proof. intros [He Hd]. split; [done|]. by intros code msg retryable ->. Qed.

Lemma blocked_terminal scope i s oc :
  s <> APPLIED ->
  triple (disciplined me) (run_blocking (terminal scope i s oc)) (fun r l => settled_as s oc r /\ knows r l) reported.
Proof.
  intros Hs. apply triple_blocking; [done|apply foreign_reported|].
  eapply triple_weaken; [by apply triple_terminal|done|done|apply foreign_reported].
Qed.

(** A failure is recorded and an error of the controller raised. *)
Lemma triple_fail scope i code e :
  (forall c msg b, e = ActivationControllerError c msg b -> c = code) ->
  triple (disciplined me)
    (_ ← run_blocking (terminal scope i FAILED code); raise_exn e)
    (fun r l => ended r /\ knows r l) reported.
Proof.
  intros He. eapply triple_bind; [by apply blocked_terminal|]. intros r. apply triple_pure. intros Hr.
  apply triple_raise. intros l [Hd Hl]. split; [done|]. intros c msg b Hc. rewrite (He _ _ _ Hc). eauto.
Qed.

(** An activation that is superseded is returned. *)
Lemma triple_supersede scope i code :
  triple (disciplined me) (run_blocking (terminal scope i SUPERSEDED code))
    (fun r l => ended r /\ knows r l) reported.
Proof.
  eapply triple_weaken; [by apply blocked_terminal|done| |done].
  intros r l [[Hs|(Hs & _)] Hk]; (split; [left|done]); [done|by rewrite Hs].
Qed.

Lemma settle_failure_ends scope i e :
  triple (disciplined me) (settle_failure scope i e) (fun r l => ended r /\ knows r l) reported.
Proof.
  assert (forall x, is_controller_error x = false ->
    triple (disciplined me) (raise_exn x : CM (W * log) ActivationRecord)
      (fun r l => ended r /\ knows r l) reported) as Hraise.
  { intros x Hx. apply triple_raise. intros l Hl. by apply foreign_reported. }
  destruct e as [x|kind msg|code msg b|[|] msg|[|] msg]; cbn [settle_failure];
    first [by apply Hraise | apply triple_supersede | apply triple_fail; by intros c m b' [= <- <- <-]].
Qed.

Lemma resume_ends scope i :
  triple (disciplined me) (resume me lease_duration scope i) (fun r l => ended r /\ knows r l) reported.
Proof.
  eapply (triple_bind _ _ (fun r => knows r)).
  { apply triple_blocking; [done|apply foreign_reported|].
    eapply triple_weaken; [apply triple_read|done|done|apply foreign_reported]. }
  intros r. destruct (is_settled (ar_state r)) eqn:Hs.
  { apply triple_ret. intros l Hl. split; [by left|done]. }
  eapply triple_bind.
  { apply triple_blocking; [by intros l []|apply foreign_reported|].
    eapply triple_weaken; [apply triple_acquire|done|done|apply foreign_reported]. }
  intros r1. apply triple_pure. intros [Hs1 Ho1]. eapply triple_catch.
  - apply run_activation_ends; [done|by rewrite Hs1].
  - intros e. apply settle_failure_ends.
Qed.

(** ** The other methods *)

Lemma quiet_blocked {A} (m : CM W A) :
  triple (disciplined me) (run_blocking (below m)) (fun _ => disciplined me) orderly.
Proof. apply triple_blocked; [done|]. by apply triple_silent. Qed.

Lemma quiet_bind {A B} (m : CM (W * log) A) (f : A -> CM (W * log) B) :
  triple (disciplined me) m (fun _ => disciplined me) orderly ->
  (forall a, triple (disciplined me) (f a) (fun _ => disciplined me) orderly) ->
  triple (disciplined me) (m ≫= f) (fun _ => disciplined me) orderly.
Proof. intros Hm Hf. by eapply triple_bind. Qed.

Lemma quiet_ret {A} (a : A) :
  triple (disciplined me) (mret a : CM (W * log) A) (fun _ => disciplined me) orderly.
Proof. by apply triple_ret. Qed.

Lemma quiet_lift {A} (r : ares A) :
  triple (disciplined me) (lift r : CM (W * log) A) (fun _ => disciplined me) orderly.
Proof. by apply triple_lift. Qed.

Lemma quiet_raise {A} e :
  triple (disciplined me) (raise_exn e : CM (W * log) A) (fun _ => disciplined me) orderly.
Proof. by apply triple_raise. Qed.

Lemma quiet_now : triple (disciplined me) now (fun _ => disciplined me) orderly.
Proof. apply triple_orderly, triple_now. done. Qed.

Lemma quiet_knows (m : CM (W * log) ActivationRecord) X :
  triple (disciplined me) m (fun r => knows r) X -> (forall e l, X e l -> disciplined me l) ->
  triple (disciplined me) m (fun _ => disciplined me) orderly.
Proof. intros Hm HX. eapply triple_weaken; [exact Hm|done|by intros r l []|done]. Qed.

Lemma quiet_resume scope i :
  triple (disciplined me) (resume me lease_duration scope i) (fun _ => disciplined me) orderly.
Proof. eapply triple_weaken; [apply resume_ends|done|by intros r l [_ []]|by intros e l []]. Qed.

Lemma quiet_plan scope target :
  triple (disciplined me) (plan scope target) (fun _ => disciplined me) orderly.
Proof.
  unfold plan. do 4 (apply quiet_bind; [apply quiet_blocked|intros ?]). apply quiet_bind.
  { destruct a2; [|apply quiet_ret]. apply quiet_bind; [apply quiet_blocked|intros ?].
    apply quiet_bind; [apply quiet_lift|intros ?]. apply quiet_ret. }
  intros bundle. apply quiet_bind.
  { apply triple_blocked; [done|]. apply quiet_bind; [by apply triple_silent|intros ?]. by apply triple_silent. }
  intros catalog. apply quiet_bind.
  { unfold worker_observation. destruct worker_binding as [b|] eqn:Hb; [|by intros w l Hl].
    apply fmap_Some in Hb as (b0 & _ & ->). by apply triple_binding, triple_silent. }
  intros worker. apply quiet_bind.
  { unfold schedule_observation. destruct schedule_binding as [b|] eqn:Hb; [|apply quiet_ret].
    apply fmap_Some in Hb as (b0 & _ & ->). apply triple_binding.
    apply quiet_bind; [by apply triple_silent|intros ?]. apply quiet_bind; [apply quiet_lift|intros ?]. apply quiet_ret. }
  intros schedule. apply quiet_bind; [by intros w l Hl|intros index]. apply quiet_lift.
Qed.

Lemma activate_disciplined scope target digest key actor correlation rollback_of :
  triple (disciplined me) (activate me lease_duration scope target digest key actor correlation rollback_of)
    (fun _ => disciplined me) orderly.
Proof.
  unfold activate. apply quiet_bind; [apply quiet_lift|intros identity].
  apply quiet_bind; [apply quiet_lift|intros actor_digest]. apply quiet_bind.
  { eapply triple_catch.
    - apply quiet_bind; [|intros r; apply quiet_ret]. apply triple_blocked; [done|].
      eapply quiet_knows; [apply triple_read|by intros e l []].
    - intros e. destruct e as [x|[]| | |]; first [apply quiet_raise|apply quiet_ret]. }
  intros [existing|].
  { destruct (negb _); [apply quiet_raise|apply quiet_resume]. }
  apply quiet_bind; [apply quiet_plan|intros planned]. destruct (negb _); [apply quiet_raise|].
  apply quiet_bind; [apply quiet_now|intros t].
  eapply (triple_bind _ _ (fun pending l => ar_state pending = PENDING /\ disciplined me l)).
  { apply triple_lift; [|done]. intros pending l Hp Hl. split; [|done].
    unfold pending_activation in Hp. do 3 (apply bind_Ok in Hp as (? & _ & Hp)).
    by apply make_activation_eq in Hp as ->. }
  intros pending. apply triple_pure. intros Hp. apply quiet_bind.
  - apply triple_blocked; [done|]. apply quiet_bind.
    + apply triple_announced.
      * intros r l w w' _ Hl. split; [|done]. cbn. by rewrite Hp.
      * intros e l w w' _ Hl. split; [|done]. cbn. by rewrite Hp.
    + intros r. apply quiet_bind; [|intros []; apply quiet_ret]. by apply triple_say.
  - intros r. destruct (negb _); [apply quiet_raise|apply quiet_resume].
Qed.

Lemma register_readiness_disciplined scope i w :
  triple (disciplined me) (register_readiness me lease_duration scope i w) (fun _ => disciplined me) orderly.
Proof.
  unfold register_readiness. apply (triple_bind _ _ (fun r => knows r)).
  { apply triple_blocked; [done|]. apply triple_orderly, triple_read. }
  intros r. apply (triple_bind _ _ (fun _ => knows r)).
  { apply triple_orderly, triple_now. by intros l []. }
  intros t. apply (triple_bind _ _ (fun r' l => register_worker_readiness r w t = Ok r' /\ knows r l)).
  { apply triple_lift; [by intros r' l|by intros e l _ []]. }
  intros r'. apply triple_pure. intros Hr'%readiness_record. eapply triple_bind; [|intros r2; apply quiet_resume].
  case_bool_decide; [apply triple_ret; by intros l []|]. apply triple_blocked; [by intros l []|].
  apply triple_orderly. eapply triple_weaken; [apply triple_update|done|by intros r2 l [_ []]|done].
  intros l Hl. eapply writing_allowed; [done|]. destruct Hr' as [(_ & Hs & _) _]. rewrite Hs. by right.
Qed.

Lemma rollback_disciplined scope i digest key actor correlation :
  triple (disciplined me) (rollback me lease_duration scope i digest key actor correlation)
    (fun _ => disciplined me) orderly.
Proof.
  unfold rollback. apply quiet_bind.
  { apply triple_blocked; [done|]. eapply quiet_knows; [apply triple_read|by intros e l []]. }
  intros original. destruct (negb _); [apply quiet_raise|].
  destruct (ap_expected_active_revision_id _) as [target|]; [|apply quiet_raise].
  apply quiet_bind; [apply activate_disciplined|intros rolled]. destruct (_ && _); [|apply quiet_ret].
  apply quiet_bind; [apply quiet_now|intros t].
  eapply (triple_bind _ _ (fun r l => ar_state r = ROLLED_BACK /\ disciplined me l)).
  { apply triple_lift; [|done]. intros r l Hr Hl. split; [|done]. by apply transition_record in Hr as (_ & Hs & _). }
  intros r. apply triple_pure. intros Hr. apply quiet_bind; [|intros r'; apply quiet_ret].
  eapply (triple_catch _ _ _ _ orderly).
  - apply triple_blocked; [done|]. apply triple_orderly.
    eapply triple_weaken; [apply (triple_update (disciplined me))|done|by intros r2 l [_ []]|done].
    intros l Hl. split; [done|]. cbn. by rewrite Hr.
  - intros e. destruct e as [x|[]| | |]; try apply quiet_raise. apply quiet_bind.
    + apply triple_blocked; [done|]. eapply quiet_knows; [apply triple_read|by intros e' l []].
    + intros current. case_bool_decide; [apply quiet_ret|apply quiet_raise].
Qed.
End records.

(** ** Methods *)

(** A call of a method of the controller. *)
Inductive method :=
| CallResume (scope : RuntimeScope) (activation_id : string)
| CallActivate (scope : RuntimeScope) (target_revision_id plan_digest idempotency_key actor correlation : string)
| CallRegisterReadiness (scope : RuntimeScope) (activation_id : string) (w : WorkerReadinessRegistration)
| CallRollback (scope : RuntimeScope) (activation_id plan_digest idempotency_key actor correlation : string).

Definition call_method `{Sha256, FloatRepr, ActivationEnvironment W} (me : string) (lease_duration : Z) (m : method)
  : CM W ActivationRecord :=
  match m with
  | CallResume scope i => resume me lease_duration scope i
  | CallActivate scope t d k a c => activate me lease_duration scope t d k a c None
  | CallRegisterReadiness scope i w => register_readiness me lease_duration scope i w
  | CallRollback scope i d k a c => rollback me lease_duration scope i d k a c
  end.

(** Calls one after the other, each on the world that the one before leaves. *)
Fixpoint call_methods `{Sha256, FloatRepr, ActivationEnvironment W} (me : string) (lease_duration : Z)
    (ms : list method) (w : W) : list (ares ActivationRecord) * W :=
  match ms with
  | [] => ([], w)
  | m :: ms =>
      let '(a, w1) := call_method me lease_duration m w in
      let '(l, w2) := call_methods me lease_duration ms w1 in
      (a :: l, w2)
  end.


(** C36: [resume] leaves a clear record.  When it returns, the activation is applied,
    superseded or rolled back, or waits for its worker without holding a lease.  When it
    raises an error of the controller, the latest record has failed with the code of that
    error and is not leased, unless another controller has settled the activation. *)
Theorem resume_outcomes `{Sha256, FloatRepr} {W : Type} (E : ActivationEnvironment W)
    (me : string) (lease_duration : Z) (scope : RuntimeScope) (i : string) (w : W) :
  ActivationStoreLaws E ->
  let '(a, (_, l)) := @resume _ _ _ (observed E) me lease_duration scope i (w, []) in
  match a with
  | Ok r => latest l = Some r /\ ended r
  | Raise (ActivationControllerError code _ _) => exists r, latest l = Some r /\ settled_as FAILED code r
  | Raise _ => True
  end.
Proof.
  intros HE. pose proof (resume_ends E me lease_duration scope i w [] I) as Hr. cbv beta in Hr.
  unfold observed_environment in Hr.
  destruct (@resume _ _ _ (observed E) me lease_duration scope i (w, [])) as [[r|e] [w' l]].
  - by destruct Hr as [He [_ Hl]].
  - destruct Hr as [_ Hr]. destruct e; try done. by eapply Hr.
Qed.

(** ** The SQLite store keeps the contract *)

(** [E] with its activations in a SQLite table; the world says when SQLite works. *)
Definition on_sqlite `{Sha256, RecordCodec ActivationRecord} {W} (E : ActivationEnvironment W) (works : W -> bool)
  : ActivationEnvironment (W * table) :=
  let side {A} (m : CM W A) : CM (W * table) A := fun '(w, t) => let '(r, w') := m w in (r, (w', t)) in
  let on {A} (f : bool -> table -> ares A * table) : CM (W * table) A :=
    fun '(w, t) => let '(r, t') := f (works w) t in (r, (w, t')) in
  {| take_slot := side take_slot; clock := side clock; timestamp_text := timestamp_text;
     read_activation scope i := on (fun b t => (read_record activation_kind b scope i t, t));
     create_activation scope r := on (fun b t => create_record activation_kind b scope r t);
     update_activation scope r v := on (fun b t => update_record activation_kind b scope r v t);
     read_revision scope i := side (read_revision scope i);
     read_active scope := side (read_active scope);
     compare_and_swap_active scope i e v := side (compare_and_swap_active scope i e v);
     prepare scope r := side (prepare scope r);
     prepare_worker_deployment p := side (prepare_worker_deployment p);
     Catalog := @Catalog W E;
     read_catalog scope := side (read_catalog scope);
     inspect c := side (inspect c);
     store_definition_manifest c m := side (store_definition_manifest c m);
     store_environment_snapshot c s := side (store_environment_snapshot c s);
     replace_aliases c a v := side (replace_aliases c a v);
     worker_binding :=
       (fun b => {| wb_observe scope := side (wb_observe b scope); wb_rollout d p := side (wb_rollout b d p);
                    wb_readiness d := side (wb_readiness b d); wb_route a p := side (wb_route b a p) |})
       <$> worker_binding;
     schedule_binding :=
       (fun b => {| sb_observe scope := side (sb_observe b scope); sb_reconcile p := side (sb_reconcile b p) |})
       <$> schedule_binding;
     get_runtime_index w := get_runtime_index w.1;
     set_runtime_index i w := (set_runtime_index i w.1, w.2) |}.

Lemma sqlite_laws `{Sha256, RecordCodec ActivationRecord} {W} (E : ActivationEnvironment W) works :
  foreign_errors (@clock W E) -> foreign_errors (@take_slot W E) -> ActivationStoreLaws (on_sqlite E works).
Proof.
  intros Hclock Hslot. split.
  - intros scope r v [w t] r' [w' t']. cbn. pose proof (update_record_answers activation_kind (works w) scope r v t) as Ha.
    destruct (update_record _ _ _ _ _ _) as [[r0|e] t0]; intros [= <- _ _]. exact Ha.
  - intros scope r v [w t] e [w' t']. cbn. pose proof (update_record_answers activation_kind (works w) scope r v t) as Ha.
    destruct (update_record _ _ _ _ _ _) as [[r0|x] t0]; intros [= <- _ _]. by destruct Ha as (k & msg & ->).
  - intros scope i [w t] e [w' t']. cbn. pose proof (read_record_answers activation_kind (works w) scope i t) as Ha.
    destruct (read_record _ _ _ _ _) as [r0|x]; intros [= <- _ _]. by destruct Ha as (k & msg & ->).
  - intros [w t] e [w' t']. cbn. destruct (clock w) as [r w1] eqn:Hc. intros [= -> _ _]. by eapply Hclock.
  - intros [w t] e [w' t']. cbn. destruct (take_slot w) as [r w1] eqn:Hc. intros [= -> _ _]. by eapply Hslot.
Qed.

(** ** Samples *)

#[local] Existing Instance sample_sha256.
#[local] Existing Instance coded_floats.

(** An environment in memory: one table of records, one active pointer, no catalog content
    and no bindings. *)
Record sample_world := {
  sw_records : list (string * ActivationRecord);
  sw_pointer : option ActivePointer;
  sw_index : PreparedRuntimeIndex;
  sw_time : Z;
}.

Definition with_records (v : list (string * ActivationRecord)) (w : sample_world) : sample_world :=
  {| sw_records := v; sw_pointer := sw_pointer w; sw_index := sw_index w; sw_time := sw_time w |}.

Definition sample_bundle : ConfigurationBundle := {|
  bu_resources := []; bu_services := []; bu_workflows := []; bu_triggers := [];
  bu_tenant_configuration_revision_id := None |}.

Definition sample_prepared (scope : RuntimeScope) (revision : RevisionRecord) : PreparedActivation := {|
  pa_scope := scope; pa_revision := revision; pa_policy_digest := sample_provenance "4";
  pa_artifact := sample_artifact; pa_task_queue_identity_digest := sample_provenance "7"; pa_manifests := [];
  pa_environment_snapshots := []; pa_start_targets := []; pa_desired_schedules := [] |}.

Definition sample_update (r : ActivationRecord) (v : Z) (w : sample_world) : ares ActivationRecord * sample_world :=
  match dict_get (ar_activation_id r) (sw_records w) with
  | Some r0 =>
      if bool_decide (ar_version r0 = v) then (Ok r, with_records (dict_set (ar_activation_id r) r (sw_records w)) w)
      else (conflict_error (ar_activation_id r), w)
  | None => (conflict_error (ar_activation_id r), w)
  end.

Definition sample_environment : ActivationEnvironment sample_world := {|
  take_slot := fun w => (Ok tt, w);
  clock := fun w =>
    (Ok (Some (sw_time w)),
     {| sw_records := sw_records w; sw_pointer := sw_pointer w; sw_index := sw_index w; sw_time := sw_time w + 1 |}%Z);
  timestamp_text := Z_to_string;
  read_activation scope i := fun w =>
    (match dict_get i (sw_records w) with
     | Some r => Ok r
     | None => Raise (ActivationError ActivationNotFoundError "Configuration activation was not found")
     end, w);
  create_activation scope r := fun w =>
    (Ok r, with_records (dict_set (ar_activation_id r) r (sw_records w)) w);
  update_activation scope r v := sample_update r v;
  read_revision scope i := fun w =>
    (Ok {| rv_scope_digest := digest scope; rv_revision_id := i; rv_bundle := ResolvedBundle sample_bundle |}, w);
  read_active scope := fun w => (Ok (sw_pointer w), w);
  compare_and_swap_active scope i e v := fun w =>
    let p := {| ptr_scope_digest := digest scope; ptr_revision_id := i;
                ptr_version := match v with Some v => v + 1 | None => 1 end |}%Z in
    (Ok p, {| sw_records := sw_records w; sw_pointer := Some p; sw_index := sw_index w; sw_time := sw_time w |});
  prepare scope r := fun w => (Ok (sample_prepared scope r), w);
  prepare_worker_deployment p := fun w => (Ok {| pd_target := p; pd_assignments := [p] |}, w);
  Catalog := unit;
  read_catalog scope := fun w => (Ok tt, w);
  inspect c := fun w => (Ok {| cs_aliases := []; cs_alias_version := None |}, w);
  store_definition_manifest c m := fun w => (Ok tt, w);
  store_environment_snapshot c s := fun w => (Ok tt, w);
  replace_aliases c a v := fun w => (Ok "1", w);
  worker_binding := None;
  schedule_binding := None;
  get_runtime_index := sw_index;
  set_runtime_index i w :=
    {| sw_records := sw_records w; sw_pointer := sw_pointer w; sw_index := i; sw_time := sw_time w |};
|}.

#[local] Existing Instance sample_environment.

Lemma sample_laws : ActivationStoreLaws sample_environment.
Proof.
  split.
  - intros scope r v w r' w'. cbn. unfold sample_update, conflict_error, activation_error.
    destruct (dict_get _ _) as [r0|]; [destruct (bool_decide _)|]; intros Heq; congruence.
  - intros scope r v w e w'. cbn. unfold sample_update, conflict_error, activation_error.
    destruct (dict_get _ _) as [r0|]; [destruct (bool_decide _)|]; intros Heq; simplify_eq; done.
  - intros scope i w e w'. cbn. destruct (dict_get _ _); intros [= <- _]; done.
  - by intros w e w' [=].
  - by intros w e w' [=].
Qed.

Definition sample_start : sample_world := {|
  sw_records := []; sw_pointer := None;
  sw_index := {| ix_max_scopes := 10; ix_max_targets_per_scope := 10; ix_entries := [] |}; sw_time := 5 |}.

Definition me : string := sample_digest "1".

Definition planned : ActivationPlan :=
  match (plan sample_scope (sample_digest "3") sample_start).1 with Ok p => p | Raise _ => sample_plan end.

Definition planned_readiness : WorkerReadinessRegistration := {|
  wr_configuration_revision_id := ap_target_revision_id planned; wr_artifact := sample_artifact;
  wr_definition_digests := []; wr_task_queue_identity_digest := sample_provenance "7";
  wr_deployment_registration_digest := ap_target_worker_registration_digest planned; wr_registered_at := 9 |}.

Definition planned_identity : string :=
  match activation_identity (digest sample_scope) "key" with Ok i => i | Raise _ => "" end.

(** An activation that waits for its worker, and is applied once the worker registers. *)
Definition sample_calls : list method :=
  [CallActivate sample_scope (sample_digest "3") (ap_plan_digest planned) "key" "operator" "request";
   CallRegisterReadiness sample_scope planned_identity planned_readiness].

Example sample_states :
  map (fun a => match a with Ok r => Some (ar_state r) | Raise _ => None end)
    (call_methods me 30 sample_calls sample_start).1
  = [Some WAITING_FOR_READINESS; Some APPLIED].
Proof. vm_compute. reflexivity. Qed.

Definition event_name (e : event) : string :=
  match e with
  | Held _ => "held" | Writing _ => "writing" | Storing => "storing" | RollingOut _ _ => "rollout"
  | Reconciling _ => "reconcile" | ReplacingAliases _ => "aliases" | Routing _ _ => "route"
  | Advancing _ _ _ => "advance" | Indexing => "index"
  end.


(** The record of an activation whose controller lost its lease to another one. *)
Definition taken_over : ActivationRecord :=
  record_of (derive (Acquire (sample_digest "9") 3 100) (record_of (derive (Transition RUNNING 2 None false) sample_record))).

Definition taken_world : sample_world := with_records [(ar_activation_id taken_over, taken_over)] sample_start.

(** [_terminal] does not look at the lease: it fails the activation that another
    controller is running, and releases the lease of that controller. *)
Example terminal_ignores_lease :
  match (terminal sample_scope (ar_activation_id taken_over) FAILED WORKER_UNAVAILABLE taken_world).1 with
  | Ok r => ar_state r = FAILED /\ ar_lease_owner_digest r = None
  | Raise _ => False
  end.
Proof. vm_compute. by split. Qed.

Lemma resume_outcomes_witness :
  let '(a, (_, l)) := @resume sample_sha256 coded_floats _ (observed sample_environment) (sample_digest "9") 30
                        sample_scope (ar_activation_id taken_over) (taken_world, []) in
  match a with
  | Ok r => latest l = Some r /\ ended r
  | Raise (ActivationControllerError code _ _) => exists r, latest l = Some r /\ settled_as FAILED code r
  | Raise _ => True
  end.
Proof.
  apply (@resume_outcomes sample_sha256 coded_floats sample_world sample_environment (sample_digest "9") 30
           sample_scope (ar_activation_id taken_over) taken_world).
  exact sample_laws.
Defined.
