(* ===== verification/ScheduleReconciler.v ===== *)
(** Observation of the schedules that Temporal holds and the application of a plan
    ([runtime/schedule_reconciler.py]).  The client of Temporal is a parameter. *)

From S2P Require Export Schedules.

(** ** Computations over the world *)

Definition SM (W A : Type) : Type := W -> sres A * W.

#[export] Instance SM_ret W : MRet (SM W) := fun A a w => (Ok a, w).

#[export] Instance SM_bind W : MBind (SM W) :=
  fun A B f m w => match m w with (Ok a, w') => f a w' | (Raise e, w') => (Raise e, w') end.

Definition sraise {W A} (e : schedule_exn) : SM W A := fun w => (Raise e, w).

Definition slift {W A} (r : sres A) : SM W A := fun w => (r, w).

(** [try: m; except: h] *)
Definition scatch {W A} (m : SM W A) (h : schedule_exn -> SM W A) : SM W A :=
  fun w => match m w with (Raise e, w') => h e w' | r => r end.

(** The exception is an [Exception]: a cancellation is not. *)
Definition is_Exception (e : schedule_exn) : bool :=
  match e with
  | SchedulePyError e => match exn_cls e with AsyncioCancelledError => false | _ => true end
  | _ => true
  end.

Definition reconciliation_error {W A} (code : ScheduleReconciliationErrorCode) (msg : string) : SM W A :=
  sraise (ScheduleReconciliationError code msg).

Fixpoint smap {W A B} (f : A -> SM W B) (l : list A) : SM W (list B) :=
  match l with
  | [] => mret []
  | x :: l => y ← f x; ys ← smap f l; mret (y :: ys)
  end.

(** ** What the client answers *)

(** [memo_value(key, None, type_hint=str)]: nothing, a text, a value of another type, or
    an exception of the codec. *)
Inductive memo_read :=
| MemoAbsent
| MemoText (value : string)
| MemoOther (type_name : string)
| MemoError (error_type : string).

(** A value of the memo of an action: nothing, a text, a payload with what decoding it to
    one text gives, or a value of another type. *)
Inductive action_memo_read :=
| ActionMemoAbsent
| ActionMemoText (value : string)
| ActionMemoPayload (decoded : result string (list (option string)))
| ActionMemoOther (type_name : string).

(** [ScheduleActionStartWorkflow] of a description. *)
Record DescribedAction := {
  da_workflow : string;
  da_id : string;
  da_memo : option (string -> action_memo_read);
}.

(** [ScheduleDescription]; [sd_action] is [None] for an action of another type. *)
Record ScheduleDescription := {
  sd_id : string;
  sd_memo : string -> memo_read;
  sd_action : option DescribedAction;
}.

(** [ScheduleListDescription] *)
Record ScheduleListEntry := {
  le_id : string;
  le_memo : string -> memo_read;
}.

(** The updater that [ScheduleHandle.update] calls: it may raise, or answer with a new
    schedule or nothing, and changes a variable of its caller. *)
Definition updater_type : Type := ScheduleDescription -> bool -> sres (option TemporalSchedule) * bool.

(** The client of Temporal.  A listing yields entries and then may raise. *)
Class TemporalClient (W : Type) := {
  list_schedules : W -> (list ScheduleListEntry * option schedule_exn) * W;
  describe_schedule : string -> SM W ScheduleDescription;
  create_schedule : string -> TemporalSchedule -> list (string * string) -> SM W unit;
  update_schedule : string -> updater_type -> bool -> W -> (sres unit * bool) * W;
  delete_schedule : string -> SM W unit;
}.

(** ** Memo strings *)

(** [_MemoStringResult] *)
Inductive MemoStringResult :=
| MissingMemoString
| DecodedMemoString (value : string)
| CorruptMemoString (error_type : string).

(** [_entity_memo_string] *)
Definition entity_memo_string (memo : string -> memo_read) (key : string) : MemoStringResult :=
  match memo key with
  | MemoAbsent => MissingMemoString
  | MemoText v => DecodedMemoString v
  | MemoOther t | MemoError t => CorruptMemoString t
  end.

(** [_action_memo_string] *)
Definition action_memo_string (a : DescribedAction) (key : string) : MemoStringResult :=
  match da_memo a with
  | None => MissingMemoString
  | Some memo =>
      match memo key with
      | ActionMemoText v => DecodedMemoString v
      | ActionMemoAbsent => MissingMemoString
      | ActionMemoOther t => CorruptMemoString t
      | ActionMemoPayload (Raise t) => CorruptMemoString t
      | ActionMemoPayload (Ok [Some v]) => DecodedMemoString v
      | ActionMemoPayload (Ok _) => CorruptMemoString "DecodedValue"
      end
  end.

(** [_memo_string_value] *)
Definition memo_string_value (r : MemoStringResult) : option string :=
  match r with DecodedMemoString v => Some v | _ => None end.

Definition is_corrupt (r : MemoStringResult) : bool :=
  match r with CorruptMemoString _ => true | _ => false end.

(** [_corrupt_memo_keys] *)
Definition corrupt_memo_keys (results : list (string * MemoStringResult)) : list string :=
  sorted_strings (filter (fun kv => is_corrupt kv.2 = true) results).*1.

Section reconciler.
Context `{Sha256, FloatRepr}.

(** The corrupt keys of the memo of a schedule. *)
Definition entity_corrupt_keys (memo : string -> memo_read) : list string :=
  corrupt_memo_keys ((fun k => (k, entity_memo_string memo k)) <$>
                     [MEMO_SCHEDULE_OWNER; MEMO_SCHEDULE_NAME; MEMO_SCOPE_DIGEST]).

Definition entity_value (memo : string -> memo_read) (key : string) : option string :=
  memo_string_value (entity_memo_string memo key).

Definition action_value (a : DescribedAction) (key : string) : option string :=
  memo_string_value (action_memo_string a key).

(** An observation with nothing of the action. *)
Definition observed_entity (schedule_id : string) (memo : string -> memo_read) (action_valid : bool)
    (corrupt_keys : list string) : ObservedSchedule :=
  {| os_schedule_id := schedule_id; os_owner := entity_value memo MEMO_SCHEDULE_OWNER;
     os_schedule_name := entity_value memo MEMO_SCHEDULE_NAME; os_desired_digest := None;
     os_scope_digest := entity_value memo MEMO_SCOPE_DIGEST; os_action_valid := action_valid;
     os_corrupt_metadata_keys := corrupt_keys |}.

(** [observed_schedule_from_description] *)
Definition observed_schedule_from_description (d : ScheduleDescription) : sres ObservedSchedule :=
  let memo := sd_memo d in
  let owner := entity_value memo MEMO_SCHEDULE_OWNER in
  let scope_digest := entity_value memo MEMO_SCOPE_DIGEST in
  if negb (bool_decide (entity_corrupt_keys memo = []))
  then Ok (observed_entity (sd_id d) memo true (entity_corrupt_keys memo))
  else
    match entity_value memo MEMO_SCHEDULE_NAME with
    | None => Ok (observed_entity (sd_id d) memo true [])
    | Some name =>
        if negb (bool_decide (owner = Some SCHEDULE_OWNER)) then Ok (observed_entity (sd_id d) memo true [])
        else
          match sd_action d with
          | None => Ok (observed_entity (sd_id d) memo false [])
          | Some action =>
              expected_action_id ←
                match scope_digest with
                | None => Ok (make_unscoped_schedule_dispatch_workflow_id name)
                | Some s => lift_res (scoped_identity_from_digest "schedule-dispatch" s [name])
                end;
              Ok {| os_schedule_id := sd_id d; os_owner := owner; os_schedule_name := Some name;
                    os_desired_digest := action_value action MEMO_SCHEDULE_DESIRED_DIGEST;
                    os_scope_digest := scope_digest;
                    os_action_valid :=
                      bool_decide (action_value action MEMO_SCHEDULE_OWNER = Some SCHEDULE_OWNER)
                      && bool_decide (action_value action MEMO_SCHEDULE_NAME = Some name)
                      && bool_decide (da_workflow action = SCHEDULE_DISPATCH_WORKFLOW_TYPE)
                      && bool_decide (da_id action = expected_action_id);
                    os_corrupt_metadata_keys :=
                      corrupt_memo_keys ((fun k => (k, action_memo_string action k)) <$>
                        [MEMO_SCHEDULE_OWNER; MEMO_SCHEDULE_NAME; MEMO_SCHEDULE_DESIRED_DIGEST]) |}
          end
    end.

(** [_same_managed_identity] *)
Definition same_managed_identity (actual : ObservedSchedule) (desired : DesiredSchedule) : bool :=
  valid_managed_identity actual && bool_decide (os_schedule_id actual = ds_schedule_id desired)
  && bool_decide (os_schedule_name actual = Some (ds_schedule_name desired))
  && bool_decide (os_scope_digest actual = ds_scope_digest desired).

(** [_matches_desired] *)
Definition matches_desired (actual : ObservedSchedule) (desired : DesiredSchedule) : bool :=
  same_managed_identity actual desired && bool_decide (os_desired_digest actual = Some (ds_desired_digest desired)).
End reconciler.

(** ** The reconciler *)

Definition SCHEDULED_START_SCHEDULE_ID_PREFIX : string := "jf1.scheduled-start-schedule.".
Definition SCHEDULED_START_MAINTENANCE_ID_PREFIX : string := "justflow-scheduled-start-maintenance-".

(** [ScheduleApplyStatus], [ScheduleApplyItem], [ScheduleApplyResult] *)
Inductive ScheduleApplyStatus := APPLY_APPLIED | ALREADY_APPLIED | APPLY_FAILED.

#[export] Instance ScheduleApplyStatus_eq_dec : EqDecision ScheduleApplyStatus.
Proof. solve_decision. Defined.

Record ScheduleApplyItem := {
  ai_schedule_id : string;
  ai_schedule_name : option string;
  ai_change : ScheduleChangeKind;
  ai_status : ScheduleApplyStatus;
  ai_error_code : option ScheduleApplyErrorCode;
}.

Record ScheduleApplyResult := {
  ar_plan_digest : string;
  ar_items : list ScheduleApplyItem;
}.

(** [ScheduleApplyResult.successful] *)
Definition successful (r : ScheduleApplyResult) : bool :=
  forallb (fun i => negb (bool_decide (ai_status i = APPLY_FAILED))) (ar_items r).

(** The schedules of scheduled starts, which are not reconciled. *)
Definition foreign_id (id : string) : bool :=
  startswith SCHEDULED_START_SCHEDULE_ID_PREFIX id || startswith SCHEDULED_START_MAINTENANCE_ID_PREFIX id.

Section reconcile.
Context `{Sha256, FloatRepr} {W : Type} `{TemporalClient W} (max_schedules : Z) (scope : RuntimeScope).

(** An entry is of this scope by its memo, or by its identity when the memo is corrupt. *)
Definition belongs_here (entry : ScheduleListEntry) : sres bool :=
  let scope_result := entity_memo_string (le_memo entry) MEMO_SCOPE_DIGEST in
  if legacy_owns (memo_string_value scope_result) scope then Ok true
  else if negb (is_corrupt scope_result) then Ok false
  else
    mine ← lift_res (identity_belongs_to_scope (le_id entry) "schedule" scope);
    Ok (mine || bool_decide (scope = LOCAL_RUNTIME_SCOPE) && startswith SCHEDULE_ID_PREFIX (le_id entry)).

(** The loop over the listing. *)
Fixpoint scan (scanned : Z) (entries : list ScheduleListEntry) : sres (list ScheduleListEntry) :=
  match entries with
  | [] => Ok []
  | entry :: entries =>
      if foreign_id (le_id entry) then scan scanned entries
      else if (max_schedules <? scanned + 1)%Z
      then Raise (ScheduleReconciliationError COLLECTION_LIMIT
                    "Schedule collection exceeds the configured observation bound")
      else
        here ← belongs_here entry;
        listed ← scan (scanned + 1) entries;
        Ok (if (here : bool) then entry :: listed else listed)
  end.

Definition is_reconciliation_error (e : schedule_exn) : bool :=
  match e with ScheduleReconciliationError _ _ => true | _ => false end.

(** The [except] clauses around the listing. *)
Definition listing_error {A} (e : schedule_exn) : SM W A :=
  if is_reconciliation_error e || negb (is_Exception e) then sraise e
  else reconciliation_error TEMPORAL_UNAVAILABLE "Temporal schedules could not be listed".

Definition list_entries : SM W (list ScheduleListEntry) :=
  fun w =>
  let '((entries, failure), w') := list_schedules w in
  match scan 0 entries with
  | Raise e => listing_error e w'
  | Ok listed => match failure with Some e => listing_error e w' | None => (Ok listed, w') end
  end.

(** [observe_entry] *)
Definition observe_entry (entry : ScheduleListEntry) : SM W ObservedSchedule :=
  let corrupt_keys := entity_corrupt_keys (le_memo entry) in
  if negb (bool_decide (corrupt_keys = []))
  then mret (observed_entity (le_id entry) (le_memo entry) true corrupt_keys)
  else if negb (bool_decide (entity_value (le_memo entry) MEMO_SCHEDULE_OWNER = Some SCHEDULE_OWNER))
  then mret (observed_entity (le_id entry) (le_memo entry) true [])
  else
    description ← scatch (describe_schedule (le_id entry)) (fun e =>
      if is_Exception e
      then reconciliation_error TEMPORAL_UNAVAILABLE "A managed Temporal schedule could not be described"
      else sraise e);
    slift (observed_schedule_from_description description).

(** [ScheduleReconciler.observe]: the schedules by their identity.  The descriptions of one
    observation are independent of each other; they are taken in the order of the listing. *)
Definition observe : SM W (list (string * ObservedSchedule)) :=
  listed ← list_entries;
  observed ← smap observe_entry listed;
  mret (dict_of_pairs ((fun o => (os_schedule_id o, o)) <$> observed)).

(** [ScheduleReconciler.plan] *)
Definition reconciler_plan (desired : list (string * DesiredSchedule)) (decision : UnscopedScheduleDecision)
  : SM W SchedulePlan :=
  observed ← observe;
  slift (plan_schedule_reconciliation desired observed decision).

(** [_describe_observed] *)
Definition describe_observed (schedule_id : string) : SM W ObservedSchedule :=
  description ← describe_schedule schedule_id;
  slift (observed_schedule_from_description description).

Definition mutation_error {A} (code : ScheduleApplyErrorCode) : SM W A := sraise (ScheduleMutationError code).

(** [_create] *)
Definition create_desired (desired : DesiredSchedule) : SM W ScheduleApplyStatus :=
  scatch (_ ← create_schedule (ds_schedule_id desired) (ds_schedule desired) (ds_memo desired); mret APPLY_APPLIED)
    (fun e =>
      match e with
      | ScheduleAlreadyRunningError =>
          actual ← describe_observed (ds_schedule_id desired);
          if matches_desired actual desired then mret ALREADY_APPLIED else mutation_error OWNERSHIP_CHANGED
      | _ => sraise e
      end).

(** The updater of [_update]; its flag is [already_applied]. *)
Definition updater (desired : DesiredSchedule) (expected : ObservedSchedule) : updater_type :=
  fun description already_applied =>
  match observed_schedule_from_description description with
  | Raise e => (Raise e, already_applied)
  | Ok actual =>
      if negb (same_managed_identity actual desired)
      then (Raise (ScheduleMutationError OWNERSHIP_CHANGED), already_applied)
      else if bool_decide (os_desired_digest actual = Some (ds_desired_digest desired))
      then (Ok None, true)
      else if negb (bool_decide (actual = expected))
      then (Raise (ScheduleMutationError OWNERSHIP_CHANGED), already_applied)
      else (Ok (Some (ds_schedule desired)), already_applied)
  end.

(** [_update] *)
Definition update_desired (desired : DesiredSchedule) (expected : ObservedSchedule) : SM W ScheduleApplyStatus :=
  fun w =>
  match update_schedule (ds_schedule_id desired) (updater desired expected) false w with
  | ((Raise (ScheduleRPCError status), _), w') =>
      if bool_decide (status = "NOT_FOUND") then mutation_error OWNERSHIP_CHANGED w'
      else (Raise (ScheduleRPCError status), w')
  | ((Raise e, _), w') => (Raise e, w')
  | ((Ok _, already_applied), w') => (Ok (if already_applied then ALREADY_APPLIED else APPLY_APPLIED), w')
  end.

(** [except RPCError as exc: if exc.status is NOT_FOUND: return ALREADY_APPLIED] *)
Definition gone_already (e : schedule_exn) : SM W (option ObservedSchedule) :=
  match e with
  | ScheduleRPCError status => if bool_decide (status = "NOT_FOUND") then mret None else sraise e
  | _ => sraise e
  end.

(** [_delete] *)
Definition delete_expected (expected : ObservedSchedule) : SM W ScheduleApplyStatus :=
  actual ← scatch (actual ← describe_observed (os_schedule_id expected); mret (Some actual)) gone_already;
  match (actual : option ObservedSchedule) with
  | None => mret ALREADY_APPLIED
  | Some actual =>
      if negb (bool_decide (actual = expected)) || negb (valid_managed_identity actual)
      then mutation_error OWNERSHIP_CHANGED
      else
        deleted ← scatch (_ ← delete_schedule (os_schedule_id expected); mret (Some actual)) gone_already;
        mret (match (deleted : option ObservedSchedule) with None => ALREADY_APPLIED | Some _ => APPLY_APPLIED end)
  end.

(** [d[key]] *)
Definition item {A} (key : string) (d : list (string * A)) : SM W A :=
  match dict_get key d with
  | Some a => mret a
  | None => sraise (SchedulePyError (Exn KeyError ("'" +:+ key +:+ "'") None))
  end.

(** [_apply_change] *)
Definition apply_change (plan : SchedulePlan) (c : ScheduleChange) : SM W ScheduleApplyStatus :=
  match sc_kind c with
  | CHANGE_CREATE =>
      desired ← item (sc_schedule_id c) (sp_desired plan);
      create_desired desired
  | CHANGE_UPDATE =>
      desired ← item (sc_schedule_id c) (sp_desired plan);
      expected ← item (sc_schedule_id c) (sp_observed plan);
      update_desired desired expected
  | CHANGE_DELETE =>
      expected ← item (sc_schedule_id c) (sp_observed plan);
      delete_expected expected
  | CHANGE_CONFLICT => mutation_error OWNERSHIP_CHANGED
  end.

Definition apply_item (c : ScheduleChange) (status : ScheduleApplyStatus) (code : option ScheduleApplyErrorCode)
  : ScheduleApplyItem :=
  {| ai_schedule_id := sc_schedule_id c; ai_schedule_name := sc_schedule_name c; ai_change := sc_kind c;
     ai_status := status; ai_error_code := code |}.

(** The body of the loop of [apply]: a change that fails is recorded. *)
Definition apply_one (plan : SchedulePlan) (c : ScheduleChange) : SM W ScheduleApplyItem :=
  scatch (status ← apply_change plan c; mret (apply_item c status None))
    (fun e =>
      match e with
      | ScheduleMutationError code => mret (apply_item c APPLY_FAILED (Some code))
      | _ => if is_Exception e then mret (apply_item c APPLY_FAILED (Some APPLY_TEMPORAL_UNAVAILABLE)) else sraise e
      end).

(** [validate_apply] *)
Definition validate_apply (plan : SchedulePlan) (confirmation : string) : SM W unit :=
  if negb (bool_decide (confirmation = sp_plan_digest plan))
  then reconciliation_error CONFIRMATION_REQUIRED "Schedule apply confirmation does not match the current plan"
  else if has_conflicts plan
  then reconciliation_error PLAN_CONFLICT "Schedule plan contains ownership conflicts"
  else mret tt.

(** [ScheduleReconciler.apply] *)
Definition reconciler_apply (plan : SchedulePlan) (confirmation : string) : SM W ScheduleApplyResult :=
  _ ← validate_apply plan confirmation;
  items ← smap (apply_one plan) (sp_changes plan);
  mret {| ar_plan_digest := sp_plan_digest plan; ar_items := items |}.
End reconcile.
