(* ===== verification/ScheduleFacts.v ===== *)
(** Schedules: what compiled schedules denote, and that reconciliation converges on a
    server that nobody else writes to ([config/schedules.py], [runtime/schedules.py],
    [runtime/schedule_reconciler.py]). *)

From stdpp Require Import gmap sorting.
From S2P Require Export ScopeFacts ActivationFacts ScheduleReconciler.

(** ** Calendars *)

(** The actions that a Temporal range stands for. *)
Definition range_matches (r : TemporalRange) (z : Z) : Prop :=
  (tr_start r <= z <= tr_end r)%Z /\ (tr_step r | z - tr_start r)%Z.

Lemma elem_of_range r z :
  is_ok (validate_range r) = true ->
  z ∈ range_values r <->
  range_matches {| tr_start := cr_start r; tr_end := range_end r; tr_step := cr_step r |} z.
Proof.
  intros [Hs He]%valid_range. split.
  - intros Hz. split; [by apply elem_of_range_values|]. cbn.
    apply list_elem_of_fmap in Hz as (i & -> & _). exists (Z.of_nat i). lia.
  - intros [Hb [q Hq]]. cbn in *. unfold range_values.
    assert (q <= (range_end r - cr_start r) / cr_step r)%Z by (apply Z.div_le_lower_bound; nia).
    apply list_elem_of_fmap. exists (Z.to_nat q). rewrite elem_of_seq. split; nia.
Qed.

Lemma elem_of_field_values ranges z :
  Forall (fun r => is_ok (validate_range r) = true) ranges ->
  z ∈ field_values ranges <-> Exists (fun r => range_matches r z) (temporal_ranges ranges).
Proof.
  intros Hr. unfold field_values, temporal_ranges. rewrite elem_of_list_to_set, list_elem_of_bind.
  rewrite list.Exists_exists. rewrite Forall_forall in Hr. split.
  - intros (r & Hz & Hin). eexists. split; [by apply list_elem_of_fmap; exists r|].
    apply (elem_of_range r); [by apply Hr|done].
  - intros (x & (r & -> & Hin)%list_elem_of_fmap & Hm). exists r. split; [|done].
    apply (elem_of_range r); [by apply Hr|done].
Qed.

Lemma size_cprod {A B} `{Countable A, Countable B} (X : gset A) (Y : gset B) :
  size (cprod X Y : gset (A * B)) = (size X * size Y)%nat.
Proof.
  assert (Hl : (cprod X Y : gset (A * B)) = list_to_set (x ← elements X; pair x <$> elements Y)).
  { apply set_eq. intros [x y]. rewrite elem_of_list_to_set, list_elem_of_bind, elem_of_gset_cprod. cbn.
    setoid_rewrite list_elem_of_fmap. set_solver. }
  rewrite Hl, size_list_to_set.
  - unfold size, set_size. cbn. generalize (elements X) as l. intros l.
    induction l as [|x l IH]; cbn; [done|]. by rewrite length_app, length_fmap, IH.
  - apply NoDup_bind.
    + intros x1 x2 p _ _ (y1 & -> & _)%list_elem_of_fmap (y2 & [= -> _] & _)%list_elem_of_fmap. done.
    + intros x _. apply NoDup_fmap_2; [|apply NoDup_elements]. by intros y1 y2 [= ->].
    + apply NoDup_elements.
Qed.

(** The compiled calendar acts at this time of a day. *)
Definition acts_at (s : TemporalSpec) (hour minute second : Z) : Prop :=
  match s with
  | TemporalCalendar seconds minutes hours _ _ _ _ =>
      Exists (fun r => range_matches r hour) hours /\ Exists (fun r => range_matches r minute) minutes /\
      Exists (fun r => range_matches r second) seconds
  | _ => False
  end.

(** A field that passes the checks: its values, their number and their bounds. *)
Record field_exact (minimum maximum : Z) (ranges : list CalendarRange) : Prop := {
  fe_matches z : z ∈ field_values ranges <-> Exists (fun r => range_matches r z) (temporal_ranges ranges);
  fe_count : calendar_value_count ranges = Z.of_nat (size (field_values ranges));
  fe_bounds z : z ∈ field_values ranges -> (minimum <= z <= maximum)%Z;
  fe_size : (1 <= Z.of_nat (size (field_values ranges)) <= maximum - minimum + 1)%Z;
}.

Lemma field_exact_intro field_name minimum maximum ranges :
  (1 <= length ranges)%nat -> Forall (fun r => is_ok (validate_range r) = true) ranges ->
  validate_ranges field_name minimum maximum ∅ ranges = Ok tt -> field_exact minimum maximum ranges.
Proof.
  intros Hlen Hr Hv. destruct (validate_ranges_exact _ _ _ _ _ Hr Hv) as (Hn & _ & Hb).
  assert (Hsize : size (field_values ranges) = length (ranges ≫= range_values)) by (by apply field_values_size).
  constructor; [intros z; by apply elem_of_field_values|by rewrite calendar_value_count_exact, Hsize|done|].
  split.
  - rewrite Hsize. destruct ranges as [|r ranges]; cbn in *; [lia|]. apply Forall_cons in Hr as [Hr _].
    pose proof (range_values_length r Hr) as Hl. apply valid_range in Hr as [Hs He]. rewrite length_app.
    pose proof (Z.div_pos (range_end r - cr_start r) (cr_step r) ltac:(lia) ltac:(lia)). lia.
  - assert (Hsub : field_values ranges ⊆ list_to_set (seqZ minimum (maximum - minimum + 1))).
    { intros z Hz%Hb. apply elem_of_list_to_set, elem_of_seqZ. lia. }
    apply subseteq_size in Hsub. rewrite size_list_to_set in Hsub by apply NoDup_seqZ.
    rewrite length_seqZ in Hsub. destruct (decide (minimum <= maximum)%Z); [lia|].
    destruct ranges as [|r ranges]; cbn in *; [lia|]. destruct (_ || _) eqn:Hc; [done|]. apply orb_false_iff in Hc.
    apply Forall_cons in Hr as [[_ He]%valid_range _]. lia.
Qed.

(** C39: A calendar that passes the checks acts within a day at exactly the times that its
    compiled ranges stand for: they are times of a day, and [maximum_daily_actions] is
    their number, at least one and at most one per second. *)
Theorem calendar_actions_exact c :
  validate_calendar c = Ok tt ->
  exists times : gset (Z * Z * Z),
    (forall h m s, (h, m, s) ∈ times <-> acts_at (temporal_schedule_spec (CalendarSpec c)) h m s) /\
    (forall h m s, (h, m, s) ∈ times -> 0 <= h <= 23 /\ 0 <= m <= 59 /\ 0 <= s <= 59)%Z /\
    maximum_daily_actions c = Z.of_nat (size times) /\
    (1 <= maximum_daily_actions c <= 86400)%Z.
Proof.
  unfold validate_calendar. intros Hv. inv_ok.
  repeat match goal with H : ranges_field _ _ = Ok ?u |- _ => destruct u; apply ranges_field_Ok in H as [? ?] end.
  match goal with H : traverse _ _ = Ok _ |- _ => apply traverse_Ok in H; rename H into Ht end.
  unfold calendar_fields in Ht.
  repeat match goal with
  | H : Forall2 _ (_ :: _) _ |- _ => apply Forall2_cons_inv_l in H as (? & ? & ? & ? & ->)
  end.
  repeat match goal with u : unit |- _ => destruct u end.
  assert (Hs : field_exact 0 59 (cal_second c)) by (eapply field_exact_intro; [lia|done|eassumption]).
  assert (Hm : field_exact 0 59 (cal_minute c)) by (eapply field_exact_intro; [lia|done|eassumption]).
  assert (Hh : field_exact 0 23 (cal_hour c)) by (eapply field_exact_intro; [lia|done|eassumption]).
  exists (cprod (cprod (field_values (cal_hour c)) (field_values (cal_minute c))) (field_values (cal_second c))).
  destruct Hs as [Hs1 Hs2 Hs3 Hs4], Hm as [Hm1 Hm2 Hm3 Hm4], Hh as [Hh1 Hh2 Hh3 Hh4].
  split_and!.
  - intros h m s. rewrite !elem_of_gset_cprod. cbn. rewrite Hh1, Hm1, Hs1. tauto.
  - intros h m s. rewrite !elem_of_gset_cprod. cbn. intros [[?%Hh3 ?%Hm3] ?%Hs3]. lia.
  - unfold maximum_daily_actions. rewrite !size_cprod, Hs2, Hm2, Hh2. lia.
  - unfold maximum_daily_actions. rewrite Hs2, Hm2, Hh2. nia.
  - unfold maximum_daily_actions. rewrite Hs2, Hm2, Hh2.
    transitivity (60 * 60 * 24)%Z; [|done]. repeat apply Z.mul_le_mono_nonneg; lia.
Qed.

(** ** Compiled schedules *)

Section compiled.
Context `{Sha256, FloatRepr, PayloadContracts} (scope : RuntimeScope).

(** The schedule is what [compile_schedule] makes of some declaration. *)
Definition compiled (d : DesiredSchedule) : Prop :=
  exists name declaration target task_queue dispatch_task_queue limits timeout attempts,
    compile_schedule name declaration target task_queue dispatch_task_queue scope limits timeout attempts = Ok d.

(** What reconciliation relies on. *)
Record self_describing (d : DesiredSchedule) : Prop := {
  sd_not_foreign : foreign_id (ds_schedule_id d) = false;
  sd_scope : ds_scope_digest d = Some (digest scope);
  sd_owner : dict_get MEMO_SCHEDULE_OWNER (ds_memo d) = Some SCHEDULE_OWNER;
  sd_name : dict_get MEMO_SCHEDULE_NAME (ds_memo d) = Some (ds_schedule_name d);
  sd_digest : dict_get MEMO_SCHEDULE_DESIRED_DIGEST (ds_memo d) = Some (ds_desired_digest d);
  sd_memo_scope : dict_get MEMO_SCOPE_DIGEST (ds_memo d) = Some (digest scope);
  sd_action_memo : ts_memo (ds_schedule d) = ds_memo d;
  sd_workflow : ts_workflow (ds_schedule d) = SCHEDULE_DISPATCH_WORKFLOW_TYPE;
  sd_workflow_id :
    scoped_identity_from_digest "schedule-dispatch" (digest scope) [ds_schedule_name d]
    = Ok (ts_workflow_id (ds_schedule d));
}.

Lemma lift_res_Ok {A} (r : res A) a : lift_res r = Ok a -> r = Ok a.
Proof. destruct r; cbn; congruence. Qed.

Lemma schedule_memo_get target name dd key :
  key ∈ [MEMO_SCHEDULE_OWNER; MEMO_SCHEDULE_NAME; MEMO_SCHEDULE_DESIRED_DIGEST; MEMO_SCOPE_DIGEST] ->
  dict_get key (schedule_memo target name dd scope)
  = dict_get key [(MEMO_SCHEDULE_OWNER, SCHEDULE_OWNER); (MEMO_SCHEDULE_NAME, name);
                  (MEMO_SCHEDULE_DESIRED_DIGEST, dd); (MEMO_SCOPE_DIGEST, digest scope)].
Proof.
  intros Hk. unfold schedule_memo. rewrite dict_get_update by (apply (bool_decide_unpack _); reflexivity).
  repeat (apply elem_of_cons in Hk as [->|Hk]; [reflexivity|]). by apply not_elem_of_nil in Hk.
Qed.

Lemma schedule_id_not_foreign name id : make_schedule_id name scope = Ok id -> foreign_id id = false.
Proof.
  unfold make_schedule_id, scoped_identity, scoped_identity_from_digest. intros Hid. inv_ok. reflexivity.
Qed.

Lemma compiled_describes d : compiled d -> self_describing d.
Proof.
  intros (name & declaration & target & tq & dtq & limits & timeout & attempts & Hc).
  unfold compile_schedule in Hc.
  do 3 match type of Hc with context [if ?b then configuration_error _ else _] => destruct b; [discriminate Hc|] end.
  inv_ok. repeat match goal with H : lift_res _ = Ok _ |- _ => apply lift_res_Ok in H end.
  match goal with H : target_identity _ _ = Ok _ |- _ => rename H into Hi end.
  unfold target_identity in Hi. destruct (_ && _); [|discriminate Hi]. injection Hi as <-.
  constructor; cbn [ds_schedule_id ds_schedule_name ds_desired_digest ds_memo ds_schedule ts_memo ts_workflow ts_workflow_id];
    try reflexivity; try (apply schedule_memo_get; set_solver); [by eapply schedule_id_not_foreign|done].
Qed.
End compiled.

(** ** A server that keeps what it is given *)

Definition described_action (s : TemporalSchedule) : DescribedAction :=
  {| da_workflow := ts_workflow s; da_id := ts_workflow_id s;
     da_memo := Some (fun k => match dict_get k (ts_memo s) with
                               | Some v => ActionMemoPayload (Ok [Some v])
                               | None => ActionMemoAbsent
                               end) |}.

(** The description of a schedule that was created with a memo. *)
Definition described (id : string) (s : TemporalSchedule) (memo : list (string * string)) : ScheduleDescription :=
  {| sd_id := id;
     sd_memo := fun k => match dict_get k memo with Some v => MemoText v | None => MemoAbsent end;
     sd_action := Some (described_action s) |}.

(** The description after an update, which leaves the memo of the schedule. *)
Definition rescheduled (d : ScheduleDescription) (s : TemporalSchedule) : ScheduleDescription :=
  {| sd_id := sd_id d; sd_memo := sd_memo d; sd_action := Some (described_action s) |}.

(** What Temporal documents of its schedules, as long as no call fails and nobody else
    writes: [held] are the schedules by their identity. *)
Class QuietServer (W : Type) `{TemporalClient W} := {
  held : W -> gmap string ScheduleDescription;
  held_id w id d : held w !! id = Some d -> sd_id d = id;
  list_quiet w :
    exists entries w', list_schedules w = ((entries, None), w') /\ held w' = held w /\
      NoDup (le_id <$> entries) /\
      (forall e, e ∈ entries <->
         exists d, held w !! le_id e = Some d /\ le_memo e = sd_memo d);
  describe_quiet id w :
    exists w', held w' = held w /\
      describe_schedule id w =
        (match held w !! id with Some d => Ok d | None => Raise (ScheduleRPCError "NOT_FOUND") end, w');
  create_quiet id s memo w :
    held w !! id = None ->
    exists w', create_schedule id s memo w = (Ok tt, w') /\ held w' = <[id := described id s memo]> (held w);
  update_quiet id f b w d s :
    held w !! id = Some d -> f d b = (Ok (Some s), b) ->
    exists w', update_schedule id f b w = ((Ok tt, b), w') /\ held w' = <[id := rescheduled d s]> (held w);
  delete_quiet id w :
    is_Some (held w !! id) ->
    exists w', delete_schedule id w = (Ok tt, w') /\ held w' = delete id (held w);
}.

Section observations.
Context `{Sha256, FloatRepr, PayloadContracts} (scope : RuntimeScope).

(** The schedule that the server describes is of this scope and is not a scheduled start. *)
Definition in_scope (d : ScheduleDescription) : bool :=
  negb (foreign_id (sd_id d))
  && match belongs_here scope {| le_id := sd_id d; le_memo := sd_memo d |} with Ok b => b | Raise _ => false end.

Definition observation (d : ScheduleDescription) : option ObservedSchedule :=
  match observed_schedule_from_description d with Ok o => Some o | Raise _ => None end.

Lemma belongs_here_total e : exists b, belongs_here scope e = Ok b.
Proof.
  unfold belongs_here. case_match; [eauto|]. case_match; [eauto|]. cbn. eauto.
Qed.

(** A schedule of this scope can always be observed: its scope digest is this one, or none. *)
Lemma in_scope_observed d : in_scope d = true -> exists o, observed_schedule_from_description d = Ok o.
Proof.
  unfold in_scope, observed_schedule_from_description. intros [_ Hb]%andb_true_iff.
  destruct (negb _); [eauto|]. destruct (entity_value (sd_memo d) MEMO_SCHEDULE_NAME) as [name|]; [|eauto].
  destruct (negb _); [eauto|]. destruct (sd_action d) as [action|]; [|eauto].
  destruct (entity_value (sd_memo d) MEMO_SCOPE_DIGEST) as [s'|] eqn:Hs; cbn; [|eauto].
  assert (s' = digest scope) as ->.
  { unfold belongs_here, entity_value in *. cbn in Hb. rewrite Hs in Hb.
    unfold legacy_owns, owns in Hb. destruct (bool_decide (Some s' = _)) eqn:Ho.
    - apply bool_decide_eq_true in Ho. by injection Ho.
    - destruct (entity_memo_string _ _); cbn in *; done. }
  unfold scoped_identity_from_digest, validate_scope_digest, digest.
  rewrite hexdigest_form. cbn. eauto.
Qed.

Lemma observed_id d o : observed_schedule_from_description d = Ok o -> os_schedule_id o = sd_id d.
Proof.
  unfold observed_schedule_from_description. repeat case_match; intros Ho; try by injection Ho as <-. inv_ok. done.
Qed.
End observations.

Section quiet.
Context `{Sha256, FloatRepr, PayloadContracts} {W : Type} `{Server : QuietServer W} (max_schedules : Z)
  (scope : RuntimeScope).

Definition entry_in_scope (e : ScheduleListEntry) : bool :=
  negb (foreign_id (le_id e)) && match belongs_here scope e with Ok b => b | Raise _ => false end.

Lemma scan_quiet scanned entries :
  (scanned + Z.of_nat (length entries) <= max_schedules)%Z ->
  scan max_schedules scope scanned entries = Ok (filter (fun e => entry_in_scope e = true) entries).
Proof.
  revert scanned. induction entries as [|e entries IH]; intros scanned Hl; [done|].
  cbn [scan length] in *. rewrite filter_cons.
  destruct (belongs_here_total scope e) as [b Hb].
  assert (He : entry_in_scope e = negb (foreign_id (le_id e)) && b) by (unfold entry_in_scope; by rewrite Hb).
  destruct (decide (entry_in_scope e = true)) as [Hs|Hs]; rewrite He in Hs.
  - apply andb_true_iff in Hs as [Hf%negb_true_iff ->]. rewrite Hf, Hb.
    destruct (_ <? _)%Z eqn:Hm; [lia|]. cbn. by rewrite IH by lia.
  - apply not_true_iff_false, andb_false_iff in Hs. destruct (foreign_id (le_id e)); [apply IH; lia|].
    destruct Hs as [Hs| ->]; [done|]. rewrite Hb. destruct (_ <? _)%Z eqn:Hm; [lia|]. cbn. by rewrite IH by lia.
Qed.

Lemma observe_entry_quiet e d w :
  held w !! le_id e = Some d -> le_memo e = sd_memo d -> entry_in_scope e = true ->
  exists o w', observe_entry e w = (Ok o, w') /\ held w' = held w /\ observed_schedule_from_description d = Ok o.
Proof.
  intros Hd Hm Hs. pose proof (held_id _ _ _ Hd) as Hid.
  assert (Hin : in_scope scope d = true).
  { unfold in_scope, entry_in_scope in *. destruct e as [i m]. cbn in *. by subst. }
  destruct (in_scope_observed scope d Hin) as [o Ho].
  unfold observe_entry. rewrite Hm, <- Hid. unfold observed_schedule_from_description in Ho.
  destruct (negb (bool_decide (entity_corrupt_keys (sd_memo d) = []))) eqn:Hc.
  { injection Ho as <-. exists (observed_entity (sd_id d) (sd_memo d) true (entity_corrupt_keys (sd_memo d))), w.
    unfold observed_schedule_from_description. by rewrite Hc. }
  destruct (negb (bool_decide (entity_value (sd_memo d) MEMO_SCHEDULE_OWNER = _))) eqn:Hown.
  { exists o, w. unfold observed_schedule_from_description. rewrite Hc.
    destruct (entity_value (sd_memo d) MEMO_SCHEDULE_NAME) eqn:Hn; rewrite ?Hown; injection Ho as <-; done. }
  destruct (describe_quiet (sd_id d) w) as (w' & Hw' & Hdesc). rewrite Hid, Hd in Hdesc.
  exists o, w'. unfold mbind, SM_bind, scatch, slift. rewrite Hid, Hdesc.
  unfold observed_schedule_from_description. rewrite Hc, Hown, Ho. done.
Qed.

Lemma smap_quiet entries w :
  Forall (fun e => entry_in_scope e = true /\ exists d, held w !! le_id e = Some d /\ le_memo e = sd_memo d) entries ->
  exists os w', smap observe_entry entries w = (Ok os, w') /\ held w' = held w /\
    Forall2 (fun e o => exists d, held w !! le_id e = Some d /\ observed_schedule_from_description d = Ok o) entries os.
Proof.
  revert w. induction entries as [|e entries IH]; intros w Hf; [by exists [], w|].
  apply Forall_cons in Hf as [(Hs & d & Hd & Hm) Hf].
  destruct (observe_entry_quiet e d w Hd Hm Hs) as (o & w1 & Ho & Hw1 & Hod).
  destruct (IH w1) as (os & w2 & Hos & Hw2 & Hf2); [by rewrite Hw1|].
  exists (o :: os), w2. cbn [smap]. unfold mbind, SM_bind. rewrite Ho, Hos.
  rewrite Hw2, Hw1. rewrite Hw1 in Hf2. split_and!; [done|done|]. constructor; eauto.
Qed.

(** The observation of one identity. *)
Definition observed_at (m : gmap string ScheduleDescription) (id : string) : option ObservedSchedule :=
  d ← m !! id; if in_scope scope d then observation d else None.

Lemma dict_of_pairs_wf {A} (l : list (string * A)) : dict_wf (dict_of_pairs l).
Proof. apply dict_update_wf. constructor. Qed.

Lemma dict_get_of_pairs {A} (l : list (string * A)) k : dict_wf l -> dict_get k (dict_of_pairs l) = dict_get k l.
Proof. intros Hl. unfold dict_of_pairs. rewrite dict_get_update by done. by destruct (dict_get k l). Qed.

Lemma observe_quiet w :
  (Z.of_nat (size (held w)) <= max_schedules)%Z ->
  exists observed w', observe max_schedules scope w = (Ok observed, w') /\ held w' = held w /\ dict_wf observed /\
    forall id, dict_get id observed = observed_at (held w) id.
Proof.
  intros Hsize. destruct (list_quiet w) as (entries & w1 & Hlist & Hw1 & Hnd & Hin).
  assert (Hlen : (length entries <= size (held w))%nat).
  { rewrite <- (length_fmap le_id), <- (size_list_to_set (C := gset string)) by done.
    rewrite <- size_dom. apply subseteq_size. intros i Hi%elem_of_list_to_set.
    apply list_elem_of_fmap in Hi as (e & -> & He%Hin). destruct He as (d & Hd & _). by eapply elem_of_dom_2. }
  set (listed := filter (fun e => entry_in_scope e = true) entries).
  destruct (smap_quiet listed w1) as (os & w2 & Hos & Hw2 & Hf2).
  { rewrite Hw1. apply Forall_forall. intros e [Hs He%Hin]%list_elem_of_filter. done. }
  rewrite Hw1 in Hf2. exists (dict_of_pairs ((fun o => (os_schedule_id o, o)) <$> os)), w2.
  split_and!.
  - unfold observe, list_entries, mbind, SM_bind. rewrite Hlist.
    rewrite scan_quiet by lia. fold listed. by rewrite Hos.
  - congruence.
  - apply dict_of_pairs_wf.
  - assert (Hids : os_schedule_id <$> os = le_id <$> listed).
    { clear -Hf2. induction Hf2 as [|e o l os (d & Hd & Ho) _ IH]; [done|].
      rewrite !fmap_cons, IH. f_equal. rewrite (observed_id _ _ Ho). by apply held_id in Hd. }
    assert (Hwf : dict_wf ((fun o => (os_schedule_id o, o)) <$> os)).
    { unfold dict_wf, dict_keys. rewrite <- list_fmap_compose. change (fst ∘ _) with os_schedule_id.
      rewrite Hids. eapply sublist_NoDup; [exact Hnd|]. apply fmap_sublist, sublist_filter. }
    intros id. rewrite dict_get_of_pairs by done. unfold observed_at.
    destruct (held w !! id) as [d|] eqn:Hd; cbn.
    + pose proof (held_id _ _ _ Hd) as <-.
      set (e := {| le_id := sd_id d; le_memo := sd_memo d |}).
      assert (He : e ∈ entries) by (apply Hin; by exists d).
      destruct (in_scope scope d) eqn:Hs.
      * destruct (in_scope_observed scope d Hs) as [o Ho]. unfold observation. rewrite Ho.
        assert (Hl : e ∈ listed) by (by apply list_elem_of_filter).
        apply list_elem_of_lookup in Hl as [i Hi].
        destruct (Forall2_lookup_l _ _ _ _ _ Hf2 Hi) as (o' & Hi' & d' & Hd' & Ho'). cbn in Hd'.
        assert (o' = o) as -> by congruence.
        apply elem_dict_get; [done|]. apply list_elem_of_fmap. exists o. split; [|by eapply list_elem_of_lookup_2].
        by rewrite (observed_id _ _ Ho).
      * apply dict_get_None. unfold dict_keys. rewrite <- list_fmap_compose. change (fst ∘ _) with os_schedule_id.
        rewrite Hids. intros (e' & Hid & [Hs' He'%Hin]%list_elem_of_filter)%list_elem_of_fmap.
        destruct He' as (d' & Hd' & Hm'). rewrite <- Hid, Hd in Hd'. injection Hd' as <-.
        unfold entry_in_scope in Hs'. unfold in_scope in Hs. destruct e' as [i m]. cbn in *. subst. congruence.
    + apply dict_get_None. unfold dict_keys. rewrite <- list_fmap_compose. change (fst ∘ _) with os_schedule_id.
      rewrite Hids. intros (e' & Hid & [_ He'%Hin]%list_elem_of_filter)%list_elem_of_fmap.
      destruct He' as (d' & Hd' & _). congruence.
Qed.
End quiet.

(** ** Observations of what was written *)

Section written.
Context `{Sha256, FloatRepr, PayloadContracts} (scope : RuntimeScope).

(** A memo that names a desired schedule. *)
Record names_schedule (wanted : DesiredSchedule) (memo : string -> memo_read) : Prop := {
  ns_clean : entity_corrupt_keys memo = [];
  ns_owner : entity_value memo MEMO_SCHEDULE_OWNER = Some SCHEDULE_OWNER;
  ns_name : entity_value memo MEMO_SCHEDULE_NAME = Some (ds_schedule_name wanted);
  ns_scope : entity_value memo MEMO_SCOPE_DIGEST = Some (digest scope);
}.

Lemma observed_written wanted d :
  self_describing scope wanted -> names_schedule wanted (sd_memo d) -> sd_id d = ds_schedule_id wanted ->
  sd_action d = Some (described_action (ds_schedule wanted)) ->
  exists o, observed_schedule_from_description d = Ok o /\ matches_desired o wanted = true.
Proof.
  intros [Hf Hs Ho Hn Hd Hsc Ha Hw Hwi] [Nc No Nn Ns] Hid Hact.
  eexists. unfold observed_schedule_from_description. rewrite Nc, Nn, No, Ns, Hact. cbn. rewrite Hwi. cbn.
  unfold action_value, action_memo_string. cbn [described_action da_memo da_workflow da_id].
  rewrite Ha, Ho, Hn, Hd. split; [reflexivity|].
  unfold matches_desired, same_managed_identity, valid_managed_identity, corrupt, managed.
  cbn [os_schedule_id os_owner os_schedule_name os_desired_digest os_scope_digest os_action_valid
       os_corrupt_metadata_keys memo_string_value is_some].
  unfold corrupt_memo_keys, action_memo_string. cbn [described_action da_memo fmap list_fmap].
  rewrite ?Ha, ?Ho, ?Hn, ?Hd, ?Hs, ?Hw, ?Hid. cbn. rewrite ?Ho, ?Hn, ?Hd. cbn. rewrite !bool_decide_eq_true_2 by done. reflexivity.
Qed.

Lemma described_names wanted id s :
  self_describing scope wanted -> names_schedule wanted (sd_memo (described id s (ds_memo wanted))).
Proof.
  intros [Hf Hs Ho Hn Hd Hsc Ha Hw Hwi].
  constructor; unfold entity_corrupt_keys, entity_value, entity_memo_string; cbn [described sd_memo fmap list_fmap];
    rewrite ?Ho, ?Hn, ?Hsc; done.
Qed.

Lemma observed_valid d o :
  observed_schedule_from_description d = Ok o -> valid_managed_identity o = true ->
  entity_corrupt_keys (sd_memo d) = [] /\ entity_value (sd_memo d) MEMO_SCHEDULE_OWNER = Some SCHEDULE_OWNER /\
  entity_value (sd_memo d) MEMO_SCHEDULE_NAME = os_schedule_name o /\
  entity_value (sd_memo d) MEMO_SCOPE_DIGEST = os_scope_digest o.
Proof.
  unfold valid_managed_identity, corrupt, managed. intros Ho Hv. repeat rewrite andb_true_iff in Hv.
  destruct Hv as [[[[Hc Hm] Hn] Hd] _]. apply negb_true_iff, negb_false_iff, bool_decide_eq_true in Hc.
  apply bool_decide_eq_true in Hm. revert Ho. unfold observed_schedule_from_description.
  destruct (negb (bool_decide (entity_corrupt_keys _ = []))) eqn:Hk.
  - intros [= <-]. cbn in Hc. apply negb_true_iff, bool_decide_eq_false in Hk. done.
  - apply negb_false_iff, bool_decide_eq_true in Hk.
    destruct (entity_value (sd_memo d) MEMO_SCHEDULE_NAME) as [name|] eqn:Hname.
    + destruct (negb _) eqn:Hown; [intros [= <-]; cbn in *; done|].
      apply negb_false_iff, bool_decide_eq_true in Hown.
      destruct (sd_action d); [|intros [= <-]; cbn in *; done]. intros Ho. inv_ok. done.
    + intros [= <-]. cbn in *. by rewrite Hname in Hn.
Qed.

Lemma rescheduled_names wanted d o :
  self_describing scope wanted -> observed_schedule_from_description d = Ok o -> same_managed_identity o wanted = true ->
  names_schedule wanted (sd_memo d) /\ sd_id d = ds_schedule_id wanted.
Proof.
  intros Hw Ho Hs. unfold same_managed_identity in Hs. repeat rewrite andb_true_iff in Hs.
  destruct Hs as [[[Hv Hid%bool_decide_eq_true] Hn%bool_decide_eq_true] Hsc%bool_decide_eq_true].
  destruct (observed_valid d o Ho Hv) as (Hc & Hown & Hname & Hscope).
  split; [|by rewrite <- (observed_id _ _ Ho)].
  constructor; [done|done|congruence|]. rewrite Hscope, Hsc. apply Hw.
Qed.

(** A schedule that names a desired schedule is of this scope. *)
Lemma written_in_scope wanted d :
  self_describing scope wanted -> names_schedule wanted (sd_memo d) -> sd_id d = ds_schedule_id wanted ->
  in_scope scope d = true.
Proof.
  intros Hw [_ _ _ Ns] Hid. unfold in_scope, belongs_here. rewrite Hid, (sd_not_foreign _ _ Hw). cbn.
  unfold entity_value in Ns. rewrite Ns. unfold legacy_owns, owns. by rewrite bool_decide_eq_true_2.
Qed.
End written.

(** ** The plan *)

Lemma elem_of_filter_dict {A} (P : string * A -> Prop) `{!forall x, Decision (P x)} (l : list (string * A)) k v :
  dict_wf l -> dict_get k (filter P l) = Some v <-> dict_get k l = Some v /\ P (k, v).
Proof.
  intros Hwf. assert (Hwf' : dict_wf (filter P l)).
  { unfold dict_wf, dict_keys in *. eapply sublist_NoDup; [exact Hwf|]. apply fmap_sublist, sublist_filter. }
  split.
  - intros [HP Hin]%dict_get_elem%list_elem_of_filter. split; [by apply elem_dict_get|done].
  - intros [Hin%dict_get_elem HP]. apply elem_dict_get; [done|]. by apply list_elem_of_filter.
Qed.

Section plan.
Context (decision : UnscopedScheduleDecision) (desired : list (string * DesiredSchedule)).

Definition effective (observed : list (string * ObservedSchedule)) := effective_desired decision observed desired.

Lemma desired_change_id observed kv c : desired_change observed kv = Some c -> sc_schedule_id c = kv.1.
Proof.
  destruct kv as [k wanted]. cbn. unfold change.
  repeat (case_match; try (intros [= <-]; done)); done.
Qed.

Lemma orphan_change_id observed kv c :
  orphan_change decision desired observed kv = Some c ->
  sc_schedule_id c = kv.1 /\ dict_get kv.1 (effective observed) = None.
Proof.
  destruct kv as [k actual]. cbn. unfold change, effective.
  destruct (dict_mem k _) eqn:Hk; [done|]. apply dict_mem_false in Hk.
  repeat (case_match; try (intros [= <-]; done)); done.
Qed.

Lemma elem_of_changes observed c :
  c ∈ merge_sort schedule_change_le (reconcile_changes decision desired observed) <->
  (exists kv, kv ∈ effective observed /\ desired_change observed kv = Some c) \/
  (exists kv, kv ∈ observed /\ orphan_change decision desired observed kv = Some c).
Proof.
  rewrite merge_sort_Permutation. unfold reconcile_changes. rewrite elem_of_app, !list_elem_of_omap.
  setoid_rewrite (sort_keys_Permutation observed). by setoid_rewrite (sort_keys_Permutation (effective_desired _ _ _)).
Qed.

Lemma omap_ids {A} (f : string * A -> option ScheduleChange) l :
  (forall kv c, f kv = Some c -> sc_schedule_id c = kv.1) -> sc_schedule_id <$> omap f l `sublist_of` dict_keys l.
Proof.
  intros Hf. unfold dict_keys. induction l as [|kv l IH]; cbn; [constructor|].
  destruct (f kv) eqn:E; cbn; [rewrite (Hf _ _ E)|]; by constructor.
Qed.

Lemma dict_wf_Permutation {A} (l k : list (string * A)) : l ≡ₚ k -> dict_wf l -> dict_wf k.
Proof. unfold dict_wf, dict_keys. by intros ->. Qed.

Lemma effective_wf observed : dict_wf desired -> dict_wf (effective observed).
Proof.
  unfold dict_wf, dict_keys, effective, effective_desired. intros Hd.
  eapply sublist_NoDup; [exact Hd|]. apply fmap_sublist, sublist_filter.
Qed.

Lemma changes_NoDup observed :
  dict_wf desired -> dict_wf observed ->
  NoDup (sc_schedule_id <$> merge_sort schedule_change_le (reconcile_changes decision desired observed)).
Proof.
  intros Hd Ho. rewrite merge_sort_Permutation. unfold reconcile_changes. rewrite fmap_app. apply NoDup_app. split_and!.
  - eapply sublist_NoDup; [|apply omap_ids, desired_change_id].
    apply (dict_wf_Permutation (effective observed)); [symmetry; apply sort_keys_Permutation|by apply effective_wf].
  - intros i (c & -> & (kv & Hin & Hc)%list_elem_of_omap)%list_elem_of_fmap
      (c' & Heq & (kv' & Hin' & Hc')%list_elem_of_omap)%list_elem_of_fmap.
    apply orphan_change_id in Hc' as [Hi Hn]. apply desired_change_id in Hc.
    rewrite sort_keys_Permutation in Hin. destruct kv as [k wanted]. cbn in *.
    apply elem_dict_get in Hin; [|by apply effective_wf]. unfold effective in *. congruence.
  - eapply sublist_NoDup; [|apply omap_ids; by intros ? ? [Hi _]%orphan_change_id].
    apply (dict_wf_Permutation observed); [symmetry; apply sort_keys_Permutation|done].
Qed.

Lemma validate_mapping_Ok {A} name (identity : A -> string) (d : list (string * A)) :
  (forall kv, kv ∈ d -> kv.1 = identity kv.2) -> validate_schedule_mapping name identity d = Ok tt.
Proof.
  intros Hd. unfold validate_schedule_mapping.
  assert (Ht : forall l : list (string * A), (forall kv, kv ∈ l -> kv.1 = identity kv.2) -> traverse (fun kv =>
    if bool_decide (kv.1 = identity kv.2) then Ok tt
    else configuration_error (name +:+ " schedule mapping key does not match its identity")) l = Ok (const tt <$> l)).
  { induction l as [|kv l IH]; intros Hl; cbn; [done|]. rewrite bool_decide_eq_true_2 by (apply Hl; left). cbn.
    rewrite IH by (intros; apply Hl; by right). done. }
  by rewrite (Ht d Hd).
Qed.
End plan.

(** ** Applying a plan *)

#[local] Arguments ambiguous : simpl never.
#[local] Arguments effective_desired : simpl never.

Section converge.
Context `{Sha256, FloatRepr, PayloadContracts} {W : Type} `{Server : QuietServer W} (max_schedules : Z)
  (scope : RuntimeScope) (decision : UnscopedScheduleDecision) (desired : list (string * DesiredSchedule)).

(** The desired schedules are compiled ones, by their identity. *)
Definition desired_wf : Prop :=
  dict_wf desired /\ forall kv, kv ∈ desired -> kv.1 = ds_schedule_id kv.2 /\ compiled scope kv.2.

(** No schedule of another scope holds a wanted identity. *)
Definition not_taken (m : gmap string ScheduleDescription) : Prop :=
  forall kv d, kv ∈ desired -> m !! kv.1 = Some d -> in_scope scope d = true.

(** What a change leaves at its identity. *)
Definition change_target (m : gmap string ScheduleDescription) (observed : list (string * ObservedSchedule))
    (c : ScheduleChange) (v : option ScheduleDescription) : Prop :=
  match sc_kind c with
  | CHANGE_CREATE =>
      exists wanted, dict_get (sc_schedule_id c) (effective decision desired observed) = Some wanted /\
        v = Some (described (sc_schedule_id c) (ds_schedule wanted) (ds_memo wanted))
  | CHANGE_UPDATE =>
      exists wanted d o, dict_get (sc_schedule_id c) (effective decision desired observed) = Some wanted /\
        m !! sc_schedule_id c = Some d /\ observed_schedule_from_description d = Ok o /\
        same_managed_identity o wanted = true /\ v = Some (rescheduled d (ds_schedule wanted))
  | CHANGE_DELETE => v = None
  | CHANGE_CONFLICT => False
  end.

Section pass.
Context (Hwf : desired_wf) (m : gmap string ScheduleDescription)
  (Hids : forall id d, m !! id = Some d -> sd_id d = id) (Htaken : not_taken m)
  (observed : list (string * ObservedSchedule)) (Hobs_wf : dict_wf observed)
  (Hobs : forall id, dict_get id observed = observed_at scope m id).

Lemma observed_Some id o :
  dict_get id observed = Some o ->
  exists d, m !! id = Some d /\ in_scope scope d = true /\ observed_schedule_from_description d = Ok o.
Proof.
  rewrite Hobs. unfold observed_at, observation. destruct (m !! id) as [d|] eqn:Hd; cbn; [|done].
  destruct (in_scope scope d) eqn:Hs; [|done]. destruct (observed_schedule_from_description d) eqn:Ho; [|done].
  intros [= <-]. eauto.
Qed.

Lemma effective_Some id wanted :
  dict_get id (effective decision desired observed) = Some wanted ->
  (id, wanted) ∈ desired /\ id = ds_schedule_id wanted /\ self_describing scope wanted.
Proof.
  destruct Hwf as [Hd Hc]. intros [Hin _]%elem_of_filter_dict; [|done]. apply dict_get_elem in Hin.
  destruct (Hc _ Hin) as [Hk Hcomp]. split_and!; [done|done|by apply compiled_describes].
Qed.

Lemma desired_create c kv :
  kv ∈ effective decision desired observed -> desired_change observed kv = Some c -> sc_kind c = CHANGE_CREATE ->
  m !! kv.1 = None.
Proof.
  destruct kv as [id wanted]. cbn. intros Hin. unfold change. destruct (dict_get id observed) as [o|] eqn:Ho.
  - repeat (case_match; try (intros [= <-]; done)); done.
  - intros _ _. destruct (m !! id) as [d|] eqn:Hd; [|done]. exfalso.
    apply list_elem_of_filter in Hin as [_ Hin]. pose proof (Htaken _ _ Hin Hd) as Hs.
    destruct (in_scope_observed scope d Hs) as [o Hod].
    rewrite Hobs in Ho. unfold observed_at, observation in Ho. rewrite Hd in Ho. cbn in Ho. by rewrite Hs, Hod in Ho.
Qed.

(** What the first loop compares: the schedule is there, is the wanted one, and differs
    from it exactly when it is to be updated. *)
Lemma desired_present c id wanted o :
  desired_change observed (id, wanted) = c -> dict_get id observed = Some o -> id = ds_schedule_id wanted ->
  match c with Some c => sc_kind c <> CHANGE_CONFLICT | None => True end ->
  same_managed_identity o wanted = true /\
  match c with
  | None => os_desired_digest o = Some (ds_desired_digest wanted)
  | Some c => sc_kind c = CHANGE_UPDATE /\ os_desired_digest o <> Some (ds_desired_digest wanted)
  end.
Proof.
  intros Hc Ho Hid Hk. assert (Hio : os_schedule_id o = id).
  { destruct (observed_Some id o Ho) as (d & Hd & Hs & Hod). rewrite (observed_id _ _ Hod).
    by apply Hids. }
  cbn in Hc. rewrite Ho in Hc. unfold change in Hc. unfold same_managed_identity.
  destruct (corrupt o); [subst c; by destruct Hk|]. destruct (negb (managed o)); [subst c; by destruct Hk|].
  destruct (negb (valid_managed_identity o) || _) eqn:Hv; [subst c; by destruct Hk|].
  destruct (negb (bool_decide (os_scope_digest o = _))) eqn:Hs; [subst c; by destruct Hk|].
  apply orb_false_iff in Hv as [Hv%negb_false_iff Hn%negb_false_iff%bool_decide_eq_true].
  apply negb_false_iff, bool_decide_eq_true in Hs.
  rewrite Hv, !bool_decide_eq_true_2 by congruence. split; [done|].
  destruct (negb (bool_decide (os_desired_digest o = _))) eqn:Hd; subst c.
  - apply negb_true_iff, bool_decide_eq_false in Hd. done.
  - by apply negb_false_iff, bool_decide_eq_true in Hd.
Qed.
Lemma orphan_kind c id o :
  orphan_change decision desired observed (id, o) = Some c -> sc_kind c <> CHANGE_CONFLICT ->
  sc_kind c = CHANGE_DELETE /\ valid_managed_identity o = true.
Proof.
  cbn. unfold change. destruct (dict_mem id _); [done|]. destruct (corrupt o); [by intros [= <-]|].
  destruct (negb (managed o)); [done|].
  destruct (bool_decide (os_scope_digest o = None)).
  - destruct (valid_managed_identity o); cbn; [|by intros [= <-]].
    destruct (_ && bool_decide (decision = RETAIN)); [done|].
    destruct (_ && bool_decide (decision = MIGRATE)); by intros [= <-].
  - destruct (valid_managed_identity o); cbn; by intros [= <-].
Qed.

(** The plan that is applied. *)
Context (p : SchedulePlan) (Hpd : sp_desired p = effective decision desired observed) (Hpo : sp_observed p = observed)
  (Hpc : forall c, c ∈ sp_changes p <->
     (exists kv, kv ∈ effective decision desired observed /\ desired_change observed kv = Some c) \/
     (exists kv, kv ∈ observed /\ orphan_change decision desired observed kv = Some c)).

Lemma item_some {A} key (d : list (string * A)) a (w : W) : dict_get key d = Some a -> item key d w = (Ok a, w).
Proof. unfold item. by intros ->. Qed.

Lemma create_change_quiet c wanted w :
  sc_kind c = CHANGE_CREATE -> dict_get (sc_schedule_id c) (effective decision desired observed) = Some wanted ->
  held w !! sc_schedule_id c = None ->
  exists w' v, apply_change p c w = (Ok APPLY_APPLIED, w') /\ held w' = partial_alter (const v) (sc_schedule_id c) (held w) /\
    change_target m observed c v.
Proof.
  intros Hk Hd Hw. destruct (effective_Some _ _ Hd) as (_ & Hid & _). rewrite Hid in Hw.
  destruct (create_quiet _ (ds_schedule wanted) (ds_memo wanted) w Hw) as (w' & Hc & Hw').
  exists w', (Some (described (sc_schedule_id c) (ds_schedule wanted) (ds_memo wanted))). split_and!.
  - unfold apply_change. rewrite Hk. unfold mbind, SM_bind. rewrite (item_some _ _ wanted) by (by rewrite Hpd).
    unfold create_desired, scatch, mbind, SM_bind. by rewrite Hc.
  - by rewrite Hw', <- Hid.
  - unfold change_target. rewrite Hk. eauto.
Qed.

Lemma update_change_quiet c wanted d o w :
  sc_kind c = CHANGE_UPDATE -> dict_get (sc_schedule_id c) (effective decision desired observed) = Some wanted ->
  dict_get (sc_schedule_id c) observed = Some o -> m !! sc_schedule_id c = Some d ->
  held w !! sc_schedule_id c = Some d -> observed_schedule_from_description d = Ok o ->
  same_managed_identity o wanted = true -> os_desired_digest o <> Some (ds_desired_digest wanted) ->
  exists w' v, apply_change p c w = (Ok APPLY_APPLIED, w') /\ held w' = partial_alter (const v) (sc_schedule_id c) (held w) /\
    change_target m observed c v.
Proof.
  intros Hk Hd Ho Hm Hw Hod Hs Hn. destruct (effective_Some _ _ Hd) as (_ & Hid & _).
  rewrite Hid in Hw.
  destruct (update_quiet _ (updater wanted o) false w d (ds_schedule wanted) Hw) as (w' & Hu & Hw').
  { unfold updater. rewrite Hod, Hs, (bool_decide_eq_false_2 _ Hn), bool_decide_eq_true_2 by done. done. }
  exists w', (Some (rescheduled d (ds_schedule wanted))). split_and!.
  - unfold apply_change. rewrite Hk. unfold mbind, SM_bind. rewrite (item_some _ _ wanted) by (by rewrite Hpd).
    rewrite (item_some _ _ o) by (by rewrite Hpo). unfold update_desired. by rewrite Hu.
  - by rewrite Hw', <- Hid.
  - unfold change_target. rewrite Hk. eauto 10.
Qed.

Lemma delete_change_quiet c d o w :
  sc_kind c = CHANGE_DELETE -> dict_get (sc_schedule_id c) observed = Some o ->
  held w !! sc_schedule_id c = Some d -> observed_schedule_from_description d = Ok o ->
  os_schedule_id o = sc_schedule_id c -> valid_managed_identity o = true ->
  exists w' v, apply_change p c w = (Ok APPLY_APPLIED, w') /\ held w' = partial_alter (const v) (sc_schedule_id c) (held w) /\
    change_target m observed c v.
Proof.
  intros Hk Ho Hw Hod Hid Hv. rewrite <- Hid in Hw.
  destruct (describe_quiet (os_schedule_id o) w) as (w1 & Hw1 & Hdesc). rewrite Hw in Hdesc.
  destruct (delete_quiet (os_schedule_id o) w1) as (w' & Hdel & Hw'); [by rewrite Hw1, Hw|].
  exists w', None. split_and!.
  - unfold apply_change. rewrite Hk. unfold mbind, SM_bind. rewrite (item_some _ _ o) by (by rewrite Hpo).
    unfold delete_expected, describe_observed, scatch, mbind, SM_bind, slift. rewrite Hdesc, Hod.
    cbn. rewrite bool_decide_eq_true_2, Hv by done. cbn. by rewrite Hdel.
  - rewrite Hw', Hw1, Hid. done.
  - unfold change_target. by rewrite Hk.
Qed.
(** Every change applies, as long as its identity is as it was observed. *)
Lemma apply_change_quiet c w :
  c ∈ sp_changes p -> sc_kind c <> CHANGE_CONFLICT -> held w !! sc_schedule_id c = m !! sc_schedule_id c ->
  exists w' v, apply_change p c w = (Ok APPLY_APPLIED, w') /\ held w' = partial_alter (const v) (sc_schedule_id c) (held w) /\
    change_target m observed c v.
Proof.
  intros Hc Hk Hw. apply Hpc in Hc as [([id wanted] & Hin & Hc)|([id o] & Hin & Hc)].
  - pose proof (desired_change_id _ _ _ Hc) as Hid. cbn in Hid.
    assert (Hd : dict_get id (effective decision desired observed) = Some wanted)
      by (apply elem_dict_get; [apply effective_wf, Hwf|done]).
    destruct (effective_Some _ _ Hd) as (_ & Hwid & _). rewrite Hid in Hw.
    destruct (dict_get id observed) as [o|] eqn:Ho.
    + destruct (desired_present _ _ _ o Hc Ho Hwid Hk) as [Hs [Hkind Hn]].
      destruct (observed_Some _ _ Ho) as (d & Hm & _ & Hod).
      eapply (update_change_quiet c wanted d o); rewrite ?Hid; congruence.
    + assert (Hkind : sc_kind c = CHANGE_CREATE) by (cbn in Hc; rewrite Ho in Hc; by injection Hc as <-).
      eapply (create_change_quiet c wanted); rewrite ?Hid; [done..|]. rewrite Hw.
      by apply (desired_create c (id, wanted)).
  - destruct (orphan_kind _ _ _ Hc Hk) as [Hkind Hv]. apply orphan_change_id in Hc as [Hid _]. cbn in Hid.
    assert (Ho : dict_get id observed = Some o) by (by apply elem_dict_get).
    destruct (observed_Some _ _ Ho) as (d & Hm & _ & Hod).
    eapply (delete_change_quiet c d o); rewrite ?Hid; try done; [congruence|].
    rewrite (observed_id _ _ Hod). by apply Hids.
Qed.

Lemma apply_loop_quiet cs w :
  (forall c, c ∈ cs -> c ∈ sp_changes p /\ sc_kind c <> CHANGE_CONFLICT) -> NoDup (sc_schedule_id <$> cs) ->
  (forall c, c ∈ cs -> held w !! sc_schedule_id c = m !! sc_schedule_id c) ->
  exists items w', smap (apply_one p) cs w = (Ok items, w') /\
    Forall (fun i => ai_status i = APPLY_APPLIED) items /\ length items = length cs /\
    (forall id, id ∉ sc_schedule_id <$> cs -> held w' !! id = held w !! id) /\
    (forall c, c ∈ cs -> change_target m observed c (held w' !! sc_schedule_id c)).
Proof.
  revert w. induction cs as [|c cs IH]; intros w Hcs Hnd Hw.
  { exists [], w. split_and!; try done. intros c Hc. by apply not_elem_of_nil in Hc. }
  rewrite fmap_cons in Hnd. apply list.NoDup_cons in Hnd as [Hnot Hnd].
  destruct (Hcs c) as [Hin Hk]; [left|].
  destruct (apply_change_quiet c w Hin Hk) as (w1 & v & Ha & Hw1 & Hv); [apply Hw; left|].
  destruct (IH w1) as (items & w2 & Hitems & Hall & Hlen & Hother & Htarget).
  - intros c' Hc'. apply Hcs. by right.
  - done.
  - intros c' Hc'. rewrite Hw1, lookup_partial_alter_ne; [apply Hw; by right|].
    intros Heq. apply Hnot. rewrite Heq. by apply list_elem_of_fmap_2.
  - exists (apply_item c APPLY_APPLIED None :: items), w2. split_and!.
    + assert (Ho : apply_one p c w = (Ok (apply_item c APPLY_APPLIED None), w1))
        by (unfold apply_one, scatch, mbind, SM_bind; by rewrite Ha).
      cbn [smap]. unfold mbind, SM_bind. by rewrite Ho, Hitems.
    + by constructor.
    + cbn. lia.
    + intros id Hid. rewrite fmap_cons in Hid. apply not_elem_of_cons in Hid as [Hne Hid].
      rewrite Hother by done. by rewrite Hw1, lookup_partial_alter_ne.
    + intros c' [->|Hc']%elem_of_cons; [|by apply Htarget].
      rewrite Hother by done. by rewrite Hw1, lookup_partial_alter_eq.
Qed.
(** ** What an applied plan leaves *)

(** A schedule that a plan without conflicts deletes unless it is wanted. *)
Definition superfluous (o : ObservedSchedule) : bool :=
  managed o && negb (bool_decide (decision = RETAIN) && bool_decide (os_scope_digest o = None)).

Context (m2 : gmap string ScheduleDescription)
  (Hnc : forall c, c ∈ sp_changes p -> sc_kind c <> CHANGE_CONFLICT)
  (Hother : forall id, (forall c, c ∈ sp_changes p -> sc_schedule_id c <> id) -> m2 !! id = m !! id)
  (Htarget : forall c, c ∈ sp_changes p -> change_target m observed c (m2 !! sc_schedule_id c)).

Lemma matches_intro o wanted :
  same_managed_identity o wanted = true -> os_desired_digest o = Some (ds_desired_digest wanted) ->
  matches_desired o wanted = true.
Proof. unfold matches_desired. intros -> ->. by rewrite bool_decide_eq_true_2. Qed.

Lemma settled_wanted id wanted :
  dict_get id (effective decision desired observed) = Some wanted ->
  exists d o, m2 !! id = Some d /\ sd_id d = id /\ in_scope scope d = true /\
    observed_schedule_from_description d = Ok o /\ matches_desired o wanted = true.
Proof.
  intros Hd. destruct (effective_Some _ _ Hd) as (_ & Hid & Hself).
  assert (Hin : (id, wanted) ∈ effective decision desired observed) by (by apply dict_get_elem).
  destruct (desired_change observed (id, wanted)) as [c|] eqn:Hc.
  - assert (Hcin : c ∈ sp_changes p) by (apply Hpc; left; eauto).
    pose proof (Htarget c Hcin) as Ht. pose proof (desired_change_id _ _ _ Hc) as Hcid. cbn in Hcid.
    unfold change_target in Ht. rewrite Hcid, Hd in Ht.
    destruct (sc_kind c) eqn:Hk.
    + destruct Ht as (wanted' & [= <-] & Hm2).
      pose proof (described_names scope wanted id (ds_schedule wanted) Hself) as Hn.
      destruct (observed_written scope wanted (described id (ds_schedule wanted) (ds_memo wanted)) Hself Hn Hid eq_refl)
        as (o & Ho & Hmd).
      eexists _, o. split_and!; [done|done| |done|done]. by apply (written_in_scope scope wanted).
    + destruct Ht as (wanted' & d & o & [= <-] & Hm & Hod & Hs & Hm2).
      destruct (rescheduled_names scope wanted d o Hself Hod Hs) as [Hn Hdid].
      destruct (observed_written scope wanted (rescheduled d (ds_schedule wanted)) Hself Hn Hdid eq_refl) as (o' & Ho & Hmd).
      eexists _, o'. split_and!; [done|by rewrite Hid| |done|done]. by apply (written_in_scope scope wanted).
    + exfalso. cbn in Hc. unfold change in Hc.
      repeat (case_match; try (injection Hc as <-; discriminate Hk)); done.
    + by apply (Hnc c) in Hcin.
  - assert (Hm2 : m2 !! id = m !! id).
    { apply Hother. intros c [([id' w'] & Hin' & Hc')|([id' o'] & _ & Hc')]%Hpc Heq.
      - pose proof (desired_change_id _ _ _ Hc') as Hcid. cbn in Hcid. rewrite Heq in Hcid. subst id'.
        apply elem_dict_get in Hin'; [|apply effective_wf, Hwf]. congruence.
      - apply orphan_change_id in Hc' as [Hcid Hn]. cbn in *. congruence. }
    destruct (dict_get id observed) as [o|] eqn:Ho; [|cbn in Hc; by rewrite Ho in Hc].
    destruct (desired_present _ _ _ o Hc Ho Hid) as [Hs Hdig]; [done|].
    destruct (observed_Some _ _ Ho) as (d & Hm & Hsc & Hod). exists d, o.
    split_and!; [congruence|by apply Hids|done|done|by apply matches_intro].
Qed.

(** The second loop on a plan without conflicts. *)
Lemma orphan_settled id o :
  dict_get id (effective decision desired observed) = None -> dict_get id observed = Some o ->
  (superfluous o = true /\ exists c, c ∈ sp_changes p /\ sc_schedule_id c = id /\ sc_kind c = CHANGE_DELETE) \/
  (superfluous o = false /\ orphan_change decision desired observed (id, o) = None /\
   (managed o = true -> decision = RETAIN /\ os_scope_digest o = None /\ valid_managed_identity o = true /\
      match os_schedule_name o with Some n => ambiguous observed n = false | None => True end) /\ corrupt o = false).
Proof.
  intros Hd Ho. assert (Hin : (id, o) ∈ observed) by (by apply dict_get_elem).
  assert (Hno : forall c, orphan_change decision desired observed (id, o) = Some c -> sc_kind c <> CHANGE_CONFLICT).
  { intros c Hc. apply Hnc, Hpc. right. eauto. }
  assert (Hdel : forall c, orphan_change decision desired observed (id, o) = Some c -> superfluous o = true ->
    superfluous o = true /\ exists c, c ∈ sp_changes p /\ sc_schedule_id c = id /\ sc_kind c = CHANGE_DELETE).
  { intros c Hc Hsup. split; [done|]. exists c. split_and!; [apply Hpc; right; eauto| |].
    - by apply orphan_change_id in Hc as [Hcid _].
    - by apply (orphan_kind _ _ _ Hc), Hno. }
  apply dict_mem_false in Hd. unfold superfluous in *. cbn in Hno, Hdel |- *. unfold effective in Hd. rewrite Hd in *.
  unfold change in *.
  destruct (corrupt o) eqn:Hcor; [by destruct (Hno _ eq_refl)|].
  destruct (managed o) eqn:Hman; cbn in *; [|right; by split_and!].
  destruct (bool_decide (os_scope_digest o = None)) eqn:Hsc.
  - destruct (valid_managed_identity o) eqn:Hv; cbn in *; [|by destruct (Hno _ eq_refl)].
    destruct (bool_decide (decision = RETAIN)) eqn:Hr; cbn in *.
    + right. apply bool_decide_eq_true in Hr, Hsc.
      destruct (os_schedule_name o) as [n|]; [destruct (ambiguous observed n); cbn in *|].
      * rewrite (bool_decide_eq_false_2 (decision = MIGRATE)) in Hno by (by rewrite Hr).
        rewrite !andb_false_r in Hno. by destruct (Hno _ eq_refl).
      * by split_and!.
      * by split_and!.
    + left. rewrite andb_false_r in *. destruct (_ && bool_decide (decision = MIGRATE)); [|by destruct (Hno _ eq_refl)].
      by eapply Hdel.
  - rewrite andb_false_r in *. cbn in *. destruct (valid_managed_identity o); cbn in *; [|by destruct (Hno _ eq_refl)].
    left. by eapply Hdel.
Qed.

Lemma settled_rest id :
  dict_get id (effective decision desired observed) = None ->
  m2 !! id = match dict_get id observed with
             | Some o => if superfluous o then None else m !! id
             | None => m !! id
             end.
Proof.
  intros Hd.
  assert (Hun : match dict_get id observed with Some o => orphan_change decision desired observed (id, o) = None | None => True end ->
    m2 !! id = m !! id).
  { intros Hn. apply Hother. intros c [([id' w'] & Hin' & Hc')|([id' o'] & Hin' & Hc')]%Hpc Heq.
    - pose proof (desired_change_id _ _ _ Hc') as Hcid. cbn in Hcid. rewrite Heq in Hcid. subst id'.
      apply elem_dict_get in Hin'; [|apply effective_wf, Hwf]. congruence.
    - pose proof (orphan_change_id _ _ _ _ _ Hc') as [Hcid _]. cbn in Hcid. rewrite Heq in Hcid. subst id'.
      apply elem_dict_get in Hin'; [|done]. rewrite Hin' in Hn. congruence. }
  destruct (dict_get id observed) as [o|] eqn:Ho; [|by apply Hun].
  destruct (orphan_settled id o Hd Ho) as [(-> & c & Hc & <- & Hk)|(-> & Hn & _)].
  - pose proof (Htarget c Hc) as Ht. unfold change_target in Ht. by rewrite Hk in Ht.
  - by apply Hun.
Qed.
Lemma size_again : dict_wf desired -> (size m2 <= size m + length desired)%nat.
Proof.
  intros Hd. rewrite <- !size_dom. unfold dict_wf in Hd.
  replace (length desired) with (size (list_to_set (dict_keys desired) : gset string))
    by (rewrite size_list_to_set by done; apply length_fmap).
  transitivity (size (dom m ∪ list_to_set (dict_keys desired))).
  - apply subseteq_size. intros id Hin. apply elem_of_union.
    destruct (dict_get id (effective decision desired observed)) as [wanted|] eqn:Heff.
    + right. destruct (effective_Some _ _ Heff) as [Hdes _]. apply elem_of_list_to_set.
      by apply (list_elem_of_fmap_2 fst) in Hdes.
    + left. apply elem_of_dom in Hin. rewrite (settled_rest id Heff) in Hin. apply elem_of_dom.
      destruct (dict_get id observed) as [o|]; [destruct (superfluous o); [by destruct Hin|]|]; done.
  - rewrite size_union_alt.
    assert (size ((list_to_set (dict_keys desired) : gset string) ∖ dom m) <= size (list_to_set (dict_keys desired) : gset string))%nat
      by (apply subseteq_size; set_solver).
    lia.
Qed.

(** ** Observing again *)

Context (observed2 : list (string * ObservedSchedule)) (Hobs2_wf : dict_wf observed2)
  (Hobs2 : forall id, dict_get id observed2 = observed_at scope m2 id).

Lemma observed_again_wanted id wanted o :
  dict_get id (effective decision desired observed) = Some wanted -> dict_get id observed2 = Some o ->
  matches_desired o wanted = true.
Proof.
  intros Hd Ho. destruct (settled_wanted id wanted Hd) as (d & o' & Hm2 & _ & Hs & Hod & Hmd).
  rewrite Hobs2 in Ho. unfold observed_at, observation in Ho. rewrite Hm2 in Ho. cbn in Ho. rewrite Hs, Hod in Ho.
  by injection Ho as <-.
Qed.

Lemma observed_again_rest id :
  dict_get id (effective decision desired observed) = None ->
  dict_get id observed2 = match dict_get id observed with
                          | Some o => if superfluous o then None else Some o
                          | None => None
                          end.
Proof.
  intros Hd. rewrite Hobs2. unfold observed_at. rewrite (settled_rest id Hd).
  destruct (dict_get id observed) as [o|] eqn:Ho.
  - destruct (superfluous o); [done|]. rewrite Hobs in Ho. exact Ho.
  - rewrite Hobs in Ho. exact Ho.
Qed.

Definition unscoped (kv : string * ObservedSchedule) : bool :=
  managed kv.2 && bool_decide (os_scope_digest kv.2 = None).

Lemma unscoped_names_filter l :
  unscoped_names l = omap (fun kv => os_schedule_name kv.2) (filter (fun kv => unscoped kv = true) l).
Proof.
  unfold unscoped_names, unscoped. induction l as [|kv l IH]; [done|].
  rewrite filter_cons. cbn [omap list_omap]. rewrite IH. destruct (managed kv.2 && _); [|done].
  by rewrite decide_True by done.
Qed.

Lemma wanted_scoped o wanted :
  self_describing scope wanted -> same_managed_identity o wanted = true -> os_scope_digest o <> None.
Proof.
  intros Hw Hs. unfold same_managed_identity in Hs. repeat rewrite andb_true_iff in Hs.
  destruct Hs as [_ Hsc%bool_decide_eq_true]. rewrite Hsc, (sd_scope _ _ Hw). done.
Qed.

(** The unscoped schedules that are retained stay as they are. *)
Lemma unscoped_again : decision = RETAIN -> unscoped_names observed2 ≡ₚ unscoped_names observed.
Proof.
  intros Hr. rewrite !unscoped_names_filter. apply omap_Permutation.
  assert (Hnd : forall l : list (string * ObservedSchedule), dict_wf l -> NoDup l)
    by (intros l Hl; by apply (NoDup_fmap_1 fst)).
  apply NoDup_Permutation; [by apply NoDup_filter, Hnd..|]. intros [id o].
  rewrite !list_elem_of_filter. split; intros [Hu Hin]; (split; [done|]); apply elem_dict_get in Hin; try done;
    apply dict_get_elem; unfold unscoped in Hu; cbn in Hu; apply andb_true_iff in Hu as [Hman Hsc%bool_decide_eq_true].
  - destruct (dict_get id (effective decision desired observed)) as [wanted|] eqn:Hd.
    + exfalso. pose proof (observed_again_wanted _ _ _ Hd Hin) as Hmd. destruct (effective_Some _ _ Hd) as (_ & _ & Hself).
      unfold matches_desired in Hmd. apply andb_true_iff in Hmd as [Hs _]. by apply (wanted_scoped o wanted).
    + rewrite (observed_again_rest id Hd) in Hin. destruct (dict_get id observed) as [o'|]; [|done].
      destruct (superfluous o'); congruence.
  - destruct (dict_get id (effective decision desired observed)) as [wanted|] eqn:Hd.
    + exfalso. destruct (effective_Some _ _ Hd) as (_ & Hid & Hself).
      destruct (desired_present _ id wanted o eq_refl Hin Hid) as [Hs _].
      { destruct (desired_change observed (id, wanted)) eqn:Hc; [|done]. apply Hnc, Hpc. left. exists (id, wanted).
        split; [by apply dict_get_elem|done]. }
      by apply (wanted_scoped o wanted).
    + rewrite (observed_again_rest id Hd), Hin. unfold superfluous.
      by rewrite Hr, Hsc, !bool_decide_eq_true_2, andb_false_r by done.
Qed.

Lemma ambiguous_again name : decision = RETAIN -> ambiguous observed2 name = ambiguous observed name.
Proof. intros Hr. unfold ambiguous, occurrences. by rewrite (unscoped_again Hr). Qed.

Lemma effective_again : effective decision desired observed2 = effective decision desired observed.
Proof.
  unfold effective, effective_desired. apply list_filter_iff. intros [id wanted]. cbn. unfold retained.
  destruct (bool_decide (decision = RETAIN)) eqn:Hr; [|done]. apply bool_decide_eq_true in Hr.
  rewrite (ambiguous_again _ Hr). cbn.
  assert (Hin : ds_schedule_name wanted ∈ unscoped_names observed2 <-> ds_schedule_name wanted ∈ unscoped_names observed)
    by (by rewrite (unscoped_again Hr)).
  by rewrite (bool_decide_ext _ _ Hin).
Qed.

Lemma nothing_left : merge_sort schedule_change_le (reconcile_changes decision desired observed2) = [].
Proof.
  apply elem_of_nil_inv. intros c Hc. apply elem_of_changes in Hc as [([id wanted] & Hin & Hc)|([id o] & Hin & Hc)].
  - unfold effective in Hin. fold (effective decision desired observed2) in Hin. rewrite effective_again in Hin.
    apply elem_dict_get in Hin; [|apply effective_wf, Hwf].
    destruct (settled_wanted id wanted Hin) as (d & o & Hm2 & _ & Hs & Hod & Hmd).
    assert (Ho : dict_get id observed2 = Some o).
    { rewrite Hobs2. unfold observed_at, observation. rewrite Hm2. cbn. by rewrite Hs, Hod. }
    cbn in Hc. rewrite Ho in Hc. unfold matches_desired, same_managed_identity in Hmd. repeat rewrite andb_true_iff in Hmd.
    destruct Hmd as [[[[Hv _] Hn%bool_decide_eq_true] Hsc%bool_decide_eq_true] Hdig%bool_decide_eq_true].
    rewrite Hv, Hn, Hsc, Hdig, !bool_decide_eq_true_2 in Hc by done. cbn in Hc.
    unfold valid_managed_identity in Hv. destruct (corrupt o); [done|]. destruct (managed o); done.
  - apply elem_dict_get in Hin; [|done]. pose proof (orphan_change_id _ _ _ _ _ Hc) as [_ Hd]. cbn in Hd.
    rewrite effective_again in Hd. pose proof (observed_again_rest id Hd) as Hrest. rewrite Hin in Hrest.
    destruct (dict_get id observed) as [o'|] eqn:Ho; [|done].
    destruct (orphan_settled id o' Hd Ho) as [(Hsup & _)|(Hsup & Hn & Hman & Hcor)]; rewrite Hsup in Hrest; [done|].
    injection Hrest as <-. revert Hc. unfold orphan_change.
    replace (dict_mem id (effective_desired decision observed2 desired)) with false
      by (symmetry; apply dict_mem_false; by rewrite <- Hd, <- effective_again).
    rewrite Hcor. destruct (managed o) eqn:Hmo; [|done]. cbn [negb].
    destruct (Hman eq_refl) as (Hr & Hsc & Hv & Hamb). rewrite Hsc, Hv, bool_decide_eq_true_2 by done.
    rewrite (bool_decide_eq_true_2 (decision = RETAIN)) by done.
    destruct (os_schedule_name o) as [n|]; [|done]. by rewrite (ambiguous_again n Hr), Hamb.
Qed.
End pass.

Lemma plan_quiet w :
  desired_wf -> (Z.of_nat (size (held w)) <= max_schedules)%Z ->
  exists observed plan w1, reconciler_plan max_schedules scope desired decision w = (Ok plan, w1) /\ held w1 = held w /\
    dict_wf observed /\ (forall id, dict_get id observed = observed_at scope (held w) id) /\
    sp_desired plan = effective decision desired observed /\ sp_observed plan = observed /\
    sp_changes plan = merge_sort schedule_change_le (reconcile_changes decision desired observed).
Proof.
  intros [_ Hd] Hs. destruct (observe_quiet max_schedules scope w Hs) as (observed & w1 & Ho & Hw1 & Hwf & Hobs).
  eexists observed, _, w1. split_and!; try done.
  - unfold reconciler_plan, mbind, SM_bind, slift. rewrite Ho. unfold plan_schedule_reconciliation.
    rewrite (validate_mapping_Ok "Desired") by (intros kv Hin; by apply Hd in Hin as [? _]).
    rewrite (validate_mapping_Ok "Observed"); [reflexivity|].
    intros [id o] Hin. apply elem_dict_get in Hin; [|done]. cbn.
    destruct (observed_Some (held w) observed Hobs id o Hin) as (d & Hm & _ & Hod).
    rewrite (observed_id _ _ Hod). symmetry. by eapply held_id.
  - done.
  - done.
  - done.
Qed.
End converge.


(** ** A server in memory *)

(** The memo and the action of each schedule. *)
Abbreviation memory := (gmap string ((string -> memo_read) * option DescribedAction)).

Definition memory_description (id : string) (x : (string -> memo_read) * option DescribedAction) : ScheduleDescription :=
  {| sd_id := id; sd_memo := x.1; sd_action := x.2 |}.

Definition memory_of (d : ScheduleDescription) : (string -> memo_read) * option DescribedAction :=
  (sd_memo d, sd_action d).

#[export] Instance memory_client : TemporalClient memory := {|
  list_schedules m := (((fun kv => {| le_id := kv.1; le_memo := kv.2.1 |}) <$> map_to_list m, None), m);
  describe_schedule id m :=
    (match m !! id with Some x => Ok (memory_description id x) | None => Raise (ScheduleRPCError "NOT_FOUND") end, m);
  create_schedule id s memo m :=
    match m !! id with
    | Some _ => (Raise ScheduleAlreadyRunningError, m)
    | None => (Ok tt, <[id := memory_of (described id s memo)]> m)
    end;
  update_schedule id f b m :=
    match m !! id with
    | None => ((Raise (ScheduleRPCError "NOT_FOUND"), b), m)
    | Some x =>
        match f (memory_description id x) b with
        | (Ok (Some s), b) => ((Ok tt, b), <[id := memory_of (rescheduled (memory_description id x) s)]> m)
        | (Ok None, b) => ((Ok tt, b), m)
        | (Raise e, b) => ((Raise e, b), m)
        end
    end;
  delete_schedule id m :=
    match m !! id with
    | Some _ => (Ok tt, delete id m)
    | None => (Raise (ScheduleRPCError "NOT_FOUND"), m)
    end |}.

Definition memory_held (m : memory) : gmap string ScheduleDescription :=
  map_imap (fun id x => Some (memory_description id x)) m.

Lemma memory_held_lookup m id : memory_held m !! id = memory_description id <$> m !! id.
Proof. unfold memory_held. rewrite map_lookup_imap. by destruct (m !! id). Qed.

Lemma memory_held_insert m id d :
  sd_id d = id -> memory_held (<[id := memory_of d]> m) = <[id := d]> (memory_held m).
Proof.
  intros Hid. apply map_eq. intros i. rewrite memory_held_lookup, !lookup_insert, memory_held_lookup.
  case_decide as Hi; cbn; [|done]. subst. destruct d. done.
Qed.

#[export] Instance memory_server : QuietServer memory.
Proof.
  refine {| held := memory_held |}.
  - intros m id d. rewrite memory_held_lookup. destruct (m !! id); cbn; [|done]. by intros [= <-].
  - intros m. eexists _, m. split_and!; [reflexivity|done| |].
    + rewrite <- list_fmap_compose. change (le_id ∘ _) with (fst (A := string) (B := (string -> memo_read) * option DescribedAction)).
      apply NoDup_fst_map_to_list.
    + intros e. rewrite memory_held_lookup. rewrite list_elem_of_fmap. split.
      * intros ([i x] & -> & Hin%elem_of_map_to_list). cbn. rewrite Hin. cbn. by exists (memory_description i x).
      * intros (d & Hd & He). destruct (m !! le_id e) as [x|] eqn:Hx; [|done]. injection Hd as <-.
        exists (le_id e, x). rewrite elem_of_map_to_list. split; [destruct e; cbn in *; by subst|done].
  - intros id m. exists m. split; [done|]. cbn. rewrite memory_held_lookup. by destruct (m !! id).
  - intros id s memo m Hm. rewrite memory_held_lookup in Hm. cbn. destruct (m !! id); [done|].
    eexists. split; [reflexivity|]. by apply memory_held_insert.
  - intros id f b m d s Hm Hf. rewrite memory_held_lookup in Hm. cbn. destruct (m !! id) as [x|]; [|done].
    injection Hm as <-. rewrite Hf. eexists. split; [reflexivity|]. by apply memory_held_insert.
  - intros id m Hm. rewrite memory_held_lookup in Hm. cbn. destruct (m !! id) as [x|]; [|by destruct Hm].
    eexists. split; [reflexivity|]. apply map_eq. intros i.
    rewrite memory_held_lookup, !lookup_delete, memory_held_lookup. by case_decide.
Defined.

(** ** Samples *)

#[local] Existing Instance sample_sha256.
#[local] Existing Instance coded_floats.

#[local] Instance any_payload : PayloadContracts := {| check_payload _ _ := Satisfied |}.

Definition sample_manifest : DefinitionManifest := {|
  mf_logical_name := "orders"; mf_definition_digest := sample_digest "1";
  mf_required_engine_workflow_abi := "justflow.workflow.v1"; mf_input_schema := None; mf_content := "" |}.

Definition sample_target : WorkflowStartTarget := {|
  wt_manifest := sample_manifest;
  wt_deployment := {| wd_artifact_identity := sample_artifact;
                      wd_compatible_engine_workflow_abis := {["justflow.workflow.v1"]} |};
  wt_environment_snapshot_digest := sample_digest "2"; wt_scope_digest := Some (digest sample_scope);
  wt_execution_configuration := None |}.

Definition sample_calendar : CalendarScheduleSpec := {|
  cal_second := one_range 0 None; cal_minute := [{| cr_start := 0; cr_end := Some 59%Z; cr_step := 15 |}];
  cal_hour := [{| cr_start := 8; cr_end := Some 11%Z; cr_step := 1 |}; {| cr_start := 14; cr_end := None; cr_step := 1 |}];
  cal_day_of_month := one_range 1 (Some 31%Z); cal_month := one_range 1 (Some 12%Z); cal_year := [];
  cal_day_of_week := one_range 1 (Some 5%Z) |}.

Definition sample_trigger : ScheduleTrigger := {|
  st_workflow := "orders"; st_paused := false; st_definition_digest := None; st_input := [];
  st_spec := CalendarSpec sample_calendar; st_timezone := "UTC"; st_overlap_policy := SKIP;
  st_catch_up_window_seconds := 60;
  st_backfill := {| bf_enabled := false; bf_max_window_seconds := 86400; bf_max_actions := 1000 |} |}.

Definition sample_compile (name : string) : sres DesiredSchedule :=
  compile_schedule name sample_trigger sample_target "queue" None sample_scope DEFAULT_RUNTIME_LIMITS 30 5.

Definition sample_row (name : string) : list (string * DesiredSchedule) :=
  match sample_compile name with Ok d => [(ds_schedule_id d, d)] | Raise _ => [] end.

Definition sample_desired : list (string * DesiredSchedule) := sample_row "hourly" ++ sample_row "nightly".

Definition on_server (rows : list (string * DesiredSchedule)) (m : memory) : memory :=
  foldr (fun kv m => <[kv.1 := memory_of (described kv.1 (ds_schedule kv.2) (ds_memo kv.2))]> m) m rows.

(** The schedule as an earlier declaration had it. *)
Definition outdated (d : DesiredSchedule) : DesiredSchedule :=
  let s := ds_schedule d in
  {| ds_schedule_name := ds_schedule_name d; ds_schedule_id := ds_schedule_id d;
     ds_desired_digest := sample_provenance "9"; ds_target := ds_target d;
     ds_schedule := {|
       ts_workflow := ts_workflow s; ts_argument := ts_argument s; ts_workflow_id := ts_workflow_id s;
       ts_task_queue := ts_task_queue s;
       ts_memo := dict_set MEMO_SCHEDULE_DESIRED_DIGEST (sample_provenance "9") (ts_memo s); ts_spec := ts_spec s;
       ts_time_zone_name := ts_time_zone_name s; ts_overlap := ts_overlap s;
       ts_catchup_window_seconds := ts_catchup_window_seconds s; ts_paused := true |};
     ds_memo := ds_memo d |}.

(** An outdated schedule, one that is no longer wanted and one of somebody else. *)
Definition sample_server : memory :=
  on_server ((prod_map id outdated <$> sample_row "hourly") ++ sample_row "old")
    {["backup" := ((fun _ => MemoAbsent), None)]}.

Lemma sample_rows_wf name kv : kv ∈ sample_row name -> kv.1 = ds_schedule_id kv.2 /\ compiled sample_scope kv.2.
Proof.
  unfold sample_row. destruct (sample_compile name) as [d|] eqn:Hc; [|by intros ?%not_elem_of_nil].
  intros ->%list_elem_of_singleton. split; [done|].
  exists name, sample_trigger, sample_target, "queue", None, DEFAULT_RUNTIME_LIMITS, 30%Z, 5%Z. exact Hc.
Qed.

Lemma sample_desired_wf : desired_wf sample_scope sample_desired.
Proof.
  split; [apply (bool_decide_unpack _); vm_compute; done|].
  intros kv [Hin|Hin]%elem_of_app; by eapply sample_rows_wf.
Qed.

Definition sample_free (kv : string * DesiredSchedule) : bool :=
  match held sample_server !! kv.1 with Some d => in_scope sample_scope d | None => true end.

Lemma sample_not_taken : not_taken sample_scope sample_desired (held sample_server).
Proof.
  assert (Hall : forallb sample_free sample_desired = true) by (vm_compute; reflexivity).
  intros kv d Hin Hd. rewrite forallb_forall in Hall. specialize (Hall kv).
  unfold sample_free in Hall. rewrite Hd in Hall.
  exact (Hall (proj1 (list_elem_of_In _ _) Hin)).
Qed.

Definition plan_kinds (r : sres SchedulePlan) : option (bool * list ScheduleChangeKind) :=
  match r with Ok p => Some (has_conflicts p, sc_kind <$> sp_changes p) | Raise _ => None end.

Lemma plan_kinds_Some p b ks :
  plan_kinds (Ok p) = Some (b, ks) -> has_conflicts p = b /\ sc_kind <$> sp_changes p = ks.
Proof. by intros [= <- <-]. Qed.


Lemma calendar_actions_exact_witness :
  exists times : gset (Z * Z * Z), size times = 20 /\ ((14, 45, 0) ∈ times)%Z.
Proof.
  destruct (calendar_actions_exact sample_calendar) as (times & Hin & _ & Hcount & _); [vm_compute; reflexivity|].
  exists times. split; [apply Nat2Z.inj; rewrite <- Hcount; reflexivity|].
  apply Hin. cbn. unfold range_matches. cbn. rewrite !Exists_cons. cbn. split_and!.
  - right; left. split; [lia|]. by exists 0%Z.
  - left. split; [lia|]. by exists 3%Z.
  - left. split; [lia|]. by exists 0%Z.
Defined.
