(* ===== verification/Catalog.v ===== *)
(** The catalog of definitions ([definitions/catalog.py]): immutable manifests, the alias
    that names the active one of each workflow, and the operations of
    [DefinitionCatalogStore] over a backend that other processes write to as well; the
    export and import of [definitions/migration.py]. *)

From S2P Require Export Processes Routing.

(** ** Errors *)

Inductive catalog_exn :=
| CatalogError (message : string)
| CatalogDriftError (message : string)
| CatalogStorageError (message : string)
| CatalogConflictError (message : string)
| CatalogMigrationError (message : string)
| CatalogKeyError (key : string).

Abbreviation cres := (result catalog_exn).

(** [except CatalogError] also takes the classes that derive from it. *)
Definition is_CatalogError (e : catalog_exn) : bool :=
  match e with CatalogMigrationError _ | CatalogKeyError _ => false | _ => true end.

(** ** Objects *)

(** [StoredCatalogObject] *)
Record StoredCatalogObject := {
  so_key : string;
  so_payload : string;
  so_version : string;
}.

#[export] Instance StoredCatalogObject_eq_dec : EqDecision StoredCatalogObject.
Proof. solve_decision. Defined.

(** What pydantic makes of a text, and the canonical text of a model. *)
Class CatalogCodec := {
  manifest_text : DefinitionManifest -> string;
  manifest_of_text : string -> option DefinitionManifest;
  snapshot_text : ExecutionEnvironmentSnapshot -> string;
  snapshot_of_text : string -> option ExecutionEnvironmentSnapshot;
  aliases_of_text : string -> option (Z * list (string * string));
}.

(** [DefinitionManifest.verify_identity]; the version of the format is part of the text. *)
Definition verify_manifest `{Sha256} (m : DefinitionManifest) : bool :=
  is_scope_digest (mf_definition_digest m) && bool_decide (mf_definition_digest m = hexdigest (mf_content m)).

(** [ExecutionEnvironmentSnapshot.verify_identity] *)
Definition verify_snapshot `{Sha256} (s : ExecutionEnvironmentSnapshot) : bool :=
  bool_decide (es_snapshot_digest s = hexdigest (es_content s)).

Definition ALIASES_FILENAME : string := "aliases.json".
Definition ALIASES_FORMAT_VERSION : Z := 1.
Definition MANIFESTS_PREFIX : string := "manifests/".
Definition ENVIRONMENTS_PREFIX : string := "environments/".

(** [character in text] *)
Definition has_char (c : Ascii.ascii) (s : string) : bool :=
  negb (string_forallb (fun c' => negb (bool_decide (c' = c))) s).

Definition backslash : Ascii.ascii := "\"%char.
Definition nul : Ascii.ascii := Ascii.zero.

(** [_validate_path_segment] *)
Definition valid_path_segment (value : string) : bool :=
  negb (bool_decide (value = "")) && negb (bool_decide (value = ".")) && negb (bool_decide (value = ".."))
  && negb (has_char "/"%char value) && negb (has_char backslash value) && negb (has_char nul value).

Definition validate_path_segment (value kind : string) : cres unit :=
  guard_or (valid_path_segment value) (CatalogError ("Invalid catalog " +:+ kind +:+ " '" +:+ value +:+ "'")).

(** [_manifest_key] *)
Definition manifest_path (logical_name digest : string) : string :=
  MANIFESTS_PREFIX +:+ logical_name +:+ "/" +:+ digest +:+ ".json".

Definition manifest_key (m : DefinitionManifest) : cres string :=
  _ ← validate_path_segment (mf_logical_name m) "workflow name";
  _ ← validate_path_segment (mf_definition_digest m) "definition digest";
  Ok (manifest_path (mf_logical_name m) (mf_definition_digest m)).

(** [_environment_snapshot_key] *)
Definition environment_snapshot_key (digest : string) : cres string :=
  _ ← validate_path_segment digest "execution environment snapshot digest";
  Ok (ENVIRONMENTS_PREFIX +:+ digest +:+ ".json").

(** [_catalog_key_parts]: whether a key is one. *)
Definition strip_separator (key : string) : string :=
  match string_split "/"%char key with
  | parts => match last parts with
             | Some "" => string_join "/" (removelast parts)
             | _ => key
             end
  end.

Definition valid_key (allow_trailing_separator : bool) (key : string) : bool :=
  let normalized := if allow_trailing_separator then strip_separator key else key in
  negb (bool_decide (normalized = "")) && negb (startswith "/" normalized)
  && negb (has_char backslash normalized) && negb (has_char nul normalized)
  && forallb (fun part => negb (bool_decide (part = "")) && negb (bool_decide (part = "."))
                          && negb (bool_decide (part = ".."))) (string_split "/"%char normalized).

(** [_alias_payload] *)
Definition alias_payload `{FloatRepr} (aliases : list (string * string)) : string :=
  dumps_strict_json (JDict [
    ("format_version", JInt ALIASES_FORMAT_VERSION);
    ("aliases", JDict (map (prod_map id JStr) aliases))]).

Section parsing.
Context `{CatalogCodec, Sha256, FloatRepr}.

(** [_parse_aliases] *)
Definition parse_aliases (stored : StoredCatalogObject) : cres (list (string * string)) :=
  match aliases_of_text (so_payload stored) with
  | None => Raise (CatalogError ("Invalid alias document '" +:+ so_key stored +:+ "'"))
  | Some (version, aliases) =>
      if negb (bool_decide (version = ALIASES_FORMAT_VERSION))
      then Raise (CatalogError ("Unsupported alias document format version " +:+ Z_to_string version))
      else if negb (bool_decide (so_payload stored = alias_payload aliases))
      then Raise (CatalogError ("Definition alias document '" +:+ so_key stored +:+ "' is not canonical JSON"))
      else Ok aliases
  end.

(** [_parse_manifest] *)
Definition parse_manifest (stored : StoredCatalogObject) : cres DefinitionManifest :=
  match manifest_of_text (so_payload stored) with
  | None => Raise (CatalogError ("Invalid definition manifest '" +:+ so_key stored +:+ "'"))
  | Some m =>
      if negb (verify_manifest m) then Raise (CatalogError ("Invalid definition manifest '" +:+ so_key stored +:+ "'"))
      else
        expected_key ← manifest_key m;
        if negb (bool_decide (so_key stored = expected_key))
        then Raise (CatalogError ("Definition catalog path mismatch: '" +:+ so_key stored +:+ "' should be '"
                                  +:+ expected_key +:+ "'"))
        else if negb (bool_decide (so_payload stored = manifest_text m))
        then Raise (CatalogError ("Definition manifest '" +:+ so_key stored +:+ "' is not canonical JSON"))
        else Ok m
  end.

(** [_parse_environment_snapshot] *)
Definition parse_environment_snapshot (stored : StoredCatalogObject) : cres ExecutionEnvironmentSnapshot :=
  match snapshot_of_text (so_payload stored) with
  | None => Raise (CatalogError ("Invalid execution environment snapshot '" +:+ so_key stored +:+ "'"))
  | Some s =>
      if negb (verify_snapshot s)
      then Raise (CatalogError ("Invalid execution environment snapshot '" +:+ so_key stored +:+ "'"))
      else
        expected_key ← environment_snapshot_key (es_snapshot_digest s);
        if negb (bool_decide (so_key stored = expected_key))
        then Raise (CatalogError ("Execution environment snapshot path mismatch: '" +:+ so_key stored
                                  +:+ "' should be '" +:+ expected_key +:+ "'"))
        else if negb (bool_decide (so_payload stored = snapshot_text s))
        then Raise (CatalogError ("Execution environment snapshot '" +:+ so_key stored +:+ "' is not canonical JSON"))
        else Ok s
  end.
End parsing.

(** ** Catalogs *)

(** [DefinitionCatalog]: manifests by name and digest, and the digests of the aliases. *)
Record DefinitionCatalog := {
  dc_manifests : list ((string * string) * DefinitionManifest);
  dc_aliases : list (string * string);
}.

Definition identity_of (m : DefinitionManifest) : string * string := (mf_logical_name m, mf_definition_digest m).

Definition display (key : string * string) : string := key.1 +:+ "@" +:+ key.2.

(** One turn of the first loop of [__init__]. *)
Definition index_manifest (indexed : cres (list ((string * string) * DefinitionManifest))) (m : DefinitionManifest)
  : cres (list ((string * string) * DefinitionManifest)) :=
  indexed ← indexed;
  if dict_mem (identity_of m) indexed
  then Raise (CatalogError ("Definition '" +:+ display (identity_of m) +:+ "' is duplicated"))
  else Ok (dict_set (identity_of m) m indexed).

(** [DefinitionCatalog.__init__] *)
Definition new_catalog (manifests : list DefinitionManifest) (aliases : list (string * string))
  : cres DefinitionCatalog :=
  indexed ← foldl index_manifest (Ok []) manifests;
  _ ← traverse (fun alias =>
        guard_or (dict_mem alias indexed)
          (CatalogError ("Active alias '" +:+ alias.1 +:+ "' points to missing definition '" +:+ alias.2 +:+ "'")))
      aliases;
  Ok {| dc_manifests := indexed; dc_aliases := aliases |}.

(** The digests of a mapping of manifests. *)
Definition authored_aliases (manifests : list (string * DefinitionManifest)) : list (string * string) :=
  map (prod_map id mf_definition_digest) manifests.

(** [DefinitionCatalog.from_manifests] *)
Definition from_manifests (manifests : list (string * DefinitionManifest)) : cres DefinitionCatalog :=
  new_catalog manifests.*2 (authored_aliases manifests).

(** [DefinitionCatalog.get] *)
Definition catalog_get (c : DefinitionCatalog) (logical_name digest : string) : cres DefinitionManifest :=
  from_option (dict_get (logical_name, digest) (dc_manifests c))
    (CatalogError ("Definition '" +:+ display (logical_name, digest) +:+ "' is not in the catalog")).

(** [DefinitionCatalog.resolve] *)
Definition catalog_resolve (c : DefinitionCatalog) (logical_name : string) : cres DefinitionManifest :=
  digest ← from_option (dict_get logical_name (dc_aliases c))
             (CatalogError ("Workflow '" +:+ logical_name +:+ "' has no active definition alias"));
  catalog_get c logical_name digest.

(** [DefinitionCatalog.verify_authored] *)
Definition verify_authored (c : DefinitionCatalog) (authored : list (string * DefinitionManifest)) : cres unit :=
  if negb (bool_decide (list_to_set authored.*1 =@{gset string} list_to_set (dict_keys (dc_aliases c))))
  then Raise (CatalogDriftError "Published aliases and authored workflows differ")
  else
    _ ← traverse (fun kv =>
          active ← catalog_resolve c kv.1;
          guard_or (bool_decide (active = kv.2))
            (CatalogDriftError ("Workflow '" +:+ kv.1 +:+ "' has unpublished definition changes: active="
                                +:+ mf_definition_digest active +:+ ", authored=" +:+ mf_definition_digest kv.2)))
        authored;
    Ok tt.

(** [assess_definition_retirement] of [definitions/routing.py]: the blockers, in the order
    in which they are added. *)
Definition assess_definition_retirement (c : DefinitionCatalog) (logical_name definition_digest : string)
    (open_executions : list OpenExecutionDependency) (replay_fixture_digests : gset string)
    (scheduled_definition_digests : list string) (approved : bool) : cres (list RetirementBlocker) :=
  _ ← catalog_get c logical_name definition_digest;
  Ok (
    when (negb approved) APPROVAL_REQUIRED
    ++ when (bool_decide (dict_get logical_name (dc_aliases c) = Some definition_digest)) ACTIVE_ALIAS
    ++ when (existsb (fun e => bool_decide (oe_logical_workflow e = logical_name)
                               && bool_decide (oe_definition_digest e = definition_digest)) open_executions)
         OPEN_EXECUTIONS
    ++ when (bool_decide (definition_digest ∉ replay_fixture_digests)) REPLAY_FIXTURE_REQUIRED
    ++ when (bool_decide (definition_digest ∈ scheduled_definition_digests)) ACTIVE_SCHEDULES).

(** ** The store *)

(** [CatalogBackend] *)
Record CatalogBackend `{Calls} := {
  identity : string * string;
  read_object : string -> xprog catalog_exn (option StoredCatalogObject);
  list_objects : string -> xprog catalog_exn (list StoredCatalogObject);
  create_immutable : string -> string -> xprog catalog_exn StoredCatalogObject;
  compare_and_swap : string -> string -> option string -> xprog catalog_exn StoredCatalogObject;
}.

(** [CatalogState] *)
Record CatalogState := {
  cs_catalog : DefinitionCatalog;
  cs_alias_version : option string;
}.

Section store.
Context `{Calls, CatalogCodec, Sha256, FloatRepr} (backend : CatalogBackend).

(** [_load_state] *)
Definition load_state (require_aliases : bool) : xprog catalog_exn (option StoredCatalogObject * DefinitionCatalog) :=
  aliases_object ← read_object backend ALIASES_FILENAME;
  _ ← xlift (guard_or (negb (bool_decide (aliases_object = None) && require_aliases))
               (CatalogError ("Definition catalog is not published in '" +:+ (identity backend).1 +:+
                              "'; run 'justflow definitions publish' first")));
  aliases ← xlift (match (aliases_object : option StoredCatalogObject) with
                   | Some stored => parse_aliases stored
                   | None => Ok []
                   end);
  stored ← list_objects backend MANIFESTS_PREFIX;
  manifests ← xlift (traverse parse_manifest stored);
  catalog ← xlift (new_catalog manifests aliases);
  mret (aliases_object, catalog).

(** [load] *)
Definition load : xprog catalog_exn DefinitionCatalog :=
  state ← load_state true;
  xlift (match state.1 with
         | Some _ => Ok state.2
         | None => Raise (CatalogError "Published catalog aliases are unavailable")
         end).

(** [inspect] *)
Definition inspect : xprog catalog_exn CatalogState :=
  state ← load_state false;
  mret {| cs_catalog := state.2; cs_alias_version := so_version <$> state.1 |}.

(** [store_definition_manifest] *)
Definition store_definition_manifest (m : DefinitionManifest) : xprog catalog_exn StoredCatalogObject :=
  key ← xlift (manifest_key m); create_immutable backend key (manifest_text m).

(** [store_environment_snapshot] *)
Definition store_environment_snapshot (s : ExecutionEnvironmentSnapshot) : xprog catalog_exn StoredCatalogObject :=
  key ← xlift (environment_snapshot_key (es_snapshot_digest s)); create_immutable backend key (snapshot_text s).

(** The loop of [publish]. *)
Fixpoint publish_manifests (all_manifests : list ((string * string) * DefinitionManifest))
    (manifests : list DefinitionManifest) : xprog catalog_exn (list ((string * string) * DefinitionManifest)) :=
  match manifests with
  | [] => mret all_manifests
  | m :: manifests =>
      _ ← xlift (guard_or (match dict_get (identity_of m) all_manifests with
                           | Some prior => bool_decide (prior = m)
                           | None => true
                           end)
                   (CatalogConflictError ("Immutable definition '" +:+ display (identity_of m)
                                          +:+ "' cannot be replaced")));
      _ ← store_definition_manifest m;
      publish_manifests (dict_set (identity_of m) m all_manifests) manifests
  end.

(** [publish] *)
Definition publish (manifests : list (string * DefinitionManifest)) : xprog catalog_exn DefinitionCatalog :=
  state ← load_state false;
  all_manifests ← publish_manifests (dc_manifests state.2) manifests.*2;
  let aliases := authored_aliases manifests in
  catalog ← xlift (new_catalog all_manifests.*2 aliases);
  _ ← compare_and_swap backend ALIASES_FILENAME (alias_payload aliases) (so_version <$> state.1);
  mret catalog.

(** [replace_aliases] *)
Definition replace_aliases (aliases : list (string * string)) (expected_version : option string)
  : xprog catalog_exn StoredCatalogObject :=
  state ← load_state false;
  _ ← xlift (new_catalog (dc_manifests state.2).*2 aliases);
  compare_and_swap backend ALIASES_FILENAME (alias_payload aliases) expected_version.

(** [load_environment_snapshot] *)
Definition load_environment_snapshot (digest : string) : xprog catalog_exn ExecutionEnvironmentSnapshot :=
  key ← xlift (environment_snapshot_key digest);
  stored ← read_object backend key;
  match (stored : option StoredCatalogObject) with
  | None => xraise (CatalogError ("Execution environment snapshot '" +:+ digest +:+ "' is not in the catalog"))
  | Some stored => xlift (parse_environment_snapshot stored)
  end.

(** [list_environment_snapshots] *)
Definition list_environment_snapshots : xprog catalog_exn (list ExecutionEnvironmentSnapshot) :=
  stored ← list_objects backend ENVIRONMENTS_PREFIX;
  xlift (traverse parse_environment_snapshot stored).
End store.
