(* ===== verification/CatalogMigration.v ===== *)
(** Bundles of a catalog and their import into another ([definitions/migration.py]). *)

From S2P Require Export Catalog.

(** [CatalogBundle] *)
Record CatalogBundle := {
  cb_aliases : list (string * string);
  cb_manifests : list DefinitionManifest;
  cb_environment_snapshots : list ExecutionEnvironmentSnapshot;
}.

(** [CatalogBundle.validate_bundle] *)
Definition validate_bundle (bundle : CatalogBundle) : cres unit :=
  _ ← catch (new_catalog (cb_manifests bundle) (cb_aliases bundle))
        (fun _ => Raise (CatalogMigrationError "Catalog bundle is invalid"));
  guard_or (bool_decide (NoDup (es_snapshot_digest <$> cb_environment_snapshots bundle)))
    (CatalogMigrationError "Catalog bundle contains duplicate execution environment snapshots").

(** The order of manifests in a bundle. *)
Definition manifest_le (a b : DefinitionManifest) : Prop :=
  (if bool_decide (mf_logical_name a = mf_logical_name b)
   then String.leb (mf_definition_digest a) (mf_definition_digest b)
   else String.leb (mf_logical_name a) (mf_logical_name b)) = true.

#[export] Instance manifest_le_dec a b : Decision (manifest_le a b).
Proof. unfold manifest_le. apply _. Defined.

Definition snapshot_le (a b : ExecutionEnvironmentSnapshot) : Prop :=
  String.leb (es_snapshot_digest a) (es_snapshot_digest b) = true.

#[export] Instance snapshot_le_dec a b : Decision (snapshot_le a b).
Proof. unfold snapshot_le. apply _. Defined.

(** [CatalogBundle.create] *)
Definition create_bundle (aliases : list (string * string)) (manifests : list DefinitionManifest)
    (environment_snapshots : list ExecutionEnvironmentSnapshot) : cres CatalogBundle :=
  let bundle := {| cb_aliases := sort_keys aliases; cb_manifests := merge_sort manifest_le manifests;
                   cb_environment_snapshots := merge_sort snapshot_le environment_snapshots |} in
  _ ← validate_bundle bundle; Ok bundle.

(** [CatalogImportConflict] *)
Record CatalogImportConflict := {
  ic_kind : string;
  ic_identity : string;
  ic_destination : option string;
  ic_incoming : option string;
}.

(** [CatalogImportPlan] *)
Record CatalogImportPlan := {
  ip_expected_alias_version : option string;
  ip_manifests_to_create : list string;
  ip_environment_snapshots_to_create : list string;
  ip_aliases_to_create : list string;
  ip_unchanged_aliases : list string;
  ip_conflicts : list CatalogImportConflict;
}.

(** [has_changes] *)
Definition has_changes (p : CatalogImportPlan) : bool :=
  negb (bool_decide (ip_manifests_to_create p = [])) || negb (bool_decide (ip_environment_snapshots_to_create p = []))
  || negb (bool_decide (ip_aliases_to_create p = [])).

Inductive UnscopedCatalogDecision := MIGRATE_CATALOG | KEEP_SCOPED.

#[export] Instance UnscopedCatalogDecision_eq_dec : EqDecision UnscopedCatalogDecision.
Proof. solve_decision. Defined.

(** [UnscopedCatalogMigrationPlan] *)
Record UnscopedCatalogMigrationPlan := {
  um_unscoped_aliases : list string;
  um_scoped_aliases : list string;
  um_collisions : list string;
}.

(** What the three loops of [plan_catalog_import] make of an entry: nothing, something to
    create, or a conflict. *)
Definition plan_manifest (current : list ((string * string) * DefinitionManifest)) (m : DefinitionManifest)
  : option (string + CatalogImportConflict) :=
  match dict_get (identity_of m) current with
  | None => Some (inl (display (identity_of m)))
  | Some c =>
      if bool_decide (c = m) then None
      else Some (inr {| ic_kind := "manifest"; ic_identity := display (identity_of m);
                        ic_destination := None; ic_incoming := None |})
  end.

Definition plan_snapshot (current : list (string * ExecutionEnvironmentSnapshot)) (s : ExecutionEnvironmentSnapshot)
  : option (string + CatalogImportConflict) :=
  match dict_get (es_snapshot_digest s) current with
  | None => Some (inl (es_snapshot_digest s))
  | Some c =>
      if bool_decide (c = s) then None
      else Some (inr {| ic_kind := "environment_snapshot"; ic_identity := es_snapshot_digest s;
                        ic_destination := None; ic_incoming := None |})
  end.

Definition plan_alias (current : list (string * string)) (alias : string * string)
  : option (string + CatalogImportConflict) :=
  match dict_get alias.1 current with
  | None => Some (inl alias.1)
  | Some destination =>
      if bool_decide (destination = alias.2) then None
      else Some (inr {| ic_kind := "alias"; ic_identity := alias.1;
                        ic_destination := Some destination; ic_incoming := Some alias.2 |})
  end.

(** The aliases of the destination that the bundle does not have. *)
Definition foreign_aliases (current incoming : list (string * string)) : list CatalogImportConflict :=
  map (fun alias => {| ic_kind := "destination_alias"; ic_identity := alias.1;
                       ic_destination := Some alias.2; ic_incoming := None |})
    (sort_keys (filter (fun alias => dict_mem alias.1 incoming = false) current)).

Definition created (l : list (string + CatalogImportConflict)) : list string :=
  omap (fun x => match x with inl s => Some s | inr _ => None end) l.
Definition conflicting (l : list (string + CatalogImportConflict)) : list CatalogImportConflict :=
  omap (fun x => match x with inl _ => None | inr c => Some c end) l.

(** [plan_catalog_import] on what the destination holds. *)
Definition plan_import (state : CatalogState) (snapshots : list ExecutionEnvironmentSnapshot) (bundle : CatalogBundle)
  : CatalogImportPlan :=
  let current := dc_aliases (cs_catalog state) in
  let manifests := omap (plan_manifest (dc_manifests (cs_catalog state))) (cb_manifests bundle) in
  let planned := omap (plan_snapshot (dict_of_pairs (map (fun s => (es_snapshot_digest s, s)) snapshots)))
                   (cb_environment_snapshots bundle) in
  let aliases := omap (plan_alias current) (sort_keys (cb_aliases bundle)) in
  {| ip_expected_alias_version := cs_alias_version state;
     ip_manifests_to_create := created manifests;
     ip_environment_snapshots_to_create := created planned;
     ip_aliases_to_create := created aliases;
     ip_unchanged_aliases :=
       (filter (fun alias => dict_get alias.1 current = Some alias.2) (sort_keys (cb_aliases bundle))).*1;
     ip_conflicts := conflicting manifests ++ conflicting planned ++ conflicting aliases
                     ++ foreign_aliases current (cb_aliases bundle) |}.

Section migration.
Context `{Calls, CatalogCodec, Sha256, FloatRepr}.

(** [export_catalog] *)
Definition export_catalog (store : CatalogBackend) : xprog catalog_exn CatalogBundle :=
  catalog ← load store;
  snapshots ← list_environment_snapshots store;
  xlift (create_bundle (dc_aliases catalog) (dc_manifests catalog).*2 snapshots).

(** [plan_catalog_import] *)
Definition plan_catalog_import (store : CatalogBackend) (bundle : CatalogBundle) : xprog catalog_exn CatalogImportPlan :=
  state ← inspect store;
  snapshots ← list_environment_snapshots store;
  mret (plan_import state snapshots bundle).

(** [for key in keys: write(values[key])] *)
Fixpoint write_each {A} (write : A -> xprog catalog_exn StoredCatalogObject) (values : list (string * A))
    (keys : list string) : xprog catalog_exn unit :=
  match keys with
  | [] => mret tt
  | key :: keys =>
      value ← xlift (from_option (dict_get key values) (CatalogKeyError key));
      _ ← write value;
      write_each write values keys
  end.

(** [import_catalog] *)
Definition import_catalog (store : CatalogBackend) (bundle : CatalogBundle) : xprog catalog_exn CatalogImportPlan :=
  plan ← plan_catalog_import store bundle;
  _ ← xlift (guard_or (bool_decide (length (ip_conflicts plan) = 0%nat))
               (CatalogConflictError ("Catalog import has " +:+ nat_to_string (length (ip_conflicts plan))
                                      +:+ " unresolved conflict(s)")));
  _ ← write_each (store_definition_manifest store)
        (dict_of_pairs (map (fun m => (display (identity_of m), m)) (cb_manifests bundle))) (ip_manifests_to_create plan);
  _ ← write_each (store_environment_snapshot store)
        (dict_of_pairs (map (fun s => (es_snapshot_digest s, s)) (cb_environment_snapshots bundle)))
        (ip_environment_snapshots_to_create plan);
  _ ← (if bool_decide (length (ip_aliases_to_create plan) = 0%nat) then mret tt
       else _ ← replace_aliases store (cb_aliases bundle) (ip_expected_alias_version plan); mret tt);
  mret plan.

(** [plan_unscoped_catalog_migration] *)
Definition plan_unscoped_catalog_migration (unscoped_store scoped_store : CatalogBackend)
  : xprog catalog_exn UnscopedCatalogMigrationPlan :=
  unscoped ← inspect unscoped_store;
  scoped ← inspect scoped_store;
  let unscoped := sort_keys (dc_aliases (cs_catalog unscoped)) in
  let scoped := sort_keys (dc_aliases (cs_catalog scoped)) in
  mret {| um_unscoped_aliases := unscoped.*1;
          um_scoped_aliases := scoped.*1;
          um_collisions := (filter (fun alias => dict_mem alias.1 scoped = true /\
                                      dict_get alias.1 scoped <> Some alias.2) unscoped).*1 |}.

(** [migrate_unscoped_catalog] *)
Definition migrate_unscoped_catalog (unscoped_store scoped_store : CatalogBackend) (decision : UnscopedCatalogDecision)
  : xprog catalog_exn UnscopedCatalogMigrationPlan :=
  plan ← plan_unscoped_catalog_migration unscoped_store scoped_store;
  if bool_decide (decision = KEEP_SCOPED) || bool_decide (um_unscoped_aliases plan = []) then mret plan
  else
    _ ← xlift (guard_or (bool_decide (um_collisions plan = [])
                         && (bool_decide (um_scoped_aliases plan = [])
                             || bool_decide (um_scoped_aliases plan = um_unscoped_aliases plan)))
                 (CatalogConflictError
                    "Unscoped and scoped catalogs both contain aliases; choose which state to retain"));
    bundle ← export_catalog unscoped_store;
    _ ← import_catalog scoped_store bundle;
    mret plan.
End migration.
