(* ===== verification/CatalogBackends.v ===== *)
(** Backends of the catalog: [S3CatalogBackend] of [definitions/s3.py] over the calls of
    an S3 client, and [ScopedCatalogBackend] of [definitions/catalog.py], which keeps the
    objects of a runtime scope under a prefix of their own. *)

From S2P Require Export Catalog.

(** ** The calls of the client *)

(** The condition of a write: [IfNoneMatch="*"] or [IfMatch=version]. *)
Inductive Condition := IfNoneMatch | IfMatch (version : string).

(** An exception of the client: the code and the status of its [response], where it has
    them. *)
Record s3_error := {
  error_code : option string;
  error_status : option Z;
}.

(** [get_object]: the body as [read_bounded_body] returns it, [None] where it raises, and
    the entry [ETag]. *)
Record GetObjectResponse := {
  go_body : option string;
  go_etag : option string;
}.

(** [list_objects_v2]: the keys of [Contents], [None] where the response is malformed,
    [IsTruncated] and [NextContinuationToken]. *)
Record ListObjectsResponse := {
  lo_contents : option (list string);
  lo_is_truncated : bool;
  lo_next_continuation_token : option string;
}.

Inductive s3_call :=
| GetObject (key : string)
| ListObjectsV2 (prefix : string) (continuation_token : option string)
| PutObject (key body : string) (condition : Condition).

#[export] Instance s3_calls : Calls := {|
  call := s3_call;
  answer c := match c with
              | GetObject _ => result s3_error GetObjectResponse
              | ListObjectsV2 _ _ => result s3_error ListObjectsResponse
              | PutObject _ _ _ => result s3_error unit
              end
|}.

Definition s3_get (key : string) : xprog s3_error GetObjectResponse :=
  Call (GetObject key) Ret.
Definition s3_list (prefix : string) (token : option string) : xprog s3_error ListObjectsResponse :=
  Call (ListObjectsV2 prefix token) Ret.
Definition s3_put (key body : string) (condition : Condition) : xprog s3_error unit :=
  Call (PutObject key body condition) Ret.

(** [_aws_error_code] *)
Definition aws_error_code (e : s3_error) : option string :=
  match error_code e with
  | Some code => Some code
  | None => Z_to_string <$> error_status e
  end.

Definition CONDITIONAL_WRITE_ERROR_CODES : list string :=
  ["409"; "412"; "ConditionalRequestConflict"; "PreconditionFailed"].
Definition NOT_FOUND_ERROR_CODES : list string := ["404"; "NoSuchKey"; "NotFound"].
Definition S3_OBJECT_KEY_MAX_UTF8_BYTES : Z := 1024.

Definition code_in (e : s3_error) (codes : list string) : bool :=
  match aws_error_code e with Some code => bool_decide (code ∈ codes) | None => false end.

(** [text.removeprefix(prefix)] where the text starts with the prefix *)
Definition remove_prefix (prefix s : string) : string :=
  String.substring (String.length prefix) (String.length s - String.length prefix) s.

Section s3.
Context `{Sha256, FloatRepr} (prefix : string) (configuration : list (string * json)) (pages : nat).

(** [_object_key]; a prefix of a catalog is empty or ends in a separator. *)
Definition object_key (key : string) (allow_trailing_separator : bool) : cres string :=
  if negb (valid_key allow_trailing_separator key)
  then Raise (CatalogStorageError ("Invalid S3 catalog object key '" +:+ key +:+ "'"))
  else
    let object_key := prefix +:+ key in
    if (S3_OBJECT_KEY_MAX_UTF8_BYTES <? utf8_length object_key)%Z
    then Raise (CatalogStorageError ("S3 catalog object key exceeds " +:+ Z_to_string S3_OBJECT_KEY_MAX_UTF8_BYTES
                                     +:+ " UTF-8 bytes"))
    else Ok object_key.

(** [read_object] *)
Definition s3_read_object (key : string) : xprog catalog_exn (option StoredCatalogObject) :=
  object_key ← xlift (object_key key false);
  response ← xcatch (response ← s3_get object_key; mret (Some response)) (fun e =>
    if code_in e NOT_FOUND_ERROR_CODES then mret None
    else xraise (CatalogStorageError ("Cannot read S3 catalog object '" +:+ object_key +:+ "'")));
  match (response : option GetObjectResponse) with
  | None => mret None
  | Some response =>
      match go_body response, go_etag response with
      | None, _ => xraise (CatalogStorageError ("Cannot read bounded S3 catalog object body '" +:+ object_key +:+ "'"))
      | Some payload, Some etag =>
          if bool_decide (etag = "")
          then xraise (CatalogStorageError ("S3 catalog object '" +:+ object_key +:+ "' has no ETag"))
          else mret (Some {| so_key := key; so_payload := payload; so_version := etag |})
      | Some _, None => xraise (CatalogStorageError ("S3 catalog object '" +:+ object_key +:+ "' has no ETag"))
      end
  end.

(** [_listed_keys] *)
Definition listed_keys (response : ListObjectsResponse) (object_prefix : string) : cres (list string) :=
  match lo_contents response with
  | None => Raise (CatalogStorageError ("S3 catalog listing below '" +:+ object_prefix +:+ "' is malformed"))
  | Some contents =>
      traverse (fun key =>
        if startswith object_prefix key then Ok (remove_prefix prefix key)
        else Raise (CatalogStorageError ("S3 catalog listing below '" +:+ object_prefix +:+ "' has an invalid key")))
        contents
  end.

(** The loop of [list_objects]. *)
Fixpoint list_pages (fuel : nat) (object_prefix : string) (token : option string) (keys : list string)
  : xprog catalog_exn (list string) :=
  match fuel with
  | O => Running
  | S fuel =>
      response ← xcatch (s3_list object_prefix token) (fun _ =>
        xraise (CatalogStorageError ("Cannot list S3 catalog objects below '" +:+ object_prefix +:+ "'")));
      listed ← xlift (listed_keys response object_prefix);
      if negb (lo_is_truncated response) then mret (keys ++ listed)
      else
        match lo_next_continuation_token response with
        | Some (String _ _ as token) => list_pages fuel object_prefix (Some token) (keys ++ listed)
        | _ => xraise (CatalogStorageError ("S3 catalog listing below '" +:+ object_prefix
                                            +:+ "' omitted its continuation token"))
        end
  end.

(** The reads of [list_objects]. *)
Definition read_listed (key : string) : xprog catalog_exn StoredCatalogObject :=
  stored ← s3_read_object key;
  match (stored : option StoredCatalogObject) with
  | Some stored => mret stored
  | None => xraise (CatalogStorageError ("S3 catalog object '" +:+ key +:+ "' disappeared while loading"))
  end.

(** [list_objects] *)
Definition s3_list_objects (key_prefix : string) : xprog catalog_exn (list StoredCatalogObject) :=
  object_prefix ← xlift (object_key key_prefix true);
  keys ← list_pages pages object_prefix None [];
  xmap read_listed (sort_keys (map (fun key => (key, tt)) keys)).*1.

(** [_conditional_write] *)
Definition conditional_write (key payload : string) (condition : Condition) : xprog catalog_exn StoredCatalogObject :=
  object_key ← xlift (object_key key false);
  written ← xcatch (_ ← s3_put object_key payload condition; mret None) (fun e =>
    if negb (code_in e CONDITIONAL_WRITE_ERROR_CODES)
    then xraise (CatalogStorageError ("Cannot write S3 catalog object '" +:+ object_key +:+ "'"))
    else
      current ← s3_read_object key;
      match (current : option StoredCatalogObject) with
      | Some current =>
          if bool_decide (so_payload current = payload) then mret (Some current)
          else xraise (CatalogConflictError ("S3 catalog object '" +:+ object_key +:+ "' changed concurrently"))
      | None => xraise (CatalogConflictError ("S3 catalog object '" +:+ object_key +:+ "' changed concurrently"))
      end);
  match (written : option StoredCatalogObject) with
  | Some current => mret current
  | None =>
      stored ← s3_read_object key;
      match (stored : option StoredCatalogObject) with
      | Some stored =>
          if bool_decide (so_payload stored = payload) then mret stored
          else xraise (CatalogStorageError ("S3 catalog object '" +:+ object_key
                                            +:+ "' could not be verified after writing"))
      | None => xraise (CatalogStorageError ("S3 catalog object '" +:+ object_key
                                             +:+ "' could not be verified after writing"))
      end
  end.

(** [create_immutable] *)
Definition s3_create_immutable (key payload : string) : xprog catalog_exn StoredCatalogObject :=
  conditional_write key payload IfNoneMatch.

(** [compare_and_swap] *)
Definition s3_compare_and_swap (key payload : string) (expected_version : option string)
  : xprog catalog_exn StoredCatalogObject :=
  current ← s3_read_object key;
  let swap := conditional_write key payload (match expected_version with
                                             | None => IfNoneMatch
                                             | Some version => IfMatch version
                                             end) in
  match (current : option StoredCatalogObject) with
  | Some current => if bool_decide (so_payload current = payload) then mret current else swap
  | None => swap
  end.

(** [S3CatalogBackend]; [configuration] is what its identity is made of. *)
Definition s3_backend : CatalogBackend := {|
  identity := ("s3", provenance_digest (JDict configuration));
  read_object := s3_read_object;
  list_objects := s3_list_objects;
  create_immutable := s3_create_immutable;
  compare_and_swap := s3_compare_and_swap;
|}.
End s3.

(** ** Scopes *)

Section scoped.
Context `{Calls, Sha256, FloatRepr} (backend : CatalogBackend) (scope : RuntimeScope).

Definition SCOPES_DIRECTORY : string := "scopes".

(** [_prefix] *)
Definition scope_prefix : string := SCOPES_DIRECTORY +:+ "/" +:+ digest scope +:+ "/".

(** [_scoped_key] *)
Definition scoped_key (key : string) : cres string :=
  guard_or (valid_key true key) (CatalogStorageError ("Invalid catalog object key '" +:+ key +:+ "'"));;
  Ok (scope_prefix +:+ key).

(** [_unscoped_required] *)
Definition unscoped_required (stored : StoredCatalogObject) : cres StoredCatalogObject :=
  if negb (startswith scope_prefix (so_key stored))
  then Raise (CatalogStorageError "Catalog backend returned an object outside its scope")
  else Ok {| so_key := remove_prefix scope_prefix (so_key stored); so_payload := so_payload stored;
             so_version := so_version stored |}.

(** [_unscoped] *)
Definition unscoped (stored : option StoredCatalogObject) : cres (option StoredCatalogObject) :=
  match stored with
  | None => Ok None
  | Some stored => stored ← unscoped_required stored; Ok (Some stored)
  end.

(** [ScopedCatalogBackend] *)
Definition scoped_backend : CatalogBackend := {|
  identity := ((identity backend).1,
               provenance_digest (JDict [("backend", JStr (identity backend).2);
                                         ("scope_digest", JStr (digest scope))]));
  read_object key :=
    key ← xlift (scoped_key key); stored ← read_object backend key; xlift (unscoped stored);
  list_objects key_prefix :=
    key_prefix ← xlift (scoped_key key_prefix);
    stored ← list_objects backend key_prefix; xlift (traverse unscoped_required stored);
  create_immutable key payload :=
    key ← xlift (scoped_key key); stored ← create_immutable backend key payload; xlift (unscoped_required stored);
  compare_and_swap key payload expected_version :=
    key ← xlift (scoped_key key);
    stored ← compare_and_swap backend key payload expected_version; xlift (unscoped_required stored);
|}.
End scoped.
