(* ===== verification/CatalogInterface.v ===== *)
(** What a backend of the catalog promises to the store: its four operations among
    processes that write to the same objects. *)

From S2P Require Export Catalog.

Section interface.
Context `{Calls} {W : Type} `{!Server W} (objects : W -> gmap string (string * string)).

(** The payload and the version of every object. *)
Abbreviation store := (gmap string (string * string)).

(** At some moment between [σ0] and [σ1] the objects satisfied [P]. *)
Definition seen (E : store -> store -> Prop) (σ0 σ1 : store) (P : store -> Prop) : Prop :=
  exists σ, E σ0 σ /\ E σ σ1 /\ P σ.

Definition storage_error (e : catalog_exn) : Prop := exists message, e = CatalogStorageError message.

Definition write_error (e : catalog_exn) : Prop :=
  storage_error e \/ exists message, e = CatalogConflictError message.

(** The objects that others may write between two calls. *)
Definition among (E : store -> store -> Prop) (w w' : W) : Prop := E (objects w) (objects w').

(** The laws of a backend whose key [k] is the object [root ++ k].  [E] bounds what happens
    to the objects at each step, of this process and of the others. *)
Class BackendLaws (b : CatalogBackend) (root : string) := {
  law_read E `{!PreOrder E} key w :
    wp (among E) (read_object b key)
      (outcome (fun o w' => seen E (objects w) (objects w') (fun σ =>
                  match o with
                  | None => σ !! (root +:+ key) = None
                  | Some s => so_key s = key /\ σ !! (root +:+ key) = Some (so_payload s, so_version s)
                  end))
               (only storage_error)) w;
  law_list E `{!PreOrder E} key_prefix w :
    wp (among E) (list_objects b key_prefix)
      (outcome (fun l w' =>
                  NoDup (so_key <$> l) /\
                  (forall s, s ∈ l -> startswith key_prefix (so_key s) = true /\
                     seen E (objects w) (objects w') (fun σ =>
                       σ !! (root +:+ so_key s) = Some (so_payload s, so_version s))) /\
                  (forall key, startswith key_prefix key = true ->
                     (forall σ, E (objects w) σ -> is_Some (σ !! (root +:+ key))) -> key ∈ (so_key <$> l)))
               (only storage_error)) w;
  law_create E `{!PreOrder E} key payload w :
    (forall σ version, E (objects w) σ -> σ !! (root +:+ key) = None ->
       E σ (<[root +:+ key := (payload, version)]> σ)) ->
    wp (among E) (create_immutable b key payload)
      (outcome (fun _ w' => seen E (objects w) (objects w') (fun σ =>
                  exists version, σ !! (root +:+ key) = Some (payload, version)))
               (only write_error)) w;
  law_swap E `{!PreOrder E} key payload expected_version w :
    (forall σ version, E (objects w) σ -> snd <$> σ !! (root +:+ key) = expected_version ->
       E σ (<[root +:+ key := (payload, version)]> σ)) ->
    wp (among E) (compare_and_swap b key payload expected_version)
      (outcome (fun _ w' => seen E (objects w) (objects w') (fun σ =>
                  exists version, σ !! (root +:+ key) = Some (payload, version)))
               (only write_error)) w;
}.

#[export] Instance among_preorder E `{!PreOrder E} : PreOrder (among E).
Proof. split; [intros w; by unfold among|]. intros w1 w2 w3. unfold among. by transitivity (objects w2). Qed.

Lemma seen_later E `{!PreOrder E} σ0 σ1 σ2 P : E σ1 σ2 -> seen E σ0 σ1 P -> seen E σ0 σ2 P.
Proof. intros H12 (σ & H0 & H1 & HP). exists σ. split_and!; [done| |done]. by transitivity σ1. Qed.

Lemma seen_earlier E `{!PreOrder E} σ0 σ1 σ2 P : E σ0 σ1 -> seen E σ1 σ2 P -> seen E σ0 σ2 P.
Proof. intros H01 (σ & H1 & H2 & HP). exists σ. split_and!; [|done|done]. by transitivity σ1. Qed.

Lemma seen_mono E σ0 σ1 (P Q : store -> Prop) :
  (forall σ, E σ0 σ -> E σ σ1 -> P σ -> Q σ) -> seen E σ0 σ1 P -> seen E σ0 σ1 Q.
Proof. intros HPQ (σ & H0 & H1 & HP). exists σ. eauto. Qed.

Lemma seen_now E `{!PreOrder E} σ0 σ1 (P : store -> Prop) : E σ0 σ1 -> P σ1 -> seen E σ0 σ1 P.
Proof. intros H01 HP. exists σ1. by split_and!. Qed.
End interface.

Create HintDb catalog.
#[export] Hint Resolve seen_later seen_earlier seen_now : catalog.
