(* ===== verification/CatalogBackendFacts.v ===== *)
(** [ScopedCatalogBackend] keeps what its backend promises, within its own prefix; the S3
    backend promises it where the service behaves as documented. *)

From S2P Require Export CatalogBackends CatalogInterface.
From S2P Require Import ScopeFacts.

(** ** Texts *)

Lemma substring_whole s : String.substring 0 (String.length s) s = s.
Proof. induction s as [|c s IH]; cbn; [done|]. by f_equal. Qed.

Lemma remove_prefix_append p s : remove_prefix p (p +:+ s) = s.
Proof.
  unfold remove_prefix. rewrite string_length_append.
  replace (String.length p + String.length s - String.length p)%nat with (String.length s) by lia.
  induction p as [|c p IH]; [|done]. apply substring_whole.
Qed.

Lemma string_append_inj_r p p' s s' : String.length s = String.length s' -> p +:+ s = p' +:+ s' -> p = p' /\ s = s'.
Proof.
  intros Hlen. revert p'. induction p as [|c p IH]; intros [|c' p'] Heq.
  - by rewrite !string_append_nil_l in Heq.
  - apply (f_equal String.length) in Heq. rewrite !string_length_append in Heq. cbn in Heq. lia.
  - apply (f_equal String.length) in Heq. rewrite !string_length_append in Heq. cbn in Heq. lia.
  - rewrite !string_append_cons in Heq. injection Heq as -> Heq. by destruct (IH _ Heq) as [-> ->].
Qed.

(** ** Scopes *)

Section scoped_facts.
Context `{Calls} {W : Type} `{!Server W} (objects : W -> gmap string (string * string)).
Context `{Sha256, FloatRepr} (b : CatalogBackend) (root : string) `{!BackendLaws objects b root} (scope : RuntimeScope).

Abbreviation scoped := (scoped_backend b scope).
Abbreviation scoped_root := (root +:+ scope_prefix scope).

Lemma scoped_key_spec key k : scoped_key scope key = Ok k -> k = scope_prefix scope +:+ key.
Proof. unfold scoped_key. intros ?. inv_ok. done. Qed.

Lemma scoped_key_error key e : scoped_key scope key = Raise e -> storage_error e.
Proof. unfold scoped_key, guard_or. destruct (valid_key _ _); cbn; [done|]. intros [= <-]. by eexists. Qed.

Lemma unscoped_required_Ok s s' :
  unscoped_required scope s = Ok s' ->
  so_key s = scope_prefix scope +:+ so_key s' /\ so_payload s' = so_payload s /\ so_version s' = so_version s.
Proof.
  unfold unscoped_required. destruct (startswith _ _) eqn:Hs; cbn; [|done]. intros [= <-]. cbn.
  apply startswith_spec in Hs as [t ->]. by rewrite remove_prefix_append.
Qed.

Lemma unscoped_required_error s e : unscoped_required scope s = Raise e -> storage_error e.
Proof. unfold unscoped_required. destruct (startswith _ _); cbn; [done|]. intros [= <-]. by eexists. Qed.

(** A call of the backend at the key within the scope. *)
Lemma wp_scoped_key {A} E `{!PreOrder E} (f : string -> xprog catalog_exn A) key Q (P : catalog_exn -> Prop) w :
  (forall e, storage_error e -> P e) ->
  (valid_key true key = true -> wp (among objects E) (f (scope_prefix scope +:+ key)) (outcome Q (only P)) w) ->
  wp (among objects E) (k ← xlift (scoped_key scope key); f k) (outcome Q (only P)) w.
Proof.
  intros HP Hf. wp_bind. apply wp_xlift. intros w1 Hw1. destruct (scoped_key scope key) as [k|e] eqn:Hk; cbn.
  - unfold scoped_key in Hk. intros _. inv_ok. wp_apply wp_rely; [exact Hw1|]. apply Hf. done.
  - red. apply HP. by apply scoped_key_error in Hk.
Qed.

#[export] Instance scoped_laws : BackendLaws objects scoped scoped_root.
Proof.
  split.
  - intros E HE key w. cbn. wp_apply wp_scoped_key; [done|]. intros _. wp_bind.
    wp_apply wp_mono; [|wp_apply (law_read objects (root := root))].
    intros [o|e] w' Hr; cbn; [|done]. intros Ho _. apply wp_xlift. intros w2 H2.
    destruct o as [s|]; cbn.
    + destruct (unscoped_required scope s) as [s'|e] eqn:Hs; cbn; [|by apply unscoped_required_error in Hs].
      apply unscoped_required_Ok in Hs as (Hkey & Hp & Hv). wp_apply seen_later; [exact H2|].
      eapply seen_mono; [|exact Ho]. cbn. intros σ _ _ [Hk Hl]. rewrite Hkey in Hk.
      apply string_append_inj_l in Hk. by rewrite Hp, Hv, string_append_assoc.
    + wp_apply seen_later; [exact H2|]. by rewrite string_append_assoc.
  - intros E HE key w. cbn. wp_apply wp_scoped_key; [done|]. intros _. wp_bind.
    wp_apply wp_mono; [|wp_apply (law_list objects (root := root))].
    intros [l|e] w' Hr; cbn; [|done]. intros (Hnd & Hall & Hin) _. apply wp_xlift. intros w2 H2.
    destruct (traverse (unscoped_required scope) l) as [l'|e] eqn:Hl; cbn.
    + apply traverse_Ok in Hl.
      assert (Hkeys : so_key <$> l = String.append (scope_prefix scope) <$> (so_key <$> l')).
      { clear -Hl. induction Hl as [|s s' l l' Hs _ IH]; cbn; [done|]. apply unscoped_required_Ok in Hs as (-> & _).
        by rewrite IH. }
      split_and!.
      * rewrite Hkeys in Hnd. by eapply NoDup_fmap_1.
      * intros s' Hs'. apply list_elem_of_lookup in Hs' as [i Hi].
        destruct (Forall2_lookup_r _ _ _ _ _ Hl Hi) as (s & Hsi & Hs).
        apply unscoped_required_Ok in Hs as (Hkey & Hp & Hv).
        destruct (Hall s) as [Hpre Hseen]; [by eapply list_elem_of_lookup_2|]. split.
        -- rewrite Hkey in Hpre. apply startswith_spec in Hpre as [t Ht]. apply startswith_spec. exists t.
           rewrite string_append_assoc in Ht. by apply string_append_inj_l in Ht.
        -- wp_apply seen_later; [exact H2|]. by rewrite Hkey, <- Hp, <- Hv, <- string_append_assoc in Hseen.
      * intros k Hk Hpres. specialize (Hin (scope_prefix scope +:+ k)). rewrite Hkeys in Hin.
        apply list_elem_of_fmap in Hin as (k' & Hk' & ?).
        -- by apply string_append_inj_l in Hk' as ->.
        -- apply startswith_spec in Hk as [t ->]. apply startswith_spec. exists t. by rewrite string_append_assoc.
        -- intros σ Hσ. rewrite <- string_append_assoc. by apply Hpres.
    + assert (exists s, unscoped_required scope s = Raise e) as [s Hs].
      { clear -Hl. induction l as [|s l IH]; cbn in Hl; [done|]. destruct (unscoped_required scope s) eqn:Hs; cbn in Hl;
          [|simplify_eq; eauto]. destruct (traverse _ l); cbn in Hl; [done|]. apply IH. by simplify_eq. }
      by apply unscoped_required_error in Hs.
  - intros E HE key payload w Hw. cbn. wp_apply wp_scoped_key; [by left|]. intros _. wp_bind.
    wp_apply wp_mono; [|wp_apply (law_create objects (root := root))].
    + intros [o|e] w' Hr; cbn; [|done]. intros Ho _. apply wp_xlift. intros w2 H2.
      destruct (unscoped_required scope o) as [s'|e] eqn:Hs; cbn; [|left; by apply unscoped_required_error in Hs].
      wp_apply seen_later; [exact H2|]. by rewrite string_append_assoc.
    + intros σ v. rewrite <- string_append_assoc. apply Hw.
  - intros E HE key payload ver w Hw. cbn. wp_apply wp_scoped_key; [by left|]. intros _. wp_bind.
    wp_apply wp_mono; [|wp_apply (law_swap objects (root := root))].
    + intros [o|e] w' Hr; cbn; [|done]. intros Ho _. apply wp_xlift. intros w2 H2.
      destruct (unscoped_required scope o) as [s'|e] eqn:Hs; cbn; [|left; by apply unscoped_required_error in Hs].
      wp_apply seen_later; [exact H2|]. by rewrite string_append_assoc.
    + intros σ v. rewrite <- string_append_assoc. apply Hw.
Qed.
End scoped_facts.

(** ** The S3 backend *)

(** Whether the condition of a write holds of the objects. *)
Definition condition_holds (condition : Condition) (object : option (string * string)) : Prop :=
  match condition with
  | IfNoneMatch => object = None
  | IfMatch version => snd <$> object = Some version
  end.

(** What the service documents: reads and listings are consistent and change nothing, a
    page of a listing is complete up to where its continuation token goes on, a write is
    atomic, happens under its condition only and may have happened where the call fails
    for another reason than the condition.  [beyond token key]: the page that [token] asks
    for may hold [key]. *)
Class S3Laws {W : Type} `{!Server W} (objects : W -> gmap string (string * string)) := {
  beyond : option string -> string -> bool;
  beyond_start key : beyond None key = true;
  s3_get_law w key r w' :
    responds (GetObject key : call) w r w' ->
    objects w' = objects w /\
    match r with
    | Ok o => exists payload version, objects w !! key = Some (payload, version) /\
                (go_body o = Some payload \/ go_body o = None) /\ go_etag o = Some version
    | Raise e => code_in e NOT_FOUND_ERROR_CODES = true -> objects w !! key = None
    end;
  s3_list_law w prefix token r w' :
    responds (ListObjectsV2 prefix token : call) w r w' ->
    objects w' = objects w /\
    match r with
    | Ok page => forall keys, lo_contents page = Some keys ->
        NoDup keys /\
        (forall key, key ∈ keys -> beyond token key = true /\ is_Some (objects w !! key)) /\
        (lo_is_truncated page = false -> forall key,
           startswith prefix key = true -> beyond token key = true -> is_Some (objects w !! key) -> key ∈ keys) /\
        (lo_is_truncated page = true -> forall next, lo_next_continuation_token page = Some next ->
           (forall key, key ∈ keys -> beyond (Some next) key = false) /\
           (forall key, beyond (Some next) key = true -> beyond token key = true) /\
           (forall key, startswith prefix key = true -> beyond token key = true -> is_Some (objects w !! key) ->
              beyond (Some next) key = false -> key ∈ keys))
    | Raise _ => True
    end;
  s3_put_law w key body condition r w' :
    responds (PutObject key body condition : call) w r w' ->
    (objects w' = objects w /\ is_ok r = false) \/
    (condition_holds condition (objects w !! key) /\ exists version, objects w' = <[key := (body, version)]> (objects w));
}.

Section s3_facts.
Context {W : Type} `{!Server W} (objects : W -> gmap string (string * string)) `{!S3Laws objects}.
Context `{Sha256, FloatRepr} (prefix : string) (configuration : list (string * json)) (pages : nat).
Context (E : gmap string (string * string) -> gmap string (string * string) -> Prop) `{!PreOrder E}.

Notation "σ0 '~>' σ1 '|=' P" := (seen E σ0 σ1 P) (at level 70, σ1 at next level).

(** One call. *)
Lemma wp_s3_get key w :
  wp (among objects E) (s3_get key)
    (outcome (fun r w' => seen E (objects w) (objects w') (fun σ =>
                exists payload version, σ !! key = Some (payload, version) /\
                  (go_body r = Some payload \/ go_body r = None) /\ go_etag r = Some version))
             (fun e w' => code_in e NOT_FOUND_ERROR_CODES = true ->
                seen E (objects w) (objects w') (fun σ => σ !! key = None))) w.
Proof.
  apply wp_call. intros w1 r w2 Hw1 Hr. apply s3_get_law in Hr as [Heq Hr]. unfold among in *. rewrite Heq. split; [done|].
  intros w' Hw'. destruct r as [o|e]; cbn; [|intros Hc]; exists (objects w1); eauto.
Qed.

Lemma wp_s3_put key body condition w :
  (forall σ version, E (objects w) σ -> condition_holds condition (σ !! key) -> E σ (<[key := (body, version)]> σ)) ->
  wp (among objects E) (s3_put key body condition)
    (outcome (fun _ w' => seen E (objects w) (objects w') (fun σ => exists version, σ !! key = Some (body, version)))
             (only (fun _ => True))) w.
Proof.
  intros HE. apply wp_call. intros w1 r w2 Hw1 Hr. unfold among in *.
  apply s3_put_law in Hr as [[Heq Hr]|[Hc [version Heq]]]; rewrite Heq; (split; [by eauto|]); intros w' Hw'.
  - by destruct r.
  - destruct r as [u|e]; cbn; [|done]. exists (<[key:=(body, version)]> (objects w1)). split_and!.
    + transitivity (objects w1); [done|]. by apply HE.
    + done.
    + exists version. by rewrite lookup_insert_eq.
Qed.

(** The key of an object within the prefix. *)
Lemma object_key_spec key trailing k : object_key prefix key trailing = Ok k -> k = prefix +:+ key.
Proof.
  unfold object_key. destruct (valid_key _ _); cbn; [|done]. destruct (_ <? _)%Z; [done|]. by intros [= <-].
Qed.

Lemma object_key_error key trailing e : object_key prefix key trailing = Raise e -> storage_error e.
Proof.
  unfold object_key. destruct (valid_key _ _); cbn; [|intros [= <-]; by eexists].
  destruct (_ <? _)%Z; [|done]. intros [= <-]. by eexists.
Qed.

Lemma wp_object_key {A} (f : string -> xprog catalog_exn A) key trailing Q (P : catalog_exn -> Prop) w :
  (forall e, storage_error e -> P e) ->
  wp (among objects E) (f (prefix +:+ key)) (outcome Q (only P)) w ->
  wp (among objects E) (k ← xlift (object_key prefix key trailing); f k) (outcome Q (only P)) w.
Proof.
  intros HP Hf. wp_bind. apply wp_xlift. intros w1 Hw1. destruct (object_key prefix key trailing) as [k|e] eqn:Hk; cbn.
  - apply object_key_spec in Hk as ->. intros _. by wp_apply wp_rely; [exact Hw1|].
  - red. apply HP. by apply object_key_error in Hk.
Qed.

Lemma wp_read_object key w :
  wp (among objects E) (s3_read_object prefix key)
    (outcome (fun o w' => seen E (objects w) (objects w') (fun σ =>
                match o with
                | None => σ !! (prefix +:+ key) = None
                | Some s => so_key s = key /\ σ !! (prefix +:+ key) = Some (so_payload s, so_version s)
                end))
             (only storage_error)) w.
Proof.
  apply wp_object_key; [done|]. wp_bind.
  eapply (wp_mono _ _ (outcome (fun o w' => seen E (objects w) (objects w') (fun σ =>
    match o with
    | None => σ !! (prefix +:+ key) = None
    | Some r => exists payload version, σ !! (prefix +:+ key) = Some (payload, version) /\
                  (go_body r = Some payload \/ go_body r = None) /\ go_etag r = Some version
    end)) (only storage_error))).
  - intros [o|e] w1 Hw1; cbn; [|done]. intros Ho _. destruct o as [r|].
    + destruct (go_body r) as [payload|] eqn:Hb; [|apply wp_xraise; intros; by eexists].
      destruct (go_etag r) as [etag|] eqn:He; [|apply wp_xraise; intros; by eexists].
      case_bool_decide; [apply wp_xraise; intros; by eexists|]. apply wp_xret. intros w' Hw'.
      wp_apply seen_later; [exact Hw'|]. eapply seen_mono; [|exact Ho]. cbn.
      intros σ _ _ (p & v & Hl & [[= ->]|?] & [= ->]); [done|done].
    + apply wp_xret. intros w' Hw'. by wp_apply seen_later; [exact Hw'|].
  - wp_apply wp_xcatch; [intros o w1 w2 _ Hw ?; by wp_apply seen_later; [exact Hw|]|].
    wp_apply wp_xbind; [intros e w1 w2 Hw1 Hw2 Hh _; wp_apply wp_rely; [exact Hw2|by apply Hh]|].
    wp_apply wp_mono; [|apply wp_s3_get]. intros [r|e] w1 Hw1; cbn.
    + intros Hr _. apply wp_xret. intros w' Hw'. by wp_apply seen_later; [exact Hw'|].
    + intros Hn _. destruct (code_in e _).
      * apply wp_xret. intros w' Hw'. wp_apply seen_later; [exact Hw'|]. by apply Hn.
      * apply wp_xraise. intros. by eexists.
Qed.

(** ** Listings *)

(** What a listing from [token] on holds: objects of the prefix, each once, and among them
    those that stay. *)
Definition lists (key_prefix : string) (token : option string) (σ0 : gmap string (string * string)) (l : list string)
  : Prop :=
  NoDup l /\
  (forall key, key ∈ l -> startswith key_prefix key = true /\ beyond token (prefix +:+ key) = true) /\
  (forall key, startswith key_prefix key = true -> beyond token (prefix +:+ key) = true ->
     (forall σ, E σ0 σ -> is_Some (σ !! (prefix +:+ key))) -> key ∈ l).

Lemma listed_keys_spec page key_prefix l :
  listed_keys prefix page (prefix +:+ key_prefix) = Ok l ->
  lo_contents page = Some (String.append prefix <$> l) /\ (forall key, key ∈ l -> startswith key_prefix key = true).
Proof.
  unfold listed_keys. destruct (lo_contents page) as [contents|]; [|done]. intros Ht. apply traverse_Ok in Ht.
  induction Ht as [|raw key contents l Hk _ [IH1 IH2]]; [split; [done|by intros ? ?%elem_of_nil]|].
  destruct (startswith _ raw) eqn:Hs; [|done]. injection Hk as <-. apply startswith_spec in Hs as [t ->].
  rewrite string_append_assoc, remove_prefix_append. split.
  - cbn. by simplify_eq.
  - intros k [->|Hk]%elem_of_cons; [|by apply IH2]. apply startswith_spec. by eexists.
Qed.

Lemma listed_keys_error page op e : listed_keys prefix page op = Raise e -> storage_error e.
Proof.
  unfold listed_keys. destruct (lo_contents page) as [contents|]; [|intros [= <-]; by eexists].
  induction contents as [|raw contents IH]; cbn; [done|]. destruct (startswith _ raw); cbn; [|intros [= <-]; by eexists].
  destruct (traverse _ contents) as [l|e']; cbn in *; [done|]. intros [= <-]. by apply IH.
Qed.

Lemma startswith_append p q s : startswith q s = true -> startswith (p +:+ q) (p +:+ s) = true.
Proof. rewrite !startswith_spec. intros [t ->]. exists t. by rewrite string_append_assoc. Qed.

Definition answers_page key_prefix token (w1 : W) (page : ListObjectsResponse) (w2 : W) : Prop :=
  responds (ListObjectsV2 (prefix +:+ key_prefix) token : call) w1 (Ok page) w2.

(** A page, the last of a listing or not. *)
Lemma lists_page key_prefix token page l w w1 w2 :
  E (objects w) (objects w1) ->
  answers_page key_prefix token w1 page w2 ->
  listed_keys prefix page (prefix +:+ key_prefix) = Ok l ->
  (lo_is_truncated page = false -> lists key_prefix token (objects w) l) /\
  (lo_is_truncated page = true -> forall next w3 l', lo_next_continuation_token page = Some next ->
     E (objects w) (objects w3) -> lists key_prefix (Some next) (objects w3) l' -> lists key_prefix token (objects w) (l ++ l')).
Proof.
  intros Hw1 Hr Hl. apply listed_keys_spec in Hl as [Hc Hpre].
  destruct (s3_list_law _ _ _ _ _ Hr) as [_ Hpage]. specialize (Hpage _ Hc) as (Hnd & Hin & Hlast & Hnext).
  apply NoDup_fmap_1 in Hnd.
  assert (Hmem : forall k, prefix +:+ k ∈ String.append prefix <$> l -> k ∈ l).
  { intros k (k' & Hk' & ?)%list_elem_of_fmap. by apply string_append_inj_l in Hk' as ->. }
  assert (Hbeyond : forall k, k ∈ l -> beyond token (prefix +:+ k) = true).
  { intros k Hk. apply Hin. by apply list_elem_of_fmap_2. }
  split.
  - intros Ht. split_and!; [done|by auto|]. intros k Hk Hb Hs. apply Hmem, Hlast; [done| |done|by apply Hs].
    by apply startswith_append.
  - intros Ht next w3 l' Hn Hw3 (Hnd' & Hin' & Hall'). destruct (Hnext Ht next Hn) as (Hbefore & Hmono & Hpart).
    split_and!.
    + apply NoDup_app. split_and!; [done| |done]. intros k Hk Hk'. destruct (Hin' k Hk') as [_ Hb].
      rewrite (Hbefore (prefix +:+ k)) in Hb; [done|]. by apply list_elem_of_fmap_2.
    + intros k [Hk|Hk]%elem_of_app; [by auto|]. destruct (Hin' k Hk). auto.
    + intros k Hk Hb Hs. apply elem_of_app. destruct (beyond (Some next) (prefix +:+ k)) eqn:Hbn.
      * right. apply Hall'; [done|done|]. intros σ Hσ. apply Hs. by transitivity (objects w3).
      * left. apply Hmem, Hpart; [by apply startswith_append|done|by apply Hs|done].
Qed.

Lemma wp_list_pages fuel key_prefix token acc w :
  wp (among objects E) (list_pages prefix fuel (prefix +:+ key_prefix) token acc)
    (outcome (fun keys w' => exists l, keys = acc ++ l /\ lists key_prefix token (objects w) l) (only storage_error)) w.
Proof.
  revert token acc w. induction fuel as [|fuel IH]; intros token acc w; [done|]. cbn [list_pages]. wp_bind.
  eapply (wp_mono _ _ (outcome (fun page w' => exists w1, E (objects w) (objects w1) /\
    E (objects w1) (objects w') /\ exists w2, answers_page key_prefix token w1 page w2)
    (only storage_error))).
  - intros [page|e] w' Hw'; cbn [outcome]; [|done]. intros (w1 & Hw1 & Hw1' & w2 & Hr) _.
    wp_bind. apply wp_xlift. intros w3 Hw3.
    destruct (listed_keys prefix page (prefix +:+ key_prefix)) as [l|e] eqn:Hl; cbn [outcome];
      [|by eapply listed_keys_error].
    intros Hw13. destruct (lists_page _ _ _ _ _ _ _ Hw1 Hr Hl) as [Hlast Hnext].
    destruct (lo_is_truncated page) eqn:Ht; cbn [negb].
    + destruct (lo_next_continuation_token page) as [[|c next]|] eqn:Hn; try (apply wp_xraise; intros; by eexists).
      wp_apply wp_mono; [|apply IH]. intros [keys|e] w4 Hw4; cbn [outcome]; [|done]. intros (l' & -> & Hl').
      exists (l ++ l'). split; [by rewrite app_assoc|]. eapply (Hnext eq_refl); [done| |exact Hl'].
      transitivity (objects w'); [by transitivity (objects w1)|done].
    + apply wp_xret. intros w4 _. exists l. by auto.
  - wp_apply wp_xcatch.
    { intros page w1 w2 _ Hw2 (w3 & ? & ? & ?). exists w3. split_and!; [done| |done]. by transitivity (objects w1). }
    apply wp_call. intros w1 r w2 Hw1 Hr. destruct (s3_list_law _ _ _ _ _ Hr) as [Heq _].
    unfold among in *. rewrite Heq. split; [done|]. intros w3 Hw3. destruct r as [page|e]; cbn [outcome].
    + exists w1. eauto.
    + intros _. apply wp_xraise. intros; by eexists.
Qed.

(** ** The laws *)

Definition read_at key s (σ : gmap string (string * string)) : Prop :=
  so_key s = key /\ σ !! (prefix +:+ key) = Some (so_payload s, so_version s).

Lemma wp_read_listed key w :
  wp (among objects E) (read_listed prefix key)
    (outcome (fun s w' => seen E (objects w) (objects w') (read_at key s)) (only storage_error)) w.
Proof.
  unfold read_listed. wp_bind. wp_apply wp_mono; [|apply wp_read_object].
  intros [[s|]|e] w1 Hw1; cbn [outcome]; [intros Hs _|intros _ _|done].
  - apply wp_xret. intros w2 Hw2. by wp_apply seen_later; [exact Hw2|].
  - apply wp_xraise. intros. by eexists.
Qed.

Lemma wp_list_objects key_prefix w :
  wp (among objects E) (s3_list_objects prefix pages key_prefix)
    (outcome (fun l w' =>
                NoDup (so_key <$> l) /\
                (forall s, s ∈ l -> startswith key_prefix (so_key s) = true /\
                   seen E (objects w) (objects w') (fun σ =>
                     σ !! (prefix +:+ so_key s) = Some (so_payload s, so_version s))) /\
                (forall key, startswith key_prefix key = true ->
                   (forall σ, E (objects w) σ -> is_Some (σ !! (prefix +:+ key))) -> key ∈ (so_key <$> l)))
             (only storage_error)) w.
Proof.
  unfold s3_list_objects. apply wp_object_key; [done|]. wp_bind. wp_apply wp_mono; [|apply wp_list_pages].
  intros [keys|e] w1 Hw1; cbn [outcome]; [|done]. intros (l & -> & Hnd & Hin & Hall) _. cbn [app].
  assert (Hperm : (sort_keys (map (fun key => (key, tt)) l)).*1 ≡ₚ l).
  { rewrite sort_keys_Permutation. rewrite <- list_fmap_compose. by rewrite list_fmap_id. }
  wp_apply wp_mono; [|eapply (wp_xmap _ _ _ (fun key s w' => seen E (objects w) (objects w') (read_at key s)))].
  - intros [objs|e] w2 Hw2; cbn [outcome]; [|done]. intros Hobjs.
    assert (Hkeys : so_key <$> objs = (sort_keys (map (fun key => (key, tt)) l)).*1).
    { clear -Hobjs. induction Hobjs as [|k s ks objs (σ & _ & _ & <- & _) _ IH]; [done|]. cbn. by rewrite IH. }
    rewrite Hkeys, Hperm. split_and!; [done| |].
    + intros s Hs. apply list_elem_of_lookup in Hs as [i Hi].
      destruct (Forall2_lookup_r _ _ _ _ _ Hobjs Hi) as (k & Hk & σ & H1 & H2 & <- & Hl). split; [|by exists σ].
      apply Hin. rewrite <- Hperm. by eapply list_elem_of_lookup_2.
    + intros k Hk Hs. rewrite Hperm. apply Hall; [done|apply beyond_start|done].
  - intros k s w2 w3 Hw23 Hs. by wp_apply seen_later; [exact Hw23|].
  - intros k w2 _ Hw2. wp_apply wp_mono; [|apply wp_read_listed]. intros [s|e] w3 Hw3; cbn [outcome]; [|done].
    intros Hs. wp_apply seen_earlier; [|exact Hs]. by transitivity (objects w1).
Qed.

(** What a write leaves. *)
Definition written key payload (σ : gmap string (string * string)) : Prop :=
  exists version, σ !! (prefix +:+ key) = Some (payload, version).

Lemma seen_written key payload s w0 w w1 w2 :
  so_payload s = payload -> E (objects w0) (objects w) -> E (objects w1) (objects w2) ->
  seen E (objects w) (objects w1) (read_at key s) -> seen E (objects w0) (objects w2) (written key payload).
Proof.
  intros <- Hw0 Hw2 Hs. wp_apply seen_earlier; [exact Hw0|]. wp_apply seen_later; [exact Hw2|].
  eapply seen_mono; [|exact Hs]. intros σ _ _ [_ Hl]. by eexists.
Qed.

Lemma wp_conditional_write key payload condition w :
  (forall σ version, E (objects w) σ -> condition_holds condition (σ !! (prefix +:+ key)) ->
     E σ (<[prefix +:+ key := (payload, version)]> σ)) ->
  wp (among objects E) (conditional_write prefix key payload condition)
    (outcome (fun _ w' => seen E (objects w) (objects w') (written key payload)) (only write_error)) w.
Proof.
  intros HE. unfold conditional_write. apply wp_object_key; [by left|]. wp_bind.
  eapply (wp_mono _ _ (outcome (fun _ w' => seen E (objects w) (objects w') (written key payload)) (only write_error))).
  - intros [written|e] w1 Hw1; cbn [outcome]; [|done]. intros Hwr _. destruct written as [current|].
    { apply wp_xret. intros w2 Hw2. by wp_apply seen_later; [exact Hw2|]. }
    wp_bind. wp_apply wp_mono; [|apply wp_read_object].
    intros [[s|]|e] w2 Hw2; cbn [outcome]; [intros Hs _|intros _ _|by left].
    + case_bool_decide; [|apply wp_xraise; intros; left; by eexists].
      apply wp_xret. intros w3 Hw3. by eapply (seen_written _ _ s w w1 w2).
    + apply wp_xraise. intros; left; by eexists.
  - wp_apply wp_xcatch; [intros o w1 w2 _ Hw2 ?; by wp_apply seen_later; [exact Hw2|]|].
    wp_apply wp_xbind.
    { intros e w1 w2 Hw1 Hw2 Hh _. wp_apply wp_rely; [exact Hw2|by apply Hh]. }
    wp_apply wp_mono; [|apply wp_s3_put, HE]. intros [u|e] w1 Hw1; cbn [outcome].
    + intros Hp _. apply wp_xret. intros w2 Hw2. by wp_apply seen_later; [exact Hw2|].
    + intros _ _. destruct (code_in e _); cbn [negb]; [|apply wp_xraise; intros; left; by eexists].
      wp_bind. wp_apply wp_mono; [|apply wp_read_object].
      intros [[s|]|e'] w2 Hw2; cbn [outcome]; [intros Hs _|intros _ _|by left].
      * case_bool_decide; [|apply wp_xraise; intros; right; by eexists].
        apply wp_xret. intros w3 Hw3. by eapply (seen_written _ _ s w w1 w2).
      * apply wp_xraise. intros; right; by eexists.
Qed.
End s3_facts.

(** The S3 backend keeps the promises of a backend of the catalog. *)
#[export] Instance s3_backend_laws {W : Type} `{!Server W} (objects : W -> gmap string (string * string)) `{!S3Laws objects}
    `{Sha256, FloatRepr} prefix configuration pages : BackendLaws objects (s3_backend prefix configuration pages) prefix.
Proof.
  split; intros E HE.
  - intros key w. by apply wp_read_object.
  - intros key_prefix w. by apply wp_list_objects.
  - intros key payload w Hw. apply wp_conditional_write; [done|done|]. intros σ v ? ?. by apply Hw.
  - intros key payload expected w Hw. cbn. unfold s3_compare_and_swap. wp_bind.
    wp_apply wp_mono; [|by apply wp_read_object].
    assert (Hwrite : forall w1, E (objects w) (objects w1) ->
      wp (among objects E) (conditional_write prefix key payload
            (match expected with None => IfNoneMatch | Some v => IfMatch v end))
        (outcome (fun _ w' => seen E (objects w) (objects w') (fun σ =>
           exists version, σ !! (prefix +:+ key) = Some (payload, version))) (only write_error)) w1).
    { intros w1 Hw1. wp_apply wp_mono; [|apply wp_conditional_write; [done|done|]].
      - intros [o|e] w2 _; cbn [outcome]; [|done]. intros Hs. by wp_apply seen_earlier; [exact Hw1|].
      - intros σ v Hσ Hc. apply Hw; [by transitivity (objects w1)|]. destruct expected; cbn in Hc; [done|by rewrite Hc]. }
    intros [[s|]|e] w1 Hw1; cbn [outcome]; [intros Hs _|intros _ _; by apply Hwrite|by left].
    case_bool_decide; [|by apply Hwrite]. apply wp_xret. intros w2 Hw2. wp_apply seen_later; [exact Hw2|].
    eapply seen_mono; [|exact Hs]. cbn. intros σ _ _ [_ Hl]. subst. eauto.
Qed.
