(* ===== verification/CatalogFacts.v ===== *)
(** The catalog among concurrent writers: in every scope it always loads, whatever the
    processes do and whichever of their calls fail. *)

From S2P Require Export CatalogBackends CatalogInterface CatalogMigration.
From S2P Require Import ScopeFacts CatalogBackendFacts.

(** Aliases whose document reads back: with the keys in the order of the text. *)
Definition readable `{CatalogCodec, FloatRepr} (aliases : list (string * string)) : Prop :=
  aliases_of_text (alias_payload aliases) = Some (ALIASES_FORMAT_VERSION, sort_keys aliases).

(** A manifest that pydantic has accepted: its text reads back as it. *)
Definition genuine `{CatalogCodec, Sha256} (m : DefinitionManifest) : Prop :=
  verify_manifest m = true /\ manifest_of_text (manifest_text m) = Some m.

Definition genuine_snapshot `{CatalogCodec, Sha256} (s : ExecutionEnvironmentSnapshot) : Prop :=
  verify_snapshot s = true /\ snapshot_of_text (snapshot_text s) = Some s.

(** ** Catalogs from manifests *)

Definition entry (m : DefinitionManifest) : (string * string) * DefinitionManifest := (identity_of m, m).

Lemma index_raise e ms : foldl index_manifest (Raise e) ms = Raise e.
Proof. induction ms; cbn; done. Qed.

Lemma index_Ok acc ms d : foldl index_manifest (Ok acc) ms = Ok d -> d = acc ++ map entry ms.
Proof.
  revert acc. induction ms as [|m ms IH]; cbn; intros acc Hd; [injection Hd as ->; by rewrite app_nil_r|].
  destruct (dict_mem _ acc) eqn:Hm; [by rewrite index_raise in Hd|]. apply IH in Hd as ->.
  rewrite dict_set_new; [by rewrite <- app_assoc|]. by apply dict_get_None, dict_mem_false.
Qed.

Lemma index_total acc ms :
  NoDup (acc.*1 ++ map identity_of ms) -> foldl index_manifest (Ok acc) ms = Ok (acc ++ map entry ms).
Proof.
  revert acc. induction ms as [|m ms IH]; cbn; intros acc Hnd; [by rewrite app_nil_r|].
  assert (Hm : identity_of m ∉ acc.*1).
  { apply NoDup_app in Hnd as (_ & Hd & _). intros Hin. apply (Hd _ Hin). by left. }
  rewrite (proj2 (dict_mem_false _ _)) by (by apply dict_get_None).
  rewrite dict_set_new by done. rewrite IH; [by rewrite <- app_assoc|].
  rewrite fmap_app. cbn. by rewrite <- app_assoc.
Qed.

Lemma new_catalog_Ok ms aliases c :
  new_catalog ms aliases = Ok c ->
  dc_manifests c = map entry ms /\ dc_aliases c = aliases /\
  (forall alias, alias ∈ aliases -> is_Some (dict_get alias (dc_manifests c))).
Proof.
  unfold new_catalog. intros Hc. inv_ok.
  match goal with H : foldl _ _ _ = Ok _ |- _ => apply index_Ok in H; cbn in H; subst end.
  match goal with H : traverse _ _ = Ok _ |- _ => apply traverse_Ok in H; rename H into Ht end.
  cbn. split_and!; [done|done|]. intros alias Hin. apply list_elem_of_lookup in Hin as [i Hi].
  destruct (Forall2_lookup_l _ _ _ _ _ Ht Hi) as ([] & _ & Hg). by apply guard_or_Ok, dict_mem_true in Hg.
Qed.

(** Elements with the same image in a list of distinct images are the same. *)
Lemma NoDup_image_inj {A B} (f : A -> B) l x y : NoDup (f <$> l) -> x ∈ l -> y ∈ l -> f x = f y -> x = y.
Proof.
  intros Hnd Hx Hy Heq. apply list_elem_of_lookup in Hx as [i Hi], Hy as [j Hj].
  assert (i = j) as ->; [|congruence].
  eapply (NoDup_lookup _ i j (f x)); [exact Hnd| |]; rewrite list_lookup_fmap; [by rewrite Hi|rewrite Hj; cbn; by rewrite Heq].
Qed.

Lemma index_NoDup acc ms d :
  foldl index_manifest (Ok acc) ms = Ok d -> NoDup acc.*1 -> NoDup d.*1.
Proof.
  revert acc. induction ms as [|m ms IH]; cbn; intros acc Hd; [by injection Hd as ->|].
  destruct (dict_mem _ acc) eqn:Hm; [by rewrite index_raise in Hd|]. intros Hnd. eapply IH; [exact Hd|].
  by apply dict_set_wf.
Qed.

Lemma dict_get_of_pairs_elem {A} (k : string) (v : A) l : dict_get k (dict_of_pairs l) = Some v -> (k, v) ∈ l.
Proof.
  unfold dict_of_pairs. intros Hl. assert ((k, v) ∈ l \/ dict_get k (@nil (string * A)) = Some v) as [?|?]; [|done|done].
  revert Hl. generalize (@nil (string * A)). induction l as [|[k' v'] l IH]; intros d Hd; [by right|].
  rewrite dict_update_cons in Hd. destruct (IH _ Hd) as [?|Hs]; [left; by right|].
  rewrite dict_get_set in Hs. case_decide; [left; simplify_eq; by left|by right].
Qed.

(** A list as a dict with the key [f]. *)
Lemma dict_get_keyed {A} (f : A -> string) l x :
  NoDup (f <$> l) -> x ∈ l -> dict_get (f x) (dict_of_pairs (map (fun a => (f a, a)) l)) = Some x.
Proof.
  intros Hnd Hx.
  assert (Hwf : dict_wf (map (fun a => (f a, a)) l)).
  { unfold dict_wf, dict_keys. change (map ?g l) with (g <$> l). rewrite <- list_fmap_compose. exact Hnd. }
  unfold dict_of_pairs. rewrite dict_get_update by done.
  rewrite (elem_dict_get (f x) x); [done|done|]. by apply (list_elem_of_fmap_2 (fun a => (f a, a))).
Qed.

Lemma dict_get_entry ms m :
  m ∈ ms -> (forall m', m' ∈ ms -> identity_of m' = identity_of m -> m' = m) ->
  dict_get (identity_of m) (map entry ms) = Some m.
Proof.
  induction ms as [|m' ms IH]; intros Hin Hu; [by apply elem_of_nil in Hin|]. cbn. case_decide as Heq.
  - by rewrite (Hu m') by (done || by left).
  - apply IH; [by apply elem_of_cons in Hin as [->|?]|]. intros m'' ? ?. apply Hu; [by right|done].
Qed.

Lemma new_catalog_total ms aliases :
  NoDup (map identity_of ms) -> (forall alias, alias ∈ aliases -> exists m, m ∈ ms /\ identity_of m = alias) ->
  exists c, new_catalog ms aliases = Ok c.
Proof.
  intros Hnd Ha. unfold new_catalog. rewrite index_total by done. cbn.
  destruct (traverse _ aliases) as [l|e] eqn:Ht; cbn; [by eexists|]. exfalso. revert Ht.
  assert (Hall : Forall (fun alias => dict_mem alias (map entry ms) = true) aliases).
  { apply Forall_forall. intros alias Hin. apply dict_mem_true. destruct (Ha _ Hin) as (m & Hm & <-).
    exists m. apply dict_get_entry; [done|]. intros m' Hm' Heq.
    by eapply NoDup_image_inj. }
  induction Hall as [|alias aliases Hm _ IH]; cbn; [done|]. rewrite Hm. cbn.
  destruct (traverse _ aliases) as [|e'] eqn:Ht; cbn; [done|]. intros [= ->]. apply IH; [|done].
  intros a Hin. apply Ha. by right.
Qed.

(** ** The objects of a scope *)

Section objects.
Context `{CatalogCodec, Sha256, FloatRepr} (root : string).

Abbreviation store := (gmap string (string * string)).

(** The object of a key in the scope with the digest [d]. *)
Definition place (d key : string) : string := (root +:+ (SCOPES_DIRECTORY +:+ "/" +:+ d +:+ "/")) +:+ key.

Definition immutable_key (key : string) : bool := startswith MANIFESTS_PREFIX key || startswith ENVIRONMENTS_PREFIX key.

(** The manifest is in the catalog. *)
Definition stored (d : string) (σ : store) (m : DefinitionManifest) : Prop :=
  genuine m /\ exists key version, manifest_key m = Ok key /\ σ !! place d key = Some (manifest_text m, version).

(** The snapshot is in the catalog. *)
Definition stored_snapshot (d : string) (σ : store) (s : ExecutionEnvironmentSnapshot) : Prop :=
  genuine_snapshot s /\ exists key version,
    environment_snapshot_key (es_snapshot_digest s) = Ok key /\ σ !! place d key = Some (snapshot_text s, version).

(** Every object of the catalog is what its key says, and every alias names a manifest
    that is there. *)
Definition catalog_ok (d : string) (σ : store) : Prop :=
  (forall key payload version, startswith MANIFESTS_PREFIX key = true -> σ !! place d key = Some (payload, version) ->
     exists m, genuine m /\ manifest_key m = Ok key /\ payload = manifest_text m) /\
  (forall key payload version, startswith ENVIRONMENTS_PREFIX key = true -> σ !! place d key = Some (payload, version) ->
     exists s, genuine_snapshot s /\ environment_snapshot_key (es_snapshot_digest s) = Ok key /\ payload = snapshot_text s) /\
  (forall payload version, σ !! place d ALIASES_FILENAME = Some (payload, version) ->
     exists aliases, readable aliases /\ payload = alias_payload aliases /\
       forall alias, alias ∈ aliases -> exists m, stored d σ m /\ identity_of m = alias).

(** What no process takes back. *)
Definition keeps (d : string) (σ σ' : store) : Prop :=
  forall key v, immutable_key key = true -> σ !! place d key = Some v -> σ' !! place d key = Some v.

(** What every process keeps to, in every scope. *)
Definition evolves (σ σ' : store) : Prop :=
  forall d, is_scope_digest d = true -> keeps d σ σ' /\ (catalog_ok d σ -> catalog_ok d σ').

#[export] Instance evolves_preorder : PreOrder evolves.
Proof.
  split.
  - intros σ d _. split; [by intros ? ?|done].
  - intros σ1 σ2 σ3 H12 H23 d Hd. destruct (H12 d Hd) as [K1 O1], (H23 d Hd) as [K2 O2]. split; [|auto].
    intros key v Hk Hl. by apply K2, K1.
Qed.

Lemma manifest_key_immutable m key : manifest_key m = Ok key -> startswith MANIFESTS_PREFIX key = true.
Proof.
  unfold manifest_key, validate_path_segment. intros Hk. inv_ok. apply startswith_spec. by eexists.
Qed.

Lemma snapshot_key_immutable digest key :
  environment_snapshot_key digest = Ok key -> startswith ENVIRONMENTS_PREFIX key = true.
Proof. unfold environment_snapshot_key, validate_path_segment. intros Hk. inv_ok. apply startswith_spec. by eexists. Qed.

Lemma stored_evolves d σ σ' m : is_scope_digest d = true -> evolves σ σ' -> stored d σ m -> stored d σ' m.
Proof.
  intros Hd He (Hg & key & v & Hk & Hl). split; [done|]. exists key, v. split; [done|]. apply (proj1 (He d Hd)); [|done].
  unfold immutable_key. by rewrite (manifest_key_immutable m).
Qed.

Lemma stored_snapshot_evolves d σ σ' s :
  is_scope_digest d = true -> evolves σ σ' -> stored_snapshot d σ s -> stored_snapshot d σ' s.
Proof.
  intros Hd He (Hg & key & v & Hk & Hl). split; [done|]. exists key, v. split; [done|]. apply (proj1 (He d Hd)); [|done].
  unfold immutable_key. rewrite (snapshot_key_immutable _ _ Hk). apply orb_true_r.
Qed.

(** The objects of different scopes are different objects. *)
Lemma place_inj d d' key key' :
  is_scope_digest d = true -> is_scope_digest d' = true -> place d key = place d' key' -> d = d' /\ key = key'.
Proof.
  unfold is_scope_digest. intros [Hd _]%andb_prop [Hd' _]%andb_prop. apply bool_decide_eq_true in Hd, Hd'.
  unfold place. rewrite !string_append_assoc. intros Heq%string_append_inj_l%string_append_inj_l%string_append_inj_l.
  revert d' Hd' Heq. rewrite <- Hd. clear Hd. induction d as [|c d IH]; intros [|c' d'] Hlen Heq; try done.
  - rewrite !string_append_nil_l in Heq. by apply string_append_inj_l in Heq.
  - rewrite !string_append_cons in Heq. injection Heq as -> Heq. injection Hlen as Hlen.
    by destruct (IH d' Hlen Heq) as [-> ->].
Qed.

(** A write to one object of one scope. *)
Lemma evolves_write d key payload version σ :
  is_scope_digest d = true -> (immutable_key key = true -> σ !! place d key = None) ->
  (catalog_ok d σ -> catalog_ok d (<[place d key := (payload, version)]> σ)) ->
  evolves σ (<[place d key := (payload, version)]> σ).
Proof.
  intros Hd Hnew Hok d' Hd'. destruct (decide (d' = d)) as [->|Hne].
  - split; [|done]. intros key' v Hk Hl. rewrite lookup_insert_ne; [done|]. intros Heq.
    destruct (place_inj d d key key') as [_ ->]; [done..|]. rewrite Hnew in Hl by done. done.
  - assert (Hsame : forall key', <[place d key := (payload, version)]> σ !! place d' key' = σ !! place d' key').
    { intros key'. rewrite lookup_insert_ne; [done|]. intros Heq. by destruct (place_inj d d' key key') as [-> _]. }
    split; [intros key' v _ Hl; by rewrite Hsame|]. intros (Hm & He & Ha). split_and!.
    + intros key' p v Hk Hl. rewrite Hsame in Hl. by eapply Hm.
    + intros key' p v Hk Hl. rewrite Hsame in Hl. by eapply He.
    + intros p v Hl. rewrite Hsame in Hl. destruct (Ha p v Hl) as (aliases & Hnd & -> & Hal).
      exists aliases. split_and!; [done|done|]. intros alias Hin. destruct (Hal alias Hin) as (m & (Hg & k & w & Hk & Hl') & Hi).
      exists m. split; [|done]. split; [done|]. exists k, w. by rewrite Hsame.
Qed.

Lemma place_ne d key key' : is_scope_digest d = true -> key <> key' -> place d key <> place d key'.
Proof. intros Hd Hne Heq. by destruct (place_inj d d key key') as [_ ?]. Qed.

(** A stored manifest stays when another object is written. *)
Lemma stored_insert d σ m key v :
  is_scope_digest d = true -> (immutable_key key = true -> σ !! place d key = None) ->
  stored d σ m -> stored d (<[place d key := v]> σ) m.
Proof.
  intros Hd Hnew (Hg & k & w & Hk & Hl). split; [done|]. exists k, w. split; [done|].
  rewrite lookup_insert_ne; [done|]. intros Heq. destruct (place_inj d d key k) as [_ ->]; [done..|].
  rewrite Hnew in Hl; [done|]. unfold immutable_key. by rewrite (manifest_key_immutable m).
Qed.

(** A new immutable object, and new aliases. *)
Lemma evolves_immutable d key payload version σ :
  is_scope_digest d = true -> σ !! place d key = None ->
  (exists m, genuine m /\ manifest_key m = Ok key /\ payload = manifest_text m) \/
  (exists s, genuine_snapshot s /\ environment_snapshot_key (es_snapshot_digest s) = Ok key /\ payload = snapshot_text s) ->
  evolves σ (<[place d key := (payload, version)]> σ).
Proof.
  intros Hd Hnew Hnew'. apply evolves_write; [done|done|]. intros (Hm & He & Ha).
  assert (Hkey : startswith MANIFESTS_PREFIX key = true \/ startswith ENVIRONMENTS_PREFIX key = true).
  { destruct Hnew' as [(m & _ & Hk & _)|(s & _ & Hk & _)];
      [left; by eapply manifest_key_immutable|right; by eapply snapshot_key_immutable]. }
  split_and!.
  - intros key' p v Hk Hl. destruct (decide (key' = key)) as [->|Hne].
    + rewrite lookup_insert_eq in Hl. injection Hl as <- <-. destruct Hnew' as [?|(s & _ & Hk' & _)]; [done|].
      apply snapshot_key_immutable in Hk'. exfalso. apply startswith_spec in Hk as [t ->]. cbn in Hk'. done.
    + rewrite lookup_insert_ne in Hl by by apply place_ne. by eapply Hm.
  - intros key' p v Hk Hl. destruct (decide (key' = key)) as [->|Hne].
    + rewrite lookup_insert_eq in Hl. injection Hl as <- <-. destruct Hnew' as [(m & _ & Hk' & _)|?]; [|done].
      apply manifest_key_immutable in Hk'. exfalso. apply startswith_spec in Hk as [t ->]. cbn in Hk'. done.
    + rewrite lookup_insert_ne in Hl by by apply place_ne. by eapply He.
  - intros p v Hl. rewrite lookup_insert_ne in Hl.
    + destruct (Ha p v Hl) as (aliases & Hnd & -> & Hal). exists aliases. split_and!; [done|done|].
      intros alias Hin. destruct (Hal alias Hin) as (m & Hs & Hi). exists m. split; [|done]. by apply stored_insert.
    + apply place_ne; [done|]. intros ->. by destruct Hkey.
Qed.

Lemma evolves_aliases d aliases version σ :
  is_scope_digest d = true -> readable aliases ->
  (forall alias, alias ∈ aliases -> exists m, stored d σ m /\ identity_of m = alias) ->
  evolves σ (<[place d ALIASES_FILENAME := (alias_payload aliases, version)]> σ).
Proof.
  intros Hd Hnd Hal. apply evolves_write; [done|done|]. intros (Hm & He & Ha). split_and!.
  - intros key p v Hk Hl. rewrite lookup_insert_ne in Hl; [by eapply Hm|]. apply place_ne; [done|]. by intros <-.
  - intros key p v Hk Hl. rewrite lookup_insert_ne in Hl; [by eapply He|]. apply place_ne; [done|]. by intros <-.
  - intros p v Hl. rewrite lookup_insert_eq in Hl. injection Hl as <- <-. exists aliases. split_and!; [done|done|].
    intros alias Hin. destruct (Hal alias Hin) as (m & Hs & Hi). exists m. split; [|done]. by apply stored_insert.
Qed.

(** Objects of a good catalog parse. *)
Lemma parse_stored key m version :
  genuine m -> manifest_key m = Ok key ->
  parse_manifest {| so_key := key; so_payload := manifest_text m; so_version := version |} = Ok m.
Proof.
  intros [Hv Ht] Hk. unfold parse_manifest. cbn. rewrite Ht, Hv. cbn. rewrite Hk. cbn.
  by rewrite !bool_decide_eq_true_2.
Qed.

Lemma parse_stored_snapshot key s version :
  genuine_snapshot s -> environment_snapshot_key (es_snapshot_digest s) = Ok key ->
  parse_environment_snapshot {| so_key := key; so_payload := snapshot_text s; so_version := version |} = Ok s.
Proof.
  intros [Hv Ht] Hk. unfold parse_environment_snapshot. cbn. rewrite Ht, Hv. cbn. rewrite Hk. cbn.
  by rewrite !bool_decide_eq_true_2.
Qed.

Lemma alias_payload_sorted aliases : alias_payload (sort_keys aliases) = alias_payload aliases.
Proof.
  unfold alias_payload. cbn. do 3 f_equal.
  assert (Hf : forall l : list (string * string),
    map (fun kv => (kv.1, dumps_strict_json kv.2)) (map (prod_map id JStr) l) = map (fun kv => (kv.1, json_quote kv.2)) l).
  { intros l. rewrite map_map. apply map_ext. by intros []. }
  rewrite !Hf, <- sort_keys_map, sort_keys_idemp, sort_keys_map. done.
Qed.

Lemma parse_stored_aliases key aliases version :
  readable aliases ->
  parse_aliases {| so_key := key; so_payload := alias_payload aliases; so_version := version |} = Ok (sort_keys aliases).
Proof.
  intros Hnd. unfold parse_aliases. cbn [so_payload so_key]. rewrite Hnd.
  rewrite bool_decide_eq_true_2 by done. cbn [negb]. by rewrite alias_payload_sorted, bool_decide_eq_true_2.
Qed.
End objects.

(** ** The operations of one process *)

Section operations.
Context `{Calls} {W : Type} `{!Server W} (objects : W -> gmap string (string * string)).
Context `{CatalogCodec, Sha256, FloatRepr}.
Context (b : CatalogBackend) (root : string) `{!BackendLaws objects b root} (scope : RuntimeScope).

Abbreviation own := (scoped_backend b scope).
Abbreviation d := (digest scope).
Abbreviation rely := (among objects (evolves root)).
Abbreviation own_laws := (scoped_laws objects b root scope).

Lemma own_digest : is_scope_digest d = true.
Proof. apply hexdigest_form. Qed.

Lemma rely_ok w w' : rely w w' -> catalog_ok root d (objects w) -> catalog_ok root d (objects w').
Proof. intros Hr. apply (Hr d own_digest). Qed.

Lemma rely_stored w w' m : rely w w' -> stored root d (objects w) m -> stored root d (objects w') m.
Proof. intros Hr. by apply stored_evolves; [apply own_digest|]. Qed.

(** A catalog that can be used: its manifests are stored, its aliases resolve. *)
Definition sound (σ : gmap string (string * string)) (c : DefinitionCatalog) : Prop :=
  (forall key m, (key, m) ∈ dc_manifests c -> key = identity_of m /\ stored root d σ m) /\
  (forall alias, alias ∈ dc_aliases c -> is_Some (dict_get alias (dc_manifests c))).

Lemma sound_evolves w w' c : rely w w' -> sound (objects w) c -> sound (objects w') c.
Proof.
  intros Hr [Hm Ha]. split; [|done]. intros key m Hin. destruct (Hm key m Hin). split; [done|]. by eapply rely_stored.
Qed.

(** What is raised when the catalog has never been published. *)
Definition unpublished (e : catalog_exn) : Prop :=
  e = CatalogError ("Definition catalog is not published in '" +:+ (identity b).1
                    +:+ "'; run 'justflow definitions publish' first").

Lemma wp_read_aliases w :
  catalog_ok root d (objects w) ->
  wp rely (read_object own ALIASES_FILENAME)
    (outcome (fun o w' => match o with
                | None => True
                | Some s => exists aliases, parse_aliases s = Ok aliases /\
                    forall alias, alias ∈ aliases -> exists m, stored root d (objects w') m /\ identity_of m = alias
                end) (only storage_error)) w.
Proof.
  intros Hok. wp_apply wp_mono; [|wp_apply (law_read objects (BackendLaws := own_laws))].
  intros [[s|]|e] w' Hw'; cbn [outcome]; [|done|done]. intros (σ & Hσ & Hσ' & Hk & Hl).
  assert (catalog_ok root d σ) as (_ & _ & Ha) by (by apply (Hσ d own_digest)).
  destruct (Ha _ _ Hl) as (aliases & Hnd & Hp & Hal). destruct s as [k p v]. cbn in Hk, Hp. subst.
  exists (sort_keys aliases). split; [by apply parse_stored_aliases|]. intros alias Hin.
  rewrite sort_keys_Permutation in Hin. destruct (Hal alias Hin) as (m & Hs & Hi). exists m. split; [|done].
  by eapply stored_evolves; [apply own_digest| |].
Qed.

(** The manifests that a listing finds, and those it cannot miss. *)
Lemma wp_list_manifests w :
  catalog_ok root d (objects w) ->
  wp rely (list_objects own MANIFESTS_PREFIX)
    (outcome (fun l w' => exists ms, traverse parse_manifest l = Ok ms /\ NoDup (map identity_of ms) /\
                (forall m, m ∈ ms -> stored root d (objects w') m) /\
                (forall m, stored root d (objects w) m -> m ∈ ms)) (only storage_error)) w.
Proof.
  intros Hok. wp_apply wp_mono; [|wp_apply (law_list objects (BackendLaws := own_laws))].
  intros [l|e] w' Hw'; cbn [outcome]; [|done]. intros (Hnd & Hin & Hall).
  assert (Hparse : forall s, s ∈ l -> exists m, genuine m /\ manifest_key m = Ok (so_key s) /\
    so_payload s = manifest_text m /\ stored root d (objects w') m).
  { intros s Hs. destruct (Hin s Hs) as (Hpre & σ & Hσ & Hσ' & Hl).
    assert (catalog_ok root d σ) as (Hm & _) by (by apply (Hσ d own_digest)).
    destruct (Hm _ _ _ Hpre Hl) as (m & Hg & Hk & Hp). exists m. split_and!; [done..|].
    eapply stored_evolves; [apply own_digest|exact Hσ'|]. split; [done|]. exists (so_key s), (so_version s).
    split; [done|]. by rewrite <- Hp. }
  assert (exists ms, Forall2 (fun s m => genuine m /\ manifest_key m = Ok (so_key s) /\
    so_payload s = manifest_text m /\ stored root d (objects w') m) l ms) as [ms Hms].
  { clear -Hparse. induction l as [|s l IH]; [by exists []|]. destruct (Hparse s) as [m Hm]; [by left|].
    destruct IH as [ms Hms]; [intros; apply Hparse; by right|]. exists (m :: ms). by constructor. }
  exists ms. split_and!.
  - apply traverse_Ok. eapply Forall2_impl; [exact Hms|]. intros [k p v] m (Hg & Hk & Hp & _). cbn in *. subst.
    by apply parse_stored.
  - assert (Hkeys : Ok <$> (so_key <$> l) = manifest_key <$> ms).
    { clear -Hms. induction Hms as [|s m l ms (_ & Hk & _) _ IH]; [done|]. cbn. by rewrite Hk, IH. }
    assert (Inj (=) (=) (@Ok catalog_exn string)) by (by intros ? ? [= ?]).
    apply (NoDup_fmap_2 (B := cres string) Ok) in Hnd. rewrite Hkeys in Hnd.
    assert (Hid : manifest_key <$> ms = (fun i => manifest_key {| mf_logical_name := i.1; mf_definition_digest := i.2;
      mf_required_engine_workflow_abi := ""; mf_input_schema := None; mf_content := "" |}) <$> (identity_of <$> ms)).
    { rewrite <- list_fmap_compose. by apply list_fmap_ext. }
    rewrite Hid in Hnd. by apply NoDup_fmap_1 in Hnd.
  - intros m Hm. apply list_elem_of_lookup in Hm as [i Hi].
    by destruct (Forall2_lookup_r _ _ _ _ _ Hms Hi) as (s & _ & _ & _ & _ & ?).
  - intros m (Hg & key & v & Hk & Hl).
    assert (Hmem : key ∈ so_key <$> l).
    { apply Hall; [by eapply manifest_key_immutable|]. intros σ Hσ. exists (manifest_text m, v).
      apply (proj1 (Hσ d own_digest)); [|done]. unfold immutable_key. by rewrite (manifest_key_immutable m). }
    apply list_elem_of_fmap in Hmem as (s & -> & Hs).
    destruct (Hin s Hs) as (Hpre & σ & Hσ & _ & Hls).
    apply list_elem_of_lookup in Hs as [i Hi].
    destruct (Forall2_lookup_l _ _ _ _ _ Hms Hi) as (m' & Hm' & Hg' & Hk' & Hp' & _).
    assert (Hl' : σ !! place root d (so_key s) = Some (manifest_text m, v)).
    { apply (proj1 (Hσ d own_digest)); [|done]. unfold immutable_key. by rewrite (manifest_key_immutable m). }
    change (σ !! place root d (so_key s) = Some (so_payload s, so_version s)) in Hls.
    assert (manifest_text m = manifest_text m') as Ht by congruence.
    destruct Hg as [_ Hg], Hg' as [_ Hg']. rewrite Ht in Hg. assert (m = m') as -> by congruence.
    by eapply list_elem_of_lookup_2.
Qed.

Lemma wp_load_state require_aliases w :
  catalog_ok root d (objects w) ->
  wp rely (load_state own require_aliases)
    (outcome (fun state w' => sound (objects w') state.2 /\ (state.1 = None -> require_aliases = false))
             (only (fun e => storage_error e \/ require_aliases = true /\ unpublished e))) w.
Proof.
  intros Hok. unfold load_state. wp_bind. wp_apply wp_mono; [|by apply wp_read_aliases].
  intros [o|e] w1 Hw1; cbn [outcome]; [|by left]. intros Ho _. wp_bind. apply wp_xlift. intros w2 Hw2.
  destruct (guard_or _ _) as [[]|e] eqn:Hguard; cbn [outcome].
  2:{ unfold guard_or in Hguard. destruct (negb _) eqn:Hb; [done|]. injection Hguard as <-. right.
      apply negb_false_iff, andb_prop in Hb as [_ ->]. done. }
  apply guard_or_Ok in Hguard. intros _.
  assert (Hals : exists aliases, match o with Some s => parse_aliases s | None => Ok [] end = Ok aliases /\
    forall alias, alias ∈ aliases -> exists m, stored root d (objects w2) m /\ identity_of m = alias).
  { destruct o as [s|].
    - destruct Ho as (aliases & Hp & Hal). exists aliases. split; [done|]. intros alias Hin.
      destruct (Hal alias Hin) as (m & Hs & Hi). exists m. split; [|done]. by eapply rely_stored.
    - exists []. split; [done|]. by intros ? ?%elem_of_nil. }
  destruct Hals as (aliases & Hpa & Hal). wp_bind. apply wp_xlift. intros w3 Hw3.
  rewrite Hpa. cbn [outcome]. intros _.
  wp_bind. wp_apply wp_mono; [|apply wp_list_manifests; by repeat (eapply rely_ok; [eassumption|])].
  intros [l|e] w4 Hw4; cbn [outcome]; [|by left]. intros (ms & Hms & Hnd & Hst & Hin) _.
  wp_bind. apply wp_xlift. intros w5 Hw5. rewrite Hms. cbn [outcome]. intros _.
  destruct (new_catalog_total ms aliases Hnd) as [c Hc].
  { intros alias Ha. destruct (Hal alias Ha) as (m & Hs & Hi). exists m. split; [|done]. apply Hin.
    by eapply rely_stored; [exact Hw3|]. }
  wp_bind. apply wp_xlift. intros w6 Hw6. rewrite Hc. cbn [outcome]. intros _.
  apply wp_xret. intros w7 Hw7. cbn [fst snd]. split.
  - apply new_catalog_Ok in Hc as (Hcm & Hca & Hres). split; [|by rewrite Hca]. rewrite Hcm. intros key m Hkm.
    apply list_elem_of_fmap in Hkm as (m' & [= -> ->] & Hm'). split; [done|].
    eapply rely_stored; [exact Hw7|]. eapply rely_stored; [exact Hw6|]. eapply rely_stored; [exact Hw5|]. by apply Hst.
  - intros ->. rewrite bool_decide_eq_true_2 in Hguard by done. by destruct require_aliases.
Qed.

(** ** Writes *)

Lemma wp_any {A} (p : xprog catalog_exn A) Q (P : catalog_exn -> Prop) w :
  wp rely p (outcome Q (only P)) w -> wp rely p (outcome Q (only (fun _ => True))) w.
Proof. wp_apply wp_mono. intros [a|e] w' _; cbn [outcome]; done. Qed.

Lemma wp_store_manifest m w :
  genuine m ->
  wp rely (store_definition_manifest own m) (outcome (fun _ w' => stored root d (objects w') m) (only (fun _ => True))) w.
Proof.
  intros Hg. unfold store_definition_manifest. wp_bind. apply wp_xlift. intros w1 Hw1.
  destruct (manifest_key m) as [key|e] eqn:Hk; cbn [outcome]; [|done]. intros _.
  eapply wp_any. wp_apply wp_mono; [|wp_apply (law_create objects (BackendLaws := own_laws))].
  - intros [o|e] w2 Hw2; cbn [outcome]; [|done]. intros (σ & _ & Hσ & v & Hl).
    eapply stored_evolves; [apply own_digest|exact Hσ|]. split; [done|]. by exists key, v.
  - intros σ v _ Hn. apply evolves_immutable; [apply own_digest|done|]. left. by exists m.
Qed.

Lemma wp_store_snapshot s w :
  genuine_snapshot s ->
  wp rely (store_environment_snapshot own s)
    (outcome (fun _ w' => stored_snapshot root d (objects w') s) (only (fun _ => True))) w.
Proof.
  intros Hg. unfold store_environment_snapshot. wp_bind. apply wp_xlift. intros w1 Hw1.
  destruct (environment_snapshot_key _) as [key|e] eqn:Hk; cbn [outcome]; [|done]. intros _.
  eapply wp_any. wp_apply wp_mono; [|wp_apply (law_create objects (BackendLaws := own_laws))].
  - intros [o|e] w2 Hw2; cbn [outcome]; [|done]. intros (σ & _ & Hσ & v & Hl).
    eapply stored_snapshot_evolves; [apply own_digest|exact Hσ|]. split; [done|]. by exists key, v.
  - intros σ v _ Hn. apply evolves_immutable; [apply own_digest|done|]. right. by exists s.
Qed.

(** Entries of a dict of stored manifests. *)
Definition all_stored (σ : gmap string (string * string)) (l : list ((string * string) * DefinitionManifest)) : Prop :=
  forall key m, (key, m) ∈ l -> key = identity_of m /\ stored root d σ m.

Lemma all_stored_later w w' l : rely w w' -> all_stored (objects w) l -> all_stored (objects w') l.
Proof. intros Hr Hl key m Hin. destruct (Hl key m Hin). split; [done|]. by eapply rely_stored. Qed.

Lemma all_stored_set σ l m : all_stored σ l -> stored root d σ m -> all_stored σ (dict_set (identity_of m) m l).
Proof.
  intros Hl Hm key m' Hin.
  assert ((key, m') = (identity_of m, m) \/ (key, m') ∈ l) as [[= -> ->]|?]; [|done|by apply Hl].
  clear Hl. induction l as [|[k v] l IH]; cbn in Hin.
  - apply list_elem_of_singleton in Hin as ->. by left.
  - case_decide as Hk; apply elem_of_cons in Hin as [Heq|Hin].
    + subst k. by left.
    + right. by right.
    + right. rewrite Heq. by left.
    + destruct (IH Hin); [by left|]. right. by right.
Qed.

Lemma wp_publish_manifests ms : forall acc w,
  Forall genuine ms -> all_stored (objects w) acc ->
  wp rely (publish_manifests own acc ms) (outcome (fun all w' => all_stored (objects w') all) (only (fun _ => True))) w.
Proof.
  induction ms as [|m ms IH]; intros acc w Hg Hacc; cbn [publish_manifests].
  - apply wp_xret. intros w' Hw'. by eapply all_stored_later.
  - apply Forall_cons in Hg as [Hm Hg]. wp_bind. apply wp_xlift. intros w1 Hw1.
    destruct (guard_or _ _) as [u|e]; cbn [outcome]; [|done]. intros _.
    wp_bind. wp_apply wp_mono; [|by apply wp_store_manifest]. intros [o|e] w2 Hw2; cbn [outcome]; [|done]. intros Hst _.
    apply IH; [done|]. apply all_stored_set; [|done]. eapply all_stored_later; [exact Hw2|]. by eapply all_stored_later.
Qed.

(** The swap of the aliases for those of a catalog of stored manifests. *)
Lemma wp_swap_aliases ms aliases c expected_version w :
  new_catalog ms aliases = Ok c -> readable aliases -> (forall m, m ∈ ms -> stored root d (objects w) m) ->
  wp rely (compare_and_swap own ALIASES_FILENAME (alias_payload aliases) expected_version)
    (outcome (fun _ _ => True) (only (fun _ => True))) w.
Proof.
  intros Hc Hnd Hms. eapply wp_any. wp_apply wp_mono; [|wp_apply (law_swap objects (BackendLaws := own_laws))].
  - by intros [o|e] w2 Hw2; cbn [outcome].
  - intros σ v Hσ _. apply evolves_aliases; [apply own_digest|done|]. intros alias Hin.
    apply new_catalog_Ok in Hc as (Hcm & _ & Hal). destruct (Hal alias Hin) as [m Hm]. rewrite Hcm in Hm.
    apply dict_get_elem, list_elem_of_fmap in Hm as (m' & [= -> ->] & Hm'). exists m'. split; [|done].
    eapply stored_evolves; [apply own_digest|exact Hσ|by apply Hms].
Qed.

Lemma wp_publish manifests w :
  catalog_ok root d (objects w) -> Forall genuine manifests.*2 -> readable (authored_aliases manifests) ->
  wp rely (publish own manifests)
    (outcome (fun c w' => sound (objects w') c /\ dc_aliases c = authored_aliases manifests) (only (fun _ => True))) w.
Proof.
  intros Hok Hg Hnd. unfold publish. wp_bind. eapply wp_any. wp_apply wp_mono; [|by apply wp_load_state].
  intros [[o c]|e] w1 Hw1; cbn [outcome]; [|done]. intros [[Hc _] _] _. wp_bind.
  wp_apply wp_mono; [|by apply wp_publish_manifests]. intros [all|e] w2 Hw2; cbn [outcome]; [|done].
  intros Hall _. wp_bind. apply wp_xlift. intros w3 Hw3.
  destruct (new_catalog all.*2 (authored_aliases manifests)) as [c'|e] eqn:Hnc; cbn [outcome]; [|done]. intros _.
  assert (Hst : forall m, m ∈ all.*2 -> stored root d (objects w3) m).
  { intros m Hm. apply list_elem_of_fmap in Hm as ([key m'] & -> & Hin). eapply rely_stored; [exact Hw3|]. by eapply Hall. }
  wp_bind. wp_apply wp_mono; [|eapply wp_swap_aliases; [exact Hnc|done|exact Hst]].
  intros [s|e] w4 Hw4; cbn [outcome]; [|done]. intros _ _. apply wp_xret. intros w5 Hw5.
  apply new_catalog_Ok in Hnc as (Hcm & Hca & Hres). split; [|done]. split; [|by rewrite Hca].
  intros key m Hin. rewrite Hcm in Hin. apply list_elem_of_fmap in Hin as (m' & [= -> ->] & Hin). split; [done|].
  eapply rely_stored; [exact Hw5|]. eapply rely_stored; [exact Hw4|]. by apply Hst.
Qed.

Lemma wp_replace_aliases aliases expected_version w :
  catalog_ok root d (objects w) -> readable aliases ->
  wp rely (replace_aliases own aliases expected_version) (outcome (fun _ _ => True) (only (fun _ => True))) w.
Proof.
  intros Hok Hnd. unfold replace_aliases. wp_bind. eapply wp_any. wp_apply wp_mono; [|by apply wp_load_state].
  intros [[o c]|e] w1 Hw1; cbn [outcome]; [|done]. intros [[Hc _] _] _. wp_bind. apply wp_xlift. intros w2 Hw2.
  destruct (new_catalog _ aliases) as [c'|e] eqn:Hnc; cbn [outcome]; [|done]. intros _.
  eapply wp_swap_aliases; [exact Hnc|done|]. intros m Hm. apply list_elem_of_fmap in Hm as ([key m'] & -> & Hin).
  eapply rely_stored; [exact Hw2|]. by eapply Hc.
Qed.

(** ** Snapshots *)

Lemma rely_snapshot w w' s :
  rely w w' -> stored_snapshot root d (objects w) s -> stored_snapshot root d (objects w') s.
Proof. intros Hr. by apply stored_snapshot_evolves; [apply own_digest|]. Qed.

Lemma wp_list_snapshots w :
  catalog_ok root d (objects w) ->
  wp rely (list_environment_snapshots own)
    (outcome (fun l w' => forall s, s ∈ l -> stored_snapshot root d (objects w') s) (only storage_error)) w.
Proof.
  intros Hok. unfold list_environment_snapshots. wp_bind.
  wp_apply wp_mono; [|wp_apply (law_list objects (BackendLaws := own_laws))].
  intros [l|e] w1 Hw1; cbn [outcome]; [|done]. intros (_ & Hin & _) _. apply wp_xlift. intros w2 Hw2.
  assert (Hall : forall s, s ∈ l -> exists e, stored_snapshot root d (objects w2) e /\ parse_environment_snapshot s = Ok e).
  { intros [k p v] Hs. destruct (Hin _ Hs) as (Hpre & σ & Hσ & Hσ' & Hl).
    assert (catalog_ok root d σ) as (_ & He & _) by (by apply (Hσ d own_digest)).
    destruct (He _ _ _ Hpre Hl) as (s & Hg & Hk & Hp). cbn in Hp. subst. exists s. split; [|by apply parse_stored_snapshot].
    eapply rely_snapshot; [exact Hw2|]. eapply stored_snapshot_evolves; [apply own_digest|exact Hσ'|].
    split; [done|]. by exists k, v. }
  assert (exists es, Forall2 (fun s e => parse_environment_snapshot s = Ok e) l es /\
    forall e, e ∈ es -> stored_snapshot root d (objects w2) e) as (es & Hes & Hg).
  { clear -Hall. induction l as [|s l IH]; [exists []; split; [constructor|by intros ? ?%elem_of_nil]|].
    destruct (Hall s) as (e & He & Hp); [by left|].
    destruct IH as (es & Hes & Hg); [intros; apply Hall; by right|]. exists (e :: es). split; [by constructor|].
    by intros e' [->|?]%elem_of_cons; [|apply Hg]. }
  by rewrite (proj2 (traverse_Ok _ l es) Hes).
Qed.

(** ** Imports *)

Lemma wp_write_each {A} (write : A -> xprog catalog_exn StoredCatalogObject) (values : list (string * A)) keys
    (P : A -> W -> Prop) w :
  (forall v w1 w2, rely w1 w2 -> P v w1 -> P v w2) ->
  (forall key v w1, dict_get key values = Some v ->
     wp rely (write v) (outcome (fun _ w' => P v w') (only (fun _ => True))) w1) ->
  wp rely (write_each write values keys)
    (outcome (fun _ w' => forall key v, key ∈ keys -> dict_get key values = Some v -> P v w') (only (fun _ => True))) w.
Proof.
  intros HP Hwrite. revert w. induction keys as [|key keys IH]; intros w; cbn [write_each].
  - apply wp_xret. by intros w' _ key v ?%elem_of_nil.
  - wp_bind. apply wp_xlift. intros w1 Hw1. destruct (dict_get key values) as [v|] eqn:Hv; cbn [from_option outcome]; [|done].
    intros _. wp_bind. wp_apply wp_mono; [|by eapply Hwrite]. intros [o|e] w2 Hw2; cbn [outcome]; [|done]. intros Hp _.
    wp_apply wp_mono; [|apply IH]. intros [[]|e] w3 Hw3; cbn [outcome]; [|done].
    intros Hall key' v' [->|Hin]%elem_of_cons Hv'; [|by eapply Hall]. simplify_eq. by eapply HP.
Qed.

(** What an import needs of its bundle, which [CatalogBundle] has checked. *)
Definition genuine_bundle (bundle : CatalogBundle) : Prop :=
  validate_bundle bundle = Ok tt /\ Forall genuine (cb_manifests bundle) /\
  Forall genuine_snapshot (cb_environment_snapshots bundle) /\ readable (cb_aliases bundle).

Lemma genuine_digest m : genuine m -> is_scope_digest (mf_definition_digest m) = true.
Proof. unfold genuine, verify_manifest. by intros [[Hd _]%andb_prop _]. Qed.

(** The digest ends the text of an identity, so the text determines the identity. *)
Lemma display_inj m m' : genuine m -> genuine m' -> display (identity_of m) = display (identity_of m') -> identity_of m = identity_of m'.
Proof.
  intros Hg%genuine_digest Hg'%genuine_digest. unfold display, identity_of. cbn. intros Heq.
  unfold is_scope_digest in *. apply andb_prop in Hg as [Hl%bool_decide_eq_true _], Hg' as [Hl'%bool_decide_eq_true _].
  apply string_append_inj_r in Heq as [-> Heq]; [|by rewrite !string_length_append, Hl, Hl'].
  apply string_append_inj_l in Heq as ->. done.
Qed.

Lemma bundle_identities bundle :
  genuine_bundle bundle -> NoDup (map identity_of (cb_manifests bundle)) /\
    NoDup (es_snapshot_digest <$> cb_environment_snapshots bundle).
Proof.
  unfold genuine_bundle, validate_bundle. intros (Hv & _). inv_ok.
  apply bool_decide_eq_true in Hv. split; [|done].
  apply catch_Ok in Ha as [Hc|(? & _ & ?)]; [|done].
  unfold new_catalog in Hc. apply bind_Ok in Hc as (indexed & Hi & _).
  pose proof (index_NoDup _ _ _ Hi ltac:(constructor)) as Hnd. apply index_Ok in Hi as ->. cbn [app] in Hnd.
  change (map ?f ?l) with (f <$> l) in *. rewrite <- list_fmap_compose in Hnd. exact Hnd.
Qed.

Lemma bundle_displays bundle :
  genuine_bundle bundle -> NoDup ((fun m => display (identity_of m)) <$> cb_manifests bundle).
Proof.
  intros Hb. pose proof (bundle_identities _ Hb) as [Hnd _]. destruct Hb as (_ & Hg & _). rewrite Forall_forall in Hg.
  apply NoDup_fmap_2_strong; [|by apply (NoDup_fmap_1 identity_of)].
  intros m m' Hm Hm' Heq. apply (NoDup_image_inj identity_of (cb_manifests bundle)); [done..|].
  by apply display_inj; auto.
Qed.

(** An import without conflicts creates each entry or finds it there. *)
Lemma planned {A} (f : A -> option (string + CatalogImportConflict)) l x :
  x ∈ l -> conflicting (omap f l) = [] -> f x = None \/ exists key, f x = Some (inl key) /\ key ∈ created (omap f l).
Proof.
  intros Hx Hn. destruct (f x) as [[key|c]|] eqn:Hf; [right|exfalso|by left].
  - exists key. split; [done|]. apply list_elem_of_omap. exists (inl key). split; [|done]. apply list_elem_of_omap. by exists x.
  - apply (not_elem_of_nil c). rewrite <- Hn. apply list_elem_of_omap. exists (inr c). split; [|done].
    apply list_elem_of_omap. by exists x.
Qed.

Lemma plan_import_spec state snapshots bundle :
  ip_conflicts (plan_import state snapshots bundle) = [] ->
  (forall m, m ∈ cb_manifests bundle ->
     display (identity_of m) ∈ ip_manifests_to_create (plan_import state snapshots bundle) \/
     (identity_of m, m) ∈ dc_manifests (cs_catalog state)) /\
  (forall s, s ∈ cb_environment_snapshots bundle ->
     es_snapshot_digest s ∈ ip_environment_snapshots_to_create (plan_import state snapshots bundle) \/ s ∈ snapshots).
Proof.
  cbn [plan_import ip_conflicts ip_manifests_to_create ip_environment_snapshots_to_create].
  intros [Hm [Hs _]%app_eq_nil]%app_eq_nil. split; [intros m Hin|intros s Hin].
  - destruct (planned _ _ m Hin Hm) as [Hf|(key & Hf & Hk)]; unfold plan_manifest in Hf;
      destruct (dict_get _ _) as [c|] eqn:Hc; simplify_eq; try (case_bool_decide; simplify_eq).
    + right. by apply dict_get_elem.
    + by left.
  - destruct (planned _ _ s Hin Hs) as [Hf|(key & Hf & Hk)]; unfold plan_snapshot in Hf;
      destruct (dict_get _ _) as [c|] eqn:Hc; simplify_eq; try (case_bool_decide; simplify_eq).
    + right. by apply dict_get_of_pairs_elem, list_elem_of_fmap in Hc as (s' & [= _ ->] & ?).
    + by left.
Qed.

Lemma wp_plan_import bundle w :
  catalog_ok root d (objects w) ->
  wp rely (plan_catalog_import own bundle)
    (outcome (fun plan w' => exists state snapshots, plan = plan_import state snapshots bundle /\
                sound (objects w') (cs_catalog state) /\ forall s, s ∈ snapshots -> stored_snapshot root d (objects w') s)
             (only (fun _ => True))) w.
Proof.
  intros Hok. unfold plan_catalog_import, inspect. wp_bind. wp_bind. eapply wp_any.
  wp_apply wp_mono; [|by apply wp_load_state].
  intros [[o c]|e] w1 Hw1; cbn [outcome]; [|done]. intros [Hs _] _. apply wp_xret. intros w2 Hw2 Hw2'.
  wp_bind. eapply wp_any. wp_apply wp_mono; [|apply wp_list_snapshots; by eapply rely_ok].
  intros [l|e] w3 Hw3; cbn [outcome]; [|done]. intros Hl _. apply wp_xret. intros w4 Hw4.
  eexists _, l. split_and!; [done| |].
  - eapply sound_evolves; [exact Hw4|]. eapply sound_evolves; [exact Hw3|]. eapply sound_evolves; [exact Hw2|]. exact Hs.
  - intros s Hin. eapply rely_snapshot; [exact Hw4|]. by apply Hl.
Qed.

Lemma wp_load w :
  catalog_ok root d (objects w) ->
  wp rely (load own) (outcome (fun c w' => sound (objects w') c) (only (fun e => storage_error e \/ unpublished e))) w.
Proof.
  intros Hok. unfold load. wp_bind. wp_apply wp_mono; [|by apply wp_load_state].
  intros [[o c]|e] w1 Hw1; cbn [outcome].
  - intros [Hs Ho] _. apply wp_xlift. intros w2 Hw2. cbn [fst snd]. destruct o as [o|]; cbn [outcome].
    + by eapply sound_evolves.
    + by specialize (Ho eq_refl).
  - intros [?|[_ ?]]; [by left|by right].
Qed.

Lemma wp_export w :
  catalog_ok root d (objects w) ->
  wp rely (export_catalog own)
    (outcome (fun bundle w' => (forall m, m ∈ cb_manifests bundle -> stored root d (objects w') m) /\
                (forall s, s ∈ cb_environment_snapshots bundle -> stored_snapshot root d (objects w') s))
             (only (fun _ => True))) w.
Proof.
  intros Hok. unfold export_catalog. wp_bind. eapply wp_any. wp_apply wp_mono; [|by apply wp_load].
  intros [c|e] w1 Hw1; cbn [outcome]; [|done]. intros [Hc _] _.
  wp_bind. eapply wp_any. wp_apply wp_mono; [|apply wp_list_snapshots; by eapply rely_ok].
  intros [l|e] w2 Hw2; cbn [outcome]; [|done]. intros Hl _. apply wp_xlift. intros w3 Hw3.
  unfold create_bundle. destruct (validate_bundle _) as [u|e]; cbn; [|done]. split.
  - intros m Hm. rewrite merge_sort_Permutation in Hm. apply list_elem_of_fmap in Hm as ([key m'] & -> & Hin).
    eapply rely_stored; [exact Hw3|]. eapply rely_stored; [exact Hw2|]. by eapply Hc.
  - intros s Hs. rewrite merge_sort_Permutation in Hs. eapply rely_snapshot; [exact Hw3|]. by apply Hl.
Qed.

Lemma wp_import bundle w :
  catalog_ok root d (objects w) -> genuine_bundle bundle ->
  wp rely (import_catalog own bundle)
    (outcome (fun plan w' => ip_conflicts plan = [] /\
                (forall m, m ∈ cb_manifests bundle -> stored root d (objects w') m) /\
                (forall s, s ∈ cb_environment_snapshots bundle -> stored_snapshot root d (objects w') s))
             (only (fun _ => True))) w.
Proof.
  intros Hok Hb. pose proof (bundle_identities _ Hb) as [_ Hnds]. pose proof (bundle_displays _ Hb) as Hndm.
  destruct Hb as (_ & Hgm & Hgs & Hra). rewrite Forall_forall in Hgm. rewrite Forall_forall in Hgs. unfold import_catalog. wp_bind.
  wp_apply wp_mono; [|by apply wp_plan_import].
  intros [plan|e] w1 Hw1; cbn [outcome]; [|done]. intros (state & snapshots & Hplan & Hsound & Hsnaps) _.
  wp_bind. apply wp_xlift. intros w2 Hw2. destruct (guard_or _ _) as [[]|] eqn:Hguard; cbn [outcome]; [|done]. intros _.
  apply guard_or_Ok, bool_decide_eq_true, nil_length_inv in Hguard.
  destruct (plan_import_spec state snapshots bundle) as [Hpm Hps]; [by rewrite <- Hplan|]. rewrite <- Hplan in Hpm, Hps.
  wp_bind. wp_apply wp_mono; [|apply (wp_write_each _ _ _ (fun m w' => stored root d (objects w') m))].
  2:{ intros m w3 w4. apply rely_stored. }
  2:{ intros key m w3 Hm. apply wp_store_manifest, Hgm.
      by apply dict_get_of_pairs_elem, list_elem_of_fmap in Hm as (m' & [= -> ->] & Hm'). }
  intros [[]|e] w3 Hw3; cbn [outcome]; [|done]. intros Hm3 _.
  wp_bind. wp_apply wp_mono; [|apply (wp_write_each _ _ _ (fun s w' => stored_snapshot root d (objects w') s))].
  2:{ intros s w4 w5. apply rely_snapshot. }
  2:{ intros key s w4 Hs. apply wp_store_snapshot, Hgs.
      by apply dict_get_of_pairs_elem, list_elem_of_fmap in Hs as (s' & [= -> ->] & Hs'). }
  intros [[]|e] w4 Hw4; cbn [outcome]; [|done]. intros Hs4 _.
  assert (H14 : rely w1 w4) by (transitivity w2; [done|by transitivity w3]).
  assert (Hall : (forall m, m ∈ cb_manifests bundle -> stored root d (objects w4) m) /\
    (forall s, s ∈ cb_environment_snapshots bundle -> stored_snapshot root d (objects w4) s)).
  { split; [intros m Hm|intros s Hs].
    - destruct (Hpm m Hm) as [Hc|Hc].
      + eapply rely_stored; [exact Hw4|]. apply (Hm3 _ _ Hc). by apply (dict_get_keyed (fun m => display (identity_of m))).
      + eapply rely_stored; [exact H14|]. by apply (proj1 Hsound) in Hc as [_ ?].
    - destruct (Hps s Hs) as [Hc|Hc].
      + apply (Hs4 _ _ Hc). by apply (dict_get_keyed es_snapshot_digest).
      + eapply rely_snapshot; [exact H14|]. by apply Hsnaps. }
  assert (Hok4 : catalog_ok root d (objects w4)) by (eapply rely_ok; [exact H14|]; by eapply rely_ok).
  destruct Hall as [Hallm Halls]. wp_bind.
  eapply (wp_mono _ _ (outcome (fun _ _ => True) (only (fun _ => True)))).
  - intros [[]|e] w5 Hw5; cbn [outcome]; [|done]. intros _ _. apply wp_xret. intros w6 Hw6.
    split_and!; [done|intros m Hm|intros s Hs]; [do 2 (eapply rely_stored; [eassumption|])|do 2 (eapply rely_snapshot; [eassumption|])]; auto.
  - case_bool_decide; [by apply wp_xret|]. wp_bind. wp_apply wp_mono; [|by apply wp_replace_aliases].
    intros [o|e] w5 Hw5; cbn [outcome]; [|done]. intros _ _. by apply wp_xret.
Qed.
End operations.

(** ** Processes *)

Inductive catalog_op :=
| Publish (manifests : list (string * DefinitionManifest))
| StoreManifest (m : DefinitionManifest)
| StoreSnapshot (s : ExecutionEnvironmentSnapshot)
| ReplaceAliases (aliases : list (string * string)) (expected_version : option string)
| Load
| Inspect
| ListSnapshots
| Export
| Import (bundle : CatalogBundle).

Inductive op_answer :=
| CatalogAnswer (c : DefinitionCatalog)
| StateAnswer (s : CatalogState)
| ObjectAnswer (o : StoredCatalogObject)
| SnapshotsAnswer (l : list ExecutionEnvironmentSnapshot)
| BundleAnswer (bundle : CatalogBundle)
| PlanAnswer (plan : CatalogImportPlan).

Section processes.
Context `{Calls, CatalogCodec, Sha256, FloatRepr}.

Definition run_op (backend : CatalogBackend) (op : catalog_op) : xprog catalog_exn op_answer :=
  match op with
  | Publish manifests => c ← publish backend manifests; mret (CatalogAnswer c)
  | StoreManifest m => o ← store_definition_manifest backend m; mret (ObjectAnswer o)
  | StoreSnapshot s => o ← store_environment_snapshot backend s; mret (ObjectAnswer o)
  | ReplaceAliases aliases v => o ← replace_aliases backend aliases v; mret (ObjectAnswer o)
  | Load => c ← load backend; mret (CatalogAnswer c)
  | Inspect => s ← inspect backend; mret (StateAnswer s)
  | ListSnapshots => l ← list_environment_snapshots backend; mret (SnapshotsAnswer l)
  | Export => bundle ← export_catalog backend; mret (BundleAnswer bundle)
  | Import bundle => plan ← import_catalog backend bundle; mret (PlanAnswer plan)
  end.

(** A process runs its operations in turn, whatever becomes of each. *)
Fixpoint run_ops (backend : CatalogBackend) (ops : list catalog_op) : prog (list (cres op_answer)) :=
  match ops with
  | [] => Ret []
  | op :: ops => prog_bind _ _ (fun r => prog_bind _ _ (fun rs => Ret (r :: rs)) (run_ops backend ops)) (run_op backend op)
  end.

(** What the operations are given is genuine. *)
Definition genuine_op (op : catalog_op) : Prop :=
  match op with
  | Publish manifests => Forall genuine manifests.*2 /\ readable (authored_aliases manifests)
  | StoreManifest m => genuine m
  | StoreSnapshot s => genuine_snapshot s
  | ReplaceAliases aliases _ => readable aliases
  | Import bundle => genuine_bundle bundle
  | Load | Inspect | ListSnapshots | Export => True
  end.

(** What an operation promises where it has returned, and which errors a read may raise. *)
Definition op_fine (b : CatalogBackend) (root : string) (scope : RuntimeScope) (σ : gmap string (string * string))
    (op : catalog_op) (r : cres op_answer) : Prop :=
  match op, r with
  | Publish manifests, Ok (CatalogAnswer c) => sound root scope σ c /\ dc_aliases c = authored_aliases manifests
  | StoreManifest m, Ok (ObjectAnswer _) => stored root (digest scope) σ m
  | StoreSnapshot s, Ok (ObjectAnswer _) => stored_snapshot root (digest scope) σ s
  | Load, Ok (CatalogAnswer c) => sound root scope σ c
  | Load, Raise e => storage_error e \/ unpublished b e
  | Inspect, Ok (StateAnswer s) => sound root scope σ (cs_catalog s)
  | Inspect, Raise e => storage_error e
  | ListSnapshots, Ok (SnapshotsAnswer l) => forall s, s ∈ l -> stored_snapshot root (digest scope) σ s
  | ListSnapshots, Raise e => storage_error e
  | Export, Ok (BundleAnswer bundle) =>
      (forall m, m ∈ cb_manifests bundle -> stored root (digest scope) σ m) /\
      (forall s, s ∈ cb_environment_snapshots bundle -> stored_snapshot root (digest scope) σ s)
  | Import bundle, Ok (PlanAnswer plan) =>
      ip_conflicts plan = [] /\
      (forall m, m ∈ cb_manifests bundle -> stored root (digest scope) σ m) /\
      (forall s, s ∈ cb_environment_snapshots bundle -> stored_snapshot root (digest scope) σ s)
  | ReplaceAliases _ _, Ok (ObjectAnswer _) => True
  | (Publish _ | StoreManifest _ | StoreSnapshot _ | ReplaceAliases _ _ | Export | Import _), Raise _ => True
  | _, Ok _ => False
  end.
End processes.

Section pools.
Context `{Calls} {W : Type} `{!Server W} (objects : W -> gmap string (string * string)).
Context `{CatalogCodec, Sha256, FloatRepr}.
Context (b : CatalogBackend) (root : string) `{!BackendLaws objects b root}.

Abbreviation rely := (among objects (evolves root)).

Lemma op_fine_later scope w w' op r :
  rely w w' -> op_fine b root scope (objects w) op r -> op_fine b root scope (objects w') op r.
Proof.
  intros Hr. destruct op, r as [[]|e]; cbn; try done;
    naive_solver eauto using sound_evolves, rely_stored, rely_snapshot.
Qed.

Lemma wp_run_op scope op w :
  genuine_op op -> catalog_ok root (digest scope) (objects w) ->
  wp rely (run_op (scoped_backend b scope) op) (fun r w' => op_fine b root scope (objects w') op r) w.
Proof.
  intros Hop Hok.
  assert (Hpure : forall {A} (p : xprog catalog_exn A) (f : A -> op_answer) (Q : A -> W -> Prop) (P : catalog_exn -> Prop),
    (forall a w1 w2, rely w1 w2 -> Q a w1 -> Q a w2) ->
    (forall a w', Q a w' -> op_fine b root scope (objects w') op (Ok (f a))) ->
    (forall e w', P e -> op_fine b root scope (objects w') op (Raise e)) ->
    wp rely p (outcome Q (only P)) w ->
    wp rely (a ← p; mret (f a)) (fun r w' => op_fine b root scope (objects w') op r) w).
  { intros A p f Q P HQ Hf HP Hp. eapply (wp_mono _ _ (outcome (fun a w' => op_fine b root scope (objects w') op (Ok a)) (only P))).
    - intros [a|e] w' _; cbn [outcome]; [done|by apply HP].
    - wp_bind. wp_apply wp_mono; [|exact Hp]. intros [a|e] w' _; cbn [outcome]; [|done]. intros HQa _.
      apply wp_xret. intros w2 Hw2. apply Hf. by eapply HQ. }
  destruct op as [ms|m|s|aliases v| | | | |bundle]; cbn [run_op].
  - destruct Hop as [Hg Hr]. eapply Hpure; [..|by apply wp_publish]; cbn; [|done|done].
    intros c w1 w2 Hw [Hs ?]. split; [by eapply sound_evolves|done].
  - eapply Hpure; [..|by apply wp_store_manifest]; cbn; [|done|done]. intros _ w1 w2. by apply rely_stored.
  - eapply Hpure; [..|by apply wp_store_snapshot]; cbn; [|done|done]. intros _ w1 w2. by apply rely_snapshot.
  - eapply Hpure; [..|by apply wp_replace_aliases]; done.
  - eapply (Hpure _ _ _ (fun c w' => sound root scope (objects w') c) (fun e => storage_error e \/ unpublished b e));
      [intros c w1 w2; by apply sound_evolves|done|done|].
    by apply wp_load.
  - eapply (Hpure _ _ _ (fun s w' => sound root scope (objects w') (cs_catalog s)) storage_error);
      [intros c w1 w2; by apply sound_evolves|done|done|].
    unfold inspect. wp_bind. wp_apply wp_mono; [|by apply wp_load_state].
    intros [[o c]|e] w1 Hw1; cbn [outcome].
    + intros [Hs _] _. apply wp_xret. intros w2 Hw2. by eapply sound_evolves.
    + by intros [?|[? _]].
  - eapply Hpure; [..|by apply wp_list_snapshots]; cbn; [|done|done]. intros l w1 w2 Hw Hl s Hs.
    eapply rely_snapshot; [exact Hw|by apply Hl].
  - eapply Hpure; [..|by apply wp_export]; cbn; [|done|done]. intros bundle w1 w2 Hw [Hm Hs].
    split; intros ? ?; [eapply rely_stored|eapply rely_snapshot]; eauto.
  - eapply Hpure; [..|by apply wp_import]; cbn; [|done|done]. intros plan w1 w2 Hw (Hc & Hm & Hs).
    split_and!; [done|intros ? ?; eapply rely_stored; eauto|intros ? ?; eapply rely_snapshot; eauto].
Qed.

Lemma wp_run_ops scope ops w :
  Forall genuine_op ops -> catalog_ok root (digest scope) (objects w) ->
  wp rely (run_ops (scoped_backend b scope) ops)
    (fun rs w' => Forall2 (op_fine b root scope (objects w')) ops rs) w.
Proof.
  revert w. induction ops as [|op ops IH]; intros w Hg Hok; cbn [run_ops]; [apply wp_ret; intros; constructor|].
  apply Forall_cons in Hg as [Hop Hg]. apply (wp_bind _ (run_op _ _)).
  wp_apply wp_mono; [|by apply wp_run_op]. intros r w1 Hw1 Hr. apply (wp_bind _ (run_ops _ _)).
  wp_apply wp_mono; [|apply IH; [done|by eapply rely_ok]]. intros rs w2 Hw2 Hrs. apply wp_ret. intros w3 Hw3.
  constructor.
  - eapply op_fine_later; [exact Hw3|]. by eapply op_fine_later.
  - eapply Forall2_impl; [exact Hrs|]. intros ? ?. by apply op_fine_later.
Qed.

Lemma pool_fine (processes : list (RuntimeScope * list catalog_op)) w ps w' :
  Forall (fun p => Forall genuine_op p.2) processes ->
  (forall d, is_scope_digest d = true -> catalog_ok root d (objects w)) ->
  rtc pool_step (map (fun p => run_ops (scoped_backend b p.1) p.2) processes, w) (ps, w') ->
  evolves root (objects w) (objects w') /\
  (forall i p outcomes, processes !! i = Some p -> ps !! i = Some (Ret outcomes) ->
     Forall2 (op_fine b root p.1 (objects w')) p.2 outcomes).
Proof.
  intros Hg Hok Hsteps.
  eapply (pool_sound rely (fun i rs w' => forall p, processes !! i = Some p ->
    Forall2 (op_fine b root p.1 (objects w')) p.2 rs)) in Hsteps as [Hr Hfin].
  - split; [exact Hr|]. intros i p outcomes Hp Hps. apply (Hfin i (Ret outcomes) Hps w'); [reflexivity|done].
  - intros i q Hq. apply list_lookup_fmap_Some in Hq as (p & -> & Hp).
    wp_apply wp_mono; [|apply wp_run_ops].
    + intros rs w1 _ Hrs p' Hp'. by simplify_eq.
    + by apply (Forall_lookup_1 _ _ _ _ Hg Hp).
    + apply Hok, own_digest.
Qed.
End pools.

(** C40: The catalog of every scope always loads.  Any number of processes work at once,
    each in a scope of its own choice, on one bucket; they publish, import, store
    manifests and snapshots, replace aliases and read, every call of the service may
    fail, and the writes of the others come between any two calls.  Then the objects of every scope
    remain what their keys say and every alias names a stored manifest, no manifest or
    snapshot is ever changed or lost, a load returns a catalog whose aliases all resolve
    or fails for the service or because nothing was ever published, and what was
    published, stored or imported is there. *)
Theorem catalog_always_loads `{CatalogCodec, Sha256, FloatRepr} {W : Type} `{!Server W}
    (objects : W -> gmap string (string * string)) `{!S3Laws objects} prefix configuration pages
    (processes : list (RuntimeScope * list catalog_op)) w ps w' :
  let backend := s3_backend prefix configuration pages in
  Forall (fun p => Forall genuine_op p.2) processes ->
  (forall d, is_scope_digest d = true -> catalog_ok prefix d (objects w)) ->
  rtc pool_step (map (fun p => run_ops (scoped_backend backend p.1) p.2) processes, w) (ps, w') ->
  (forall d, is_scope_digest d = true -> keeps prefix d (objects w) (objects w') /\ catalog_ok prefix d (objects w')) /\
  (forall i p outcomes, processes !! i = Some p -> ps !! i = Some (Ret outcomes) ->
     Forall2 (op_fine backend prefix p.1 (objects w')) p.2 outcomes).
Proof.
  intros backend Hg Hok Hsteps. eapply pool_fine in Hsteps as [He Hfin]; [|apply _|done|done].
  split; [|done]. intros d Hd. destruct (He d Hd). auto.
Qed.

(** ** A service in memory *)

Module CatalogSamples.
#[local] Existing Instance sample_sha256.
#[local] Existing Instance coded_floats.

(** The objects and a counter for their versions. *)
Definition memory : Type := gmap string (string * string) * nat.

Definition service_error : s3_error := {| error_code := Some "InternalError"; error_status := Some 500%Z |}.
Definition error_with (code : string) : s3_error := {| error_code := Some code; error_status := None |}.

Definition serve (c : s3_call) (w : memory) : answer (c : call) * memory :=
  match c with
  | GetObject key =>
      (match w.1 !! key with
       | Some (payload, version) => Ok {| go_body := Some payload; go_etag := Some version |}
       | None => Raise (error_with "NoSuchKey")
       end, w)
  | ListObjectsV2 prefix None =>
      (Ok {| lo_contents := Some (filter (fun key => startswith prefix key = true) (map_to_list w.1).*1);
             lo_is_truncated := false; lo_next_continuation_token := None |}, w)
  | ListObjectsV2 _ (Some _) =>
      (Ok {| lo_contents := Some []; lo_is_truncated := false; lo_next_continuation_token := None |}, w)
  | PutObject key body condition =>
      if match condition with
         | IfNoneMatch => bool_decide (w.1 !! key = None)
         | IfMatch version => bool_decide (snd <$> w.1 !! key = Some version)
         end
      then (Ok tt, (<[key := (body, "v" +:+ nat_to_string w.2)]> w.1, S w.2))
      else (Raise (error_with "PreconditionFailed"), w)
  end.

Definition failed (c : s3_call) : answer (c : call) :=
  match c with
  | GetObject _ => Raise service_error
  | ListObjectsV2 _ _ => Raise service_error
  | PutObject _ _ _ => Raise service_error
  end.

(** Any call may fail. *)
#[local] Instance memory_server : Server memory :=
  {| responds c w a w' := serve c w = (a, w') \/ (a = failed c /\ w' = w) |}.

#[local] Program Instance memory_laws : S3Laws (W := memory) fst := {| beyond token _ := bool_decide (token = None) |}.
Next Obligation. done. Qed.
Next Obligation.
  intros w key r w' [Hs|[-> ->]]; [|by split].
  cbn in Hs. destruct (w.1 !! key) as [[p v]|] eqn:Hl; injection Hs as <- <-; [|done].
  split; [done|]. exists p, v. auto.
Qed.
Next Obligation.
  intros w prefix token r w' [Hs|[-> ->]]; [|by split]. cbn in Hs. destruct token as [t|]; injection Hs as <- <-.
  - split; [done|]. intros keys [= <-]. split_and!; [constructor|by intros ? ?%elem_of_nil|done|done].
  - split; [done|]. intros keys [= <-]. split_and!; [| | |done].
    + apply NoDup_filter, NoDup_fst_map_to_list.
    + intros key [_ Hin]%list_elem_of_filter. split; [done|].
      apply list_elem_of_fmap in Hin as ([k v] & -> & Hin%elem_of_map_to_list). by exists v.
    + intros _ key Hp _ [v Hv]. apply list_elem_of_filter. split; [done|]. apply list_elem_of_fmap.
      exists (key, v). split; [done|]. by apply elem_of_map_to_list.
Qed.
Next Obligation.
  intros w key body condition r w' [Hs|[-> ->]]; [|by left]. cbn in Hs.
  destruct (match condition with IfNoneMatch => _ | IfMatch _ => _ end) eqn:Hc; injection Hs as <- <-; [right|by left].
  split; [|by eexists]. by destruct condition; apply bool_decide_eq_true in Hc.
Qed.

(** A run of the pool: which process makes its call at each step. *)
Fixpoint run_pool {A} (schedule : list nat) (ps : list (prog A)) (w : memory) : list (prog A) * memory :=
  match schedule with
  | [] => (ps, w)
  | i :: schedule =>
      match ps !! i with
      | Some (Call c k) => let '(a, w') := serve c w in run_pool schedule (<[i := k a]> ps) w'
      | _ => run_pool schedule ps w
      end
  end.

Lemma run_pool_steps {A} schedule (ps : list (prog A)) w : rtc pool_step (ps, w) (run_pool schedule ps w).
Proof.
  revert ps w. induction schedule as [|i schedule IH]; intros ps w; cbn [run_pool]; [reflexivity|].
  destruct (ps !! i) as [[a|c k|]|] eqn:Hi; [apply IH| |apply IH|apply IH].
  destruct (serve c w) as [a w'] eqn:Hs. eapply rtc_l; [|apply IH]. by eapply pool_call; [|left].
Qed.

(** Two versions of a workflow, which two processes publish at once. *)
Definition sample_manifest (content : string) : DefinitionManifest :=
  {| mf_logical_name := "pipeline"; mf_definition_digest := hexdigest content;
     mf_required_engine_workflow_abi := "1"; mf_input_schema := None; mf_content := content |}.

Definition first_version : DefinitionManifest := sample_manifest "{first}".
Definition second_version : DefinitionManifest := sample_manifest "{second}".
Definition first_aliases : list (string * string) := authored_aliases [("pipeline", first_version)].
Definition second_aliases : list (string * string) := authored_aliases [("pipeline", second_version)].

#[local] Instance sample_codec : CatalogCodec := {|
  manifest_text := mf_content;
  manifest_of_text t := if bool_decide (t = "{first}") then Some first_version
                        else if bool_decide (t = "{second}") then Some second_version else None;
  snapshot_text := es_content;
  snapshot_of_text _ := None;
  aliases_of_text t := if bool_decide (t = alias_payload first_aliases) then Some (1%Z, first_aliases)
                       else if bool_decide (t = alias_payload second_aliases) then Some (1%Z, second_aliases) else None;
|}.

Definition sample_scope : RuntimeScope := {| tenant := "acme"; application := "billing"; environment := "prod" |}.

Definition two_publishers : list (RuntimeScope * list catalog_op) :=
  [(sample_scope, [Publish [("pipeline", first_version)]; Load]);
   (sample_scope, [Publish [("pipeline", second_version)]; Load])].

Definition sample_backend : CatalogBackend := s3_backend "catalog/" [] 3.

Definition interleaved : list nat := [0; 1; 0; 1; 0; 1; 0; 1]%nat ++ repeat 0%nat 20 ++ repeat 1%nat 20.

Definition finished {A} (p : prog A) : option A := match p with Ret a => Some a | _ => None end.

Definition start : list (prog (list (cres op_answer))) :=
  map (fun p => run_ops (scoped_backend sample_backend p.1) p.2) two_publishers.

Lemma sample_genuine :
  Forall (fun p : RuntimeScope * list catalog_op => Forall genuine_op p.2) two_publishers.
Proof.
  repeat constructor; cbn [genuine_op]; (split; [repeat constructor|]); vm_compute; reflexivity.
Qed.

Lemma empty_bucket_ok d : catalog_ok "catalog/" d ∅.
Proof. split_and!; intros *; rewrite lookup_empty; done. Qed.

Definition end_of_run : list (prog (list (cres op_answer))) * memory := run_pool interleaved start (∅, 0%nat).

(** Both processes read the empty catalog; the first publication wins, the second meets a
    conflict, and both then load the catalog of the first. *)
Lemma catalog_always_loads_witness :
  map (fun p => option_map (map is_ok) (finished p)) end_of_run.1 = [Some [true; true]; Some [false; true]] /\
  catalog_ok "catalog/" (digest sample_scope) end_of_run.2.1 /\
  (forall outcomes, end_of_run.1 !! 1%nat = Some (Ret outcomes) ->
     Forall2 (op_fine sample_backend "catalog/" sample_scope end_of_run.2.1)
       [Publish [("pipeline", second_version)]; Load] outcomes).
Proof.
  split; [vm_compute; reflexivity|].
  destruct (catalog_always_loads (W := memory) fst "catalog/" [] 3 two_publishers (∅, 0%nat) end_of_run.1 end_of_run.2)
    as [Hok Hfin].
  - exact sample_genuine.
  - intros d _. apply empty_bucket_ok.
  - rewrite <- surjective_pairing. apply run_pool_steps.
  - split; [apply Hok, hexdigest_form|]. intros outcomes Ho. by apply (Hfin 1%nat (sample_scope, _)).
Defined.
End CatalogSamples.
