(* ===== verification/Registries.v ===== *)
(** The registries of providers: [resources/registry.py] with the dependencies of
    [resources/base.py], [transports/registry.py], and the rules for the names of
    providers ([config/provider_names.py]).  A provider's own code (its configuration
    model, its resolvers and validators) and the import of an application's class are
    parameters: values of type [C] are parsed configurations, and [None] is an exception
    that such code raises. *)

From stdpp Require Export gmap.
From S2P Require Export Graphs Models Scope.

(** ** Names of providers *)

Definition PROVIDER_NAME_MAX_LENGTH : nat := 64.
Definition PROVIDER_CONTRACT_VERSION_MAX_LENGTH : nat := 64.

(** Non-empty words with one separator between any two of them; [fresh] holds at the
    start of a word. *)
Fixpoint segmented (word separator : Ascii.ascii -> bool) (fresh : bool) (s : string) : bool :=
  match s with
  | EmptyString => negb fresh
  | String c s =>
      if word c then segmented word separator false s
      else separator c && negb fresh && segmented word separator true s
  end.

Definition one_of (chars : list Ascii.ascii) (c : Ascii.ascii) : bool := existsb (Ascii.eqb c) chars.

(** [is_valid_provider_name]: [^[a-z][a-z0-9]*(?:[._-][a-z0-9]+)*$] *)
Definition is_valid_provider_name (value : string) : bool :=
  (String.length value <=? PROVIDER_NAME_MAX_LENGTH)%nat
  && match value with String c _ => is_lower c | EmptyString => false end
  && segmented (fun c => is_lower c || is_digit c) (one_of ["."; "_"; "-"]%char) true value.

(** [is_valid_contract_version]: [^[A-Za-z0-9]+(?:[._+-][A-Za-z0-9]+)*$] *)
Definition is_valid_contract_version (value : string) : bool :=
  (String.length value <=? PROVIDER_CONTRACT_VERSION_MAX_LENGTH)%nat
  && segmented is_alnum (one_of ["."; "_"; "+"; "-"]%char) true value.

(** ** Declarations ([config/models.py]) *)

Record ResourceConfig := {
  rc_provider : option string;
  rc_class_path : option string;
  rc_config : list (string * raw);
}.

(** [ResourceConfig.validate_implementation] *)
Definition validate_implementation (c : ResourceConfig) : res unit :=
  reject (Bool.eqb (negb (isSome (rc_provider c))) (negb (isSome (rc_class_path c))))
    "resource declaration requires exactly one of 'provider' or 'class'".

Record ServiceConfig := {
  sv_transport : string;
  sv_transport_config : list (string * raw);
  sv_connect_timeout_sec : option Z;
  sv_dispatch_timeout_sec : Z;
  sv_response_timeout_sec : option Z;
  sv_retries : Z;
  sv_params : list (string * raw);
}.

(** ** Errors *)

Inductive registry_error_class :=
| ProviderDefinitionError | DuplicateProviderError | UnknownProviderError | ClassImportError
| ConfigError | DependencyError | UnsupportedAsyncError | ProviderValidationError | MissingKey.

Inductive registry_exn := RegistryError (cls : registry_error_class) (msg : string).

Definition registry_message (e : registry_exn) : string := let (_, msg) := e in msg.

Abbreviation rres := (result registry_exn).

(** [if not cond: raise cls(msg)] *)
Definition require (cond : bool) (cls : registry_error_class) (msg : string) : rres unit :=
  guard_or cond (RegistryError cls msg).

(** ** Capabilities and dependencies ([resources/base.py]) *)

Inductive ResourceCapability := ARCHIVE | CACHE | CONFIG | DATABASE | KEY_VALUE | OBJECT | SECRET_READER.

#[export] Instance ResourceCapability_eq_dec : EqDecision ResourceCapability.
Proof. solve_decision. Defined.

Definition capability_value (c : ResourceCapability) : string :=
  match c with
  | ARCHIVE => "archive" | CACHE => "cache" | CONFIG => "config" | DATABASE => "database"
  | KEY_VALUE => "key-value" | OBJECT => "object" | SECRET_READER => "secret-reader"
  end.

Record ResourceDependency := {
  rd_resource_name : string;
  rd_capability : ResourceCapability;
  rd_secret_alias : option string;
}.

#[export] Instance ResourceDependency_eq_dec : EqDecision ResourceDependency.
Proof. solve_decision. Defined.

(** [ResourceDependency.__post_init__] *)
Definition ResourceDependency_post_init (d : ResourceDependency) : res unit :=
  _ ← reject (bool_decide (rd_resource_name d = "")) "Resource dependency name must not be empty";
  _ ← reject (bool_decide (rd_secret_alias d = Some "")) "Resource dependency secret alias must not be empty";
  reject (isSome (rd_secret_alias d) && negb (bool_decide (rd_capability d = SECRET_READER)))
    "Resource dependency secret alias requires the secret-reader capability".

(** ** Providers of resources *)

(** [config_model.model_validate]: the locations of a [ValidationError] and its text. *)
Inductive parse_outcome (C : Type) :=
| Parsed (config : C)
| ParseInvalid (locations : list (list string)) (text : string)
| ParseFailed.

Arguments Parsed {C} config.
Arguments ParseInvalid {C} locations text.
Arguments ParseFailed {C}.

Record ResourceProvider (C : Type) := {
  pv_name : string;
  pv_contract_version : string;
  pv_parse_config : list (string * raw) -> parse_outcome C;
  pv_capabilities : list ResourceCapability;
  pv_dependency_resolver : option (C -> option (list ResourceDependency));
  pv_secret_alias_resolver : option (C -> option (option (list string)));
}.

Arguments pv_name {C}.
Arguments pv_contract_version {C}.
Arguments pv_parse_config {C}.
Arguments pv_capabilities {C}.
Arguments pv_dependency_resolver {C}.
Arguments pv_secret_alias_resolver {C}.

Record ResolvedResource (C : Type) := {
  rr_name : string;
  rr_provider_name : string;
  rr_provider_contract_version : string;
  rr_config : C;
  rr_capabilities : list ResourceCapability;
  rr_class_path : option string;
  rr_dependencies : list ResourceDependency;
  rr_secret_aliases : option (list string);
}.

Arguments rr_name {C}.
Arguments rr_provider_name {C}.
Arguments rr_provider_contract_version {C}.
Arguments rr_config {C}.
Arguments rr_capabilities {C}.
Arguments rr_class_path {C}.
Arguments rr_dependencies {C}.
Arguments rr_secret_aliases {C}.

(** What the import of an application's resource class finds: a failure, something that
    is not a [ConfiguredResource], a class without one of the attributes, or a class. *)
Inductive class_import (C : Type) :=
| ImportFailed
| NotConfiguredResource
| MissingAttribute
| ImportedClass (contract_version : string) (parse_config : list (string * raw) -> parse_outcome C)
    (capabilities : list ResourceCapability) (resource_dependencies : C -> option (list ResourceDependency))
    (secret_aliases : C -> option (option (list string))).

Arguments ImportFailed {C}.
Arguments NotConfiguredResource {C}.
Arguments MissingAttribute {C}.
Arguments ImportedClass {C}.

Record ResourceRegistry (C : Type) := {
  rg_providers : list (string * ResourceProvider C);
  rg_class_providers : list (string * ResourceProvider C);
}.

Arguments rg_providers {C}.
Arguments rg_class_providers {C}.

Section resources.
Context {C : Type} (import_class : string -> string -> class_import C).

(** [ResourceProvider.__post_init__] *)
Definition ResourceProvider_post_init (p : ResourceProvider C) : rres unit :=
  _ ← require (is_valid_provider_name (pv_name p)) ProviderDefinitionError
        ("Invalid resource provider name " +:+ quoted (pv_name p));
  _ ← require (is_valid_contract_version (pv_contract_version p)) ProviderDefinitionError
        ("Invalid contract version " +:+ quoted (pv_contract_version p) +:+ " for resource provider "
         +:+ quoted (pv_name p));
  require (match pv_capabilities p with [] => false | _ => true end) ProviderDefinitionError
    ("Resource provider " +:+ quoted (pv_name p) +:+ " must declare valid capabilities").

(** An exception of a provider's own code, under the handler of [resolve_resource]. *)
Definition provider_metadata {A} (identity : string) (o : option A) : rres A :=
  from_option o (RegistryError ConfigError
    ("Resource implementation " +:+ quoted identity +:+ " returned invalid metadata")).

(** [ResourceProvider.dependencies] *)
Definition provider_dependencies (p : ResourceProvider C) (identity : string) (config : C)
  : rres (list ResourceDependency) :=
  match pv_dependency_resolver p with
  | None => Ok []
  | Some resolver =>
      dependencies ← provider_metadata identity (resolver config);
      _ ← require (bool_decide (NoDup dependencies)) ProviderDefinitionError
            ("Resource provider " +:+ quoted (pv_name p) +:+ " returned duplicate resource dependencies");
      Ok dependencies
  end.

(** [ResourceProvider.secret_aliases] *)
Definition provider_secret_aliases (p : ResourceProvider C) (identity : string) (config : C)
  : rres (option (list string)) :=
  match pv_secret_alias_resolver p with
  | None => Ok None
  | Some resolver =>
      aliases ← provider_metadata identity (resolver config);
      _ ← require (match aliases with Some l => negb (bool_decide ("" ∈ l)) | None => true end)
            ProviderDefinitionError
            ("Resource provider " +:+ quoted (pv_name p) +:+ " returned invalid secret aliases");
      Ok aliases
  end.

(** [ResourceRegistry.register] *)
Definition register_resource (r : ResourceRegistry C) (p : ResourceProvider C) : rres (ResourceRegistry C) :=
  if dict_mem (pv_name p) (rg_providers r)
  then Raise (RegistryError DuplicateProviderError
         ("Resource provider " +:+ quoted (pv_name p) +:+ " is already registered"))
  else Ok {| rg_providers := dict_set (pv_name p) p (rg_providers r);
             rg_class_providers := rg_class_providers r |}.

(** [ResourceRegistry._provider] *)
Definition resource_provider (r : ResourceRegistry C) (name : string) : rres (ResourceProvider C) :=
  from_option (dict_get name (rg_providers r))
    (RegistryError UnknownProviderError ("Resource provider " +:+ quoted name +:+ " is not registered")).

(** The provider that [_class_provider] makes of a class. *)
Definition import_provider (class_path : string) : rres (ResourceProvider C) :=
  let failure msg := RegistryError ClassImportError ("Resource class " +:+ quoted class_path +:+ msg) in
  match rpartition_dot class_path with
  | None => Raise (failure " must include its module path")
  | Some (module_name, class_name) =>
      match import_class module_name class_name with
      | ImportFailed => Raise (failure " could not be imported")
      | NotConfiguredResource => Raise (failure " must extend ConfiguredResource")
      | MissingAttribute => Raise (failure " has an invalid resource contract")
      | ImportedClass version parse capabilities dependencies aliases =>
          let provider := {| pv_name := "python_class"; pv_contract_version := version;
                             pv_parse_config := parse; pv_capabilities := capabilities;
                             pv_dependency_resolver := Some dependencies;
                             pv_secret_alias_resolver := Some aliases |} in
          _ ← catch (ResourceProvider_post_init provider)
                (fun _ => Raise (failure " has an invalid resource contract"));
          Ok provider
      end
  end.

(** [ResourceRegistry._class_provider]: the registry keeps the provider of a class. *)
Definition class_provider (r : ResourceRegistry C) (class_path : string)
  : rres (ResourceProvider C) * ResourceRegistry C :=
  match dict_get class_path (rg_class_providers r) with
  | Some cached => (Ok cached, r)
  | None =>
      match import_provider class_path with
      | Ok provider =>
          (Ok provider, {| rg_providers := rg_providers r;
                           rg_class_providers := dict_set class_path provider (rg_class_providers r) |})
      | Raise e => (Raise e, r)
      end
  end.

(** The rest of [resolve_resource], once the provider is known. *)
Definition resolve_with (name : string) (declaration : ResourceConfig) (identity : string)
    (class_path : option string) (p : ResourceProvider C) : rres (ResolvedResource C) :=
  config ← match pv_parse_config p (rc_config declaration) with
           | Parsed config => Ok config
           | ParseInvalid locations _ =>
               let suffix :=
                 match sorted_set (map (string_join ".") locations) with
                 | [] => ""
                 | l => " at " +:+ repr_texts l
                 end in
               Raise (RegistryError ConfigError
                 ("Resource " +:+ quoted name +:+ " has invalid config for " +:+ quoted identity +:+ suffix))
           | ParseFailed =>
               Raise (RegistryError ConfigError
                 ("Resource implementation " +:+ quoted identity +:+ " could not validate resource " +:+ quoted name))
           end;
  dependencies ← provider_dependencies p identity config;
  secret_aliases ← provider_secret_aliases p identity config;
  Ok {| rr_name := name; rr_provider_name := identity; rr_provider_contract_version := pv_contract_version p;
        rr_config := config; rr_capabilities := pv_capabilities p; rr_class_path := class_path;
        rr_dependencies := dependencies; rr_secret_aliases := secret_aliases |}.

(** [ResourceRegistry.resolve_resource] *)
Definition resolve_resource (r : ResourceRegistry C) (name : string) (declaration : ResourceConfig)
  : rres (ResolvedResource C) * ResourceRegistry C :=
  match rc_provider declaration, rc_class_path declaration with
  | Some provider_name, _ =>
      (p ← resource_provider r provider_name; resolve_with name declaration (pv_name p) None p, r)
  | None, None =>
      (Raise (RegistryError ConfigError
         ("Resource " +:+ quoted name +:+ " has no provider or application resource class")), r)
  | None, Some class_path =>
      let '(p, r) := class_provider r class_path in
      (p ← p; resolve_with name declaration ("python:" +:+ class_path) (Some class_path) p, r)
  end.

(** [ResourceRegistry.require_capability]; the text of the [ResourceCapabilityError]. *)
Definition require_capability (r : ResolvedResource C) (capability : ResourceCapability) : result string unit :=
  guard_or (bool_decide (capability ∈ rr_capabilities r))
    ("Resource " +:+ quoted (rr_name r) +:+ " from provider " +:+ quoted (rr_provider_name r)
     +:+ " does not provide the " +:+ quoted (capability_value capability) +:+ " capability").

(** ** The order of loading *)

(** The body of the inner loop of [_validate_dependencies]. *)
Definition validate_dependency (resources : list (string * ResolvedResource C)) (r : ResolvedResource C)
    (d : ResourceDependency) : rres unit :=
  let failure msg := RegistryError DependencyError ("Resource " +:+ quoted (rr_name r) +:+ msg) in
  match dict_get (rd_resource_name d) resources with
  | None => Raise (failure (" requires missing resource " +:+ quoted (rd_resource_name d)))
  | Some target =>
      _ ← guard_or (bool_decide (rd_capability d ∈ rr_capabilities target))
            (failure (" requires resource " +:+ quoted (rd_resource_name d) +:+ " with capability "
                      +:+ quoted (capability_value (rd_capability d))));
      match rd_secret_alias d, rr_secret_aliases target with
      | Some alias, Some aliases =>
          guard_or (bool_decide (alias ∈ aliases))
            (failure (" requires undeclared secret alias " +:+ quoted alias +:+ " from resource "
                      +:+ quoted (rd_resource_name d)))
      | _, _ => Ok tt
      end
  end.

(** [ResourceRegistry._validate_dependencies] *)
Definition validate_dependencies (resources : list (string * ResolvedResource C)) : rres unit :=
  _ ← traverse (fun kv => traverse (validate_dependency resources kv.2) (rr_dependencies kv.2)) resources;
  Ok tt.

Inductive visit_state := Visiting | Complete.

(** The variables that [visit] shares; the top of [stack] is its last entry. *)
Record load_state := {
  ld_states : gmap string visit_state;
  ld_stack : list string;
  ld_ordered : list string;
}.

Definition enter_resource (name : string) (st : load_state) : load_state := {|
  ld_states := <[name := Visiting]> (ld_states st);
  ld_stack := ld_stack st ++ [name];
  ld_ordered := ld_ordered st;
|}.

Definition leave_resource (name : string) (st : load_state) : load_state := {|
  ld_states := <[name := Complete]> (ld_states st);
  ld_stack := removelast (ld_stack st);
  ld_ordered := ld_ordered st ++ [name];
|}.

(** [for x in l: st = f(x, st)] *)
Fixpoint visit_each (f : string -> load_state -> rres load_state) (l : list string) (st : load_state)
  : rres load_state :=
  match l with
  | [] => Ok st
  | x :: l => st ← f x st; visit_each f l st
  end.

(** [visit(resource_name)]; the fuel bounds the depth of the recursion. *)
Fixpoint visit_resource (fuel : nat) (resources : list (string * ResolvedResource C)) (name : string)
    (st : load_state) : rres load_state :=
  match fuel with
  | O => Ok st
  | S fuel =>
      match ld_states st !! name with
      | Some Complete => Ok st
      | Some Visiting =>
          Raise (RegistryError DependencyError
            ("Resource dependency cycle: " +:+ string_join " -> " (drop_until name (ld_stack st) ++ [name])))
      | None =>
          let st := enter_resource name st in
          match dict_get name resources with
          | None => Raise (RegistryError MissingKey (repr_string name))
          | Some r =>
              st ← visit_each (visit_resource fuel resources) (map rd_resource_name (rr_dependencies r)) st;
              Ok (leave_resource name st)
          end
      end
  end.

(** [ResourceRegistry.resource_load_order]: no more than all the resources are on the
    stack. *)
Definition resource_load_order (resources : list (string * ResolvedResource C)) : rres (list string) :=
  _ ← validate_dependencies resources;
  st ← visit_each (visit_resource (S (S (length resources))) resources) (dict_keys resources)
         {| ld_states := ∅; ld_stack := []; ld_ordered := [] |};
  Ok (ld_ordered st).
End resources.

(** ** Transports *)

Inductive DeadlineMode := REQUIRED | OPTIONAL | FORBIDDEN.

#[export] Instance DeadlineMode_eq_dec : EqDecision DeadlineMode.
Proof. solve_decision. Defined.

Record TransportProvider (C : Type) := {
  tv_name : string;
  tv_contract_version : string;
  tv_parse_config : list (string * raw) -> parse_outcome C;
  tv_supports_async_response : bool;
  tv_action_validator : option (string -> option (option string));
  tv_startup_validator : option (C -> option (option string));
  tv_connect : DeadlineMode;
  tv_response : DeadlineMode;
}.

Arguments tv_name {C}.
Arguments tv_contract_version {C}.
Arguments tv_parse_config {C}.
Arguments tv_supports_async_response {C}.
Arguments tv_action_validator {C}.
Arguments tv_startup_validator {C}.
Arguments tv_connect {C}.
Arguments tv_response {C}.

Record ResolvedTransport (C : Type) := {
  rt_name : string;
  rt_provider_name : string;
  rt_provider_contract_version : string;
  rt_transport_config : C;
  rt_connect_timeout_sec : option Z;
  rt_dispatch_timeout_sec : Z;
  rt_response_timeout_sec : option Z;
  rt_retries : Z;
  rt_params : list (string * raw);
}.

Arguments rt_name {C}.
Arguments rt_provider_name {C}.
Arguments rt_provider_contract_version {C}.
Arguments rt_transport_config {C}.
Arguments rt_connect_timeout_sec {C}.
Arguments rt_dispatch_timeout_sec {C}.
Arguments rt_response_timeout_sec {C}.
Arguments rt_retries {C}.
Arguments rt_params {C}.

Section transports.
Context {C : Type}.

(** [TransportRegistry._providers] *)
Abbreviation TransportRegistry := (list (string * TransportProvider C)).

(** [TransportProvider.__post_init__] *)
Definition TransportProvider_post_init (p : TransportProvider C) : rres unit :=
  _ ← require (is_valid_provider_name (tv_name p)) ProviderDefinitionError
        ("Invalid transport provider name " +:+ quoted (tv_name p));
  require (is_valid_contract_version (tv_contract_version p)) ProviderDefinitionError
    ("Invalid contract version " +:+ quoted (tv_contract_version p) +:+ " for provider " +:+ quoted (tv_name p)).

(** [TransportRegistry._register] *)
Definition register_transport (r : TransportRegistry) (p : TransportProvider C) (allow_async : bool)
  : rres TransportRegistry :=
  _ ← require (negb (dict_mem (tv_name p) r)) DuplicateProviderError
        ("Transport provider " +:+ quoted (tv_name p) +:+ " is already registered");
  _ ← require (negb (tv_supports_async_response p && negb allow_async)) UnsupportedAsyncError
        ("Host transport provider " +:+ quoted (tv_name p) +:+ " cannot use asynchronous responses");
  Ok (dict_set (tv_name p) p r).

(** [TransportRegistry.from_builtin_providers] *)
Definition from_builtin_transports (providers : list (TransportProvider C)) : rres TransportRegistry :=
  foldl (fun r p => r ← r; register_transport r p true) (Ok []) providers.

(** [TransportRegistry._provider] *)
Definition transport_provider (r : TransportRegistry) (name : string) : rres (TransportProvider C) :=
  from_option (dict_get name r)
    (RegistryError UnknownProviderError ("Transport provider " +:+ quoted name +:+ " is not registered")).

(** One field of the loop of [_validate_deadlines]. *)
Definition validate_deadline (service_name field_name : string) (value : option Z) (mode : DeadlineMode)
  : rres unit :=
  _ ← require (negb (bool_decide (mode = REQUIRED) && negb (isSome value))) ConfigError
        ("Service " +:+ quoted service_name +:+ " requires " +:+ quoted field_name +:+ " for its transport");
  require (negb (bool_decide (mode = FORBIDDEN) && isSome value)) ConfigError
    ("Service " +:+ quoted service_name +:+ " cannot set " +:+ quoted field_name +:+ " for its transport").

(** [TransportRegistry._validate_deadlines] *)
Definition validate_deadlines (service_name : string) (d : ServiceConfig) (p : TransportProvider C) : rres unit :=
  _ ← validate_deadline service_name "connect_timeout_sec" (sv_connect_timeout_sec d) (tv_connect p);
  _ ← validate_deadline service_name "response_timeout_sec" (sv_response_timeout_sec d) (tv_response p);
  require (match sv_connect_timeout_sec d with
           | Some connect => (connect <=? sv_dispatch_timeout_sec d)%Z
           | None => true
           end) ConfigError
    ("Service " +:+ quoted service_name +:+ " connection deadline cannot exceed its dispatch deadline").

(** [TransportRegistry.resolve_service] *)
Definition resolve_service (r : TransportRegistry) (name : string) (declaration : ServiceConfig)
  : rres (ResolvedTransport C) :=
  provider ← transport_provider r (sv_transport declaration);
  config ← match tv_parse_config provider (sv_transport_config declaration) with
           | Parsed config => Ok config
           | ParseInvalid _ text =>
               Raise (RegistryError ConfigError
                 ("Service " +:+ quoted name +:+ " has invalid config for transport provider "
                  +:+ quoted (tv_name provider) +:+ ": " +:+ text))
           | ParseFailed =>
               Raise (RegistryError ConfigError
                 ("Transport provider " +:+ quoted (tv_name provider)
                  +:+ " could not validate configuration for service " +:+ quoted name))
           end;
  _ ← validate_deadlines name declaration provider;
  Ok {| rt_name := name; rt_provider_name := tv_name provider;
        rt_provider_contract_version := tv_contract_version provider; rt_transport_config := config;
        rt_connect_timeout_sec := sv_connect_timeout_sec declaration;
        rt_dispatch_timeout_sec := sv_dispatch_timeout_sec declaration;
        rt_response_timeout_sec := sv_response_timeout_sec declaration;
        rt_retries := sv_retries declaration; rt_params := sv_params declaration |}.

(** [TransportRegistry.validate_action]: the error that the provider reports, if any. *)
Definition validate_action (r : TransportRegistry) (service : ResolvedTransport C) (action : string)
  : rres (option string) :=
  provider ← transport_provider r (rt_provider_name service);
  match tv_action_validator provider with
  | None => Ok None
  | Some validator =>
      from_option (validator action) (RegistryError ProviderValidationError
        ("Transport provider " +:+ quoted (tv_name provider) +:+ " could not validate action "
         +:+ quoted action +:+ " for service " +:+ quoted (rt_name service)))
  end.

(** [TransportRegistry.validate_startup] *)
Definition validate_startup (r : TransportRegistry) (service : ResolvedTransport C) : rres (option string) :=
  provider ← transport_provider r (rt_provider_name service);
  match tv_startup_validator provider with
  | None => Ok None
  | Some validator =>
      from_option (validator (rt_transport_config service)) (RegistryError ProviderValidationError
        ("Transport provider " +:+ quoted (tv_name provider)
         +:+ " could not validate startup configuration for service " +:+ quoted (rt_name service)))
  end.
End transports.
