(* ===== verification/RegistryFacts.v ===== *)
(** The order in which resources are loaded ([Registries.resource_load_order]): it exists
    exactly when every dependency is met and none is circular, and then it lists every
    resource once, after the resources it depends on. *)

From S2P Require Export Registries.

Section order.
Context {C : Type} (resources : list (string * ResolvedResource C)).

(** The resource [x] declares a dependency on [y]. *)
Definition depends (x y : string) : Prop :=
  exists r d, dict_get x resources = Some r /\ d ∈ rr_dependencies r /\ rd_resource_name d = y.

(** A dependency that its target can serve. *)
Definition served (d : ResourceDependency) : Prop :=
  exists target, dict_get (rd_resource_name d) resources = Some target /\
    rd_capability d ∈ rr_capabilities target /\
    forall alias aliases, rd_secret_alias d = Some alias -> rr_secret_aliases target = Some aliases -> alias ∈ aliases.

Lemma validate_dependency_Ok r d : validate_dependency resources r d = Ok tt <-> served d.
Proof.
  unfold validate_dependency, served. cbv zeta.
  destruct (dict_get _ resources) as [target|]; [|split; [done|naive_solver]].
  destruct (decide (rd_capability d ∈ rr_capabilities target)) as [Hc|Hc].
  - rewrite bool_decide_eq_true_2 by done. cbn.
    destruct (rd_secret_alias d) as [alias|], (rr_secret_aliases target) as [aliases|] eqn:Hals;
      [|split; [intros _; exists target; split; [done|]; split; [done|]; intros ? ?; congruence|done]..].
    rewrite guard_or_Ok, bool_decide_eq_true. split.
    + intros Ha. exists target. split; [done|]. split; [done|]. intros ? ? [= <-]. rewrite Hals. by intros [= <-].
    + intros (? & [= <-] & _ & Ha). by eapply Ha.
  - rewrite bool_decide_eq_false_2 by done. split; [done|]. by intros (? & [= <-] & ? & _).
Qed.

Lemma traverse_unit_Ok {A E B} (f : A -> result E B) l :
  is_ok (traverse f l) = true <-> forall x, x ∈ l -> is_ok (f x) = true.
Proof.
  induction l as [|a l IH]; cbn; [split; [intros _ x ?%not_elem_of_nil; done|done]|].
  destruct (f a) as [b|e] eqn:Ha; cbn.
  - destruct (traverse f l); cbn in *; (split; [intros H x [->|Hx]%elem_of_cons|]).
    + by rewrite Ha.
    + by apply IH.
    + done.
    + done.
    + done.
    + intros H. apply IH. intros x Hx. apply H. by right.
  - split; [done|]. intros H. specialize (H a (list_elem_of_here _ _)). by rewrite Ha in H.
Qed.

Lemma validate_dependencies_Ok :
  dict_wf resources ->
  is_ok (validate_dependencies resources) = true <->
  forall x r d, dict_get x resources = Some r -> d ∈ rr_dependencies r -> served d.
Proof.
  intros Hwf. unfold validate_dependencies.
  assert (forall m : rres (list (list unit)), is_ok (_ ← m; Ok tt : rres unit) = is_ok m) as -> by by intros [].
  rewrite traverse_unit_Ok. split.
  - intros H x r d Hx Hd. apply dict_get_elem in Hx. apply H in Hx. rewrite traverse_unit_Ok in Hx.
    apply (validate_dependency_Ok r). specialize (Hx d Hd). cbn in Hx.
    by destruct (validate_dependency resources r d) as [[]|].
  - intros H [x r] Hx. apply elem_dict_get in Hx; [|done]. apply traverse_unit_Ok. intros d Hd.
    cbn. by rewrite (proj2 (validate_dependency_Ok r d) (H x r d Hx Hd)).
Qed.

(** ** The search *)

Abbreviation nodes := (dict_keys resources).

Record load_inv (st : load_state) : Prop := {
  li_visiting : forall x, ld_states st !! x = Some Visiting <-> x ∈ ld_stack st;
  li_complete : forall x, ld_states st !! x = Some Complete <-> x ∈ ld_ordered st;
  li_nodup : NoDup (ld_stack st);
  li_nodes : forall x, x ∈ ld_stack st \/ x ∈ ld_ordered st -> x ∈ nodes;
  li_walk : walk depends (ld_stack st);
  li_order : descending depends (rev (ld_ordered st));
}.

(** What a call that does not raise leaves. *)
Definition load_kept (st st' : load_state) : Prop :=
  load_inv st' /\ ld_stack st' = ld_stack st /\ forall x, x ∈ ld_ordered st -> x ∈ ld_ordered st'.

(** The outcome of a search: it raises only for a cycle. *)
Definition load_outcome (r : rres load_state) (st : load_state) (P : load_state -> Prop) : Prop :=
  match r with
  | Ok st' => load_kept st st' /\ P st'
  | Raise e => exists cycle, is_cycle depends cycle /\
      e = RegistryError DependencyError ("Resource dependency cycle: " +:+ string_join " -> " cycle)
  end.

Lemma visit_each_spec f l st :
  (forall st' x, load_inv st' -> ld_stack st' = ld_stack st -> x ∈ l ->
    load_outcome (f x st') st' (fun st'' => x ∈ ld_ordered st'')) ->
  load_inv st -> load_outcome (visit_each f l st) st (fun st' => forall x, x ∈ l -> x ∈ ld_ordered st').
Proof.
  revert st. induction l as [|x l IH]; intros st Hf Hinv; cbn [visit_each].
  - split; [done|]. by intros x ?%not_elem_of_nil.
  - pose proof (Hf st x Hinv eq_refl (list_elem_of_here _ _)) as Hx. destruct (f x st) as [st1|e]; cbn in *; [|done].
    destruct Hx as [(Hinv1 & Hst1 & Hsub1) Hx].
    assert (load_outcome (visit_each f l st1) st1 (fun st' => forall x, x ∈ l -> x ∈ ld_ordered st')) as H.
    { apply IH; [|done]. intros st' y Hi Hs Hy. apply Hf; [done|congruence|by right]. }
    destruct (visit_each f l st1) as [st2|e]; cbn in *; [|done]. destruct H as [(Hinv2 & Hst2 & Hsub2) Hl].
    split; [split; [done|split; [congruence|auto]]|]. intros y [->|Hy]%elem_of_cons; auto.
Qed.

Lemma enter_resource_inv st x :
  load_inv st -> ld_states st !! x = None -> x ∈ nodes -> walk depends (ld_stack st ++ [x]) ->
  load_inv (enter_resource x st).
Proof.
  intros Hi Hx Hin Hw. destruct Hi as [Hv Hc Hnd Hn _ Ho].
  assert (x ∉ ld_stack st) as Hs by (rewrite <- Hv, Hx; done).
  assert (x ∉ ld_ordered st) as Hr by (rewrite <- Hc, Hx; done).
  constructor; cbn; [| | | |done|done].
  - intros y. rewrite elem_of_app, list_elem_of_singleton. destruct (decide (x = y)) as [->|Hne].
    + rewrite lookup_insert_eq. naive_solver.
    + rewrite lookup_insert_ne, Hv by done. naive_solver.
  - intros y. destruct (decide (x = y)) as [->|Hne].
    + rewrite lookup_insert_eq. naive_solver.
    + by rewrite lookup_insert_ne, Hc.
  - apply NoDup_app. split; [done|]. split; [|apply NoDup_singleton].
    intros y Hy ->%list_elem_of_singleton. done.
  - intros y [[Hy| ->%list_elem_of_singleton]%elem_of_app|Hy]; [apply Hn; by left|done|apply Hn; by right].
Qed.

Lemma leave_resource_inv st st' x :
  load_inv st -> ld_states st !! x = None -> load_kept (enter_resource x st) st' ->
  (forall y, depends x y -> y ∈ ld_ordered st') ->
  load_kept st (leave_resource x st') /\ x ∈ ld_ordered (leave_resource x st').
Proof.
  intros Hi Hx ([Hv Hc Hnd Hn Hw Ho] & Hst & Hsub) Hsucc. cbn in Hst, Hsub.
  assert (removelast (ld_stack st') = ld_stack st) as Hrl by (rewrite Hst; apply removelast_last).
  assert (x ∉ ld_stack st) as Hs by (rewrite <- (li_visiting _ Hi), Hx; done).
  assert (x ∈ ld_stack st') as Hin by (rewrite Hst; apply elem_of_app; right; by left).
  assert (x ∉ ld_ordered st') as Hr by (rewrite <- Hc, (proj2 (Hv x) Hin); done).
  split; [|cbn; apply elem_of_app; right; by left].
  split; [|cbn; split; [done|intros y Hy; apply elem_of_app; left; auto]].
  constructor; cbn; rewrite ?Hrl; [| |by apply Hi| |by apply Hi|].
  - intros y. destruct (decide (x = y)) as [->|Hne]; [rewrite lookup_insert_eq; naive_solver|].
    rewrite lookup_insert_ne, Hv, Hst, elem_of_app, list_elem_of_singleton by done. naive_solver.
  - intros y. rewrite elem_of_app, list_elem_of_singleton. destruct (decide (x = y)) as [->|Hne].
    + rewrite lookup_insert_eq. naive_solver.
    + rewrite lookup_insert_ne, Hc by done. naive_solver.
  - intros y [Hy|[Hy| ->%list_elem_of_singleton]%elem_of_app]; [|apply Hn; by right|apply Hn; by left].
    apply Hn. left. rewrite Hst. apply elem_of_app. by left.
  - rewrite rev_app_distr. cbn. constructor; [by rewrite elem_rev| |done].
    intros y Hy. rewrite elem_rev. auto.
Qed.

Hypothesis Hwf : dict_wf resources.
Hypothesis Hserved : forall x r d, dict_get x resources = Some r -> d ∈ rr_dependencies r -> served d.

Lemma depends_nodes x y : depends x y -> x ∈ nodes /\ y ∈ nodes.
Proof.
  intros (r & d & Hx & Hd & <-). split; apply dict_get_Some_keys; [by exists r|].
  destruct (Hserved x r d Hx Hd) as (t & Ht & _). by exists t.
Qed.

Lemma visit_resource_spec fuel x st :
  load_inv st -> x ∈ nodes -> walk depends (ld_stack st ++ [x]) ->
  (length nodes < fuel + length (ld_stack st))%nat ->
  load_outcome (visit_resource fuel resources x st) st (fun st' => x ∈ ld_ordered st').
Proof.
  revert x st. induction fuel as [|fuel IH]; intros x st Hinv Hin Hw Hfuel.
  - exfalso. assert (length (ld_stack st) <= length nodes)%nat; [|cbn in *; lia].
    apply NoDup_incl_length; [apply NoDup_ListNoDup, Hinv|].
    intros y Hy%list_elem_of_In. apply list_elem_of_In, (li_nodes _ Hinv). by left.
  - cbn [visit_resource]. destruct (ld_states st !! x) as [[]|] eqn:Hx.
    + eexists; split; [|done]. pose proof (proj1 (li_visiting _ Hinv x) Hx) as Hs.
      destruct (drop_until_spec x _ Hs) as (l1 & l2 & Heq & Hd). rewrite Hd. exists x, l2. split; [done|].
      apply (walk_suffix _ l1). replace (l1 ++ (x :: l2) ++ [x]) with (ld_stack st ++ [x]); [done|].
      by rewrite Heq, <- app_assoc.
    + split; [done|]. by apply (li_complete _ Hinv).
    + destruct (proj2 (dict_get_Some_keys x resources) Hin) as [r Hr]. rewrite Hr.
      pose proof (enter_resource_inv _ _ Hinv Hx Hin Hw) as Hent.
      assert (load_outcome
        (visit_each (visit_resource fuel resources) (map rd_resource_name (rr_dependencies r)) (enter_resource x st))
        (enter_resource x st)
        (fun st' => forall y, y ∈ map rd_resource_name (rr_dependencies r) -> y ∈ ld_ordered st')) as Hout.
      { apply visit_each_spec; [|done].
        intros st' y Hinv' Hst' (d & -> & Hd)%list_elem_of_fmap_1. cbn in Hst'.
        assert (depends x (rd_resource_name d)) as Hxy by by exists r, d.
        apply IH; [done|by eapply depends_nodes| |].
        - rewrite Hst', <- app_assoc. by apply walk_snoc.
        - rewrite Hst', length_app. cbn. lia. }
      destruct (visit_each _ _ _) as [st'|e]; cbn in *; [|done]. destruct Hout as [Hk Hsucc].
      apply leave_resource_inv; [done..|].
      intros y (r' & d & Hr' & Hd & <-). apply Hsucc. rewrite Hr in Hr'. injection Hr' as <-.
      by apply list_elem_of_fmap_2.
Qed.
End order.

Lemma descending_rev_before R (before after : list string) x y :
  descending R (rev (before ++ x :: after)) -> R x y -> y ∈ before.
Proof.
  rewrite rev_app_distr. cbn. rewrite <- app_assoc. induction (rev after) as [|z l IH]; cbn; intros H Hxy.
  - inversion H as [|? ? Hx Hsucc Hd]; subst. by apply elem_rev, Hsucc.
  - inversion H; subst. auto.
Qed.

Lemma is_ok_unit {E} (r : result E unit) : is_ok r = true -> r = Ok tt.
Proof. by destruct r as [[]|]. Qed.

Section load_order.
Context {C : Type} (resources : list (string * ResolvedResource C)) (Hwf : dict_wf resources).

Definition all_served : Prop :=
  forall x r d, dict_get x resources = Some r -> d ∈ rr_dependencies r -> served resources d.

(** A list of all the resources, each after those it depends on. *)
Definition load_ordered (order : list string) : Prop :=
  order ≡ₚ dict_keys resources /\
  forall before x after, order = before ++ x :: after -> forall y, depends resources x y -> y ∈ before.

Lemma load_ordered_descending order :
  NoDup order -> (forall before x after, order = before ++ x :: after -> forall y, depends resources x y -> y ∈ before) ->
  descending (depends resources) (rev order).
Proof.
  induction order as [|x order IH] using rev_ind; intros Hnd Hb; [constructor|].
  rewrite rev_app_distr. cbn. apply NoDup_app in Hnd as (Hnd & Hx & _). constructor.
  - rewrite elem_rev. intros Hin. apply (Hx x Hin). by left.
  - intros y Hy. rewrite elem_rev. by apply (Hb order x []).
  - apply IH; [done|]. intros before z after Heq. apply (Hb before z (after ++ [x])).
    by rewrite Heq, <- app_assoc.
Qed.

Lemma load_ordered_acyclic order : all_served -> load_ordered order -> acyclic (depends resources).
Proof.
  intros Hs [Hp Hb]. apply (descending_acyclic _ (rev order)).
  - apply load_ordered_descending; [by rewrite Hp|exact Hb].
  - intros x y Hxy. rewrite elem_rev, Hp. by apply (depends_nodes resources Hs x y).
Qed.

Definition load_order_post (r : rres (list string)) : Prop :=
  match r with
  | Ok order => all_served /\ load_ordered order
  | Raise e => exists msg, e = RegistryError DependencyError msg /\
      (~ all_served \/ exists cycle, is_cycle (depends resources) cycle /\
         msg = "Resource dependency cycle: " +:+ string_join " -> " cycle)
  end.

Lemma traverse_error {A B E} (f : A -> result E B) (P : E -> Prop) l :
  (forall x, match f x with Ok _ => True | Raise e => P e end) ->
  match traverse f l with Ok _ => True | Raise e => P e end.
Proof.
  intros Hf. induction l as [|x l IH]; cbn; [done|]. specialize (Hf x). destruct (f x); cbn; [|done].
  by destruct (traverse f l).
Qed.

Lemma validate_dependencies_error e :
  validate_dependencies resources = Raise e -> exists msg, e = RegistryError DependencyError msg.
Proof.
  unfold validate_dependencies. intros H.
  pose proof (traverse_error (fun kv : string * ResolvedResource C =>
      traverse (validate_dependency resources kv.2) (rr_dependencies kv.2))
    (fun e => exists msg, e = RegistryError DependencyError msg) resources) as Ht.
  destruct (traverse _ resources); cbn in H; [done|]. injection H as ->. apply Ht. intros [x r].
  apply traverse_error. intros d. unfold validate_dependency. cbv zeta.
  destruct (dict_get _ _) as [t|]; [|by eexists].
  destruct (bool_decide (rd_capability d ∈ _)); cbn; [|by eexists].
  destruct (rd_secret_alias d), (rr_secret_aliases t); try done.
  destruct (bool_decide _); cbn; [done|by eexists].
Qed.

Lemma load_order_spec : load_order_post (resource_load_order resources).
Proof.
  unfold resource_load_order. destruct (validate_dependencies resources) as [[]|e] eqn:Hv; cbn.
  - assert (all_served) as Hs by (refine (proj1 (validate_dependencies_Ok _ Hwf) _); by rewrite Hv).
    assert (load_outcome resources
      (visit_each (visit_resource (S (S (length resources))) resources) (dict_keys resources)
        {| ld_states := ∅; ld_stack := []; ld_ordered := [] |})
      {| ld_states := ∅; ld_stack := []; ld_ordered := [] |}
      (fun st => forall x, x ∈ dict_keys resources -> x ∈ ld_ordered st)) as H.
    { apply visit_each_spec.
      - intros st x Hinv Hst Hx. cbn in Hst. apply visit_resource_spec; [done..| |].
        + rewrite Hst. apply walk_singleton.
        + unfold dict_keys. rewrite length_fmap. lia.
      - constructor; cbn; try set_solver; [intros x; rewrite lookup_empty; set_solver..|constructor|done|constructor]. }
    destruct (visit_each _ _ _) as [st|e]; cbn in *; [|by destruct H as (c & Hc & ->); eexists; eauto].
    destruct H as [(Hinv & _ & _) Hall]. split; [done|].
    pose proof (li_order _ _ Hinv) as Hd. split.
    + apply NoDup_Permutation; [|done|].
      * rewrite <- (rev_involutive (ld_ordered st)). apply NoDup_ListNoDup, List.NoDup_rev, NoDup_ListNoDup. by eapply descending_NoDup.
      * intros x. split; [|auto]. intros Hx. apply (li_nodes _ _ Hinv). by right.
    + intros before x after Heq y Hxy. rewrite Heq in Hd. by eapply descending_rev_before.
  - apply validate_dependencies_error in Hv as Hm. destruct Hm as [msg ->]. exists msg. split; [done|]. left.
    intros Hs. pose proof (proj2 (validate_dependencies_Ok _ Hwf) Hs) as Hok. by rewrite Hv in Hok.
Qed.
End load_order.


Module RegistrySamples.
Definition resource (name : string) (capabilities : list ResourceCapability) (dependencies : list ResourceDependency)
  : string * ResolvedResource unit :=
  (name, {| rr_name := name; rr_provider_name := "memory"; rr_provider_contract_version := "1"; rr_config := tt;
            rr_capabilities := capabilities; rr_class_path := None; rr_dependencies := dependencies;
            rr_secret_aliases := Some ["dsn"] |}).

Definition needs (name : string) (capability : ResourceCapability) : ResourceDependency :=
  {| rd_resource_name := name; rd_capability := capability; rd_secret_alias := None |}.

Definition database : list (string * ResolvedResource unit) :=
  [resource "orders" [DATABASE] [needs "secrets" SECRET_READER; needs "settings" CONFIG];
   resource "settings" [CONFIG] [needs "secrets" SECRET_READER]; resource "secrets" [SECRET_READER] []].


Example cycle_reported :
  resource_load_order [resource "a" [CONFIG] [needs "b" CONFIG]; resource "b" [CONFIG] [needs "a" CONFIG]]
  = Raise (RegistryError DependencyError "Resource dependency cycle: a -> b -> a").
Proof. reflexivity. Qed.

Example capability_refused :
  resource_load_order [resource "a" [CONFIG] [needs "b" CACHE]; resource "b" [CONFIG] []]
  = Raise (RegistryError DependencyError "Resource 'a' requires resource 'b' with capability 'cache'").
Proof. reflexivity. Qed.
End RegistrySamples.
