(* ===== verification/ResourceLoader.v ===== *)
(** The lifecycle of resources ([sdk/resource_loader.py] over [ResourceRegistry.build]):
    they are built and initialised in the order of loading and closed in reverse.  The
    factories and the methods of a resource are the application's or a library's: they
    are calls, whose answers are arbitrary. *)

From S2P Require Export Registries Processes.

(** What foreign code raises: one of the two classes that the loader knows, any other
    [Exception], or a [BaseException] that is not one (a cancellation). *)
Inductive foreign_exn :=
| OptionalDependency (text : string)
| FactoryError (text : string)
| OtherException (type_name : string)
| BaseException (type_name : string).

Definition is_foreign_exception (e : foreign_exn) : bool :=
  match e with BaseException _ => false | _ => true end.

(** [type(exc).__name__] *)
Definition foreign_type_name (e : foreign_exn) : string :=
  match e with
  | OptionalDependency _ => "OptionalDependencyError"
  | FactoryError _ => "ResourceFactoryError"
  | OtherException n | BaseException n => n
  end.

(** The names of the errors of [resources/registry.py]. *)
Definition registry_type_name (e : registry_exn) : string :=
  let (cls, _) := e in
  match cls with
  | ProviderDefinitionError => "ResourceProviderDefinitionError"
  | DuplicateProviderError => "DuplicateResourceProviderError"
  | UnknownProviderError => "UnknownResourceProviderError"
  | ClassImportError => "ResourceClassImportError"
  | ConfigError => "ResourceConfigError"
  | DependencyError => "ResourceDependencyError"
  | UnsupportedAsyncError => "UnsupportedAsyncTransportError"
  | ProviderValidationError => "TransportProviderValidationError"
  | MissingKey => "KeyError"
  end.

Section loader.
Context {C I : Type} (import_class : string -> string -> class_import C).

(** [LoadedResource]s by name. *)
Abbreviation loaded_resources := (list (string * (ResolvedResource C * I))).

(** What a factory returns: the instance, whether it is a [ManagedResource], and the
    capabilities whose protocols it implements. *)
Record built := {
  bt_instance : I;
  bt_managed : bool;
  bt_implements : list ResourceCapability;
}.

(** The calls of foreign code.  The context that a factory receives resolves names
    through the loader: the call carries the resources that it can resolve. *)
Inductive resource_call :=
| CallFactory (definition : ResolvedResource C) (visible : loaded_resources)
| CallInitialize (name : string) (instance : I) (visible : loaded_resources)
| CallClose (name : string) (instance : I).

Definition resource_answer (c : resource_call) : Type :=
  match c with
  | CallFactory _ _ => result foreign_exn built
  | CallInitialize _ _ _ => result foreign_exn unit
  | CallClose _ _ => result foreign_exn unit
  end.

#[export] Instance ResourceCalls : Calls := {| call := resource_call; answer := resource_answer |}.

(** ** Errors *)

Inductive loader_exn :=
| RegistryFailure (e : registry_exn)
| ForeignFailure (e : foreign_exn)
| ResourceLoadError (resource_name provider_name reason : string)
| ResourceCleanupError (failures : list (string * foreign_exn))
| LoaderRuntimeError (msg : string).

(** An exception with the notes that [add_note] gave it. *)
Definition noted_exn : Type := loader_exn * list string.

Definition cleanup_text (failures : list (string * foreign_exn)) : string :=
  "Resource cleanup failed: "
  +:+ string_join "; " (map (fun f => f.1 +:+ ".close: " +:+ foreign_type_name f.2) failures).

(** ** Building *)

(** [sorted(self.capabilities, key=lambda item: item.value)] *)
Definition sorted_capabilities (l : list ResourceCapability) : list ResourceCapability :=
  (sort_keys (map (fun c => (capability_value c, c)) (remove_dups l))).*2.

(** [ResourceProvider.build], after the factory has returned. *)
Definition accept_built (p : ResourceProvider C) (b : built) : result loader_exn I :=
  let refuse msg := Raise (ForeignFailure (FactoryError ("Resource provider " +:+ quoted (pv_name p) +:+ msg))) in
  if negb (bt_managed b) then refuse " returned an object without async lifecycle methods"
  else
    match List.filter (fun c => negb (bool_decide (c ∈ bt_implements b))) (sorted_capabilities (pv_capabilities p)) with
    | [] => Ok (bt_instance b)
    | missing => refuse (" does not implement declared capabilities: " +:+ repr_texts (map capability_value missing))
    end.

(** [ResourceRegistry.build] *)
Definition build_resource (r : ResourceRegistry C) (definition : ResolvedResource C) (visible : loaded_resources)
  : prog (result loader_exn I * ResourceRegistry C) :=
  let '(provider, r) :=
    match rr_class_path definition with
    | Some class_path => class_provider import_class r class_path
    | None => (resource_provider r (rr_provider_name definition), r)
    end in
  match provider with
  | Raise e => Ret (Raise (RegistryFailure e), r)
  | Ok p =>
      Call (CallFactory definition visible : call) (fun a : result foreign_exn built =>
        Ret (match a with
             | Ok b => accept_built p b
             | Raise (FactoryError text) => Raise (ForeignFailure (FactoryError text))
             | Raise (BaseException n) => Raise (ForeignFailure (BaseException n))
             | Raise _ =>
                 Raise (ForeignFailure (FactoryError
                   ("Resource provider " +:+ quoted (pv_name p) +:+ " failed to configure resource "
                    +:+ quoted (rr_name definition))))
             end, r))
  end.

(** ** The loader *)

(** [_exit_stack] holds the cleanups that are pushed, the last on top. *)
Record ResourceLoader := {
  lo_registry : ResourceRegistry C;
  lo_loaded : loaded_resources;
  lo_exit_stack : list (string * I);
  lo_cleanup_failures : list (string * foreign_exn);
  lo_closed : bool;
  lo_load_started : bool;
}.

Definition new_loader (r : ResourceRegistry C) : ResourceLoader := {|
  lo_registry := r; lo_loaded := []; lo_exit_stack := []; lo_cleanup_failures := [];
  lo_closed := false; lo_load_started := false;
|}.

Definition set_registry (r : ResourceRegistry C) (l : ResourceLoader) : ResourceLoader := {|
  lo_registry := r; lo_loaded := lo_loaded l; lo_exit_stack := lo_exit_stack l;
  lo_cleanup_failures := lo_cleanup_failures l; lo_closed := lo_closed l; lo_load_started := lo_load_started l;
|}.

Definition push_cleanup (name : string) (i : I) (l : ResourceLoader) : ResourceLoader := {|
  lo_registry := lo_registry l; lo_loaded := lo_loaded l; lo_exit_stack := lo_exit_stack l ++ [(name, i)];
  lo_cleanup_failures := lo_cleanup_failures l; lo_closed := lo_closed l; lo_load_started := lo_load_started l;
|}.

Definition set_loaded (name : string) (d : ResolvedResource C) (i : I) (l : ResourceLoader) : ResourceLoader := {|
  lo_registry := lo_registry l; lo_loaded := dict_set name (d, i) (lo_loaded l); lo_exit_stack := lo_exit_stack l;
  lo_cleanup_failures := lo_cleanup_failures l; lo_closed := lo_closed l; lo_load_started := lo_load_started l;
|}.

Definition start_load (l : ResourceLoader) : ResourceLoader := {|
  lo_registry := lo_registry l; lo_loaded := lo_loaded l; lo_exit_stack := lo_exit_stack l;
  lo_cleanup_failures := lo_cleanup_failures l; lo_closed := lo_closed l; lo_load_started := true;
|}.

(** The state once [aclose] has run the cleanups: [loaded] is cleared unless it raised. *)
Definition end_close (failures : list (string * foreign_exn)) (loaded : loaded_resources) (l : ResourceLoader)
  : ResourceLoader := {|
  lo_registry := lo_registry l; lo_loaded := loaded; lo_exit_stack := [];
  lo_cleanup_failures := failures; lo_closed := true; lo_load_started := lo_load_started l;
|}.

(** [AsyncExitStack.aclose] on the cleanups, the last pushed first: every one runs; the
    failures that [_cleanup_resource] records, and the last [BaseException]. *)
Fixpoint run_cleanups (stack : list (string * I)) (failures : list (string * foreign_exn))
    (pending : option foreign_exn) : prog (list (string * foreign_exn) * option foreign_exn) :=
  match stack with
  | [] => Ret (failures, pending)
  | (name, i) :: stack =>
      Call (CallClose name i : call) (fun a : result foreign_exn unit =>
        match a with
        | Ok _ => run_cleanups stack failures pending
        | Raise e =>
            if is_foreign_exception e then run_cleanups stack (failures ++ [(name, e)]) pending
            else run_cleanups stack failures (Some e)
        end)
  end.

(** [ResourceLoader.close] *)
Definition close (l : ResourceLoader) : prog (result loader_exn unit * ResourceLoader) :=
  if lo_closed l then Ret (Ok tt, l)
  else
    '(failures, pending) ← run_cleanups (rev (lo_exit_stack l)) (lo_cleanup_failures l) None;
    match pending with
    | Some e => Ret (Raise (ForeignFailure e), end_close failures (lo_loaded l) l)
    | None =>
        Ret (match failures with [] => Ok tt | _ => Raise (ResourceCleanupError failures) end,
             end_close failures [] l)
    end.

(** The handlers around the building and the initialisation of one resource. *)
Definition load_error (name : string) (definition : ResolvedResource C) (e : loader_exn) : loader_exn :=
  let failed reason := ResourceLoadError name (rr_provider_name definition) reason in
  match e with
  | ForeignFailure (OptionalDependency text) | ForeignFailure (FactoryError text) => failed text
  | ForeignFailure (OtherException n) => failed ("initialization raised " +:+ n)
  | RegistryFailure e => failed ("initialization raised " +:+ registry_type_name e)
  | _ => e
  end.

(** One iteration of the loop of [load]. *)
Definition load_one (name : string) (definition : ResolvedResource C) (l : ResourceLoader)
  : prog (result loader_exn unit * ResourceLoader) :=
  '(b, registry) ← build_resource (lo_registry l) definition (lo_loaded l);
  let l := set_registry registry l in
  match b with
  | Raise e => Ret (Raise (load_error name definition e), l)
  | Ok i =>
      let l := push_cleanup name i l in
      Call (CallInitialize name i (lo_loaded l) : call) (fun a : result foreign_exn unit =>
        match a with
        | Ok _ => Ret (Ok tt, set_loaded name definition i l)
        | Raise e => Ret (Raise (load_error name definition (ForeignFailure e)), l)
        end)
  end.

Fixpoint load_each (resources : list (string * ResolvedResource C)) (names : list string) (l : ResourceLoader)
  : prog (result loader_exn unit * ResourceLoader) :=
  match names with
  | [] => Ret (Ok tt, l)
  | name :: names =>
      match dict_get name resources with
      | None => Ret (Raise (RegistryFailure (RegistryError MissingKey (repr_string name))), l)
      | Some definition =>
          '(r, l) ← load_one name definition l;
          match r with
          | Ok _ => load_each resources names l
          | Raise e => Ret (Raise e, l)
          end
      end
  end.

(** [ResourceLoader.load] *)
Definition load (resources : list (string * ResolvedResource C)) (l : ResourceLoader)
  : prog (result noted_exn unit * ResourceLoader) :=
  if lo_closed l then Ret (Raise (LoaderRuntimeError "A closed ResourceLoader cannot load resources", []), l)
  else if lo_load_started l then
    Ret (Raise (LoaderRuntimeError "ResourceLoader.load() may only be called once", []), l)
  else
    let l := start_load l in
    '(r, l) ← match resource_load_order resources with
              | Raise e => Ret (Raise (RegistryFailure e), l)
              | Ok order => load_each resources order l
              end;
    match r with
    | Ok _ => Ret (Ok tt, l)
    | Raise e =>
        '(closed, l) ← close l;
        Ret (Raise match closed with
                   | Ok _ => (e, [])
                   | Raise (ResourceCleanupError failures) => (e, [cleanup_text failures])
                   | Raise e' => (e', [])
                   end, l)
    end.

(** [ResourceLoader._resolve_loaded_resource], by which a factory reads [visible]. *)
Definition resolve_loaded_resource (visible : loaded_resources) (name : string) (capability : ResourceCapability)
  : result string I :=
  match dict_get name visible with
  | None => Raise ("Resource dependency " +:+ quoted name +:+ " is not initialized")
  | Some (definition, i) =>
      if bool_decide (capability ∈ rr_capabilities definition) then Ok i
      else Raise ("Resource dependency " +:+ quoted name +:+ " does not provide " +:+ quoted (capability_value capability))
  end.

(** [ResourceLoader.get], for instances that have a managed lifecycle: the text of the
    [KeyError]. *)
Definition get (l : ResourceLoader) (name : string) : result string I :=
  from_option (snd <$> dict_get name (lo_loaded l)) ("Resource " +:+ quoted name +:+ " not loaded").

(** [ResourceCollection.require] of [resources/registry.py] *)
Definition require_resource (collection : loaded_resources) (name : string) (capability : ResourceCapability)
  : result string I :=
  match dict_get name collection with
  | None => Raise ("Resource " +:+ quoted name +:+ " is not loaded")
  | Some (definition, i) =>
      if bool_decide (capability ∈ rr_capabilities definition) then Ok i
      else Raise ("Resource " +:+ quoted name +:+ " does not provide the " +:+ quoted (capability_value capability)
                  +:+ " capability")
  end.

(** [ResourceCollection.grant] and the lookup of a [ResourceGrant] *)
Definition grant_resources (collection : loaded_resources) (names : list string) : result string (list (string * I)) :=
  foldl (fun granted name =>
    granted ← granted;
    entry ← from_option (dict_get name collection) ("Resource " +:+ quoted name +:+ " is not loaded");
    Ok (dict_set name entry.2 granted)) (Ok []) names.

Definition granted_resource (grant : list (string * I)) (name : string) : result string I :=
  from_option (dict_get name grant) ("Resource " +:+ quoted name +:+ " is not included in this grant").

(** A loader's whole life: it loads, and whatever the outcome it is closed. *)
Definition lifetime (r : ResourceRegistry C) (resources : list (string * ResolvedResource C))
  : prog (result noted_exn unit * result loader_exn unit * ResourceLoader) :=
  '(loaded, l) ← load resources (new_loader r);
  '(closed, l) ← close l;
  Ret (loaded, closed, l).
End loader.
