(* ===== verification/ResourceLoaderFacts.v ===== *)
(** The lifecycle that [ResourceLoader] gives to resources, whatever their factories and
    methods answer: what is initialised is closed, in reverse order, and a resource is
    only built over the initialised resources that it depends on. *)

From S2P Require Export RegistryFacts ResourceLoader.

Section lifecycle.
Context {C I : Type} (import_class : string -> string -> class_import C).

Abbreviation loaded_resources := (list (string * (ResolvedResource C * I))).
#[local] Instance calls : Calls := ResourceCalls (C := C) (I := I).
Abbreviation event := {c : call & answer c}.

(** The instances on which [initialize] was called, those it succeeded on, and those on
    which [close] was called, in order. *)
Definition acquired_by (e : event) : option (string * I) :=
  match (projT1 e : resource_call (C := C) (I := I)) with CallInitialize name i _ => Some (name, i) | _ => None end.

Definition initialised_by (e : event) : option (string * I) :=
  match (projT1 e : resource_call) as c return resource_answer c -> _ with
  | CallInitialize name i _ => fun a => if is_ok a then Some (name, i) else None
  | _ => fun _ => None
  end (projT2 e).

Definition closed_by (e : event) : option (string * I) :=
  match (projT1 e : resource_call (C := C) (I := I)) with CallClose name i => Some (name, i) | _ => None end.

Definition acquired (t : list event) : list (string * I) := omap acquired_by t.
Definition initialised (t : list event) : list (string * I) := omap initialised_by t.
Definition closed (t : list event) : list (string * I) := omap closed_by t.

(** The resources that a factory or [initialize] can resolve. *)
Definition instances (l : loaded_resources) : list (string * I) := map (fun kv => (kv.1, kv.2.2)) l.

(** After the calls [before], the resources that [definition] can resolve are those that
    are initialised, nothing is closed, and every dependency resolves. *)
Definition prepared (before : list event) (definition : ResolvedResource C) (visible : loaded_resources) : Prop :=
  instances visible = initialised before /\ closed before = [] /\
  forall d, d ∈ rr_dependencies definition ->
    exists i, resolve_loaded_resource visible (rd_resource_name d) (rd_capability d) = Ok i /\
      (rd_resource_name d, i) ∈ initialised before.

Section calls.
Context (resources : list (string * ResolvedResource C)).

Definition call_prepared (before : list event) (e : event) : Prop :=
  match (projT1 e : resource_call (C := C) (I := I)) with
  | CallFactory definition visible =>
      (exists name, dict_get name resources = Some definition) /\ prepared before definition visible
  | CallInitialize name i visible =>
      exists definition, dict_get name resources = Some definition /\ prepared before definition visible
  | CallClose _ _ => True
  end.

Definition calls_prepared (t : list event) : Prop :=
  forall before e after, t = before ++ e :: after -> call_prepared before e.

Lemma calls_prepared_snoc t e : calls_prepared t -> call_prepared t e -> calls_prepared (t ++ [e]).
Proof.
  intros Ht He before e' after Heq. destruct after as [|x after _] using rev_ind.
  - apply app_inj_tail in Heq as [-> ->]. done.
  - rewrite app_comm_cons, app_assoc in Heq. apply app_inj_tail in Heq as [-> _]. by eapply Ht.
Qed.

(** ** The state while it loads *)

Record loading (t : list event) (l : ResourceLoader (C := C) (I := I)) : Prop := {
  lg_acquired : acquired t = lo_exit_stack l;
  lg_initialised : initialised t = instances (lo_loaded l);
  lg_closed : closed t = [];
  lg_open : lo_closed l = false;
  lg_calls : calls_prepared t;
  lg_sub : forall x, x ∈ (lo_exit_stack l).*1 -> x ∈ dict_keys resources;
}.

(** The loop has taken the names [before], and those are what is loaded. *)
Record loading_upto (before : list string) (t : list event) (l : ResourceLoader (C := C) (I := I)) : Prop := {
  lu_loading : loading t l;
  lu_keys : dict_keys (lo_loaded l) = before;
  lu_stack : lo_exit_stack l = instances (lo_loaded l);
  lu_definitions : forall name d i, dict_get name (lo_loaded l) = Some (d, i) -> dict_get name resources = Some d;
}.

Lemma instances_keys (l : loaded_resources) : (instances l).*1 = dict_keys l.
Proof. unfold instances, dict_keys. induction l as [|x l IH]; cbn; [done|]. by f_equal. Qed.

Lemma acquired_app t1 t2 : acquired (t1 ++ t2) = acquired t1 ++ acquired t2.
Proof. apply omap_app. Qed.

Lemma initialised_app t1 t2 : initialised (t1 ++ t2) = initialised t1 ++ initialised t2.
Proof. apply omap_app. Qed.

Lemma closed_app t1 t2 : closed (t1 ++ t2) = closed t1 ++ closed t2.
Proof. apply omap_app. Qed.

Hypothesis Hwf : dict_wf resources.
Hypothesis Hserved : all_served resources.
Variable order : list string.
Hypothesis Horder : load_ordered resources order.

Lemma order_NoDup : NoDup order.
Proof. destruct Horder as [-> _]. done. Qed.

Lemma loading_prepared before name after t l definition :
  order = before ++ name :: after -> loading_upto before t l -> dict_get name resources = Some definition ->
  prepared t definition (lo_loaded l).
Proof.
  intros Heq [[Ha Hi Hc _ _ _] Hk _ Hd] Hget. split; [done|]. split; [done|]. intros d Hin.
  assert (rd_resource_name d ∈ before) as Hb.
  { apply (proj2 Horder before name after Heq). by exists definition, d. }
  rewrite <- Hk in Hb. apply dict_get_Some_keys in Hb as [[target i] Ht]. exists i.
  destruct (Hserved name definition d Hget Hin) as (target' & Ht' & Hcap & _).
  rewrite (Hd _ _ _ Ht) in Ht'. injection Ht' as <-. unfold resolve_loaded_resource.
  rewrite Ht, bool_decide_eq_true_2 by done. split; [done|]. rewrite Hi.
  apply dict_get_elem in Ht. by apply (list_elem_of_fmap_2 (fun kv => (kv.1, kv.2.2))) in Ht.
Qed.

(** A loop that stopped: everything that is on the stack is acquired, nothing is closed. *)
Definition stopped (t : list event) (l : ResourceLoader (C := C) (I := I)) : Prop :=
  loading t l /\ (lo_exit_stack l).*1 `prefix_of` order.

Lemma loading_registry t l r : loading t l -> loading t (set_registry r l).
Proof. intros []. by constructor. Qed.

(** A factory is called. *)
Lemma loading_factory t l name definition a :
  loading t l -> dict_get name resources = Some definition -> prepared t definition (lo_loaded l) ->
  loading (t ++ [existT (CallFactory definition (lo_loaded l) : call) a]) l /\
  prepared (t ++ [existT (CallFactory definition (lo_loaded l) : call) a]) definition (lo_loaded l).
Proof.
  intros [Ha Hi Hc Ho Hp Hsub] Hget Hprep. split.
  - constructor; rewrite ?acquired_app, ?initialised_app, ?closed_app, ?app_nil_r; try done.
    apply calls_prepared_snoc; [done|]. split; [by exists name|done].
  - destruct Hprep as (H1 & H2 & H3). unfold prepared. by rewrite initialised_app, closed_app, app_nil_r, H2.
Qed.

(** [initialize] is called on what the factory returned. *)
Lemma loading_initialize t l name definition i (a : answer (CallInitialize name i (lo_loaded l) : call)) :
  loading t l -> dict_get name resources = Some definition -> prepared t definition (lo_loaded l) ->
  name ∉ dict_keys (lo_loaded l) ->
  loading (t ++ [existT (CallInitialize name i (lo_loaded l) : call) a])
    (if is_ok (a : result foreign_exn unit) then set_loaded name definition i (push_cleanup name i l)
     else push_cleanup name i l).
Proof.
  intros [Ha Hi Hc Ho Hp Hsub] Hget Hprep Hnew.
  assert (call_prepared t (existT (CallInitialize name i (lo_loaded l) : call) a)) as Hcall by by exists definition.
  assert (forall x, x ∈ (lo_exit_stack l ++ [(name, i)]).*1 -> x ∈ dict_keys resources) as Hsub'.
  { intros x. rewrite fmap_app, elem_of_app. cbn. rewrite list_elem_of_singleton. intros [?| ->]; [auto|].
    apply dict_get_Some_keys. by exists definition. }
  cbn in a. destruct a as [[]|e]; constructor; cbn;
    rewrite ?acquired_app, ?initialised_app, ?closed_app, ?Ha, ?Hi, ?Hc, ?app_nil_r; try done;
    try by apply calls_prepared_snoc.
  rewrite dict_set_new by done. unfold instances. by rewrite map_app.
Qed.

Lemma load_one_spec before name after t l definition :
  order = before ++ name :: after -> loading_upto before t l -> dict_get name resources = Some definition ->
  ensures (load_one import_class name definition l) t (fun t' r =>
    match r.1 with
    | Ok _ => loading_upto (before ++ [name]) t' r.2
    | Raise _ => stopped t' r.2
    end).
Proof.
  intros Heq Hup Hget. pose proof (loading_prepared before name after t l definition Heq Hup Hget) as Hprep.
  destruct Hup as [Hl Hk Hi Hd]. pose proof order_NoDup as Hnd. rewrite Heq in Hnd.
  assert ((lo_exit_stack l).*1 = before) as Hs by (rewrite Hi, instances_keys; done).
  assert (name ∉ before) as Hnew.
  { intros Hin. apply NoDup_app in Hnd as (_ & Hx & _). apply (Hx name Hin). by left. }
  assert (before `prefix_of` order) as Hpre by (rewrite Heq; by exists (name :: after)).
  assert (before ++ [name] `prefix_of` order) as Hpre'.
  { rewrite Heq. exists after. by rewrite <- app_assoc. }
  unfold load_one. apply ensures_bind. unfold build_resource.
  destruct (match rr_class_path definition with Some _ => _ | None => _ end) as [[p|e] r].
  2: { apply ensures_ret, ensures_ret. split; [by apply loading_registry|]. cbn. by rewrite Hs. }
  apply ensures_call. intros a. apply ensures_ret.
  destruct (loading_factory t l name definition a Hl Hget Hprep) as [Hl1 Hprep1].
  apply (loading_registry _ _ r) in Hl1. set (b := match a with Ok _ => _ | Raise _ => _ end).
  destruct b as [i|e]; [|apply ensures_ret; split; [done|]; cbn; by rewrite Hs].
  apply ensures_call. intros a'.
  pose proof (loading_initialize _ (set_registry r l) name definition i a' Hl1 Hget Hprep1) as Hl2.
  cbn [lo_loaded set_registry] in Hl2. rewrite Hk in Hl2. specialize (Hl2 Hnew). cbn in a'.
  destruct a' as [[]|e]; apply ensures_ret; cbn [fst snd].
  - constructor; cbn; [done| | |].
    + rewrite dict_set_new by (by rewrite Hk). unfold dict_keys in *. by rewrite fmap_app, Hk.
    + rewrite dict_set_new by (by rewrite Hk). unfold instances. by rewrite map_app, Hi.
    + intros n d' i'. rewrite dict_get_set. case_decide; [intros [= <- <-]; by subst|apply Hd].
  - split; [done|]. cbn. by rewrite fmap_app, Hs.
Qed.

Lemma load_each_spec before names t l :
  order = before ++ names -> loading_upto before t l ->
  ensures (load_each import_class resources names l) t (fun t' r =>
    match r.1 with
    | Ok _ => loading_upto order t' r.2
    | Raise _ => stopped t' r.2
    end).
Proof.
  revert before t l. induction names as [|name names IH]; intros before t l Heq Hup; cbn [load_each].
  - apply ensures_ret. cbn. by rewrite Heq, app_nil_r.
  - destruct (dict_get name resources) as [definition|] eqn:Hget.
    + apply ensures_bind. eapply ensures_mono; [|by eapply load_one_spec].
      intros t' [[[]|e] l'] H; cbn in *; [|by apply ensures_ret].
      apply (IH (before ++ [name])); [|done]. by rewrite <- app_assoc.
    + exfalso. apply dict_get_None in Hget. destruct Hget. rewrite <- (proj1 Horder), Heq.
      apply elem_of_app. right. by left.
Qed.
(** ** Closing *)

(** Everything that was acquired is closed, the last first. *)
Record shut (acq ini : list (string * I)) (t : list event) (l : ResourceLoader (C := C) (I := I)) : Prop := {
  sh_acquired : acquired t = acq;
  sh_initialised : initialised t = ini;
  sh_closed : closed t = rev acq;
  sh_flag : lo_closed l = true;
  sh_calls : calls_prepared t;
}.

Lemma run_cleanups_spec stack failures pending t :
  calls_prepared t ->
  ensures (run_cleanups stack failures pending) t (fun t' _ =>
    acquired t' = acquired t /\ initialised t' = initialised t /\ closed t' = closed t ++ stack /\ calls_prepared t').
Proof.
  revert failures pending t. induction stack as [|[name i] stack IH]; intros failures pending t Ht; cbn [run_cleanups].
  - apply ensures_ret. by rewrite app_nil_r.
  - apply ensures_call. intros a.
    assert (forall failures pending,
      ensures (run_cleanups stack failures pending) (t ++ [existT (CallClose name i : call) a]) (fun t' _ =>
        acquired t' = acquired t /\ initialised t' = initialised t /\ closed t' = closed t ++ (name, i) :: stack /\
        calls_prepared t')) as H.
    { intros f p. eapply ensures_mono; [|apply IH, calls_prepared_snoc; done].
      intros t' r. rewrite acquired_app, initialised_app, closed_app, !app_nil_r, <- app_assoc. done. }
    destruct a as [[]|e]; [apply H|]. destruct (is_foreign_exception e); apply H.
Qed.

Lemma close_spec t l :
  loading t l -> ensures (close l) t (fun t' r => shut (lo_exit_stack l) (initialised t) t' r.2).
Proof.
  intros [Ha Hi Hc Ho Hp _]. unfold close. rewrite Ho. apply ensures_bind.
  eapply ensures_mono; [|by apply run_cleanups_spec].
  intros t' [fs pending] (H1 & H2 & H3 & H4). destruct pending as [e|]; apply ensures_ret;
    (constructor; cbn; [by rewrite H1|done|by rewrite H3, Hc|done|done]).
Qed.

Lemma close_again acq ini t l : shut acq ini t l -> ensures (close l) t (fun t' r => shut acq ini t' r.2).
Proof. intros Hs. unfold close. rewrite (sh_flag _ _ _ _ Hs). by apply ensures_ret. Qed.
End calls.

(** ** A whole life *)

Section life.
Context (registry : ResourceRegistry C) (resources : list (string * ResolvedResource C)).
Hypothesis Hwf : dict_wf resources.

Lemma loading_start : loading resources [] (start_load (new_loader registry)).
Proof.
  constructor; try done.
  - intros before e after Heq. by destruct before.
  - intros x Hx. by apply not_elem_of_nil in Hx.
Qed.

(** What [load] leaves. *)
Definition load_post (t : list event) (r : result noted_exn unit * ResourceLoader (C := C) (I := I)) : Prop :=
  match r.1 with
  | Ok _ => exists order, load_ordered resources order /\ loading_upto resources order t r.2
  | Raise _ => exists acq order, shut resources acq (initialised t) t r.2 /\
      acq.*1 `prefix_of` order /\ (order = [] \/ load_ordered resources order)
  end.

Lemma load_spec : ensures (load import_class resources (new_loader registry)) [] load_post.
Proof.
  unfold load. cbn [lo_closed lo_load_started new_loader]. apply ensures_bind.
  pose proof (load_order_spec resources Hwf) as Horder. destruct (resource_load_order resources) as [order|e].
  - destruct Horder as [Hserved Horder].
    eapply ensures_mono; [|apply (load_each_spec resources Hwf Hserved order Horder [])]; [|done|].
    2: { constructor; [apply loading_start|done..]. }
    intros t [[[]|e] l] H; cbn in H; [apply ensures_ret; by exists order|].
    destruct H as [Hl Hpre]. apply ensures_bind. eapply ensures_mono; [|by apply close_spec].
    intros t' [c l'] Hs; cbn in Hs. apply ensures_ret. exists (lo_exit_stack l), order. cbn.
    rewrite (sh_initialised _ _ _ _ _ Hs). auto.
  - apply ensures_ret, ensures_bind. eapply ensures_mono; [|apply (close_spec resources), loading_start].
    intros t' [c l'] Hs; cbn in Hs. apply ensures_ret. exists [], []. cbn.
    rewrite (sh_initialised _ _ _ _ _ Hs). split; [done|]. split; [done|by left].
Qed.

(** The names in the order in which they are closed: first those that depend on others. *)
Definition dependents_first (l : list string) : Prop :=
  forall before x after, l = before ++ x :: after ->
    forall y, y ∈ l -> depends resources y x -> y ∈ before.

Lemma load_ordered_prefix order l : load_ordered resources order -> l `prefix_of` order ->
  NoDup l /\ dependents_first (rev l).
Proof.
  intros [Hp Hb] [rest Heq]. assert (NoDup (l ++ rest)) as Hnd by (by rewrite <- Heq, Hp).
  apply NoDup_app in Hnd as (Hnd & _ & _). split; [done|].
  intros before x after Hr y Hy Hxy. eapply (descending_before (depends resources)); [|done..].
  apply load_ordered_descending; [done|]. intros b z a Hl. apply (Hb b z (a ++ rest)). by rewrite Heq, Hl, <- app_assoc.
Qed.

Lemma lifetime_spec :
  ensures (lifetime import_class registry resources) [] (fun t r =>
    exists acq, shut resources acq (initialised t) t r.2 /\ NoDup acq.*1 /\ dependents_first (rev acq.*1) /\
      (is_ok r.1.1 = true -> acq.*1 ≡ₚ dict_keys resources /\ initialised t = acq)).
Proof.
  unfold lifetime. apply ensures_bind. eapply ensures_mono; [|apply load_spec].
  intros t [loaded l] Hload. cbn [fst snd] in Hload. apply ensures_bind. destruct loaded as [[]|e]; cbn in Hload.
  - destruct Hload as (order & Ho & [Hl Hk Hi Hd]). eapply ensures_mono; [|by apply close_spec].
    intros t' [c l'] Hs. cbn [snd] in Hs. apply ensures_ret. exists (lo_exit_stack l).
    cbn [fst snd]. rewrite (sh_initialised _ _ _ _ _ Hs). split; [done|].
    assert ((lo_exit_stack l).*1 = order) as Hstack by (by rewrite Hi, instances_keys).
    rewrite Hstack. destruct (load_ordered_prefix order order Ho) as [Hnd Hdep]; [done|].
    split; [done|]. split; [done|]. intros _. split; [apply Ho|].
    rewrite (lg_initialised _ _ _ Hl). by rewrite Hi.
  - destruct Hload as (acq & order & Hs & Hpre & Ho). eapply ensures_mono; [|by apply close_again].
    intros t' [c l'] Hs'. cbn [snd] in Hs'. apply ensures_ret. exists acq. cbn [fst snd].
    rewrite (sh_initialised _ _ _ _ _ Hs'). split; [done|].
    destruct Ho as [->|Ho].
    + destruct Hpre as [rest Heq]. destruct acq; [|done]. split; [constructor|]. split; [|done].
      intros before x after Hb. by destruct before.
    + destruct (load_ordered_prefix order acq.*1 Ho Hpre). done.
Qed.
End life.
End lifecycle.

(** C21: Resources are closed in reverse, whatever fails.  Whatever the factories,
    [initialize] and [close] of the resources answer, in the life of a loader that loads
    and is then closed: [close] is called exactly once on every instance that
    [initialize] was called on, the last first, so that a resource is closed before those
    it depends on; a factory or [initialize] runs only while every dependency of the
    resource resolves to an instance that is initialised and not closed; the loader ends
    closed; and when [load] returns, it initialised every resource that is declared. *)
Theorem resources_closed_in_reverse {C I : Type} (import_class : string -> string -> class_import C)
    (registry : ResourceRegistry C) (resources : list (string * ResolvedResource C))
    (t : log (H := ResourceCalls (C := C) (I := I))) (loaded : result noted_exn unit) (closing : result loader_exn unit)
    (l : ResourceLoader (C := C) (I := I))
    (Hwf : dict_wf resources)
    (Hrun : runs (lifetime import_class registry resources) t (loaded, closing, l)) :
  closed t = rev (acquired t) /\ NoDup (acquired t).*1 /\ dependents_first resources (closed t).*1 /\
  calls_prepared resources t /\ lo_closed l = true /\
  (loaded = Ok tt -> (acquired t).*1 ≡ₚ dict_keys resources /\ initialised t = acquired t).
Proof.
  destruct (lifetime_spec import_class registry resources Hwf t _ Hrun) as (acq & Hs & Hnd & Hdep & Hok).
  destruct Hs as [Ha _ Hc Hl Hp]. cbn [app fst snd] in Ha, Hc, Hl, Hp, Hok. rewrite Hc, Ha.
  replace ((rev acq).*1) with (rev acq.*1) by (symmetry; apply map_rev).
  split; [done|]. split; [done|]. split; [done|]. split; [done|]. split; [done|]. by intros ->; apply Hok.
Qed.

Module LoaderSamples.
Import RegistrySamples.

Definition no_class : string -> string -> class_import unit := fun _ _ => ImportFailed.

Definition memory_provider : ResourceProvider unit := {|
  pv_name := "memory"; pv_contract_version := "1"; pv_parse_config := fun _ => Parsed tt;
  pv_capabilities := [CONFIG]; pv_dependency_resolver := None; pv_secret_alias_resolver := None;
|}.

Definition memory_registry : ResourceRegistry unit :=
  {| rg_providers := [("memory", memory_provider)]; rg_class_providers := [] |}.

Definition pair : list (string * ResolvedResource unit) :=
  [resource "a" [CONFIG] [needs "b" CONFIG]; resource "b" [CONFIG] []].

Definition definition_of (name : string) : ResolvedResource unit :=
  default (snd (resource name [CONFIG] [])) (dict_get name pair).

Definition built_as (i : nat) : result foreign_exn (built (I := nat)) :=
  Ok {| bt_instance := i; bt_managed := true; bt_implements := [CONFIG] |}.

#[local] Instance sample_calls : Calls := ResourceCalls (C := unit) (I := nat).

(** [b] is initialised, [a] is cancelled in [initialize], and the cleanup of [b] fails. *)
Definition cancelled_run : log := [
  existT (CallFactory (definition_of "b") [] : call) (built_as 1);
  existT (CallInitialize "b" 1%nat [] : call) (Ok tt);
  existT (CallFactory (definition_of "a") [("b", (definition_of "b", 1%nat))] : call) (built_as 2);
  existT (CallInitialize "a" 2%nat [("b", (definition_of "b", 1%nat))] : call) (Raise (BaseException "CancelledError"));
  existT (CallClose "a" 2%nat : call) (Ok tt);
  existT (CallClose "b" 1%nat : call) (Raise (OtherException "OSError"))].

Lemma resources_closed_in_reverse_witness :
  let t := cancelled_run in
  closed t = [("a", 2%nat); ("b", 1%nat)] /\ closed t = rev (acquired t).
Proof.
  split; [reflexivity|].
  eapply (resources_closed_in_reverse no_class memory_registry pair cancelled_run
    (Raise (ForeignFailure (BaseException "CancelledError"), ["Resource cleanup failed: b.close: OSError"]))
    (Ok tt)).
  - unfold dict_wf. apply NoDup_ListNoDup. repeat constructor; cbn; intuition discriminate.
  - cbn. repeat (eexists _, _; split; [reflexivity|]; cbn). split; reflexivity.
Defined.
End LoaderSamples.
