(* ===== verification/Contracts.v ===== *)
(** Contracts of steps and workflows ([engine/contracts.py]): the check of a declared
    schema, its identity, and the inspection of a path in it.  The import of an
    application's model, jsonschema, referencing and [urljoin] are parameters. *)

From S2P Require Export Canonical Data Grammar Scope Models.

Definition DEFAULT_JSON_SCHEMA_DIALECT : string := "https://json-schema.org/draft/2020-12/schema".
Definition SUPPORTED_JSON_SCHEMA_DIALECTS : list string :=
  [DEFAULT_JSON_SCHEMA_DIALECT; DEFAULT_JSON_SCHEMA_DIALECT +:+ "#"].
Definition MAX_SCHEMA_PATH_DEPTH : nat := 32.
Definition JSON_SCHEMA_REFERENCE_KEYWORDS : list string := ["$ref"; "$dynamicRef"].

Inductive SchemaValueType :=
| TypeObject | TypeArray | TypeString | TypeNumber | TypeInteger | TypeBoolean | TypeNull.

#[export] Instance SchemaValueType_eq_dec : EqDecision SchemaValueType.
Proof. solve_decision. Defined.

Definition type_value (t : SchemaValueType) : string :=
  match t with
  | TypeObject => "object" | TypeArray => "array" | TypeString => "string" | TypeNumber => "number"
  | TypeInteger => "integer" | TypeBoolean => "boolean" | TypeNull => "null"
  end.

Definition all_value_types : list SchemaValueType :=
  [TypeObject; TypeArray; TypeString; TypeNumber; TypeInteger; TypeBoolean; TypeNull].

(** [SchemaValueType(text)] *)
Definition parse_value_type (s : string) : option SchemaValueType :=
  List.find (fun t => bool_decide (type_value t = s)) all_value_types.

(** [SchemaPathResult]; the frozenset is a list read as a set. *)
Record SchemaPathResult := {
  sp_exists : option bool;
  sp_value_types : option (list SchemaValueType);
  sp_detail : option string;
}.

Definition path_result (found : option bool) : SchemaPathResult :=
  {| sp_exists := found; sp_value_types := None; sp_detail := None |}.

Definition path_missing (detail : string) : SchemaPathResult :=
  {| sp_exists := Some false; sp_value_types := None; sp_detail := Some detail |}.

(** [", ".join(sorted(value_types))] *)
Definition value_types_text (l : list SchemaValueType) : string :=
  string_join ", " (sorted_set (map type_value l)).

Inductive contract_exn :=
| SchemaLoadError (msg : string)
| SchemaDeclarationError (msg : string)
| ContractViolation (msg : string)
| Escaped (type_name : string).

Definition contract_message (e : contract_exn) : string :=
  match e with SchemaLoadError m | SchemaDeclarationError m | ContractViolation m | Escaped m => m end.

Abbreviation cres := (result contract_exn).

(** ** Models and libraries *)

(** [importlib.import_module] and [getattr] on a dotted path: an [ImportError] or
    [AttributeError], another exception, something that is not a model, or a model with
    its [model_json_schema()]. *)
Inductive model_import :=
| ModelMissing (text : string)
| ModelRaises (type_name : string)
| NotAModel
| ImportedModel (schema : list (string * json)).

Class ContractLibrary := {
  import_model : string -> string -> model_import;
  (* [Draft202012Validator.check_schema]: the message of a [SchemaError] *)
  check_schema : list (string * json) -> option string;
  (* [Resource.id] and [Resource.subresources] *)
  resource_id : list (string * json) -> option string;
  subresources : list (string * json) -> list json;
  (* [registry.resolver(base_uri).lookup(reference)] over the resource of the schema *)
  resolves : list (string * json) -> string -> string -> bool;
  urljoin : string -> string -> string;
  (* [model_validate] of a model: the text of a [ValidationError] *)
  validate_model : string -> string -> json -> option string;
  (* the first of [iter_errors]; [None] when it raises [Unresolvable] or [RecursionError] *)
  first_error : list (string * json) -> json -> option (option (list string * string));
}.

Fixpoint json_size (j : json) : nat :=
  match j with
  | JList l => S (list_sum (map json_size l))
  | JDict d => S (list_sum (map (fun kv => json_size kv.2) d))
  | _ => 1
  end.

(** The characters of a text under [ensure_ascii=True]. *)
Fixpoint ascii_escape (s : string) : string :=
  match s with
  | EmptyString => EmptyString
  | String c s =>
      let n := Ascii.N_of_ascii c in
      let esc hex := String backslash (String "u"%char hex) in
      (if (n <? 128)%N then String c EmptyString
       else if (n =? 133)%N then esc "2026"
       else esc ("00" +:+ String (hex_digit (n / 16)) (String (hex_digit (n mod 16)) EmptyString)))
      +:+ ascii_escape s
  end.

Fixpoint all_finite (j : json) : bool :=
  match j with
  | JFloat f => isfinite f
  | JList l => forallb all_finite l
  | JDict d => forallb (fun kv => all_finite kv.2) d
  | _ => true
  end.

Section contracts.
Context `{ContractLibrary}.

(** [load_model(dotted_path).model_json_schema()] *)
Definition load_model_schema (dotted_path : string) : cres (list (string * json)) :=
  match rpartition_dot dotted_path with
  | None => Raise (SchemaLoadError ("Schema path " +:+ ("'" +:+ dotted_path +:+ "'") +:+ " must contain a module and model name"))
  | Some (module_path, attr_name) =>
      match import_model module_path attr_name with
      | ModelMissing text => Raise (SchemaLoadError ("Cannot import schema '" +:+ dotted_path +:+ "': " +:+ text))
      | ModelRaises n => Raise (Escaped n)
      | NotAModel => Raise (SchemaLoadError ("Schema '" +:+ dotted_path +:+ "' is not a pydantic BaseModel subclass"))
      | ImportedModel schema => Ok schema
      end
  end.

(** ** Declarations *)

Section identity.
Context `{Sha256, FloatRepr}.

(** [_contract_identity] *)
Definition contract_identity (value : json) : cres string :=
  if all_finite value then Ok ("sha256:" +:+ hexdigest (ascii_escape (dumps_strict_json value)))
  else Raise (SchemaDeclarationError
    "Contract declaration is not canonical JSON: Out of range float values are not JSON compliant").

(** [schema.get("$schema", DEFAULT_JSON_SCHEMA_DIALECT)] when it is supported *)
Definition supported_dialect (schema : list (string * json)) : bool :=
  match dict_get "$schema" schema with
  | None => true
  | Some (JStr d) => bool_decide (d ∈ SUPPORTED_JSON_SCHEMA_DIALECTS)
  | Some _ => false
  end.

(** The loop over the reference keywords of one schema. *)
Definition check_references (root contents : list (string * json)) (base_uri : string) : cres unit :=
  _ ← traverse (fun keyword =>
        match dict_get keyword contents with
        | Some (JStr reference) =>
            if negb (bool_decide (reference = "")) && negb (String.prefix "#" reference)
            then Raise (SchemaDeclarationError "Remote JSON Schema references are not supported")
            else guard_or (resolves root base_uri reference)
                   (SchemaDeclarationError "Unresolved local JSON Schema references")
        | _ => Ok tt
        end) JSON_SCHEMA_REFERENCE_KEYWORDS;
  Ok tt.

(** [_validate_schema_references]; the fuel bounds the nesting of the subresources. *)
Fixpoint validate_schema_references (fuel : nat) (root : list (string * json)) (resource : json) (base_uri : string)
  : option (cres unit) :=
  match fuel with
  | O => None
  | S fuel =>
      match resource with
      | JDict contents =>
          if negb (supported_dialect contents)
          then Some (Raise (SchemaDeclarationError "Unsupported JSON Schema dialect in nested resource"))
          else
            let base_uri := urljoin base_uri (default "" (resource_id contents)) in
            match check_references root contents base_uri with
            | Raise e => Some (Raise e)
            | Ok _ =>
                (fix each l :=
                   match l with
                   | [] => Some (Ok tt)
                   | nested :: l =>
                       match validate_schema_references fuel root nested base_uri with
                       | Some (Ok _) => each l
                       | r => r
                       end
                   end) (subresources contents)
            end
      | _ => Some (Ok tt)
      end
  end.

(** [validate_contract_declaration] of an inline schema *)
Definition validate_inline_schema (schema : list (string * json)) : option (cres string) :=
  if negb (supported_dialect schema)
  then Some (Raise (SchemaDeclarationError
    ("Unsupported JSON Schema dialect '"
     +:+ match dict_get "$schema" schema with Some d => py_str d | None => "" end
     +:+ "'; supported dialects: " +:+ repr_texts SUPPORTED_JSON_SCHEMA_DIALECTS)))
  else
    match check_schema schema with
    | Some message => Some (Raise (SchemaDeclarationError ("Invalid JSON Schema: " +:+ message)))
    | None =>
        match validate_schema_references (json_size (JDict schema)) schema (JDict schema) "" with
        | None => None
        | Some (Raise e) => Some (Raise e)
        | Some (Ok _) =>
            Some (contract_identity (JDict
              [("kind", JStr "json-schema");
               ("schema", JDict (dict_setdefault "$schema" (JStr DEFAULT_JSON_SCHEMA_DIALECT) schema))]))
        end
    end.

(** [validate_contract_declaration]: a declaration is a path or an inline schema. *)
Definition validate_contract_declaration (schema : json) : option (cres string) :=
  match schema with
  | JStr path =>
      Some (model ← load_model_schema path;
            contract_identity (JDict [("kind", JStr "pydantic"); ("path", JStr path); ("schema", JDict model)]))
  | JDict schema => validate_inline_schema schema
  | _ => Some (Raise (Escaped "AttributeError"))
  end.

(** [validate_payload] *)
Definition validate_payload (schema payload : json) (direction step_name : string) : option (cres unit) :=
  let violation detail := Raise (ContractViolation
    ("Step '" +:+ step_name +:+ "' " +:+ direction +:+ " violates its schema: " +:+ detail)) in
  match validate_contract_declaration schema with
  | None => None
  | Some (Raise e) => Some (Raise e)
  | Some (Ok _) =>
      Some match schema with
           | JStr path =>
               match rpartition_dot path with
               | None => Ok tt
               | Some (module_path, attr_name) =>
                   match validate_model module_path attr_name payload with
                   | Some text => violation text
                   | None => Ok tt
                   end
               end
           | JDict schema =>
               e ← from_option (first_error schema payload)
                     (SchemaDeclarationError "Unresolvable JSON Schema reference during validation");
               match e with
               | None => Ok tt
               | Some ([], message) => violation message
               | Some (location, message) => violation (string_join "." location +:+ ": " +:+ message)
               end
           | _ => Ok tt
           end
  end.
End identity.

(** ** Inspection of a path *)

(** Hexadecimal digits, as [unquote] reads them. *)
Definition hex_digit_value (c : Ascii.ascii) : option N :=
  let n := Ascii.N_of_ascii c in
  if is_digit c then Some (n - 48)%N
  else if (65 <=? n)%N && (n <=? 70)%N then Some (n - 55)%N
  else if (97 <=? n)%N && (n <=? 102)%N then Some (n - 87)%N
  else None.

(** The byte of a percent escape at the front of a text, with what follows it. *)
Definition percent_byte (s : string) : option (N * string) :=
  match s with
  | String p (String a (String b rest)) =>
      if decide (p = "%"%char) then
        match hex_digit_value a, hex_digit_value b with
        | Some x, Some y => Some (16 * x + y, rest)%N
        | _, _ => None
        end
      else None
  | _ => None
  end.

(** [unquote(text)] for the texts of the model, whose characters are below U+0100;
    [None] when the result has another character, which no key of a schema then has. *)
Fixpoint unquote (fuel : nat) (s : string) : option string :=
  match fuel, s with
  | O, _ | _, EmptyString => Some EmptyString
  | S fuel, String c rest =>
      match percent_byte s with
      | None => String c <$> unquote fuel rest
      | Some (b, rest) =>
          if (b <? 128)%N then String (Ascii.ascii_of_N b) <$> unquote fuel rest
          else if (b =? 194)%N || (b =? 195)%N then
            match percent_byte rest with
            | Some (b2, rest) =>
                if (128 <=? b2)%N && (b2 <? 192)%N
                then String (Ascii.ascii_of_N ((b - 192) * 64 + (b2 - 128))) <$> unquote fuel rest
                else None
            | None => None
            end
          else None
      end
  end.

(** [c.isdigit()]: the superscripts count, which [int] refuses. *)
Definition is_superscript (c : Ascii.ascii) : bool :=
  let n := Ascii.N_of_ascii c in (n =? 178)%N || (n =? 179)%N || (n =? 185)%N.

(** [part.isdigit()], then [int(part)] *)
Definition digits_value (part : string) : option (cres Z) :=
  if bool_decide (part = "") then None
  else if string_forallb is_digit part then Some (Ok (Z_of_digits part))
  else if string_forallb (fun c => is_digit c || is_superscript c) part then Some (Raise (Escaped "ValueError"))
  else None.

(** The parts of a JSON pointer. *)
Fixpoint resolve_pointer (current : json) (parts : list string) : cres (option json) :=
  match parts with
  | [] => Ok (Some current)
  | encoded :: parts =>
      let part := unescape_token encoded in
      match current with
      | JDict d =>
          match dict_get part d with
          | Some v => resolve_pointer v parts
          | None => Ok None
          end
      | JList l =>
          match digits_value part with
          | None => Ok None
          | Some i =>
              i ← i;
              match l !! Z.to_nat i with Some v => resolve_pointer v parts | None => Ok None end
          end
      | _ => Ok None
      end
  end.

(** [_local_reference_target] *)
Definition local_reference_target (root : list (string * json)) (reference : string) : cres (option json) :=
  if bool_decide (reference = "") || bool_decide (reference = "#") then Ok (Some (JDict root))
  else
    match unquote (String.length reference) (string_drop 1 reference) with
    | Some (String "/"%char fragment) => resolve_pointer (JDict root) (string_split "/"%char fragment)
    | _ => Ok None
    end.

(** [_schema_alternatives] *)
Definition schema_alternatives (node : list (string * json)) : option (list json) :=
  match dict_get "anyOf" node, dict_get "oneOf" node with
  | Some (JList (x :: l)), _ => Some (x :: l)
  | _, Some (JList (x :: l)) => Some (x :: l)
  | _, _ => None
  end.

(** [_schema_value_types] *)
Definition schema_value_types (node : list (string * json)) : option (list SchemaValueType) :=
  match dict_get "type" node with
  | Some (JStr declared) => t ← parse_value_type declared; Some [t]
  | Some (JList declared) =>
      mapM (fun v => match v with JStr s => parse_value_type s | _ => None end) declared
  | _ =>
      if dict_mem "properties" node || dict_mem "additionalProperties" node then Some [TypeObject]
      else if dict_mem "items" node || dict_mem "prefixItems" node then Some [TypeArray]
      else None
  end.

Definition exists_false (r : SchemaPathResult) : bool := bool_decide (sp_exists r = Some false).

(** [_combine_schema_results] *)
Definition combine_schema_results (results : list SchemaPathResult) : SchemaPathResult :=
  if forallb exists_false results then
    {| sp_exists := Some false; sp_value_types := None;
       sp_detail := head (omap (fun r => match sp_detail r with Some "" => None | d => d end) results) |}
  else if existsb (fun r => negb (isSome (sp_exists r))) results then path_result None
  else
    let existing := List.filter (fun r => bool_decide (sp_exists r = Some true)) results in
    if bool_decide (length existing = 0)%nat then path_result None
    else if existsb (fun r => negb (isSome (sp_value_types r))) existing then path_result (Some true)
    else {| sp_exists := Some true;
            sp_value_types := Some (remove_dups (concat (map (fun r => default [] (sp_value_types r)) existing)));
            sp_detail := None |}.

(** The integer of a token that [isinstance(token, int)] accepts. *)
Definition token_index (t : path_token) : option Z :=
  match t with TIndex i => Some i | TBool b => Some (if b then 1 else 0)%Z | TKey _ => None end.

(** [prefix_items[token]] when [token < len(prefix_items)] *)
Definition prefix_item (items : list json) (token : Z) : option (cres json) :=
  if (Z.of_nat (length items) <=? token)%Z then None
  else
    let i := if (token <? 0)%Z then (token + Z.of_nat (length items))%Z else token in
    Some (if (i <? 0)%Z then Raise (Escaped "IndexError")
          else from_option (items !! Z.to_nat i) (Escaped "IndexError")).

(** What [_inspect_schema_node] does with a node that is not a reference and has no
    alternatives: a result, or a node to go on with and the tokens left. *)
Inductive node_step :=
| Done (r : SchemaPathResult)
| Continue (node : json) (remaining : list path_token)
| Failed (e : contract_exn).

Definition additional_step (additional : option json) (has_properties : bool) (token : string)
    (remaining : list path_token) : node_step :=
  let undeclared := Done (path_missing ("field " +:+ repr_string token +:+ " is not declared")) in
  match additional with
  | Some (JBool false) => undeclared
  | Some (JDict _ as a) | Some (JBool true as a) => Continue a remaining
  | _ => if has_properties then undeclared else Done (path_result None)
  end.

Definition object_step (node : list (string * json)) (token : path_token) (remaining : list path_token) : node_step :=
  match token with
  | TKey key =>
      match dict_get "properties" node with
      | Some (JDict properties) =>
          match dict_get key properties with
          | Some p => Continue p remaining
          | None => additional_step (dict_get "additionalProperties" node) true key remaining
          end
      | _ => additional_step (dict_get "additionalProperties" node) false key remaining
      end
  | _ => Done (path_missing "object path requires a named field")
  end.

Definition items_step (node : list (string * json)) (token : path_token) (remaining : list path_token) : node_step :=
  match dict_get "items" node with
  | Some (JBool false) => Done (path_missing ("array index " +:+ token_text token +:+ " is not declared"))
  | Some (JDict _ as i) | Some (JBool true as i) => Continue i remaining
  | _ => Done (path_result None)
  end.

Definition array_step (node : list (string * json)) (token : path_token) (remaining : list path_token) : node_step :=
  match token_index token with
  | None => Done (path_missing "array path requires a numeric index")
  | Some index =>
      match dict_get "prefixItems" node with
      | Some (JList prefix_items) =>
          match prefix_item prefix_items index with
          | Some (Ok item) => Continue item remaining
          | Some (Raise e) => Failed e
          | None => items_step node token remaining
          end
      | _ => items_step node token remaining
      end
  end.

(** The rest of [_inspect_schema_node] on a dict. *)
Definition plain_step (node : list (string * json)) (tokens : list path_token) : node_step :=
  let value_types := schema_value_types node in
  match tokens with
  | [] => Done {| sp_exists := Some true; sp_value_types := value_types; sp_detail := None |}
  | token :: remaining =>
      let has t := match value_types with Some l => bool_decide (t ∈ l) | None => false end in
      match value_types with
      | Some l =>
          if negb (has TypeObject) && negb (has TypeArray)
          then Done (path_missing ("cannot traverse schema-known " +:+ value_types_text l +:+ " value"))
          else if match dict_get "properties" node with Some (JDict _) => true | _ => false end || has TypeObject
          then object_step node token remaining
          else if has TypeArray || dict_mem "items" node || dict_mem "prefixItems" node
          then array_step node token remaining
          else Done (path_result None)
      | None =>
          if match dict_get "properties" node with Some (JDict _) => true | _ => false end
          then object_step node token remaining
          else if dict_mem "items" node || dict_mem "prefixItems" node
          then array_step node token remaining
          else Done (path_result None)
      end
  end.

(** [isinstance(reference, str) and reference.startswith("#")] *)
Definition local_reference (node : list (string * json)) : option string :=
  match dict_get "$ref" node with
  | Some (JStr r) => if String.prefix "#" r then Some r else None
  | _ => None
  end.

(** [_inspect_schema_node]; [None] when the fuel runs out. *)
Fixpoint inspect_schema_node (fuel : nat) (root : list (string * json)) (node : json) (tokens : list path_token)
    (references : list string) : option (cres SchemaPathResult) :=
  match fuel with
  | O => None
  | S fuel =>
      match node with
      | JBool b => Some (Ok (path_result (if b then match tokens with [] => Some true | _ => None end else Some false)))
      | JDict fields =>
          match local_reference fields with
          | Some reference =>
              if bool_decide (reference ∈ references) then Some (Ok (path_result None))
              else
                match local_reference_target root reference with
                | Raise e => Some (Raise e)
                | Ok None => Some (Ok (path_result None))
                | Ok (Some target) => inspect_schema_node fuel root target tokens (reference :: references)
                end
          | None =>
              match schema_alternatives fields with
              | Some alternatives =>
                  results ← mapM (fun a => inspect_schema_node fuel root a tokens references) alternatives;
                  Some (combine_schema_results <$> traverse id results)
              | None =>
                  match plain_step fields tokens with
                  | Done r => Some (Ok r)
                  | Failed e => Some (Raise e)
                  | Continue node tokens => inspect_schema_node fuel root node tokens references
                  end
              end
          end
      | _ => Some (Ok (path_result None))
      end
  end.

(** Enough steps: each reference is followed once, and between two of them the node
    gets smaller. *)
Definition inspect_fuel (root : list (string * json)) : nat :=
  let n := json_size (JDict root) in (n * S n + S n)%nat.

(** [inspect_schema_path] *)
Definition inspect_schema_path (schema : json) (tokens : list path_token) : option (cres SchemaPathResult) :=
  if (MAX_SCHEMA_PATH_DEPTH <? length tokens)%nat
  then Some (Ok (path_missing ("path exceeds " +:+ nat_to_string MAX_SCHEMA_PATH_DEPTH +:+ " components")))
  else
    let inspect root := inspect_schema_node (inspect_fuel root) root (JDict root) tokens [] in
    match schema with
    | JStr path =>
        match load_model_schema path with
        | Ok root => inspect root
        | Raise (SchemaLoadError _) => Some (Ok (path_result None))
        | Raise e => Some (Raise e)
        end
    | JDict root => inspect root
    | _ => Some (Ok (path_result None))
    end.

(** [schema_properties]: for a path, the fields of the model. *)
Definition schema_properties (model_fields : string -> string -> list string) (schema : json)
  : cres (option (list string)) :=
  match schema with
  | JStr path =>
      match load_model_schema path, rpartition_dot path with
      | Ok _, Some (module_path, attr_name) => Ok (Some (model_fields module_path attr_name))
      | Raise (SchemaLoadError _), _ => Ok None
      | Raise e, _ => Raise e
      | Ok _, None => Ok None
      end
  | JDict fields =>
      match dict_get "properties" fields with
      | Some (JDict ((_ :: _) as properties)) => Ok (Some (dict_keys properties))
      | _ => Ok None
      end
  | _ => Ok None
  end.
End contracts.
