(* ===== verification/ContractFacts.v ===== *)
(** The inspection of a schema ends on every schema, however its references are nested
    or repeated. *)

From S2P Require Export Contracts.

(** ** The parts of a schema *)

Inductive part_of (j : json) : json -> Prop :=
| part_refl : part_of j j
| part_item x l : x ∈ l -> part_of j x -> part_of j (JList l)
| part_field k x d : (k, x) ∈ d -> part_of j x -> part_of j (JDict d).

Lemma part_trans a b c : part_of a b -> part_of b c -> part_of a c.
Proof. intros Hab. induction 1; [done|by eapply part_item|by eapply part_field]. Qed.

Lemma elem_list_sum n l : n ∈ l -> (n <= list_sum l)%nat.
Proof.
  induction l as [|m l IH]; [by intros ?%not_elem_of_nil|].
  change (list_sum (m :: l)) with (m + list_sum l)%nat. intros [->|Hn]%elem_of_cons; [lia|]. specialize (IH Hn). lia.
Qed.

Lemma json_size_item x l : x ∈ l -> (json_size x < json_size (JList l))%nat.
Proof. intros Hx. cbn. apply Nat.lt_succ_r, elem_list_sum. by apply list_elem_of_fmap_2. Qed.

Lemma json_size_field k x d : (k, x) ∈ d -> (json_size x < json_size (JDict d))%nat.
Proof.
  intros Hx. cbn. apply Nat.lt_succ_r, elem_list_sum.
  by apply (list_elem_of_fmap_2 (fun kv => json_size kv.2)) in Hx.
Qed.

Lemma part_size a b : part_of a b -> (json_size a <= json_size b)%nat.
Proof.
  induction 1 as [|x l Hx _ IH|k x d Hx _ IH]; [done| |].
  - apply json_size_item in Hx. lia.
  - apply json_size_field in Hx. lia.
Qed.

Lemma part_get k x d : dict_get k d = Some x -> part_of x (JDict d) /\ (json_size x < json_size (JDict d))%nat.
Proof.
  intros Hk%dict_get_elem. split; [|by eapply json_size_field]. eapply part_field; [done|constructor].
Qed.

Lemma part_nth i x l : l !! i = Some x -> part_of x (JList l) /\ (json_size x < json_size (JList l))%nat.
Proof.
  intros Hi%list_elem_of_lookup_2. split; [|by apply json_size_item]. eapply part_item; [done|constructor].
Qed.

Section inspection.
Context `{ContractLibrary}.

Lemma resolve_pointer_part parts current target :
  resolve_pointer current parts = Ok (Some target) -> part_of target current.
Proof.
  revert current. induction parts as [|p parts IH]; intros current; cbn.
  - intros [= ->]. constructor.
  - destruct current as [| | | | |l|d]; try done.
    + destruct (digits_value _) as [[i|e]|]; try done. cbn. destruct (l !! Z.to_nat i) as [x|] eqn:Hx; [|done].
      intros Ht%IH. eapply part_trans; [done|]. by eapply part_nth.
    + destruct (dict_get _ d) as [x|] eqn:Hx; [|done]. intros Ht%IH. eapply part_trans; [done|].
      by apply (part_get _ _ _ Hx).
Qed.

Lemma local_reference_target_part root reference target :
  local_reference_target root reference = Ok (Some target) -> part_of target (JDict root).
Proof.
  unfold local_reference_target. destruct (_ || _); [intros [= <-]; constructor|].
  destruct (unquote _ _) as [[|c f]|]; try done. destruct c as [[] [] [] [] [] [] [] []]; try done.
  apply resolve_pointer_part.
Qed.

Lemma schema_alternatives_part node alternatives a :
  schema_alternatives node = Some alternatives -> a ∈ alternatives ->
  part_of a (JDict node) /\ (json_size a < json_size (JDict node))%nat.
Proof.
  assert (forall k l, dict_get k node = Some (JList l) -> a ∈ l ->
    part_of a (JDict node) /\ (json_size a < json_size (JDict node))%nat) as Hk.
  { intros k l Hl Ha. destruct (part_get _ _ _ Hl) as [Hp Hs]. split.
    - eapply part_trans; [|exact Hp]. eapply part_item; [done|constructor].
    - apply json_size_item in Ha. lia. }
  unfold schema_alternatives. intros Hs Ha.
  destruct (dict_get "anyOf" node) as [[| | | | |[|x l]|]|] eqn:H1;
    try (injection Hs as <-; by eapply Hk);
    destruct (dict_get "oneOf" node) as [[| | | | |[|y l']|]|] eqn:H2; try done; injection Hs as <-; by eapply Hk.
Qed.

Definition smaller_part (x : json) (node : list (string * json)) : Prop :=
  part_of x (JDict node) /\ (json_size x < json_size (JDict node))%nat.

Lemma smaller_nested k x inner node :
  dict_get k node = Some inner -> part_of x inner -> smaller_part x node.
Proof.
  intros Hk Hx. destruct (part_get _ _ _ Hk) as [Hp Hs]. split; [by eapply part_trans|].
  apply part_size in Hx. lia.
Qed.

Lemma additional_step_part node flag token remaining x tokens :
  additional_step (dict_get "additionalProperties" node) flag token remaining = Continue x tokens ->
  smaller_part x node.
Proof.
  unfold additional_step. destruct (dict_get "additionalProperties" node) as [a|] eqn:Ha; [|by destruct flag].
  destruct a as [|[]| | | | |]; try (by destruct flag); intros [= <- _]; by apply part_get in Ha.
Qed.

Lemma object_step_part node token remaining x tokens :
  object_step node token remaining = Continue x tokens -> smaller_part x node.
Proof.
  unfold object_step. destruct token as [key| |]; [|done..].
  destruct (dict_get "properties" node) as [[| | | | | |properties]|] eqn:Hp; try apply additional_step_part.
  destruct (dict_get key properties) as [p|] eqn:Hk; [|apply additional_step_part].
  intros [= <- _]. eapply smaller_nested; [done|]. by apply part_get in Hk as [? _].
Qed.

Lemma items_step_part node token remaining x tokens :
  items_step node token remaining = Continue x tokens -> smaller_part x node.
Proof.
  unfold items_step. destruct (dict_get "items" node) as [a|] eqn:Ha; [|done].
  destruct a as [|[]| | | | |]; try done; intros [= <- _]; by apply part_get in Ha.
Qed.

Lemma array_step_part node token remaining x tokens :
  array_step node token remaining = Continue x tokens -> smaller_part x node.
Proof.
  unfold array_step. destruct (token_index token) as [i|]; [|done].
  destruct (dict_get "prefixItems" node) as [[| | | | |items|]|] eqn:Hp; try apply items_step_part.
  unfold prefix_item. destruct (_ <=? i)%Z; [apply items_step_part|]. destruct (_ <? 0)%Z; [done|].
  unfold from_option. destruct (items !! _) as [item|] eqn:Hi; [|done]. intros [= <- _].
  eapply smaller_nested; [done|]. by apply part_nth in Hi as [? _].
Qed.

Lemma plain_step_part node tokens x tokens' :
  plain_step node tokens = Continue x tokens' -> smaller_part x node.
Proof.
  unfold plain_step. destruct tokens as [|token remaining]; [done|].
  destruct (schema_value_types node) as [l|].
  - destruct (_ && _); [done|]. destruct (_ || _); [apply object_step_part|].
    destruct (_ || _ || _); [apply array_step_part|done].
  - destruct (match _ with Some _ => _ | None => _ end); [apply object_step_part|].
    destruct (_ || _); [apply array_step_part|done].
Qed.

(** ** References *)

(** The texts of the references in a schema. *)
Fixpoint refs_of (j : json) : list string :=
  match j with
  | JList l => concat (map refs_of l)
  | JDict d =>
      match dict_get "$ref" d with Some (JStr r) => [r] | _ => [] end ++ concat (map (fun kv => refs_of kv.2) d)
  | _ => []
  end.

Lemma refs_part a b r : part_of a b -> r ∈ refs_of a -> r ∈ refs_of b.
Proof.
  induction 1 as [|x l Hx _ IH|k x d Hx _ IH]; [done| |]; intros Hr; specialize (IH Hr); cbn.
  - apply list_elem_of_In, in_concat. exists (refs_of x). split; apply list_elem_of_In; [|done].
    by apply list_elem_of_fmap_2.
  - apply elem_of_app. right. apply list_elem_of_In, in_concat. exists (refs_of x).
    split; apply list_elem_of_In; [|done]. by apply (list_elem_of_fmap_2 (fun kv => refs_of kv.2)) in Hx.
Qed.

Lemma length_concat_le {A B} (f : A -> list B) (g : A -> nat) l :
  (forall x, x ∈ l -> (length (f x) <= g x)%nat) -> (length (concat (map f l)) <= list_sum (map g l))%nat.
Proof.
  induction l as [|x l IH]; intros Hf; cbn; [done|]. rewrite length_app.
  pose proof (Hf x (list_elem_of_here _ _)). specialize (IH ltac:(intros; apply Hf; by right)). unfold list_sum in *. lia.
Qed.

Lemma refs_length j : (length (refs_of j) <= json_size j)%nat.
Proof.
  induction j as [| | | | |l IH|d IH] using json_ind'; cbn; try lia.
  - apply le_S, length_concat_le. intros x Hx. rewrite Forall_forall in IH. auto.
  - rewrite length_app.
    assert (length (concat (map (fun kv => refs_of kv.2) d)) <= list_sum (map (fun kv => json_size kv.2) d))%nat.
    { apply length_concat_le. intros [k x] Hx. rewrite Forall_forall in IH. by apply (IH _ Hx). }
    destruct (dict_get "$ref" d) as [[]|]; cbn; lia.
Qed.

Lemma local_reference_elem fields r : local_reference fields = Some r -> r ∈ refs_of (JDict fields).
Proof.
  unfold local_reference. destruct (dict_get "$ref" fields) as [[| | | |s| |]|] eqn:Hr; try done.
  destruct (String.prefix _ _); [|done]. intros [= ->]. cbn. rewrite Hr. by left.
Qed.

(** ** The inspection ends *)

(** From [fuel] on, the function has one value, and has it. *)
Definition settles {A} (f : nat -> option A) (fuel : nat) : Prop :=
  exists r, forall fuel', (fuel <= fuel')%nat -> f fuel' = Some r.

Lemma settles_mapM {A B} (f : nat -> A -> option B) fuel l :
  (forall a, a ∈ l -> settles (fun n => f n a) fuel) -> settles (fun n => mapM (f n) l) fuel.
Proof.
  induction l as [|a l IH]; intros Hf; [by exists []|].
  destruct (Hf a (list_elem_of_here _ _)) as [r Hr]. destruct IH as [rs Hrs]; [intros; apply Hf; by right|].
  exists (r :: rs). intros n Hn. cbn. by rewrite (Hr n Hn), (Hrs n Hn).
Qed.

Lemma inspect_settles root fuel node tokens references :
  part_of node (JDict root) -> NoDup references -> references ⊆ refs_of (JDict root) ->
  ((json_size (JDict root) - length references) * S (json_size (JDict root)) + json_size node < fuel)%nat ->
  settles (fun n => inspect_schema_node n root node tokens references) fuel.
Proof.
  set (size := json_size (JDict root)).
  revert node tokens references. induction fuel as [|fuel IH]; intros node tokens references Hp Hnd Hsub Hfuel; [lia|].
  assert (forall (f : nat -> option (cres SchemaPathResult)),
    settles f fuel -> (forall n, inspect_schema_node (S n) root node tokens references = f n) ->
    settles (fun n => inspect_schema_node n root node tokens references) (S fuel)) as Hstep.
  { intros f [r Hr] Hf. exists r. intros [|n] Hn; [lia|]. rewrite Hf. apply Hr. lia. }
  assert (forall x tokens', part_of x node -> (json_size x < json_size node)%nat ->
    settles (fun n => inspect_schema_node n root x tokens' references) fuel) as Hsmall.
  { intros x tokens' Hx Hs. apply IH; [by eapply part_trans|done|done|lia]. }
  destruct node as [|b| | | | |fields];
    try (eapply Hstep; [|intros n; reflexivity]; by eexists).
  destruct (local_reference fields) as [reference|] eqn:Hr.
  { destruct (bool_decide (reference ∈ references)) eqn:Hin.
    { eapply Hstep; [|intros n; cbn [inspect_schema_node]; rewrite Hr, Hin; reflexivity]. by eexists. }
    apply bool_decide_eq_false in Hin as Hnew.
    destruct (local_reference_target root reference) as [[target|]|e] eqn:Ht;
      (eapply Hstep; [|intros n; cbn [inspect_schema_node]; rewrite Hr, Hin, Ht; reflexivity]); [|by eexists..].
    pose proof (local_reference_target_part _ _ _ Ht) as Htp. pose proof (part_size _ _ Htp) as Hts.
    assert (reference ∈ refs_of (JDict root)) as Href by (apply (refs_part (JDict fields)); [done|by apply local_reference_elem]).
    assert (NoDup (reference :: references)) as Hnd' by by constructor.
    assert (reference :: references ⊆ refs_of (JDict root)) as Hsub' by (intros x [->|?]%elem_of_cons; auto).
    apply IH; [done..|]. pose proof (submseteq_length _ _ (NoDup_submseteq _ _ Hnd' Hsub')) as Hlen.
    pose proof (refs_length (JDict root)) as Hrl. fold size in Hts, Hrl. cbn [length] in *. nia. }
  destruct (schema_alternatives fields) as [alternatives|] eqn:Ha.
  { eapply (Hstep (fun n => results ← mapM (fun a => inspect_schema_node n root a tokens references) alternatives;
                            Some (combine_schema_results <$> traverse id results)));
      [|intros n; cbn [inspect_schema_node]; rewrite Hr, Ha; reflexivity].
    destruct (settles_mapM (fun n a => inspect_schema_node n root a tokens references) fuel alternatives) as [rs Hrs].
    { intros a Hin. destruct (schema_alternatives_part _ _ _ Ha Hin). by apply Hsmall. }
    eexists. intros n Hn. cbn beta. by rewrite (Hrs n Hn). }
  destruct (plain_step fields tokens) as [r|x tokens'|e] eqn:Hs;
    (eapply Hstep; [|intros n; cbn [inspect_schema_node]; rewrite Hr, Ha, Hs; reflexivity]); [by eexists| |by eexists].
  destruct (plain_step_part _ _ _ _ Hs). by apply Hsmall.
Qed.

Lemma inspect_node_settles root tokens :
  settles (fun n => inspect_schema_node n root (JDict root) tokens []) (inspect_fuel root).
Proof.
  apply inspect_settles; [constructor|constructor|by intros ? ?%not_elem_of_nil|].
  unfold inspect_fuel. set (n := json_size _). cbn [length]. nia.
Qed.

Lemma inspect_schema_path_total schema tokens : is_Some (inspect_schema_path schema tokens).
Proof.
  unfold inspect_schema_path. destruct (_ <? _)%nat; [by eexists|].
  assert (forall root, is_Some (inspect_schema_node (inspect_fuel root) root (JDict root) tokens [])) as Hn.
  { intros root. destruct (inspect_node_settles root tokens) as [r Hr]. exists r. by apply Hr. }
  destruct schema as [| | | |path| |root]; [by eexists..| |by eexists|apply Hn].
  destruct (load_model_schema path) as [root|[]]; [apply Hn|by eexists..].
Qed.
End inspection.

(** C22: The inspection of a schema ends.  On every schema - with references that are
    nested, repeated or lead back to themselves, and with any alternatives - and on every
    path, [inspect_schema_path] has a result, and so has [_inspect_schema_node] from the
    root of the schema after [inspect_fuel] steps: more steps never change it.  Every
    reference is followed at most once on the way to it. *)
Theorem inspection_terminates `{ContractLibrary} (schema : json) (root : list (string * json))
    (tokens : list path_token) :
  is_Some (inspect_schema_path schema tokens) /\
  settles (fun n => inspect_schema_node n root (JDict root) tokens []) (inspect_fuel root).
Proof. split; [apply inspect_schema_path_total|apply inspect_node_settles]. Qed.

Module ContractSamples.
#[export] Instance no_models : ContractLibrary := {|
  import_model _ _ := ModelMissing "no module"; check_schema _ := None; resource_id _ := None;
  subresources _ := []; resolves _ _ _ := true; urljoin base uri := base +:+ uri;
  validate_model _ _ _ := None; first_error _ _ := Some None;
|}.

(** A tree whose nodes refer to the schema itself. *)
Definition tree : list (string * json) :=
  [("type", JStr "object");
   ("properties", JDict [("value", JDict [("type", JStr "integer")]);
                         ("next", JDict [("$ref", JStr "#")]);
                         ("loop", JDict [("$ref", JStr "#/properties/loop")])]);
   ("additionalProperties", JBool false)].

Example value_found :
  inspect_schema_path (JDict tree) [TKey "next"; TKey "value"]
  = Some (Ok {| sp_exists := Some true; sp_value_types := Some [TypeInteger]; sp_detail := None |}).
Proof. vm_compute. reflexivity. Qed.

Example value_not_found :
  inspect_schema_path (JDict tree) [TKey "next"; TKey "other"]
  = Some (Ok (path_missing "field 'other' is not declared")).
Proof. vm_compute. reflexivity. Qed.

(** The second use of a reference is not followed, and neither is a loop. *)
Example repeated_unknown :
  map (inspect_schema_path (JDict tree)) [[TKey "next"; TKey "next"; TKey "value"]; [TKey "loop"]]
  = [Some (Ok (path_result None)); Some (Ok (path_result None))].
Proof. vm_compute. reflexivity. Qed.
(** Paths that the schema allows and that are reported as missing: an item of a value that
    may be an object or an array, and a field that a pattern declares. *)
Example allowed_paths_refused :
  inspect_schema_path (JDict [("type", JList [JStr "object"; JStr "array"]); ("items", JBool true)]) [TIndex 0]
  = Some (Ok (path_missing "object path requires a named field")) /\
  inspect_schema_path (JDict [("type", JStr "object"); ("patternProperties", JDict [("^x", JBool true)]);
                              ("additionalProperties", JBool false)]) [TKey "x1"]
  = Some (Ok (path_missing "field 'x1' is not declared")).
Proof. split; vm_compute; reflexivity. Qed.
End ContractSamples.
