(* ===== verification/Diagnostics.v ===== *)
(** Diagnostics of a configuration ([config/diagnostics.py]) and the result that collects
    them ([ValidationResult] of [config/validator.py]). *)

From S2P Require Export Values.

(** ** Orders *)

(** The first difference decides. *)
Definition lex (c d : comparison) : comparison := match c with Eq => d | _ => c end.

(** Tuples of texts. *)
Fixpoint texts_compare (a b : list string) : comparison :=
  match a, b with
  | [], [] => Eq
  | [], _ => Lt
  | _, [] => Gt
  | x :: a, y :: b => lex (String.compare x y) (texts_compare a b)
  end.

(** [sorted(l, key=...)], which is stable. *)
Section sorting.
Context {A : Type} (compare : A -> A -> comparison).

Fixpoint insert_by (x : A) (l : list A) : list A :=
  match l with
  | [] => [x]
  | y :: l' => match compare x y with Gt => y :: insert_by x l' | _ => x :: l end
  end.

Definition sort_by (l : list A) : list A := foldr insert_by [] l.

Lemma insert_by_Permutation x l : insert_by x l ≡ₚ x :: l.
Proof.
  induction l as [|y l IH]; cbn; [done|]. destruct (compare x y); [done..|]. rewrite IH. apply perm_swap.
Qed.

Lemma sort_by_Permutation l : sort_by l ≡ₚ l.
Proof. induction l as [|x l IH]; cbn; [done|]. by rewrite insert_by_Permutation, IH. Qed.
End sorting.

(** ** Diagnostics *)

Definition MAX_DIAGNOSTICS : nat := 1000.
Definition MAX_DIAGNOSTIC_MESSAGE_LENGTH : nat := 2048.

Inductive DiagnosticSeverity := ERROR | WARNING.

#[export] Instance DiagnosticSeverity_eq_dec : EqDecision DiagnosticSeverity.
Proof. solve_decision. Defined.

Definition severity_value (s : DiagnosticSeverity) : string :=
  match s with ERROR => "error" | WARNING => "warning" end.

Inductive DiagnosticCategory := DECLARATION | IMPORT | LIMIT | LINT | REFERENCE | SEMANTIC | PROVIDER.

Definition category_value (c : DiagnosticCategory) : string :=
  match c with
  | DECLARATION => "declaration" | IMPORT => "import" | LIMIT => "limit" | LINT => "lint"
  | REFERENCE => "reference" | SEMANTIC => "semantic" | PROVIDER => "provider"
  end.

Record ValidationDiagnostic := {
  vd_source_file : string;
  vd_location : list string;
  vd_category : DiagnosticCategory;
  vd_message : string;
  vd_severity : DiagnosticSeverity;
}.

(** [ValidationDiagnostic.__post_init__] *)
Definition bounded_message (d : ValidationDiagnostic) : bool :=
  (String.length (vd_message d) <=? MAX_DIAGNOSTIC_MESSAGE_LENGTH)%nat.

Definition location_text (d : ValidationDiagnostic) : string := string_join "." (vd_location d).

(** The order of [sort_key]. *)
Definition diagnostic_compare (a b : ValidationDiagnostic) : comparison :=
  lex (String.compare (vd_source_file a) (vd_source_file b))
    (lex (texts_compare (vd_location a) (vd_location b))
       (lex (String.compare (severity_value (vd_severity a)) (severity_value (vd_severity b)))
          (lex (String.compare (category_value (vd_category a)) (category_value (vd_category b)))
             (String.compare (vd_message a) (vd_message b))))).

(** [str(diagnostic)] *)
Definition diagnostic_text (d : ValidationDiagnostic) : string :=
  "[" +:+ vd_source_file d +:+ ":" +:+ location_text d +:+ "] " +:+ category_value (vd_category d) +:+ ": "
  +:+ vd_message d.

(** [ValidationDiagnostic.as_dict] *)
Definition diagnostic_dict (d : ValidationDiagnostic) : list (string * json) :=
  [("category", JStr (category_value (vd_category d))); ("location", JList (map JStr (vd_location d)));
   ("message", JStr (vd_message d)); ("severity", JStr (severity_value (vd_severity d)));
   ("source_file", JStr (vd_source_file d))].

(** ** Results *)

(** What a validator does to its result: it adds a diagnostic, it records the identity of
    a contract, or an exception escapes it. *)
Inductive finding :=
| Report (location message : string) (category : DiagnosticCategory) (severity : DiagnosticSeverity)
| Identity (location identity : string)
| Escape (type_name : string).

(** [source_files]: the files of [("resources",)], [("workflows", name)] and so on. *)
Definition source_files : Type := list (list string * string).

(** [ValidationResult], with the identities of the contracts that [ConfigValidator] keeps. *)
Record ValidationResult := {
  vr_diagnostics : list ValidationDiagnostic;
  vr_overflowed : bool;
  vr_identities : list (string * string);
}.

Definition empty_result : ValidationResult :=
  {| vr_diagnostics := []; vr_overflowed := false; vr_identities := [] |}.

(** [s[:n]] *)
Fixpoint prefix_text (n : nat) (s : string) : string :=
  match n, s with
  | S n, String c s => String c (prefix_text n s)
  | _, _ => EmptyString
  end.

(** [ValidationResult._source_for] *)
Definition source_for (files : source_files) (location : list string) : string :=
  let key :=
    if (2 <=? length location)%nat && bool_decide (head location = Some "workflows")
    then firstn 2 location else firstn 1 location in
  default (string_join "/" (key ++ ["declaration.yaml"])) (dict_get key files).

(** [self._diagnostics[-1] = d] *)
Definition set_last {A} (d : A) (l : list A) : list A := removelast l ++ [d].

(** [ValidationResult.add] *)
Definition add (files : source_files) (location message : string) (category : DiagnosticCategory)
    (severity : DiagnosticSeverity) (r : ValidationResult) : ValidationResult :=
  let structured := string_split "."%char location in
  if (MAX_DIAGNOSTICS <=? length (vr_diagnostics r))%nat then
    if vr_overflowed r then r
    else {| vr_diagnostics := set_last
              {| vd_source_file := source_for files structured; vd_location := ["diagnostics"];
                 vd_category := LIMIT; vd_message := "Additional configuration diagnostics were omitted";
                 vd_severity := ERROR |} (vr_diagnostics r);
            vr_overflowed := true; vr_identities := vr_identities r |}
  else {| vr_diagnostics := vr_diagnostics r ++
            [{| vd_source_file := source_for files structured; vd_location := structured;
                vd_category := category; vd_message := prefix_text MAX_DIAGNOSTIC_MESSAGE_LENGTH message;
                vd_severity := severity |}];
          vr_overflowed := vr_overflowed r; vr_identities := vr_identities r |}.

(** The findings of a validator, in order; [Raise] when an exception escapes. *)
Fixpoint collect (files : source_files) (findings : list finding) (r : ValidationResult)
  : result string ValidationResult :=
  match findings with
  | [] => Ok r
  | Report location message category severity :: l => collect files l (add files location message category severity r)
  | Identity location identity :: l =>
      collect files l {| vr_diagnostics := vr_diagnostics r; vr_overflowed := vr_overflowed r;
                         vr_identities := dict_set location identity (vr_identities r) |}
  | Escape n :: _ => Raise n
  end.

(** [ValidationResult.diagnostics], [errors], [warnings] and [is_valid] *)
Definition diagnostics (r : ValidationResult) : list ValidationDiagnostic :=
  sort_by diagnostic_compare (vr_diagnostics r).

Definition with_severity (s : DiagnosticSeverity) (r : ValidationResult) : list ValidationDiagnostic :=
  List.filter (fun d => bool_decide (vd_severity d = s)) (diagnostics r).

Definition errors (r : ValidationResult) : list ValidationDiagnostic := with_severity ERROR r.
Definition warnings (r : ValidationResult) : list ValidationDiagnostic := with_severity WARNING r.

Definition is_valid (r : ValidationResult) : bool := bool_decide (length (errors r) = 0)%nat.

(** [ValidationResult.raise_if_invalid]: the [ConfigValidationError] *)
Definition raise_if_invalid (r : ValidationResult) : result (string * list ValidationDiagnostic) unit :=
  if is_valid r then Ok tt
  else Raise ("Configuration validation failed:" +:+ String "010"%char
                (string_join (String "010"%char "") (map (fun e => "  - " +:+ diagnostic_text e) (errors r))),
              errors r).

(** ** Facts *)

Definition is_error (f : finding) : bool :=
  match f with Report _ _ _ ERROR => true | _ => false end.

Definition is_report (f : finding) : bool := match f with Report _ _ _ _ => true | _ => false end.
Definition is_escape (f : finding) : bool := match f with Escape _ => true | _ => false end.

Definition error_diagnostic (d : ValidationDiagnostic) : Prop := vd_severity d = ERROR.

Lemma prefix_text_length n s : (String.length (prefix_text n s) <= n)%nat.
Proof. revert s. induction n as [|n IH]; intros [|c s]; cbn; try lia. specialize (IH s). lia. Qed.

(** What every result holds. *)
Record result_inv (r : ValidationResult) : Prop := {
  ri_length : (length (vr_diagnostics r) <= MAX_DIAGNOSTICS)%nat;
  ri_messages : Forall (fun d => bounded_message d = true) (vr_diagnostics r);
  ri_overflow : vr_overflowed r = true ->
    length (vr_diagnostics r) = MAX_DIAGNOSTICS /\ Exists error_diagnostic (vr_diagnostics r);
}.

Lemma empty_result_inv : result_inv empty_result.
Proof. constructor; cbn; [unfold MAX_DIAGNOSTICS; lia|constructor|done]. Qed.

Lemma set_last_length {A} (d : A) l : l <> [] -> length (set_last d l) = length l.
Proof.
  intros Hl. destruct l as [|x l _] using rev_ind; [done|]. unfold set_last. by rewrite removelast_last, !length_app.
Qed.

Lemma add_inv files location message category severity r :
  result_inv r -> result_inv (add files location message category severity r).
Proof.
  intros [Hl Hm Ho]. unfold add. destruct (Nat.leb_spec MAX_DIAGNOSTICS (length (vr_diagnostics r))) as [Hmax|Hmax].
  - destruct (vr_overflowed r) eqn:Hv; [by constructor; rewrite ?Hv|].
    assert (vr_diagnostics r <> []) as Hne by (intros H; rewrite H in Hmax; unfold MAX_DIAGNOSTICS in Hmax; cbn in Hmax; lia).
    constructor; cbn [vr_diagnostics vr_overflowed].
    + by rewrite set_last_length.
    + unfold set_last. apply Forall_app. split; [|by repeat constructor].
      destruct (vr_diagnostics r) as [|d l _] using rev_ind; [done|]. rewrite removelast_last.
      by apply Forall_app in Hm as [? _].
    + intros _. rewrite set_last_length by done. split; [lia|]. apply Exists_app. right. by constructor.
  - constructor; cbn [vr_diagnostics vr_overflowed].
    + rewrite length_app. cbn. lia.
    + apply Forall_app. split; [done|]. constructor; [|done]. unfold bounded_message. cbn [vd_message].
      apply Nat.leb_le, prefix_text_length.
    + intros H. destruct (Ho H). lia.
Qed.

Lemma collect_inv files findings r r' : collect files findings r = Ok r' -> result_inv r -> result_inv r'.
Proof.
  revert r. induction findings as [|[l m c s|l i|n] findings IH]; intros r; cbn.
  - by intros [= ->].
  - intros H Hr. apply (IH _ H). by apply add_inv.
  - intros H [Hl Hm Ho]. apply (IH _ H). by constructor.
  - done.
Qed.

Lemma is_valid_spec r : is_valid r = true <-> Forall (fun d => vd_severity d <> ERROR) (vr_diagnostics r).
Proof.
  unfold is_valid, errors, with_severity, diagnostics.
  pose proof (sort_by_Permutation diagnostic_compare (vr_diagnostics r)) as Hp.
  set (l := sort_by diagnostic_compare (vr_diagnostics r)) in *. clearbody l.
  rewrite <- Hp, bool_decide_eq_true. clear Hp.
  induction l as [|d l IH]; cbn; [split; [constructor|done]|].
  rewrite Forall_cons. destruct (bool_decide (vd_severity d = ERROR)) eqn:Hd; cbn.
  - apply bool_decide_eq_true in Hd. split; [done|]. by intros [? _].
  - apply bool_decide_eq_false in Hd. rewrite IH. tauto.
Qed.

Lemma overflowed_invalid r : result_inv r -> vr_overflowed r = true -> is_valid r = false.
Proof.
  intros [_ _ Ho] Hv. destruct (Ho Hv) as [_ He]. apply not_true_iff_false. rewrite is_valid_spec.
  intros Hf. apply Exists_exists in He as (d & Hd & He). rewrite Forall_forall in Hf. by apply (Hf d).
Qed.

Lemma collect_overflowed files findings r r' :
  collect files findings r = Ok r' -> vr_overflowed r = true -> vr_overflowed r' = true.
Proof.
  revert r. induction findings as [|[l m c s|l i|n] findings IH]; intros r; cbn.
  - by intros [= ->].
  - intros H Hr. apply (IH _ H). unfold add. by destruct (_ <=? _)%nat; rewrite ?Hr.
  - intros H Hr. by apply (IH _ H).
  - done.
Qed.

Definition reports (l : list finding) : nat := length (List.filter is_report l).

Lemma collect_valid_from files findings r r' :
  result_inv r -> vr_overflowed r = false -> collect files findings r = Ok r' ->
  is_valid r' = true <->
  is_valid r = true /\ (forall f, f ∈ findings -> is_error f = false) /\
  (length (vr_diagnostics r) + reports findings <= MAX_DIAGNOSTICS)%nat.
Proof.
  revert r. induction findings as [|f findings IH]; intros r Hinv Hov Hc.
  - cbn in Hc. injection Hc as ->. pose proof (ri_length _ Hinv). unfold reports. cbn.
    split; [|tauto]. intros. split; [done|]. split; [by intros ? ?%not_elem_of_nil|lia].
  - assert (forall P, (forall g, g ∈ f :: findings -> P g) <-> P f /\ forall g, g ∈ findings -> P g) as Hall.
    { intros P. split; [intros H; split; [apply H; left|intros; apply H; by right]|].
      intros [? ?] g [->|?]%elem_of_cons; auto. }
    rewrite (Hall (fun g => is_error g = false)). destruct f as [l m c s|l i|n]; cbn [collect] in Hc; [| |done].
    + pose proof (add_inv files l m c s r Hinv) as Hinv'. unfold reports in *. cbn [List.filter is_report length].
      destruct (Nat.leb_spec MAX_DIAGNOSTICS (length (vr_diagnostics r))) as [Hmax|Hmax].
      * assert (vr_overflowed (add files l m c s r) = true) as Ho'.
        { unfold add. apply Nat.leb_le in Hmax. by rewrite Hmax, Hov. }
        apply (collect_overflowed _ _ _ _ Hc) in Ho' as Ho''.
        rewrite (overflowed_invalid r') by (done || by eapply collect_inv). split; [done|]. lia.
      * assert (vr_overflowed (add files l m c s r) = false) as Ho' by (unfold add; apply Nat.leb_gt in Hmax; by rewrite Hmax).
        rewrite (IH _ Hinv' Ho' Hc), !is_valid_spec. unfold add at 1 2. rewrite (proj2 (Nat.leb_gt _ _) Hmax).
        cbn [vr_diagnostics]. rewrite Forall_app, Forall_singleton, length_app. cbn.
        destruct s; cbn; (split; [intros ((? & ?) & ? & ?)|intros (? & (? & ?) & ?)]); repeat split; try done; lia.
    + match type of Hc with collect _ _ ?r1 = _ => assert (result_inv r1) as Hinv1 by (by destruct Hinv; constructor) end.
      rewrite (IH _ Hinv1 Hov Hc), !is_valid_spec. unfold reports. cbn. tauto.
Qed.

Lemma collect_valid files findings r :
  collect files findings empty_result = Ok r ->
  is_valid r = true <-> (forall f, f ∈ findings -> is_error f = false) /\ (reports findings <= MAX_DIAGNOSTICS)%nat.
Proof.
  intros Hc. rewrite (collect_valid_from _ _ _ _ empty_result_inv eq_refl Hc). cbn. tauto.
Qed.

Lemma collect_ok files findings r : is_ok (collect files findings r) = true <-> forall f, f ∈ findings -> is_escape f = false.
Proof.
  revert r. induction findings as [|f findings IH]; intros r; cbn; [split; [by intros _ f ?%not_elem_of_nil|done]|].
  destruct f as [l m c s|l i|n]; [rewrite IH..|].
  1,2: split; [intros H f [->|Hf]%elem_of_cons; [done|by apply H]|intros H f Hf; apply H; by right].
  split; [done|]. intros H. by specialize (H (Escape n) (list_elem_of_here _ _)).
Qed.
