(* ===== verification/Validation.v ===== *)
(** Cross-checks of a configuration: the validation of one workflow
    ([config/_workflow_validation.py]) and of the whole ([config/validator.py]).  A
    validator is the list of its findings in order ([Diagnostics.finding]); where the
    code iterates over a set of texts, the order is that of [remove_dups].  The import of
    an evaluator is a parameter. *)

From S2P Require Export Diagnostics Registries Contracts Analysis ActivationPlanning.

#[export] Instance branch_condition_eq_dec : EqDecision branch_condition.
Proof. solve_decision. Defined.

(** ** References of a condition ([engine/evaluator.py]) *)

Record ConditionReference := {
  cf_root : string;
  cf_path : list path_token;
  cf_optional : bool;
}.

#[export] Instance ConditionReference_eq_dec : EqDecision ConditionReference.
Proof. solve_decision. Defined.

(** [f"{type(token).__name__}:{token}"] *)
Definition typed_token (t : path_token) : string :=
  match t with TKey _ => "str:" | TIndex _ => "int:" | TBool _ => "bool:" end +:+ token_text t.

Definition reference_compare (a b : ConditionReference) : comparison :=
  texts_compare (cf_root a :: map typed_token (cf_path a)) (cf_root b :: map typed_token (cf_path b)).

(** The node of a reference, with its own checks. *)
Definition node_reference (optional : bool) (node : expr) : res (list ConditionReference) :=
  match reference_parts node with
  | Some (root, path) =>
      Ok (if is_reference_root root then [{| cf_root := root; cf_path := path; cf_optional := optional |}] else [])
  | None => raise (ExpressionSyntaxError "") "invalid reference root"
  end.

(** [visit(node, optional=optional)] of [condition_references] *)
Fixpoint visit_references (optional : bool) (node : expr) : res (list ConditionReference) :=
  match node with
  | ECall (EName id) (arg :: _) _ => visit_references (bool_decide (id = "exists")) arg
  | EName _ | EAttribute _ _ | ESubscript _ _ => node_reference optional node
  | EBoolOp _ values => @concat _ <$> traverse (visit_references optional) values
  | EUnaryOp _ operand => visit_references optional operand
  | ECompare lhs comparisons =>
      l ← visit_references optional lhs;
      ls ← traverse (fun c => visit_references optional c.2) comparisons;
      Ok (l ++ concat ls)
  | ECall func args _ =>
      l ← visit_references optional func; ls ← traverse (visit_references optional) args; Ok (l ++ concat ls)
  | EConstant _ => Ok []
  | EList elts | ETuple elts => @concat _ <$> traverse (visit_references optional) elts
  | EOther _ children => @concat _ <$> traverse (visit_references optional) children
  end.

(** [condition_references] *)
Definition condition_references `{PyParser} (expression : string) : res (list ConditionReference) :=
  tree ← parse_condition expression;
  references ← visit_references false tree;
  Ok (sort_by reference_compare (remove_dups references)).

(** ** Evaluators *)

(** The import of an evaluator's dotted path: a failure that the validator reports, any
    other exception, or an object that is not callable, does not accept the arguments, or
    is an evaluator. *)
Inductive evaluator_import :=
| EvaluatorMissing
| EvaluatorRaises (type_name : string)
| NotCallable
| WrongSignature
| Evaluator.

Class EvaluatorLibrary := { import_evaluator : string -> string -> evaluator_import }.

(** [_evaluator_import_error]; [Raise] when another exception escapes. *)
Definition evaluator_import_error `{EvaluatorLibrary} (dotted_path : string) : result string (option string) :=
  let missing := Ok (Some ("Evaluator " +:+ quoted dotted_path +:+ " is not importable")) in
  match rpartition_dot dotted_path with
  | None => missing
  | Some (module_path, attribute_name) =>
      match import_evaluator module_path attribute_name with
      | EvaluatorMissing => missing
      | EvaluatorRaises n => Raise n
      | NotCallable => Ok (Some ("Evaluator " +:+ quoted dotted_path +:+ " is not callable"))
      | WrongSignature =>
          Ok (Some ("Evaluator " +:+ quoted dotted_path
                    +:+ " must accept one data argument and the 'resources' keyword argument"))
      | Evaluator => Ok None
      end
  end.

(** ** Findings *)

(** [result.add(location, message)] with its default category and severity *)
Definition semantic (location message : string) : finding := Report location message SEMANTIC ERROR.
Definition broken_reference (location message : string) : finding := Report location message REFERENCE ERROR.

(** [if cond: ...] *)
Definition findings_when (cond : bool) (l : list finding) : list finding := if cond then l else [].

(** The findings for a text that is not [None]. *)
Definition findings_for {A} (f : A -> list finding) (o : option A) : list finding :=
  match o with Some a => f a | None => [] end.

(** [sorted(name for name, count in Counter(l).items() if count > 1)] *)
Definition duplicates (l : list string) : list string :=
  sorted_set (List.filter (fun x => (1 <? length (List.filter (String.eqb x) l))%nat) l).

(** A recursion that Python would end with [RecursionError]. *)
Definition recursion_limited {A} (o : option (cres A)) : cres A :=
  default (Raise (Escaped "RecursionError")) o.

Definition INPUT_ROOT_NAME : string := INPUT_ROOT.
Definition COLLECTION_SCHEMA_TYPES : list SchemaValueType := [TypeArray; TypeObject].
Definition DEADLINE_SCHEMA_TYPES : list SchemaValueType := [TypeInteger; TypeNumber; TypeString].

Definition mem (x : string) (l : list string) : bool := bool_decide (x ∈ l).

(** ** One workflow *)

(** [_WorkflowValidationContext] *)
Record validation_context := {
  vc_workflow : WorkflowConfig;
  vc_location : string;
  vc_step_names : list string;
  vc_step_definition_names : list string;
  vc_namespaces : list string;
}.

(** [_WorkflowValidator._context] *)
Definition context_of (workflow_name : string) (w : WorkflowConfig) : validation_context :=
  let step_names := map st_name (wc_flow w) in
  {| vc_workflow := w;
     vc_location := "workflows." +:+ workflow_name;
     vc_step_names := step_names;
     vc_step_definition_names := dict_keys (wc_steps w);
     vc_namespaces := step_names ++ omap (fun s => nonempty (st_output s)) (wc_flow w) ++ dict_keys (wc_params w)
       ++ (if isSome (wc_on_error w) || existsb (fun s => isSome (nonempty (st_on_failure s))) (wc_flow w)
           then ["error"] else []) |}.

(** [alias_producers.setdefault(step.output, []).append(step.name)] *)
Definition alias_producers (flow : list FlowStep) : list (string * list string) :=
  foldl (fun d s =>
    match st_output s with
    | Some o => dict_set o (default [] (dict_get o d) ++ [st_name s]) d
    | None => d
    end) [] flow.

(** [_validate_namespaces] *)
Definition validate_namespaces (cx : validation_context) : list finding :=
  let w := vc_workflow cx in
  let location := vc_location cx in
  let reserved_aliases := RESERVED_DATA_ROOTS ++ dict_keys (wc_params w) ++ vc_step_names cx in
  match duplicates (vc_step_names cx) with
  | [] => []
  | names => [semantic location ("Duplicate flow step names: " +:+ repr_texts names)]
  end
  ++ map (fun p => semantic (location +:+ ".params." +:+ p)
       ("Workflow parameter " +:+ quoted p +:+ " collides with a reserved engine root"))
       (sorted_set (List.filter (fun p => mem p (dict_keys (wc_params w))) RESERVED_DATA_ROOTS))
  ++ concat (map (fun s =>
       findings_when (mem (st_name s) RESERVED_DATA_ROOTS)
         [semantic (location +:+ ".flow." +:+ st_name s)
            ("Flow step " +:+ quoted (st_name s) +:+ " collides with a reserved engine root")]
       ++ findings_for (fun v => findings_when (mem v RESERVED_DATA_ROOTS)
            [semantic (location +:+ ".flow." +:+ st_name s +:+ ".as")
               ("Iteration variable " +:+ quoted v +:+ " collides with a reserved engine root")])
            (st_as_var s)) (wc_flow w))
  ++ concat (map (fun s => findings_for (fun o => findings_when (mem o reserved_aliases)
       [semantic (location +:+ ".flow." +:+ st_name s)
          ("Output alias " +:+ quoted o +:+ " collides with a reserved root, workflow parameter, or flow step")])
       (st_output s)) (wc_flow w))
  ++ concat (map (fun ap => findings_when (1 <? length ap.2)%nat
       [semantic location ("Output alias " +:+ quoted ap.1 +:+ " has more than one producer: " +:+ repr_texts ap.2)])
       (alias_producers (wc_flow w)))
  ++ findings_for (fun target => findings_when (negb (mem target (vc_step_names cx)))
       [semantic (location +:+ ".on_error") ("on_error target " +:+ quoted target +:+ " not found in flow")])
       (wc_on_error w).

(** ** Paths in declared schemas *)

Section paths.
Context `{ContractLibrary}.

(** [_inspect_declared_path] *)
Definition inspect_declared_path (schema : option json) (path : list path_token) : cres SchemaPathResult :=
  match schema with
  | None => Ok (path_result None)
  | Some schema => recursion_limited (inspect_schema_path schema path)
  end.

(** The definition of the operation of a step. *)
Definition step_definition (w : WorkflowConfig) (s : FlowStep) : option StepDefinition :=
  op ← st_op s; dict_get op (wc_steps w).

(** [producer.output or producer.name] *)
Definition output_key (s : FlowStep) : string := default (st_name s) (nonempty (st_output s)).

(** The part of [_inspect_workflow_components] for a root that is not a step. *)
Definition inspect_alias (root : string) (path : list path_token) (w : WorkflowConfig) : cres SchemaPathResult :=
  let producer :=
    match List.filter (fun s => negb (st_terminal s) && String.eqb (output_key s) root) (wc_flow w) with
    | [s] => Some s
    | _ => None
    end in
  let otherwise :=
    match wc_input_schema w with
    | Some schema =>
        if mem root (dict_keys (wc_params w)) then recursion_limited (inspect_schema_path schema (TKey root :: path))
        else if bool_decide (root = "request_id")
        then recursion_limited (inspect_schema_path (JDict [("type", JStr "string")]) path)
        else Ok (path_result None)
    | None =>
        if bool_decide (root = "request_id")
        then recursion_limited (inspect_schema_path (JDict [("type", JStr "string")]) path)
        else Ok (path_result None)
    end in
  match producer with
  | Some s =>
      if isSome (st_op s) then
        if isSome (st_for_each s) && negb (bool_decide (path = [])) then Ok (path_result None)
        else
          match step_definition w s ≫= sd_output_schema with
          | Some schema => recursion_limited (inspect_schema_path schema path)
          | None => otherwise
          end
      else otherwise
  | None => otherwise
  end.

(** [_inspect_workflow_components] *)
Definition inspect_workflow_components (root : string) (path : list path_token) (w : WorkflowConfig)
  : cres SchemaPathResult :=
  match dict_get root (steps_dict w) with
  | Some producer =>
      let output_schema := default (JBool true) (step_definition w producer ≫= sd_output_schema) in
      if isSome (st_for_each producer) && (1 <? length path)%nat then Ok (path_result None)
      else recursion_limited (inspect_schema_path
             (JDict [("type", JStr "object"); ("properties", JDict [(output_key producer, output_schema)]);
                     ("additionalProperties", JBool false)]) path)
  | None => inspect_alias root path w
  end.

(** [_inspect_workflow_reference] *)
Definition inspect_workflow_reference (reference : ReferencePath) (w : WorkflowConfig) : cres SchemaPathResult :=
  inspect_workflow_components (rp_root reference) (rp_path reference) w.
End paths.

(** The findings from a result of the inspection, or the exception that escapes. *)
Definition findings_of_path (f : SchemaPathResult -> list finding) (r : cres SchemaPathResult) : list finding :=
  match r with Ok status => f status | Raise e => [Escape (contract_message e)] end.

(** [_add_schema_path_error] *)
Definition schema_path_error (location reference : string) (status : SchemaPathResult) : list finding :=
  findings_when (exists_false status)
    [broken_reference location
       ("Reference " +:+ quoted reference +:+ " is invalid for its declared schema: "
        +:+ default "path is not declared" (nonempty (sp_detail status)))].

(** [_add_schema_type_error] *)
Definition schema_type_error (location field : string) (allowed : list SchemaValueType) (expectation : string)
    (status : SchemaPathResult) : list finding :=
  match sp_value_types status with
  | None => []
  | Some types =>
      findings_when (negb (existsb (fun t => bool_decide (t ∈ allowed)) types))
        [Report location (field +:+ " resolves to schema-known " +:+ value_types_text types +:+ ", expected " +:+ expectation)
           DECLARATION ERROR]
  end.

(** ** The validator of one workflow *)

Section workflow_validator.
Context `{ContractLibrary, EvaluatorLibrary, PyParser, Sha256, FloatRepr}.
Context {C T : Type}.

(** The fields of [_WorkflowValidator] *)
Record WorkflowValidator := {
  wv_resources : list (string * ResourceConfig);
  wv_services : list (string * ServiceConfig);
  wv_workflows : list (string * WorkflowConfig);
  wv_resolved_resources : list (string * ResolvedResource C);
  wv_resolved_services : list (string * ResolvedTransport T);
  wv_check_imports : bool;
  wv_transport_registry : list (string * TransportProvider T);
  wv_limits : RuntimeLimits;
}.

Variable v : WorkflowValidator.

(** [_validate_contract] *)
Definition validate_contract (location : string) (schema : option json) : list finding :=
  match schema with
  | None => []
  | Some schema =>
      if match schema with JStr _ => negb (wv_check_imports v) | _ => false end then []
      else
        match recursion_limited (validate_contract_declaration schema) with
        | Ok digest => [Identity location digest]
        | Raise (SchemaDeclarationError m) | Raise (SchemaLoadError m) => [Report location m DECLARATION ERROR]
        | Raise e => [Escape (contract_message e)]
        end
  end.

(** The [fields] of [_validate_workflow_placeholders] *)
Definition placeholder_fields (w : WorkflowConfig) : list (string * raw) :=
  [("params", raw_fields (map (fun kv => (kv.1, RStr kv.2)) (wc_params w)))]
  ++ match wc_on_complete w with Some c => [("on_complete.path", RStr (oc_path c))] | None => [] end
  ++ concat (map (fun kv : string * StepDefinition =>
       let (operation, definition) := kv in
       [("steps." +:+ operation +:+ ".params", raw_fields (sd_params definition))]
       ++ match sd_cache definition with
          | Some cache => [("steps." +:+ operation +:+ ".cache.key", RStr (cc_key cache))]
          | None => []
          end
       ++ match sd_target definition with
          | ServiceOperationTarget service _ =>
              match dict_get service (wv_services v) with
              | Some s => [("services." +:+ service +:+ ".params", raw_fields (sv_params s))]
              | None => []
              end
          | ChildWorkflowTarget _ => []
          end) (wc_steps w))
  ++ map (fun s => ("flow." +:+ st_name s +:+ ".params", raw_fields (st_params s))) (wc_flow w).

(** [_validate_workflow_placeholders] *)
Definition validate_workflow_placeholders (location : string) (w : WorkflowConfig) : list finding :=
  let allowed := dict_keys (wc_params w) ++ ["request_id"] in
  concat (map (fun field : string * raw =>
    match placeholder_names field.2 with
    | Raise e => [Escape (class_name (exn_cls e))]
    | Ok placeholders =>
        match sorted_set (List.filter (fun x => negb (mem x allowed)) placeholders) with
        | [] => []
        | missing => [broken_reference (location +:+ "." +:+ field.1)
                        ("Placeholders require undeclared trigger globals: " +:+ repr_texts missing)]
        end
    end) (placeholder_fields w)).

(** [_validate_contracts_and_result] *)
Definition validate_contracts_and_result (cx : validation_context) : list finding :=
  let w := vc_workflow cx in
  let location := vc_location cx in
  validate_contract (location +:+ ".input_schema") (wc_input_schema w)
  ++ validate_contract (location +:+ ".output_schema") (wc_output_schema w)
  ++ validate_workflow_placeholders location w
  ++ match wc_result w with
     | None => []
     | Some reference =>
         if negb (mem (rp_root reference) (vc_namespaces cx)) then
           [broken_reference (location +:+ ".result")
              ("result reference " +:+ quoted (rp_value reference) +:+ ": " +:+ quoted (rp_root reference)
               +:+ " is not a flow step, output alias, or workflow param")]
         else findings_of_path (schema_path_error (location +:+ ".result") (rp_value reference))
                (inspect_workflow_reference reference w)
     end.

Definition capture_payload_bytes (c : AuditCaptureConfig) : option Z :=
  match c with
  | MetadataOnlyAuditCapture => None
  | RedactedAuditCapture _ n | ApprovedFullAuditCapture n => Some n
  end.

(** [_validate_completion] *)
Definition validate_completion (cx : validation_context) : list finding :=
  match wc_on_complete (vc_workflow cx) with
  | None => []
  | Some completion =>
      let location := vc_location cx +:+ ".on_complete" in
      match dict_get (oc_resource completion) (wv_resolved_resources v) with
      | None => findings_when (negb (dict_mem (oc_resource completion) (wv_resources v)))
          [semantic location ("Resource " +:+ quoted (oc_resource completion) +:+ " not found in resources.yaml")]
      | Some archive =>
          match require_capability archive ARCHIVE with
          | Ok _ => []
          | Raise m => [semantic (location +:+ ".resource") m]
          end
      end
      ++ match capture_payload_bytes (oc_capture completion) with
         | Some n =>
             findings_when (audit_record_bytes (wv_limits v) <? n)%Z
               [Report (location +:+ ".capture.max_payload_bytes")
                  ("Declared audit payload bound " +:+ Z_to_string n +:+ " exceeds the effective audit record limit "
                   +:+ Z_to_string (audit_record_bytes (wv_limits v))) LIMIT ERROR]
         | None => []
         end
  end.

(** [_validate_step_target] *)
Definition validate_step_target (location : string) (d : StepDefinition) : list finding :=
  match sd_target d with
  | ChildWorkflowTarget workflow => findings_when (negb (dict_mem workflow (wv_workflows v)))
      [semantic location ("Sub-workflow " +:+ quoted workflow +:+ " not found in loaded workflows")]
  | ServiceOperationTarget service action =>
      if negb (dict_mem service (wv_services v))
      then [semantic location ("Service " +:+ quoted service +:+ " not found in services.yaml")]
      else
        match dict_get service (wv_resolved_services v) with
        | None => []
        | Some s =>
            match validate_action (wv_transport_registry v) s action with
            | Raise e => [semantic location (registry_message e)]
            | Ok action_error => findings_for (fun m => [semantic location m]) action_error
            end
        end
  end.

(** [_validate_required_resources] *)
Definition validate_required_resources (location : string) (d : StepDefinition) : list finding :=
  concat (map (fun name => findings_when (negb (dict_mem name (wv_resources v)))
    [semantic location ("Required resource " +:+ quoted name +:+ " not found in resources.yaml")])
    (sd_required_resources d))
  ++ match duplicates (sd_required_resources d) with
     | [] => []
     | grants => [semantic (location +:+ ".required_resources") ("Duplicate resource grants: " +:+ repr_texts grants)]
     end.

(** [_validate_step_cache] *)
Definition validate_step_cache (location : string) (d : StepDefinition) : list finding :=
  match sd_cache d with
  | None => []
  | Some cache =>
      match dict_get (cc_resource cache) (wv_resolved_resources v) with
      | None => findings_when (negb (dict_mem (cc_resource cache) (wv_resources v)))
          [semantic location ("Cache resource " +:+ quoted (cc_resource cache) +:+ " not found in resources.yaml")]
      | Some resource =>
          match require_capability resource CACHE with
          | Ok _ => []
          | Raise m => [semantic (location +:+ ".cache.resource") m]
          end
      end
  end.

(** [_validate_step_definition] *)
Definition validate_step_definition (cx : validation_context) (step_name : string) (d : StepDefinition) : list finding :=
  let location := vc_location cx +:+ ".steps." +:+ step_name in
  validate_contract (location +:+ ".input_schema") (sd_input_schema d)
  ++ validate_contract (location +:+ ".output_schema") (sd_output_schema d)
  ++ validate_step_target location d
  ++ validate_required_resources location d
  ++ validate_step_cache location d.

(** [_validate_step_definitions] *)
Definition validate_step_definitions (cx : validation_context) : list finding :=
  concat (map (fun kv => validate_step_definition cx kv.1 kv.2) (wc_steps (vc_workflow cx))).

(** ** Steps of the flow *)

(** One bound of [_validate_flow_step_limits] *)
Definition exceeds_limit (location kind : string) (declared : option Z) (limit : Z) : list finding :=
  findings_for (fun n => findings_when (limit <? n)%Z
    [Report location ("Declared " +:+ kind +:+ " bound " +:+ Z_to_string n +:+ " exceeds the effective limit "
                      +:+ Z_to_string limit) LIMIT ERROR]) declared.

(** [_validate_flow_step_limits] *)
Definition validate_flow_step_limits (location : string) (s : FlowStep) : list finding :=
  exceeds_limit (location +:+ ".max_iterations") "iteration" (st_max_iterations s)
    (Z.min (loop_attempts (wv_limits v)) (total_invocations (wv_limits v)))
  ++ exceeds_limit (location +:+ ".max_concurrency") "concurrency" (st_max_concurrency s)
       (Z.min (parallelism (wv_limits v)) (fanout_items (wv_limits v))).

(** [_validate_operation_reference] *)
Definition validate_operation_reference (cx : validation_context) (location : string) (s : FlowStep) : list finding :=
  match st_op s with
  | None => []
  | Some op =>
      match dict_get op (wc_steps (vc_workflow cx)) with
      | None => [semantic location ("Op " +:+ quoted op +:+ " not found in step definitions")]
      | Some d =>
          match sd_cache d with
          | Some cache =>
              findings_when (isSome (st_for_each s) || isSome (st_until s))
                [semantic location ("Step " +:+ quoted (st_name s) +:+ " uses operation " +:+ quoted op +:+ " with "
                   +:+ (if isSome (st_for_each s) then "for_each" else "until")
                   +:+ ", but that operation declares cache resource=" +:+ quoted (cc_resource cache)
                   +:+ " key=" +:+ quoted (cc_key cache))]
          | None => []
          end
      end
  end.

(** A target that is named must be a step. *)
Definition validate_flow_target (cx : validation_context) (location kind : string) (target : option string)
  : list finding :=
  findings_for (fun t => findings_when (negb (mem t (vc_step_names cx)))
    [semantic location (kind +:+ " target " +:+ quoted t +:+ " not found in flow")]) (nonempty target).

(** [_validate_failure_targets] *)
Definition validate_failure_targets (cx : validation_context) (location : string) (s : FlowStep) : list finding :=
  validate_flow_target cx location "on_exhausted" (st_on_exhausted s)
  ++ validate_flow_target cx location "on_failure" (st_on_failure s).

(** [_validate_wait_for] *)
Definition validate_wait_for (cx : validation_context) (location : string) (s : FlowStep) : list finding :=
  match st_wait_for s with
  | None => []
  | Some wait =>
      validate_flow_target cx location "on_timeout" (wf_on_timeout wait)
      ++ match wf_timeout_until wait with
         | None => []
         | Some reference =>
             if negb (mem (rp_root reference) (vc_namespaces cx)) then
               [broken_reference location
                  ("timeout_until reference " +:+ quoted (rp_value reference) +:+ ": " +:+ quoted (rp_root reference)
                   +:+ " is not a flow step, output alias, or workflow param")]
             else
               let timeout_location := location +:+ ".wait_for.timeout_until" in
               findings_of_path (fun status =>
                 schema_path_error timeout_location (rp_value reference) status
                 ++ schema_type_error timeout_location "timeout_until" DEADLINE_SCHEMA_TYPES
                      "an ISO-8601 string or epoch number" status)
                 (inspect_workflow_reference reference (vc_workflow cx))
         end
  end.

(** [_validate_output_alias] *)
Definition validate_output_alias (cx : validation_context) (location : string) (s : FlowStep) : list finding :=
  findings_for (fun o => findings_when (mem o (vc_step_names cx) && negb (bool_decide (o = st_name s)))
    [semantic location ("Output " +:+ quoted o +:+ " collides with flow step " +:+ quoted o)]) (nonempty (st_output s)).

(** [_validate_successor] *)
Definition validate_successor (cx : validation_context) (location : string) (s : FlowStep) : list finding :=
  validate_flow_target cx location "'then'" (st_then s).

(** [check_reference] of [_validate_step_references] *)
Definition check_reference (cx : validation_context) (location field : string) (r : ReferencePath) : list finding :=
  findings_when (negb (mem (rp_root r) (vc_namespaces cx)))
    [semantic location (field +:+ " reference " +:+ quoted (rp_value r) +:+ ": " +:+ quoted (rp_root r)
                        +:+ " is not a flow step, output alias, or workflow param")].

(** [check_condition_roots] of [_validate_step_references] *)
Definition check_condition_roots (cx : validation_context) (location field condition : string) : list finding :=
  match condition_reference_roots condition with
  | Raise e => [semantic location (field +:+ ": " +:+ exn_msg e)]
  | Ok roots =>
      concat (map (fun root => findings_when (negb (bool_decide (root = INPUT_ROOT)) && negb (mem root (vc_namespaces cx)))
        [semantic location (field +:+ " reference root " +:+ quoted root
                            +:+ " is not a flow step, output alias, or workflow param")]) (remove_dups roots))
  end.

(** The references of [step.input] *)
Definition input_references (i : input_spec) : list ReferencePath :=
  match i with
  | InputNone => []
  | InputRef r => [r]
  | InputDict d => d.*2
  | InputList l => l
  end.

(** [_validate_step_references] *)
Definition validate_step_references (cx : validation_context) (location : string) (s : FlowStep) : list finding :=
  concat (map (check_reference cx location "input") (input_references (st_input s)))
  ++ findings_for (fun r =>
       if bool_decide (rp_root r = INPUT_ROOT) then
         findings_when (negb (input_present (st_input s)))
           [semantic location ("for_each " +:+ quoted (rp_value r) +:+ " references the step input, but the step has no 'input'")]
       else check_reference cx location "for_each" r) (st_for_each s)
  ++ findings_for (check_condition_roots cx location "condition") (nonempty (st_condition s))
  ++ findings_for (check_condition_roots cx location "until") (nonempty (st_until s))
  ++ concat (map (fun b => match br_when b with
       | Some (WhenExpression c) => check_condition_roots cx location "on_result when" c
       | _ => []
       end) (branches s)).

(** [_validate_reference_fields] *)
Definition validate_reference_fields (cx : validation_context) (location : string) (s : FlowStep) : list finding :=
  concat (map (fun r => findings_of_path (schema_path_error (location +:+ ".input") (rp_value r))
    (inspect_workflow_reference r (vc_workflow cx))) (input_references (st_input s))).

(** [_validate_condition_schema_paths] *)
Definition validate_condition_schema_paths (w : WorkflowConfig) (input_schema : option json) (location condition : string)
  : list finding :=
  match condition_references condition with
  | Raise _ => []
  | Ok references =>
      concat (map (fun r =>
        if cf_optional r then []
        else
          findings_of_path
            (schema_path_error location (string_join "." (cf_root r :: map token_text (cf_path r))))
            (if bool_decide (cf_root r = INPUT_ROOT) then inspect_declared_path input_schema (cf_path r)
             else inspect_workflow_components (cf_root r) (cf_path r) w)) references)
  end.

(** [_validate_schema_semantics] *)
Definition validate_schema_semantics (cx : validation_context) (location : string) (s : FlowStep) : list finding :=
  let w := vc_workflow cx in
  let definition := step_definition w s in
  let input_schema := definition ≫= sd_input_schema in
  let output_schema := definition ≫= sd_output_schema in
  findings_for (fun r =>
    findings_of_path (fun status =>
      schema_path_error (location +:+ ".for_each") (rp_value r) status
      ++ schema_type_error (location +:+ ".for_each") "for_each" COLLECTION_SCHEMA_TYPES "an array or object" status)
      (if bool_decide (rp_root r = INPUT_ROOT) then inspect_declared_path input_schema (rp_path r)
       else inspect_workflow_reference r w)) (st_for_each s)
  ++ findings_for (validate_condition_schema_paths w input_schema (location +:+ ".condition")) (st_condition s)
  ++ findings_for (validate_condition_schema_paths w output_schema (location +:+ ".until")) (st_until s)
  ++ concat (imap (fun index b => match br_when b with
       | Some (WhenExpression c) =>
           validate_condition_schema_paths w output_schema
             (location +:+ ".on_result." +:+ nat_to_string index +:+ ".when") c
       | _ => []
       end) (branches s)).

(** [_duplicate_result_condition_pairs]: [seen] is a dict from conditions to indexes. *)
Fixpoint duplicate_pairs (index : nat) (seen : list (branch_condition * nat)) (l : list OnResultBranch)
  : list (nat * nat) :=
  match l with
  | [] => []
  | b :: l =>
      match br_when b with
      | None => duplicate_pairs (S index) seen l
      | Some condition =>
          match dict_get condition seen with
          | Some first => (first, index) :: duplicate_pairs (S index) seen l
          | None => duplicate_pairs (S index) (dict_set condition index seen) l
          end
      end
  end.

Definition pairs_text (l : list (nat * nat)) : string :=
  "[" +:+ string_join ", " (map (fun p => "(" +:+ nat_to_string p.1 +:+ ", " +:+ nat_to_string p.2 +:+ ")") l) +:+ "]".

(** [_validate_evaluator_condition] *)
Definition validate_evaluator_condition (location evaluator : string) (resources : list string) : list finding :=
  match (if wv_check_imports v then evaluator_import_error evaluator else Ok None) with
  | Raise n => [Escape n]
  | Ok error => findings_for (fun m => [Report location m IMPORT ERROR]) error
  end
  ++ match duplicates resources with
     | [] => []
     | l => [semantic (location +:+ ".on_result") ("Duplicate evaluator resource grants: " +:+ repr_texts l)]
     end
  ++ concat (map (fun name => findings_when (negb (dict_mem name (wv_resources v)))
       [semantic location ("Evaluator resource " +:+ quoted name +:+ " not in resources.yaml")]) resources).

(** [branch.then or branch.default] *)
Definition branch_then (b : OnResultBranch) : option string :=
  match nonempty (br_then b) with Some t => Some t | None => br_default b end.

(** [_validate_result_branches] *)
Definition validate_result_branches (cx : validation_context) (location : string) (s : FlowStep) : list finding :=
  match branches s with
  | [] => []
  | l =>
      match duplicate_pairs 0 [] l with
      | [] => []
      | pairs => [semantic (location +:+ ".on_result")
                    ("Duplicate result conditions at branch indexes: " +:+ pairs_text pairs)]
      end
      ++ concat (map (fun b =>
           validate_flow_target cx location "on_result" (branch_then b)
           ++ match br_when b with
              | Some (WhenEvaluator evaluator resources) => validate_evaluator_condition location evaluator resources
              | _ => []
              end) l)
  end.

(** [_validate_flow_step] *)
Definition validate_step_of_flow (cx : validation_context) (s : FlowStep) : list finding :=
  let location := vc_location cx +:+ ".flow." +:+ st_name s in
  validate_flow_step_limits location s
  ++ validate_operation_reference cx location s
  ++ validate_failure_targets cx location s
  ++ validate_wait_for cx location s
  ++ validate_output_alias cx location s
  ++ validate_step_references cx location s
  ++ validate_reference_fields cx location s
  ++ validate_schema_semantics cx location s
  ++ validate_successor cx location s
  ++ validate_result_branches cx location s.

(** [_validate_flow] *)
Definition validate_flow_steps (cx : validation_context) : list finding :=
  concat (map (fun s => if st_terminal s then [] else validate_step_of_flow cx s) (wc_flow (vc_workflow cx))).

(** [_validate_unused_operations_and_analysis] *)
Definition validate_unused_operations_and_analysis (cx : validation_context) : list finding :=
  let w := vc_workflow cx in
  map (fun operation => Report (vc_location cx +:+ ".steps." +:+ operation)
    ("Operation definition " +:+ quoted operation +:+ " is not used by the workflow flow") LINT WARNING)
    (sorted_set (List.filter (fun op => negb (mem op (omap st_op (wc_flow w)))) (dict_keys (wc_steps w))))
  ++ map (fun issue => semantic (vc_location cx +:+ "." +:+ is_location issue) (is_message issue)) (analyze_workflow w).

(** [_WorkflowValidator.validate] *)
Definition validate_one_workflow (workflow_name : string) (w : WorkflowConfig) : list finding :=
  let cx := context_of workflow_name w in
  validate_namespaces cx
  ++ validate_contracts_and_result cx
  ++ validate_completion cx
  ++ validate_step_definitions cx
  ++ validate_flow_steps cx
  ++ validate_unused_operations_and_analysis cx.
End workflow_validator.

(** ** The whole configuration *)

(** The names of the children that a workflow's operations start. *)
Definition child_workflows (w : WorkflowConfig) : list string :=
  omap (fun kv => match sd_target kv.2 with ChildWorkflowTarget child => Some child | _ => None end) (wc_steps w).

(** *** Composition *)

Inductive visit_color := WHITE | GRAY | BLACK.

(** [edges[name]] *)
Definition composition_edges (workflows : list (string * WorkflowConfig)) (name : string) : list string :=
  match dict_get name workflows with
  | Some w => sorted_set (List.filter (fun child => dict_mem child workflows) (child_workflows w))
  | None => []
  end.

(** The variables that [visit] shares; the top of [stack] is its last entry. *)
Record composition_state := {
  cs_color : gmap string visit_color;
  cs_stack : list string;
  cs_cycles : list (list string);
}.

Definition color_of (st : composition_state) (name : string) : visit_color := default WHITE (cs_color st !! name).

Definition enter_workflow (name : string) (st : composition_state) : composition_state := {|
  cs_color := <[name := GRAY]> (cs_color st);
  cs_stack := cs_stack st ++ [name];
  cs_cycles := cs_cycles st;
|}.

Definition leave_workflow (name : string) (st : composition_state) : composition_state := {|
  cs_color := <[name := BLACK]> (cs_color st);
  cs_stack := removelast (cs_stack st);
  cs_cycles := cs_cycles st;
|}.

Definition report_cycle (target : string) (st : composition_state) : composition_state := {|
  cs_color := cs_color st;
  cs_stack := cs_stack st;
  cs_cycles := cs_cycles st ++ [drop_until target (cs_stack st) ++ [target]];
|}.

(** [visit(name)]; the fuel bounds the depth of the recursion. *)
Fixpoint visit_workflow (fuel : nat) (edges : string -> list string) (name : string) (st : composition_state)
  : composition_state :=
  match fuel with
  | O => st
  | S fuel =>
      leave_workflow name
        (foldl (fun st target =>
           match color_of st target with
           | GRAY => report_cycle target st
           | WHITE => visit_workflow fuel edges target st
           | BLACK => st
           end) (enter_workflow name st) (edges name))
  end.

(** The cycles that [_check_composition_cycles] finds: no more than all the workflows are
    on the stack. *)
Definition composition_cycles (workflows : list (string * WorkflowConfig)) : list (list string) :=
  cs_cycles (foldl (fun st name =>
    match color_of st name with
    | WHITE => visit_workflow (S (length workflows)) (composition_edges workflows) name st
    | _ => st
    end) {| cs_color := ∅; cs_stack := []; cs_cycles := [] |} (dict_keys workflows)).

(** [_check_composition_cycles] *)
Definition check_composition_cycles (workflows : list (string * WorkflowConfig)) : list finding :=
  map (fun cycle => semantic "workflows" ("Sub-workflow composition cycle: " +:+ string_join " -> " cycle))
    (composition_cycles workflows).

(** *** [ConfigValidator] *)

Section config_validator.
Context `{ContractLibrary, EvaluatorLibrary, PyParser, Sha256, FloatRepr}.
Context {C T : Type} (import_class : string -> string -> class_import C).

(** The fields of [ConfigValidator]; [cv_triggers] is [None] when no triggers are given. *)
Record ConfigValidator := {
  cv_resources : list (string * ResourceConfig);
  cv_services : list (string * ServiceConfig);
  cv_workflows : list (string * WorkflowConfig);
  cv_check_imports : bool;
  cv_transport_registry : list (string * TransportProvider T);
  cv_resource_registry : ResourceRegistry C;
  cv_limits : RuntimeLimits;
  cv_source_files : source_files;
  cv_triggers : option (list (string * TriggerDeclaration));
}.

(** The loop of [_validate_resources]: the findings, the resources that resolve and the
    registry, which keeps the classes it imported. *)
Fixpoint resolve_each_resource (registry : ResourceRegistry C) (declarations : list (string * ResourceConfig))
  : list finding * list (string * ResolvedResource C) * ResourceRegistry C :=
  match declarations with
  | [] => ([], [], registry)
  | (name, declaration) :: declarations =>
      let '(r, registry) := resolve_resource import_class registry name declaration in
      let '(findings, resolved, registry) := resolve_each_resource registry declarations in
      match r with
      | Ok resource => (findings, (name, resource) :: resolved, registry)
      | Raise e => (semantic ("resources." +:+ name) (registry_message e) :: findings, resolved, registry)
      end
  end.

(** [_validate_resources] *)
Definition validate_resources (cv : ConfigValidator)
  : list finding * list (string * ResolvedResource C) * ResourceRegistry C :=
  let '(findings, resolved, registry) := resolve_each_resource (cv_resource_registry cv) (cv_resources cv) in
  (findings ++ findings_when (length resolved =? length (cv_resources cv))%nat
     match resource_load_order resolved with
     | Ok _ => []
     | Raise e => [semantic "resources" (registry_message e)]
     end, resolved, registry).

(** One iteration of [_validate_services] *)
Definition validate_service (cv : ConfigValidator) (name : string) (declaration : ServiceConfig)
  : list finding * option (ResolvedTransport T) :=
  match resolve_service (cv_transport_registry cv) name declaration with
  | Raise e => ([semantic ("services." +:+ name) (registry_message e)], None)
  | Ok service =>
      (findings_when (cv_check_imports cv)
         match validate_startup (cv_transport_registry cv) service with
         | Raise e => [semantic ("services." +:+ name) (registry_message e)]
         | Ok startup_error => findings_for (fun m => [semantic ("services." +:+ name) m]) startup_error
         end, Some service)
  end.

(** [_validate_services] *)
Definition validate_services (cv : ConfigValidator) : list finding * list (string * ResolvedTransport T) :=
  (concat (map (fun kv => (validate_service cv kv.1 kv.2).1) (cv_services cv)),
   omap (fun kv => pair kv.1 <$> (validate_service cv kv.1 kv.2).2) (cv_services cv)).

Definition cv_trigger_list (cv : ConfigValidator) : list (string * TriggerDeclaration) := default [] (cv_triggers cv).

(** [_validate_triggers] *)
Definition validate_triggers (cv : ConfigValidator) : list finding :=
  concat (map (fun kv => findings_when (negb (dict_mem (td_workflow kv.2) (cv_workflows cv)))
    [broken_reference ("triggers." +:+ kv.1 +:+ ".workflow")
       ("Trigger references unknown workflow " +:+ quoted (td_workflow kv.2))]) (cv_trigger_list cv)).

(** [_validate_workflow_reachability] *)
Definition validate_workflow_reachability (cv : ConfigValidator) : list finding :=
  let triggered := map (fun kv => td_workflow kv.2) (cv_trigger_list cv) in
  let children := concat (map (fun kv => child_workflows kv.2) (cv_workflows cv)) in
  map (fun name => Report ("workflows." +:+ name)
    "Workflow is internal-only and is not referenced by another workflow" LINT WARNING)
    (sorted_set (List.filter (fun name => negb (mem name triggered) && negb (mem name children))
       (dict_keys (cv_workflows cv)))).

(** The [_WorkflowValidator] of a configuration. *)
Definition workflow_validator (cv : ConfigValidator) : WorkflowValidator (C := C) (T := T) := {|
  wv_resources := cv_resources cv; wv_services := cv_services cv; wv_workflows := cv_workflows cv;
  wv_resolved_resources := (validate_resources cv).1.2; wv_resolved_services := (validate_services cv).2;
  wv_check_imports := cv_check_imports cv; wv_transport_registry := cv_transport_registry cv;
  wv_limits := cv_limits cv;
|}.

(** The findings of [validate], in order. *)
Definition configuration_findings (cv : ConfigValidator) : list finding :=
  (validate_resources cv).1.1
  ++ (validate_services cv).1
  ++ concat (map (fun kv => validate_one_workflow (workflow_validator cv) kv.1 kv.2) (cv_workflows cv))
  ++ validate_triggers cv
  ++ findings_when (isSome (cv_triggers cv)) (validate_workflow_reachability cv)
  ++ check_composition_cycles (cv_workflows cv).

(** [ConfigValidator.validate] *)
Definition validate (cv : ConfigValidator) : result string ValidationResult :=
  collect (cv_source_files cv) (configuration_findings cv) empty_result.
End config_validator.
