(* ===== verification/ValidationFacts.v ===== *)
(** What a valid configuration guarantees ([Validation]): sub-workflows compose without
    cycles, and every workflow meets the conditions under which the runner is correct. *)

From S2P Require Export RegistryFacts ContractFacts AuditTrail Regions ScopeFacts Validation.

Lemma elem_sorted_set x l : x ∈ sorted_set l <-> x ∈ l.
Proof.
  unfold sorted_set, dict_keys. rewrite sort_keys_Permutation, <- list_fmap_compose. cbn.
  rewrite list_fmap_id. apply elem_of_remove_dups.
Qed.

Lemma sorted_set_nil l : sorted_set l = [] <-> l = [].
Proof.
  split; [|by intros ->]. intros H. destruct l as [|x l]; [done|]. exfalso.
  assert (x ∈ sorted_set (x :: l)) as Hx by (apply elem_sorted_set; left). rewrite H in Hx. by apply not_elem_of_nil in Hx.
Qed.

(** ** Composition *)

Section composition.
Context (workflows : list (string * WorkflowConfig)).

(** An operation of the workflow [x] starts the workflow [y] as a child. *)
Definition composes (x y : string) : Prop := y ∈ composition_edges workflows x.

Abbreviation nodes := (dict_keys workflows).

Lemma composes_nodes x y : composes x y -> x ∈ nodes /\ y ∈ nodes.
Proof.
  unfold composes, composition_edges. destruct (dict_get x workflows) as [w|] eqn:Hx; [|by intros ?%not_elem_of_nil].
  rewrite elem_sorted_set, list_elem_of_In, filter_In, dict_mem_true, dict_get_Some_keys. intros [_ ?].
  split; [|done]. apply dict_get_Some_keys. by exists w.
Qed.

Lemma composes_child x w child :
  dict_get x workflows = Some w -> child ∈ child_workflows w -> child ∈ nodes -> composes x child.
Proof.
  intros Hx Hc Hn. unfold composes, composition_edges. rewrite Hx, elem_sorted_set, list_elem_of_In, filter_In.
  split; [by apply list_elem_of_In|]. by apply dict_mem_true, dict_get_Some_keys.
Qed.

Record composition_inv (st : composition_state) : Prop := {
  ci_gray : forall x, color_of st x = GRAY <-> x ∈ cs_stack st;
  ci_nodup : NoDup (cs_stack st);
  ci_nodes : forall x, color_of st x <> WHITE -> x ∈ nodes;
  ci_walk : walk composes (cs_stack st);
  ci_cycles : Forall (is_cycle composes) (cs_cycles st);
  ci_black : cs_cycles st = [] -> exists l, descending composes l /\ forall x, color_of st x = BLACK <-> x ∈ l;
}.

(** What a visit leaves. *)
Definition composition_kept (st st' : composition_state) : Prop :=
  composition_inv st' /\ cs_stack st' = cs_stack st /\ cs_cycles st `prefix_of` cs_cycles st' /\
  forall x, color_of st x = BLACK -> color_of st' x = BLACK.

Lemma composition_kept_refl st : composition_inv st -> composition_kept st st.
Proof. done. Qed.

Lemma composition_kept_trans st1 st2 st3 :
  composition_kept st1 st2 -> composition_kept st2 st3 -> composition_kept st1 st3.
Proof.
  intros (_ & Hs & Hc & Hb) (Hi & Hs' & Hc' & Hb'). split; [done|]. split; [congruence|]. split; [by etransitivity|auto].
Qed.

Lemma color_of_insert st x c y :
  default WHITE (<[x := c]> (cs_color st) !! y) = if decide (x = y) then c else color_of st y.
Proof. unfold color_of. case_decide as H; [subst; by rewrite lookup_insert_eq|by rewrite lookup_insert_ne]. Qed.

Lemma enter_workflow_inv st x :
  composition_inv st -> color_of st x = WHITE -> x ∈ nodes -> walk composes (cs_stack st ++ [x]) ->
  composition_inv (enter_workflow x st).
Proof.
  intros [Hg Hnd Hn _ Hcy Hb] Hx Hin Hw.
  assert (x ∉ cs_stack st) as Hs by (rewrite <- Hg, Hx; done).
  constructor; cbn; try done.
  - intros y. unfold color_of. cbn. rewrite color_of_insert, elem_of_app, list_elem_of_singleton, <- Hg.
    case_decide; naive_solver.
  - apply NoDup_app. split; [done|]. split; [|apply NoDup_singleton]. intros y Hy ->%list_elem_of_singleton. done.
  - intros y. unfold color_of. cbn. rewrite color_of_insert. case_decide; [by subst|auto].
  - intros Hc. destruct (Hb Hc) as (l & Hl & Hbl). exists l. split; [done|]. intros y.
    unfold color_of. cbn. rewrite color_of_insert, <- Hbl. case_decide; [subst; rewrite Hx; done|done].
Qed.

Lemma leave_workflow_kept st st' x :
  composition_inv st -> color_of st x = WHITE -> composition_kept (enter_workflow x st) st' ->
  (cs_cycles st' = [] -> forall y, composes x y -> color_of st' y = BLACK) ->
  composition_kept st (leave_workflow x st') /\ color_of (leave_workflow x st') x = BLACK.
Proof.
  intros Hi Hx ([Hg Hnd Hn Hw Hcy Hb] & Hst & Hpre & Hmono) Hsucc. cbn in Hst, Hpre.
  assert (x ∉ cs_stack st) as Hs by (rewrite <- (ci_gray _ Hi), Hx; done).
  assert (color_of st' x = GRAY) as Hxg by (apply Hg; rewrite Hst; apply elem_of_app; right; by left).
  assert (removelast (cs_stack st') = cs_stack st) as Hrl by (rewrite Hst; apply removelast_last).
  assert (forall y, color_of (leave_workflow x st') y = if decide (x = y) then BLACK else color_of st' y) as Hcol.
  { intros y. unfold color_of. cbn. by rewrite color_of_insert. }
  split; [|by rewrite Hcol, decide_True].
  split; [|split; [done|split; [done|]]].
  - constructor; cbn; rewrite ?Hrl; try (by apply Hi); try done.
    + intros y. rewrite Hcol, <- (ci_gray _ Hi). case_decide as Hy; [subst; rewrite Hx; done|].
      rewrite Hg, Hst, elem_of_app, list_elem_of_singleton, (ci_gray _ Hi). naive_solver.
    + intros y. rewrite Hcol. case_decide as Hy; [subst; intros _; apply Hn; by rewrite Hxg|apply Hn].
    + intros Hc. destruct (Hb Hc) as (l & Hl & Hbl). exists (x :: l). split.
      * constructor; [rewrite <- Hbl, Hxg; done| |done]. intros y Hy. by apply Hbl, Hsucc.
      * intros y. rewrite Hcol, elem_of_cons, <- Hbl. case_decide as Hy; [subst; tauto|].
        split; [tauto|]. by intros [->|?].
  - intros y Hy. rewrite Hcol. case_decide; [done|]. apply Hmono. unfold color_of. cbn.
    rewrite color_of_insert. by rewrite decide_False.
Qed.

Lemma report_cycle_inv st l x y :
  composition_inv st -> cs_stack st = l ++ [x] -> composes x y -> color_of st y = GRAY ->
  composition_kept st (report_cycle y st).
Proof.
  intros Hi Hst Hxy Hy. split; [|split; [done|split; [cbn; by eexists|done]]].
  constructor; try (by apply Hi).
  - cbn. apply Forall_app. split; [apply Hi|]. apply Forall_singleton. rewrite Hst. apply drop_until_cycle; [|done|].
    + rewrite <- Hst. apply Hi.
    + rewrite <- Hst. by apply Hi.
  - cbn. intros Hc. by apply app_nil in Hc as [_ ?].
Qed.

Lemma visit_workflow_spec fuel x st :
  composition_inv st -> color_of st x = WHITE -> x ∈ nodes -> walk composes (cs_stack st ++ [x]) ->
  (length nodes < fuel + length (cs_stack st))%nat ->
  composition_kept st (visit_workflow fuel (composition_edges workflows) x st) /\
  color_of (visit_workflow fuel (composition_edges workflows) x st) x = BLACK.
Proof.
  revert x st. induction fuel as [|fuel IH]; intros x st Hi Hx Hin Hw Hfuel.
  - exfalso. assert (length (cs_stack st) <= length nodes)%nat; [|cbn in *; lia].
    apply NoDup_incl_length; [apply NoDup_ListNoDup, Hi|].
    intros y Hy%list_elem_of_In. apply list_elem_of_In, (ci_nodes _ Hi). by rewrite (proj2 (ci_gray _ Hi y) Hy).
  - cbn [visit_workflow]. pose proof (enter_workflow_inv _ _ Hi Hx Hin Hw) as Hent.
    set (visit := fun st target => match color_of st target with
      | GRAY => report_cycle target st
      | WHITE => visit_workflow fuel (composition_edges workflows) target st
      | BLACK => st end).
    assert (forall targets st1, (forall y, y ∈ targets -> composes x y) -> composition_inv st1 ->
      cs_stack st1 = cs_stack st ++ [x] ->
      composition_kept st1 (foldl visit st1 targets) /\
      (cs_cycles (foldl visit st1 targets) = [] -> forall y, y ∈ targets -> color_of (foldl visit st1 targets) y = BLACK))
      as Hloop.
    { induction targets as [|y targets IHt]; intros st1 Hts Hi1 Hst1; cbn [foldl].
      { split; [done|]. by intros _ y ?%not_elem_of_nil. }
      pose proof (Hts y (list_elem_of_here _ _)) as Hxy.
      assert (composition_kept st1 (visit st1 y) /\ (cs_cycles (visit st1 y) = [] -> color_of (visit st1 y) y = BLACK)) as [Hk Hy].
      { unfold visit. destruct (color_of st1 y) eqn:Hc.
        - destruct (IH y st1) as [Hk Hy]; [done|done|by eapply composes_nodes| | |by split].
          + rewrite Hst1, <- app_assoc. apply walk_snoc; [|done]. rewrite <- Hst1. apply Hi1.
          + rewrite Hst1, length_app. cbn. lia.
        - split; [by eapply report_cycle_inv|]. cbn. intros H%app_nil. by destruct H.
        - by split. }
      destruct Hk as (Hi2 & Hst2 & Hpre & Hmono).
      destruct (IHt (visit st1 y)) as [Hk2 Hall]; [intros; apply Hts; by right|done|by rewrite Hst2|].
      split; [by eapply composition_kept_trans; [split|]|].
      intros Hc z [->|Hz]%elem_of_cons; [|by apply Hall]. destruct Hk2 as (_ & _ & Hpre2 & Hmono2).
      apply Hmono2, Hy. rewrite Hc in Hpre2. by apply prefix_nil_inv in Hpre2. }
    destruct (Hloop (composition_edges workflows x) (enter_workflow x st)) as [Hk Hall]; [done|done|done|].
    by apply leave_workflow_kept.
Qed.

Lemma composition_cycles_spec :
  Forall (is_cycle composes) (composition_cycles workflows) /\
  (composition_cycles workflows = [] -> acyclic composes).
Proof.
  unfold composition_cycles. set (visit := fun st name => match color_of st name with
    | WHITE => visit_workflow (S (length workflows)) (composition_edges workflows) name st | _ => st end).
  assert (forall todo st, composition_inv st -> cs_stack st = [] -> (forall x, x ∈ todo -> x ∈ nodes) ->
    composition_kept st (foldl visit st todo) /\ forall x, x ∈ todo -> color_of (foldl visit st todo) x = BLACK) as Hloop.
  { induction todo as [|x todo IH]; intros st Hi Hst Htodo; cbn [foldl].
    { split; [done|]. by intros x ?%not_elem_of_nil. }
    assert (composition_kept st (visit st x) /\ color_of (visit st x) x = BLACK) as [Hk Hx].
    { unfold visit. destruct (color_of st x) eqn:Hc; [| |by split].
      - apply visit_workflow_spec; [done|done|apply Htodo; left| |].
        + rewrite Hst. apply walk_singleton.
        + unfold dict_keys. rewrite length_fmap. lia.
      - apply (ci_gray _ Hi) in Hc. rewrite Hst in Hc. by apply not_elem_of_nil in Hc. }
    destruct Hk as (Hi2 & Hst2 & Hpre & Hmono).
    destruct (IH (visit st x)) as [Hk2 Hall]; [done|by rewrite Hst2|intros; apply Htodo; by right|].
    split; [by eapply composition_kept_trans; [split|]|]. intros y [->|Hy]%elem_of_cons; [|by apply Hall].
    by apply Hk2. }
  destruct (Hloop nodes {| cs_color := ∅; cs_stack := []; cs_cycles := [] |}) as [(Hi & _) Hall]; [|done|done|].
  { constructor; cbn; try done.
    - intros x. unfold color_of. cbn. rewrite lookup_empty. split; [done|by intros ?%not_elem_of_nil].
    - constructor.
    - intros _. exists []. split; [constructor|]. intros x. unfold color_of. cbn. rewrite lookup_empty.
      split; [done|by intros ?%not_elem_of_nil]. }
  split; [apply Hi|]. intros Hc. destruct (ci_black _ Hi Hc) as (l & Hl & Hbl).
  eapply descending_acyclic; [exact Hl|]. intros x y Hxy. apply Hbl, Hall. by apply (composes_nodes x y).
Qed.
End composition.

(** ** Validators that find nothing *)

(** No error and no exception: what a valid result was made of. *)
Definition silent (l : list finding) : Prop := Forall (fun f => is_error f = false /\ is_escape f = false) l.

Lemma silent_app l1 l2 : silent (l1 ++ l2) <-> silent l1 /\ silent l2.
Proof. apply Forall_app. Qed.

Lemma silent_concat {A} (f : A -> list finding) l : silent (concat (map f l)) <-> forall x, x ∈ l -> silent (f x).
Proof.
  induction l as [|x l IH]; cbn; [split; [by intros _ x ?%not_elem_of_nil|constructor]|].
  rewrite silent_app, IH. split; [intros [? ?] y [->|?]%elem_of_cons; auto|].
  intros H. split; [apply H; left|intros; apply H; by right].
Qed.

Lemma silent_error location message category l : ~ silent (Report location message category ERROR :: l).
Proof. unfold silent. rewrite Forall_cons. cbn. by intros [[? ?] _]. Qed.

Lemma silent_escape n l : ~ silent (Escape n :: l).
Proof. unfold silent. rewrite Forall_cons. cbn. by intros [[? ?] _]. Qed.

Lemma silent_when cond location message category l :
  silent (findings_when cond (Report location message category ERROR :: l)) <-> cond = false.
Proof. destruct cond; cbn; [split; [by intros ?%silent_error|done]|split; [done|constructor]]. Qed.

Lemma silent_for {A} (f : A -> list finding) o : silent (findings_for f o) <-> forall a, o = Some a -> silent (f a).
Proof. destruct o as [a|]; cbn; [split; [by intros ? ? [= <-]|auto]|split; [done|constructor]]. Qed.

Lemma silent_map {A} (f : A -> finding) l : (forall x, is_error (f x) = true) -> silent (map f l) -> l = [].
Proof.
  destruct l as [|x l]; [done|]. intros He. cbn. unfold silent. rewrite Forall_cons. intros [[H _] _].
  by rewrite He in H.
Qed.

(** A validator that reports at most one list. *)
Lemma silent_nonempty {A} (l : list A) (f : list A -> list finding) :
  (forall l, l <> [] -> ~ silent (f l)) -> silent (match l with [] => [] | _ => f l end) -> l = [].
Proof. destruct l as [|x l]; [done|]. intros Hf H. by destruct (Hf (x :: l)). Qed.

Lemma mem_true x l : mem x l = true <-> x ∈ l.
Proof. apply bool_decide_eq_true. Qed.

Lemma mem_false x l : negb (mem x l) = false <-> x ∈ l.
Proof. rewrite negb_false_iff. apply mem_true. Qed.

(** ** Duplicates *)

Lemma filter_eqb_length x l : (2 <= length (List.filter (String.eqb x) l))%nat <-> exists l1 l2 l3, l = l1 ++ x :: l2 ++ x :: l3.
Proof.
  assert (forall l, (1 <= length (List.filter (String.eqb x) l))%nat <-> x ∈ l) as H1.
  { clear. induction l as [|y l IH]; cbn; [split; [lia|by intros ?%not_elem_of_nil]|].
    rewrite elem_of_cons. destruct (String.eqb_spec x y) as [->|Hne]; cbn; [split; [by left|lia]|]. rewrite IH. naive_solver. }
  induction l as [|y l IH]; cbn.
  - split; [lia|]. intros ([|? ?] & ? & ? & ?); done.
  - destruct (String.eqb_spec x y) as [->|Hne]; cbn.
    + rewrite <- Nat.succ_le_mono, H1. split.
      * intros (l2 & l3 & ->)%list_elem_of_split. by exists [], l2, l3.
      * intros (l1 & l2 & l3 & Heq). destruct l1 as [|z l1]; [injection Heq as ->|injection Heq as <- ->]; apply elem_of_app; right.
        -- by left.
        -- right. apply elem_of_app. right. by left.
    + rewrite IH. split.
      * intros (l1 & l2 & l3 & ->). by exists (y :: l1), l2, l3.
      * intros (l1 & l2 & l3 & Heq). destruct l1 as [|z l1]; injection Heq as -> Heq; [done|]. by exists l1, l2, l3.
Qed.

Lemma duplicates_nil l : duplicates l = [] -> NoDup l.
Proof.
  unfold duplicates. rewrite sorted_set_nil. intros Hf.
  assert (forall x l1 l2 l3, l <> l1 ++ x :: l2 ++ x :: l3) as Hnone.
  { intros x l1 l2 l3 Heq.
    assert (x ∈ List.filter (fun x => (1 <? length (List.filter (String.eqb x) l))%nat) l) as Hx.
    { apply list_elem_of_In, filter_In. split; [apply list_elem_of_In; rewrite Heq; apply elem_of_app; right; by left|].
      apply Nat.ltb_lt, filter_eqb_length. by exists l1, l2, l3. }
    rewrite Hf in Hx. by apply not_elem_of_nil in Hx. }
  clear Hf. induction l as [|x l IH]; [constructor|]. constructor.
  - intros (l2 & l3 & ->)%list_elem_of_split. by apply (Hnone x [] l2 l3).
  - apply IH. intros y l1 l2 l3 ->. by apply (Hnone y (x :: l1) l2 l3).
Qed.

(** ** One workflow *)

(** Every name of a step is a text that is not empty ([StepName] of [config/models.py]). *)
Definition named_targets (w : WorkflowConfig) : Prop :=
  forall s, s ∈ wc_flow w -> ("" ∉ normal_successors s) /\ st_on_failure s <> Some "".

Section workflow.
Context `{ContractLibrary, EvaluatorLibrary, PyParser, Sha256, FloatRepr}.
Context {C T : Type} (v : WorkflowValidator (C := C) (T := T)).

(** What the validation of a workflow guarantees to the runner and to the analysis. *)
Record checked_workflow (w : WorkflowConfig) : Prop := {
  ck_names : distinct_names w;
  ck_analysis : analyze_workflow w = [];
  ck_closed : named_targets w -> unambiguous w -> workflow_valid w = true -> forall r, fr_config r = w -> closed_flow r;
  ck_operations : forall s op, s ∈ wc_flow w -> st_terminal s = false -> st_op s = Some op ->
    exists d, dict_get op (wc_steps w) = Some d /\
      (isSome (sd_cache d) = true -> st_for_each s = None /\ st_until s = None);
  ck_limits : forall s, s ∈ wc_flow w -> st_terminal s = false ->
    (forall n, st_max_iterations s = Some n ->
       (n <= Z.min (loop_attempts (wv_limits v)) (total_invocations (wv_limits v)))%Z) /\
    (forall n, st_max_concurrency s = Some n ->
       (n <= Z.min (parallelism (wv_limits v)) (fanout_items (wv_limits v)))%Z);
  ck_targets : forall op d, (op, d) ∈ wc_steps w ->
    match sd_target d with
    | ChildWorkflowTarget child => child ∈ dict_keys (wv_workflows v)
    | ServiceOperationTarget service _ => service ∈ dict_keys (wv_services v)
    end;
  ck_resources : forall op d name, (op, d) ∈ wc_steps w -> name ∈ sd_required_resources d ->
    name ∈ dict_keys (wv_resources v);
  ck_placeholders : forall field value, (field, value) ∈ placeholder_fields v w ->
    exists names, placeholder_names value = Ok names /\
      forall x, x ∈ names -> x ∈ dict_keys (wc_params w) \/ x = "request_id";
}.

Variables (name : string) (w : WorkflowConfig).
Abbreviation cx := (context_of name w).

Lemma silent_target location kind target :
  silent (validate_flow_target cx location kind target) ->
  forall t, target = Some t -> t = "" \/ t ∈ map st_name (wc_flow w).
Proof.
  unfold validate_flow_target. rewrite silent_for. intros Hs t ->. unfold nonempty in Hs.
  destruct (decide (t = "")) as [->|Hne]; [by left|]. right.
  specialize (Hs t). destruct t; [done|]. specialize (Hs eq_refl).
  by apply silent_when, mem_false in Hs.
Qed.

Hypothesis Hsilent : silent (validate_one_workflow v name w).

Lemma silent_parts :
  silent (validate_namespaces cx) /\ silent (validate_contracts_and_result v cx) /\
  silent (validate_completion v cx) /\ silent (validate_step_definitions v cx) /\
  silent (validate_flow_steps v cx) /\ silent (validate_unused_operations_and_analysis cx).
Proof. unfold validate_one_workflow in Hsilent. rewrite !silent_app in Hsilent. tauto. Qed.

Lemma silent_flow_step s : s ∈ wc_flow w -> st_terminal s = false -> silent (validate_step_of_flow v cx s).
Proof.
  intros Hs Ht. destruct silent_parts as (_ & _ & _ & _ & Hf & _).
  unfold validate_flow_steps in Hf. rewrite silent_concat in Hf. specialize (Hf s Hs). by rewrite Ht in Hf.
Qed.

Lemma silent_names : distinct_names w.
Proof.
  destruct silent_parts as (Hn & _). unfold validate_namespaces in Hn. rewrite silent_app in Hn. destruct Hn as [Hn _].
  apply duplicates_nil. change (map st_name (wc_flow w)) with (vc_step_names cx).
  destruct (duplicates (vc_step_names cx)); [done|]. by apply silent_error in Hn.
Qed.

Lemma silent_on_error target : wc_on_error w = Some target -> target ∈ map st_name (wc_flow w).
Proof.
  destruct silent_parts as (Hn & _). unfold validate_namespaces in Hn. rewrite !silent_app in Hn.
  destruct Hn as (_ & _ & _ & _ & _ & Hn). rewrite silent_for in Hn. intros Ht. specialize (Hn target Ht).
  by apply silent_when, mem_false in Hn.
Qed.

Lemma silent_analysis : analyze_workflow w = [].
Proof.
  destruct silent_parts as (_ & _ & _ & _ & _ & Ha).
  unfold validate_unused_operations_and_analysis in Ha. rewrite silent_app in Ha. destruct Ha as [_ Ha].
  by apply silent_map in Ha.
Qed.

Lemma silent_successors s n :
  unambiguous w -> s ∈ wc_flow w -> st_terminal s = false -> n ∈ normal_successors s -> n <> "" ->
  n ∈ map st_name (wc_flow w).
Proof.
  intros Hamb Hs Ht Hn Hne. pose proof (silent_flow_step s Hs Ht) as Hf. unfold validate_step_of_flow in Hf.
  rewrite !silent_app in Hf. destruct Hf as (_ & _ & Hfail & Hwait & _ & _ & _ & _ & Hthen & Hres).
  assert (forall location kind target, silent (validate_flow_target cx location kind target) -> target = Some n ->
    n ∈ map st_name (wc_flow w)) as Htarget.
  { intros l k t Hsil Heq. by destruct (silent_target l k t Hsil n Heq). }
  apply elem_normal_successors in Hn as [Hn|[(b & Hb & Hn)|[(wait & Hw & Hn)|Hn]]].
  - by apply (Htarget _ _ _ Hthen).
  - unfold validate_result_branches in Hres. destruct (branches s) as [|b0 l] eqn:Hbr; [by apply not_elem_of_nil in Hb|].
    rewrite silent_app, silent_concat in Hres. destruct Hres as [_ Hres]. specialize (Hres b Hb).
    rewrite silent_app in Hres. destruct Hres as [Hres _]. apply (Htarget _ _ _ Hres).
    rewrite <- Hbr in Hb. unfold branch_target in Hn. unfold branch_then, nonempty.
    destruct (br_then b) as [t|]; [|done]. injection Hn as ->. by destruct n.
  - unfold validate_wait_for in Hwait. rewrite Hw, silent_app in Hwait. destruct Hwait as [Hwait _].
    by apply (Htarget _ _ _ Hwait).
  - unfold validate_failure_targets in Hfail. rewrite silent_app in Hfail. destruct Hfail as [Hfail _].
    by apply (Htarget _ _ _ Hfail).
Qed.

Lemma silent_handler s h :
  s ∈ wc_flow w -> st_terminal s = false -> st_on_failure s = Some h -> h <> "" -> h ∈ map st_name (wc_flow w).
Proof.
  intros Hs Ht Hh Hne. pose proof (silent_flow_step s Hs Ht) as Hf. unfold validate_step_of_flow in Hf.
  rewrite !silent_app in Hf. destruct Hf as (_ & _ & Hfail & _).
  unfold validate_failure_targets in Hfail. rewrite silent_app in Hfail. destruct Hfail as [_ Hfail].
  by destruct (silent_target _ _ _ Hfail h Hh).
Qed.

Lemma terminal_no_targets s :
  workflow_valid w = true -> s ∈ wc_flow w -> st_terminal s = true -> normal_successors s = [] /\ st_on_failure s = None.
Proof.
  intros Hv Hs Ht. unfold workflow_valid in Hv. rewrite !andb_true_iff, forallb_forall in Hv.
  destruct Hv as (((_ & Hv) & _) & _). specialize (Hv s (proj1 (list_elem_of_In _ _) Hs)).
  unfold flow_step_valid in Hv. rewrite !andb_true_iff in Hv. destruct Hv as (_ & Hv).
  unfold validate_flow_step in Hv. rewrite Ht in Hv. unfold reject in Hv.
  destruct (terminal_conflicts s || st_parallel s) eqn:Hc; [done|]. apply orb_false_iff in Hc as [Hc _].
  unfold terminal_conflicts in Hc. rewrite !orb_false_iff in Hc. destruct_and!.
  unfold normal_successors, branches.
  destruct (st_then s), (st_on_result s), (st_wait_for s), (st_on_exhausted s), (st_on_failure s); done.
Qed.

Lemma silent_closed :
  named_targets w -> unambiguous w -> workflow_valid w = true -> forall r, fr_config r = w -> closed_flow r.
Proof.
  intros Hnamed Hamb Hv r Hr s Hs. rewrite Hr in *.
  assert (forall x, x ∈ map st_name (wc_flow w) -> x ∈ dict_keys (flow_steps r)) as Hkeys.
  { intros x (s' & -> & Hs')%list_elem_of_fmap_1. unfold flow_steps. rewrite Hr. apply elem_steps_dict. by exists s'. }
  destruct (Hnamed s Hs) as [Hne Hnf]. destruct (st_terminal s) eqn:Ht.
  - destruct (terminal_no_targets s Hv Hs Ht) as [-> Hf]. split; [by intros n ?%not_elem_of_nil|].
    unfold failure_handler. rewrite Hf. intros h Hh. by apply Hkeys, silent_on_error.
  - split.
    + intros n Hn. apply Hkeys. eapply silent_successors; [done..|]. by intros ->.
    + intros h. unfold failure_handler. destruct (st_on_failure s) as [h'|] eqn:Hf.
      * intros [= ->]. apply Hkeys. eapply silent_handler; [done..|]. intros ->. by apply Hnf.
      * intros Hh. by apply Hkeys, silent_on_error.
Qed.

Lemma exceeds_limit_silent location kind declared limit n :
  silent (exceeds_limit location kind declared limit) -> declared = Some n -> (n <= limit)%Z.
Proof.
  unfold exceeds_limit. rewrite silent_for. intros Hs Hn. specialize (Hs n Hn). apply silent_when, Z.ltb_ge in Hs. done.
Qed.

Lemma silent_definition op d : (op, d) ∈ wc_steps w -> silent (validate_step_definition v cx op d).
Proof.
  intros Hd. destruct silent_parts as (_ & _ & _ & Hs & _). unfold validate_step_definitions in Hs.
  rewrite silent_concat in Hs. exact (Hs (op, d) Hd).
Qed.

Lemma silent_placeholders field value :
  (field, value) ∈ placeholder_fields v w ->
  exists names, placeholder_names value = Ok names /\
    forall x, x ∈ names -> x ∈ dict_keys (wc_params w) \/ x = "request_id".
Proof.
  destruct silent_parts as (_ & Hp & _). unfold validate_contracts_and_result in Hp. rewrite !silent_app in Hp.
  destruct Hp as (_ & _ & Hp & _). unfold validate_workflow_placeholders in Hp. rewrite silent_concat in Hp.
  intros Hin. specialize (Hp _ Hin). cbn [snd] in Hp.
  destruct (placeholder_names value) as [names|e]; [|by apply silent_escape in Hp].
  exists names. split; [done|]. intros x Hx.
  set (missing := List.filter _ names) in Hp. destruct (sorted_set missing) as [|m l] eqn:Hm; [|by apply silent_error in Hp].
  apply (proj1 (sorted_set_nil missing)) in Hm.
  destruct (decide (x ∈ dict_keys (wc_params w) ++ ["request_id"])) as [Ha|Ha].
  - apply elem_of_app in Ha as [?|?%list_elem_of_singleton]; auto.
  - exfalso. assert (x ∈ missing) as Hmis.
    { apply list_elem_of_In, filter_In. split; [by apply list_elem_of_In|]. unfold mem. by rewrite bool_decide_eq_false_2. }
    rewrite Hm in Hmis. by apply not_elem_of_nil in Hmis.
Qed.

Lemma silent_workflow : checked_workflow w.
Proof.
  constructor; [exact silent_names|exact silent_analysis|exact silent_closed| | | | |exact silent_placeholders].
  - intros s op Hs Ht Hop. pose proof (silent_flow_step s Hs Ht) as Hf. unfold validate_step_of_flow in Hf.
    rewrite !silent_app in Hf. destruct Hf as (_ & Hf & _). unfold validate_operation_reference in Hf. rewrite Hop in Hf.
    destruct (dict_get op (wc_steps (vc_workflow cx))) as [d|] eqn:Hd; [|by apply silent_error in Hf].
    exists d. split; [done|]. destruct (sd_cache d); [|done]. intros _. apply silent_when in Hf.
    apply orb_false_iff in Hf as [? ?]. by destruct (st_for_each s), (st_until s).
  - intros s Hs Ht. pose proof (silent_flow_step s Hs Ht) as Hf. unfold validate_step_of_flow in Hf.
    rewrite !silent_app in Hf. destruct Hf as (Hf & _). unfold validate_flow_step_limits in Hf. rewrite silent_app in Hf.
    destruct Hf as [Hi Hc]. split; intros n Hn; by eapply exceeds_limit_silent.
  - intros op d Hd. pose proof (silent_definition op d Hd) as Hs. unfold validate_step_definition in Hs.
    rewrite !silent_app in Hs. destruct Hs as (_ & _ & Hs & _). unfold validate_step_target in Hs.
    destruct (sd_target d) as [service action|child].
    + destruct (dict_mem service (wv_services v)) eqn:Hm; [by apply dict_get_Some_keys, dict_mem_true|].
      by apply silent_error in Hs.
    + apply silent_when, negb_false_iff in Hs. by apply dict_get_Some_keys, dict_mem_true.
  - intros op d x Hd Hx. pose proof (silent_definition op d Hd) as Hs. unfold validate_step_definition in Hs.
    rewrite !silent_app in Hs. destruct Hs as (_ & _ & _ & Hs & _). unfold validate_required_resources in Hs.
    rewrite silent_app, silent_concat in Hs. destruct Hs as [Hs _]. specialize (Hs x Hx).
    apply silent_when, negb_false_iff in Hs. by apply dict_get_Some_keys, dict_mem_true.
Qed.
End workflow.

(** ** The whole configuration *)

Section configuration.
Context `{ContractLibrary, EvaluatorLibrary, PyParser, Sha256, FloatRepr}.
Context {C T : Type} (import_class : string -> string -> class_import C) (cv : ConfigValidator (C := C) (T := T)).

(** What a valid configuration guarantees. *)
Record checked_configuration : Prop := {
  cc_workflows : forall name w, (name, w) ∈ cv_workflows cv -> checked_workflow (workflow_validator import_class cv) w;
  cc_composition : acyclic (composes (cv_workflows cv));
  cc_triggers : forall name d, (name, d) ∈ cv_trigger_list cv -> td_workflow d ∈ dict_keys (cv_workflows cv);
  cc_resources : exists order resolved, resource_load_order resolved = Ok order /\
    dict_keys resolved = dict_keys (cv_resources cv) /\
    wv_resolved_resources (workflow_validator import_class cv) = resolved;
  cc_services : dict_keys (wv_resolved_services (workflow_validator import_class cv)) = dict_keys (cv_services cv);
}.

Lemma resolve_each_keys registry declarations :
  silent (resolve_each_resource import_class registry declarations).1.1 ->
  dict_keys (resolve_each_resource import_class registry declarations).1.2 = dict_keys declarations.
Proof.
  revert registry. induction declarations as [|[name d] l IH]; intros registry; cbn; [done|].
  destruct (resolve_resource import_class registry name d) as [r registry'].
  specialize (IH registry'). destruct (resolve_each_resource import_class registry' l) as [[fs rs] reg]. cbn in *.
  destruct r as [resource|e]; cbn; [|by intros ?%silent_error]. intros Hs. unfold dict_keys in *. cbn. by rewrite IH.
Qed.

Lemma silent_resources :
  silent (validate_resources import_class cv).1.1 ->
  exists order, resource_load_order (validate_resources import_class cv).1.2 = Ok order /\
    dict_keys (validate_resources import_class cv).1.2 = dict_keys (cv_resources cv).
Proof.
  pose proof (resolve_each_keys (cv_resource_registry cv) (cv_resources cv)) as Hk. unfold validate_resources.
  destruct (resolve_each_resource import_class _ (cv_resources cv)) as [[fs rs] reg]. cbn in *.
  rewrite silent_app. intros [Hf Ho]. specialize (Hk Hf).
  assert (length rs = length (cv_resources cv)) as Hlen.
  { unfold dict_keys in Hk. rewrite <- (length_fmap fst rs), Hk. by rewrite length_fmap. }
  rewrite Hlen, Nat.eqb_refl in Ho. cbn in Ho. destruct (resource_load_order rs) as [order|e] eqn:Hlo; [exists order; split; [exact Hlo|exact Hk]|].
  by apply silent_error in Ho.
Qed.

Lemma silent_services :
  silent (validate_services cv).1 -> dict_keys (validate_services cv).2 = dict_keys (cv_services cv).
Proof.
  unfold validate_services. cbn. intros Hs. induction (cv_services cv) as [|[name d] l IH]; cbn in *; [done|].
  rewrite silent_app in Hs. destruct Hs as [Hs Hl]. specialize (IH Hl). unfold validate_service in *.
  destruct (resolve_service _ name d); cbn in *; [|by apply silent_error in Hs]. unfold dict_keys in *. cbn. by rewrite IH.
Qed.

Lemma silent_configuration : silent (configuration_findings import_class cv) -> checked_configuration.
Proof.
  unfold configuration_findings. rewrite !silent_app. intros (Hr & Hsv & Hw & Ht & _ & Hc). constructor.
  - intros name w Hin. rewrite silent_concat in Hw. specialize (Hw _ Hin). by eapply silent_workflow.
  - apply (composition_cycles_spec (cv_workflows cv)). unfold check_composition_cycles in Hc.
    by apply silent_map in Hc.
  - intros name d Hin. unfold validate_triggers in Ht. rewrite silent_concat in Ht. specialize (Ht _ Hin).
    apply silent_when, negb_false_iff in Ht. by apply dict_get_Some_keys, dict_mem_true.
  - destruct (silent_resources Hr) as (order & Ho & Hk). by exists order, (validate_resources import_class cv).1.2.
  - by apply silent_services.
Qed.

Lemma valid_silent r : validate import_class cv = Ok r -> is_valid r = true -> silent (configuration_findings import_class cv).
Proof.
  unfold validate. intros Hv Hvalid.
  apply (collect_valid _ _ _ Hv) in Hvalid as [He _].
  assert (is_ok (collect (cv_source_files cv) (configuration_findings import_class cv) empty_result) = true) as Hok by (by rewrite Hv).
  rewrite collect_ok in Hok. apply Forall_forall. auto.
Qed.
End configuration.


Module ValidationSamples.
Import ContractSamples.

#[local] Existing Instance sample_parser.
#[local] Existing Instance sample_sha256.
#[local] Existing Instance coded_floats.
#[local] Instance no_evaluators : EvaluatorLibrary := {| import_evaluator _ _ := EvaluatorMissing |}.

Definition operation_step (name op next : string) : FlowStep := {|
  st_name := name; st_op := Some op; st_input := InputNone; st_output := None; st_params := [];
  st_then := Some next; st_on_result := None; st_condition := None; st_for_each := None;
  st_as_var := None; st_parallel := false; st_max_concurrency := None; st_on_iteration_fail := None;
  st_wait_for := None; st_sleep_sec := None; st_until := None; st_max_iterations := None;
  st_interval_sec := None; st_on_exhausted := None; st_on_failure := None; st_terminal := false; st_reason := None |}.

Definition definition (target : StepTarget) : StepDefinition := {|
  sd_target := target; sd_params := []; sd_required_resources := []; sd_cache := None;
  sd_input_schema := None; sd_output_schema := None |}.

(** A workflow of one operation. *)
Definition workflow (name next : string) (target : StepTarget) : WorkflowConfig := {|
  wc_workflow := name; wc_description := ""; wc_on_complete := None; wc_on_error := None; wc_params := [];
  wc_input_schema := None; wc_output_schema := None; wc_result := None;
  wc_steps := [("act", definition target)];
  wc_flow := [operation_step "start" "act" next; terminal_step "end" None] |}.

Definition http_provider : TransportProvider unit := {|
  tv_name := "http"; tv_contract_version := "1"; tv_parse_config := fun _ => Parsed tt;
  tv_supports_async_response := false; tv_action_validator := None; tv_startup_validator := None;
  tv_connect := OPTIONAL; tv_response := FORBIDDEN |}.

Definition billing : ServiceConfig := {|
  sv_transport := "http"; sv_transport_config := []; sv_connect_timeout_sec := Some 5%Z;
  sv_dispatch_timeout_sec := 30%Z; sv_response_timeout_sec := None; sv_retries := 2%Z; sv_params := [] |}.

Definition configuration (workflows : list (string * WorkflowConfig)) : ConfigValidator (C := unit) (T := unit) := {|
  cv_resources := []; cv_services := [("billing", billing)]; cv_workflows := workflows; cv_check_imports := false;
  cv_transport_registry := [("http", http_provider)];
  cv_resource_registry := {| rg_providers := []; rg_class_providers := [] |};
  cv_limits := DEFAULT_RUNTIME_LIMITS; cv_source_files := [];
  cv_triggers := Some [("nightly", ApiTriggerDeclaration "parent" false)] |}.

Definition no_class : string -> string -> class_import unit := fun _ _ => ImportFailed.

Definition parent_and_child : list (string * WorkflowConfig) :=
  [("parent", workflow "parent" "end" (ChildWorkflowTarget "child"));
   ("child", workflow "child" "end" (ServiceOperationTarget "billing" "charge"))].


(** A missing target, an unknown service and a cycle of sub-workflows. *)
Example errors_reported :
  match validate no_class (configuration
    [("parent", workflow "parent" "nowhere" (ChildWorkflowTarget "child"));
     ("child", workflow "child" "end" (ChildWorkflowTarget "parent"));
     ("lost", workflow "lost" "end" (ServiceOperationTarget "mail" "send"))]) with
  | Ok r => map vd_message (errors r)
  | Raise _ => []
  end =
  ["Sub-workflow composition cycle: parent -> child -> parent";
   "Service 'mail' not found in services.yaml";
   "Flow step 'end' is unreachable from entry step 'start' and every failure handler";
   "'then' target 'nowhere' not found in flow";
   "Reachable path from step 'start' has no explicit terminal successor"].
Proof. vm_compute. reflexivity. Qed.

(** Only warnings, but one too many: the note on what is omitted is an error. *)
Example warnings_overflow :
  let warning := Report "workflows.w" "unused" LINT WARNING in
  map (fun n => match collect [] (repeat warning n) empty_result with
                | Ok r => (is_valid r, length (diagnostics r)) | Raise _ => (false, 0%nat) end) [1000%nat; 1001%nat]
  = [(true, 1000%nat); (false, 1000%nat)].
Proof. vm_compute. reflexivity. Qed.
End ValidationSamples.
