(* ===== verification/ScheduledStarts.v ===== *)
(** One-off scheduled starts ([runtime/scheduled_starts.py]): the records, the transitions
    that derive one record from another, and the messages of the arbiter that decides
    which command consumes a version.  Times are in microseconds. *)

From S2P Require Export StartRequests.

Definition SCHEDULED_START_FORMAT_VERSION : Z := 1.
Definition SCHEDULED_START_OWNER : string := "justflow.scheduled-start".
Definition SCHEDULED_START_ARBITER_WORKFLOW_TYPE : string := "justflow.scheduled-start-arbiter.v1".
Definition SCHEDULED_START_DUE_WORKFLOW_TYPE : string := "justflow.scheduled-start-due.v1".
Definition MEMO_SCHEDULED_START_OWNER : string := "justflow.scheduled_start_owner".
Definition MEMO_SCHEDULED_START_ID : string := "justflow.scheduled_start_id".
Definition MEMO_SCHEDULED_START_FORMAT_VERSION : string := "justflow.scheduled_start_format_version".
Definition MEMO_SCHEDULED_START_ARBITER_COMMAND : string := "justflow.scheduled_start_arbiter_command".
Definition MEMO_SCHEDULED_START_ARBITER_REQUEST_DIGEST : string := "justflow.scheduled_start_arbiter_request_digest".
Definition MEMO_SCHEDULED_START_ARBITER_VERSION : string := "justflow.scheduled_start_arbiter_version".

(** ** Enumerations *)

(** [ScheduledStartState] *)
Inductive ScheduledStartState := SCHEDULED | DISPATCHING | STARTED | CANCELED | FAILED.

#[export] Instance ScheduledStartState_eq_dec : EqDecision ScheduledStartState.
Proof. solve_decision. Defined.

Definition scheduled_start_state_value (s : ScheduledStartState) : string :=
  match s with
  | SCHEDULED => "scheduled" | DISPATCHING => "dispatching" | STARTED => "started" | CANCELED => "canceled"
  | FAILED => "failed"
  end.

(** [ScheduledStartMutationKind] *)
Inductive ScheduledStartMutationKind :=
| CREATE_MUTATION | RESCHEDULE_MUTATION | CANCEL_MUTATION | DISPATCH_MUTATION | START_MUTATION | FAIL_MUTATION.

#[export] Instance ScheduledStartMutationKind_eq_dec : EqDecision ScheduledStartMutationKind.
Proof. solve_decision. Defined.

(** [ScheduledStartMutationStatus] *)
Inductive ScheduledStartMutationStatus :=
| ACCEPTED_STATUS | DUPLICATE_STATUS | RESCHEDULED_STATUS | CANCELED_STATUS | IN_PROGRESS_STATUS.

#[export] Instance ScheduledStartMutationStatus_eq_dec : EqDecision ScheduledStartMutationStatus.
Proof. solve_decision. Defined.

(** [ScheduledStartArbiterCommandKind] *)
Inductive ScheduledStartArbiterCommandKind := DUE_COMMAND | CANCEL_COMMAND | RESCHEDULE_COMMAND.

#[export] Instance ScheduledStartArbiterCommandKind_eq_dec : EqDecision ScheduledStartArbiterCommandKind.
Proof. solve_decision. Defined.

Definition command_kind_value (k : ScheduledStartArbiterCommandKind) : string :=
  match k with DUE_COMMAND => "due" | CANCEL_COMMAND => "cancel" | RESCHEDULE_COMMAND => "reschedule" end.

(** [ScheduledStartArbiterCommandKind(value)] *)
Definition command_kind_of (value : string) : option ScheduledStartArbiterCommandKind :=
  if bool_decide (value = "due") then Some DUE_COMMAND
  else if bool_decide (value = "cancel") then Some CANCEL_COMMAND
  else if bool_decide (value = "reschedule") then Some RESCHEDULE_COMMAND
  else None.

(** [ScheduledStartFailureCode] *)
Inductive ScheduledStartFailureCode :=
| TARGET_UNAVAILABLE | CONTRACT_DRIFT | FAILED_INCOMPATIBLE_WORKER | DISPATCH_EXHAUSTED.

#[export] Instance ScheduledStartFailureCode_eq_dec : EqDecision ScheduledStartFailureCode.
Proof. solve_decision. Defined.

Definition failure_code_value (c : ScheduledStartFailureCode) : string :=
  match c with
  | TARGET_UNAVAILABLE => "target_unavailable" | CONTRACT_DRIFT => "contract_drift"
  | FAILED_INCOMPATIBLE_WORKER => "incompatible_worker" | DISPATCH_EXHAUSTED => "dispatch_exhausted"
  end.

(** [ScheduledStartErrorCode] *)
Inductive ScheduledStartErrorCode :=
| SCHEDULED_INVALID_REQUEST | SCHEDULED_TRIGGER_UNAVAILABLE | SCHEDULED_TRIGGER_PAUSED | SCHEDULED_INPUT_REJECTED
| NOT_FOUND | SCHEDULED_CONFLICT | QUOTA_EXCEEDED | QUOTA_UNAVAILABLE | PRIORITY_UNSUPPORTED
| SCHEDULED_TEMPORAL_UNAVAILABLE.

#[export] Instance ScheduledStartErrorCode_eq_dec : EqDecision ScheduledStartErrorCode.
Proof. solve_decision. Defined.

(** [ScheduledStartWorkloadClass] of [config/settings.py] *)
Inductive ScheduledStartWorkloadClass := INTERACTIVE | STANDARD | BATCH.

#[export] Instance ScheduledStartWorkloadClass_eq_dec : EqDecision ScheduledStartWorkloadClass.
Proof. solve_decision. Defined.

(** An exception of the service: [ScheduledStartError], [WorkflowStartError] of the
    starter, or another one. *)
Inductive scheduled_exn :=
| ScheduledStartError (code : ScheduledStartErrorCode) (msg : string) (retryable : bool)
| ScheduledWorkflowStartError (e : start_exn)
| ScheduledPyError (e : exn).

Abbreviation ssres := (result scheduled_exn).

Definition scheduled_py {A} (r : res A) : ssres A :=
  match r with Ok a => Ok a | Raise e => Raise (ScheduledPyError e) end.

(** Exceptions of the standard library and of pydantic. *)
Definition py_error {A} (cls : exn_class) (msg : string) : ssres A := Raise (ScheduledPyError (Exn cls msg None)).

Definition conflict (msg : string) : scheduled_exn := ScheduledStartError SCHEDULED_CONFLICT msg false.

Definition no_longer_pending : scheduled_exn :=
  conflict "Scheduled start is no longer pending at the expected version".

(** ** Times *)

(** [value.microsecond], [value.replace(microsecond=0)] *)
Definition microsecond (t : Z) : Z := (t mod 1000000)%Z.
Definition whole_second (t : Z) : Z := (t - microsecond t)%Z.

(** ** Records *)

(** [ScheduledStartRun] *)
Record ScheduledStartRun := {
  run_workflow_id : string;
  run_run_id : string;
  run_definition_digest : string;
  run_artifact_identity : WorkerArtifactIdentity;
  run_environment_snapshot_digest : string;
  run_execution_configuration : option ExecutionConfigurationIdentity;
}.

#[export] Instance ScheduledStartRun_eq_dec : EqDecision ScheduledStartRun.
Proof. solve_decision. Defined.

(** [ScheduledStartRecordBase] *)
Record ScheduledStartRecordBase := {
  ss_scheduled_start_id : string;
  ss_scope_digest : string;
  ss_workflow_name : string;
  ss_input : list (string * json);
  ss_business_request_id : string;
  ss_start_at : Z;
  ss_workload_class : ScheduledStartWorkloadClass;
  ss_trigger_name : string;
  ss_create_request_digest : string;
  ss_version : Z;
  ss_accepted_at : Z;
  ss_updated_at : Z;
  ss_last_mutation_kind : ScheduledStartMutationKind;
  ss_last_mutation_digest : string;
  ss_dispatch_timeout_seconds : Z;
  ss_dispatch_attempts : Z;
}.

#[export] Instance ScheduledStartRecordBase_eq_dec : EqDecision ScheduledStartRecordBase.
Proof. solve_decision. Defined.

(** What [DispatchingScheduledStartRecord] adds. *)
Record Claim := {
  claimed_version : Z;
  dispatch_started_at : Z;
}.

#[export] Instance Claim_eq_dec : EqDecision Claim.
Proof. solve_decision. Defined.

(** What tells the members of [ScheduledStartRecord] apart. *)
Inductive ScheduledStartStage :=
| Pending
| Dispatching (c : Claim)
| Started (c : Claim) (completed_at : Z) (run : ScheduledStartRun)
| Canceled (completed_at : Z)
| FailedStart (c : Claim) (completed_at : Z) (failure_code : ScheduledStartFailureCode).

#[export] Instance ScheduledStartStage_eq_dec : EqDecision ScheduledStartStage.
Proof. solve_decision. Defined.

(** [ScheduledStartRecord] *)
Record ScheduledStartRecord := {
  ss_base : ScheduledStartRecordBase;
  ss_stage : ScheduledStartStage;
}.

#[export] Instance ScheduledStartRecord_eq_dec : EqDecision ScheduledStartRecord.
Proof. solve_decision. Defined.

Definition ss_state (r : ScheduledStartRecord) : ScheduledStartState :=
  match ss_stage r with
  | Pending => SCHEDULED | Dispatching _ => DISPATCHING | Started _ _ _ => STARTED | Canceled _ => CANCELED
  | FailedStart _ _ _ => FAILED
  end.

Definition ss_id (r : ScheduledStartRecord) : string := ss_scheduled_start_id (ss_base r).
Definition version (r : ScheduledStartRecord) : Z := ss_version (ss_base r).

(** [isinstance(record, PendingScheduledStartRecord)] *)
Definition is_pending (r : ScheduledStartRecord) : bool :=
  match ss_stage r with Pending => true | _ => false end.

(** [ScheduledStartProjectionRecord]: every record but a dispatching one. *)
Definition is_projection (r : ScheduledStartRecord) : bool :=
  match ss_stage r with Dispatching _ => false | _ => true end.

(** The constraints on the fields of a run. *)
Definition valid_run (r : ScheduledStartRun) : bool :=
  identifier_field (run_workflow_id r) && identifier_field (run_run_id r) && digest_field (run_definition_digest r)
  && valid_artifact (run_artifact_identity r) && digest_field (run_environment_snapshot_digest r)
  && optional valid_execution_configuration (run_execution_configuration r).

(** [WorkflowName], [TriggerName] *)
Definition name_field (s : string) : bool := is_identifier s && (String.length s <=? 128)%nat.

(** The constraints on the fields of the base and [validate_timestamps]. *)
Definition valid_base (b : ScheduledStartRecordBase) : bool :=
  text_between 1 (MAX_IDENTIFIER_LENGTH * 2) (ss_scheduled_start_id b) && digest_field (ss_scope_digest b)
  && name_field (ss_workflow_name b) && identifier_field (ss_business_request_id b)
  && name_field (ss_trigger_name b) && digest_field (ss_create_request_digest b)
  && (1 <=? ss_version b)%Z && digest_field (ss_last_mutation_digest b)
  && (1 <=? ss_dispatch_timeout_seconds b)%Z && (1 <=? ss_dispatch_attempts b)%Z
  && forallb (fun t => microsecond t =? 0)%Z [ss_start_at b; ss_accepted_at b; ss_updated_at b]
  && (ss_accepted_at b <=? ss_updated_at b)%Z.

(** [model.model_validate(payload)] *)
Definition valid_record (r : ScheduledStartRecord) : bool :=
  valid_base (ss_base r)
  && match ss_stage r with
     | Pending | Canceled _ => true
     | Dispatching c | FailedStart c _ _ => (1 <=? claimed_version c)%Z
     | Started c _ run => (1 <=? claimed_version c)%Z && valid_run run
     end.

Definition validated (r : ScheduledStartRecord) : ssres ScheduledStartRecord :=
  if valid_record r then Ok r else py_error ValidationError "ScheduledStartRecord".

(** [_transition_record]: the fields that every transition writes, and those that some do. *)
Definition transition_record (r : ScheduledStartRecord) (stage : ScheduledStartStage) (start_at version updated_at : Z)
    (kind : ScheduledStartMutationKind) (digest : string) : ssres ScheduledStartRecord :=
  let b := ss_base r in
  validated {|
    ss_base := {|
      ss_scheduled_start_id := ss_scheduled_start_id b; ss_scope_digest := ss_scope_digest b;
      ss_workflow_name := ss_workflow_name b; ss_input := ss_input b;
      ss_business_request_id := ss_business_request_id b; ss_start_at := start_at;
      ss_workload_class := ss_workload_class b; ss_trigger_name := ss_trigger_name b;
      ss_create_request_digest := ss_create_request_digest b; ss_version := version;
      ss_accepted_at := ss_accepted_at b; ss_updated_at := updated_at; ss_last_mutation_kind := kind;
      ss_last_mutation_digest := digest; ss_dispatch_timeout_seconds := ss_dispatch_timeout_seconds b;
      ss_dispatch_attempts := ss_dispatch_attempts b
    |};
    ss_stage := stage
  |}.

(** ** Requests *)

(** [ScheduledStartCreateRequest] *)
Record ScheduledStartCreateRequest := {
  sc_workflow_name : string;
  sc_input : list (string * json);
  sc_business_request_id : string;
  sc_start_at : Z;
  sc_workload_class : ScheduledStartWorkloadClass;
}.

(** [ScheduledStartRescheduleRequest] *)
Record ScheduledStartRescheduleRequest := {
  srr_start_at : Z;
  srr_expected_version : Z;
}.

(** [normalize_start_at] *)
Definition normalize_start_at (value : Z) : ssres Z :=
  if (microsecond value =? 0)%Z then Ok value
  else py_error ValueError "Scheduled-start timestamps require whole-second precision".

(** [ScheduledStartArbiterCommand] *)
Inductive ScheduledStartArbiterCommand :=
| DueCommand (nominal_time : Z)
| CancelCommand (expected_version : Z) (request_digest : string)
| RescheduleCommand (expected_version start_at : Z) (request_digest : string).

#[export] Instance ScheduledStartArbiterCommand_eq_dec : EqDecision ScheduledStartArbiterCommand.
Proof. solve_decision. Defined.

Definition command_kind (c : ScheduledStartArbiterCommand) : ScheduledStartArbiterCommandKind :=
  match c with
  | DueCommand _ => DUE_COMMAND | CancelCommand _ _ => CANCEL_COMMAND | RescheduleCommand _ _ _ => RESCHEDULE_COMMAND
  end.

(** [command.request_digest], where the command is not due *)
Definition command_digest (c : ScheduledStartArbiterCommand) : option string :=
  match c with DueCommand _ => None | CancelCommand _ d | RescheduleCommand _ _ d => Some d end.

(** ** Descriptions and results *)

(** [ScheduledStartDescription] *)
Record ScheduledStartDescription := {
  sd_scheduled_start_id : string;
  sd_workflow_name : string;
  sd_trigger_name : string;
  sd_start_at : Z;
  sd_workload_class : ScheduledStartWorkloadClass;
  sd_state : ScheduledStartState;
  sd_version : Z;
  sd_accepted_at : Z;
  sd_updated_at : Z;
  sd_dispatch_started_at : option Z;
  sd_completed_at : option Z;
  sd_failure_code : option ScheduledStartFailureCode;
  sd_run : option ScheduledStartRun;
}.

(** [describe_scheduled_start] *)
Definition describe_scheduled_start (r : ScheduledStartRecord) : ScheduledStartDescription :=
  let b := ss_base r in
  {| sd_scheduled_start_id := ss_scheduled_start_id b; sd_workflow_name := ss_workflow_name b;
     sd_trigger_name := ss_trigger_name b; sd_start_at := ss_start_at b; sd_workload_class := ss_workload_class b;
     sd_state := ss_state r; sd_version := ss_version b; sd_accepted_at := ss_accepted_at b;
     sd_updated_at := ss_updated_at b;
     sd_dispatch_started_at := match ss_stage r with
                               | Dispatching c | Started c _ _ | FailedStart c _ _ => Some (dispatch_started_at c)
                               | _ => None
                               end;
     sd_completed_at := match ss_stage r with
                        | Started _ t _ | Canceled t | FailedStart _ t _ => Some t
                        | _ => None
                        end;
     sd_failure_code := match ss_stage r with FailedStart _ _ code => Some code | _ => None end;
     sd_run := match ss_stage r with Started _ _ run => Some run | _ => None end |}.

(** [ScheduledStartMutationResult] *)
Record ScheduledStartMutationResult := {
  mr_status : ScheduledStartMutationStatus;
  mr_scheduled_start : ScheduledStartDescription;
  mr_expected_version : option Z;
}.

(** [ScheduledStartDueClaimResult] *)
Inductive ScheduledStartDueClaimResult :=
| DueClaimed (duplicate : bool)
| DueSkipped (current : ScheduledStartDescription).

(** [ScheduledStartAttemptResult] *)
Inductive ScheduledStartAttemptResult :=
| AttemptAccepted (duplicate : bool) (run : ScheduledStartRun)
| AttemptRejected
| AttemptAmbiguous.

(** [ScheduledStartArbiterResult] *)
Inductive ScheduledStartArbiterResult :=
| ArbiterApplied (consumed_version : Z) (winner : ScheduledStartArbiterCommandKind) (request_digest : option string)
    (scheduled_start : ScheduledStartDescription)
| ArbiterStale (consumed_version : Z) (current : ScheduledStartDescription).

(** ** Targets *)

(** [ScheduledStartResolvedTarget] *)
Record ScheduledStartResolvedTarget := {
  rst_manifest : DefinitionManifest;
  rst_artifact_identity : WorkerArtifactIdentity;
  rst_environment_snapshot_digest : string;
  rst_scope_digest : option string;
  rst_execution_configuration : option ExecutionConfigurationIdentity;
}.

(** [ScheduledStartResolvedTarget.from_target] *)
Definition from_target (t : WorkflowStartTarget) : ssres ScheduledStartResolvedTarget :=
  if digest_field (wt_environment_snapshot_digest t) && optional digest_field (wt_scope_digest t)
  then Ok {| rst_manifest := wt_manifest t; rst_artifact_identity := wd_artifact_identity (wt_deployment t);
             rst_environment_snapshot_digest := wt_environment_snapshot_digest t;
             rst_scope_digest := wt_scope_digest t;
             rst_execution_configuration := wt_execution_configuration t |}
  else py_error ValidationError "ScheduledStartResolvedTarget".

(** [ScheduledStartResolvedTarget.to_target] *)
Definition to_target (t : ScheduledStartResolvedTarget) : res WorkflowStartTarget :=
  deployment ← new_worker_deployment (rst_artifact_identity t) {[mf_required_engine_workflow_abi (rst_manifest t)]};
  let target := {| wt_manifest := rst_manifest t; wt_deployment := deployment;
                   wt_environment_snapshot_digest := rst_environment_snapshot_digest t;
                   wt_scope_digest := rst_scope_digest t;
                   wt_execution_configuration := rst_execution_configuration t |} in
  _ ← WorkflowStartTarget_post_init target;
  Ok target.

(** ** The messages of the arbiter *)

(** [ScheduledStartArbiterInitialInput] *)
Record ScheduledStartArbiterInitialInput := {
  ai_record : ScheduledStartRecord;
  ai_command : ScheduledStartArbiterCommand;
}.

#[export] Instance ScheduledStartArbiterInitialInput_eq_dec : EqDecision ScheduledStartArbiterInitialInput.
Proof. solve_decision. Defined.

(** [ScheduledStartArbiterInitialInput(record=record, command=command)], with
    [validate_command_version] *)
Definition new_initial_input (record : ScheduledStartRecord) (command : ScheduledStartArbiterCommand)
  : ssres ScheduledStartArbiterInitialInput :=
  if negb (is_pending record) then py_error ValidationError "PendingScheduledStartRecord"
  else
    match command with
    | DueCommand nominal_time =>
        if bool_decide (nominal_time = ss_start_at (ss_base record))
        then Ok {| ai_record := record; ai_command := command |}
        else py_error ValidationError "Due command does not match the retained nominal time"
    | CancelCommand expected_version _ | RescheduleCommand expected_version _ _ =>
        if bool_decide (expected_version = version record)
        then Ok {| ai_record := record; ai_command := command |}
        else py_error ValidationError "Mutation command does not match the retained version"
    end.

(** [ScheduledStartArbiterResolvedDueInput] *)
Record ScheduledStartArbiterResolvedDueInput := {
  ad_record : ScheduledStartRecord;
  ad_target : ScheduledStartResolvedTarget;
  ad_saw_ambiguous : bool;
  ad_authoritative_rejections : Z;
}.

(** [ScheduledStartArbiterTerminalInput] *)
Record ScheduledStartArbiterTerminalInput := {
  at_projection : ScheduledStartRecord;
  at_consumed_version : Z;
  at_winner : ScheduledStartArbiterCommandKind;
  at_request_digest : option string;
}.

(** The kinds of projection that a winner may leave, in [validate_projection_version]. *)
Definition projection_matches (winner : ScheduledStartArbiterCommandKind) (stage : ScheduledStartStage) : bool :=
  match winner, stage with
  | DUE_COMMAND, (Started _ _ _ | FailedStart _ _ _) => true
  | CANCEL_COMMAND, (Canceled _ | Started _ _ _) => true
  | RESCHEDULE_COMMAND, (Pending | Started _ _ _) => true
  | _, _ => false
  end.

(** [validate_projection_version] *)
Definition validate_projection_version (t : ScheduledStartArbiterTerminalInput) : ssres unit :=
  let expected_projection_version :=
    match at_winner t, ss_stage (at_projection t) with
    | RESCHEDULE_COMMAND, Pending => (at_consumed_version t + 1)%Z
    | _, _ => at_consumed_version t
    end in
  if negb (projection_matches (at_winner t) (ss_stage (at_projection t)))
  then py_error ValidationError "Terminal projection does not match the winner kind"
  else if negb (bool_decide (version (at_projection t) = expected_projection_version))
  then py_error ValidationError "Terminal projection does not match the consumed version"
  else if negb (Bool.eqb (bool_decide (at_winner t = DUE_COMMAND)) (bool_decide (at_request_digest t = None)))
  then py_error ValidationError "Arbiter request digest does not match the winner kind"
  else Ok tt.

(** [ScheduledStartArbiterTerminalInput(...)] *)
Definition new_terminal_input (projection : ScheduledStartRecord) (consumed_version : Z)
    (winner : ScheduledStartArbiterCommandKind) (request_digest : option string)
  : ssres ScheduledStartArbiterTerminalInput :=
  let t := {| at_projection := projection; at_consumed_version := consumed_version; at_winner := winner;
              at_request_digest := request_digest |} in
  if (consumed_version <? 1)%Z then py_error ValidationError "ScheduledStartArbiterTerminalInput"
  else
    _ ← validate_projection_version t;
    Ok t.

(** [ScheduledStartArbiterInput] *)
Inductive ScheduledStartArbiterInput :=
| InitialInput (i : ScheduledStartArbiterInitialInput)
| ResolvedDueInput (d : ScheduledStartArbiterResolvedDueInput)
| TerminalInput (t : ScheduledStartArbiterTerminalInput).

(** [ScheduledStartArbiterPreparation] *)
Inductive ScheduledStartArbiterPreparation :=
| PreparedDue (record : ScheduledStartRecord) (target : ScheduledStartResolvedTarget)
| PreparedProjection (terminal : ScheduledStartArbiterTerminalInput)
| PreparedStale (current : ScheduledStartDescription).

(** What pydantic makes of the JSON text of an instant in UTC. *)
Class Timestamps := { timestamp : Z -> string }.

Section scheduled_starts.
Context `{Sha256, FloatRepr, Timestamps}.

(** [scheduled_start_request_digest] *)
Definition scheduled_start_request_digest (parts : list json) : string := hexdigest (dumps_strict_json (JList parts)).

Definition workload_class_value (c : ScheduledStartWorkloadClass) : string :=
  match c with INTERACTIVE => "interactive" | STANDARD => "standard" | BATCH => "batch" end.

(** [request.model_dump(mode="json")] *)
Definition create_request_dump (r : ScheduledStartCreateRequest) : json :=
  JDict [("workflow_name", JStr (sc_workflow_name r)); ("input", JDict (sc_input r));
         ("business_request_id", JStr (sc_business_request_id r)); ("start_at", JStr (timestamp (sc_start_at r)));
         ("workload_class", JStr (workload_class_value (sc_workload_class r)))].

Definition reschedule_request_dump (r : ScheduledStartRescheduleRequest) : json :=
  JDict [("start_at", JStr (timestamp (srr_start_at r))); ("expected_version", JInt (srr_expected_version r))].

(** [create_scheduled_start_record] *)
Definition create_scheduled_start_record (request : ScheduledStartCreateRequest) (scheduled_start_id : string)
    (scope : RuntimeScope) (trigger_name request_digest : string) (accepted_at : Z)
    (normalized_input : list (string * json)) (dispatch_timeout_seconds dispatch_attempts : Z)
  : ssres ScheduledStartRecord :=
  validated {|
    ss_base := {|
      ss_scheduled_start_id := scheduled_start_id; ss_scope_digest := digest scope;
      ss_workflow_name := sc_workflow_name request; ss_input := normalized_input;
      ss_business_request_id := sc_business_request_id request; ss_start_at := sc_start_at request;
      ss_workload_class := sc_workload_class request; ss_trigger_name := trigger_name;
      ss_create_request_digest := request_digest; ss_version := 1; ss_accepted_at := accepted_at;
      ss_updated_at := accepted_at; ss_last_mutation_kind := CREATE_MUTATION;
      ss_last_mutation_digest := request_digest; ss_dispatch_timeout_seconds := dispatch_timeout_seconds;
      ss_dispatch_attempts := dispatch_attempts
    |};
    ss_stage := Pending
  |}.

(** [reschedule_scheduled_start]: the record, and whether it was there before. *)
Definition reschedule_scheduled_start (r : ScheduledStartRecord) (request : ScheduledStartRescheduleRequest)
    (request_digest : string) (updated_at : Z) : ssres (ScheduledStartRecord * bool) :=
  if is_pending r && bool_decide (version r = srr_expected_version request + 1)%Z
     && bool_decide (ss_last_mutation_kind (ss_base r) = RESCHEDULE_MUTATION)
     && bool_decide (ss_last_mutation_digest (ss_base r) = request_digest)
  then Ok (r, true)
  else if negb (is_pending r) || negb (bool_decide (version r = srr_expected_version request))
  then Raise no_longer_pending
  else
    rescheduled ← transition_record r Pending (srr_start_at request) (version r + 1) updated_at RESCHEDULE_MUTATION
      request_digest;
    Ok (rescheduled, false).

(** [cancel_scheduled_start] *)
Definition cancel_scheduled_start (r : ScheduledStartRecord) (expected_version : Z) (request_digest : string)
    (updated_at : Z) : ssres (ScheduledStartRecord * bool) :=
  if bool_decide (ss_state r = CANCELED) && bool_decide (version r = expected_version)
     && bool_decide (ss_last_mutation_kind (ss_base r) = CANCEL_MUTATION)
     && bool_decide (ss_last_mutation_digest (ss_base r) = request_digest)
  then Ok (r, true)
  else if negb (is_pending r) || negb (bool_decide (version r = expected_version))
  then Raise no_longer_pending
  else
    canceled ← transition_record r (Canceled updated_at) (ss_start_at (ss_base r)) (version r) updated_at
      CANCEL_MUTATION request_digest;
    Ok (canceled, false).

(** [claim_scheduled_start] *)
Definition claim_scheduled_start (r : ScheduledStartRecord) (expected_version claimed_at : Z)
  : ssres (option ScheduledStartRecord) :=
  match ss_stage r with
  | Dispatching c => Ok (if bool_decide (claimed_version c = expected_version) then Some r else None)
  | Pending =>
      if bool_decide (version r = expected_version) then
        let claim_digest := scheduled_start_request_digest
          [JStr "dispatch"; JStr (ss_id r); JInt expected_version] in
        claimed ← transition_record r
          (Dispatching {| claimed_version := expected_version; dispatch_started_at := claimed_at |})
          (ss_start_at (ss_base r)) (version r) claimed_at DISPATCH_MUTATION claim_digest;
        Ok (Some claimed)
      else Ok None
  | _ => Ok None
  end.

(** [complete_scheduled_start] and [fail_scheduled_start], of a record whose claim is
    [c]. *)
Definition complete_scheduled_start (r : ScheduledStartRecord) (c : Claim) (run : ScheduledStartRun) (completed_at : Z)
  : ssres ScheduledStartRecord :=
  let completion_digest := scheduled_start_request_digest
    [JStr "start"; JStr (ss_id r); JInt (claimed_version c); JStr (run_workflow_id run); JStr (run_run_id run)] in
  transition_record r (Started c completed_at run) (ss_start_at (ss_base r)) (version r) completed_at START_MUTATION
    completion_digest.

Definition fail_scheduled_start (r : ScheduledStartRecord) (c : Claim) (failure_code : ScheduledStartFailureCode)
    (completed_at : Z) : ssres ScheduledStartRecord :=
  let failure_digest := scheduled_start_request_digest
    [JStr "fail"; JStr (ss_id r); JInt (claimed_version c); JStr (failure_code_value failure_code)] in
  transition_record r (FailedStart c completed_at failure_code) (ss_start_at (ss_base r)) (version r) completed_at
    FAIL_MUTATION failure_digest.

(** ** Identities *)

(** An identity of a kind that is well formed, in a scope whose digest is. *)
Definition scoped_id (kind scope_digest : string) (parts : list string) : string :=
  identity_prefix kind scope_digest +:+ hexdigest (dumps_strings parts).

Definition make_scheduled_start_id (scope : RuntimeScope) (workflow_name business_request_id : string) : string :=
  scoped_id "scheduled-start" (digest scope) [workflow_name; business_request_id].

Definition make_scheduled_start_schedule_id (scope : RuntimeScope) (scheduled_start_id : string) : string :=
  scoped_id "scheduled-start-schedule" (digest scope) [scheduled_start_id].

Definition make_scheduled_start_arbiter_id (scope : RuntimeScope) (scheduled_start_id : string) (version : Z) : string :=
  scoped_id "scheduled-start-arbiter" (digest scope) [scheduled_start_id; Z_to_string version].

Definition make_scheduled_start_due_id (scope : RuntimeScope) (scheduled_start_id : string) (version : Z) : string :=
  scoped_id "scheduled-start-due" (digest scope) [scheduled_start_id; Z_to_string version].

(** The checks of [scoped_identity_from_digest] pass on these kinds and on a digest. *)
Lemma scoped_id_exact kind scope parts :
  validate_identity_kind kind = Ok tt -> scoped_identity kind scope parts = Ok (scoped_id kind (digest scope) parts).
Proof.
  intros Hk. unfold scoped_identity, scoped_identity_from_digest, validate_scope_digest.
  rewrite Hk. unfold digest. by rewrite hexdigest_form.
Qed.
End scheduled_starts.
