(* ===== verification/TemporalCalls.v ===== *)
(** The calls that the starter of workflows ([runtime/starter.py]) and the service of
    scheduled starts ([runtime/scheduled_start_service.py]) make: of the client of
    Temporal, of the resolver of targets, of the clock and of the observers. *)

From S2P Require Export ScheduledStarts.

(** ** Workflows *)

(** [Priority] *)
Record Priority := {
  priority_key : Z;
  fairness_key : string;
  fairness_weight : spec_float;
}.

(** [WorkflowTrigger] of [sdk/message_contract.py] *)
Record WorkflowTrigger := {
  tg_request_id : string;
  tg_globals : list (string * json);
  tg_correlation_id : string;
  tg_trace_id : option string;
  tg_definition_digest : string;
  tg_worker_deployment : string;
  tg_worker_build_id : string;
  tg_worker_artifact : WorkerArtifactIdentity;
  tg_environment_snapshot_digest : string;
  tg_execution_configuration : option ExecutionConfigurationIdentity;
  tg_trigger_source : string;
  tg_trigger_name : string;
  tg_source_identity_digest : string;
  tg_correlation_identity_digest : string;
  tg_scope_digest : string;
}.

(** The constraints on its fields and [validate_worker_artifact]. *)
Definition valid_trigger (t : WorkflowTrigger) : bool :=
  identifier_field (tg_request_id t) && identifier_field (tg_correlation_id t)
  && optional identifier_field (tg_trace_id t)
  && bool_decide (String.length (tg_definition_digest t) = 64)%nat
  && identifier_field (tg_worker_deployment t) && identifier_field (tg_worker_build_id t)
  && digest_field (tg_environment_snapshot_digest t) && identifier_field (tg_trigger_name t)
  && digest_field (tg_source_identity_digest t) && digest_field (tg_correlation_identity_digest t)
  && digest_field (tg_scope_digest t)
  && bool_decide (tg_worker_deployment t = wa_deployment_name (tg_worker_artifact t))
  && bool_decide (tg_worker_build_id t = wa_build_id (tg_worker_artifact t)).

(** The argument of a workflow: a trigger, or the input of an arbiter. *)
Inductive workflow_argument :=
| TriggerArgument (trigger : WorkflowTrigger)
| ArbiterArgument (input : ScheduledStartArbiterInput).

(** A call of [client.start_workflow] with the policies [REJECT_DUPLICATE] and [FAIL]. *)
Record WorkflowStart := {
  ws_type : string;
  ws_argument : workflow_argument;
  ws_id : string;
  ws_task_queue : string;
  ws_memo : list (string * string);
  ws_search_attributes : option (list (string * string));
  ws_pinned : option (string * string);
  ws_priority : option Priority;
}.

(** [WorkflowExecutionStatus]: open, completed, or closed otherwise. *)
Inductive WorkflowExecutionStatus := RUNNING | COMPLETED | CLOSED_OTHERWISE.

#[export] Instance WorkflowExecutionStatus_eq_dec : EqDecision WorkflowExecutionStatus.
Proof. solve_decision. Defined.

(** [WorkflowExecutionDescription] *)
Record ExecutionDescription := {
  xd_memo : list (string * json);
  xd_status : WorkflowExecutionStatus;
  xd_start_time : Z;
  xd_run_id : string;
}.

(** [memo_value(key, None, type_hint=str)] *)
Definition memo_text_value (memo : list (string * json)) (key : string) : res (option string) :=
  match dict_get key memo with
  | None => Ok None
  | Some (JStr s) => Ok (Some s)
  | Some _ => raise TypeError "Expected value to be str"
  end.

(** ** Schedules *)

(** The argument of a schedule's action: what [ScheduledStartDueInput] makes of it. *)
Inductive action_argument :=
| DueArgument (record : ScheduledStartRecord)
| OtherArgument.

(** [ScheduleActionStartWorkflow] *)
Record StartAction := {
  sa_workflow : string;
  sa_args : list action_argument;
  sa_id : string;
  sa_task_queue : string;
  sa_memo : list (string * string);
  sa_priority : Priority;
  sa_maximum_interval_seconds : Z;
}.

(** [ScheduleCalendarSpec] of one instant. *)
Record CalendarInstant := {
  ci_second : Z;
  ci_minute : Z;
  ci_hour : Z;
  ci_day_of_month : Z;
  ci_month : Z;
  ci_year : Z;
}.

(** [Schedule] with the policy [SKIP]; the action is absent where it starts no workflow. *)
Record Schedule := {
  sch_action : option StartAction;
  sch_calendars : list CalendarInstant;
  sch_time_zone_name : string;
  sch_note : string;
  sch_paused : bool;
  sch_limited_actions : bool;
  sch_remaining_actions : Z;
}.

(** [ScheduleDescription] *)
Record ScheduleDescription := {
  dsc_id : string;
  dsc_schedule : Schedule;
  dsc_memo : list (string * json);
}.

(** What ends an update early: an exception of the updater or one of the client. *)
Inductive update_exn :=
| UpdaterRaised (e : scheduled_exn)
| ClientRaised (e : temporal_exn).

(** [ScheduledStartMetricOutcome] *)
Inductive ScheduledStartMetricOutcome :=
| METRIC_ACCEPTED | METRIC_DUPLICATE | METRIC_RESCHEDULED | METRIC_CANCELED | METRIC_DUE | METRIC_STARTED
| METRIC_FAILED | SKIPPED_STALE_FIRE | ARBITER_CONFLICT | ARBITER_RECLAIM | MUTATION_WAIT_TIMEOUT.

(** ** Calls *)

Inductive temporal_call :=
| StartWorkflow (s : WorkflowStart)
| DescribeWorkflow (workflow_id : string) (run_id : option string)
| WorkflowResult (workflow_id : string)
| CreateSchedule (schedule_id : string) (schedule : Schedule) (memo : list (string * string))
| DescribeSchedule (schedule_id : string)
| UpdateSchedule (schedule_id : string) (updater : ScheduleDescription -> ssres (option Schedule))
| ListSchedules (query : string) (page_size : Z) (page_token : option string)
| DeleteSchedule (schedule_id : string)
| ContinueRun (workflow_id : string) (before after : ScheduledStartArbiterInput)
| CompleteRun (workflow_id : string) (before : ScheduledStartArbiterInput) (result : ScheduledStartArbiterResult)
| CurrentInput (workflow_id : string)
| ReportActivity
| WorkflowNow
| ResolveTarget (scope : RuntimeScope) (workflow_name : string)
| Now
| Sleep
| AcquireLock
| ReleaseLock
| RecordStart (source : string) (outcome : string)
| RecordOutcome (outcome : ScheduledStartMetricOutcome)
| RecordDecision (outcome : ScheduledStartMetricOutcome) (record : ScheduledStartRecord).

(** The last five of the client's calls stand for what Temporal does with a workflow: the
    run continues as new or completes, if it is still the run of that input; the input of
    the current run; whether the completion of an activity arrives in time; the time of
    the workflow.

    The answers.  A start answers with the run of its handle, the result of an arbiter
    with what it validates to, a listing with the identities of one page and the token of
    the next; the clock may be naive. *)
#[export] Instance temporal_calls : Calls := {|
  call := temporal_call;
  answer c :=
    match c with
    | StartWorkflow _ => result temporal_exn (option string)
    | DescribeWorkflow _ _ => result temporal_exn ExecutionDescription
    | WorkflowResult _ => result temporal_exn (option ScheduledStartArbiterResult)
    | CreateSchedule _ _ _ => result temporal_exn unit
    | DescribeSchedule _ => result temporal_exn ScheduleDescription
    | UpdateSchedule _ _ => result update_exn unit
    | ListSchedules _ _ _ => result temporal_exn (list string * option string)
    | DeleteSchedule _ => result temporal_exn unit
    | ContinueRun _ _ _ | CompleteRun _ _ _ => unit
    | CurrentInput _ => option ScheduledStartArbiterInput
    | ResolveTarget _ _ => result exn (option WorkflowStartRegistration)
    | ReportActivity => bool
    | WorkflowNow => Z
    | Now => option Z
    | Sleep | AcquireLock | ReleaseLock | RecordStart _ _ | RecordOutcome _ | RecordDecision _ _ => unit
    end
|}.

(** An [RPCError] of a status. *)
Definition has_status (status : string) (e : temporal_exn) : bool :=
  match e with RPCError s _ => bool_decide (s = status) | _ => false end.

Definition start_workflow (s : WorkflowStart) : xprog temporal_exn (option string) := Call (StartWorkflow s) Ret.
Definition describe_workflow (workflow_id : string) (run_id : option string) : xprog temporal_exn ExecutionDescription :=
  Call (DescribeWorkflow workflow_id run_id) Ret.
Definition workflow_result (workflow_id : string) : xprog temporal_exn (option ScheduledStartArbiterResult) :=
  Call (WorkflowResult workflow_id) Ret.
Definition create_schedule_call (schedule_id : string) (s : Schedule) (memo : list (string * string))
  : xprog temporal_exn unit := Call (CreateSchedule schedule_id s memo) Ret.
Definition describe_schedule (schedule_id : string) : xprog temporal_exn ScheduleDescription :=
  Call (DescribeSchedule schedule_id) Ret.
Definition update_schedule (schedule_id : string) (updater : ScheduleDescription -> ssres (option Schedule))
  : xprog update_exn unit := Call (UpdateSchedule schedule_id updater) Ret.
Definition list_schedules (query : string) (page_size : Z) (page_token : option string)
  : xprog temporal_exn (list string * option string) := Call (ListSchedules query page_size page_token) Ret.
Definition delete_schedule (schedule_id : string) : xprog temporal_exn unit := Call (DeleteSchedule schedule_id) Ret.
Definition resolve_target (scope : RuntimeScope) (workflow_name : string)
  : xprog exn (option WorkflowStartRegistration) := Call (ResolveTarget scope workflow_name) Ret.

(** A call whose answer is not an exception. *)
Definition ask {E} (c : temporal_call) : xprog E (answer c) := Call c (fun a => Ret (Ok a)).
Arguments ask : simpl never.
