(* ===== verification/Starter.v ===== *)
(** [WorkflowStarter] of [runtime/starter.py]: workflows start under one policy of
    identities, and a start that was made before is answered with what it started. *)

From S2P Require Export TemporalCalls.

(** [StartStatus] *)
Inductive StartStatus := STARTED_STATUS | DUPLICATE_START.

#[export] Instance StartStatus_eq_dec : EqDecision StartStatus.
Proof. solve_decision. Defined.

(** [StartWorkflowResult] *)
Record StartWorkflowResult := {
  swr_workflow_id : string;
  swr_run_id : string;
  swr_workflow_name : string;
  swr_definition_digest : string;
  swr_artifact_identity : WorkerArtifactIdentity;
  swr_environment_snapshot_digest : string;
  swr_execution_configuration : option ExecutionConfigurationIdentity;
  swr_trigger_name : string;
  swr_source_identity_digest : string;
  swr_scope_digest : string;
  swr_status : StartStatus;
}.

(** The constraints on its fields. *)
Definition valid_start_result (r : StartWorkflowResult) : bool :=
  identifier_field (swr_workflow_id r) && identifier_field (swr_run_id r) && name_field (swr_workflow_name r)
  && digest_field (swr_definition_digest r) && valid_artifact (swr_artifact_identity r)
  && digest_field (swr_environment_snapshot_digest r)
  && optional valid_execution_configuration (swr_execution_configuration r) && name_field (swr_trigger_name r)
  && digest_field (swr_source_identity_digest r) && digest_field (swr_scope_digest r).

Definition new_start_result (r : StartWorkflowResult) : res StartWorkflowResult :=
  if valid_start_result r then Ok r else raise ValidationError "StartWorkflowResult".

(** ** The memo of an execution *)

Definition MEMO_TRIGGER_SOURCE : string := "justflow.trigger_source".
Definition MEMO_SOURCE_IDENTITY_DIGEST : string := "justflow.source_identity_digest".
Definition MEMO_CORRELATION_IDENTITY_DIGEST : string := "justflow.correlation_identity_digest".
Definition MEMO_SOURCE_PROVIDER : string := "justflow.source_provider".
Definition MEMO_TRIGGER_NAME : string := "justflow.trigger_name".

(** [_memo_text] *)
Definition memo_text (memo : list (string * json)) (key : string) : option string :=
  match dict_get key memo with
  | Some (JStr (String _ _ as value)) => Some value
  | _ => None
  end.

(** [_required_memo_text] *)
Definition required_memo_text (memo : list (string * json)) (key : string) : res string :=
  from_option (memo_text memo key) (Exn ValueError ("Existing workflow memo is missing " +:+ key) None).

(** The identity of the configuration in a memo: all of it, or none. *)
Definition memo_configuration (memo : list (string * json)) : res (option ExecutionConfigurationIdentity) :=
  match memo_text memo "justflow.configuration_revision", memo_text memo "justflow.configuration_resolution_digest" with
  | None, None => Ok None
  | Some revision, Some resolution =>
      let c := {| ec_configuration_revision_id := revision;
                  ec_tenant_configuration_revision_id := memo_text memo "justflow.tenant_configuration_revision";
                  ec_component_catalog_revision := memo_text memo "justflow.component_catalog_revision";
                  ec_component_identity_digest := memo_text memo "justflow.component_identity_digest";
                  ec_resolution_digest := resolution |} in
      if valid_execution_configuration c then Ok (Some c) else raise ValidationError "ExecutionConfigurationIdentity"
  | _, _ => raise ValueError "Existing workflow configuration memo is incomplete"
  end.

(** [_start_result_from_memo] *)
Definition start_result_from_memo (memo : list (string * json)) (workflow_id run_id : string)
  : res StartWorkflowResult :=
  workflow_name ← required_memo_text memo "justflow.logical_workflow";
  definition_digest ← required_memo_text memo "justflow.definition_digest";
  scope_digest ← required_memo_text memo MEMO_SCOPE_DIGEST;
  trigger_name ← required_memo_text memo MEMO_TRIGGER_NAME;
  source_digest ← required_memo_text memo MEMO_SOURCE_IDENTITY_DIGEST;
  deployment_name ← required_memo_text memo "justflow.worker_deployment";
  build_id ← required_memo_text memo "justflow.worker_build_id";
  artifact_digest ← required_memo_text memo "justflow.worker_artifact_digest";
  package_version ← required_memo_text memo "justflow.worker_package_version";
  let artifact := {| wa_deployment_name := deployment_name; wa_build_id := build_id;
                     wa_artifact_digest := artifact_digest; wa_package_version := package_version;
                     wa_source_revision := memo_text memo "justflow.worker_source_revision" |} in
  _ ← guard_or (valid_artifact artifact) (Exn ValidationError "WorkerArtifactIdentity" None);
  execution_configuration ← memo_configuration memo;
  environment_snapshot_digest ← required_memo_text memo "justflow.environment_snapshot_digest";
  new_start_result {|
    swr_workflow_id := workflow_id; swr_run_id := run_id; swr_workflow_name := workflow_name;
    swr_definition_digest := definition_digest; swr_artifact_identity := artifact;
    swr_environment_snapshot_digest := environment_snapshot_digest;
    swr_execution_configuration := execution_configuration; swr_trigger_name := trigger_name;
    swr_source_identity_digest := source_digest; swr_scope_digest := scope_digest; swr_status := DUPLICATE_START |}.

(** ** The starter *)

Definition AUTHORITATIVE_START_REJECTION_STATUSES : list string :=
  ["INVALID_ARGUMENT"; "NOT_FOUND"; "PERMISSION_DENIED"; "RESOURCE_EXHAUSTED"; "FAILED_PRECONDITION"; "ABORTED";
   "OUT_OF_RANGE"; "UNIMPLEMENTED"; "UNAUTHENTICATED"].

(** [WorkflowStartError(TEMPORAL_UNAVAILABLE, msg, retryable=True, request_certainty)] *)
Definition temporal_unavailable (msg : string) (certainty : StartRequestCertainty) : start_exn :=
  WorkflowStartError START_TEMPORAL_UNAVAILABLE msg true certainty.

(** [except Exception]: a cancellation passes. *)
Definition on_exception {E E' A} (is_exception : E -> option E') (h : E -> xprog E' A) (e : E) : xprog E' A :=
  match is_exception e with Some passed => xraise passed | None => h e end.

(** What is no [Exception] among the exceptions of the client. *)
Definition cancellation (e : temporal_exn) : option exn :=
  match e with OtherError e => if is_exception e then None else Some e | _ => None end.

(** The settings of [WorkflowStarter.__init__]. *)
Record WorkflowStarter := {
  st_task_queue : string;
  st_limits : RuntimeLimits;
  st_indexed_search_attributes : bool;
  st_pinned_start_attempts : Z;
}.

Section starter.
Context `{Sha256, FloatRepr, PayloadContracts} (self : WorkflowStarter).

(** [WorkflowStarter._resolve_target] *)
Definition resolve_target_for (scope : RuntimeScope) (request : StartWorkflowRequest)
  : xprog start_exn WorkflowStartRegistration :=
  registration ← xcatch (resolve_target scope (sr_workflow_name request)) (fun e => xraise (StartPyError e));
  match registration with
  | None => xraise (start_rejected UNKNOWN_WORKFLOW "The requested workflow is not registered")
  | Some registration =>
      match sr_definition_digest request with
      | Some d =>
          if bool_decide (d = mf_definition_digest (wt_manifest (wr_target registration))) then mret registration
          else xraise (start_rejected DEFINITION_UNAVAILABLE "The requested workflow definition is not available")
      | None => mret registration
      end
  end.

(** [WorkflowStarter.prepare] *)
Definition prepare (request : StartWorkflowRequest) (binding : TrustedScopeBinding)
  : xprog start_exn PreparedWorkflowStart :=
  scope ← xlift (bound_scope (sr_source request) binding);
  registration ← resolve_target_for scope request;
  trigger ← xlift (match_trigger (wr_triggers registration) (sr_source request) binding);
  _ ← xlift (validate_resolved_target scope request (wr_target registration));
  normalized_input ← xlift (validate_workflow_start_input (sr_input request) (wr_target registration) (st_limits self));
  mret {| pw_target := wr_target registration; pw_trigger := trigger; pw_normalized_input := normalized_input |}.

(** [WorkflowStarter.resolve_active_target] *)
Definition resolve_active_target (scope : RuntimeScope) (workflow_name : string)
  : xprog start_exn WorkflowStartTarget :=
  registration ← xcatch (resolve_target scope workflow_name) (fun e => xraise (StartPyError e));
  match registration with
  | None => xraise (start_rejected UNKNOWN_WORKFLOW "The requested workflow is not registered")
  | Some registration =>
      let target := wr_target registration in
      if supports (wt_deployment target) (wt_manifest target) then mret target
      else xraise (start_rejected INCOMPATIBLE_WORKER "The active workflow definition has no compatible worker")
  end.

(** [WorkflowStarter.validate_resolved_input] *)
Definition validate_resolved_input (input : list (string * json)) (target : WorkflowStartTarget)
  : stres (list (string * json)) := validate_workflow_start_input input target (st_limits self).

(** [WorkflowStarter._lookup_existing_result] *)
Definition lookup_existing_result (workflow_id : string) (run_id : option string) (scope : RuntimeScope)
  : xprog start_exn (option StartWorkflowResult) :=
  result ← xcatch
    (d ← describe_workflow workflow_id run_id;
     result ← xlift (match start_result_from_memo (xd_memo d) workflow_id (xd_run_id d) with
                     | Ok r => Ok r
                     | Raise e => Raise (OtherError e)
                     end);
     mret (Some result))
    (on_exception (fun e => StartPyError <$> cancellation e) (fun e =>
      if has_status "NOT_FOUND" e then mret None
      else xraise (temporal_unavailable "Temporal workflow run metadata is unavailable" AMBIGUOUS)));
  match (result : option StartWorkflowResult) with
  | None => mret None
  | Some result =>
      if bool_decide (swr_scope_digest result = digest scope) then mret (Some result)
      else xraise (start_rejected DEFINITION_UNAVAILABLE
                     "The existing workflow execution belongs to another runtime scope")
  end.

(** [WorkflowStarter._existing_result] *)
Definition existing_result (workflow_id : string) (run_id : option string) (scope : RuntimeScope)
  : xprog start_exn StartWorkflowResult :=
  result ← lookup_existing_result workflow_id run_id scope;
  match (result : option StartWorkflowResult) with
  | Some result => mret result
  | None => xraise (temporal_unavailable
                      "Temporal accepted the workflow identity but its run metadata is unavailable" AMBIGUOUS)
  end.

(** [make_workflow_id(..., scope=scope)]: the kind is well formed. *)
Definition start_workflow_id (scope : RuntimeScope) (workflow_name business_request_id : string) : string :=
  scoped_id "workflow" (digest scope) [workflow_name; business_request_id].

(** [WorkflowStarter.find_existing] *)
Definition find_existing (workflow_name business_request_id : string) (scope : RuntimeScope)
  : xprog start_exn (option StartWorkflowResult) :=
  lookup_existing_result (start_workflow_id scope workflow_name business_request_id) None scope.

(** [WorkflowStarter._resolve_run_id] *)
Definition resolve_run_id (workflow_id : string) (run_id : option string) : xprog start_exn string :=
  match run_id with
  | Some run_id => mret run_id
  | None =>
      d ← xcatch (describe_workflow workflow_id None)
        (on_exception (fun e => StartPyError <$> cancellation e) (fun _ =>
          xraise (temporal_unavailable "Temporal accepted the workflow identity but did not return its run identity"
                    AUTHORITATIVE_REJECTION)));
      mret (xd_run_id d)
  end.

(** [execution_search_attributes] *)
Definition execution_search_attributes (scope_digest logical_workflow definition_digest trigger_source
    worker_artifact_digest : string) : list (string * string) :=
  [("JustflowScopeDigest", scope_digest); ("JustflowLogicalWorkflow", logical_workflow);
   ("JustflowDefinitionDigest", definition_digest); ("JustflowTriggerSource", trigger_source);
   ("JustflowWorkerArtifact", worker_artifact_digest)].

(** The memo that [_start] gives an execution. *)
Definition start_memo (request : StartWorkflowRequest) (scope : RuntimeScope) (target : WorkflowStartTarget)
    (trigger_name : string) : list (string * string) :=
  let memo := dict_update (target_memo target) [
    (MEMO_TRIGGER_SOURCE, source_value (sr_source request));
    (MEMO_TRIGGER_NAME, trigger_name);
    (MEMO_SOURCE_IDENTITY_DIGEST, source_identity_digest (sr_source request) scope);
    (MEMO_CORRELATION_IDENTITY_DIGEST, identity_digest (sr_correlation_id request));
    (MEMO_SCOPE_DIGEST, digest scope)] in
  maybe_set MEMO_SOURCE_PROVIDER (source_provider (sr_source request)) memo.

(** The trigger that [_start] gives an execution. *)
Definition start_trigger (request : StartWorkflowRequest) (scope : RuntimeScope) (target : WorkflowStartTarget)
    (trigger_name : string) (normalized_input : list (string * json)) : stres WorkflowTrigger :=
  let t := {|
    tg_request_id := sr_business_request_id request; tg_globals := normalized_input;
    tg_correlation_id := sr_correlation_id request; tg_trace_id := sr_trace_id request;
    tg_definition_digest := mf_definition_digest (wt_manifest target);
    tg_worker_deployment := wd_name (wt_deployment target); tg_worker_build_id := wd_build_id (wt_deployment target);
    tg_worker_artifact := wd_artifact_identity (wt_deployment target);
    tg_environment_snapshot_digest := wt_environment_snapshot_digest target;
    tg_execution_configuration := wt_execution_configuration target;
    tg_trigger_source := source_value (sr_source request); tg_trigger_name := trigger_name;
    tg_source_identity_digest := source_identity_digest (sr_source request) scope;
    tg_correlation_identity_digest := identity_digest (sr_correlation_id request); tg_scope_digest := digest scope |} in
  if valid_trigger t then Ok t else Raise (StartPyError (Exn ValidationError "WorkflowTrigger" None)).

(** The call of [client.start_workflow], whose arguments may raise. *)
Definition start_call (request : StartWorkflowRequest) (scope : RuntimeScope) (target : WorkflowStartTarget)
    (trigger_name : string) (trigger : WorkflowTrigger) (priority : option Priority)
  : xprog temporal_exn (option string) :=
  match workflow_type target with
  | Raise _ => xraise (OtherError (Exn ValueError "workflow_type" None))
  | Ok type =>
      start_workflow {|
        ws_type := type; ws_argument := TriggerArgument trigger;
        ws_id := start_workflow_id scope (sr_workflow_name request) (sr_business_request_id request);
        ws_task_queue := st_task_queue self;
        ws_memo := start_memo request scope target trigger_name;
        ws_search_attributes :=
          if st_indexed_search_attributes self
          then Some (execution_search_attributes (digest scope) (mf_logical_name (wt_manifest target))
                       (mf_definition_digest (wt_manifest target)) (source_value (sr_source request))
                       (wa_artifact_digest (wd_artifact_identity (wt_deployment target))))
          else None;
        ws_pinned := Some (wd_name (wt_deployment target), wd_build_id (wt_deployment target));
        ws_priority := priority |}
  end.

(** [WorkflowStarter._result] *)
Definition start_result (target : WorkflowStartTarget) (workflow_id run_id source_digest : string)
    (scope : RuntimeScope) (status : StartStatus) (trigger_name : string) : stres StartWorkflowResult :=
  start_py (new_start_result {|
    swr_workflow_id := workflow_id; swr_run_id := run_id; swr_workflow_name := mf_logical_name (wt_manifest target);
    swr_definition_digest := mf_definition_digest (wt_manifest target);
    swr_artifact_identity := wd_artifact_identity (wt_deployment target);
    swr_environment_snapshot_digest := wt_environment_snapshot_digest target;
    swr_execution_configuration := wt_execution_configuration target; swr_trigger_name := trigger_name;
    swr_source_identity_digest := source_digest; swr_scope_digest := digest scope; swr_status := status |}).

(** The target and the trigger of [_start]: those given, or those that resolve. *)
Definition start_target (scope : RuntimeScope) (request : StartWorkflowRequest) (binding : TrustedScopeBinding)
    (resolved : option (WorkflowStartTarget * option MatchedTrigger))
  : xprog start_exn (WorkflowStartTarget * MatchedTrigger) :=
  match resolved with
  | None =>
      registration ← resolve_target_for scope request;
      trigger ← xlift (match_trigger (wr_triggers registration) (sr_source request) binding);
      mret (wr_target registration, trigger)
  | Some (target, Some trigger) => mret (target, trigger)
  | Some (_, None) =>
      xraise (StartPyError (Exn (ExternalError "RuntimeError" None None None)
        "Resolved workflow start omitted its trigger identity" None))
  end.

(** [WorkflowStarter._start] *)
Definition start_unmetered (request : StartWorkflowRequest) (binding : TrustedScopeBinding)
    (resolved : option (WorkflowStartTarget * option MatchedTrigger)) (priority : option Priority)
  : xprog start_exn StartWorkflowResult :=
  scope ← xlift (bound_scope (sr_source request) binding);
  tt ← start_target scope request binding resolved;
  let '(target, trigger) := tt in
  _ ← xlift (validate_source_binding (sr_source request) binding);
  _ ← xlift (validate_resolved_target scope request target);
  normalized_input ← xlift (validate_workflow_start_input (sr_input request) target (st_limits self));
  let workflow_id := start_workflow_id scope (sr_workflow_name request) (sr_business_request_id request) in
  argument ← xlift (start_trigger request scope target (mt_name trigger) normalized_input);
  started ← xcatch
    (run_id ← retry_pinned_workflow_start (ask Sleep)
       (start_call request scope target (mt_name trigger) argument priority)
       (wt_deployment target) (st_task_queue self) (st_pinned_start_attempts self);
     mret (inl run_id))
    (on_exception (fun e => StartPyError <$> cancellation e) (fun e =>
      match e with
      | WorkflowAlreadyStartedError run_id => result ← existing_result workflow_id run_id scope; mret (inr result)
      | RPCError status _ =>
          xraise (temporal_unavailable "Temporal did not accept the workflow start"
                    (if bool_decide (status ∈ AUTHORITATIVE_START_REJECTION_STATUSES)
                     then AUTHORITATIVE_REJECTION else AMBIGUOUS))
      | _ => xraise (temporal_unavailable "Temporal did not accept the workflow start" AMBIGUOUS)
      end));
  match (started : option string + StartWorkflowResult) with
  | inr result => mret result
  | inl run_id =>
      run_id ← resolve_run_id workflow_id run_id;
      xlift (start_result target workflow_id run_id (source_identity_digest (sr_source request) scope) scope
               STARTED_STATUS (mt_name trigger))
  end.

(** [WorkflowStarter._start_with_metrics] *)
Definition start_with_metrics (request : StartWorkflowRequest) (binding : TrustedScopeBinding)
    (resolved : option (WorkflowStartTarget * option MatchedTrigger)) (priority : option Priority)
  : xprog start_exn StartWorkflowResult :=
  let source := source_value (sr_source request) in
  result ← xcatch (start_unmetered request binding resolved priority) (fun e =>
    match e with
    | WorkflowStartError _ _ retryable _ =>
        _ ← ask (RecordStart source (if retryable then "error" else "rejected")); xraise e
    | _ => xraise e
    end);
  _ ← ask (RecordStart source (match swr_status result with STARTED_STATUS => "started" | _ => "duplicate" end));
  mret result.

(** [WorkflowStarter.start] *)
Definition start (request : StartWorkflowRequest) (binding : TrustedScopeBinding)
  : xprog start_exn StartWorkflowResult := start_with_metrics request binding None None.

(** [WorkflowStarter.start_resolved] *)
Definition start_resolved (request : StartWorkflowRequest) (target : WorkflowStartTarget) (trigger_name : string)
    (binding : TrustedScopeBinding) : xprog start_exn StartWorkflowResult :=
  match sr_definition_digest request with
  | None => xraise (start_rejected DEFINITION_UNAVAILABLE
                      "A resolved workflow start requires an immutable definition identity")
  | Some _ =>
      match sr_source request with
      | ScheduleSourceIdentity schedule _ =>
          if bool_decide (schedule = trigger_name)
          then start_with_metrics request binding
                 (Some (target, Some {| mt_name := trigger_name; mt_kind := "schedule" |})) None
          else xraise (start_rejected INVALID_REQUEST
                         "Resolved schedule start does not match its immutable trigger identity")
      | _ => xraise (start_rejected INVALID_REQUEST
                       "Resolved schedule start does not match its immutable trigger identity")
      end
  end.

(** [WorkflowStarter.start_accepted_api] *)
Definition start_accepted_api (request : StartWorkflowRequest) (target : WorkflowStartTarget) (trigger_name : string)
    (binding : TrustedScopeBinding) (priority : option Priority) : xprog start_exn StartWorkflowResult :=
  match sr_definition_digest request with
  | None => xraise (start_rejected DEFINITION_UNAVAILABLE
                      "A deferred workflow start requires an immutable definition identity")
  | Some _ =>
      match sr_source request with
      | ControlApiSourceIdentity _ =>
          start_with_metrics request binding (Some (target, Some {| mt_name := trigger_name; mt_kind := "api" |}))
            priority
      | _ => xraise (start_rejected INVALID_REQUEST
                       "Deferred API start does not retain its accepted source identity")
      end
  end.
End starter.
