(* ===== verification/ScheduledStartStore.v ===== *)
(** Scheduled starts as Temporal holds them: the schedule made of a record and the record
    read back from a schedule ([runtime/scheduled_start_service.py]). *)

From S2P Require Export Starter.

(** ** Settings *)

(** [ScheduledStartSettings] of [config/settings.py] *)
Record ScheduledStartSettings := {
  max_horizon_seconds : Z;
  clock_skew_seconds : Z;
  max_input_bytes : Z;
  max_pending_per_scope : Z;
  default_list_limit : Z;
  max_list_limit : Z;
  max_schedules : Z;
  describe_concurrency : Z;
  terminal_retention_seconds : Z;
  cleanup_page_size : Z;
  recovery_max_interval_seconds : Z;
  ss_settings_dispatch_timeout_seconds : Z;
  ss_settings_dispatch_attempts : Z;
  mutation_wait_seconds : Z;
}.

(** [ScheduledStartWorkloadPolicySettings] *)
Record ScheduledStartWorkloadPolicySettings := {
  allowed_classes : list ScheduledStartWorkloadClass;
  interactive_priority_key : Z;
  standard_priority_key : Z;
  batch_priority_key : Z;
  policy_fairness_weight : spec_float;
}.

(** [ScheduledStartWorkloadPolicySettings.priority_key] *)
Definition policy_priority_key (p : ScheduledStartWorkloadPolicySettings) (c : ScheduledStartWorkloadClass) : Z :=
  match c with
  | INTERACTIVE => interactive_priority_key p | STANDARD => standard_priority_key p | BATCH => batch_priority_key p
  end.

(** [SettingsScheduledStartWorkloadPolicy.priority] *)
Definition settings_priority `{Sha256} (p : ScheduledStartWorkloadPolicySettings) (scope : RuntimeScope)
    (c : ScheduledStartWorkloadClass) : ssres Priority :=
  if bool_decide (c ∈ allowed_classes p)
  then Ok {| priority_key := policy_priority_key p c; fairness_key := digest scope;
             fairness_weight := policy_fairness_weight p |}
  else Raise (ScheduledStartError SCHEDULED_INVALID_REQUEST
                "Scheduled-start workload class is not granted for this runtime scope" false).

(** [ScheduledStartQuotaController]: given how to count the pending starts and how to
    create the schedule; the schedule that is created tells whether it was there. *)
Record QuotaController := {
  quota_create : RuntimeScope -> Z -> xprog scheduled_exn Z -> xprog scheduled_exn bool -> xprog scheduled_exn bool;
}.

(** [ScheduledStartService.__init__] *)
Record ScheduledStartService := {
  sv_starter : WorkflowStarter;
  sv_settings : ScheduledStartSettings;
  sv_task_queue : string;
  sv_priority : RuntimeScope -> ScheduledStartWorkloadClass -> ssres Priority;
  sv_quota : option QuotaController;
}.

(** ** Instants *)

(** The date of a day, counted from 1970-01-01. *)
Definition civil_from_days (days : Z) : Z * Z * Z :=
  let z := (days + 719468)%Z in
  let era := (z / 146097)%Z in
  let doe := (z mod 146097)%Z in
  let yoe := ((doe - doe / 1460 + doe / 36524 - doe / 146096) / 365)%Z in
  let doy := (doe - (365 * yoe + yoe / 4 - yoe / 100))%Z in
  let mp := ((5 * doy + 2) / 153)%Z in
  let d := (doy - (153 * mp + 2) / 5 + 1)%Z in
  let m := (if mp <? 10 then mp + 3 else mp - 9)%Z in
  ((yoe + era * 400 + (if m <=? 2 then 1 else 0))%Z, m, d).

(** [_calendar_instant] *)
Definition calendar_instant (start_at : Z) : CalendarInstant :=
  let seconds := (start_at / 1000000)%Z in
  let '(year, month, day) := civil_from_days (seconds / 86400)%Z in
  {| ci_second := (seconds mod 60)%Z; ci_minute := (seconds / 60 mod 60)%Z; ci_hour := (seconds / 3600 mod 24)%Z;
     ci_day_of_month := day; ci_month := month; ci_year := year |}.

Definition not_found : scheduled_exn := ScheduledStartError NOT_FOUND "Scheduled start does not exist" false.

(** [ScheduledStartError(TEMPORAL_UNAVAILABLE, msg, retryable=True)] *)
Definition scheduled_unavailable (msg : string) : scheduled_exn :=
  ScheduledStartError SCHEDULED_TEMPORAL_UNAVAILABLE msg true.

(** What no clause of a handler catches: a cancellation. *)
Definition scheduled_cancellation (e : temporal_exn) : option scheduled_exn := ScheduledPyError <$> cancellation e.

Section store.
Context `{Sha256, FloatRepr, Timestamps, PayloadContracts} (self : ScheduledStartService).

(** [_entity_memo] *)
Definition entity_memo (r : ScheduledStartRecord) : list (string * string) :=
  [(MEMO_SCHEDULED_START_OWNER, SCHEDULED_START_OWNER); (MEMO_SCHEDULED_START_ID, ss_id r);
   (MEMO_SCHEDULED_START_FORMAT_VERSION, Z_to_string SCHEDULED_START_FORMAT_VERSION);
   (MEMO_SCOPE_DIGEST, ss_scope_digest (ss_base r))].

(** [ScheduledStartService._schedule] *)
Definition schedule_of (r : ScheduledStartRecord) (scope : RuntimeScope) (priority : Priority) : Schedule :=
  {| sch_action := Some {|
       sa_workflow := SCHEDULED_START_DUE_WORKFLOW_TYPE; sa_args := [DueArgument r];
       sa_id := make_scheduled_start_due_id scope (ss_id r) (version r); sa_task_queue := sv_task_queue self;
       sa_memo := entity_memo r; sa_priority := priority;
       sa_maximum_interval_seconds := recovery_max_interval_seconds (sv_settings self) |};
     sch_calendars := [calendar_instant (ss_start_at (ss_base r))]; sch_time_zone_name := "UTC";
     sch_note := "scheduled-start:" +:+ scheduled_start_state_value (ss_state r) +:+ ":v" +:+ Z_to_string (version r);
     sch_paused := negb (is_pending r) && is_projection r; sch_limited_actions := true;
     sch_remaining_actions := if is_pending r then 1 else 0 |}.

(** The body of [_record_from_description]; [None] where it raises. *)
Definition described_record (d : ScheduleDescription) (scope : RuntimeScope) : option ScheduledStartRecord :=
  match
    memo_text_value (dsc_memo d) MEMO_SCHEDULED_START_OWNER, memo_text_value (dsc_memo d) MEMO_SCHEDULED_START_ID,
    memo_text_value (dsc_memo d) MEMO_SCOPE_DIGEST, sch_action (dsc_schedule d)
  with
  | Ok owner, Ok (Some memo_id), Ok memo_scope, Some action =>
      match sa_args action with
      | [DueArgument r] =>
          if bool_decide (owner = Some SCHEDULED_START_OWNER) && bool_decide (memo_scope = Some (digest scope))
             && bool_decide (sa_workflow action = SCHEDULED_START_DUE_WORKFLOW_TYPE)
             && bool_decide (sa_task_queue action = sv_task_queue self)
             && valid_record r && is_projection r
             && bool_decide (ss_id r = memo_id) && bool_decide (ss_scope_digest (ss_base r) = digest scope)
             && bool_decide (dsc_id d = make_scheduled_start_schedule_id scope (ss_id r))
             && bool_decide (sa_id action = make_scheduled_start_due_id scope (ss_id r) (version r))
          then Some r else None
      | _ => None
      end
  | _, _, _, _ => None
  end.

(** [ScheduledStartService._record_from_description] *)
Definition record_from_description (d : ScheduleDescription) (scope : RuntimeScope) : ssres ScheduledStartRecord :=
  from_option (described_record d scope) (conflict "Temporal schedule is not a valid owned scheduled start").

(** [_require_scoped_scheduled_start_id] *)
Definition require_scoped_scheduled_start_id (scope : RuntimeScope) (value : string) : ssres unit :=
  guard_or (startswith (identity_prefix "scheduled-start" (digest scope)) value) not_found.

(** The handler of an RPC on one schedule. *)
Definition schedule_rpc_error {A} (msg : string) : temporal_exn -> xprog scheduled_exn A :=
  on_exception scheduled_cancellation (fun e =>
    if has_status "NOT_FOUND" e then xraise not_found else xraise (scheduled_unavailable msg)).

(** [ScheduledStartService._describe_record] *)
Definition describe_record (scope : RuntimeScope) (scheduled_start_id : string)
  : xprog scheduled_exn ScheduledStartRecord :=
  _ ← xlift (require_scoped_scheduled_start_id scope scheduled_start_id);
  d ← xcatch (describe_schedule (make_scheduled_start_schedule_id scope scheduled_start_id))
    (schedule_rpc_error "Temporal could not describe the scheduled start");
  xlift (record_from_description d scope).

(** [ScheduledStartService._existing_record] *)
Definition existing_record (scope : RuntimeScope) (scheduled_start_id : string)
  : xprog scheduled_exn (option ScheduledStartRecord) :=
  xcatch (r ← describe_record scope scheduled_start_id; mret (Some r)) (fun e =>
    match e with
    | ScheduledStartError NOT_FOUND _ _ => mret None
    | _ => xraise e
    end).

(** [ScheduledStartService._now] *)
Definition now_seconds : xprog scheduled_exn Z :=
  value ← ask Now;
  match (value : option Z) with
  | Some value => mret (whole_second value)
  | None => xlift (py_error (ExternalError "RuntimeError" None None None)
                     "Scheduled-start clock returned a timezone-naive value")
  end.

(** [ScheduledStartService._validate_due_time] *)
Definition validate_due_time (start_at now : Z) : ssres unit :=
  let earliest := (now - 1000000 * clock_skew_seconds (sv_settings self))%Z in
  let latest := (now + 1000000 * max_horizon_seconds (sv_settings self))%Z in
  if (start_at <? earliest)%Z || (latest <? start_at)%Z
  then Raise (ScheduledStartError SCHEDULED_INVALID_REQUEST
                "Scheduled-start due time is outside the configured window" false)
  else Ok tt.

(** [ScheduledStartService._require_pending_version] *)
Definition require_pending_version (r : ScheduledStartRecord) (expected_version : Z) : ssres ScheduledStartRecord :=
  if negb (is_pending r) || negb (bool_decide (version r = expected_version)) then Raise no_longer_pending else Ok r.

(** [ScheduledStartService._require_record_scope] *)
Definition require_record_scope (r : ScheduledStartRecord) (scope : RuntimeScope) : ssres unit :=
  guard_or (bool_decide (ss_scope_digest (ss_base r) = digest scope)) (conflict "Scheduled-start scope is inconsistent").

(** [ScheduledStartService._update] *)
Definition update_record_schedule (scope : RuntimeScope) (scheduled_start_id : string)
    (updater : ScheduleDescription -> ssres (option Schedule)) : xprog scheduled_exn unit :=
  _ ← xlift (require_scoped_scheduled_start_id scope scheduled_start_id);
  xcatch (update_schedule (make_scheduled_start_schedule_id scope scheduled_start_id) updater) (fun e =>
    match e with
    | UpdaterRaised (ScheduledStartError _ _ _ as e) => xraise e
    | UpdaterRaised (ScheduledPyError e) =>
        if is_exception e then xraise (scheduled_unavailable "Temporal could not update the scheduled start")
        else xraise (ScheduledPyError e)
    | UpdaterRaised (ScheduledWorkflowStartError _) =>
        xraise (scheduled_unavailable "Temporal could not update the scheduled start")
    | ClientRaised e => schedule_rpc_error "Temporal could not update the scheduled start" e
    end).

(** [_validate_idempotency_key] *)
Definition validate_idempotency_key (value : string) : ssres unit :=
  guard_or (identifier_field value)
    (ScheduledStartError SCHEDULED_INVALID_REQUEST "Scheduled-start idempotency key is invalid" false).

Definition record_decision (outcome : ScheduledStartMetricOutcome) (r : ScheduledStartRecord)
  : xprog scheduled_exn unit := ask (RecordDecision outcome r).
Definition record_metric (outcome : ScheduledStartMetricOutcome) : xprog scheduled_exn unit :=
  ask (RecordOutcome outcome).
End store.
