(* ===== verification/ScheduledStartListing.v ===== *)
(** Pages of scheduled starts: base64, the cursors of [scope.py] and the listing of
    [runtime/scheduled_start_service.py], which resumes within a page of Temporal. *)

From S2P Require Export ScheduledStartStore.

(** ** Base64, URL-safe *)

Definition base64_char (n : N) : Ascii.ascii :=
  Ascii.ascii_of_N
    (if (n <? 26)%N then 65 + n else if (n <? 52)%N then 71 + n
     else if (n <? 62)%N then n - 4 else if (n =? 62)%N then 45 else 95)%N.

(** [altchars=b"-_"] adds to the standard alphabet. *)
Definition base64_digit (c : Ascii.ascii) : option N :=
  let n := Ascii.N_of_ascii c in
  if is_upper c then Some (n - 65)%N else if is_lower c then Some (n - 71)%N
  else if is_digit c then Some (n + 4)%N
  else if (n =? 45)%N || (n =? 43)%N then Some 62%N
  else if (n =? 95)%N || (n =? 47)%N then Some 63%N else None.

(** [base64.urlsafe_b64encode] *)
Fixpoint urlsafe_b64encode (s : string) : string :=
  match s with
  | EmptyString => EmptyString
  | String a EmptyString =>
      let n := Ascii.N_of_ascii a in
      String (base64_char (n / 4)) (String (base64_char (n mod 4 * 16)) "==")
  | String a (String b EmptyString) =>
      let n := (Ascii.N_of_ascii a * 256 + Ascii.N_of_ascii b)%N in
      String (base64_char (n / 1024)) (String (base64_char (n / 16 mod 64)) (String (base64_char (n mod 16 * 4)) "="))
  | String a (String b (String c s)) =>
      let n := (Ascii.N_of_ascii a * 65536 + Ascii.N_of_ascii b * 256 + Ascii.N_of_ascii c)%N in
      String (base64_char (n / 262144)) (String (base64_char (n / 4096 mod 64))
        (String (base64_char (n / 64 mod 64)) (String (base64_char (n mod 64)) (urlsafe_b64encode s))))
  end.

(** [base64.b64decode(value, altchars=b"-_", validate=True)] *)
Fixpoint b64decode (s : string) : option string :=
  match s with
  | EmptyString => Some EmptyString
  | String a (String b (String "=" (String "=" EmptyString))) =>
      x ← base64_digit a; y ← base64_digit b;
      Some (String (Ascii.ascii_of_N (x * 4 + y / 16)) EmptyString)
  | String a (String b (String c (String "=" EmptyString))) =>
      x ← base64_digit a; y ← base64_digit b; z ← base64_digit c;
      let n := (x * 1024 + y * 16 + z / 4)%N in
      Some (String (Ascii.ascii_of_N (n / 256)) (String (Ascii.ascii_of_N (n mod 256)) EmptyString))
  | String a (String b (String c (String d s))) =>
      x ← base64_digit a; y ← base64_digit b; z ← base64_digit c; t ← base64_digit d;
      rest ← b64decode s;
      let n := (x * 262144 + y * 4096 + z * 64 + t)%N in
      Some (String (Ascii.ascii_of_N (n / 65536)) (String (Ascii.ascii_of_N (n / 256 mod 256))
        (String (Ascii.ascii_of_N (n mod 256)) rest)))
  | _ => None
  end.

(** ** Cursors *)

Definition CURSOR_FORMAT_VERSION : Z := 1.
Definition MAX_CURSOR_BYTES : Z := 8192.
Definition MAX_SCHEDULED_START_LIST_LIMIT : Z := 100.

(** [json.loads], where it does not raise. *)
Class JsonLoads := { json_loads : string -> option json }.

(** [_ScheduledStartListPosition] *)
Record ListPosition := {
  lp_page_token : option string;
  lp_page_offset : Z;
  lp_page_size : Z;
}.

(** [_ScheduledStartListCursorPayload]; [None] for a state filter that was not given, and
    [Some None] for one given as null. *)
Record ListCursorPayload := {
  lc_page_token : option string;
  lc_page_offset : Z;
  lc_page_size : option Z;
  lc_state_filter : option (option (list ScheduledStartState));
}.

(** The constraints on its fields and [validate_page_position]. *)
Definition valid_cursor_payload (p : ListCursorPayload) : bool :=
  within 0 MAX_SCHEDULED_START_LIST_LIMIT (lc_page_offset p)
  && optional (within 1 MAX_SCHEDULED_START_LIST_LIMIT) (lc_page_size p)
  && match lc_page_size p with
     | None => (lc_page_offset p =? 0)%Z && bool_decide (lc_state_filter p = None)
     | Some size => (lc_page_offset p <=? size)%Z && negb (bool_decide (lc_state_filter p = None))
     end.

Definition state_of_value (value : string) : option ScheduledStartState :=
  head (filter (fun s => scheduled_start_state_value s = value) [SCHEDULED; DISPATCHING; STARTED; CANCELED; FAILED]).

(** [sorted(states, key=lambda state: state.value)] *)
Definition list_state_filter (states : option (list ScheduledStartState)) : option (list ScheduledStartState) :=
  (fun states => snd <$> sort_keys (map (fun s => (scheduled_start_state_value s, s)) states)) <$> states.

(** [payload.model_dump(mode="json")] *)
Definition cursor_payload_dump (p : ListCursorPayload) : json :=
  JDict [("page_token", opt_json (lc_page_token p)); ("page_offset", JInt (lc_page_offset p));
         ("page_size", match lc_page_size p with Some n => JInt n | None => JNull end);
         ("state_filter", match lc_state_filter p with
                          | Some (Some states) => JList (map (fun s => JStr (scheduled_start_state_value s)) states)
                          | _ => JNull
                          end)].

(** [_ScheduledStartListCursorPayload.model_validate] *)
Definition cursor_payload_of (j : json) : option ListCursorPayload :=
  match j with
  | JDict d =>
      page_token ← match dict_get "page_token" d with
                   | None | Some JNull => Some None
                   | Some (JStr s) => Some (Some s)
                   | _ => None
                   end;
      page_offset ← match dict_get "page_offset" d with None => Some 0%Z | Some (JInt z) => Some z | _ => None end;
      page_size ← match dict_get "page_size" d with
                  | None | Some JNull => Some None
                  | Some (JInt z) => Some (Some z)
                  | _ => None
                  end;
      state_filter ← match dict_get "state_filter" d with
                     | None => Some None
                     | Some JNull => Some (Some None)
                     | Some (JList l) =>
                         states ← mapM (fun j => match j with JStr s => state_of_value s | _ => None end) l;
                         Some (Some (Some states))
                     | _ => None
                     end;
      let p := {| lc_page_token := page_token; lc_page_offset := page_offset; lc_page_size := page_size;
                  lc_state_filter := state_filter |} in
      if forallb (fun k => bool_decide (k ∈ ["page_token"; "page_offset"; "page_size"; "state_filter"])) (dict_keys d)
         && valid_cursor_payload p
      then Some p else None
  | _ => None
  end.

Definition invalid_cursor : scheduled_exn :=
  ScheduledStartError SCHEDULED_INVALID_REQUEST "Scheduled-start cursor is invalid" false.

Section cursors.
Context `{Sha256, FloatRepr, JsonLoads}.

(** [encode_scope_cursor] *)
Definition encode_scope_cursor (scope : RuntimeScope) (position : json) : res string :=
  let payload := dumps_strict_json (JDict [("format_version", JInt CURSOR_FORMAT_VERSION); ("position", position);
                                           ("scope_digest", JStr (digest scope))]) in
  if (MAX_CURSOR_BYTES <? utf8_length payload)%Z
  then raise ValueError "Continuation cursor exceeds its byte limit"
  else Ok (urlsafe_b64encode payload).

(** [decode_scope_cursor]; a text holds ASCII characters only, so a byte is a character. *)
Definition decode_scope_cursor (scope : RuntimeScope) (cursor : string) : res json :=
  let len := Z.of_nat (String.length cursor) in
  if (len =? 0)%Z || (MAX_CURSOR_BYTES * 2 <? len)%Z then raise ValueError "Continuation cursor is invalid"
  else
    match b64decode cursor with
    | None => raise ValueError "Continuation cursor is invalid"
    | Some payload =>
        if (MAX_CURSOR_BYTES <? Z.of_nat (String.length payload))%Z
        then raise ValueError "Continuation cursor exceeds its byte limit"
        else
          match json_loads payload with
          | None => raise ValueError "Continuation cursor is invalid"
          | Some (JDict d) =>
              if forallb (fun k => bool_decide (k ∈ ["format_version"; "position"; "scope_digest"])) (dict_keys d)
                 && bool_decide (dict_get "format_version" d = Some (JInt CURSOR_FORMAT_VERSION))
                 && bool_decide (dict_get "scope_digest" d = Some (JStr (digest scope)))
              then from_option (dict_get "position" d)
                     (Exn ValueError "Continuation cursor does not belong to the runtime scope" None)
              else raise ValueError "Continuation cursor does not belong to the runtime scope"
          | Some _ => raise ValueError "Continuation cursor does not belong to the runtime scope"
          end
    end.

(** [_encode_cursor] *)
Definition encode_cursor (scope : RuntimeScope) (position : option ListPosition)
    (state_filter : option (list ScheduledStartState)) : ssres (option string) :=
  match position with
  | None => Ok None
  | Some p =>
      let payload := {| lc_page_token := urlsafe_b64encode <$> lp_page_token p; lc_page_offset := lp_page_offset p;
                        lc_page_size := Some (lp_page_size p); lc_state_filter := Some state_filter |} in
      if valid_cursor_payload payload
      then Some <$> scheduled_py (encode_scope_cursor scope (cursor_payload_dump payload))
      else py_error ValidationError "ScheduledStartListCursorPayload"
  end.

(** The position that the payload of a cursor stands for. *)
Definition position_of (payload : ListCursorPayload) (default_page_size max_page_size : Z)
    (state_filter : option (list ScheduledStartState)) : option ListPosition :=
  page_token ← match lc_page_token payload with
               | None => Some None
               | Some token => Some <$> b64decode token
               end;
  let page_size := default default_page_size (lc_page_size payload) in
  if bool_decide (page_token = Some EmptyString)
     || (bool_decide (page_token = None) && (lc_page_offset payload =? 0)%Z)
     || (max_page_size <? page_size)%Z
     || (is_some (lc_page_size payload) && negb (bool_decide (lc_state_filter payload = Some state_filter)))
  then None
  else Some {| lp_page_token := page_token; lp_page_offset := lc_page_offset payload; lp_page_size := page_size |}.

(** [_decode_cursor] *)
Definition decode_cursor (scope : RuntimeScope) (cursor : option string) (default_page_size max_page_size : Z)
    (state_filter : option (list ScheduledStartState)) : ssres ListPosition :=
  match cursor with
  | None => Ok {| lp_page_token := None; lp_page_offset := 0; lp_page_size := default_page_size |}
  | Some cursor =>
      match decode_scope_cursor scope cursor with
      | Raise _ => Raise invalid_cursor
      | Ok j =>
          from_option
            (payload ← cursor_payload_of j; position_of payload default_page_size max_page_size state_filter)
            invalid_cursor
      end
  end.
End cursors.

(** ** Listing *)

Definition list_limit_invalid : scheduled_exn :=
  ScheduledStartError SCHEDULED_INVALID_REQUEST "Scheduled-start list limit is invalid" false.

(** [_next_list_position] *)
Definition next_list_position (page_token : option string) (page_offset page_size page_length : Z)
    (next_page_token : option string) : option ListPosition :=
  if (page_offset <? page_length)%Z
  then Some {| lp_page_token := page_token; lp_page_offset := page_offset; lp_page_size := page_size |}
  else
    match next_page_token with
    | None => None
    | Some token => Some {| lp_page_token := Some token; lp_page_offset := 0; lp_page_size := page_size |}
    end.

(** [states is None or record.state in states] *)
Definition state_listed (states : option (list ScheduledStartState)) (r : ScheduledStartRecord) : bool :=
  match states with None => true | Some states => bool_decide (ss_state r ∈ states) end.

(** How the loop over a page ends: the page is done, or the limit is reached after so many
    entries of it. *)
Inductive page_end := PageDone | LimitReached (entries : Z).

Section listing.
Context `{Sha256, FloatRepr, Timestamps, PayloadContracts, JsonLoads} (self : ScheduledStartService).

(** [ScheduledStartService._describe_list_entries]: an exception ends the listing, whichever
    of the concurrent calls raised it. *)
Definition describe_list_entries (entries : list string) : xprog scheduled_exn (list ScheduleDescription) :=
  xcatch (xmap describe_schedule entries)
    (on_exception scheduled_cancellation (fun _ =>
      xraise (scheduled_unavailable "Temporal scheduled starts could not be listed"))).

(** The loop over the descriptions of a batch. *)
Fixpoint list_batch (scope : RuntimeScope) (states : option (list ScheduledStartState)) (limit : Z)
    (descriptions : list ScheduleDescription) (seen : Z) (records : list ScheduledStartDescription)
  : ssres (list ScheduledStartDescription * page_end) :=
  match descriptions with
  | [] => Ok (records, PageDone)
  | d :: descriptions =>
      r ← record_from_description self d scope;
      let records := if state_listed states r then records ++ [describe_scheduled_start r] else records in
      if (limit <=? Z.of_nat (length records))%Z then Ok (records, LimitReached (seen + 1))
      else list_batch scope states limit descriptions (seen + 1) records
  end.

(** The loop over the batches of a page, from the entry [index] on. *)
Fixpoint list_entries (fuel : nat) (scope : RuntimeScope) (states : option (list ScheduledStartState)) (limit : Z)
    (entries : list string) (index scanned : Z) (records : list ScheduledStartDescription)
  : xprog scheduled_exn (list ScheduledStartDescription * Z * page_end) :=
  match entries, fuel with
  | [], _ => mret (records, scanned, PageDone)
  | _, O => Running
  | _, S fuel =>
      if (max_schedules (sv_settings self) <=? scanned)%Z
      then xraise (ScheduledStartError QUOTA_UNAVAILABLE "Scheduled-start collection exceeds its configured bound" false)
      else
        let batch_size := Z.min (Z.min (describe_concurrency (sv_settings self)) (Z.of_nat (length entries)))
                            (max_schedules (sv_settings self) - scanned) in
        descriptions ← describe_list_entries (take (Z.to_nat batch_size) entries);
        batch ← xlift (list_batch scope states limit descriptions index records);
        let '(records, ending) := batch in
        match ending with
        | LimitReached _ => mret (records, scanned, ending)
        | PageDone =>
            list_entries fuel scope states limit (drop (Z.to_nat batch_size) entries) (index + batch_size)
              (scanned + batch_size) records
        end
  end.

(** The loop over the pages, [pages] of them at most. *)
Fixpoint list_pages (pages : nat) (scope : RuntimeScope) (states : option (list ScheduledStartState)) (limit : Z)
    (query : string) (position : ListPosition) (scanned : Z) (records : list ScheduledStartDescription)
  : xprog scheduled_exn (list ScheduledStartDescription * option ListPosition) :=
  match pages with
  | O => Running
  | S pages =>
      page ← xcatch (list_schedules query (lp_page_size position) (lp_page_token position))
        (on_exception scheduled_cancellation (fun _ =>
          xraise (scheduled_unavailable "Temporal scheduled starts could not be listed")));
      let '(entries, next_page_token) := page in
      if (Z.of_nat (length entries) <? lp_page_offset position)%Z then xraise invalid_cursor
      else
        page ← list_entries (length entries) scope states limit (drop (Z.to_nat (lp_page_offset position)) entries)
          (lp_page_offset position) scanned records;
        let '(records, scanned, ending) := page in
        match ending, next_page_token with
        | LimitReached offset, _ =>
            mret (records, next_list_position (lp_page_token position) offset (lp_page_size position)
                             (Z.of_nat (length entries)) next_page_token)
        | PageDone, None => mret (records, None)
        | PageDone, Some token =>
            list_pages pages scope states limit query
              {| lp_page_token := Some token; lp_page_offset := 0; lp_page_size := lp_page_size position |}
              scanned records
        end
  end.

(** [ScheduledStartService.list] *)
Definition list_scheduled_starts (pages : nat) (scope : RuntimeScope) (limit : Z) (cursor : option string)
    (states : option (list ScheduledStartState))
  : xprog scheduled_exn (list ScheduledStartDescription * option string) :=
  if negb (within 1 (max_list_limit (sv_settings self)) limit) then xraise list_limit_invalid
  else
    let state_filter := list_state_filter states in
    position ← xlift (decode_cursor scope cursor limit (max_list_limit (sv_settings self)) state_filter);
    let query := "ScheduleId STARTS_WITH " +:+ String dquote
      (identity_prefix "scheduled-start-schedule" (digest scope) +:+ String dquote EmptyString) in
    listed ← list_pages pages scope states limit query position 0 [];
    let '(records, next_position) := listed in
    next_cursor ← xlift (encode_cursor scope next_position state_filter);
    mret (records, next_cursor).

(** The loop of [_count_pending] *)
Fixpoint count_pages (fuel pages : nat) (scope : RuntimeScope) (cursor : option string) (count : Z)
  : xprog scheduled_exn Z :=
  match fuel with
  | O => Running
  | S fuel =>
      if (max_pending_per_scope (sv_settings self) <=? count)%Z then mret count
      else
        page ← list_scheduled_starts pages scope (default_list_limit (sv_settings self)) cursor (Some [SCHEDULED]);
        let count := (count + Z.of_nat (length page.1))%Z in
        match page.2 with
        | None => mret count
        | Some cursor => count_pages fuel pages scope (Some cursor) count
        end
  end.

(** [ScheduledStartService._count_pending]: the first page is read whatever the limit. *)
Definition count_pending (pages : nat) (scope : RuntimeScope) : xprog scheduled_exn Z :=
  page ← list_scheduled_starts pages scope (default_list_limit (sv_settings self)) None (Some [SCHEDULED]);
  let count := Z.of_nat (length page.1) in
  match page.2 with
  | None => mret count
  | Some cursor => count_pages pages pages scope (Some cursor) count
  end.

(** [BestEffortLocalScheduledStartQuotaController.create] *)
Definition local_quota_create (scope : RuntimeScope) (limit : Z) (count_pending : xprog scheduled_exn Z)
    (create_schedule : xprog scheduled_exn bool) : xprog scheduled_exn bool :=
  if negb (bool_decide (scope = LOCAL_RUNTIME_SCOPE))
  then xraise (ScheduledStartError QUOTA_UNAVAILABLE
                 "The local scheduled-start quota controller only supports the local runtime scope" false)
  else
    _ ← ask AcquireLock;
    created ← xcatch
      (count ← count_pending;
       if (limit <=? count)%Z
       then xraise (ScheduledStartError QUOTA_EXCEEDED "Scheduled-start pending quota is exhausted" false)
       else create_schedule)
      (fun e => _ ← ask ReleaseLock; xraise e);
    _ ← ask ReleaseLock;
    mret created.
End listing.

Definition local_quota : QuotaController := {| quota_create := local_quota_create |}.
