(* ===== verification/ScheduledStartService.v ===== *)
(** [ScheduledStartService] of [runtime/scheduled_start_service.py]: the commands on one-off
    scheduled starts, and what the arbiter of a version does. *)

From S2P Require Export ScheduledStartListing.

(** ** Errors of the starter *)

(** [_start_error] *)
Definition start_error_code (code : StartErrorCode) : ScheduledStartErrorCode :=
  match code with
  | INVALID_REQUEST => SCHEDULED_INVALID_REQUEST
  | INPUT_REJECTED => SCHEDULED_INPUT_REJECTED
  | TRIGGER_PAUSED => SCHEDULED_TRIGGER_PAUSED
  | START_TEMPORAL_UNAVAILABLE => SCHEDULED_TEMPORAL_UNAVAILABLE
  | UNKNOWN_WORKFLOW | DEFINITION_UNAVAILABLE | INCOMPATIBLE_WORKER | CONFIGURATION_ERROR | TRIGGER_UNAVAILABLE =>
      SCHEDULED_TRIGGER_UNAVAILABLE
  end.

(** [_dispatch_failure_code] *)
Definition dispatch_failure_code (code : StartErrorCode) : ScheduledStartFailureCode :=
  match code with
  | INPUT_REJECTED => CONTRACT_DRIFT
  | INCOMPATIBLE_WORKER => FAILED_INCOMPATIBLE_WORKER
  | _ => TARGET_UNAVAILABLE
  end.

(** A call of the starter that nothing catches here. *)
Definition of_start {A} (p : xprog start_exn A) : xprog scheduled_exn A :=
  xcatch p (fun e => xraise (ScheduledWorkflowStartError e)).

Definition arbiter_conflict : scheduled_exn :=
  conflict "Another scheduled-start command consumed the expected version".

Definition run_of (r : StartWorkflowResult) : ScheduledStartRun :=
  {| run_workflow_id := swr_workflow_id r; run_run_id := swr_run_id r; run_definition_digest := swr_definition_digest r;
     run_artifact_identity := swr_artifact_identity r;
     run_environment_snapshot_digest := swr_environment_snapshot_digest r;
     run_execution_configuration := swr_execution_configuration r |}.

(** [ScheduledStartRun(...)] *)
Definition new_run (r : StartWorkflowResult) : ssres ScheduledStartRun :=
  if valid_run (run_of r) then Ok (run_of r) else py_error ValidationError "ScheduledStartRun".

Section service.
Context `{Sha256, FloatRepr, Timestamps, PayloadContracts, JsonLoads} (self : ScheduledStartService) (pages : nat).

(** ** Creating *)

(** The call of the starter in [create], with its handlers. *)
Definition prepare_create (request : ScheduledStartCreateRequest) (binding : TrustedScopeBinding)
  : xprog scheduled_exn PreparedWorkflowStart :=
  let start_request := new_start_request (sc_workflow_name request) (sc_business_request_id request)
    (sc_input request) (ControlApiSourceIdentity (sc_business_request_id request)) None None None in
  xcatch
    (prepared ← prepare (sv_starter self) start_request binding;
     _ ← xlift (guard_or (bool_decide (mt_kind (pw_trigger prepared) = "api"))
                  (start_rejected TRIGGER_UNAVAILABLE "Scheduled starts require an active API trigger"));
     _ ← xlift (start_py (enforce_payload_bytes (JDict (pw_normalized_input prepared)) "scheduled_start.input"
                            (max_input_bytes (sv_settings self))));
     mret prepared)
    (fun e =>
      match e with
      | WorkflowStartError code msg retryable _ => xraise (ScheduledStartError (start_error_code code) msg retryable)
      | StartPyError (Exn (LimitExceededError _ _ _ _) _ _) =>
          xraise (ScheduledStartError SCHEDULED_INVALID_REQUEST
                    "Scheduled-start input exceeds its configured byte bound" false)
      | StartPyError e => xraise (ScheduledPyError e)
      end).

Definition identity_bound : scheduled_exn := conflict "Scheduled-start identity is already bound to another request".

(** The nested [create_schedule] of [create]: whether the schedule was there before. *)
Definition create_schedule (record : ScheduledStartRecord) (scope : RuntimeScope) (priority : Priority)
  : xprog scheduled_exn bool :=
  xcatch
    (_ ← create_schedule_call (make_scheduled_start_schedule_id scope (ss_id record))
           (schedule_of self record scope priority) (entity_memo record);
     mret false)
    (on_exception scheduled_cancellation (fun e =>
      match e with
      | AlreadyRunningError =>
          existing ← describe_record self scope (ss_id record);
          if bool_decide (ss_create_request_digest (ss_base existing) = ss_create_request_digest (ss_base record))
          then mret true else xraise identity_bound
      | _ =>
          if has_status "INVALID_ARGUMENT" e
          then xraise (ScheduledStartError PRIORITY_UNSUPPORTED
                         "Temporal target does not support the configured workload priority" false)
          else xraise (scheduled_unavailable "Temporal did not accept the scheduled start")
      end)).

(** [_description_for_handle] and [_record_from_description] at the end of [create]. *)
Definition accepted_record (scope : RuntimeScope) (scheduled_start_id : string)
  : xprog scheduled_exn ScheduledStartRecord :=
  d ← xcatch (describe_schedule (make_scheduled_start_schedule_id scope scheduled_start_id))
    (on_exception scheduled_cancellation (fun _ =>
      xraise (scheduled_unavailable "Temporal accepted the scheduled start but could not describe it")));
  xlift (record_from_description self d scope).

Definition create_result (duplicate : bool) (r : ScheduledStartRecord) : ScheduledStartMutationResult :=
  {| mr_status := if duplicate then DUPLICATE_STATUS else ACCEPTED_STATUS;
     mr_scheduled_start := describe_scheduled_start r; mr_expected_version := None |}.

(** The part of [create] after the check for a request made before. *)
Definition create_new (request : ScheduledStartCreateRequest) (binding : TrustedScopeBinding)
    (scheduled_start_id request_digest : string) : xprog scheduled_exn ScheduledStartMutationResult :=
  let scope := tsb_scope binding in
  now ← now_seconds;
  _ ← xlift (validate_due_time self (sc_start_at request) now);
  priority ← xlift (sv_priority self scope (sc_workload_class request));
  prepared ← prepare_create request binding;
  record ← xlift (create_scheduled_start_record request scheduled_start_id scope (mt_name (pw_trigger prepared))
    request_digest now (pw_normalized_input prepared) (ss_settings_dispatch_timeout_seconds (sv_settings self))
    (ss_settings_dispatch_attempts (sv_settings self)));
  match sv_quota self with
  | None =>
      xraise (ScheduledStartError QUOTA_UNAVAILABLE
                "Exact scheduled-start pending quota enforcement is unavailable" false)
  | Some quota =>
      duplicate ← quota_create quota scope (max_pending_per_scope (sv_settings self))
        (count_pending self pages scope) (create_schedule record scope priority);
      accepted ← accepted_record scope scheduled_start_id;
      _ ← record_decision (if (duplicate : bool) then METRIC_DUPLICATE else METRIC_ACCEPTED) accepted;
      mret (create_result duplicate accepted)
  end.

(** [ScheduledStartService.create] *)
Definition create (request : ScheduledStartCreateRequest) (idempotency_key : string) (binding : TrustedScopeBinding)
  : xprog scheduled_exn ScheduledStartMutationResult :=
  _ ← xlift (validate_idempotency_key idempotency_key);
  if negb (bool_decide (tsb_kind binding = API))
  then xraise (ScheduledStartError SCHEDULED_INVALID_REQUEST
                 "Scheduled starts require a trusted API scope binding" false)
  else
    let scope := tsb_scope binding in
    let scheduled_start_id := make_scheduled_start_id scope (sc_workflow_name request) (sc_business_request_id request) in
    let request_digest := scheduled_start_request_digest
      [JStr "create"; create_request_dump request; JStr idempotency_key] in
    existing ← existing_record self scope scheduled_start_id;
    match (existing : option ScheduledStartRecord) with
    | Some existing =>
        if negb (bool_decide (ss_create_request_digest (ss_base existing) = request_digest)) then xraise identity_bound
        else
          _ ← record_decision METRIC_DUPLICATE existing;
          mret (create_result true existing)
    | None => create_new request binding scheduled_start_id request_digest
    end.

(** ** Arbiters *)

(** [_arbiter_memo] *)
Definition arbiter_memo (initial : ScheduledStartArbiterInitialInput) : list (string * string) :=
  let memo := dict_update (entity_memo (ai_record initial)) [
    (MEMO_SCHEDULED_START_ARBITER_COMMAND, command_kind_value (command_kind (ai_command initial)));
    (MEMO_SCHEDULED_START_ARBITER_VERSION, Z_to_string (version (ai_record initial)))] in
  maybe_set MEMO_SCHEDULED_START_ARBITER_REQUEST_DIGEST (command_digest (ai_command initial)) memo.

(** [_arbiter_identity_from_description]: [ValueError] or [TypeError] where it does not
    fit. *)
Definition arbiter_identity_from_description (memo : list (string * json)) (scope : RuntimeScope)
    (scheduled_start_id : string) (version : Z) : res (ScheduledStartArbiterCommandKind * option string) :=
  owner ← memo_text_value memo MEMO_SCHEDULED_START_OWNER;
  memo_id ← memo_text_value memo MEMO_SCHEDULED_START_ID;
  memo_scope ← memo_text_value memo MEMO_SCOPE_DIGEST;
  raw_command ← memo_text_value memo MEMO_SCHEDULED_START_ARBITER_COMMAND;
  request_digest ← memo_text_value memo MEMO_SCHEDULED_START_ARBITER_REQUEST_DIGEST;
  raw_version ← memo_text_value memo MEMO_SCHEDULED_START_ARBITER_VERSION;
  if negb (bool_decide (owner = Some SCHEDULED_START_OWNER) && bool_decide (memo_id = Some scheduled_start_id)
           && bool_decide (memo_scope = Some (digest scope)) && bool_decide (raw_version = Some (Z_to_string version)))
  then raise ValueError "Arbiter memo does not match its scheduled start"
  else
    command ← from_option (raw_command ← raw_command; command_kind_of raw_command)
      (Exn ValueError "ScheduledStartArbiterCommandKind" None);
    match (command : ScheduledStartArbiterCommandKind), request_digest with
    | DUE_COMMAND, Some _ => raise ValueError "Due arbiter unexpectedly retained a request digest"
    | (CANCEL_COMMAND | RESCHEDULE_COMMAND), None => raise ValueError "Mutation arbiter omitted its request digest"
    | _, _ => Ok (command, request_digest)
    end.

(** [_arbiter_identity] *)
Definition arbiter_identity (scope : RuntimeScope) (scheduled_start_id : string) (version : Z)
  : xprog scheduled_exn (ScheduledStartArbiterCommandKind * option string) :=
  d ← xcatch (describe_workflow (make_scheduled_start_arbiter_id scope scheduled_start_id version) None)
    (on_exception scheduled_cancellation (fun _ =>
      xraise (scheduled_unavailable "Temporal could not identify the scheduled-start winner")));
  xlift (match arbiter_identity_from_description (xd_memo d) scope scheduled_start_id version with
         | Ok identity => Ok identity
         | Raise _ => Raise (scheduled_unavailable "Temporal could not identify the scheduled-start winner")
         end).

(** [_start_arbiter]: whether the version had an arbiter before. *)
Definition start_arbiter (initial : ScheduledStartArbiterInitialInput) (scope : RuntimeScope) (priority : Priority)
  : xprog scheduled_exn bool :=
  xcatch
    (_ ← start_workflow {|
       ws_type := SCHEDULED_START_ARBITER_WORKFLOW_TYPE; ws_argument := ArbiterArgument (InitialInput initial);
       ws_id := make_scheduled_start_arbiter_id scope (ss_id (ai_record initial)) (version (ai_record initial));
       ws_task_queue := sv_task_queue self; ws_memo := arbiter_memo initial; ws_search_attributes := None;
       ws_pinned := None; ws_priority := Some priority |};
     mret false)
    (on_exception scheduled_cancellation (fun e =>
      match e with
      | WorkflowAlreadyStartedError _ => mret true
      | _ => xraise (scheduled_unavailable "Temporal could not claim the scheduled-start version")
      end)).

(** [_parse_arbiter_result] of what validates, or does not. *)
Definition parse_arbiter_result (raw : option ScheduledStartArbiterResult) : ssres ScheduledStartArbiterResult :=
  from_option raw (scheduled_unavailable "Temporal returned an invalid scheduled-start arbitration result").

(** [_await_arbiter]: [None] after the timeout and after every other exception. *)
Definition await_arbiter (workflow_id : string) : xprog scheduled_exn (option ScheduledStartArbiterResult) :=
  answer ← xcatch (raw ← workflow_result workflow_id; mret (Some raw))
    (on_exception scheduled_cancellation (fun _ => mret None));
  match (answer : option (option ScheduledStartArbiterResult)) with
  | None => mret None
  | Some raw => result ← xlift (parse_arbiter_result raw); mret (Some result)
  end.

Definition mutation_result (status : ScheduledStartMutationStatus) (d : ScheduledStartDescription)
    (expected_version : Z) : ScheduledStartMutationResult :=
  {| mr_status := status; mr_scheduled_start := d; mr_expected_version := Some expected_version |}.

(** [_recover_mutation] *)
Definition recover_mutation (record : ScheduledStartRecord) (scope : RuntimeScope) (expected_version : Z)
    (kind : ScheduledStartArbiterCommandKind) (request_digest : string)
  : xprog scheduled_exn (option ScheduledStartMutationResult) :=
  let workflow_id := make_scheduled_start_arbiter_id scope (ss_id record) expected_version in
  described ← xcatch (d ← describe_workflow workflow_id None; mret (Some d))
    (on_exception scheduled_cancellation (fun e =>
      if has_status "NOT_FOUND" e then mret None
      else xraise (scheduled_unavailable "Temporal could not identify the scheduled-start winner")));
  match (described : option ExecutionDescription) with
  | None => mret None
  | Some d =>
      match arbiter_identity_from_description (xd_memo d) scope (ss_id record) expected_version with
      | Raise _ => xraise (conflict "Scheduled-start arbitration identity is invalid")
      | Ok (winner, saved_digest) =>
          if negb (bool_decide (winner = kind)) || negb (bool_decide (saved_digest = Some request_digest))
          then xraise arbiter_conflict
          else
            result ← await_arbiter workflow_id;
            match (result : option ScheduledStartArbiterResult) with
            | None =>
                mret (Some (mutation_result IN_PROGRESS_STATUS (describe_scheduled_start record) expected_version))
            | Some (ArbiterStale _ _) => xraise no_longer_pending
            | Some (ArbiterApplied _ _ _ scheduled_start) =>
                if bool_decide (sd_state scheduled_start = STARTED) then xraise no_longer_pending
                else
                  _ ← record_decision METRIC_DUPLICATE record;
                  mret (Some (mutation_result DUPLICATE_STATUS scheduled_start expected_version))
            end
      end
  end.

(** The end of [_run_mutation], once the arbiter of the version is that of the command. *)
Definition finish_mutation (initial : ScheduledStartArbiterInitialInput) (scope : RuntimeScope)
    (expected_version : Z) (status : ScheduledStartMutationStatus) (duplicate : bool)
    (result : option ScheduledStartArbiterResult) : xprog scheduled_exn ScheduledStartMutationResult :=
  match result with
  | None =>
      _ ← record_metric MUTATION_WAIT_TIMEOUT;
      mret (mutation_result IN_PROGRESS_STATUS (describe_scheduled_start (ai_record initial)) expected_version)
  | Some (ArbiterStale _ _) => xraise no_longer_pending
  | Some (ArbiterApplied _ winner _ scheduled_start) =>
      if bool_decide (sd_state scheduled_start = STARTED) && negb (bool_decide (winner = DUE_COMMAND))
      then xraise (conflict "Scheduled start already produced a workflow run")
      else
        _ ← (if duplicate then
               record ← describe_record self scope (ss_id (ai_record initial));
               record_decision METRIC_DUPLICATE record
             else mret tt);
        mret (mutation_result (if duplicate then DUPLICATE_STATUS else status) scheduled_start expected_version)
  end.

(** [_run_mutation], of a command with its digest and expected version. *)
Definition run_mutation (initial : ScheduledStartArbiterInitialInput) (scope : RuntimeScope)
    (accepted_status : ScheduledStartMutationStatus) : xprog scheduled_exn ScheduledStartMutationResult :=
  match ai_command initial with
  | DueCommand _ => xlift (py_error TypeError "Due arbitration is not a public mutation")
  | CancelCommand expected_version request_digest | RescheduleCommand expected_version _ request_digest =>
      priority ← xlift (sv_priority self scope (ss_workload_class (ss_base (ai_record initial))));
      let sid := ss_id (ai_record initial) in
      duplicate ← start_arbiter initial scope priority;
      _ ← (if (duplicate : bool) then
             identity ← arbiter_identity scope sid (version (ai_record initial));
             if negb (bool_decide (identity.1 = command_kind (ai_command initial)))
                || negb (bool_decide (identity.2 = Some request_digest))
             then _ ← record_metric ARBITER_CONFLICT; xraise arbiter_conflict
             else mret tt
           else mret tt);
      result ← await_arbiter (make_scheduled_start_arbiter_id scope sid (version (ai_record initial)));
      finish_mutation initial scope expected_version accepted_status duplicate result
  end.

(** ** Commands *)

(** [ScheduledStartService.reschedule] *)
Definition reschedule (scheduled_start_id : string) (request : ScheduledStartRescheduleRequest)
    (idempotency_key : string) (scope : RuntimeScope) : xprog scheduled_exn ScheduledStartMutationResult :=
  _ ← xlift (validate_idempotency_key idempotency_key);
  let request_digest := scheduled_start_request_digest
    [JStr "reschedule"; JStr scheduled_start_id; reschedule_request_dump request; JStr idempotency_key] in
  let expected_version := srr_expected_version request in
  record ← describe_record self scope scheduled_start_id;
  if is_pending record && bool_decide (version record = expected_version + 1)%Z
     && bool_decide (ss_last_mutation_kind (ss_base record) = RESCHEDULE_MUTATION)
     && bool_decide (ss_last_mutation_digest (ss_base record) = request_digest)
  then
    _ ← record_decision METRIC_DUPLICATE record;
    mret (mutation_result DUPLICATE_STATUS (describe_scheduled_start record) expected_version)
  else
    recovered ← recover_mutation record scope expected_version RESCHEDULE_COMMAND request_digest;
    match (recovered : option ScheduledStartMutationResult) with
    | Some recovered => mret recovered
    | None =>
        now ← now_seconds;
        _ ← xlift (validate_due_time self (srr_start_at request) now);
        pending ← xlift (require_pending_version record expected_version);
        initial ← xlift (new_initial_input pending
          (RescheduleCommand expected_version (srr_start_at request) request_digest));
        run_mutation initial scope RESCHEDULED_STATUS
    end.

(** [ScheduledStartService.cancel] *)
Definition cancel (scheduled_start_id : string) (expected_version : Z) (idempotency_key : string)
    (scope : RuntimeScope) : xprog scheduled_exn ScheduledStartMutationResult :=
  _ ← xlift (validate_idempotency_key idempotency_key);
  let request_digest := scheduled_start_request_digest
    [JStr "cancel"; JStr scheduled_start_id; JDict [("expected_version", JInt expected_version)];
     JStr idempotency_key] in
  record ← describe_record self scope scheduled_start_id;
  if bool_decide (ss_state record = CANCELED) && bool_decide (version record = expected_version)
     && bool_decide (ss_last_mutation_digest (ss_base record) = request_digest)
  then
    _ ← record_decision METRIC_DUPLICATE record;
    mret (mutation_result DUPLICATE_STATUS (describe_scheduled_start record) expected_version)
  else
    recovered ← recover_mutation record scope expected_version CANCEL_COMMAND request_digest;
    match (recovered : option ScheduledStartMutationResult) with
    | Some recovered => mret recovered
    | None =>
        pending ← xlift (require_pending_version record expected_version);
        initial ← xlift (new_initial_input pending (CancelCommand expected_version request_digest));
        run_mutation initial scope CANCELED_STATUS
    end.

(** [_authoritative_description] *)
Definition authoritative_description (record : ScheduledStartRecord) (scope : RuntimeScope)
  : xprog scheduled_exn ScheduledStartDescription :=
  let workflow_id := make_scheduled_start_arbiter_id scope (ss_id record) (version record) in
  described ← xcatch (d ← describe_workflow workflow_id None; mret (Some d))
    (on_exception scheduled_cancellation (fun e =>
      if has_status "NOT_FOUND" e then mret None
      else xraise (scheduled_unavailable "Temporal could not read scheduled-start arbitration state")));
  match (described : option ExecutionDescription) with
  | None => mret (describe_scheduled_start record)
  | Some d =>
      match arbiter_identity_from_description (xd_memo d) scope (ss_id record) (version record) with
      | Raise _ => xraise (conflict "Temporal arbiter is not a valid owned scheduled-start workflow")
      | Ok (winner, _) =>
          match xd_status d with
          | RUNNING =>
              if negb (bool_decide (winner = DUE_COMMAND)) then mret (describe_scheduled_start record)
              else
                claimed ← xlift (claim_scheduled_start record (version record)
                  (Z.max (ss_updated_at (ss_base record)) (whole_second (xd_start_time d))));
                match (claimed : option ScheduledStartRecord) with
                | None => xlift (py_error (ExternalError "RuntimeError" None None None)
                                   "Pending scheduled start could not be projected as due")
                | Some claimed => mret (describe_scheduled_start claimed)
                end
          | COMPLETED =>
              raw ← xcatch (workflow_result workflow_id)
                (on_exception scheduled_cancellation (fun _ =>
                  xraise (scheduled_unavailable "Temporal could not read the scheduled-start arbitration result")));
              result ← xlift (parse_arbiter_result raw);
              mret (match result with ArbiterApplied _ _ _ d | ArbiterStale _ d => d end)
          | CLOSED_OTHERWISE =>
              xraise (conflict "Scheduled-start arbiter closed without an authoritative result")
          end
      end
  end.

(** [ScheduledStartService.describe] *)
Definition describe (scheduled_start_id : string) (scope : RuntimeScope)
  : xprog scheduled_exn ScheduledStartDescription :=
  record ← describe_record self scope scheduled_start_id;
  if negb (is_pending record) then mret (describe_scheduled_start record)
  else authoritative_description record scope.

(** ** Steps of the arbiter *)

(** [ScheduledStartService.claim_due] *)
Definition claim_due (action_record : ScheduledStartRecord) (scope : RuntimeScope) (priority : Priority)
  : xprog scheduled_exn ScheduledStartDueClaimResult :=
  _ ← xlift (require_record_scope action_record scope);
  current ← describe_record self scope (ss_id action_record);
  if negb (bool_decide (current = action_record)) then
    _ ← record_metric SKIPPED_STALE_FIRE;
    mret (DueSkipped (describe_scheduled_start current))
  else
    initial ← xlift (new_initial_input action_record (DueCommand (ss_start_at (ss_base action_record))));
    duplicate ← start_arbiter initial scope priority;
    if negb (duplicate : bool) then
      _ ← record_decision METRIC_DUE action_record;
      mret (DueClaimed false)
    else
      identity ← arbiter_identity scope (ss_id action_record) (version action_record);
      if bool_decide (identity.1 = DUE_COMMAND) && bool_decide (identity.2 = None) then
        _ ← record_metric ARBITER_RECLAIM;
        mret (DueClaimed true)
      else
        _ ← record_metric SKIPPED_STALE_FIRE;
        mret (DueSkipped (describe_scheduled_start current)).

Definition prepared_projection (t : ssres ScheduledStartArbiterTerminalInput)
  : xprog scheduled_exn ScheduledStartArbiterPreparation := t ← xlift t; mret (PreparedProjection t).

(** [prepare_arbiter] where the workflow was started before. *)
Definition prepare_existing (current : ScheduledStartRecord) (command : ScheduledStartArbiterCommand)
    (existing : StartWorkflowResult) : xprog scheduled_exn ScheduledStartArbiterPreparation :=
  now ← now_seconds;
  claimed ← xlift (claim_scheduled_start current (version current) now);
  match (claimed : option ScheduledStartRecord) with
  | Some ({| ss_stage := Dispatching c |} as claimed) =>
      run ← xlift (new_run existing);
      now ← now_seconds;
      started ← xlift (complete_scheduled_start claimed c run now);
      prepared_projection (new_terminal_input started (version current) (command_kind command) (command_digest command))
  | _ => mret (PreparedStale (describe_scheduled_start current))
  end.

(** [prepare_arbiter] of a due command. *)
Definition prepare_due (current : ScheduledStartRecord) (scope : RuntimeScope)
  : xprog scheduled_exn ScheduledStartArbiterPreparation :=
  now ← now_seconds;
  claimed ← xlift (claim_scheduled_start current (version current) now);
  match (claimed : option ScheduledStartRecord) with
  | Some ({| ss_stage := Dispatching c |} as claimed) =>
      resolved ← xcatch
        (target ← resolve_active_target scope (ss_workflow_name (ss_base claimed));
         _ ← xlift (guard_or (legacy_owns (wt_scope_digest target) scope)
                      (start_rejected DEFINITION_UNAVAILABLE
                         "Resolved scheduled-start target belongs to another scope"));
         _ ← xlift (validate_resolved_input (sv_starter self) (ss_input (ss_base claimed)) target);
         mret (inl target))
        (fun e =>
          match e with
          | WorkflowStartError code _ _ _ => mret (inr code)
          | StartPyError e => xraise (ScheduledPyError e)
          end);
      match (resolved : WorkflowStartTarget + StartErrorCode) with
      | inl target =>
          target ← xlift (from_target target);
          mret (PreparedDue claimed target)
      | inr code =>
          now ← now_seconds;
          failed ← xlift (fail_scheduled_start claimed c (dispatch_failure_code code) now);
          prepared_projection (new_terminal_input failed (claimed_version c) DUE_COMMAND None)
      end
  | _ => mret (PreparedStale (describe_scheduled_start current))
  end.

(** [ScheduledStartService.prepare_arbiter] *)
Definition prepare_arbiter (initial : ScheduledStartArbiterInitialInput) (scope : RuntimeScope)
  : xprog scheduled_exn ScheduledStartArbiterPreparation :=
  _ ← xlift (require_record_scope (ai_record initial) scope);
  current ← describe_record self scope (ss_id (ai_record initial));
  if negb (bool_decide (current = ai_record initial)) then mret (PreparedStale (describe_scheduled_start current))
  else
    existing ← of_start (find_existing (ss_workflow_name (ss_base current)) (ss_business_request_id (ss_base current))
      scope);
    match (existing : option StartWorkflowResult), ai_command initial with
    | Some existing, command => prepare_existing current command existing
    | None, CancelCommand expected_version request_digest =>
        now ← now_seconds;
        canceled ← xlift (cancel_scheduled_start current expected_version request_digest now);
        prepared_projection (new_terminal_input canceled.1 expected_version CANCEL_COMMAND (Some request_digest))
    | None, RescheduleCommand expected_version start_at request_digest =>
        now ← now_seconds;
        rescheduled ← xlift (reschedule_scheduled_start current
          {| srr_start_at := start_at; srr_expected_version := expected_version |} request_digest now);
        prepared_projection (new_terminal_input rescheduled.1 expected_version RESCHEDULE_COMMAND (Some request_digest))
    | None, DueCommand _ => prepare_due current scope
    end.

(** [ScheduledStartService.attempt_dispatch] *)
Definition attempt_dispatch (record : ScheduledStartRecord) (target : ScheduledStartResolvedTarget)
    (scope : RuntimeScope) (priority : Priority) : xprog scheduled_exn ScheduledStartAttemptResult :=
  _ ← xlift (require_record_scope record scope);
  let b := ss_base record in
  target ← xlift (scheduled_py (to_target target));
  let request := new_start_request (ss_workflow_name b) (ss_business_request_id b) (ss_input b)
    (ControlApiSourceIdentity (ss_business_request_id b)) (Some (mf_definition_digest (wt_manifest target))) None None in
  binding ← xlift (from_option (create_binding API scope (ss_create_request_digest b))
    (ScheduledPyError (Exn ValidationError "TrustedScopeBinding" None)));
  attempt ← xcatch
    (result ← start_accepted_api (sv_starter self) request target (ss_trigger_name b) binding (Some priority);
     mret (inl result))
    (fun e =>
      match e with
      | WorkflowStartError _ _ _ certainty => mret (inr certainty)
      | StartPyError e => xraise (ScheduledPyError e)
      end);
  match (attempt : StartWorkflowResult + StartRequestCertainty) with
  | inr AUTHORITATIVE_REJECTION => mret AttemptRejected
  | inr AMBIGUOUS => mret AttemptAmbiguous
  | inl result =>
      run ← xlift (new_run result);
      mret (AttemptAccepted (match swr_status result with STARTED_STATUS => false | DUPLICATE_START => true end) run)
  end.

(** The updater of [commit_arbiter]. *)
Definition commit_updater (terminal : ScheduledStartArbiterTerminalInput) (scope : RuntimeScope)
    (d : ScheduleDescription) : ssres (option Schedule) :=
  let projection := at_projection terminal in
  current ← record_from_description self d scope;
  let replace :=
    priority ← sv_priority self scope (ss_workload_class (ss_base projection));
    Ok (Some (schedule_of self projection scope priority)) in
  if bool_decide (at_winner terminal = RESCHEDULE_COMMAND) && is_pending projection then
    if (version projection <=? version current)%Z then Ok None else replace
  else if bool_decide (current = projection) then Ok None
  else if negb (is_pending current && bool_decide (version current = at_consumed_version terminal))
  then Raise (conflict "Scheduled-start projection no longer belongs to this arbiter")
  else replace.

(** [ScheduledStartService.commit_arbiter] *)
Definition commit_arbiter (terminal : ScheduledStartArbiterTerminalInput) (scope : RuntimeScope)
  : xprog scheduled_exn ScheduledStartArbiterResult :=
  let projection := at_projection terminal in
  _ ← xlift (require_record_scope projection scope);
  _ ← update_record_schedule scope (ss_id projection) (commit_updater terminal scope);
  _ ← (match ss_stage projection with
       | Started _ _ _ =>
           if bool_decide (at_winner terminal = DUE_COMMAND) then mret tt else record_metric ARBITER_CONFLICT
       | _ => mret tt
       end);
  _ ← record_decision (match ss_stage projection with
                       | Started _ _ _ => METRIC_STARTED | FailedStart _ _ _ => METRIC_FAILED
                       | Canceled _ => METRIC_CANCELED | _ => METRIC_RESCHEDULED
                       end) projection;
  mret (ArbiterApplied (at_consumed_version terminal) (at_winner terminal) (at_request_digest terminal)
          (describe_scheduled_start projection)).
End service.
