(* ===== verification/ScheduledStartDispatch.v ===== *)
(** The workflows and activities of [runtime/scheduled_start_dispatch.py]: a due schedule
    claims its version, and the arbiter of a version prepares, dispatches and commits what
    becomes of it. *)

From S2P Require Export ScheduledStartService.

(** ** Activities *)

Definition SCHEDULED_START_ACTIVITY_INVALID_INPUT : string := "SCHEDULED_START_ACTIVITY_INVALID_INPUT".
Definition SCHEDULED_START_ACTIVITY_REJECTED : string := "SCHEDULED_START_ACTIVITY_REJECTED".

(** How an activity fails: with an [ApplicationError], or with what it lets through. *)
Inductive activity_exn :=
| ApplicationError (type : string) (non_retryable : bool)
| ActivityRaised (e : scheduled_exn).

(** The server tries again. *)
Definition activity_retryable (e : activity_exn) : bool :=
  match e with ApplicationError _ non_retryable => negb non_retryable | ActivityRaised _ => true end.

(** The exceptions that make an input invalid. *)
Definition invalid_activity_input (e : exn) : bool :=
  match exn_cls e with
  | LimitExceededError _ _ _ _ | ValidationError | TypeError | ValueError | StrictJsonError => true
  | _ => false
  end.

(** The handlers of the activities. *)
Definition activity_error (e : scheduled_exn) : activity_exn :=
  match e with
  | ScheduledStartError _ _ retryable => ApplicationError SCHEDULED_START_ACTIVITY_REJECTED (negb retryable)
  | ScheduledPyError e =>
      if invalid_activity_input e then ApplicationError SCHEDULED_START_ACTIVITY_INVALID_INPUT true
      else ActivityRaised (ScheduledPyError e)
  | ScheduledWorkflowStartError _ => ActivityRaised e
  end.

(** The argument of an activity. *)
Inductive activity_input :=
| ClaimInput (record : ScheduledStartRecord)
| PrepareInput (initial : ScheduledStartArbiterInitialInput)
| AttemptInput (record : ScheduledStartRecord) (target : ScheduledStartResolvedTarget)
| CommitInput (terminal : ScheduledStartArbiterTerminalInput).

(** The size of the JSON text of an argument. *)
Class ActivityPayloads := { payload_bytes : activity_input -> Z }.

(** ** Inputs of the arbiter *)

Definition is_dispatching (r : ScheduledStartRecord) : bool :=
  match ss_stage r with Dispatching _ => true | _ => false end.

(** [SCHEDULED_START_ARBITER_INPUT_ADAPTER.validate_python] *)
Definition valid_initial_input (i : ScheduledStartArbiterInitialInput) : bool :=
  valid_record (ai_record i) && is_ok (new_initial_input (ai_record i) (ai_command i)).
Definition valid_resolved_due_input (d : ScheduledStartArbiterResolvedDueInput) : bool :=
  valid_record (ad_record d) && is_dispatching (ad_record d) && (0 <=? ad_authoritative_rejections d)%Z.
Definition valid_terminal_input (t : ScheduledStartArbiterTerminalInput) : bool :=
  valid_record (at_projection t) && is_projection (at_projection t) && (1 <=? at_consumed_version t)%Z
  && is_ok (validate_projection_version t).

(** How a run of the workflow ends. *)
Inductive run_end :=
| ContinueAsNew (input : ScheduledStartArbiterInput)
| Finished (result : ScheduledStartArbiterResult).

Definition invalid_argument {A} (what : string) : xprog scheduled_exn A := xlift (py_error ValidationError what).

Section dispatch.
Context `{Sha256, FloatRepr, Timestamps, PayloadContracts, JsonLoads, ActivityPayloads} (self : ScheduledStartService)
  (scope : RuntimeScope) (limits : RuntimeLimits) (priority : Priority).

(** [ScheduledStartDispatchActivities._enforce_input] *)
Definition enforce_input (input : activity_input) (boundary : string) : ssres unit :=
  scheduled_py (enforce_limit (payload_bytes input) (activity_input_bytes limits) PAYLOAD_BYTES boundary).

(** An activity: the check of the size, the body and the handlers. *)
Definition activity {A} (input : activity_input) (boundary : string) (valid : bool) (body : xprog scheduled_exn A)
  : xprog activity_exn A :=
  xcatch
    (_ ← xlift (enforce_input input boundary);
     if valid then body else invalid_argument boundary)
    (fun e => xraise (activity_error e)).

(** [ScheduledStartDispatchActivities.claim] *)
Definition claim_activity (record : ScheduledStartRecord) : xprog activity_exn ScheduledStartDueClaimResult :=
  activity (ClaimInput record) "scheduled_start.claim_activity.input" (valid_record record && is_projection record)
    (if is_pending record then claim_due self record scope priority
     else mret (DueSkipped (describe_scheduled_start record))).

(** [ScheduledStartDispatchActivities.prepare] *)
Definition prepare_activity (initial : ScheduledStartArbiterInitialInput)
  : xprog activity_exn ScheduledStartArbiterPreparation :=
  activity (PrepareInput initial) "scheduled_start.prepare_activity.input" (valid_initial_input initial)
    (prepare_arbiter self initial scope).

(** [ScheduledStartDispatchActivities.attempt] *)
Definition attempt_activity (record : ScheduledStartRecord) (target : ScheduledStartResolvedTarget)
  : xprog activity_exn ScheduledStartAttemptResult :=
  activity (AttemptInput record target) "scheduled_start.attempt_activity.input"
    (valid_record record && is_dispatching record) (attempt_dispatch self record target scope priority).

(** [ScheduledStartDispatchActivities.commit] *)
Definition commit_activity (terminal : ScheduledStartArbiterTerminalInput)
  : xprog activity_exn ScheduledStartArbiterResult :=
  activity (CommitInput terminal) "scheduled_start.commit_activity.input" (valid_terminal_input terminal)
    (commit_arbiter self terminal scope).

(** ** Workflows *)

(** One try of an activity: its completion may be lost. *)
Definition try_activity {A} (body : xprog activity_exn A) : xprog activity_exn A :=
  xcatch (a ← body; reported ← ask ReportActivity;
          if (reported : bool) then mret a else xraise (ApplicationError "TIMEOUT" false)) xraise.

(** [execute_activity] without a bound on its attempts, [tries] of them: it fails once an
    error is not to be retried. *)
Fixpoint unbounded_activity {A} (tries : nat) (body : xprog activity_exn A) : xprog activity_exn A :=
  match tries with
  | O => Running
  | S tries =>
      xcatch (try_activity body) (fun e =>
        if activity_retryable e then unbounded_activity tries body else xraise e)
  end.

(** [ScheduledStartArbiterWorkflow._execute_persistent_activity] *)
Definition persistent_activity {A} (tries : nat) (body : xprog activity_exn A) : xprog scheduled_exn A :=
  xcatch (unbounded_activity tries body) (fun _ =>
    xlift (py_error (ExternalError "RuntimeError" None None None) "Scheduled-start arbiter activity failed permanently")).

(** [ScheduledStartDueWorkflow.run] *)
Definition due_workflow (tries : nat) (record : ScheduledStartRecord)
  : xprog scheduled_exn ScheduledStartDueClaimResult :=
  if negb (valid_record record && is_projection record) then invalid_argument "ScheduledStartDueInput"
  else if negb (is_pending record) then mret (DueSkipped (describe_scheduled_start record))
  else
    xcatch (unbounded_activity tries (claim_activity record)) (fun _ =>
      xlift (py_error (ExternalError "ActivityError" None None None) "Activity task failed")).

(** [ScheduledStartArbiterWorkflow._prepare] *)
Definition arbiter_prepare (tries : nat) (initial : ScheduledStartArbiterInitialInput) : xprog scheduled_exn run_end :=
  preparation ← persistent_activity tries (prepare_activity initial);
  mret (match preparation with
        | PreparedStale current => Finished (ArbiterStale (version (ai_record initial)) current)
        | PreparedProjection terminal => ContinueAsNew (TerminalInput terminal)
        | PreparedDue record target =>
            ContinueAsNew (ResolvedDueInput {| ad_record := record; ad_target := target; ad_saw_ambiguous := false;
                                               ad_authoritative_rejections := 0 |})
        end).

(** [workflow.now().astimezone(UTC).replace(microsecond=0)] *)
Definition workflow_now : xprog scheduled_exn Z := now ← ask WorkflowNow; mret (whole_second now).

(** One attempt of [_dispatch]: a failed activity is ambiguous. *)
Definition dispatch_attempt (record : ScheduledStartRecord) (target : ScheduledStartResolvedTarget)
  : xprog scheduled_exn ScheduledStartAttemptResult :=
  xcatch (try_activity (attempt_activity record target)) (fun _ => mret AttemptAmbiguous).

(** The loop of [_dispatch] over the attempts left. *)
Fixpoint dispatch_loop (attempts : nat) (d : ScheduledStartArbiterResolvedDueInput) (c : Claim) (saw_ambiguous : bool)
    (authoritative_rejections : Z) : xprog scheduled_exn run_end :=
  let record := ad_record d in
  match attempts with
  | O =>
      mret (ContinueAsNew (ResolvedDueInput {| ad_record := record; ad_target := ad_target d;
                                               ad_saw_ambiguous := saw_ambiguous;
                                               ad_authoritative_rejections := authoritative_rejections |}))
  | S attempts =>
      attempt ← dispatch_attempt record (ad_target d);
      match attempt with
      | AttemptAccepted _ run =>
          now ← workflow_now;
          started ← xlift (complete_scheduled_start record c run now);
          terminal ← xlift (new_terminal_input started (claimed_version c) DUE_COMMAND None);
          mret (ContinueAsNew (TerminalInput terminal))
      | AttemptAmbiguous => dispatch_loop attempts d c true authoritative_rejections
      | AttemptRejected =>
          let authoritative_rejections := (authoritative_rejections + 1)%Z in
          if negb saw_ambiguous && (ss_dispatch_attempts (ss_base record) <=? authoritative_rejections)%Z then
            now ← workflow_now;
            failed ← xlift (fail_scheduled_start record c DISPATCH_EXHAUSTED now);
            terminal ← xlift (new_terminal_input failed (claimed_version c) DUE_COMMAND None);
            mret (ContinueAsNew (TerminalInput terminal))
          else dispatch_loop attempts d c saw_ambiguous authoritative_rejections
      end
  end.

(** [ScheduledStartArbiterWorkflow._dispatch] *)
Definition arbiter_dispatch (d : ScheduledStartArbiterResolvedDueInput) : xprog scheduled_exn run_end :=
  match ss_stage (ad_record d) with
  | Dispatching c =>
      dispatch_loop (Z.to_nat (ss_dispatch_attempts (ss_base (ad_record d)))) d c (ad_saw_ambiguous d)
        (ad_authoritative_rejections d)
  | _ => invalid_argument "DispatchingScheduledStartRecord"
  end.

(** [ScheduledStartArbiterWorkflow._commit] *)
Definition arbiter_commit (tries : nat) (t : ScheduledStartArbiterTerminalInput) : xprog scheduled_exn run_end :=
  result ← persistent_activity tries (commit_activity t);
  mret (Finished result).

(** [ScheduledStartArbiterWorkflow.run] *)
Definition arbiter_run (tries : nat) (input : ScheduledStartArbiterInput) : xprog scheduled_exn run_end :=
  match input with
  | InitialInput i =>
      if valid_initial_input i then arbiter_prepare tries i else invalid_argument "ScheduledStartArbiterInitialInput"
  | ResolvedDueInput d =>
      if valid_resolved_due_input d then arbiter_dispatch d
      else invalid_argument "ScheduledStartArbiterResolvedDueInput"
  | TerminalInput t =>
      if valid_terminal_input t then arbiter_commit tries t
      else invalid_argument "ScheduledStartArbiterTerminalInput"
  end.

(** A worker of the arbiter: it takes the input of the current run, runs it and hands in
    how it ends, [runs] times. *)
Fixpoint arbiter_worker (runs tries : nat) (workflow_id : string) : xprog scheduled_exn unit :=
  match runs with
  | O => mret tt
  | S runs =>
      input ← ask (CurrentInput workflow_id);
      match (input : option ScheduledStartArbiterInput) with
      | None => mret tt
      | Some input =>
          ending ← arbiter_run tries input;
          _ ← ask (match ending with
                   | ContinueAsNew next => ContinueRun workflow_id input next
                   | Finished result => CompleteRun workflow_id input result
                   end);
          arbiter_worker runs tries workflow_id
      end
  end.
End dispatch.
