(* ===== verification/ScheduledStartWorld.v ===== *)
(** The server on which the theorems about scheduled starts rest: what Temporal holds, how
    it may answer each call, how what it holds evolves, the rules for programs whose every
    call keeps an invariant, and the programs that change nothing. *)

From stdpp Require Export gmap.
From S2P Require Export ScheduledStartDispatch.

(** ** What the server holds *)

(** An execution: how it was started, its run, the argument of its current run and, once
    it is completed, its result. *)
Record Execution := {
  ex_start : WorkflowStart;
  ex_run_id : string;
  ex_argument : workflow_argument;
  ex_result : option ScheduledStartArbiterResult;
}.

Record world := {
  w_schedules : gmap string (Schedule * list (string * json));
  w_executions : gmap string Execution;
}.

Definition text_memo (memo : list (string * string)) : list (string * json) := map (prod_map id JStr) memo.

Definition with_execution (id : string) (x : Execution) (w : world) : world :=
  {| w_schedules := w_schedules w; w_executions := <[id := x]> (w_executions w) |}.

Definition with_schedule (id : string) (s : Schedule * list (string * json)) (w : world) : world :=
  {| w_schedules := <[id := s]> (w_schedules w); w_executions := w_executions w |}.

Definition started_execution (s : WorkflowStart) (run_id : string) : Execution :=
  {| ex_start := s; ex_run_id := run_id; ex_argument := ws_argument s; ex_result := None |}.

Definition with_argument (input : ScheduledStartArbiterInput) (x : Execution) : Execution :=
  {| ex_start := ex_start x; ex_run_id := ex_run_id x; ex_argument := ArbiterArgument input; ex_result := ex_result x |}.

Definition with_result (r : ScheduledStartArbiterResult) (x : Execution) : Execution :=
  {| ex_start := ex_start x; ex_run_id := ex_run_id x; ex_argument := ex_argument x; ex_result := Some r |}.

Definition description (id : string) (s : Schedule * list (string * json)) : ScheduleDescription :=
  {| dsc_id := id; dsc_schedule := s.1; dsc_memo := s.2 |}.

(** The run of [input] is the current one. *)
Definition current_run (w : world) (id : string) (input : ScheduledStartArbiterInput) (x : Execution) : Prop :=
  w_executions w !! id = Some x /\ ex_argument x = ArbiterArgument input /\ ex_result x = None.

(** ** How it answers

    A call that changes something may take effect and yet raise, since its answer can be
    lost.  An identity is used by one execution only ([REJECT_DUPLICATE]); an update
    applies its updater to what the schedule is at that moment.  Executions are held at
    least as long as the schedules of their starts. *)
Definition temporal_step (c : temporal_call) : world -> answer c -> world -> Prop :=
  match c return world -> answer c -> world -> Prop with
  | StartWorkflow s => fun w a w' =>
      let fresh := w_executions w !! ws_id s = None /\
                   exists run_id, w' = with_execution (ws_id s) (started_execution s run_id) w in
      match a with
      | Ok _ => fresh
      | Raise (WorkflowAlreadyStartedError _) => (w' = w \/ fresh) /\ is_Some (w_executions w' !! ws_id s)
      | Raise _ => w' = w \/ fresh
      end
  | DescribeWorkflow id _ => fun w a w' =>
      w' = w /\
      match a with
      | Ok d => exists x, w_executions w !! id = Some x /\ xd_memo d = text_memo (ws_memo (ex_start x))
                          /\ xd_run_id d = ex_run_id x
      | Raise e => has_status "NOT_FOUND" e = true -> w_executions w !! id = None
      end
  | WorkflowResult id => fun w a w' =>
      w' = w /\
      match a with
      | Ok r => exists x, w_executions w !! id = Some x /\ is_Some r /\ ex_result x = r
      | Raise _ => True
      end
  | CreateSchedule id s memo => fun w a w' =>
      let fresh := w_schedules w !! id = None /\ w' = with_schedule id (s, text_memo memo) w in
      match a with
      | Ok _ => fresh
      | Raise AlreadyRunningError => (w' = w \/ fresh) /\ is_Some (w_schedules w' !! id)
      | Raise _ => w' = w \/ fresh
      end
  | DescribeSchedule id => fun w a w' =>
      w' = w /\
      match a with
      | Ok d => exists s, w_schedules w !! id = Some s /\ d = description id s
      | Raise e => has_status "NOT_FOUND" e = true -> w_schedules w !! id = None
      end
  | UpdateSchedule id updater => fun w a w' =>
      let applied := exists s s', w_schedules w !! id = Some s /\ updater (description id s) = Ok s' /\
                       w' = match s' with Some s' => with_schedule id (s', s.2) w | None => w end in
      match a with
      | Ok _ => applied
      | Raise (UpdaterRaised e) => w' = w /\ exists s, w_schedules w !! id = Some s /\ updater (description id s) = Raise e
      | Raise (ClientRaised _) => w' = w \/ applied
      end
  | DeleteSchedule id => fun w a w' =>
      w' = w \/ w' = {| w_schedules := delete id (w_schedules w); w_executions := w_executions w |}
  | ContinueRun id before after => fun w a w' =>
      w' = w \/ exists x, current_run w id before x /\ w' = with_execution id (with_argument after x) w
  | CompleteRun id before r => fun w a w' =>
      w' = w \/ exists x, current_run w id before x /\ w' = with_execution id (with_result r x) w
  | CurrentInput id => fun w a w' =>
      w' = w /\ match a with Some input => exists x, current_run w id input x | None => True end
  | _ => fun w a w' => w' = w
  end.

#[export] Instance temporal_server : Server world := {| responds := temporal_step |}.

(** ** How it evolves *)

(** A later argument of an execution. *)
Definition argument_evolves (a b : workflow_argument) : Prop :=
  match a with
  | TriggerArgument _ | ArbiterArgument (TerminalInput _) => b = a
  | ArbiterArgument (ResolvedDueInput d) =>
      match b with
      | ArbiterArgument (ResolvedDueInput d') => ad_record d' = ad_record d /\ ad_target d' = ad_target d
      | ArbiterArgument (TerminalInput _) => True
      | _ => False
      end
  | ArbiterArgument (InitialInput i) =>
      match b with
      | ArbiterArgument (InitialInput i') => i' = i
      | ArbiterArgument _ => True
      | TriggerArgument _ => False
      end
  end.

#[export] Instance argument_evolves_preorder : PreOrder argument_evolves.
Proof.
  split.
  - intros [?|[]]; cbn; auto.
  - intros [?|[]] b [?|[]]; destruct b as [?|[]]; cbn; intuition congruence.
Qed.

Definition execution_evolves (x x' : Execution) : Prop :=
  ex_start x' = ex_start x /\ ex_run_id x' = ex_run_id x /\ argument_evolves (ex_argument x) (ex_argument x')
  /\ (forall r, ex_result x = Some r -> ex_result x' = Some r /\ ex_argument x' = ex_argument x).

#[export] Instance execution_evolves_preorder : PreOrder execution_evolves.
Proof.
  split.
  - intros x. by repeat split.
  - intros x y z (?&?&?&Hr) (?&?&?&Hr'). repeat split; try congruence.
    + by etransitivity.
    + destruct (Hr r ltac:(done)) as [Hy ?]. by destruct (Hr' r Hy).
    + destruct (Hr r ltac:(done)) as [Hy ?]. destruct (Hr' r Hy). congruence.
Qed.

(** The fields of a record that no transition changes. *)
Definition fixed_fields (r : ScheduledStartRecord) :=
  let b := ss_base r in
  (ss_scheduled_start_id b, ss_scope_digest b, ss_workflow_name b, ss_input b, ss_business_request_id b,
   ss_workload_class b, ss_trigger_name b, ss_create_request_digest b, ss_accepted_at b,
   ss_dispatch_timeout_seconds b, ss_dispatch_attempts b).

(** A step of a stored record: a pending one is rescheduled, or it ends. *)
Definition record_step (r r' : ScheduledStartRecord) : Prop :=
  is_pending r = true /\ fixed_fields r' = fixed_fields r /\
  match ss_stage r' with
  | Pending => version r' = (version r + 1)%Z
  | Dispatching _ => False
  | Canceled _ => version r' = version r /\ ss_start_at (ss_base r') = ss_start_at (ss_base r)
  | Started c _ _ | FailedStart c _ _ =>
      version r' = version r /\ ss_start_at (ss_base r') = ss_start_at (ss_base r) /\ claimed_version c = version r
  end.

(** Programs whose calls keep an invariant, among others that do. *)
Section rules.
Context (inv : world -> Prop) (evolves : relation world) `{!PreOrder evolves}.

Definition keeps (w w' : world) : Prop := inv w -> inv w' /\ evolves w w'.

#[export] Instance keeps_preorder : PreOrder keeps.
Proof.
  split; [intros w ?; split; [done|reflexivity]|].
  intros w1 w2 w3 H1 H2 Hw. destruct (H1 Hw) as [Hw2 ?]. destruct (H2 Hw2). split; [done|]. by etransitivity.
Qed.

(** What holds once holds later. *)
Class Stable (P : world -> Prop) := stable w w' : evolves w w' -> P w -> P w'.

#[export] Instance stable_pure (P : Prop) : Stable (fun _ => P).
Proof. by intros w w' _. Qed.
#[export] Instance stable_and P Q : Stable P -> Stable Q -> Stable (fun w => P w /\ Q w).
Proof. intros HP HQ w w' ? []. split; by eapply stable. Qed.
#[export] Instance stable_or P Q : Stable P -> Stable Q -> Stable (fun w => P w \/ Q w).
Proof. intros HP HQ w w' ? []; [left|right]; by eapply stable. Qed.
#[export] Instance stable_impl (P : Prop) Q : Stable Q -> Stable (fun w => P -> Q w).
Proof. intros HQ w w' ? H ?. eapply stable; [done|auto]. Qed.
#[export] Instance stable_exists {A} (P : A -> world -> Prop) : (forall a, Stable (P a)) -> Stable (fun w => exists a, P a w).
Proof. intros HP w w' ? [a Ha]. exists a. by eapply HP. Qed.
#[export] Instance stable_forall {A} (P : A -> world -> Prop) : (forall a, Stable (P a)) -> Stable (fun w => forall a, P a w).
Proof. intros HP w w' ? Ha a. by eapply HP. Qed.

(** From a world of the invariant, whatever the others do, a result satisfies [Q] and an
    exception [R]. *)
Definition hoare {E A} (w : world) (p : xprog E A) (Q : A -> world -> Prop) (R : E -> world -> Prop) : Prop :=
  inv w -> wp keeps p (outcome Q R) w.

(** An exception of which nothing is said. *)
Definition any {E} : E -> world -> Prop := fun _ _ => True.

#[export] Instance stable_any {E} (e : E) : Stable (any e).
Proof. by intros ?. Qed.

Lemma hoare_conseq {E A} w (p : xprog E A) Q R Q' R' :
  (forall a w', inv w' -> evolves w w' -> Q a w' -> Q' a w') -> (forall e w', inv w' -> evolves w w' -> R e w' -> R' e w') ->
  hoare w p Q R -> hoare w p Q' R'.
Proof.
  intros HQ HR Hp Hw. wp_apply wp_mono; [|by apply Hp].
  intros [a|e] w' Hk; cbn; [apply HQ|apply HR]; by apply Hk.
Qed.

Lemma hoare_bind {E A B} w (p : xprog E A) (f : A -> xprog E B) Q Q' R `{!forall e, Stable (R e)} :
  hoare w p Q R -> (forall a w', inv w' -> evolves w w' -> Q a w' -> hoare w' (f a) Q' R) -> hoare w (p ≫= f) Q' R.
Proof.
  intros Hp Hf Hw. wp_apply wp_xbind.
  - intros e w1 w2 H1 H2 He. destruct (H1 Hw) as [Hw1 _]. destruct (H2 Hw1). by eapply stable.
  - wp_apply wp_mono; [|by apply Hp]. intros [a|e] w' Hk; cbn; [|done].
    intros Ha _. destruct (Hk Hw). by eapply Hf.
Qed.

Lemma hoare_catch {E E' A} w (p : xprog E A) (h : E -> xprog E' A) Q R R' `{!forall a, Stable (Q a)} :
  hoare w p Q R -> (forall e w', inv w' -> evolves w w' -> R e w' -> hoare w' (h e) Q R') -> hoare w (xcatch p h) Q R'.
Proof.
  intros Hp Hh Hw. wp_apply wp_xcatch.
  - intros a w1 w2 H1 H2 Ha. destruct (H1 Hw) as [Hw1 _]. destruct (H2 Hw1). by eapply stable.
  - wp_apply wp_mono; [|by apply Hp]. intros [a|e] w' Hk; cbn; [done|].
    intros He _. destruct (Hk Hw). by eapply Hh.
Qed.

Lemma hoare_lift {E A} w (r : result E A) Q R `{!forall a, Stable (Q a), !forall e, Stable (R e)} :
  (forall a, r = Ok a -> Q a w) -> (forall e, r = Raise e -> R e w) -> hoare w (xlift r) Q R.
Proof.
  intros HQ HR Hw. apply wp_xlift. intros w' Hk. destruct (Hk Hw).
  destruct r as [a|e]; cbn; eapply stable; eauto.
Qed.

Lemma hoare_ret {E A} w (a : A) (Q : A -> world -> Prop) (R : E -> world -> Prop) `{!Stable (Q a)} :
  Q a w -> hoare w (mret a) Q R.
Proof. intros HQ Hw. apply wp_xret. intros w' Hk. destruct (Hk Hw). by eapply stable. Qed.

Lemma hoare_raise {E A} w (e : E) (Q : A -> world -> Prop) (R : E -> world -> Prop) `{!Stable (R e)} :
  R e w -> hoare w (xraise e) Q R.
Proof. intros HR Hw. apply wp_xraise. intros w' Hk. destruct (Hk Hw). by eapply stable. Qed.

Lemma hoare_raise_any {E A} w (e : E) (Q : A -> world -> Prop) : hoare w (xraise e) Q any.
Proof. by apply hoare_raise; [apply _|]. Qed.

Lemma hoare_running {E A} w (Q : A -> world -> Prop) (R : E -> world -> Prop) : hoare w (Running : xprog E A) Q R.
Proof. by intros _. Qed.

(** A call whose answers are results. *)
Lemma hoare_call {E A} (c : temporal_call) (Hc : answer c = result E A) w Q R
    `{!forall a, Stable (Q a), !forall e, Stable (R e)} :
  (forall w1 a w2, inv w1 -> evolves w w1 -> temporal_step c w1 a w2 ->
     (inv w2 /\ evolves w1 w2) /\ outcome Q R (eq_rect _ id a _ Hc) w2) ->
  hoare w (Call c (fun a => Ret (eq_rect _ id a _ Hc)) : xprog E A) Q R.
Proof.
  intros Hcall Hw w1 a w2 Hk Hc'. destruct (Hk Hw) as [Hw1 He].
  destruct (Hcall w1 a w2 Hw1 He Hc') as [[Hw2 He2] HQ]. split; [by intros _|].
  intros w' Hk'. destruct (Hk' Hw2). destruct (eq_rect _ id a _ Hc) as [x|e]; cbn in *; eapply stable; eauto.
Qed.

(** A call whose answer is not an exception. *)
Lemma hoare_ask {E} (c : temporal_call) w (Q : answer c -> world -> Prop) (R : E -> world -> Prop)
    `{!forall a, Stable (Q a)} :
  (forall w1 a w2, inv w1 -> evolves w w1 -> temporal_step c w1 a w2 -> (inv w2 /\ evolves w1 w2) /\ Q a w2) ->
  hoare w (ask c) Q R.
Proof.
  intros Hcall Hw w1 a w2 Hk Hc. destruct (Hk Hw) as [Hw1 He].
  destruct (Hcall w1 a w2 Hw1 He Hc) as [[Hw2 He2] HQ]. split; [by intros _|].
  intros w' Hk'. destruct (Hk' Hw2). cbn. by eapply stable.
Qed.
End rules.

Arguments hoare : simpl never.

(** ** Programs that change nothing *)

Fixpoint reads {A} (p : prog A) : Prop :=
  match p with
  | Ret _ | Running => True
  | Call c k => (forall w a w', temporal_step c w a w' -> w' = w) /\ forall a, reads (k a)
  end.

Create HintDb reads.

Lemma reads_prog_bind {A B} (p : prog A) (f : A -> prog B) : reads p -> (forall a, reads (f a)) -> reads (p ≫= f).
Proof. intros Hp Hf. induction p as [a|c k IH|]; cbn in *; [done| |done]. destruct Hp. split; auto. Qed.

Lemma reads_bind {E A B} (p : xprog E A) (f : A -> xprog E B) : reads p -> (forall a, reads (f a)) -> reads (p ≫= f).
Proof. intros Hp Hf. apply (reads_prog_bind p); [done|]. by intros []. Qed.

Lemma reads_catch {E E' A} (p : xprog E A) (h : E -> xprog E' A) : reads p -> (forall e, reads (h e)) -> reads (xcatch p h).
Proof. intros Hp Hh. apply (reads_prog_bind p); [done|]. by intros []. Qed.

Lemma reads_lift {E A} (r : result E A) : reads (xlift r).
Proof. done. Qed.
Lemma reads_ret {E A} (a : A) : reads (mret a : xprog E A).
Proof. done. Qed.
Lemma reads_raise {E A} (e : E) : reads (xraise e : xprog E A).
Proof. done. Qed.
Lemma reads_running {A} : reads (Running : prog A).
Proof. done. Qed.

(** The calls that change nothing. *)
Definition read_call (c : temporal_call) : bool :=
  match c with
  | StartWorkflow _ | CreateSchedule _ _ _ | UpdateSchedule _ _ | DeleteSchedule _ | ContinueRun _ _ _
  | CompleteRun _ _ _ => false
  | _ => true
  end.

Lemma read_call_same c w a w' : read_call c = true -> temporal_step c w a w' -> w' = w.
Proof. destruct c; cbn; try done; intros _; intuition. Qed.

Lemma reads_ask {E} c : read_call c = true -> reads (ask c : xprog E (answer c)).
Proof. intros Hc. split; [|by intros ?]. intros w a w'. by apply read_call_same. Qed.

Lemma reads_call c : read_call c = true -> reads (Call c Ret : prog (answer c)).
Proof. intros Hc. split; [|by intros ?]. intros w a w'. by apply read_call_same. Qed.

Lemma reads_handler {E E' A} (is_exc : E -> option E') (h : E -> xprog E' A) e :
  (forall e, reads (h e)) -> reads (on_exception is_exc h e).
Proof. intros Hh. unfold on_exception. by destruct (is_exc e). Qed.

Lemma reads_map {E A B} (f : A -> xprog E B) l : (forall a, reads (f a)) -> reads (xmap f l).
Proof. intros Hf. induction l; cbn [xmap]; [done|]. apply reads_bind; [done|]. intros b. by apply reads_bind. Qed.

(** Programs whose calls all read. *)
Ltac reads :=
  repeat first
    [ done
    | solve [auto with reads nocore]
    | progress intros
    | apply reads_bind | apply reads_catch | apply reads_lift | apply reads_ret | apply reads_raise
    | apply reads_running | apply reads_map | apply reads_handler
    | (apply reads_ask; reflexivity) | (apply reads_call; reflexivity)
    | case_match ].

Section reads.
Context `{Sha256, FloatRepr, Timestamps, PayloadContracts, JsonLoads} (self : ScheduledStartService).

Lemma reads_now : reads now_seconds.
Proof. unfold now_seconds. reads. Qed.
Lemma reads_metric o : reads (record_metric o).
Proof. unfold record_metric. reads. Qed.
Lemma reads_decision o r : reads (record_decision o r).
Proof. unfold record_decision. reads. Qed.
#[local] Hint Resolve reads_now reads_metric reads_decision : reads.

Lemma reads_describe_record scope sid : reads (describe_record self scope sid).
Proof. unfold describe_record, describe_schedule, schedule_rpc_error. reads. Qed.
#[local] Hint Resolve reads_describe_record : reads.

Lemma reads_existing_record scope sid : reads (existing_record self scope sid).
Proof. unfold existing_record. reads. Qed.

Lemma reads_resolve_target_for scope request : reads (resolve_target_for scope request).
Proof. unfold resolve_target_for, resolve_target. reads. Qed.
#[local] Hint Resolve reads_resolve_target_for : reads.

Lemma reads_prepare starter request binding : reads (prepare starter request binding).
Proof. unfold prepare. reads. Qed.
#[local] Hint Resolve reads_prepare : reads.

Lemma reads_resolve_active_target scope name : reads (resolve_active_target scope name).
Proof. unfold resolve_active_target, resolve_target. reads. Qed.

Lemma reads_lookup_existing id run_id scope : reads (lookup_existing_result id run_id scope).
Proof. unfold lookup_existing_result, describe_workflow. reads. Qed.
#[local] Hint Resolve reads_lookup_existing : reads.

Lemma reads_find_existing name bid scope : reads (find_existing name bid scope).
Proof. unfold find_existing. reads. Qed.

Lemma reads_existing_result id run_id scope : reads (existing_result id run_id scope).
Proof. unfold existing_result. reads. Qed.

Lemma reads_resolve_run_id id run_id : reads (resolve_run_id id run_id).
Proof. unfold resolve_run_id, describe_workflow. reads. Qed.

Lemma reads_prepare_create request binding : reads (prepare_create self request binding).
Proof. unfold prepare_create. reads. Qed.

Lemma reads_accepted_record scope sid : reads (accepted_record self scope sid).
Proof. unfold accepted_record, describe_schedule. reads. Qed.

Lemma reads_list_entries fuel scope states limit entries index scanned records :
  reads (list_entries self fuel scope states limit entries index scanned records).
Proof.
  revert entries index scanned records. induction fuel; intros; destruct entries; cbn [list_entries];
    unfold describe_list_entries, describe_schedule; reads.
Qed.
#[local] Hint Resolve reads_list_entries : reads.

Lemma reads_list_pages pages scope states limit query position scanned records :
  reads (list_pages self pages scope states limit query position scanned records).
Proof.
  revert position scanned records. induction pages; intros; cbn [list_pages]; unfold list_schedules; reads.
Qed.
#[local] Hint Resolve reads_list_pages : reads.

Lemma reads_list pages scope limit cursor states : reads (list_scheduled_starts self pages scope limit cursor states).
Proof. unfold list_scheduled_starts. reads. Qed.
#[local] Hint Resolve reads_list : reads.

Lemma reads_count_pending pages scope : reads (count_pending self pages scope).
Proof.
  assert (Hc : forall fuel cursor count, reads (count_pages self fuel pages scope cursor count)).
  { induction fuel; intros; cbn [count_pages]; reads. }
  unfold count_pending. reads.
Qed.

Lemma reads_describe sid scope : reads (describe self sid scope).
Proof. unfold describe, authoritative_description, describe_workflow, workflow_result. reads. Qed.
End reads.

#[export] Hint Resolve reads_now reads_metric reads_decision reads_describe_record reads_existing_record
  reads_resolve_target_for reads_prepare reads_resolve_active_target reads_lookup_existing reads_find_existing
  reads_existing_result reads_resolve_run_id reads_prepare_create reads_accepted_record reads_list
  reads_count_pending reads_describe : reads.

(** ** In a triple *)

Section hoare.
Context (inv : world -> Prop) (evolves : relation world) `{!PreOrder evolves}.

Lemma hoare_reads {E A} w (p : xprog E A) : reads p -> hoare inv evolves w p any any.
Proof.
  intros Hp Hw. revert w Hw. induction p as [r|c k IH|]; intros w Hw.
  - apply wp_ret. by destruct r.
  - intros w1 a w2 Hk Hc. destruct Hp as [Hsame Hp]. destruct (Hk Hw) as [Hw1 _].
    rewrite (Hsame _ _ _ Hc). split; [reflexivity|]. by apply IH.
  - done.
Qed.

(** A step of which nothing matters. *)
Lemma hoare_skip {E A B} w (p : xprog E A) (f : A -> xprog E B) Q :
  hoare inv evolves w p any any -> (forall a w', inv w' -> evolves w w' -> hoare inv evolves w' (f a) Q any) ->
  hoare inv evolves w (p ≫= f) Q any.
Proof. intros Hp Hf. eapply hoare_bind; [apply _..|exact Hp|]. auto. Qed.

Lemma hoare_read {E A B} w (p : xprog E A) (f : A -> xprog E B) Q :
  reads p -> (forall a w', inv w' -> evolves w w' -> hoare inv evolves w' (f a) Q any) ->
  hoare inv evolves w (p ≫= f) Q any.
Proof. intros Hp. by apply hoare_skip, hoare_reads. Qed.

(** A step that computes. *)
Lemma hoare_let {E A B} w (r : result E A) (f : A -> xprog E B) Q :
  (forall a w', r = Ok a -> inv w' -> evolves w w' -> hoare inv evolves w' (f a) Q any) ->
  hoare inv evolves w (xlift r ≫= f) Q any.
Proof.
  intros Hf. eapply (hoare_bind _ _ _ _ _ (fun a _ => r = Ok a)); [apply _..| |eauto].
  by apply hoare_lift; [apply _..|intros a ->|].
Qed.

(** A handler that only raises. *)
Lemma hoare_catch_raise {E E' A} w (p : xprog E A) (h : E -> xprog E' A) Q `{!forall a, Stable evolves (Q a)} :
  hoare inv evolves w p Q any -> (forall e w', inv w' -> evolves w w' -> hoare inv evolves w' (h e) Q any) ->
  hoare inv evolves w (xcatch p h) Q any.
Proof. intros Hp Hh. eapply hoare_catch; [done..|exact Hp|]. auto. Qed.

Lemma hoare_any {E A} w (p : xprog E A) Q R : hoare inv evolves w p Q R -> hoare inv evolves w p any any.
Proof. by apply hoare_conseq. Qed.
End hoare.
