(* ===== verification/ScheduledStartInvariant.v ===== *)
(** What always holds of the scheduled starts of a scope and of the arbiters of their
    versions, and that every change the code makes keeps it. *)

From S2P Require Export ScheduledStartWorld ScopeFacts.

(** ** Steps of records *)

Lemma record_step_id r r' : record_step r r' -> ss_id r' = ss_id r.
Proof. intros (_ & Hf & _). unfold fixed_fields in Hf. by injection Hf. Qed.

Lemma record_step_version r r' : record_step r r' -> (version r <= version r')%Z.
Proof. intros (_ & _ & H). destruct (ss_stage r'); intuition lia. Qed.

Lemma record_steps_id r r' : rtc record_step r r' -> ss_id r' = ss_id r.
Proof. induction 1 as [|r r1 r' H _ IH]; [done|]. rewrite IH. by apply record_step_id. Qed.

Lemma record_steps_fixed r r' : rtc record_step r r' -> fixed_fields r' = fixed_fields r.
Proof. induction 1 as [|r r1 r' (_ & H & _) _ IH]; congruence. Qed.

Lemma record_steps_version r r' : rtc record_step r r' -> (version r <= version r')%Z.
Proof. induction 1 as [|r r1 r' H _ IH]; [lia|]. apply record_step_version in H. lia. Qed.

Lemma ended_stays r r' : is_pending r = false -> rtc record_step r r' -> r' = r.
Proof. intros Hp H. inversion H as [|? ? ? (Hs & _)]; [done|]. congruence. Qed.

(** A later record of the same version has ended, or it is the same. *)
Lemma record_steps_same_version r r' :
  rtc record_step r r' -> version r' = version r -> is_pending r' = true -> r' = r.
Proof.
  intros H. inversion H as [|? r1 ? Hs Hr]; [done|]. intros Hv Hp. exfalso.
  pose proof (record_steps_version _ _ Hr). destruct Hs as (_ & _ & Hst). unfold is_pending in Hp.
  destruct (ss_stage r1) eqn:E; [lia|done| | |];
    (rewrite (ended_stays r1 r') in Hp by (done || (unfold is_pending; by rewrite E)); by rewrite E in Hp).
Qed.

Lemma record_step_projection r r' : record_step r r' -> is_projection r' = true.
Proof. intros (_ & _ & H). unfold is_projection. by destruct (ss_stage r'). Qed.

Section invariant.
Context `{Sha256, FloatRepr, Timestamps, PayloadContracts, JsonLoads} (self : ScheduledStartService)
  (scope : RuntimeScope) (direct : string -> Prop).

Abbreviation schedule_id := (make_scheduled_start_schedule_id scope).
Abbreviation arbiter_id := (make_scheduled_start_arbiter_id scope).

(** ** What is stored *)

Definition arbiter_of (i : ScheduledStartArbiterInitialInput) : string :=
  arbiter_id (ss_id (ai_record i)) (version (ai_record i)).

(** The schedule of a scheduled start holds a record of it. *)
Definition stored (w : world) (sid : string) (r : ScheduledStartRecord) : Prop :=
  exists s, w_schedules w !! schedule_id sid = Some s
    /\ described_record self (description (schedule_id sid) s) scope = Some r /\ ss_id r = sid.

(** The execution of an arbiter, by the input with which it started. *)
Definition arbiter (w : world) (i : ScheduledStartArbiterInitialInput) (x : Execution) : Prop :=
  w_executions w !! arbiter_of i = Some x /\ ws_argument (ex_start x) = ArbiterArgument (InitialInput i).

(** Schedules change by steps of their records, and executions go on. *)
Definition evolves (w w' : world) : Prop :=
  (forall sid r, stored w sid r -> exists r', stored w' sid r' /\ rtc record_step r r')
  /\ (forall k x, w_executions w !! k = Some x -> exists x', w_executions w' !! k = Some x' /\ execution_evolves x x').

#[export] Instance evolves_preorder : PreOrder evolves.
Proof.
  split.
  - intros w. split; [intros sid r ?; by exists r|]. intros k x ?. by exists x.
  - intros w1 w2 w3 [Hs Hx] [Hs' Hx']. split.
    + intros sid r (r' & Hr & ?)%Hs. destruct (Hs' _ _ Hr) as (r'' & ? & ?). exists r''. split; [done|]. by etransitivity.
    + intros k x (x' & Hk & ?)%Hx. destruct (Hx' _ _ Hk) as (x'' & ? & ?). exists x''. split; [done|]. by etransitivity.
Qed.

(** A record was stored, and what is stored descends from it. *)
Definition seen (r : ScheduledStartRecord) (w : world) : Prop :=
  exists r', stored w (ss_id r) r' /\ rtc record_step r r'.

(** The arbiter that started with an input: it exists, it is past its first run, it holds
    what it will commit. *)
Definition started (i : ScheduledStartArbiterInitialInput) (w : world) : Prop := exists x, arbiter w i x.
Definition moved (i : ScheduledStartArbiterInitialInput) (w : world) : Prop :=
  exists x, arbiter w i x /\ forall i', ex_argument x <> ArbiterArgument (InitialInput i').
Definition decided (i : ScheduledStartArbiterInitialInput) (t : ScheduledStartArbiterTerminalInput) (w : world) : Prop :=
  exists x, arbiter w i x /\ ex_argument x = ArbiterArgument (TerminalInput t).

Lemma arbiter_evolves w w' i x : evolves w w' -> arbiter w i x -> exists x', arbiter w' i x' /\ execution_evolves x x'.
Proof.
  intros [_ Hx] [Hk Ha]. destruct (Hx _ _ Hk) as (x' & ? & He). exists x'. split; [|done]. split; [done|].
  destruct He as (-> & _). done.
Qed.

#[export] Instance seen_stable r : Stable evolves (seen r).
Proof.
  intros w w' [Hs _] (r1 & Hr1 & ?). destruct (Hs _ _ Hr1) as (r2 & ? & ?). exists r2. split; [done|]. by etransitivity.
Qed.
#[export] Instance started_stable i : Stable evolves (started i).
Proof. intros w w' He [x Hx]. destruct (arbiter_evolves _ _ _ _ He Hx) as (x' & ? & _). by exists x'. Qed.
#[export] Instance moved_stable i : Stable evolves (moved i).
Proof.
  intros w w' He (x & Hx & Hm). destruct (arbiter_evolves _ _ _ _ He Hx) as (x' & ? & (_ & _ & Ha & _)).
  exists x'. split; [done|]. intros i' Hi. rewrite Hi in Ha.
  destruct (ex_argument x) as [?|[i0| |]] eqn:E; cbn in Ha; try done. by destruct (Hm i0).
Qed.
#[export] Instance decided_stable i t : Stable evolves (decided i t).
Proof.
  intros w w' He (x & Hx & Ht). destruct (arbiter_evolves _ _ _ _ He Hx) as (x' & ? & (_ & _ & Ha & _)).
  exists x'. split; [done|]. by rewrite Ht in Ha.
Qed.

Lemma carry P (HP : Stable evolves P) w w' : evolves w w' -> P w -> P w'.
Proof. apply HP. Qed.

(** What is stored under one schedule. *)
Lemma stored_unique w sid sid' r r' :
  stored w sid r -> stored w sid' r' -> schedule_id sid = schedule_id sid' -> r = r' /\ sid = sid'.
Proof. intros (s & Hs & Hr & <-) (s' & Hs' & Hr' & <-) Heq. rewrite Heq in Hs, Hr. by simplify_eq. Qed.

(** ** The invariant *)

(** What an arbiter may hold: the input it started with, the claim of its record, or a step
    of its record under its command. *)
Definition resolved_ok (i : ScheduledStartArbiterInitialInput) (d : ScheduledStartArbiterResolvedDueInput) : Prop :=
  command_kind (ai_command i) = DUE_COMMAND /\ fixed_fields (ad_record d) = fixed_fields (ai_record i)
  /\ version (ad_record d) = version (ai_record i)
  /\ ss_start_at (ss_base (ad_record d)) = ss_start_at (ss_base (ai_record i))
  /\ exists c, ss_stage (ad_record d) = Dispatching c /\ claimed_version c = version (ai_record i).

Definition terminal_ok (i : ScheduledStartArbiterInitialInput) (t : ScheduledStartArbiterTerminalInput) : Prop :=
  valid_terminal_input t = true /\ at_winner t = command_kind (ai_command i)
  /\ at_consumed_version t = version (ai_record i) /\ at_request_digest t = command_digest (ai_command i)
  /\ record_step (ai_record i) (at_projection t)
  /\ match ss_stage (at_projection t) with
     | Pending | Canceled _ => command_digest (ai_command i) = Some (ss_last_mutation_digest (ss_base (at_projection t)))
     | _ => True
     end.

Definition argument_ok (i : ScheduledStartArbiterInitialInput) (a : workflow_argument) : Prop :=
  match a with
  | ArbiterArgument (InitialInput i') => i' = i
  | ArbiterArgument (ResolvedDueInput d) => resolved_ok i d
  | ArbiterArgument (TerminalInput t) => terminal_ok i t
  | TriggerArgument _ => False
  end.

(** A result is that of the decision, which was stored. *)
Definition result_ok (w : world) (x : Execution) : Prop :=
  match ex_result x with
  | None => True
  | Some r =>
      exists t, ex_argument x = ArbiterArgument (TerminalInput t)
        /\ r = ArbiterApplied (at_consumed_version t) (at_winner t) (at_request_digest t)
                 (describe_scheduled_start (at_projection t))
        /\ seen (at_projection t) w
  end.

Definition arbiter_ok (w : world) (i : ScheduledStartArbiterInitialInput) (x : Execution) : Prop :=
  ws_memo (ex_start x) = arbiter_memo i /\ valid_initial_input i = true
  /\ ss_scope_digest (ss_base (ai_record i)) = digest scope
  /\ seen (ai_record i) w /\ argument_ok i (ex_argument x) /\ result_ok w x.

(** An arbiter of a due command is dispatching the workflow of this identity, or has done
    so. *)
Definition dispatching (id : string) (w : world) : Prop :=
  exists i, moved i w /\ command_kind (ai_command i) = DUE_COMMAND
    /\ start_workflow_id scope (ss_workflow_name (ss_base (ai_record i)))
         (ss_business_request_id (ss_base (ai_record i))) = id.

(** A record comes from a creation or from the decision of an arbiter. *)
Definition origin (r : ScheduledStartRecord) (w : world) : Prop :=
  is_pending r = true /\ ss_last_mutation_kind (ss_base r) = CREATE_MUTATION \/ exists i t, decided i t w /\ at_projection t = r.

#[export] Instance origin_stable r : Stable evolves (origin r).
Proof. unfold origin. apply _. Qed.

Definition named (r : ScheduledStartRecord) : Prop :=
  ss_id r = make_scheduled_start_id scope (ss_workflow_name (ss_base r)) (ss_business_request_id (ss_base r)).

Record consistent (w : world) : Prop := {
  (* every version that was left has an arbiter *)
  versions_claimed sid r u :
    stored w sid r -> (1 <= u)%Z -> (u < version r \/ u = version r /\ is_pending r = false)%Z ->
    is_Some (w_executions w !! arbiter_id sid u);
  arbiters_ok sid u x :
    w_executions w !! arbiter_id sid u = Some x ->
    exists i, arbiter w i x /\ arbiter_of i = arbiter_id sid u /\ arbiter_ok w i x;
  (* what is stored is the record of the arbiter, or comes from its decision *)
  stored_decided i x r :
    arbiter w i x -> stored w (ss_id (ai_record i)) r ->
    r = ai_record i \/ exists t, ex_argument x = ArbiterArgument (TerminalInput t) /\ rtc record_step (at_projection t) r;
  (* every record but that of a creation was the decision of an arbiter *)
  stored_origin sid r : stored w sid r -> origin r w;
  (* the identity of a scheduled start is that of its request *)
  stored_named sid r : stored w sid r -> named r;
  (* workflows that no other client starts are started by due arbiters *)
  executions_dispatched workflow_name business_request_id :
    is_Some (w_executions w !! start_workflow_id scope workflow_name business_request_id) ->
    direct (start_workflow_id scope workflow_name business_request_id)
    \/ dispatching (start_workflow_id scope workflow_name business_request_id) w;
}.

Lemma record_step_named r r' : record_step r r' -> named r -> named r'.
Proof. intros (_ & Hf & _). unfold fixed_fields, named, ss_id in *. injection Hf. congruence. Qed.

#[export] Instance dispatching_stable id : Stable evolves (dispatching id).
Proof. unfold dispatching. apply _. Qed.

Lemma arbiter_unique w i i' x x' : arbiter w i x -> arbiter w i' x' -> arbiter_of i = arbiter_of i' -> i = i' /\ x = x'.
Proof. intros [Hx Ha] [Hx' Ha'] Heq. rewrite Heq in Hx. simplify_eq. rewrite Ha in Ha'. by simplify_eq. Qed.

Lemma arbiter_is_ok w i x : consistent w -> arbiter w i x -> arbiter_ok w i x.
Proof.
  intros Hw Hx. destruct (arbiters_ok w Hw _ _ _ (proj1 Hx)) as (i' & Hi' & Heq & Hok).
  by destruct (arbiter_unique _ _ _ _ _ Hx Hi' ltac:(done)) as [-> _].
Qed.

Lemma result_ok_evolves w w' x : evolves w w' -> result_ok w x -> result_ok w' x.
Proof.
  intros He. unfold result_ok. destruct (ex_result x); [|done]. intros (t & ? & ? & ?).
  exists t. split_and!; [done|done|]. by eapply (carry _ _).
Qed.

Lemma arbiter_ok_evolves w w' i x : evolves w w' -> arbiter_ok w i x -> arbiter_ok w' i x.
Proof.
  intros He (?&?&?&?&?&?). split_and!; try done; [by eapply (carry _ _)|by eapply result_ok_evolves].
Qed.

(** A stored record is valid, its schedule and the memo say so. *)
Lemma described_fields d r :
  described_record self d scope = Some r ->
  (valid_record r = true /\ is_projection r = true /\ ss_scope_digest (ss_base r) = digest scope
   /\ dsc_id d = schedule_id (ss_id r))
  /\ memo_text_value (dsc_memo d) MEMO_SCHEDULED_START_OWNER = Ok (Some SCHEDULED_START_OWNER)
  /\ memo_text_value (dsc_memo d) MEMO_SCHEDULED_START_ID = Ok (Some (ss_id r))
  /\ memo_text_value (dsc_memo d) MEMO_SCOPE_DIGEST = Ok (Some (digest scope)).
Proof.
  clear direct.
  unfold described_record. destruct (memo_text_value _ _) as [owner|]; [|done].
  destruct (memo_text_value _ _) as [[memo_id|]|]; try done. destruct (memo_text_value _ _) as [memo_scope|]; [|done].
  destruct (sch_action _) as [action|]; [|done]. destruct (sa_args action) as [|[r'|] [|]]; try done.
  case_match eqn:E; [|done]. intros [= ->]. rewrite !andb_true_iff, !bool_decide_eq_true in E. naive_solver.
Qed.

Lemma described_record_ok d r :
  described_record self d scope = Some r ->
  valid_record r = true /\ is_projection r = true /\ ss_scope_digest (ss_base r) = digest scope
  /\ dsc_id d = schedule_id (ss_id r).
Proof. by intros [? _]%described_fields. Qed.

Lemma stored_valid w sid r : stored w sid r -> valid_record r = true /\ is_projection r = true /\ (1 <= version r)%Z.
Proof.
  intros (s & _ & Hd & _). destruct (described_record_ok _ _ Hd) as (Hv & Hp & _). split_and!; [done|done|].
  unfold valid_record, valid_base in Hv. rewrite !andb_true_iff in Hv. unfold version. lia.
Qed.

(** What [schedule_of] makes of a record reads back as the record. *)
Lemma described_schedule r priority memo :
  valid_record r = true -> is_projection r = true -> ss_scope_digest (ss_base r) = digest scope ->
  memo_text_value memo MEMO_SCHEDULED_START_OWNER = Ok (Some SCHEDULED_START_OWNER) ->
  memo_text_value memo MEMO_SCHEDULED_START_ID = Ok (Some (ss_id r)) ->
  memo_text_value memo MEMO_SCOPE_DIGEST = Ok (Some (digest scope)) ->
  described_record self (description (schedule_id (ss_id r)) (schedule_of self r scope priority, memo)) scope = Some r.
Proof.
  intros Hv Hp Hs Ho Hi Hm. unfold described_record, description. cbn [dsc_memo dsc_schedule dsc_id fst snd].
  rewrite Ho, Hi, Hm. cbn [schedule_of sch_action sa_args sa_workflow sa_task_queue sa_id].
  rewrite Hv, Hp, !bool_decide_eq_true_2 by done. done.
Qed.

(** ** Changes that keep it *)

(** Identities of different kinds differ. *)
Lemma arbiter_not_workflow scope' sid v workflow_name business_request_id :
  arbiter_id sid v <> start_workflow_id scope' workflow_name business_request_id.
Proof.
  intros Heq. apply identity_parts in Heq as [[=] _];
    try (apply kind_undotted; reflexivity); apply scope_digest_undotted, hexdigest_form.
Qed.

Lemma seen_stored w r : stored w (ss_id r) r -> seen r w.
Proof. intros. by exists r. Qed.

(** Executions change while the schedules stay. *)
Lemma stored_same w w' sid r : w_schedules w' = w_schedules w -> stored w' sid r <-> stored w sid r.
Proof. intros Heq. unfold stored. by rewrite Heq. Qed.

Lemma evolves_executions w w' :
  w_schedules w' = w_schedules w ->
  (forall k x, w_executions w !! k = Some x -> exists x', w_executions w' !! k = Some x' /\ execution_evolves x x') ->
  evolves w w'.
Proof.
  intros Hs Hx. split; [|done]. intros sid r Hr. exists r. split; [by apply (stored_same w)|done].
Qed.

Lemma with_execution_evolves w k x x' :
  w_executions w !! k = Some x -> execution_evolves x x' -> evolves w (with_execution k x' w).
Proof.
  intros Hk Hx. apply evolves_executions; [done|]. intros k' y Hy. cbn.
  destruct (decide (k = k')) as [->|]; [|exists y; by rewrite lookup_insert_ne].
  simplify_eq. exists x'. by rewrite lookup_insert_eq.
Qed.

Lemma fresh_execution_evolves w k x : w_executions w !! k = None -> evolves w (with_execution k x w).
Proof.
  intros Hk. apply evolves_executions; [done|]. intros k' y Hy. cbn. exists y.
  rewrite lookup_insert_ne; [done|]. congruence.
Qed.

(** The run of an arbiter ends: it gets another argument, or a result. *)
Lemma consistent_execution w k x x' i :
  consistent w -> arbiter w i x -> arbiter_of i = k -> execution_evolves x x' -> argument_ok i (ex_argument x') ->
  (forall t, ex_argument x = ArbiterArgument (TerminalInput t) -> ex_argument x' = ex_argument x) ->
  result_ok w x' -> consistent (with_execution k x' w).
Proof.
  intros Hw Hx Hk He Ha Ht Hr. set (w' := with_execution k x' w).
  assert (Hev : evolves w w') by (apply (with_execution_evolves _ _ x); [by rewrite <- Hk; apply Hx|done]).
  assert (Hi : arbiter w' i x').
  { split; [cbn; by rewrite Hk, lookup_insert_eq|]. destruct He as (-> & _). apply Hx. }
  assert (Hother : forall i' y, arbiter w' i' y -> arbiter_of i' <> k -> arbiter w i' y).
  { intros i' y [Hy Hb] Hne. split; [|done]. cbn in Hy. by rewrite lookup_insert_ne in Hy. }
  split.
  - intros sid r u Hst Hu Hp. destruct (versions_claimed w Hw sid r u) as [y Hy]; [by apply (stored_same w w')|done..|].
    destruct (proj2 Hev _ _ Hy) as (y' & ? & _). by exists y'.
  - intros sid u y Hy. destruct (decide (arbiter_id sid u = k)) as [Heq|Hne].
    + rewrite Heq in Hy |- *. cbn in Hy. rewrite lookup_insert_eq in Hy. simplify_eq. exists i. split_and!; [done|done|].
      destruct (arbiter_is_ok _ _ _ Hw Hx) as (?&?&?&?&_&_).
      destruct He as (Hes & _). split_and!; [congruence|done..].
    + cbn in Hy. rewrite lookup_insert_ne in Hy by done. destruct (arbiters_ok w Hw _ _ _ Hy) as (j & Hj & Heq & Hok).
      exists j. split_and!; [|done|by eapply arbiter_ok_evolves].
      destruct Hj. split; [|done]. cbn. rewrite lookup_insert_ne; [done|congruence].
  - intros i' y r Hy Hst. apply (stored_same w w') in Hst; [|done].
    destruct (decide (arbiter_of i' = k)) as [Heq|Hne].
    + destruct (arbiter_unique w' i' i y x') as [-> ->]; [done|done|congruence|].
      destruct (stored_decided w Hw i x r Hx Hst) as [?|(t & Hxt & ?)]; [by left|right].
      exists t. split; [|done]. by rewrite (Ht t).
    + by eapply stored_decided; [|apply Hother|].
  - intros sid r Hst%(stored_same w w'); [|done]. eapply (carry _ _); [done|]. by eapply stored_origin.
  - intros sid r Hst%(stored_same w w'); [|done]. by eapply stored_named.
  - intros wn bid Hs. destruct (executions_dispatched w Hw wn bid) as [?|?].
    + destruct Hs as [y Hy]. cbn in Hy. rewrite lookup_insert_ne in Hy; [by eexists|].
      rewrite <- Hk. apply arbiter_not_workflow.
    + by left.
    + right. by eapply (carry _ _).
Qed.

(** A version gets an arbiter. *)
Lemma consistent_start_arbiter w i x :
  consistent w -> w_executions w !! arbiter_of i = None -> ws_argument (ex_start x) = ArbiterArgument (InitialInput i) ->
  ws_memo (ex_start x) = arbiter_memo i -> ex_argument x = ArbiterArgument (InitialInput i) -> ex_result x = None ->
  valid_initial_input i = true -> ss_scope_digest (ss_base (ai_record i)) = digest scope -> seen (ai_record i) w ->
  consistent (with_execution (arbiter_of i) x w).
Proof.
  intros Hw Hnone Hx Hm Ha Hr Hv Hd Hseen. set (w' := with_execution (arbiter_of i) x w).
  assert (Hev : evolves w w') by by apply fresh_execution_evolves.
  assert (Hi : arbiter w' i x) by (split; [cbn; by rewrite lookup_insert_eq|done]).
  split.
  - intros sid r u Hst Hu Hp. destruct (versions_claimed w Hw sid r u) as [y Hy]; [by apply (stored_same w w')|done..|].
    destruct (proj2 Hev _ _ Hy) as (y' & ? & _). by exists y'.
  - intros sid u y Hy. destruct (decide (arbiter_id sid u = arbiter_of i)) as [Heq|Hne].
    + rewrite Heq in Hy |- *. cbn in Hy. rewrite lookup_insert_eq in Hy. simplify_eq. exists i. split_and!; [done|done|].
      unfold arbiter_ok, result_ok. rewrite Ha, Hr. by split_and!.
    + cbn in Hy. rewrite lookup_insert_ne in Hy by done. destruct (arbiters_ok w Hw _ _ _ Hy) as (j & Hj & Heq & Hok).
      exists j. split_and!; [|done|by eapply arbiter_ok_evolves].
      destruct Hj. split; [|done]. cbn. rewrite lookup_insert_ne; [done|congruence].
  - intros i' y r Hy Hst. apply (stored_same w w') in Hst; [|done].
    destruct (decide (arbiter_of i' = arbiter_of i)) as [Heq|Hne].
    + destruct (arbiter_unique w' i' i y x) as [-> ->]; [done|done|done|]. left.
      destruct Hseen as (r' & Hst' & Hsteps).
      destruct (stored_unique _ _ _ _ _ Hst Hst' eq_refl) as [-> _].
      assert (valid_record (ai_record i) = true) as Hvr by (unfold valid_initial_input in Hv; by apply andb_true_iff in Hv as []).
      assert (1 <= version (ai_record i))%Z.
      { unfold valid_record, valid_base in Hvr. rewrite !andb_true_iff in Hvr. unfold version. lia. }
      pose proof (record_steps_version _ _ Hsteps). destruct (decide (version r' = version (ai_record i))) as [Hvv|].
      * destruct (is_pending r') eqn:Hp; [by apply record_steps_same_version|exfalso].
        destruct (versions_claimed w Hw _ r' (version (ai_record i)) Hst ltac:(done) ltac:(right; split; [lia|done])) as [z Hz].
        unfold arbiter_of in Hnone. congruence.
      * exfalso. destruct (versions_claimed w Hw _ r' (version (ai_record i)) Hst ltac:(done) ltac:(left; lia)) as [z Hz].
        unfold arbiter_of in Hnone. congruence.
    + eapply stored_decided; [done| |done]. destruct Hy as [Hy ?]. split; [|done]. cbn in Hy. by rewrite lookup_insert_ne in Hy.
  - intros sid r Hst%(stored_same w w'); [|done]. eapply (carry _ _); [done|]. by eapply stored_origin.
  - intros sid r Hst%(stored_same w w'); [|done]. by eapply stored_named.
  - intros wn bid Hs. destruct (executions_dispatched w Hw wn bid) as [?|?].
    + destruct Hs as [y Hy]. cbn in Hy. rewrite lookup_insert_ne in Hy; [by eexists|]. apply arbiter_not_workflow.
    + by left.
    + right. by eapply (carry _ _).
Qed.

(** Schedules change while the executions stay. *)
Lemma with_schedule_evolves w k s :
  (forall sid r, schedule_id sid = k -> stored w sid r ->
     exists r', described_record self (description k s) scope = Some r' /\ ss_id r' = sid /\ rtc record_step r r') ->
  evolves w (with_schedule k s w).
Proof.
  intros Hs. split; [|intros k' x ?; by exists x].
  intros sid r Hr. destruct (decide (schedule_id sid = k)) as [<-|Hne].
  - destruct (Hs sid r eq_refl Hr) as (r' & Hd & Hid & ?). exists r'. split; [|done].
    exists s. cbn. by rewrite lookup_insert_eq.
  - exists r. split; [|done]. destruct Hr as (s' & ? & ? & ?). exists s'. cbn. by rewrite lookup_insert_ne.
Qed.

(** A start is created under a schedule that was free. *)
Lemma consistent_create_schedule w s r :
  consistent w -> w_schedules w !! schedule_id (ss_id r) = None ->
  described_record self (description (schedule_id (ss_id r)) s) scope = Some r -> version r = 1%Z -> is_pending r = true ->
  ss_last_mutation_kind (ss_base r) = CREATE_MUTATION -> named r ->
  consistent (with_schedule (schedule_id (ss_id r)) s w) /\ evolves w (with_schedule (schedule_id (ss_id r)) s w).
Proof.
  intros Hw Hnone Hd Hv Hp Hc Hn. set (w' := with_schedule _ _ _).
  assert (Hev : evolves w w').
  { apply with_schedule_evolves. intros sid r' Heq (s' & Hs' & _). congruence. }
  assert (Hcase : forall sid r', stored w' sid r' -> r' = r /\ sid = ss_id r \/ stored w sid r').
  { intros sid r' (s' & Hs' & Hd' & <-). cbn in Hs'. destruct (decide (schedule_id (ss_id r') = schedule_id (ss_id r))) as [Heq|].
    - left. rewrite Heq in Hs', Hd'. rewrite lookup_insert_eq in Hs'. by simplify_eq.
    - right. rewrite lookup_insert_ne in Hs' by done. by exists s'. }
  split; [|done]. split.
  - intros sid r' u [[-> ->]|Hst]%Hcase ? ?; [lia || (rewrite Hp in *; naive_solver lia)|].
    by eapply (versions_claimed w Hw).
  - intros sid u x (i & Hi & Heq & Hok)%(arbiters_ok w Hw). exists i. split_and!; [done|done|by eapply arbiter_ok_evolves].
  - intros i x r' Hx [[-> Hid]|Hst]%Hcase; [exfalso|by eapply (stored_decided w Hw)].
    destruct (arbiter_is_ok _ _ _ Hw Hx) as (_&_&_&(r0 & (s0 & Hs0 & _) & _)&_). congruence.
  - intros sid r' [[-> ->]|Hst]%Hcase; [by left|]. eapply (carry _ _); [done|]. by eapply stored_origin.
  - intros sid r' [[-> ->]|Hst]%Hcase; [done|]. by eapply stored_named.
  - intros wn bid [?|?]%(executions_dispatched w Hw); [by left|right; by eapply (carry _ _)].
Qed.

(** The decision of an arbiter is stored, in place of its record. *)
Lemma consistent_commit w i t s :
  consistent w -> decided i t w -> stored w (ss_id (ai_record i)) (ai_record i) ->
  described_record self (description (schedule_id (ss_id (ai_record i))) s) scope = Some (at_projection t) ->
  consistent (with_schedule (schedule_id (ss_id (ai_record i))) s w)
  /\ evolves w (with_schedule (schedule_id (ss_id (ai_record i))) s w)
  /\ seen (at_projection t) (with_schedule (schedule_id (ss_id (ai_record i))) s w).
Proof.
  intros Hw (x & Hx & Ht) Hst Hd. set (w' := with_schedule _ _ _).
  destruct (arbiter_is_ok _ _ _ Hw Hx) as (_&Hvi&_&_&Ha&_). rewrite Ht in Ha.
  destruct Ha as (Hvt & _ & _ & _ & Hstep & _).
  pose proof (record_step_id _ _ Hstep) as Hid.
  assert (Hev : evolves w w').
  { apply with_schedule_evolves. intros sid r Heq Hr. exists (at_projection t).
    destruct (stored_unique _ _ _ _ _ Hr Hst Heq) as [-> ->]. split_and!; [done|done|by apply rtc_once]. }
  assert (Hnew : stored w' (ss_id (ai_record i)) (at_projection t)).
  { exists s. cbn. by rewrite lookup_insert_eq. }
  assert (Hcase : forall sid r, stored w' sid r ->
            r = at_projection t /\ sid = ss_id (ai_record i) \/ stored w sid r /\ schedule_id sid <> schedule_id (ss_id (ai_record i))).
  { intros sid r Hr. destruct (decide (schedule_id sid = schedule_id (ss_id (ai_record i)))) as [Heq|Hne].
    - left. by destruct (stored_unique _ _ _ _ _ Hr Hnew Heq) as [-> ->].
    - right. split; [|done]. destruct Hr as (s' & Hs' & ? & ?). exists s'. cbn in Hs'. by rewrite lookup_insert_ne in Hs'. }
  assert (Hle : forall sid r u, stored w' sid r -> (1 <= u)%Z -> (u < version r \/ u = version r /\ is_pending r = false)%Z ->
            is_Some (w_executions w !! arbiter_id sid u)).
  { intros sid r u [[-> ->]|[Hr _]]%Hcase Hu Hp; [|by eapply (versions_claimed w Hw)].
    destruct (decide (u = version (ai_record i))) as [->|Hne]; [exists x; apply Hx|].
    eapply (versions_claimed w Hw); [done|done|left]. pose proof Hstep as (_ & _ & Hs2). unfold is_pending in Hp.
    destruct (ss_stage (at_projection t)); try naive_solver lia. }
  split_and!; [|done|by exists (at_projection t); rewrite Hid]. split.
  - exact Hle.
  - intros sid u y (j & Hj & Heq & Hok)%(arbiters_ok w Hw). exists j. split_and!; [done|done|by eapply arbiter_ok_evolves].
  - intros j y r Hy [[-> Heq]|[Hr _]]%Hcase; [|by eapply (stored_decided w Hw)]. right.
    assert (arbiter w j y) as Hy' by done. rewrite <- Heq in Hst.
    destruct (stored_decided w Hw _ _ _ Hy' Hst) as [Heqr|(t' & Ht' & Hsteps)].
    + destruct (arbiter_unique w j i y x) as [-> ->]; [done|done|by unfold arbiter_of; rewrite Heqr|].
      exists t. split; [done|reflexivity].
    + exists t'. split; [done|]. etransitivity; [done|]. by apply rtc_once.
  - intros sid r [[-> ->]|[Hst' _]]%Hcase.
    + right. exists i, t. split; [by exists x|done].
    + eapply (carry _ _); [done|]. by eapply stored_origin.
  - intros sid r [[-> ->]|[Hst' _]]%Hcase; [|by eapply stored_named].
    eapply record_step_named; [done|]. by eapply stored_named.
  - intros wn bid [?|?]%(executions_dispatched w Hw); [by left|right; by eapply (carry _ _)].
Qed.

(** A workflow starts that other clients start, or that a due arbiter dispatches. *)
Lemma consistent_start_workflow w k x :
  consistent w -> w_executions w !! k = None -> (forall sid v, arbiter_id sid v <> k) ->
  (forall wn bid, k = start_workflow_id scope wn bid -> direct k \/ dispatching k w) ->
  consistent (with_execution k x w) /\ evolves w (with_execution k x w).
Proof.
  intros Hw Hnone Hk Hd. set (w' := with_execution k x w).
  assert (Hev : evolves w w') by by apply fresh_execution_evolves.
  assert (Harb : forall i y, arbiter w' i y -> arbiter w i y).
  { intros i y [Hy ?]. split; [|done]. cbn in Hy. rewrite lookup_insert_ne in Hy; [done|]. apply not_eq_sym, Hk. }
  split; [|done]. split.
  - intros sid r u Hst Hu Hp. destruct (versions_claimed w Hw sid r u) as [y Hy]; [by apply (stored_same w w')|done..|].
    destruct (proj2 Hev _ _ Hy) as (y' & ? & _). by exists y'.
  - intros sid u y Hy. cbn in Hy. rewrite lookup_insert_ne in Hy by (apply not_eq_sym, Hk).
    destruct (arbiters_ok w Hw _ _ _ Hy) as (i & [Hi ?] & Heq & Hok). exists i.
    split_and!; [|done|by eapply arbiter_ok_evolves]. split; [|done]. cbn. rewrite lookup_insert_ne; [done|apply not_eq_sym, Hk].
  - intros i y r Hy%Harb Hst. apply (stored_same w w') in Hst; [|done]. by eapply (stored_decided w Hw).
  - intros sid r Hst%(stored_same w w'); [|done]. eapply (carry _ _); [done|]. by eapply stored_origin.
  - intros sid r Hst%(stored_same w w'); [|done]. by eapply stored_named.
  - intros wn bid Hs. destruct (decide (k = start_workflow_id scope wn bid)) as [Heq|Hne].
    + rewrite <- Heq. destruct (Hd _ _ Heq); [by left|right]. by eapply (carry _ _).
    + destruct (executions_dispatched w Hw wn bid) as [?|?].
      * destruct Hs as [y Hy]. cbn in Hy. rewrite lookup_insert_ne in Hy by done. by eexists.
      * by left.
      * right. by eapply (carry _ _).
Qed.
End invariant.
