(* ===== verification/ScheduledStartCleanup.v ===== *)
(** [runtime/scheduled_start_cleanup.py]: the schedules of ended starts are deleted once
    their retention has passed. *)

From S2P Require Export ScheduledStartInvariant.

Definition SCHEDULED_START_SCHEDULE_ID_PREFIX : string := "jf1.scheduled-start-schedule.".
Definition MAX_SCHEDULED_START_CURSOR_LENGTH : Z := 16384.
Definition SCHEDULED_START_CLEANUP_INVALID_INPUT : string := "SCHEDULED_START_CLEANUP_INVALID_INPUT".
Definition SCHEDULED_START_CLEANUP_FAILED : string := "SCHEDULED_START_CLEANUP_FAILED".
Definition SCHEDULED_START_CLEANUP_ACTIVITY_ATTEMPTS : nat := 3.

(** [ScheduledStartCleanupResult] *)
Record ScheduledStartCleanupResult := {
  cu_cursor : option string;
  cu_scanned : Z;
  cu_deleted : Z;
}.

(** [record.completed_at], of the records that have ended. *)
Definition completed_at (r : ScheduledStartRecord) : option Z :=
  match ss_stage r with
  | Started _ t _ | Canceled t | FailedStart _ t _ => Some t
  | Pending | Dispatching _ => None
  end.

Definition runtime_error (msg : string) : exn := Exn (ExternalError "RuntimeError" None None None) msg None.

(** [_encode_cursor] *)
Definition encode_cleanup_cursor (value : option string) : res (option string) :=
  match value with
  | None | Some EmptyString => Ok None
  | Some token =>
      let encoded := urlsafe_b64encode token in
      if (MAX_SCHEDULED_START_CURSOR_LENGTH <? Z.of_nat (String.length encoded))%Z
      then raise ValueError "Scheduled-start cleanup cursor exceeds its bound"
      else Ok (Some encoded)
  end.

(** [_decode_cursor] *)
Definition decode_cleanup_cursor (value : option string) : res (option string) :=
  match value with
  | None => Ok None
  | Some value =>
      token ← from_option (b64decode value) (Exn ValueError "Scheduled-start cleanup cursor is invalid" None);
      Ok (Some token)
  end.

Section cleanup.
Context `{Sha256, FloatRepr} (settings : ScheduledStartSettings).

(** [_deletable_terminal_record] *)
Definition deletable_terminal_record (d : ScheduleDescription) (cutoff : Z) : res bool :=
  owner ← memo_text_value (dsc_memo d) MEMO_SCHEDULED_START_OWNER;
  memo_id ← memo_text_value (dsc_memo d) MEMO_SCHEDULED_START_ID;
  memo_scope ← memo_text_value (dsc_memo d) MEMO_SCOPE_DIGEST;
  match memo_id, memo_scope, sch_action (dsc_schedule d) with
  | Some memo_id, Some memo_scope, Some action =>
      if negb (bool_decide (owner = Some SCHEDULED_START_OWNER))
         || negb (bool_decide (sa_workflow action = SCHEDULED_START_DUE_WORKFLOW_TYPE))
      then Ok false
      else
        match sa_args action with
        | [DueArgument r] =>
            if negb (valid_record r && is_projection r) then raise ValidationError "ScheduledStartDueInput"
            else
              match completed_at r with
              | None => Ok false
              | Some t =>
                  Ok (bool_decide (ss_id r = memo_id) && bool_decide (ss_scope_digest (ss_base r) = memo_scope)
                      && bool_decide (dsc_id d = scoped_id "scheduled-start-schedule" (ss_scope_digest (ss_base r)) [ss_id r])
                      && bool_decide (sa_id action = scoped_id "scheduled-start-due" (ss_scope_digest (ss_base r))
                                                       [ss_id r; Z_to_string (version r)])
                      && (t <=? cutoff)%Z)
              end
        | [OtherArgument] => raise ValidationError "ScheduledStartDueInput"
        | _ => Ok false
        end
  | _, _, _ => Ok false
  end.

(** [_describe_if_present] *)
Definition describe_if_present (id : string) : xprog temporal_exn (option ScheduleDescription) :=
  xcatch (d ← describe_schedule id; mret (Some d)) (fun e =>
    if has_status "NOT_FOUND" e then mret None else xraise e).

(** [_delete_if_present] *)
Definition delete_if_present (id : string) : xprog temporal_exn unit :=
  xcatch (delete_schedule id) (fun e => if has_status "NOT_FOUND" e then mret tt else xraise e).

(** The loop over the entries of a page: how many are deleted. *)
Fixpoint delete_entries (entries : list string) (cutoff deleted : Z) : xprog temporal_exn Z :=
  match entries with
  | [] => mret deleted
  | id :: entries =>
      d ← describe_if_present id;
      match (d : option ScheduleDescription) with
      | None => delete_entries entries cutoff deleted
      | Some d =>
          deletable ← xlift (match deletable_terminal_record d cutoff with Ok b => Ok b | Raise e => Raise (OtherError e) end);
          if (deletable : bool)
          then _ ← delete_if_present id; delete_entries entries cutoff (deleted + 1)
          else delete_entries entries cutoff deleted
      end
  end.

Definition of_py {A} (r : res A) : xprog temporal_exn A :=
  xlift (match r with Ok a => Ok a | Raise e => Raise (OtherError e) end).

(** [ScheduledStartCleanupActivity._now] *)
Definition cleanup_now : xprog temporal_exn Z :=
  value ← ask Now;
  match (value : option Z) with
  | Some value => mret (whole_second value)
  | None => xraise (OtherError (runtime_error "Scheduled-start cleanup clock returned a naive value"))
  end.

(** The body of [ScheduledStartCleanupActivity.cleanup]. *)
Definition cleanup_page (cursor : option string) : xprog temporal_exn ScheduledStartCleanupResult :=
  _ ← of_py (enforce_payload_bytes (JDict [("cursor", opt_json cursor)]) "scheduled_start.cleanup_activity.input"
               MAX_SCHEDULED_START_CURSOR_LENGTH);
  page_token ← of_py (decode_cleanup_cursor cursor);
  page ← list_schedules
           ("ScheduleId STARTS_WITH " +:+ String dquote (SCHEDULED_START_SCHEDULE_ID_PREFIX +:+ String dquote EmptyString))
           (cleanup_page_size settings) page_token;
  let '(entries, next_page_token) := page in
  if (cleanup_page_size settings <? Z.of_nat (length entries))%Z
  then xraise (OtherError (runtime_error "Temporal exceeded the scheduled-start cleanup page bound"))
  else
    now ← cleanup_now;
    deleted ← delete_entries entries (now - 1000000 * terminal_retention_seconds settings)%Z 0;
    cursor ← of_py (encode_cleanup_cursor next_page_token);
    mret {| cu_cursor := cursor; cu_scanned := Z.of_nat (length entries); cu_deleted := deleted |}.

(** [ScheduledStartCleanupActivity.cleanup] *)
Definition cleanup_activity (cursor : option string) : xprog activity_exn ScheduledStartCleanupResult :=
  xcatch (cleanup_page cursor) (fun e =>
    match e with
    | OtherError e =>
        if invalid_activity_input e then xraise (ApplicationError SCHEDULED_START_CLEANUP_INVALID_INPUT true)
        else if is_exception e then xraise (ApplicationError SCHEDULED_START_CLEANUP_FAILED false)
        else xraise (ActivityRaised (ScheduledPyError e))
    | _ => xraise (ApplicationError SCHEDULED_START_CLEANUP_FAILED false)
    end).

(** [execute_activity] that tries again so often. *)
Fixpoint retried_activity {A} (retries : nat) (body : xprog activity_exn A) : xprog activity_exn A :=
  xcatch (try_activity body) (fun e =>
    match retries with
    | O => xraise e
    | S retries => if activity_retryable e then retried_activity retries body else xraise e
    end).

(** [ScheduledStartCleanupWorkflow.run], which continues with the next page, [pages] of
    them. *)
Fixpoint cleanup_workflow (pages : nat) (cursor : option string) : xprog activity_exn ScheduledStartCleanupResult :=
  match pages with
  | O => Running
  | S pages =>
      result ← retried_activity (SCHEDULED_START_CLEANUP_ACTIVITY_ATTEMPTS - 1) (cleanup_activity cursor);
      match cu_cursor result with
      | None => mret result
      | Some cursor => cleanup_workflow pages (Some cursor)
      end
  end.
End cleanup.

(** ** What is deleted *)

Section deletable.
Context `{Sha256, FloatRepr, Timestamps, PayloadContracts, JsonLoads} (self : ScheduledStartService).

(** The cleanup reads what the service reads, and deletes exactly the starts that ended by
    the cutoff. *)
Lemma deletable_exact d scope r cutoff :
  described_record self d scope = Some r ->
  deletable_terminal_record d cutoff
  = Ok (match completed_at r with Some t => (t <=? cutoff)%Z | None => false end).
Proof.
  unfold described_record, deletable_terminal_record.
  destruct (memo_text_value _ _) as [owner|]; [|done]. destruct (memo_text_value _ _) as [[memo_id|]|]; try done.
  destruct (memo_text_value _ _) as [memo_scope|]; [|done]. destruct (sch_action _) as [action|]; [|done].
  destruct (sa_args action) as [|[r'|] [|]]; try done. case_match eqn:E; [|done]. intros [= ->].
  rewrite !andb_true_iff, !bool_decide_eq_true in E.
  destruct E as [[[[[[[[[-> ->] Hw] _] Hv] Hp] Hid] Hs] Hd] Ha]. cbn [mbind result_bind].
  rewrite (bool_decide_eq_true_2 _ Hw), Hv, Hp, bool_decide_eq_true_2 by done. cbn [negb orb andb].
  destruct (completed_at r); [|done]. f_equal.
  unfold make_scheduled_start_schedule_id, make_scheduled_start_due_id in *. rewrite <- Hs in *.
  by rewrite !bool_decide_eq_true_2 by done.
Qed.

(** A start that has ended does not change before it is deleted. *)
Lemma deletable_ended r r' t :
  completed_at r = Some t -> rtc record_step r r' -> r' = r.
Proof.
  intros Ht. apply ended_stays. unfold completed_at, is_pending in *. by destruct (ss_stage r).
Qed.
End deletable.
