(* ===== verification/ScheduledStartSpecs.v ===== *)
(** Triples of what the service and the arbiters do with the scheduled starts of a
    scope. *)

From S2P Require Export ScheduledStartInvariant.

(** A handler that raises whatever it catches. *)
Ltac handler := intros ????; unfold schedule_rpc_error, on_exception; repeat case_match; apply hoare_raise_any.

(** A call with its triple, under such a handler. *)
Ltac guarded spec := eapply hoare_catch_raise; [..|apply spec|handler]; apply _.

Section specs.
Context `{Sha256, FloatRepr, Timestamps, PayloadContracts, JsonLoads} (self : ScheduledStartService)
  (scope : RuntimeScope) (direct : string -> Prop).

Abbreviation inv := (consistent self scope direct).
Abbreviation evolves := (evolves self scope).
Abbreviation hoare := (hoare inv evolves).
Abbreviation schedule_id := (make_scheduled_start_schedule_id scope).
Abbreviation arbiter_id := (make_scheduled_start_arbiter_id scope).
Abbreviation arbiter_of := (arbiter_of scope).
Abbreviation arbiter := (arbiter scope).
Abbreviation seen := (seen self scope).
Abbreviation started := (started scope).
Abbreviation moved := (moved scope).
Abbreviation decided := (decided scope).
Abbreviation stored := (stored self scope).

(** ** Reading a record *)

Definition described (sid : string) (r : ScheduledStartRecord) (w : world) : Prop :=
  seen r w /\ origin scope r w /\ valid_record r = true /\ is_projection r = true
  /\ ss_scope_digest (ss_base r) = digest scope /\ named scope r /\ schedule_id (ss_id r) = schedule_id sid.

#[export] Instance described_stable sid r : Stable evolves (described sid r).
Proof. unfold described. apply _. Qed.

Lemma stored_described w sid s r :
  inv w -> w_schedules w !! schedule_id sid = Some s ->
  described_record self (description (schedule_id sid) s) scope = Some r -> described sid r w /\ stored w (ss_id r) r.
Proof.
  intros Hw Hs Hd. pose proof Hd as Hok. apply described_record_ok in Hok as (?&?&?&Hid). cbn in Hid.
  assert (stored w (ss_id r) r) as Hst by (exists s; by rewrite <- Hid).
  split; [|done]. split_and!; try done.
  - by apply seen_stored.
  - by eapply stored_origin.
  - by eapply stored_named.
Qed.

(** What a stored record is to an arbiter of its start. *)
Lemma stored_arbitrated w r i :
  inv w -> stored w (ss_id r) r -> started i w -> schedule_id (ss_id (ai_record i)) = schedule_id (ss_id r) ->
  ss_id (ai_record i) = ss_id r
  /\ (r = ai_record i \/ exists t, decided i t w /\ rtc record_step (at_projection t) r).
Proof.
  intros Hw Hst [x Hx] Heq. destruct (arbiter_is_ok _ _ _ _ _ _ Hw Hx) as (_&_&_&(r' & Hr' & _)&_).
  destruct (stored_unique _ _ _ _ _ _ _ Hr' Hst Heq) as [-> Hid]. split; [done|].
  destruct (stored_decided _ _ _ w Hw i x r Hx) as [?|(t & ? & ?)]; [by rewrite Hid|by left|right].
  exists t. split; [by exists x|done].
Qed.

Definition read (w : world) (sid : string) (r : ScheduledStartRecord) (w' : world) : Prop :=
  described sid r w' /\
  forall i, started i w -> schedule_id (ss_id (ai_record i)) = schedule_id sid -> r = ai_record i \/ exists t, decided i t w'.

#[export] Instance read_stable w sid r : Stable evolves (read w sid r).
Proof. unfold read. apply _. Qed.

Lemma stored_read w w1 sid s r :
  inv w1 -> evolves w w1 -> w_schedules w1 !! schedule_id sid = Some s ->
  described_record self (description (schedule_id sid) s) scope = Some r -> read w sid r w1.
Proof.
  intros Hw He Hs Hr. destruct (stored_described _ _ _ _ Hw Hs Hr) as [Hd Hst]. split; [done|].
  intros i Hi Heq. destruct (stored_arbitrated w1 r i) as [_ [?|(t & ? & _)]]; [done|done| |..].
  - by eapply (carry _ _ _ _).
  - rewrite Heq. by destruct Hd as (_&_&_&_&_&_&->).
  - by left.
  - right. by exists t.
Qed.

Lemma describe_record_spec w sid : hoare w (describe_record self scope sid) (read w sid) any.
Proof.
  unfold describe_record. apply hoare_let; [apply _|]. intros [] w0 _ _ He0.
  eapply (hoare_bind _ _ _ _ _ (fun d w' => forall r, described_record self d scope = Some r -> read w sid r w')); [apply _..| |].
  - apply hoare_catch_raise; [apply _..| |].
    + intros Hw w1 a w2 Hk Hc. destruct (Hk Hw) as [Hw1 He1]. cbn in Hc. destruct Hc as [-> Ha].
      split; [reflexivity|]. intros w' Hk'. destruct (Hk' Hw1) as [_ He2]. destruct a as [d|e]; [|done].
      destruct Ha as (s & Hs & ->). intros r Hr. eapply (carry _ _ _ (read_stable _ _ _)); [exact He2|].
      eapply stored_read; [done| |done|done]. by etransitivity.
    + handler.
  - intros d w' Hw' He Hd. apply hoare_lift; [apply _..| |done].
    intros r Hr%from_option_Ok. by apply Hd.
Qed.

(** ** Arbiters *)

(** The arbiter of an input has decided, and its decision was stored. *)
Definition settled (i : ScheduledStartArbiterInitialInput) (t : ScheduledStartArbiterTerminalInput) (w : world) : Prop :=
  decided i t w /\ seen (at_projection t) w /\ terminal_ok i t.

#[export] Instance settled_stable i t : Stable evolves (settled i t).
Proof. unfold settled. apply _. Qed.

Definition applied_result (t : ScheduledStartArbiterTerminalInput) : ScheduledStartArbiterResult :=
  ArbiterApplied (at_consumed_version t) (at_winner t) (at_request_digest t) (describe_scheduled_start (at_projection t)).

(** The version of a start has an arbiter of this command. *)
Definition identified (sid : string) (v : Z) (i : ScheduledStartArbiterInitialInput) (w : world) : Prop :=
  started i w /\ ss_id (ai_record i) = sid /\ version (ai_record i) = v.

#[export] Instance identified_stable sid v i : Stable evolves (identified sid v i).
Proof. unfold identified. apply _. Qed.

Definition present (k : string) (w : world) : Prop := is_Some (w_executions w !! k).

#[export] Instance present_stable k : Stable evolves (present k).
Proof. intros w w' [_ Hx] [x Hk]. destruct (Hx _ _ Hk) as (x' & ? & _). by exists x'. Qed.

Lemma decided_terminal w i t : inv w -> decided i t w -> terminal_ok i t.
Proof.
  intros Hw (x & Hx & Ht). destruct (arbiter_is_ok _ _ _ _ _ _ Hw Hx) as (_&_&_&_&Ha&_). by rewrite Ht in Ha.
Qed.

Lemma started_input w i :
  inv w -> started i w ->
  valid_initial_input i = true /\ ss_scope_digest (ss_base (ai_record i)) = digest scope /\ seen (ai_record i) w.
Proof. intros Hw (x & Hx). by destruct (arbiter_is_ok _ _ _ _ _ _ Hw Hx) as (_&?&?&?&_). Qed.

(** What the memo of an arbiter says. *)
Lemma arbiter_memo_identity i sid v identity :
  arbiter_identity_from_description (text_memo (arbiter_memo i)) scope sid v = Ok identity ->
  ss_id (ai_record i) = sid /\ version (ai_record i) = v
  /\ identity = (command_kind (ai_command i), command_digest (ai_command i)).
Proof.
  clear direct.
  set (memo := text_memo (arbiter_memo i)).
  assert (Hlookup : memo_text_value memo MEMO_SCHEDULED_START_OWNER = Ok (Some SCHEDULED_START_OWNER)
    /\ memo_text_value memo MEMO_SCHEDULED_START_ID = Ok (Some (ss_id (ai_record i)))
    /\ memo_text_value memo MEMO_SCOPE_DIGEST = Ok (Some (ss_scope_digest (ss_base (ai_record i))))
    /\ memo_text_value memo MEMO_SCHEDULED_START_ARBITER_COMMAND = Ok (Some (command_kind_value (command_kind (ai_command i))))
    /\ memo_text_value memo MEMO_SCHEDULED_START_ARBITER_VERSION = Ok (Some (Z_to_string (version (ai_record i))))
    /\ memo_text_value memo MEMO_SCHEDULED_START_ARBITER_REQUEST_DIGEST = Ok (command_digest (ai_command i))).
  { subst memo. unfold arbiter_memo. destruct (ai_command i); by split_and!. }
  destruct Hlookup as (Ho & Hi & Hs & Hc & Hv & Hd). unfold arbiter_identity_from_description.
  rewrite Ho, Hi, Hs, Hc, Hv, Hd. cbn [mbind result_bind]. case_match eqn:E; [done|].
  apply negb_false_iff in E. rewrite !andb_true_iff, !bool_decide_eq_true in E. destruct E as [[[_ Hid] _] Hver].
  injection Hid as <-. injection Hver as <-%Z_to_string_inj.
  destruct (ai_command i); cbn; intros [= <-]; by split_and!.
Qed.

Lemma describe_arbiter_spec w sid v :
  hoare w (describe_workflow (arbiter_id sid v) None)
    (fun d w' => exists i, started i w' /\ arbiter_of i = arbiter_id sid v /\ xd_memo d = text_memo (arbiter_memo i)) any.
Proof.
  intros Hw w1 a w2 Hk Hc. destruct (Hk Hw) as [Hw1 _]. destruct Hc as [-> Ha].
  split; [reflexivity|]. intros w' Hk'. destruct (Hk' Hw1) as [_ He2]. destruct a as [d|e]; [|done].
  destruct Ha as (x & Hx & Hm & _). destruct (arbiters_ok _ _ _ _ Hw1 _ _ _ Hx) as (i & Hi & Heq & Hok).
  exists i. split_and!; [|done|by destruct Hok as (<- & _)]. eapply (carry _ _ _ _); [exact He2|]. by exists x.
Qed.

Lemma arbiter_identity_spec w sid v :
  hoare w (arbiter_identity scope sid v)
    (fun identity w' => exists i, identified sid v i w' /\ identity = (command_kind (ai_command i), command_digest (ai_command i)))
    any.
Proof.
  unfold arbiter_identity. eapply hoare_bind; [apply _..| |].
  - guarded describe_arbiter_spec.
  - intros d w' Hw' _ (i & Hi & Heq & Hm). rewrite Hm. apply hoare_lift; [apply _..| |done].
    intros identity. destruct (arbiter_identity_from_description _ _ _ _) eqn:E; [|done]. intros [= ->].
    apply arbiter_memo_identity in E as (? & ? & ->). by exists i.
Qed.

(** What awaiting an arbiter finds out. *)
Definition awaited (i : ScheduledStartArbiterInitialInput) (r : option ScheduledStartArbiterResult) (w : world) : Prop :=
  match r with
  | None => True
  | Some r => exists t, settled i t w /\ r = applied_result t
  end.

#[export] Instance awaited_stable i r : Stable evolves (awaited i r).
Proof. unfold awaited. destruct r; apply _. Qed.

Lemma workflow_result_spec w i :
  started i w -> hoare w (workflow_result (arbiter_of i)) (awaited i) any.
Proof.
  intros Hi Hw w1 a w2 Hk Hc. destruct (Hk Hw) as [Hw1 He1]. destruct Hc as [-> Ha].
  split; [reflexivity|]. intros w' Hk'. destruct (Hk' Hw1) as [_ He2]. destruct a as [r|e]; [|done].
  eapply (carry _ _ _ (awaited_stable i r)); [exact He2|]. destruct Ha as (x & Hx & [r' ->] & Hr). cbn.
  assert (started i w1) as [y Hy] by by eapply (carry _ _ _ _).
  assert (y = x) as -> by (destruct Hy as [Hy _]; rewrite Hx in Hy; by simplify_eq).
  destruct (arbiter_is_ok _ _ _ _ _ _ Hw1 Hy) as (_&_&_&_&Ha&Hok). unfold result_ok in Hok. rewrite Hr in Hok.
  destruct Hok as (t & Ht & -> & Hs). exists t. rewrite Ht in Ha. split; [|done]. split_and!; [by exists x|done|done].
Qed.

Lemma await_arbiter_spec w i : started i w -> hoare w (await_arbiter (arbiter_of i)) (awaited i) any.
Proof.
  intros Hi. unfold await_arbiter.
  eapply (hoare_bind _ _ _ _ _ (fun a w' => match a with Some r => awaited i r w' | None => True end)).
  - intros []; apply _.
  - eapply (hoare_catch _ _ _ _ _ _ any); [intros []; apply _| |].
    + eapply hoare_bind; [apply _..|by apply workflow_result_spec|]. intros r w' _ _ Hr.
      by apply hoare_ret; [apply _|].
    + intros e w' _ _ _. unfold on_exception. case_match; [apply hoare_raise_any|by apply hoare_ret; [apply _|]].
  - intros [[r|]|] w' _ _ Hr; [|apply hoare_raise_any|by apply hoare_ret; [apply _|]].
    by apply hoare_ret; [apply _|].
Qed.

Lemma start_arbiter_spec w i priority :
  valid_initial_input i = true -> ss_scope_digest (ss_base (ai_record i)) = digest scope -> seen (ai_record i) w ->
  hoare w (start_arbiter self i scope priority)
    (fun duplicate w' => present (arbiter_of i) w' /\ (duplicate = false -> started i w')) any.
Proof.
  intros Hv Hd Hs. unfold start_arbiter.
  eapply (hoare_catch _ _ _ _ _ _ (fun e w' => match e with WorkflowAlreadyStartedError _ => present (arbiter_of i) w' | _ => True end)).
  - apply _.
  - eapply (hoare_bind _ _ _ _ _ (fun _ => started i)); [intros []; apply _| |].
    + set (s := {| ws_type := _ |}). intros Hw w1 a w2 Hk Hc. destruct (Hk Hw) as [Hw1 He1].
      set (fresh := w_executions w1 !! arbiter_of i = None /\
                    exists run_id, w2 = with_execution (arbiter_of i) (started_execution s run_id) w1).
      assert (Hfresh : fresh -> keeps inv evolves w1 w2 /\ started i w2).
      { intros [Hn [run_id ->]]. split; [intros _; split|].
        - apply consistent_start_arbiter; try done. by eapply (carry _ _ _ _).
        - by apply fresh_execution_evolves.
        - eexists. split; [apply lookup_insert_eq|done]. }
      assert (Hor : w2 = w1 \/ fresh -> keeps inv evolves w1 w2).
      { intros [->|[? _]%Hfresh]; [reflexivity|done]. }
      destruct a as [run_id|[]]; cbn in Hc; fold fresh in Hc;
        (split; [first [by apply Hfresh|by apply Hor|by apply Hor, Hc]|intros w' Hk']).
      * destruct (Hfresh Hc) as [Hk2 ?]. destruct (Hk2 Hw1) as [Hw2 _]. destruct (Hk' Hw2). cbn. by eapply (carry _ _ _ _).
      * done.
      * destruct Hc as [Hc ?]. destruct (Hor Hc Hw1) as [Hw2 _]. destruct (Hk' Hw2). cbn. by eapply (carry _ _ _ (present_stable _)).
      * done.
      * done.
    + intros _ w' _ _ Hi. apply hoare_ret; [apply _|]. split; [|done]. destruct Hi as [x [Hx _]]. by exists x.
  - intros e w' _ _ He. unfold on_exception. destruct (scheduled_cancellation e); [apply hoare_raise_any|].
    destruct e; try apply hoare_raise_any. apply hoare_ret; [apply _|]. by split.
Qed.

(** ** Commands *)

(** A command has consumed a version of a scheduled start, with this outcome. *)
Definition won (sid : string) (v : Z) (kind : ScheduledStartArbiterCommandKind) (request_digest : string)
    (d : ScheduledStartDescription) (w : world) : Prop :=
  exists i t, settled i t w /\ schedule_id (ss_id (ai_record i)) = schedule_id sid /\ version (ai_record i) = v
    /\ command_kind (ai_command i) = kind /\ command_digest (ai_command i) = Some request_digest
    /\ d = describe_scheduled_start (at_projection t) /\ sd_state d <> STARTED.

#[export] Instance won_stable sid v kind dg d : Stable evolves (won sid v kind dg d).
Proof. unfold won. apply _. Qed.

Definition answered (sid : string) (v : Z) (kind : ScheduledStartArbiterCommandKind) (request_digest : string)
    (r : ScheduledStartMutationResult) (w : world) : Prop :=
  mr_status r = IN_PROGRESS_STATUS \/ won sid v kind request_digest (mr_scheduled_start r) w.

#[export] Instance answered_stable sid v kind dg r : Stable evolves (answered sid v kind dg r).
Proof. unfold answered. apply _. Qed.

Definition recovered (sid : string) (v : Z) (kind : ScheduledStartArbiterCommandKind) (request_digest : string)
    (o : option ScheduledStartMutationResult) (w : world) : Prop :=
  match o with None => True | Some r => answered sid v kind request_digest r w end.

#[export] Instance recovered_stable sid v kind dg o : Stable evolves (recovered sid v kind dg o).
Proof. unfold recovered. destruct o; apply _. Qed.

Lemma recover_mutation_spec w record sid v kind dg :
  schedule_id (ss_id record) = schedule_id sid ->
  hoare w (recover_mutation record scope v kind dg) (recovered sid v kind dg) any.
Proof.
  intros Hsid. unfold recover_mutation.
  eapply (hoare_bind _ _ _ _ _ (fun o w' => match o with
    | None => True
    | Some d => exists i, started i w' /\ arbiter_of i = arbiter_id (ss_id record) v /\ xd_memo d = text_memo (arbiter_memo i)
    end)).
  - intros []; apply _.
  - eapply (hoare_catch _ _ _ _ _ _ any); [intros []; apply _| |].
    + eapply hoare_bind; [apply _..|apply describe_arbiter_spec|]. intros d w' _ _ Hd.
      by apply hoare_ret; [apply _|].
    + intros e w' _ _ _. unfold on_exception. destruct (scheduled_cancellation e); [apply hoare_raise_any|].
      repeat case_match; try apply hoare_raise_any. by apply hoare_ret; [apply _|].
  - intros [d|] w' _ _ Hd; [|by apply hoare_ret; [apply _|]]. destruct Hd as (i & Hi & Heq & ->).
    destruct (arbiter_identity_from_description _ _ _ _) as [[winner saved]|] eqn:E; [|apply hoare_raise_any].
    apply arbiter_memo_identity in E as (Hid & Hver & [= -> ->]).
    case_match eqn:Ec; [apply hoare_raise_any|]. apply orb_false_iff in Ec as [Ek Ed].
    apply negb_false_iff, bool_decide_eq_true in Ek, Ed.
    eapply hoare_bind; [apply _..|rewrite <- Heq; by apply await_arbiter_spec|].
    intros [r|] w2 _ _ Hr; [|apply hoare_ret; [apply _|by left]].
    destruct Hr as (t & Ht & ->). cbn [applied_result].
    case_match eqn:Es; [apply hoare_raise_any|]. apply bool_decide_eq_false in Es.
    apply hoare_read; [apply _|reads|]. intros [] w3 _ He3. apply hoare_ret; [apply _|]. right.
    exists i, t. split_and!; try done; [by eapply (carry _ _ _ _)|congruence].
Qed.

(** The arbiter that a mutation found, or started. *)
Definition claimed (i : ScheduledStartArbiterInitialInput) (dg : string) (w : world) : Prop :=
  exists i', identified (ss_id (ai_record i)) (version (ai_record i)) i' w
    /\ command_kind (ai_command i') = command_kind (ai_command i) /\ command_digest (ai_command i') = Some dg.

#[export] Instance claimed_stable i dg : Stable evolves (claimed i dg).
Proof. unfold claimed. apply _. Qed.

Lemma finish_mutation_spec w i i' dg sid v status duplicate o :
  ss_id (ai_record i') = ss_id (ai_record i) -> version (ai_record i') = version (ai_record i) ->
  command_kind (ai_command i') = command_kind (ai_command i) -> command_digest (ai_command i') = Some dg ->
  command_kind (ai_command i) <> DUE_COMMAND ->
  schedule_id (ss_id (ai_record i)) = schedule_id sid -> version (ai_record i) = v -> awaited i' o w ->
  hoare w (finish_mutation self i scope v status duplicate o)
    (answered sid v (command_kind (ai_command i)) dg) any.
Proof.
  intros Hid Hver Hk Hd Hdue Hsid Hv Ho. destruct o as [r|]; cbn [finish_mutation].
  - destruct Ho as (t & Ht & ->). cbn [applied_result].
    assert (Hw : at_winner t = command_kind (ai_command i)) by (rewrite <- Hk; by destruct Ht as (_&_&_&?&_)).
    case_match eqn:Es; [apply hoare_raise_any|]. apply andb_false_iff in Es.
    apply hoare_read; [apply _|reads|]. intros [] w2 _ He2. apply hoare_ret; [apply _|]. right.
    exists i', t. split_and!; try congruence; try done; [by eapply (carry _ _ _ _)|].
    cbn. intros Hst. destruct Es as [Es|Es].
    + by apply bool_decide_eq_false in Es.
    + apply negb_false_iff, bool_decide_eq_true in Es. congruence.
  - apply hoare_read; [apply _|reads|]. intros [] w2 _ _. apply hoare_ret; [apply _|]. by left.
Qed.

(** Finding out whose the version is. *)
Lemma claim_mutation_spec w i dg (duplicate : bool) :
  (present (arbiter_of i) w /\ (duplicate = false -> started i w)) -> command_digest (ai_command i) = Some dg ->
  hoare w
    (if duplicate then
       identity ← arbiter_identity scope (ss_id (ai_record i)) (version (ai_record i));
       if negb (bool_decide (identity.1 = command_kind (ai_command i))) || negb (bool_decide (identity.2 = Some dg))
       then _ ← record_metric ARBITER_CONFLICT; xraise arbiter_conflict
       else mret tt
     else mret tt)
    (fun _ => claimed i dg) any.
Proof.
  intros [_ Hi] Hdg. destruct duplicate.
  - eapply hoare_bind; [apply _..|apply arbiter_identity_spec|]. intros identity w2 _ _ (i' & Hi' & ->). cbn [fst snd].
    case_match eqn:Ec.
    + apply hoare_read; [apply _|reads|]. intros [] ???. apply hoare_raise_any.
    + apply orb_false_iff in Ec as [Ek Ed]. apply negb_false_iff, bool_decide_eq_true in Ek, Ed.
      apply hoare_ret; [apply _|]. by exists i'.
  - apply hoare_ret; [apply _|]. exists i. split_and!; [|done..]. split_and!; [by apply Hi|done..].
Qed.

Lemma run_mutation_spec w i dg sid v status :
  valid_initial_input i = true -> ss_scope_digest (ss_base (ai_record i)) = digest scope -> seen (ai_record i) w ->
  schedule_id (ss_id (ai_record i)) = schedule_id sid -> version (ai_record i) = v ->
  command_digest (ai_command i) = Some dg ->
  match ai_command i with
  | CancelCommand v' _ | RescheduleCommand v' _ _ => v' = v
  | DueCommand _ => False
  end ->
  hoare w (run_mutation self i scope status) (answered sid v (command_kind (ai_command i)) dg) any.
Proof.
  intros Hvalid Hscope Hseen Hsid Hv Hdg Hc. unfold run_mutation.
  assert (Hdue : command_kind (ai_command i) <> DUE_COMMAND) by by destruct (ai_command i).
  assert (Hbody : forall w priority, seen (ai_record i) w -> hoare w
    (duplicate ← start_arbiter self i scope priority;
     _ ← (if (duplicate : bool) then
            identity ← arbiter_identity scope (ss_id (ai_record i)) (version (ai_record i));
            if negb (bool_decide (identity.1 = command_kind (ai_command i))) || negb (bool_decide (identity.2 = Some dg))
            then _ ← record_metric ARBITER_CONFLICT; xraise arbiter_conflict
            else mret tt
          else mret tt);
     result ← await_arbiter (arbiter_id (ss_id (ai_record i)) (version (ai_record i)));
     finish_mutation self i scope v status duplicate result) (answered sid v (command_kind (ai_command i)) dg) any).
  { clear w Hseen. intros w priority Hseen.
    eapply hoare_bind; [apply _..|by apply start_arbiter_spec|]. intros duplicate w2 _ _ Hdup.
    eapply hoare_bind; [apply _..|by apply claim_mutation_spec|]. intros [] w3 Hw3 _ Hcl.
    destruct Hcl as (i' & (Hi' & Hid & Hver) & Hk & Hd).
    eapply hoare_bind; [apply _..|rewrite <- Hid, <- Hver; by apply await_arbiter_spec|].
    intros o w4 _ _ Ho. by eapply finish_mutation_spec. }
  destruct (ai_command i) as [|v' dg'|v' t dg'] eqn:Ec; [done|..]; cbn in Hdg; injection Hdg as ->; subst v';
    (apply hoare_let; [apply _|]; intros priority w1 _ _ He; apply Hbody; by eapply (carry _ _ _ _)).
Qed.

Definition reschedule_digest (sid : string) (request : ScheduledStartRescheduleRequest) (key : string) : string :=
  scheduled_start_request_digest [JStr "reschedule"; JStr sid; reschedule_request_dump request; JStr key].

Definition cancel_digest (sid : string) (v : Z) (key : string) : string :=
  scheduled_start_request_digest [JStr "cancel"; JStr sid; JDict [("expected_version", JInt v)]; JStr key].

Lemma new_initial_input_ok record c i :
  valid_record record = true -> new_initial_input record c = Ok i ->
  ai_record i = record /\ ai_command i = c /\ valid_initial_input i = true
  /\ match c with DueCommand _ => True | CancelCommand v _ | RescheduleCommand v _ _ => v = version record end.
Proof.
  intros Hv Hi. pose proof Hi as Hi'. unfold new_initial_input in Hi'.
  destruct (is_pending record); [|done]. destruct c; cbn in Hi'; case_match eqn:E; try done;
    apply bool_decide_eq_true in E; injection Hi' as <-; unfold valid_initial_input; cbn [ai_record ai_command];
    rewrite Hi, Hv; by split_and!.
Qed.

(** A command whose record was not changed by it yet. *)
Lemma command_spec w sid record v c dg status :
  described sid record w -> command_digest c = Some dg ->
  hoare w
    (pending ← xlift (require_pending_version record v);
     initial ← xlift (new_initial_input pending c);
     run_mutation self initial scope status) (answered sid v (command_kind c) dg) any.
Proof.
  intros Hrec Hdg. apply hoare_let; [apply _|]. intros pending w1 Hp _ He1.
  unfold require_pending_version in Hp. case_match eqn:Ep; [done|]. injection Hp as <-.
  apply orb_false_iff in Ep as [_ Ev]. apply negb_false_iff, bool_decide_eq_true in Ev. subst v.
  apply hoare_let; [apply _|]. intros i w2 Hi _ He2.
  destruct Hrec as (Hseen & _ & Hval & _ & Hscope & _ & Hsid).
  apply new_initial_input_ok in Hi as (Hr & Hc & Hvi & Hcv); [|done].
  eapply hoare_conseq; [apply _|..].
  3: { eapply (run_mutation_spec w2 i dg sid (version record)); rewrite ?Hr, ?Hc; try done.
       - eapply (carry _ _ _ _); [|exact Hseen]. by etransitivity.
       - by destruct c. }
  - intros r w3 _ _ Ha. by rewrite <- Hc.
  - done.
Qed.

(** A record that a command left. *)
Lemma left_record w sid record v kind dg :
  inv w -> described sid record w ->
  match kind, ss_stage record with
  | RESCHEDULE_COMMAND, Pending => version record = (v + 1)%Z /\ ss_last_mutation_kind (ss_base record) = RESCHEDULE_MUTATION
  | CANCEL_COMMAND, Canceled _ => version record = v
  | _, _ => False
  end -> ss_last_mutation_digest (ss_base record) = dg -> won sid v kind dg (describe_scheduled_start record) w.
Proof.
  intros Hw (Hseen & Ho & _ & _ & _ & _ & Hsid) Hk Hdg. destruct Ho as [[Hp Hc]|(i & t & Hd & <-)].
  { unfold is_pending in Hp. rewrite Hc in Hk. destruct kind, (ss_stage record); try done. by destruct Hk. }
  pose proof (decided_terminal _ _ _ Hw Hd) as Ht. exists i, t.
  pose proof Ht as (Hvt & Hwin & Hcv & _ & Hstep & Hdig).
  unfold valid_terminal_input in Hvt. rewrite !andb_true_iff in Hvt. destruct Hvt as [_ Hproj].
  unfold validate_projection_version in Hproj. rewrite Hwin, Hcv in Hproj.
  pose proof (record_step_id _ _ Hstep) as Hid. pose proof Hstep as (_ & _ & Hst).
  split_and!; try done.
  - by rewrite <- Hid.
  - destruct kind, (ss_stage (at_projection t)); try done; intuition lia.
  - destruct kind, (ss_stage (at_projection t)) eqn:E, (command_kind (ai_command i)); try done.
  - by destruct kind, (ss_stage (at_projection t)); try done; rewrite Hdig, Hdg.
  - cbn. unfold ss_state. by destruct kind, (ss_stage (at_projection t)).
Qed.

Lemma reschedule_spec w sid request key :
  hoare w (reschedule self sid request key scope)
    (answered sid (srr_expected_version request) RESCHEDULE_COMMAND (reschedule_digest sid request key)) any.
Proof.
  unfold reschedule. fold (reschedule_digest sid request key). apply hoare_let; [apply _|]. intros [] w1 _ _ _.
  eapply hoare_bind; [apply _..|apply describe_record_spec|]. intros record w2 Hw2 _ [Hrec _].
  case_match eqn:Edup.
  - rewrite !andb_true_iff, !bool_decide_eq_true in Edup. destruct Edup as [[[Hp Hv] Hk] Hd].
    apply hoare_read; [apply _|reads|]. intros [] w3 Hw3 He3. apply hoare_ret; [apply _|]. right.
    apply left_record; [done|by eapply (carry _ _ _ _)| |done].
    unfold is_pending in Hp. by destruct (ss_stage record).
  - eapply hoare_bind; [apply _..|apply recover_mutation_spec; by apply Hrec|].
    intros [r|] w3 _ He3 Hr; [by apply hoare_ret; [apply _|]|].
    apply hoare_read; [apply _|reads|]. intros now w4 _ He4.
    apply hoare_let; [apply _|]. intros [] w5 _ _ He5.
    eapply command_spec; [|done]. eapply (carry _ _ _ _); [|exact Hrec]. by do 2 (etransitivity; [eassumption|]).
Qed.

Lemma cancel_spec w sid v key :
  hoare w (ScheduledStartService.cancel self sid v key scope) (answered sid v CANCEL_COMMAND (cancel_digest sid v key)) any.
Proof.
  unfold ScheduledStartService.cancel. fold (cancel_digest sid v key). apply hoare_let; [apply _|]. intros [] w1 _ _ _.
  eapply hoare_bind; [apply _..|apply describe_record_spec|]. intros record w2 Hw2 _ [Hrec _].
  case_match eqn:Edup.
  - rewrite !andb_true_iff, !bool_decide_eq_true in Edup. destruct Edup as [[Hp Hv] Hd].
    apply hoare_read; [apply _|reads|]. intros [] w3 Hw3 He3. apply hoare_ret; [apply _|]. right.
    apply left_record; [done|by eapply (carry _ _ _ _)| |done].
    unfold ss_state in Hp. by destruct (ss_stage record).
  - eapply hoare_bind; [apply _..|apply recover_mutation_spec; by apply Hrec|].
    intros [r|] w3 _ He3 Hr; [by apply hoare_ret; [apply _|]|].
    eapply command_spec; [|done]. by eapply (carry _ _ _ _).
Qed.
End specs.
