(* ===== verification/ScheduledStartDispatchSpecs.v ===== *)
(** Triples of the starter, of the creation of scheduled starts, of the steps of the
    arbiter, and of the activities and workflows made of them. *)

From S2P Require Export ScheduledStartSpecs.

(** The quota controllers of the repository. *)
Definition local_or_no_quota (self : ScheduledStartService) : Prop :=
  match sv_quota self with None => True | Some q => q = local_quota end.

Section dispatch_specs.
Context `{Sha256, FloatRepr, Timestamps, PayloadContracts, JsonLoads} (self : ScheduledStartService)
  (scope : RuntimeScope) (direct : string -> Prop).

Abbreviation inv := (consistent self scope direct).
Abbreviation evolves := (evolves self scope).
Abbreviation hoare := (hoare inv evolves).
Abbreviation schedule_id := (make_scheduled_start_schedule_id scope).
Abbreviation arbiter_id := (make_scheduled_start_arbiter_id scope).
Abbreviation arbiter_of := (arbiter_of scope).
Abbreviation arbiter := (arbiter scope).
Abbreviation seen := (seen self scope).
Abbreviation started := (started scope).
Abbreviation moved := (moved scope).
Abbreviation decided := (decided scope).
Abbreviation stored := (stored self scope).

(** ** Starting workflows *)

Definition may_start (k : string) (w : world) : Prop := direct k \/ dispatching scope k w.

#[export] Instance may_start_stable k : Stable evolves (may_start k).
Proof. unfold may_start. apply _. Qed.

Lemma start_call_spec w starter request scope' target name trigger priority :
  may_start (start_workflow_id scope' (sr_workflow_name request) (sr_business_request_id request)) w ->
  hoare w (start_call starter request scope' target name trigger priority) any any.
Proof.
  intros Hs. unfold start_call. case_match; [|apply hoare_raise_any].
  intros Hw w1 r w2 Hk Hc. destruct (Hk Hw) as [Hw1 He1].
  assert (Hkeep : keeps inv evolves w1 w2).
  { cbn in Hc.
    assert (w2 = w1 \/ (w_executions w1 !! start_workflow_id scope' (sr_workflow_name request) (sr_business_request_id request) = None
             /\ exists x, w2 = with_execution (start_workflow_id scope' (sr_workflow_name request) (sr_business_request_id request)) x w1))
      as [->|[Hn [x ->]]] by (destruct r as [|[]]; naive_solver).
    - reflexivity.
    - intros _. apply consistent_start_workflow; [done|done|by intros; apply arbiter_not_workflow|].
      intros wn bid _. by eapply (carry _ _ _ (may_start_stable _)). }
  split; [done|]. intros w' _. by destruct r.
Qed.

Lemma retry_start_spec {A} w (p : xprog temporal_exn A) d queue n :
  (forall w', evolves w w' -> hoare w' p any any) -> hoare w (retry_start (ask Sleep) p d queue n) any any.
Proof.
  revert w. induction n as [|n IH]; intros w Hp; cbn [retry_start];
    (apply hoare_catch_raise; [apply _..|by apply Hp|]; intros e w1 _ He1;
     destruct e; try apply hoare_raise_any; case_match; try apply hoare_raise_any).
  apply hoare_read; [apply _|reads|]. intros [] w2 _ He2. apply IH. intros w' ?. apply Hp.
  by do 2 (etransitivity; [eassumption|]).
Qed.

Lemma reads_start_target request scope' binding resolved : reads (start_target scope' request binding resolved).
Proof. unfold start_target. reads. Qed.

Lemma start_unmetered_spec w starter request binding resolved priority :
  may_start (start_workflow_id (tsb_scope binding) (sr_workflow_name request) (sr_business_request_id request)) w ->
  hoare w (start_unmetered starter request binding resolved priority) any any.
Proof.
  intros Hs. unfold start_unmetered. apply hoare_let; [apply _|]. intros scope' w1 Hb _ He1.
  assert (scope' = tsb_scope binding) as ->.
  { unfold bound_scope, require_bound_scope in Hb. case_match; [|done]. simplify_eq. by case_match; simplify_eq. }
  apply hoare_read; [apply _|apply reads_start_target|]. intros [target trigger] w2 _ He2.
  apply hoare_let; [apply _|]. intros [] w3 _ _ He3. apply hoare_let; [apply _|]. intros [] w4 _ _ He4.
  apply hoare_let; [apply _|]. intros input w5 _ _ He5. apply hoare_let; [apply _|]. intros argument w6 _ _ He6.
  assert (Hs6 : may_start (start_workflow_id (tsb_scope binding) (sr_workflow_name request) (sr_business_request_id request)) w6).
  { eapply (carry _ _ _ (may_start_stable _)); [|exact Hs]. by do 5 (etransitivity; [eassumption|]). }
  apply hoare_skip; [apply _|..].
  - apply hoare_catch_raise; [apply _..| |].
    + apply hoare_skip; [apply _| |].
      * unfold retry_pinned_workflow_start. case_match; [apply hoare_raise_any|]. apply retry_start_spec.
        intros w' ?. apply start_call_spec. by eapply (carry _ _ _ (may_start_stable _)).
      * intros ????. by apply hoare_ret; [apply _|].
    + intros e w' _ _. apply hoare_reads; [apply _|reads].
  - intros ????. apply hoare_reads; [apply _|reads].
Qed.

Lemma start_with_metrics_spec w starter request binding resolved priority :
  may_start (start_workflow_id (tsb_scope binding) (sr_workflow_name request) (sr_business_request_id request)) w ->
  hoare w (start_with_metrics starter request binding resolved priority) any any.
Proof.
  intros Hs. unfold start_with_metrics. apply hoare_skip; [apply _|..].
  - apply hoare_catch_raise; [apply _..|by apply start_unmetered_spec|]. intros e w' _ _. apply hoare_reads; [apply _|reads].
  - intros ????. apply hoare_reads; [apply _|reads].
Qed.

(** ** Creating *)

(** A record of a creation. *)
Definition created (r : ScheduledStartRecord) : Prop :=
  valid_record r = true /\ ss_stage r = Pending /\ ss_scope_digest (ss_base r) = digest scope /\ version r = 1%Z
  /\ ss_last_mutation_kind (ss_base r) = CREATE_MUTATION /\ named scope r.

Lemma create_record_ok request wn bid trigger dg at_ input timeout attempts r :
  create_scheduled_start_record request (make_scheduled_start_id scope wn bid) scope trigger dg at_ input timeout attempts
  = Ok r -> sc_workflow_name request = wn -> sc_business_request_id request = bid -> created r.
Proof.
  intros Hr <- <-. unfold create_scheduled_start_record, validated in Hr. case_match eqn:Hv; [|done].
  injection Hr as <-. split_and!; [exact Hv|done..].
Qed.

Lemma create_schedule_spec w record priority :
  created record -> hoare w (create_schedule self record scope priority) any any.
Proof.
  intros (Hv & Hst & Hsc & Hver & Hk & Hn). unfold create_schedule. apply hoare_catch_raise; [apply _..| |].
  - apply hoare_skip; [apply _| |by intros; apply hoare_ret; [apply _|]].
    intros Hw w1 a w2 Hkk Hc. destruct (Hkk Hw) as [Hw1 He1]. split; [|by intros; destruct a].
    assert (w2 = w1 \/ (w_schedules w1 !! schedule_id (ss_id record) = None /\
      w2 = with_schedule (schedule_id (ss_id record)) (schedule_of self record scope priority, text_memo (entity_memo record)) w1))
      as [->|[Hnone ->]] by (destruct a as [|[]]; cbn in Hc; naive_solver); [reflexivity|].
    intros _. apply consistent_create_schedule; try done; [|by unfold is_pending; rewrite Hst].
    apply described_schedule; [done|by unfold is_projection; rewrite Hst|done|done|done|]. cbn. by rewrite Hsc.
  - intros e w' _ _. apply hoare_reads; [apply _|reads].
Qed.

Lemma local_quota_spec w limit count (p : xprog scheduled_exn bool) :
  (forall w', hoare w' count any any) -> (forall w', hoare w' p any any) ->
  hoare w (local_quota_create scope limit count p) any any.
Proof.
  intros Hcount Hp. unfold local_quota_create. case_match; [apply hoare_raise_any|].
  apply hoare_read; [apply _|reads|]. intros _ w1 _ _. apply hoare_skip; [apply _|..].
  - apply hoare_catch_raise; [apply _..| |].
    + apply hoare_skip; [apply _|done|]. intros n w2 _ _. case_match; [apply hoare_raise_any|apply Hp].
    + intros e w2 _ _. apply hoare_reads; [apply _|reads].
  - intros ????. apply hoare_reads; [apply _|reads].
Qed.

Lemma create_spec w pages request key binding :
  local_or_no_quota self -> tsb_scope binding = scope -> hoare w (ScheduledStartService.create self pages request key binding) any any.
Proof.
  intros Hq Hb. unfold ScheduledStartService.create. apply hoare_let; [apply _|]. intros [] w1 _ _ _.
  case_match; [apply hoare_raise_any|]. rewrite Hb. apply hoare_read; [apply _|reads|]. intros [existing|] w2 _ _.
  { case_match; [apply hoare_raise_any|]. apply hoare_reads; [apply _|reads]. }
  unfold create_new. rewrite Hb. apply hoare_read; [apply _|reads|]. intros now w3 _ _.
  apply hoare_let; [apply _|]. intros [] w4 _ _ _. apply hoare_let; [apply _|]. intros priority w5 _ _ _.
  apply hoare_read; [apply _|reads|]. intros prepared w6 _ _.
  apply hoare_let; [apply _|]. intros record w7 Hr _ _. apply create_record_ok in Hr; [|done..].
  unfold local_or_no_quota in Hq. destruct (sv_quota self) as [q|]; [subst q|apply hoare_raise_any].
  apply hoare_skip; [apply _|..].
  - apply local_quota_spec; intros w'; [apply hoare_reads; [apply _|reads]|by apply create_schedule_spec].
  - intros ????. apply hoare_reads; [apply _|reads].
Qed.

(** ** Claiming *)

Lemma claim_due_spec w record priority :
  valid_record record = true -> hoare w (claim_due self record scope priority) any any.
Proof.
  intros Hv. unfold claim_due. apply hoare_let; [apply _|]. intros [] w1 Hs _ _.
  apply guard_or_Ok, bool_decide_eq_true in Hs.
  eapply hoare_bind; [apply _..|apply describe_record_spec|]. intros current w2 _ _ [(Hseen & _) _].
  case_match eqn:Ec; [apply hoare_reads; [apply _|reads]|].
  apply negb_false_iff, bool_decide_eq_true in Ec as ->.
  apply hoare_let; [apply _|]. intros i w3 Hi _ He3. apply new_initial_input_ok in Hi as (Hr & Hc & Hvi & _); [|done].
  eapply hoare_skip; [apply _|..].
  - eapply hoare_any; [apply _|]. apply start_arbiter_spec; rewrite ?Hr; [done|done|by eapply (carry _ _ _ _)].
  - intros duplicate w4 _ _. apply hoare_reads; [apply _|]. unfold arbiter_identity, describe_workflow. reads.
Qed.

(** ** Preparing *)

Lemma transition_ok r stage start_at v updated kind dg r' :
  transition_record r stage start_at v updated kind dg = Ok r' ->
  valid_record r' = true /\ fixed_fields r' = fixed_fields r /\ ss_stage r' = stage
  /\ ss_start_at (ss_base r') = start_at /\ version r' = v /\ ss_last_mutation_digest (ss_base r') = dg.
Proof.
  unfold transition_record, validated. case_match eqn:Hv; [|done]. intros [= <-]. by split_and!.
Qed.

(** A record is the claim of another one. *)
Definition claim_of (r r' : ScheduledStartRecord) (c : Claim) : Prop :=
  fixed_fields r' = fixed_fields r /\ version r' = version r /\ ss_start_at (ss_base r') = ss_start_at (ss_base r)
  /\ ss_stage r' = Dispatching c /\ claimed_version c = version r.

Lemma claim_pending r now o :
  is_pending r = true -> claim_scheduled_start r (version r) now = Ok o ->
  exists r' c, o = Some r' /\ valid_record r' = true /\ claim_of r r' c.
Proof.
  unfold is_pending, claim_scheduled_start. destruct (ss_stage r); try done. intros _.
  rewrite bool_decide_eq_true_2 by done. intros Ho. apply bind_Ok in Ho as (r' & Hr & [= <-]).
  apply transition_ok in Hr as (? & ? & Hst & ? & ? & _). exists r', {| claimed_version := version r; dispatch_started_at := now |}.
  by split_and!.
Qed.

(** A claim ends. *)
Lemma ended_claim r r' c stage updated kind dg r2 :
  is_pending r = true -> claim_of r r' c ->
  match stage with Started c' _ _ | FailedStart c' _ _ => c' = c | _ => False end ->
  transition_record r' stage (ss_start_at (ss_base r')) (version r') updated kind dg = Ok r2 ->
  valid_record r2 = true /\ record_step r r2 /\ ss_stage r2 = stage.
Proof.
  intros Hp (Hf & Hv & Hs & Hst & Hc) Hstage Hr. apply transition_ok in Hr as (Hval & Hf2 & Hst2 & Hs2 & Hv2 & _).
  split_and!; [done| |done]. split_and!; [done|congruence|]. rewrite Hst2. destruct stage; try done; subst; split_and!; congruence.
Qed.

Lemma initial_pending i : valid_initial_input i = true -> is_pending (ai_record i) = true /\ valid_record (ai_record i) = true.
Proof.
  unfold valid_initial_input, new_initial_input. intros [? Hi]%andb_true_iff. split; [|done].
  by destruct (is_pending (ai_record i)).
Qed.

(** What an arbiter makes of a step of its record. *)
Lemma new_terminal_ok i r v kind dg t :
  valid_record r = true -> record_step (ai_record i) r -> v = version (ai_record i) ->
  kind = command_kind (ai_command i) -> dg = command_digest (ai_command i) ->
  match ss_stage r with Pending | Canceled _ => dg = Some (ss_last_mutation_digest (ss_base r)) | _ => True end ->
  new_terminal_input r v kind dg = Ok t -> terminal_ok i t.
Proof.
  intros Hval Hstep -> -> -> Hd. unfold new_terminal_input. destruct (_ <? 1)%Z eqn:Ev; [done|].
  intros Ht. apply bind_Ok in Ht as ([] & Hproj & [= <-]).
  split_and!; cbn; try done. unfold valid_terminal_input. cbn. rewrite Hval, Hproj, (record_step_projection _ _ Hstep).
  cbn. rewrite andb_true_r. lia.
Qed.

Definition prepared (i : ScheduledStartArbiterInitialInput) (p : ScheduledStartArbiterPreparation) (w : world) : Prop :=
  match p with
  | PreparedStale _ => moved i w
  | PreparedProjection t => terminal_ok i t
  | PreparedDue record _ => command_kind (ai_command i) = DUE_COMMAND /\ exists c, claim_of (ai_record i) record c
  end.

#[export] Instance prepared_stable i p : Stable evolves (prepared i p).
Proof. unfold prepared. destruct p; apply _. Qed.

Lemma decided_moved i t w : decided i t w -> moved i w.
Proof. intros (x & Hx & Ht). exists x. split; [done|]. intros i'. by rewrite Ht. Qed.

Lemma projection_spec w i r :
  (forall t, r = Ok t -> terminal_ok i t) -> hoare w (prepared_projection r) (prepared i) any.
Proof.
  intros Hr. apply hoare_let; [apply _|]. intros t w1 Ht _ _. apply hoare_ret; [apply _|]. by apply Hr.
Qed.

Lemma prepare_existing_spec w i existing :
  valid_initial_input i = true -> hoare w (prepare_existing (ai_record i) (ai_command i) existing) (prepared i) any.
Proof.
  intros Hvi. apply initial_pending in Hvi as [Hp Hv]. unfold prepare_existing.
  apply hoare_read; [apply _|reads|]. intros now w1 _ _. apply hoare_let; [apply _|]. intros o w2 Ho _ _.
  apply claim_pending in Ho as (r' & c & -> & _ & Hcl); [|done]. pose proof Hcl as (_ & _ & _ & Hst & Hc).
  destruct r' as [b st]. cbn in Hst. subst st.
  apply hoare_let; [apply _|]. intros run w3 _ _ _. apply hoare_read; [apply _|reads|]. intros now' w4 _ _.
  apply hoare_let; [apply _|]. intros r2 w5 Hr2 _ _. apply projection_spec. intros t Ht.
  eapply ended_claim in Hr2 as (Hval & Hstep & Hst); [|done|done|done].
  eapply (new_terminal_ok i); [exact Hval|..|exact Ht]; try done. by rewrite Hst.
Qed.

Lemma prepare_due_spec w i :
  valid_initial_input i = true -> command_kind (ai_command i) = DUE_COMMAND ->
  hoare w (prepare_due self (ai_record i) scope) (prepared i) any.
Proof.
  intros Hvi Hdue. apply initial_pending in Hvi as [Hp Hv]. unfold prepare_due.
  apply hoare_read; [apply _|reads|]. intros now w1 _ _. apply hoare_let; [apply _|]. intros o w2 Ho _ _.
  apply claim_pending in Ho as (r' & c & -> & _ & Hcl); [|done]. pose proof Hcl as (_ & _ & _ & Hst & Hc).
  destruct r' as [b st]. cbn in Hst. subst st.
  apply hoare_read; [apply _|reads|]. intros [target|code] w3 _ _.
  - apply hoare_let; [apply _|]. intros t w4 _ _ _. apply hoare_ret; [apply _|]. split; [done|]. by exists c.
  - apply hoare_read; [apply _|reads|]. intros now' w4 _ _. apply hoare_let; [apply _|]. intros r2 w5 Hr2 _ _.
    apply projection_spec. intros t Ht.
    eapply ended_claim in Hr2 as (Hval & Hstep & Hst); [|done|done|done].
    eapply (new_terminal_ok i); [exact Hval|done| | | | |exact Ht]; [by rewrite Hc|done| |by rewrite Hst].
    by destruct (ai_command i).
Qed.

Lemma initial_version i :
  valid_initial_input i = true ->
  match ai_command i with DueCommand _ => True | CancelCommand v _ | RescheduleCommand v _ _ => v = version (ai_record i) end.
Proof.
  unfold valid_initial_input, new_initial_input. intros [_ Hi]%andb_true_iff.
  destruct (negb _); [done|]. by destruct (ai_command i); [done|..]; case_match eqn:E; try done; apply bool_decide_eq_true in E.
Qed.

Lemma canceled_ok r v dg now o :
  is_pending r = true -> cancel_scheduled_start r v dg now = Ok o ->
  valid_record o.1 = true /\ record_step r o.1 /\ ss_stage o.1 = Canceled now /\ ss_last_mutation_digest (ss_base o.1) = dg.
Proof.
  intros Hp. unfold cancel_scheduled_start. rewrite (bool_decide_eq_false_2 (ss_state r = CANCELED)).
  2: { unfold ss_state, is_pending in *. by destruct (ss_stage r). }
  cbn [andb]. case_match; [done|]. intros Ho. apply bind_Ok in Ho as (r' & Hr & [= <-]).
  apply transition_ok in Hr as (? & ? & Hst & ? & ? & ?). cbn [fst]. split_and!; try done.
  split_and!; [done|done|]. by rewrite Hst.
Qed.

Lemma rescheduled_ok r request dg now o :
  is_pending r = true -> version r = srr_expected_version request -> reschedule_scheduled_start r request dg now = Ok o ->
  valid_record o.1 = true /\ record_step r o.1 /\ ss_stage o.1 = Pending /\ ss_last_mutation_digest (ss_base o.1) = dg.
Proof.
  intros Hp Hv. unfold reschedule_scheduled_start.
  rewrite (bool_decide_eq_false_2 (version r = srr_expected_version request + 1)%Z) by lia.
  rewrite andb_false_r. cbn [andb]. case_match; [done|]. intros Ho. apply bind_Ok in Ho as (r' & Hr & [= <-]).
  apply transition_ok in Hr as (? & ? & Hst & ? & ? & ?). cbn [fst]. split_and!; try done.
  split_and!; [done|done|]. by rewrite Hst.
Qed.

Lemma prepare_arbiter_spec w i :
  valid_initial_input i = true -> started i w -> hoare w (prepare_arbiter self i scope) (prepared i) any.
Proof.
  intros Hvi Hi. unfold prepare_arbiter. apply hoare_let; [apply _|]. intros [] w1 _ _ He1.
  eapply hoare_bind; [apply _..|apply describe_record_spec|]. intros current w2 _ _ [_ Hread].
  case_match eqn:Ec.
  { apply hoare_ret; [apply _|]. apply negb_true_iff, bool_decide_eq_false in Ec.
    destruct (Hread i) as [?|[t Ht]]; [by eapply (carry _ _ _ _)|done|done|by eapply decided_moved]. }
  apply negb_false_iff, bool_decide_eq_true in Ec as ->.
  destruct (initial_pending _ Hvi) as [Hp Hv]. pose proof (initial_version _ Hvi) as Hver.
  apply hoare_read; [apply _|unfold of_start; reads|]. intros [existing|] w3 _ _; [by apply prepare_existing_spec|].
  destruct (ai_command i) as [nominal|v dg|v start_at dg] eqn:Hc.
  - apply prepare_due_spec; [done|by rewrite Hc].
  - apply hoare_read; [apply _|reads|]. intros now w4 _ _. apply hoare_let; [apply _|]. intros o w5 Ho _ _.
    apply projection_spec. intros t Ht. apply canceled_ok in Ho as (Hval & Hstep & Hst & Hdg); [|done].
    eapply (new_terminal_ok i); [exact Hval|done|exact Hver|by rewrite Hc..| |exact Ht]. by rewrite Hst, Hdg.
  - apply hoare_read; [apply _|reads|]. intros now w4 _ _. apply hoare_let; [apply _|]. intros o w5 Ho _ _.
    apply projection_spec. intros t Ht. apply rescheduled_ok in Ho as (Hval & Hstep & Hst & Hdg); [|done..].
    eapply (new_terminal_ok i); [exact Hval|done|exact Hver|by rewrite Hc..| |exact Ht]. by rewrite Hst, Hdg.
Qed.

(** ** Dispatching *)

Lemma attempt_dispatch_spec w i record target priority c :
  moved i w -> command_kind (ai_command i) = DUE_COMMAND -> claim_of (ai_record i) record c ->
  hoare w (attempt_dispatch self record target scope priority) any any.
Proof.
  intros Hm Hk (Hf & _). unfold attempt_dispatch. apply hoare_let; [apply _|]. intros [] w1 _ _ He1.
  apply hoare_let; [apply _|]. intros target' w2 _ _ He2. apply hoare_let; [apply _|]. intros binding w3 Hb _ He3.
  apply from_option_Ok in Hb. unfold create_binding in Hb. case_match; [|done]. injection Hb as <-.
  apply hoare_skip; [apply _| |intros ????; apply hoare_reads; [apply _|reads]].
  apply hoare_catch_raise; [apply _..| |intros e ???; apply hoare_reads; [apply _|reads]].
  apply hoare_skip; [apply _| |by intros ????; apply hoare_ret; [apply _|]].
  unfold start_accepted_api. cbn [new_start_request sr_definition_digest sr_source].
  apply start_with_metrics_spec. cbn [tsb_scope sr_workflow_name sr_business_request_id]. right.
  apply (carry self scope _ (dispatching_stable _ _ _) w); [by do 2 (etransitivity; [eassumption|])|].
  exists i. split_and!; [done|done|]. unfold fixed_fields in Hf. injection Hf as. cbn. congruence.
Qed.

(** ** Committing *)

Lemma terminal_pending i t :
  terminal_ok i t -> is_pending (at_projection t) = true ->
  at_winner t = RESCHEDULE_COMMAND /\ version (at_projection t) = (version (ai_record i) + 1)%Z.
Proof.
  intros (Hvt & _ & _ & _ & (_ & _ & Hst) & _) Hp. unfold valid_terminal_input in Hvt. rewrite !andb_true_iff in Hvt.
  destruct Hvt as [_ Hproj]. unfold validate_projection_version in Hproj. unfold is_pending in Hp.
  destruct (ss_stage (at_projection t)); try done. by destruct (at_winner t).
Qed.

(** What is stored when an arbiter commits: its record, or what its decision became. *)
Lemma stored_commit w i t r :
  inv w -> decided i t w -> stored w (ss_id r) r -> schedule_id (ss_id r) = schedule_id (ss_id (ai_record i)) ->
  ss_id r = ss_id (ai_record i) /\ (r = ai_record i \/ rtc record_step (at_projection t) r).
Proof.
  intros Hw (x & Hx & Ht) Hst Heq.
  destruct (stored_arbitrated self scope direct w r i) as [Hid Hr]; [done|done|by exists x|done|].
  split; [done|]. destruct Hr as [?|(t' & (y & Hy & Ht') & Hsteps)]; [by left|right].
  destruct (arbiter_unique _ _ _ _ _ _ Hx Hy eq_refl) as [_ <-]. rewrite Ht in Ht'. by simplify_eq.
Qed.

(** The updater stores a decision in place of its record. *)
Definition commits (i : ScheduledStartArbiterInitialInput) (t : ScheduledStartArbiterTerminalInput)
    (s : Schedule * list (string * json)) (o : option Schedule) (w : world) : Prop :=
  match o with
  | None => seen (at_projection t) w
  | Some s' =>
      stored w (ss_id (ai_record i)) (ai_record i)
      /\ described_record self (description (schedule_id (ss_id (ai_record i))) (s', s.2)) scope = Some (at_projection t)
  end.

Lemma commit_updater_spec w i t s o :
  inv w -> decided i t w -> w_schedules w !! schedule_id (ss_id (ai_record i)) = Some s ->
  commit_updater self t scope (description (schedule_id (ss_id (ai_record i))) s) = Ok o -> commits i t s o w.
Proof.
  intros Hw Hd Hs Ho. pose proof (decided_terminal _ _ _ _ _ _ Hw Hd) as Ht.
  unfold commit_updater in Ho. apply bind_Ok in Ho as (current & Hcur%from_option_Ok & Ho).
  destruct (stored_described _ _ _ _ _ _ _ Hw Hs Hcur) as [(_&_&_&_&Hscope&_&Hsid) Hst].
  destruct (stored_commit _ _ _ _ Hw Hd Hst Hsid) as [Hid Hcase].
  pose proof Ht as (Hvt & _ & Hcv & _ & Hstep & _). pose proof (record_step_id _ _ Hstep) as Hpid.
  assert (Hseen : rtc record_step (at_projection t) current -> seen (at_projection t) w).
  { intros. exists current. by rewrite Hpid, <- Hid. }
  assert (Hnew : forall priority, current = ai_record i ->
    commits i t s (Some (schedule_of self (at_projection t) scope priority)) w).
  { intros priority ->. split; [done|]. rewrite <- Hpid.
    unfold valid_terminal_input in Hvt. rewrite !andb_true_iff in Hvt.
    apply described_fields in Hcur as (_ & Hm). rewrite <- Hpid in Hm. cbn in Hm.
    apply described_schedule; try apply Hvt; try apply Hm. destruct Hstep as (_ & Hf & _). unfold fixed_fields in Hf.
    injection Hf. congruence. }
  destruct (bool_decide _ && _) eqn:Ep.
  - apply andb_true_iff in Ep as [_ Hp]. destruct (terminal_pending _ _ Ht Hp) as [_ Hv].
    destruct (_ <=? _)%Z eqn:Ev.
    + injection Ho as <-. apply Hseen. destruct Hcase as [->|?]; [lia|done].
    + apply bind_Ok in Ho as (priority & _ & [= <-]). apply Hnew.
      destruct Hcase as [?|Hsteps]; [done|]. apply record_steps_version in Hsteps. lia.
  - destruct (bool_decide (current = _)) eqn:Ec.
    + injection Ho as <-. apply bool_decide_eq_true in Ec. apply Hseen. by rewrite Ec.
    + destruct (negb _) eqn:En; [done|]. apply bind_Ok in Ho as (priority & _ & [= <-]). apply Hnew.
      destruct Hcase as [?|Hsteps]; [done|exfalso].
      destruct (is_pending (at_projection t)) eqn:Hp.
      * destruct (terminal_pending _ _ Ht Hp) as [Hk _]. by rewrite bool_decide_eq_true_2 in Ep.
      * apply ended_stays in Hsteps; [|done]. by apply bool_decide_eq_false in Ec.
Qed.

Lemma update_schedule_spec w i t :
  decided i t w ->
  hoare w (update_schedule (schedule_id (ss_id (ai_record i))) (commit_updater self t scope))
    (fun _ => seen (at_projection t)) any.
Proof.
  intros Hd Hw w1 a w2 Hk Hc. destruct (Hk Hw) as [Hw1 He1].
  assert (Hd1 : decided i t w1) by by eapply (carry _ _ _ _).
  set (applied := exists s s', w_schedules w1 !! schedule_id (ss_id (ai_record i)) = Some s
    /\ commit_updater self t scope (description (schedule_id (ss_id (ai_record i))) s) = Ok s'
    /\ w2 = match s' with Some s' => with_schedule (schedule_id (ss_id (ai_record i))) (s', s.2) w1 | None => w1 end).
  assert (Happlied : applied -> (inv w2 /\ evolves w1 w2) /\ seen (at_projection t) w2).
  { intros (s & s' & Hs & Hu & ->). apply (commit_updater_spec w1 i) in Hu; [|done..]. destruct s' as [s'|].
    - destruct Hu as [Hst Hdr]. destruct (consistent_commit self scope direct w1 i t (s', s.2)) as (?&?&?); try done.
    - split; [by split|done]. }
  assert (Hor : w2 = w1 \/ applied -> inv w2 /\ evolves w1 w2) by (intros [->|Ha]; [by split|by apply Happlied]).
  cbn in Hc. fold applied in Hc. destruct a as [[]|[e|e]].
  - destruct (Happlied Hc) as [[Hw2 He2] Hs]. split; [by intros _|]. intros w' Hk'. destruct (Hk' Hw2). cbn.
    by eapply (carry _ _ _ _).
  - destruct Hc as [-> _]. split; [reflexivity|done].
  - split; [by intros _; apply Hor|done].
Qed.

Lemma commit_arbiter_spec w i t :
  decided i t w -> terminal_ok i t ->
  hoare w (commit_arbiter self t scope) (fun r w' => r = applied_result t /\ seen (at_projection t) w') any.
Proof.
  intros Hd Ht. pose proof Ht as (_ & _ & _ & _ & Hstep & _). apply record_step_id in Hstep.
  unfold commit_arbiter, update_record_schedule. rewrite Hstep. apply hoare_let; [apply _|]. intros [] w1 _ _ He1.
  eapply (hoare_bind _ _ _ _ _ (fun _ => seen (at_projection t))); [apply _..| |].
  - apply hoare_let; [apply _|]. intros [] w2 _ _ He2. apply hoare_catch_raise; [apply _..| |].
    + apply update_schedule_spec. apply (carry self scope _ (decided_stable _ _ _ _) w); [by etransitivity|done].
    + intros [[]|] w3 _ _; unfold schedule_rpc_error, on_exception; repeat case_match; apply hoare_raise_any.
  - intros [] w2 _ _ Hs. apply hoare_read; [apply _|reads|]. intros _ w3 _ He3.
    apply hoare_read; [apply _|reads|]. intros _ w4 _ He4. apply hoare_ret; [apply _|]. split; [done|].
    apply (carry self scope _ (seen_stable _ _ _) w2); [by etransitivity|done].
Qed.
End dispatch_specs.

Section workflow_specs.
Context `{Sha256, FloatRepr, Timestamps, PayloadContracts, JsonLoads, ActivityPayloads} (self : ScheduledStartService)
  (scope : RuntimeScope) (direct : string -> Prop) (limits : RuntimeLimits) (priority : Priority).

Abbreviation inv := (consistent self scope direct).
Abbreviation evolves := (evolves self scope).
Abbreviation hoare := (hoare inv evolves).
Abbreviation arbiter_of := (arbiter_of scope).
Abbreviation arbiter := (arbiter scope).
Abbreviation seen := (seen self scope).
Abbreviation started := (started scope).
Abbreviation moved := (moved scope).
Abbreviation decided := (decided scope).

(** ** Activities *)

Lemma activity_spec {A} w input boundary valid (body : xprog scheduled_exn A) Q `{!forall a, Stable evolves (Q a)} :
  (forall w', valid = true -> evolves w w' -> hoare w' body Q any) -> hoare w (activity limits input boundary valid body) Q any.
Proof.
  intros Hb. unfold activity. apply hoare_catch_raise; [apply _..| |by intros; apply hoare_raise_any].
  apply hoare_let; [apply _|]. intros [] w1 _ _ He. destruct valid; [by apply Hb|apply hoare_raise_any].
Qed.

Lemma try_activity_spec {A} w (body : xprog activity_exn A) Q `{!forall a, Stable evolves (Q a)} :
  hoare w body Q any -> hoare w (try_activity body) Q any.
Proof.
  intros Hb. unfold try_activity. apply hoare_catch_raise; [apply _..| |by intros; apply hoare_raise_any].
  eapply hoare_bind; [apply _..|exact Hb|]. intros a w1 _ _ Ha.
  eapply (hoare_bind _ _ _ _ _ (fun _ => Q a)); [apply _..| |].
  - apply hoare_ask; [apply _..|]. intros w2 r w3 Hw2 He Hc. cbn in Hc. subst w3. split; [by split|]. by eapply stable.
  - intros [] w2 _ _ Ha2; [by apply hoare_ret|apply hoare_raise_any].
Qed.

Lemma unbounded_activity_spec {A} w tries (body : xprog activity_exn A) Q `{!forall a, Stable evolves (Q a)} :
  (forall w', evolves w w' -> hoare w' body Q any) -> hoare w (unbounded_activity tries body) Q any.
Proof.
  revert w. induction tries as [|tries IH]; intros w Hb; cbn [unbounded_activity]; [apply hoare_running|].
  apply hoare_catch_raise; [apply _..|by apply try_activity_spec, Hb|].
  intros e w' _ He. case_match; [|apply hoare_raise_any]. apply IH. intros w2 ?. apply Hb. by etransitivity.
Qed.

Lemma persistent_activity_spec {A} w tries (body : xprog activity_exn A) Q `{!forall a, Stable evolves (Q a)} :
  (forall w', evolves w w' -> hoare w' body Q any) -> hoare w (persistent_activity tries body) Q any.
Proof.
  intros Hb. apply hoare_catch_raise; [apply _..|by apply unbounded_activity_spec|]. intros. apply hoare_raise_any.
Qed.

Lemma due_workflow_spec w tries record : hoare w (due_workflow self scope limits priority tries record) any any.
Proof.
  unfold due_workflow. case_match; [apply hoare_raise_any|]. case_match; [by apply hoare_ret; [apply _|]|].
  apply hoare_catch_raise; [apply _..| |intros; apply hoare_raise_any].
  apply unbounded_activity_spec; [apply _|]. intros w1 _. apply activity_spec; [apply _|]. intros w2 Hv _.
  apply andb_true_iff in Hv as [Hv _]. case_match; [by apply claim_due_spec|by apply hoare_ret; [apply _|]].
Qed.

(** ** The runs of an arbiter *)

(** The current run of an arbiter has this input. *)
Definition holding (i : ScheduledStartArbiterInitialInput) (input : ScheduledStartArbiterInput) (w : world) : Prop :=
  started i w /\
  match input with
  | InitialInput i' => i' = i
  | ResolvedDueInput d => resolved_ok i d /\ moved i w
  | TerminalInput t => terminal_ok i t /\ decided i t w
  end.

#[export] Instance holding_stable i input : Stable evolves (holding i input).
Proof. unfold holding. destruct input; apply _. Qed.

(** How a run may end. *)
Definition run_ok (i : ScheduledStartArbiterInitialInput) (input : ScheduledStartArbiterInput) (e : run_end) (w : world)
  : Prop :=
  match input, e with
  | InitialInput _, ContinueAsNew (ResolvedDueInput d) => resolved_ok i d
  | InitialInput _, ContinueAsNew (TerminalInput t) => terminal_ok i t
  | InitialInput _, Finished _ => moved i w
  | ResolvedDueInput d, ContinueAsNew (ResolvedDueInput d') =>
      resolved_ok i d' /\ ad_record d' = ad_record d /\ ad_target d' = ad_target d
  | ResolvedDueInput _, ContinueAsNew (TerminalInput t) => terminal_ok i t
  | TerminalInput t, Finished r => r = applied_result t /\ seen (at_projection t) w
  | _, _ => False
  end.

#[export] Instance run_ok_stable i input e : Stable evolves (run_ok i input e).
Proof. unfold run_ok. destruct input, e as [[]|]; apply _. Qed.

Lemma current_input_spec {E} w sid v :
  hoare w (ask (CurrentInput (make_scheduled_start_arbiter_id scope sid v)) : xprog E _)
    (fun o w' => match (o : option ScheduledStartArbiterInput) with
                 | None => True
                 | Some input => exists i, arbiter_of i = make_scheduled_start_arbiter_id scope sid v /\ holding i input w'
                 end) any.
Proof.
  assert (forall o : option ScheduledStartArbiterInput, Stable evolves (fun w' => match o with
    | None => True
    | Some input => exists i, arbiter_of i = make_scheduled_start_arbiter_id scope sid v /\ holding i input w' end))
    by (intros []; apply _).
  apply hoare_ask; [apply _..|]. intros w1 o w2 Hw1 _ Hc. cbn in Hc. destruct Hc as [-> Ho]. split; [done|].
  destruct o as [input|]; [|done]. destruct Ho as (x & Hx & Hin & _).
  destruct (arbiters_ok _ _ _ _ Hw1 _ _ _ Hx) as (i & Hi & Heq & Hok). exists i. split; [done|]. split; [by exists x|].
  destruct Hok as (_&_&_&_&Ha&_). rewrite Hin in Ha. destruct input; cbn in Ha; [done|..].
  - split; [done|]. exists x. split; [done|]. intros i'. by rewrite Hin.
  - split; [done|]. by exists x.
Qed.

Lemma claim_resolved i d c :
  command_kind (ai_command i) = DUE_COMMAND -> claim_of (ai_record i) (ad_record d) c -> resolved_ok i d.
Proof. intros Hk (?&?&?&?&?). split_and!; try done. by exists c. Qed.

Lemma dispatch_loop_spec w i attempts d c saw_ambiguous rejections :
  valid_initial_input i = true -> moved i w -> command_kind (ai_command i) = DUE_COMMAND ->
  claim_of (ai_record i) (ad_record d) c ->
  hoare w (dispatch_loop self scope limits priority attempts d c saw_ambiguous rejections) (run_ok i (ResolvedDueInput d)) any.
Proof.
  intros Hvi. destruct (initial_pending _ Hvi) as [Hp _]. revert w saw_ambiguous rejections.
  assert (Hterminal : forall stage w updated kind dg,
    command_kind (ai_command i) = DUE_COMMAND -> claim_of (ai_record i) (ad_record d) c ->
    match stage with Started c' _ _ | FailedStart c' _ _ => c' = c | _ => False end ->
    hoare w
      (r ← xlift (transition_record (ad_record d) stage (ss_start_at (ss_base (ad_record d))) (version (ad_record d)) updated
                    kind dg);
       terminal ← xlift (new_terminal_input r (claimed_version c) DUE_COMMAND None);
       mret (ContinueAsNew (TerminalInput terminal))) (run_ok i (ResolvedDueInput d)) any).
  { intros stage w updated kind dg Hk Hcl Hstage. apply hoare_let; [apply _|]. intros r w1 Hr _ _.
    eapply ended_claim in Hr as (Hval & Hstep & Hst); [|done..]. apply hoare_let; [apply _|]. intros t w2 Ht _ _.
    apply hoare_ret; [apply _|]. cbn. destruct Hcl as (_ & _ & _ & _ & Hc).
    eapply (new_terminal_ok i); [exact Hval|done|exact Hc|done| | |exact Ht].
    - by destruct (ai_command i).
    - rewrite Hst. by destruct stage. }
  induction attempts as [|attempts IH]; intros w saw_ambiguous rejections Hm Hk Hcl; cbn [dispatch_loop].
  - apply hoare_ret; [apply _|]. split_and!; [by apply (claim_resolved _ _ c)|done..].
  - eapply hoare_skip; [apply _| |].
    + unfold dispatch_attempt. apply hoare_catch_raise; [apply _..| |by intros; apply hoare_ret; [apply _|]].
      apply try_activity_spec; [apply _|]. apply activity_spec; [apply _|]. intros w1 _ He1.
      eapply attempt_dispatch_spec; [by eapply (carry _ _ _ _)|done|done].
    + intros attempt w1 _ He1. assert (moved i w1) by by eapply (carry _ _ _ _). destruct attempt.
      * apply hoare_read; [apply _|unfold workflow_now; reads|]. intros now w2 _ _. by apply Hterminal.
      * case_match; [|by apply IH].
        apply hoare_read; [apply _|unfold workflow_now; reads|]. intros now w2 _ _. by apply Hterminal.
      * by apply IH.
Qed.

Lemma arbiter_run_spec w i tries input :
  holding i input w -> hoare w (arbiter_run self scope limits priority tries input) (run_ok i input) any.
Proof.
  intros [Hi Hin] Hw. revert Hw. destruct input as [i'|d|t]; cbn [arbiter_run]; (case_match eqn:Hv; [|apply hoare_raise_any]).
  - subst i'. unfold arbiter_prepare. eapply (hoare_bind _ _ _ _ _ (prepared scope i)); [apply _..| |].
    + apply persistent_activity_spec; [apply _|]. intros w1 ?. apply activity_spec; [apply _|]. intros w2 _ ?.
      apply prepare_arbiter_spec; [done|]. apply (carry self scope _ (started_stable _ _ _) w); [by etransitivity|done].
    + intros p w1 _ _ Hp. apply hoare_ret; [apply _|]. destruct p; cbn in *; [|done..].
      destruct Hp as (Hk & c & Hcl). by apply (claim_resolved _ _ c).
  - destruct Hin as [(Hk & Hf & Hver & Hs & c & Hst & Hc) Hm]. unfold arbiter_dispatch. rewrite Hst.
    intros Hw. destruct (started_input _ _ _ _ _ Hw Hi) as [Hvi _]. by eapply dispatch_loop_spec.
  - destruct Hin as [Ht Hd]. unfold arbiter_commit.
    eapply (hoare_bind _ _ _ _ _ (fun r w' => r = applied_result t /\ seen (at_projection t) w')); [apply _..| |].
    + apply persistent_activity_spec; [apply _|]. intros w1 ?. apply activity_spec; [apply _|]. intros w2 _ ?.
      apply (commit_arbiter_spec _ _ _ _ i); [|done]. apply (carry self scope _ (decided_stable _ _ _ _) w); [by etransitivity|done].
    + intros r w1 _ _ Hr. by apply hoare_ret; [apply _|].
Qed.

(** Handing in how a run ends. *)
Lemma end_run_spec {E} w i input e :
  valid_initial_input i = true -> started i w -> run_ok i input e w ->
  hoare w
    (ask (match e with
          | ContinueAsNew next => ContinueRun (arbiter_of i) input next
          | Finished result => CompleteRun (arbiter_of i) input result
          end) : xprog E _) any any.
Proof.
  intros Hvi Hi Hrun. apply hoare_ask; [apply _..|]. intros w1 a w2 Hw1 He1 Hc. split; [|done].
  assert (started i w1) as [x Hx] by by eapply (carry _ _ _ _).
  assert (Hrun1 : run_ok i input e w1) by by eapply (carry _ _ _ _).
  assert (Hcur : forall y, current_run w1 (arbiter_of i) input y ->
    y = x /\ ex_argument x = ArbiterArgument input /\ ex_result x = None /\ argument_ok i (ArbiterArgument input)).
  { intros y (Hy & Ha & Hr). destruct Hx as [Hx ?]. rewrite Hx in Hy. simplify_eq. split_and!; [done|done|done|].
    destruct (arbiter_is_ok _ _ _ _ i y Hw1) as (_&_&_&_&Hok&_); [by split|]. by rewrite Ha in Hok. }
  assert (Hkeep : forall x', execution_evolves x x' -> argument_ok i (ex_argument x') ->
    (forall t, ex_argument x = ArbiterArgument (TerminalInput t) -> ex_argument x' = ex_argument x) ->
    result_ok self scope w1 x' ->
    inv (with_execution (arbiter_of i) x' w1) /\ evolves w1 (with_execution (arbiter_of i) x' w1)).
  { intros x' Hev Ha Ht Hr. split; [by eapply consistent_execution|]. eapply with_execution_evolves; [apply Hx|done]. }
  destruct e as [next|r]; cbn in Hc; (destruct Hc as [->|(y & (-> & Ha & Hr & Hok)%Hcur & ->)]; [by split|]); apply Hkeep.
  - split_and!; [done|done| |by rewrite Hr]. rewrite Ha. cbn.
    destruct input as [|d|], next as [|d'|]; cbn in Hrun; try done; by destruct Hrun as (_ & ? & ?).
  - cbn. destruct input, next; cbn in Hrun; try done. by destruct Hrun.
  - intros t Ht. rewrite Ha in Ht. injection Ht as ->. by destruct next.
  - unfold result_ok. cbn. by rewrite Hr.
  - split_and!; [done|done|done|]. by rewrite Hr.
  - cbn. by rewrite Ha.
  - done.
  - unfold result_ok. cbn. rewrite Ha. destruct input as [i'|d|t]; cbn in Hrun1; [|done|].
    + destruct Hrun1 as (z & [Hz _] & Hm). destruct Hx as [Hx _]. rewrite Hx in Hz. simplify_eq. by destruct (Hm i').
    + destruct Hrun1 as [-> Hs]. by exists t.
Qed.

Lemma arbiter_worker_spec w runs tries sid v :
  hoare w (arbiter_worker self scope limits priority runs tries (make_scheduled_start_arbiter_id scope sid v)) any any.
Proof.
  revert w. induction runs as [|runs IH]; intros w; cbn [arbiter_worker]; [by apply hoare_ret; [apply _|]|].
  eapply hoare_bind; [apply _..|apply current_input_spec|]. intros [input|] w1 Hw1 _ Hin; [|by apply hoare_ret; [apply _|]].
  destruct Hin as (i & Heq & Hh). pose proof Hh as [Hi _]. destruct (started_input _ _ _ _ _ Hw1 Hi) as [Hvi _].
  eapply hoare_bind; [apply _..|by apply arbiter_run_spec|]. intros e w2 _ He2 Hr. rewrite <- Heq.
  apply hoare_skip; [apply _| |intros ????; rewrite Heq; apply IH].
  apply end_run_spec; [done|by eapply (carry _ _ _ _)|done].
Qed.
End workflow_specs.
