(* ===== verification/ScheduledStartPools.v ===== *)
(** Clients, schedules and workers at work on the scheduled starts of one scope, in any
    interleaving and from an empty server: which command wins a version, what is never
    dispatched and how what is stored goes on; and a server that computes its answers, on
    which the witnesses run. *)

From S2P Require Export ScheduledStartDispatchSpecs.
From S2P Require Import ActivationFacts.

(** ** Who takes part *)

(** A request to the service, the workflow of a schedule, a worker of an arbiter, or a start
    of a workflow by another client. *)
Inductive participant :=
| Creating (request : ScheduledStartCreateRequest) (idempotency_key : string) (kind : ScopeBindingKind) (binding_id : string)
| Rescheduling (scheduled_start_id : string) (request : ScheduledStartRescheduleRequest) (idempotency_key : string)
| Canceling (scheduled_start_id : string) (expected_version : Z) (idempotency_key : string)
| Describing (scheduled_start_id : string)
| Listing (limit : Z) (cursor : option string) (states : option (list ScheduledStartState))
| Firing (record : ScheduledStartRecord)
| Arbitrating (scheduled_start_id : string) (version : Z)
| Starting (request : StartWorkflowRequest) (binding : TrustedScopeBinding).

(** What a request for a change is answered; the other replies do not matter here. *)
Inductive reply :=
| Mutated (r : result scheduled_exn ScheduledStartMutationResult)
| OtherReply.

Definition no_starts : world := {| w_schedules := ∅; w_executions := ∅ |}.

Section pools.
Context `{Sha256, FloatRepr, Timestamps, PayloadContracts, JsonLoads, ActivityPayloads} (self : ScheduledStartService)
  (scope : RuntimeScope) (limits : RuntimeLimits) (priority : Priority) (pages tries runs : nat).

Definition replying {A} (f : A -> reply) (p : prog A) : prog reply := p ≫= (fun a => Ret (f a)).

Definition participant_prog (p : participant) : prog reply :=
  match p with
  | Creating request key kind binding_id =>
      replying Mutated
        (ScheduledStartService.create self pages request key {| tsb_kind := kind; tsb_scope := scope; tsb_binding_id := binding_id |})
  | Rescheduling sid request key => replying Mutated (reschedule self sid request key scope)
  | Canceling sid v key => replying Mutated (ScheduledStartService.cancel self sid v key scope)
  | Describing sid => replying (fun _ => OtherReply) (describe self sid scope)
  | Listing limit cursor states => replying (fun _ => OtherReply) (list_scheduled_starts self pages scope limit cursor states)
  | Firing record => replying (fun _ => OtherReply) (due_workflow self scope limits priority tries record)
  | Arbitrating sid v =>
      replying (fun _ => OtherReply)
        (arbiter_worker self scope limits priority runs tries (make_scheduled_start_arbiter_id scope sid v))
  | Starting request binding => replying (fun _ => OtherReply) (start (sv_starter self) request binding)
  end.

(** The version that a request is to consume, its kind and its digest. *)
Definition command_of (p : participant) : option (string * Z * ScheduledStartArbiterCommandKind * string) :=
  match p with
  | Rescheduling sid request key => Some (sid, srr_expected_version request, RESCHEDULE_COMMAND, reschedule_digest sid request key)
  | Canceling sid v key => Some (sid, v, CANCEL_COMMAND, cancel_digest sid v key)
  | _ => None
  end.

(** The workflows that other clients of the pool start. *)
Definition starts_directly (ps : list participant) (workflow_id : string) : Prop :=
  exists request binding, Starting request binding ∈ ps
    /\ workflow_id = start_workflow_id (tsb_scope binding) (sr_workflow_name request) (sr_business_request_id request).

(** The participant replied that its command is done. *)
Definition done_with (progs : list (prog reply)) (i : nat) (r : ScheduledStartMutationResult) : Prop :=
  progs !! i = Some (Ret (Mutated (Ok r))) /\ mr_status r <> IN_PROGRESS_STATUS.

Definition reaches (ps : list participant) (progs : list (prog reply)) (w : world) : Prop :=
  rtc pool_step (participant_prog <$> ps, no_starts) (progs, w).

Section pool.
Context (ps : list participant) (Hquota : local_or_no_quota self).

Abbreviation direct := (starts_directly ps).
Abbreviation inv := (consistent self scope direct).
Abbreviation evolves := (evolves self scope).

Lemma no_starts_consistent : inv no_starts.
Proof.
  split; unfold arbiter, stored, no_starts; cbn.
  - intros sid r u (s & Hs & _). done.
  - done.
  - intros i x r [Hx _]. done.
  - intros sid r (s & Hs & _). done.
  - intros sid r (s & Hs & _). done.
  - by intros wn bid [].
Qed.

(** What holds of the reply of each participant. *)
Definition replied (i : nat) (r : reply) (w : world) : Prop :=
  forall p sid v kind dg m, ps !! i = Some p -> command_of p = Some (sid, v, kind, dg) -> r = Mutated (Ok m) ->
    answered self scope sid v kind dg m w.

#[export] Instance replied_stable i r : Stable evolves (replied i r).
Proof. unfold replied. apply _. Qed.

Lemma replying_wp {E A} (f : result E A -> reply) (p : xprog E A) Q i w :
  hoare inv evolves w p Q any ->
  (forall w' e, replied i (f (Raise e)) w') -> (forall w' a, Q a w' -> replied i (f (Ok a)) w') ->
  inv w -> wp (keeps inv evolves) (replying f p) (fun r w' => inv w' -> replied i r w') w.
Proof.
  intros Hp He Ha Hw. apply (wp_bind _ p). eapply wp_mono; [apply _| |by apply Hp].
  intros r w' Hk Hr. apply wp_ret. intros w2 Hk2 Hw2. destruct (Hk Hw) as [Hw' _]. destruct (Hk2 Hw') as [_ Hev].
  destruct r; cbn in Hr; [|done]. eapply (carry _ _ _ (replied_stable _ _)); [exact Hev|]. by apply Ha.
Qed.

Lemma quiet_wp {E A} (f : result E A -> reply) (p : xprog E A) i q w :
  hoare inv evolves w p any any -> ps !! i = Some q -> command_of q = None ->
  inv w -> wp (keeps inv evolves) (replying f p) (fun r w' => inv w' -> replied i r w') w.
Proof. intros Hp Hq Hc. eapply replying_wp; [exact Hp|..]; intros; intros ?; intros; congruence. Qed.

Lemma participant_wp i p w :
  ps !! i = Some p -> inv w -> wp (keeps inv evolves) (participant_prog p) (fun r w' => inv w' -> replied i r w') w.
Proof.
  intros Hi Hw. destruct p as [request key kind bid|sid request key|sid v key|sid|limit cursor states|record|sid v|request binding];
    cbn [participant_prog].
  - eapply quiet_wp; [by apply create_spec|done..].
  - eapply replying_wp; [apply reschedule_spec|..|done]; intros; intros ?; intros; simplify_eq; cbn in *; by simplify_eq.
  - eapply replying_wp; [apply cancel_spec|..|done]; intros; intros ?; intros; simplify_eq; cbn in *; by simplify_eq.
  - eapply quiet_wp; [apply hoare_reads; [apply _|reads]|done..].
  - eapply quiet_wp; [apply hoare_reads; [apply _|reads]|done..].
  - eapply quiet_wp; [apply due_workflow_spec|done..].
  - eapply quiet_wp; [apply arbiter_worker_spec|done..].
  - eapply quiet_wp; [|done..]. apply start_with_metrics_spec. left. exists request, binding. split; [|done].
    by eapply list_elem_of_lookup_2.
Qed.

(** Every world that the pool reaches is consistent, and what a request is answered holds. *)
Lemma pool_wp progs w :
  reaches ps progs w ->
  inv w /\ forall i p, progs !! i = Some p -> wp (keeps inv evolves) p (fun r w' => inv w' -> replied i r w') w.
Proof.
  intros Hr. destruct (pool_sound (keeps inv evolves) (fun i r w' => inv w' -> replied i r w') _ _ _ _ Hr) as [Hk Hp].
  - intros i p Hi. apply list_lookup_fmap_Some in Hi as (q & -> & Hq).
    apply participant_wp; [done|apply no_starts_consistent].
  - split; [|done]. by apply Hk, no_starts_consistent.
Qed.

Lemma pool_replied progs w i p sid v kind dg m :
  reaches ps progs w -> ps !! i = Some p -> command_of p = Some (sid, v, kind, dg) -> done_with progs i m ->
  won self scope sid v kind dg (mr_scheduled_start m) w.
Proof.
  intros Hr Hi Hc [Hm Hs]. destruct (pool_wp _ _ Hr) as [Hw Hp].
  specialize (Hp i _ Hm w ltac:(reflexivity) Hw p sid v kind dg m Hi Hc eq_refl). by destruct Hp.
Qed.

(** ** What follows *)

Lemma same_start w i i' :
  inv w -> seen self scope (ai_record i) w -> seen self scope (ai_record i') w ->
  make_scheduled_start_schedule_id scope (ss_id (ai_record i)) = make_scheduled_start_schedule_id scope (ss_id (ai_record i')) ->
  ss_id (ai_record i) = ss_id (ai_record i').
Proof. intros Hw (r & Hr & _) (r' & Hr' & _) Heq. by destruct (stored_unique _ _ _ _ _ _ _ Hr Hr' Heq) as [_ ?]. Qed.

Lemma won_unique w sid v kind dg d kind' dg' d' :
  inv w -> won self scope sid v kind dg d w -> won self scope sid v kind' dg' d' w -> kind = kind' /\ dg = dg' /\ d = d'.
Proof.
  intros Hw (i & t & ((x & Hx & Ht) & _) & Hsid & Hv & Hk & Hd & -> & _)
            (i' & t' & ((x' & Hx' & Ht') & _) & Hsid' & Hv' & Hk' & Hd' & -> & _).
  destruct (arbiter_is_ok _ _ _ _ _ _ Hw Hx) as (_&_&_&Hs&_). destruct (arbiter_is_ok _ _ _ _ _ _ Hw Hx') as (_&_&_&Hs'&_).
  assert (Hid : ss_id (ai_record i) = ss_id (ai_record i')) by (eapply same_start; [done..|congruence]).
  destruct (arbiter_unique _ _ _ _ _ _ Hx Hx') as [<- <-]; [unfold arbiter_of; congruence|].
  rewrite Ht in Ht'. simplify_eq. split_and!; congruence.
Qed.

(** A record of an input comes from the request that its identity names. *)
Lemma seen_named w r : inv w -> seen self scope r w -> named scope r.
Proof.
  intros Hw (r' & Hst & Hsteps). pose proof (stored_named _ _ _ _ Hw _ _ Hst) as Hn.
  apply record_steps_fixed in Hsteps. unfold fixed_fields, named, ss_id in *. injection Hsteps. congruence.
Qed.

Lemma start_id_named wn bid wn' bid' :
  start_workflow_id scope wn bid = start_workflow_id scope wn' bid' ->
  make_scheduled_start_id scope wn bid = make_scheduled_start_id scope wn' bid'.
Proof.
  unfold start_workflow_id, make_scheduled_start_id, scoped_id. intros Heq%string_append_inj_l. by rewrite Heq.
Qed.

(** Once a cancellation is done, no arbiter dispatches the start. *)
Lemma canceled_not_dispatching w wn bid v dg d :
  inv w -> won self scope (make_scheduled_start_id scope wn bid) v CANCEL_COMMAND dg d w ->
  ~ dispatching scope (start_workflow_id scope wn bid) w.
Proof.
  intros Hw (i & t & (Hdec & (r & Hst & Hsteps) & Ht) & Hsid & Hv & Hk & _ & -> & Hns) (i' & (y & Hy & Hm) & Hk' & Hid').
  pose proof Hdec as (x & Hx & _). destruct (arbiter_is_ok _ _ _ _ _ _ Hw Hx) as (_&_&_&Hs&_).
  destruct (arbiter_is_ok _ _ _ _ _ _ Hw Hy) as (_&Hvi&_&Hs'&_).
  assert (Hsame : ss_id (ai_record i) = ss_id (ai_record i')).
  { eapply same_start; [done..|]. rewrite Hsid, (seen_named _ _ Hw Hs'). f_equal. symmetry. by apply start_id_named. }
  assert (Hcanceled : exists time, ss_stage (at_projection t) = Canceled time).
  { destruct Ht as (Hvt & Hwin & _). unfold valid_terminal_input in Hvt. rewrite !andb_true_iff in Hvt.
    destruct Hvt as [_ Hproj]. unfold validate_projection_version in Hproj. rewrite Hwin, Hk in Hproj. cbn in Hns.
    unfold ss_state in Hns. destruct (ss_stage (at_projection t)); try done. by eexists. }
  destruct Hcanceled as [time Hc].
  assert (r = at_projection t) as -> by (apply ended_stays; [unfold is_pending; by rewrite Hc|done]).
  pose proof Ht as (_&_&_&_&Hstep&_). rewrite (record_step_id _ _ Hstep), Hsame in Hst.
  destruct (stored_decided _ _ _ _ Hw i' y _ Hy Hst) as [Heq|(t' & Ht' & Hsteps')].
  - destruct (initial_pending _ Hvi) as [Hp _]. unfold is_pending in Hp. by rewrite <- Heq, Hc in Hp.
  - assert (terminal_ok i' t') as Hok by (eapply decided_terminal; [done|by exists y]).
    assert (Hended : is_pending (at_projection t') = false).
    { destruct (is_pending (at_projection t')) eqn:Hp; [|done]. destruct (terminal_pending _ _ Hok Hp) as [Hwin _].
      destruct Hok as (_ & Hw2 & _). congruence. }
    apply ended_stays in Hsteps'; [|done]. rewrite Hsteps' in Hc. destruct Hok as (Hvt & Hw2 & _).
    unfold valid_terminal_input in Hvt. rewrite !andb_true_iff in Hvt. destruct Hvt as [_ Hproj].
    unfold validate_projection_version in Hproj. by rewrite Hw2, Hk', Hc in Hproj.
Qed.
End pool.

(** C16: While clients, schedules and workers act in any interleaving and Temporal may lose
    any answer, one command wins a version.  Two requests that were told that their change
    of the same version of the same scheduled start was made, or had been made, had the
    same kind and the same digest, so they were the same request under the same idempotency
    key unless a digest collides, and both were shown the same outcome. *)
Theorem one_command_wins ps progs w i j p q sid v kind dg kind' dg' m m' :
  local_or_no_quota self -> reaches ps progs w ->
  ps !! i = Some p -> command_of p = Some (sid, v, kind, dg) -> done_with progs i m ->
  ps !! j = Some q -> command_of q = Some (sid, v, kind', dg') -> done_with progs j m' ->
  kind = kind' /\ dg = dg' /\ mr_scheduled_start m = mr_scheduled_start m'.
Proof.
  intros Hq Hr Hi Hp Hm Hj Hq' Hm'. destruct (pool_wp _ Hq _ _ Hr) as [Hw _].
  eapply won_unique; [exact Hw|eapply (pool_replied ps Hq _ _ i p); eassumption|eapply (pool_replied ps Hq _ _ j q); eassumption].
Qed.

(** C20: Once a client was told that a scheduled start is canceled, its workflow is not
    there and never will be, however late the schedule fires and whatever the arbiters,
    their retries and the other requests do, unless another client starts a workflow of
    the same business identity directly. *)
Theorem canceled_start_not_dispatched ps progs w i wn bid v key m :
  local_or_no_quota self -> reaches ps progs w ->
  ps !! i = Some (Canceling (make_scheduled_start_id scope wn bid) v key) -> done_with progs i m ->
  ~ starts_directly ps (start_workflow_id scope wn bid) ->
  w_executions w !! start_workflow_id scope wn bid = None.
Proof.
  intros Hq Hr Hi Hm Hd. destruct (pool_wp _ Hq _ _ Hr) as [Hw _].
  destruct (w_executions w !! _) as [x|] eqn:Hx; [exfalso|done].
  destruct (executions_dispatched _ _ _ _ Hw wn bid) as [?|Hdis]; [by rewrite Hx|done|].
  eapply canceled_not_dispatching; [exact Hw| |exact Hdis]. eapply (pool_replied ps Hq); [exact Hr|exact Hi|done|exact Hm].
Qed.


(** C31: Every stored record is well formed and is that of a creation, or an arbiter
    decided it: a step of the record with which the arbiter was started, under the command
    that won that version, so that no change bypasses the arbiter of its version. *)
Theorem stored_records_decided ps progs w sid r :
  local_or_no_quota self -> reaches ps progs w -> stored self scope w sid r ->
  valid_record r = true /\
  (is_pending r = true /\ ss_last_mutation_kind (ss_base r) = CREATE_MUTATION \/
   exists i x t, arbiter scope w i x /\ ex_argument x = ArbiterArgument (TerminalInput t) /\ at_projection t = r
     /\ at_consumed_version t = version (ai_record i) /\ at_winner t = command_kind (ai_command i)
     /\ record_step (ai_record i) r).
Proof.
  intros Hq Hr Hst. destruct (pool_wp _ Hq _ _ Hr) as [Hw _]. split; [by eapply stored_valid|].
  destruct (stored_origin _ _ _ _ Hw _ _ Hst) as [?|(i & t & Hd & <-)]; [by left|right].
  destruct (decided_terminal _ _ _ _ _ _ Hw Hd) as (_ & ? & ? & _ & ? & _). destruct Hd as (x & ? & ?). by exists i, x, t.
Qed.
End pools.

(** ** A server that answers at once *)

#[local] Instance ScheduledStartArbiterTerminalInput_eq_dec : EqDecision ScheduledStartArbiterTerminalInput.
Proof. solve_decision. Defined.

(** The input of the current run, where this server tells. *)
Definition runs_input (before : ScheduledStartArbiterInput) (x : Execution) : bool :=
  match before, ex_argument x, ex_result x with
  | InitialInput i, ArbiterArgument (InitialInput i'), None => bool_decide (i' = i)
  | TerminalInput t, ArbiterArgument (TerminalInput t'), None => bool_decide (t' = t)
  | _, _, _ => false
  end.

Lemma runs_input_current w id before x :
  w_executions w !! id = Some x -> runs_input before x = true -> current_run w id before x.
Proof.
  unfold runs_input, current_run. intros Hx Hr. destruct before, (ex_argument x) as [|[]], (ex_result x); try done;
    apply bool_decide_eq_true in Hr as ->; by split_and!.
Qed.

Definition rpc_not_found : temporal_exn := RPCError "NOT_FOUND" "".

(** The answers of the server where every call has an effect that arrives. *)
Definition respond (registration : option WorkflowStartRegistration) (c : temporal_call) : world -> answer c * world :=
  match c return world -> answer c * world with
  | StartWorkflow s => fun w =>
      match w_executions w !! ws_id s with
      | Some _ => (Raise (WorkflowAlreadyStartedError None), w)
      | None => (Ok (Some "run"), with_execution (ws_id s) (started_execution s "run") w)
      end
  | DescribeWorkflow id _ => fun w =>
      (match w_executions w !! id with
       | Some x => Ok {| xd_memo := text_memo (ws_memo (ex_start x)); xd_status := TemporalCalls.RUNNING; xd_start_time := 0;
                         xd_run_id := ex_run_id x |}
       | None => Raise rpc_not_found
       end, w)
  | WorkflowResult id => fun w =>
      (match (w_executions w !! id) ≫= ex_result with
       | Some r => Ok (Some r)
       | None => Raise (OtherError (Exn (ExternalError "TimeoutError" None None None) "" None))
       end, w)
  | CreateSchedule id s memo => fun w =>
      match w_schedules w !! id with
      | Some _ => (Raise AlreadyRunningError, w)
      | None => (Ok tt, with_schedule id (s, text_memo memo) w)
      end
  | DescribeSchedule id => fun w =>
      (match w_schedules w !! id with Some s => Ok (description id s) | None => Raise rpc_not_found end, w)
  | UpdateSchedule id updater => fun w =>
      match w_schedules w !! id with
      | Some s =>
          match updater (description id s) with
          | Ok (Some s') => (Ok tt, with_schedule id (s', s.2) w)
          | Ok None => (Ok tt, w)
          | Raise e => (Raise (UpdaterRaised e), w)
          end
      | None => (Raise (ClientRaised rpc_not_found), w)
      end
  | ListSchedules _ _ _ => fun w => (Ok ([], None), w)
  | DeleteSchedule _ => fun w => (Ok tt, w)
  | ContinueRun id before after => fun w =>
      (tt, match w_executions w !! id with
           | Some x => if runs_input before x then with_execution id (with_argument after x) w else w
           | None => w
           end)
  | CompleteRun id before r => fun w =>
      (tt, match w_executions w !! id with
           | Some x => if runs_input before x then with_execution id (with_result r x) w else w
           | None => w
           end)
  | CurrentInput id => fun w =>
      (match w_executions w !! id with
       | Some {| ex_argument := ArbiterArgument input; ex_result := None |} => Some input
       | _ => None
       end, w)
  | ReportActivity => fun w => (true, w)
  | WorkflowNow => fun w => (0%Z, w)
  | ResolveTarget _ _ => fun w => (Ok registration, w)
  | Now => fun w => (Some 0%Z, w)
  | Sleep | AcquireLock | ReleaseLock | RecordStart _ _ | RecordOutcome _ | RecordDecision _ _ => fun w => (tt, w)
  end.

Lemma respond_step registration c w : temporal_step c w (respond registration c w).1 (respond registration c w).2.
Proof.
  destruct c; cbn; try done.
  - destruct (w_executions w !! ws_id s) eqn:E; cbn; [split; [by left|by rewrite E]|]. split; [done|by eexists].
  - destruct (w_executions w !! workflow_id) as [x|] eqn:E; cbn; [|done]. split; [done|]. by exists x.
  - split; [done|]. destruct (w_executions w !! workflow_id) as [x|] eqn:E; cbn; [|done].
    destruct (ex_result x) as [r|] eqn:Er; [|done]. by exists x.
  - destruct (w_schedules w !! schedule_id) eqn:E; cbn; [|done]. split; [by left|by rewrite E].
  - split; [done|]. destruct (w_schedules w !! schedule_id) as [s|] eqn:E; cbn; [by exists s|done].
  - destruct (w_schedules w !! schedule_id) as [s|] eqn:E; cbn; [|by left].
    destruct (updater (description schedule_id s)) as [[s'|]|e] eqn:Eu; cbn; [by exists s, (Some s')|by exists s, None|].
    split; [done|]. by exists s.
  - by left.
  - destruct (w_executions w !! workflow_id) as [x|] eqn:E; cbn; [|by left].
    destruct (runs_input before x) eqn:Er; [right|by left]. exists x. split; [by apply runs_input_current|done].
  - destruct (w_executions w !! workflow_id) as [x|] eqn:E; cbn; [|by left].
    destruct (runs_input before x) eqn:Er; [right|by left]. exists x. split; [by apply runs_input_current|done].
  - split; [done|]. destruct (w_executions w !! workflow_id) as [[s run [|input] [|]]|] eqn:E; try done.
    by eexists.
Qed.

(** The participants of these positions make a call each. *)
Fixpoint play {A} (registration : option WorkflowStartRegistration) (moves : list nat) (ps : list (prog A)) (w : world)
  : list (prog A) * world :=
  match moves with
  | [] => (ps, w)
  | i :: moves =>
      match ps !! i with
      | Some (Call c k) =>
          let r := respond registration c w in
          play registration moves (<[i := k r.1]> ps) r.2
      | _ => play registration moves ps w
      end
  end.

Lemma play_steps {A} registration moves (ps : list (prog A)) w :
  rtc pool_step (ps, w) (play registration moves ps w).
Proof.
  revert ps w. induction moves as [|i moves IH]; intros ps w; cbn [play]; [done|].
  destruct (ps !! i) as [[|c k|]|] eqn:Hi; try apply IH.
  eapply rtc_l; [|apply IH]. by eapply pool_call; [|apply respond_step].
Qed.

(** ** Samples *)

Definition folded_hexdigest (s : string) : string := hex_digits 64 (text_code s mod (2 ^ 255 - 19))%N.

#[local] Instance folding_sha256 : Sha256.
Proof.
  refine {| hexdigest := folded_hexdigest |}. intros s. unfold is_scope_digest, folded_hexdigest.
  destruct (hex_digits_form 64 (text_code s mod (2 ^ 255 - 19))%N) as [Hl ->]. rewrite andb_true_r.
  by apply bool_decide_eq_true_2.
Defined.

#[local] Instance zero_floats : FloatRepr := {| float_repr := fun _ => "0.0" |}.
#[local] Instance counted_times : Timestamps := {| timestamp := Z_to_string |}.
#[local] Instance any_start_payload : PayloadContracts := {| check_payload _ _ := Satisfied |}.
#[local] Instance no_json : JsonLoads := {| json_loads _ := None |}.
#[local] Instance small_payloads : ActivityPayloads := {| payload_bytes _ := 100%Z |}.

Definition sample_start_target : WorkflowStartTarget := {|
  wt_manifest := {| mf_logical_name := "orders"; mf_definition_digest := sample_digest "1";
                    mf_required_engine_workflow_abi := "justflow.workflow.v1"; mf_input_schema := None; mf_content := "" |};
  wt_deployment := {| wd_artifact_identity := sample_artifact;
                      wd_compatible_engine_workflow_abis := {["justflow.workflow.v1"]} |};
  wt_environment_snapshot_digest := sample_digest "2"; wt_scope_digest := Some (digest LOCAL_RUNTIME_SCOPE);
  wt_execution_configuration := None |}.

Definition sample_start_registration : WorkflowStartRegistration :=
  {| wr_target := sample_start_target; wr_triggers := [("orders_api", ApiTriggerDeclaration "orders" false)] |}.

Definition sample_start_settings : ScheduledStartSettings := {|
  max_horizon_seconds := 86400; clock_skew_seconds := 60; max_input_bytes := 1000; max_pending_per_scope := 10;
  default_list_limit := 10; max_list_limit := 50; max_schedules := 100; describe_concurrency := 5;
  terminal_retention_seconds := 3600; cleanup_page_size := 10; recovery_max_interval_seconds := 60;
  ss_settings_dispatch_timeout_seconds := 30; ss_settings_dispatch_attempts := 3; mutation_wait_seconds := 5 |}.

Definition sample_start_service : ScheduledStartService := {|
  sv_starter := {| st_task_queue := "queue"; st_limits := DEFAULT_RUNTIME_LIMITS; st_indexed_search_attributes := true;
                   st_pinned_start_attempts := 1 |};
  sv_settings := sample_start_settings; sv_task_queue := "queue";
  sv_priority := settings_priority {| allowed_classes := [STANDARD]; interactive_priority_key := 1;
                                      standard_priority_key := 3; batch_priority_key := 5;
                                      policy_fairness_weight := S754_zero false |};
  sv_quota := Some local_quota |}.

Definition sample_start_priority : Priority :=
  {| priority_key := 3; fairness_key := digest LOCAL_RUNTIME_SCOPE; fairness_weight := S754_zero false |}.

Definition sample_start_id : string := make_scheduled_start_id LOCAL_RUNTIME_SCOPE "orders" "42".

(** An hour ahead, two cancellations of it, its schedule that fires and two workers. *)
Definition sample_participants : list participant :=
  [ Creating {| sc_workflow_name := "orders"; sc_input := []; sc_business_request_id := "42"; sc_start_at := 3600000000;
                sc_workload_class := STANDARD |} "create-1" API "binding";
    Canceling sample_start_id 1 "cancel-1"; Canceling sample_start_id 1 "cancel-1"; Arbitrating sample_start_id 1;
    Arbitrating sample_start_id 1; Rescheduling sample_start_id {| srr_start_at := 7200000000; srr_expected_version := 1 |} "later-1" ].

Definition sample_pool : list (prog reply) :=
  participant_prog sample_start_service LOCAL_RUNTIME_SCOPE DEFAULT_RUNTIME_LIMITS sample_start_priority 5 5 5
    <$> sample_participants.

Definition sample_play (moves : list nat) : list (prog reply) * world :=
  play (Some sample_start_registration) moves sample_pool no_starts.

Definition accepted_moves : list nat := repeat 0 40.
Definition canceled_moves : list nat := repeat 1 3 ++ repeat 3 40 ++ repeat 1 20 ++ repeat 2 20 ++ repeat 5 20.

Definition accepted_play : list (prog reply) * world := sample_play accepted_moves.
Definition canceled_play : list (prog reply) * world :=
  play (Some sample_start_registration) canceled_moves accepted_play.1 accepted_play.2.

Lemma accepted_reached :
  reaches sample_start_service LOCAL_RUNTIME_SCOPE DEFAULT_RUNTIME_LIMITS sample_start_priority 5 5 5 sample_participants
    accepted_play.1 accepted_play.2.
Proof.
  unfold reaches. rewrite <- surjective_pairing. unfold accepted_play, sample_play, sample_pool. apply play_steps.
Qed.

Lemma canceled_follows : rtc pool_step (accepted_play.1, accepted_play.2) (canceled_play.1, canceled_play.2).
Proof. rewrite <- !surjective_pairing. rewrite (surjective_pairing accepted_play) at 1. apply play_steps. Qed.

Lemma canceled_reached :
  reaches sample_start_service LOCAL_RUNTIME_SCOPE DEFAULT_RUNTIME_LIMITS sample_start_priority 5 5 5 sample_participants
    canceled_play.1 canceled_play.2.
Proof. unfold reaches. etransitivity; [apply accepted_reached|apply canceled_follows]. Qed.

(** What the participant at a position replied, and what a schedule holds. *)
Definition replied_at (s : list (prog reply) * world) (i : nat) : option ScheduledStartMutationResult :=
  match s.1 !! i with Some (Ret (Mutated (Ok m))) => Some m | _ => None end.

Definition held_record (s : list (prog reply) * world) : option ScheduledStartRecord :=
  x ← w_schedules s.2 !! make_scheduled_start_schedule_id LOCAL_RUNTIME_SCOPE sample_start_id;
  described_record sample_start_service
    (description (make_scheduled_start_schedule_id LOCAL_RUNTIME_SCOPE sample_start_id) x) LOCAL_RUNTIME_SCOPE.

Lemma replied_done s i m : replied_at s i = Some m -> mr_status m <> IN_PROGRESS_STATUS -> done_with s.1 i m.
Proof.
  unfold replied_at, done_with. destruct (s.1 !! i) as [[[[m'|]|]|c k|]|] eqn:E; try done. by intros [= ->].
Qed.

Lemma held_stored s r :
  held_record s = Some r -> ss_id r = sample_start_id -> stored sample_start_service LOCAL_RUNTIME_SCOPE s.2 sample_start_id r.
Proof.
  unfold held_record, stored. destruct (w_schedules s.2 !! _) as [x|] eqn:E; [|done]. cbn. intros Hd Hid. by exists x.
Qed.

Definition first_cancellation := Eval vm_compute in replied_at canceled_play 1.
Definition second_cancellation := Eval vm_compute in replied_at canceled_play 2.
Definition accepted_record_held := Eval vm_compute in held_record accepted_play.
Definition canceled_record_held := Eval vm_compute in held_record canceled_play.

Lemma sample_quota : local_or_no_quota sample_start_service.
Proof. reflexivity. Qed.

(** The cancellation was made, its repetition recognises it, and the command that came
    too late is told of a conflict. *)
Example sample_statuses :
  (mr_status <$> first_cancellation, mr_status <$> second_cancellation, ss_state <$> accepted_record_held,
   ss_state <$> canceled_record_held, replied_at canceled_play 5)
  = (Some CANCELED_STATUS, Some DUPLICATE_STATUS, Some SCHEDULED, Some CANCELED, None).
Proof. vm_compute. reflexivity. Qed.

(** [one_command_wins] where a cancellation is sent twice. *)
Lemma one_command_wins_witness :
  match first_cancellation, second_cancellation with
  | Some m, Some m' => mr_scheduled_start m = mr_scheduled_start m'
  | _, _ => False
  end.
Proof.
  refine (proj2 (proj2 (one_command_wins _ _ _ _ _ _ _ _ _ _ 1 2 _ _ _ _ _ _ _ _ _ _ _ canceled_reached
    eq_refl eq_refl _ eq_refl eq_refl _))); [reflexivity|apply replied_done; [vm_compute; reflexivity|done]..].
Defined.

Lemma canceled_start_not_dispatched_witness :
  w_executions canceled_play.2 !! start_workflow_id LOCAL_RUNTIME_SCOPE "orders" "42" = None.
Proof.
  refine (canceled_start_not_dispatched _ _ _ _ _ _ _ _ _ _ 1 _ _ _ _ _ _ canceled_reached eq_refl _ _);
    [reflexivity|apply replied_done; [vm_compute; reflexivity|done]|].
  intros (request & binding & Hin & _). repeat (apply elem_of_cons in Hin as [?|Hin]; [done|]). by apply not_elem_of_nil in Hin.
Defined.


Lemma stored_records_decided_witness :
  match canceled_record_held with
  | Some r => exists i x t, arbiter LOCAL_RUNTIME_SCOPE canceled_play.2 i x
      /\ ex_argument x = ArbiterArgument (TerminalInput t) /\ at_projection t = r /\ record_step (ai_record i) r
  | None => False
  end.
Proof.
  destruct (stored_records_decided _ _ _ _ _ _ _ _ _ _ _ _ sample_quota canceled_reached
    (held_stored canceled_play _ ltac:(vm_compute; reflexivity) eq_refl)) as [_ [[Hpending _]|Hdecided]].
  - vm_compute in Hpending. discriminate Hpending.
  - destruct Hdecided as (i & x & t & ? & ? & Hr & _ & _ & Hstep). exists i, x, t. split_and!; try done.
Defined.
